(* ===== verification/_CoqProject ===== *)
-Q . S2P
Prelude.v
GoStrings.v
Clock.v
Address.v
RateLimit.v
Net.v
RealIP.v
Netip.v
Url.v
Config.v
Buffer.v
Ephemeral.v
Gate.v
HttpServer.v
Cimd.v
CimdFetch.v
KeyedMutex.v
Hydra.v
Clients.v
CimdResolver.v
Tokens.v
Approval.v
PushSubs.v
LastUsed.v
Base64.v
Keyset.v
SSHWire.v
Passkeys.v
Ceremonies.v
CeremonyProofs.v
Providers.v
Broker.v
HostKeys.v
PinStore.v
Seed.v
SignAgent.v
AgentClient.v
CredStore.v
AgentLogin.v
KeyDir.v
Terminal.v
AuditLog.v
AuditRead.v
SshAuth.v
SshTransport.v
Hub.v
HubManager.v
Keys.v
AgentProxy.v
AgentSession.v
RestEndpoints.v
McpTools.v
McpWatcher.v
RestActions.v
Migrate.v
Profile.v
Boot.v
Connect.v
Render.v
Listings.v
ClientLog.v
FakeClock.v
Instructions.v
