(* ===== verification/Prelude.v ===== *)
(** * ShellWatch backend: verification library

    ShellWatch is an SSH session broker: terminal sessions run on the server,
    browsers watch and drive them over WebSockets, agents drive them over MCP, and
    every use of a key is approved by a human with a passkey. This library models
    its Go code — the backend under src/internal and src/cmd/shellwatch and the
    agent of the user's machine under src/agent-client — as executable
    definitions, and proves what makes each part correct, alone and together.
    A definition has the name of the function, method or type it translates; the
    doc comment at the top of each file names the source files.

    ** How the program fits together

    [Boot] runs the start: [Config] loads the file, [Migrate] brings the schema up
    to date, [Seed] writes the administrator, and the server listens. [HttpServer]
    takes a request through the logger, [RealIP] (the client's address, the allow
    list), CORS, [RateLimit] and the bearer gate of [Gate], to a route: the
    passkey ceremonies ([Ceremonies], on [Tokens] and [Passkeys]), the providers
    of the OAuth side ([Providers], [CimdResolver], with the pages of [Render]),
    the REST handlers ([RestEndpoints], [RestActions], [Profile], [Clients],
    [Listings], [PushSubs], [AuditRead]), the agents' tools ([McpTools],
    [McpWatcher], on [AgentSession]), the browsers' WebSocket ([Hub]) and the
    agent proxy ([AgentProxy]). Terminal sessions live in [Terminal], with their
    output in [Buffer]. A session is opened by [SshAuth] over [SshTransport]: it
    offers the keys of [KeyDir] and the passkeys of [Passkeys], asks the host-key
    service ([HostKeys], implemented by [PinStore]) about the server's key, and
    each signature is a request of [Broker] on the registry of [Approval], which a
    human settles through [RestActions]. [Connect] adds the logs of failed
    connections; [AuditLog] is called by both registries. On the user's machine
    [AgentLogin] signs in, [CredStore] keeps the token and [AgentClient] relays.

    ** The files

    Foundations. [Prelude]: scopes, 64-bit wrap-around, slices, bytes, shared
    lemmas and the hint databases [sw] and [go]. [GoStrings], [Net], [Netip],
    [Url], [Base64], [Clock], [Keys]: what the program uses of Go's strings, net,
    net/netip, net/url, encoding/base64 and time packages, written out; [Keyset]:
    the paging that four readers share; [FakeClock]: the clock of the tests
    (clock/clock.go).

    Sessions. [Buffer] (terminal/buffer.go), [Terminal] (terminal/manager.go),
    [Hub] and [HubManager] (ws), [AgentSession] (agent/session.go), [McpWatcher]
    (mcp/resources.go), [McpTools] (mcp tools), [Instructions] (mcp/instructions.go,
    ids), [Listings].

    Approval and keys. [Approval] and [Broker] (approval), [SSHWire] (webauthn,
    signing), [SignAgent] (signagent), [AgentProxy] (agentproxy), [KeyDir]
    (sshx/keys.go), [SshAuth] and [SshTransport] (sshx), [HostKeys] and
    [PinStore] (sshx/hostkey.go, hostkeys, demo, endpointsvc, store/endpoints.go),
    [Connect].

    Accounts and passkeys. [Ephemeral] (ephemeral), [Tokens] (webauthn:
    challenges, step-up tokens, invites), [Passkeys] (store/credentials.go),
    [Ceremonies] and [CeremonyProofs] (webauthn routes), [Profile], [LastUsed].

    OAuth. [Gate] (auth, hydra/resolver.go), [Cimd], [CimdFetch], [KeyedMutex],
    [CimdResolver], [Hydra], [Providers], [Render] (hydra), [Clients], [ClientLog]
    (httpserver/clientlog.go).

    Server and logs. [Config], [Address], [RateLimit], [RealIP], [HttpServer],
    [RestEndpoints], [RestActions], [PushSubs], [AuditLog], [AuditRead], [Migrate],
    [Seed], [Boot].

    On the user's machine. [AgentClient], [CredStore], [AgentLogin].

    ** How state, concurrency and failure are modelled

    - Code under one mutex is one function on the state the mutex guards. Where
      goroutines interleave — [Terminal], [Hub], [McpWatcher], [AgentSession],
      [KeyedMutex], [LastUsed], [SshTransport], [AuditLog], [Broker] — a step is a
      critical section, a goroutine is a program counter or the list of the
      actions it has left, and the theorems quantify over every sequence of steps.
    - A database statement is a function on the rows, given as an argument
      whether it goes through; a failure may come between any two statements.
    - Callbacks and hooks are the list of effects an operation returns, in the
      order in which they are made.
    - Go's map order is an argument: the theorems hold for every order.
    - 64-bit integers wrap ([wrap64]); floats are binary64; a slice out of range
      is [None]; times are nanoseconds.
    - Third-party code is a parameter: COSE and WebAuthn checks, SSH handshake and
      agent protocol, SHA-256, YAML and JSON, regular expressions, goose, chi's
      router, the push services, Hydra. Where a theorem needs something of it, it
      is a named hypothesis, and the theorem's witness shows an instance.

    ** Interfaces

    [TTLStore] (Ephemeral) is what the stores of [Tokens] rely on; [Admin] (Hydra)
    is an arbitrary authorization server, of which [logged] and [ClientTable] are
    instances; [HostKeys] is the pin store a connection relies on, discharged in
    PinStore; [Hub.SessionManagerLaws] is what the hub relies on, discharged in
    HubManager for every run of the registry.

    ** What the theorems show

    - Approval. An action is settled at most once and in time; whoever waits for
      one is answered; a denial, an expiry or a lost claim signs nothing; a
      resolution needs the owner; the agents ask a human by exactly the calls they
      make and sign only what was approved.
    - Sessions. The life cycle only goes forward; a session leaves the registry
      once; closing completes; the output buffer is a window on the whole stream
      ([Buffer.Append_refines]); a browser sees the stream without gap or
      repetition, and only its account's ([HubManager.hub_client_view]); an agent
      acts on its own client's sessions; a long poll never sleeps over output.
    - Hosts. An established connection is to a host whose key was pinned or
      approved on it; a pin speaks for the current address; only passkeys and
      keys the account may use are offered; each key is tried once; the transport
      ends, and has delivered both streams unless it was closed from here; failed connections are logged once.
    - Accounts. A passkey becomes active only through the holder of an active
      one; a login proves a live passkey; the last one stays; step-up tokens are
      single-use and bound to account and action.
    - OAuth. Silent consent is for the web UI and remembered clients without a
      URL id; documents are vetted and dialled outside the special-use blocks; a
      page of the providers keeps its markup whatever a client is called.
    - Server. Every route that needs it is behind the gate; configurations that
      load are valid, up to two times that may be no number; migration and seeding settle; a database seeded from an
      export exports the same; the server listens only when it is ready.
    - The machine's agent. The relay is transparent; its dialling makes at most
      seven attempts and begins no wait that would end after its budget, though an
      attempt may; a login is bound to its browser. As long as the keyring is
      there for every call or for none, the token store is a map, and a restart
      finds the newest refresh token.

    ** Fuel and bounds

    Most recursion is on the text, the list or the steps given. Fuel stands where
    Go loops on something else, and is always enough: the splitting of a text into
    fields takes the text's length ([GoStrings]), an IPv6 address nine groups
    ([Net]), the relay and the agent's framing one more than the bytes there are
    ([AgentClient.relay_frames], [SignAgent]), a key's integer the number of
    divisions its value needs ([SSHWire.big_bytes_value]), reading the buffer more
    than its length ([Buffer.readAll_complete]), the label de-duplication one more
    than the labels there are ([Passkeys.Insert_total]), paging more than the rows
    left ([Keyset.all_pages_suffix], [AuditRead.notification_pages]). Dialling
    recurses on what the attempts meet, and ends after at most seven
    ([AgentClient.dial_ends]); the transport's schedules are bounded by a measure
    on what is left to copy ([SshTransport.transport_ends]).

    ** Not modelled

    Generated code (internal/api/api.gen.go, internal/store/gen: the statements
    are modelled as functions on the tables instead), test support
    (internal/hydratest, internal/webauthntest, internal/golden, the mock
    transport), pure I/O and formatting: the JSON texts of answers,
    buildinfo, apierr, config.js, the development proxy, log set-up; the wiring of
    main.go beyond the order of its fallible steps; the accept loop, socket files
    and named pipes of the agent and its command line; the opening of SQLite; the SSH handshake, the WebAuthn
    protocol checks and TLS, which are libraries'; the web client and the scripts'
    behaviour in a browser, which are not Go. *)
From Stdlib Require Import ZArith Lia.
From Stdlib Require Export Strings.Byte.
From stdpp Require Export base tactics numbers list option strings gmap sets.

#[global] Open Scope Z_scope.
#[global] Open Scope list_scope.

(** ** Notations *)

Declare Scope sw_scope.
Delimit Scope sw_scope with sw.

(** Go's [len], as an integer. *)
Abbreviation zlen l := (Z.of_nat (length l)).

(** ** Machine integers *)

(** The wrap-around of Go's 64-bit signed arithmetic ([int] and [int64] on a
    64-bit platform). *)
Definition wrap64 (z : Z) : Z := (z + 2 ^ 63) mod 2 ^ 64 - 2 ^ 63.

(** The values an [int64] can hold. *)
Definition in64 (z : Z) : Prop := - 2 ^ 63 <= z < 2 ^ 63.

(** Unsigned 32-bit wrap-around. *)
Definition wrapu32 (z : Z) : Z := z mod 2 ^ 32.

(** ** Byte slices *)

(** [b[lo:hi]] for [hi <= len b]; [None] is the run-time panic. *)
Definition slice {A} (l : list A) (lo hi : Z) : option (list A) :=
  if (0 <=? lo) && (lo <=? hi) && (hi <=? zlen l)
  then Some (take (Z.to_nat (hi - lo)) (drop (Z.to_nat lo) l))
  else None.

#[export] Instance byte_eq_decision : EqDecision byte := Byte.byte_eq_dec.

Definition byte_of_Z (z : Z) : byte :=
  default x00 (Byte.of_N (Z.to_N (z mod 256))).

Definition Z_of_byte (b : byte) : Z := Z.of_N (Byte.to_N b).

(** [binary.BigEndian.AppendUint32] / [PutUint32] of a 32-bit value. *)
Definition be32 (z : Z) : list byte :=
  [byte_of_Z (Z.shiftr z 24); byte_of_Z (Z.shiftr z 16);
   byte_of_Z (Z.shiftr z 8); byte_of_Z z].

(** [binary.BigEndian.Uint32] of the first four bytes of a slice. *)
Definition beU32 (l : list byte) : Z :=
  match l with
  | a :: b :: c :: d :: _ =>
      Z.shiftl (Z_of_byte a) 24 + Z.shiftl (Z_of_byte b) 16 +
      Z.shiftl (Z_of_byte c) 8 + Z_of_byte d
  | _ => 0
  end.

(** A Go string's bytes. *)
Definition bytes_of_string (s : string) : list byte := String.list_byte_of_string s.

(** ** Proof automation *)

(** Split every boolean test of the goal and of the hypotheses into its
    propositional reading. *)
Ltac bool_to_prop :=
  repeat match goal with
    | H : (_ && _) = true |- _ => apply andb_true_iff in H as [? ?]
    | H : (_ || _) = false |- _ => apply orb_false_iff in H as [? ?]
    | H : (_ && _) = false |- _ => apply andb_false_iff in H
    | H : (_ || _) = true |- _ => apply orb_true_iff in H
    | H : negb _ = true |- _ => apply negb_true_iff in H
    | H : negb _ = false |- _ => apply negb_false_iff in H
    | H : (_ <=? _) = true |- _ => apply Z.leb_le in H
    | H : (_ <=? _) = false |- _ => apply Z.leb_gt in H
    | H : (_ <? _) = true |- _ => apply Z.ltb_lt in H
    | H : (_ <? _) = false |- _ => apply Z.ltb_ge in H
    | H : (_ >? _) = _ |- _ => rewrite Z.gtb_ltb in H
    | H : (_ >=? _) = _ |- _ => rewrite Z.geb_leb in H
    | H : (_ =? _) = true |- _ => apply Z.eqb_eq in H
    | H : (_ =? _) = false |- _ => apply Z.eqb_neq in H
    | H : bool_decide _ = true |- _ => apply bool_decide_eq_true in H
    | H : bool_decide _ = false |- _ => apply bool_decide_eq_false in H
    end.

(** Case analysis on the tests a definition makes, innermost first. *)
Ltac split_ifs :=
  repeat (match goal with
    | |- context [if ?c then _ else _] =>
        lazymatch c with context [if _ then _ else _] => fail | _ => idtac end;
        let E := fresh "E" in destruct c eqn:E
    | H : context [if ?c then _ else _] |- _ =>
        lazymatch c with context [if _ then _ else _] => fail | _ => idtac end;
        let E := fresh "E" in destruct c eqn:E
    end; bool_to_prop; simplify_eq/=).

Create HintDb sw.

(** ** Generic lemmas *)

Lemma wrap64_id z : in64 z -> wrap64 z = z.
Proof. unfold in64, wrap64. intros. rewrite Z.mod_small; lia. Qed.

Lemma wrap64_range z : in64 (wrap64 z).
Proof.
  unfold in64, wrap64.
  pose proof (Z.mod_pos_bound (z + 2 ^ 63) (2 ^ 64) ltac:(lia)). lia.
Qed.

(** One overflow upwards wraps to a negative number. *)
Lemma wrap64_over z : 2 ^ 63 <= z < 2 ^ 64 -> wrap64 z = z - 2 ^ 64.
Proof.
  unfold wrap64. intros.
  replace (z + 2 ^ 63) with ((z - 2 ^ 63) + 1 * 2 ^ 64) by lia.
  rewrite Z.mod_add by lia. rewrite Z.mod_small by lia. lia.
Qed.

Lemma slice_Some {A} (l : list A) lo hi :
  0 <= lo <= hi -> hi <= zlen l ->
  slice l lo hi = Some (take (Z.to_nat (hi - lo)) (drop (Z.to_nat lo) l)).
Proof.
  intros. unfold slice.
  rewrite !(proj2 (Z.leb_le _ _)) by lia. done.
Qed.

Lemma slice_None {A} (l : list A) lo hi :
  hi < lo \/ lo < 0 \/ zlen l < hi -> slice l lo hi = None.
Proof. unfold slice. intros. split_ifs; lia || done. Qed.

Lemma slice_full {A} (l : list A) lo :
  0 <= lo <= zlen l -> slice l lo (zlen l) = Some (drop (Z.to_nat lo) l).
Proof.
  intros. rewrite slice_Some by lia. f_equal. apply take_ge.
  rewrite length_drop. lia.
Qed.

#[export] Hint Resolve wrap64_range : sw.
#[export] Hint Rewrite @length_app @length_drop @length_take @drop_drop @drop_app : sw.

(** ** Filtering with a bool predicate *)

Lemma NoDup_map_filter {A B} (f : A -> B) (p : A -> bool) l : NoDup (map f l) -> NoDup (map f (List.filter p l)).
Proof.
  induction l as [|x l IH]; [done|]. cbn [map List.filter]. intros [Hx Hl]%NoDup_cons. destruct (p x); [|by apply IH]. cbn [map].
  apply NoDup_cons. split; [|by apply IH]. intros (y & Hy & Hin)%list_elem_of_fmap. apply list_elem_of_In, filter_In in Hin as [Hin%list_elem_of_In _].
  apply Hx. rewrite Hy. by apply (list_elem_of_fmap_2 f).
Qed.

Lemma filter_perm {A} (p : A -> bool) l l' : l ≡ₚ l' -> List.filter p l ≡ₚ List.filter p l'.
Proof.
  induction 1 as [|x l l' _ IH|x y l|l1 l2 l3 _ IH1 _ IH2]; cbn [List.filter]; [done| | |by rewrite IH1].
  - destruct (p x); by rewrite IH.
  - destruct (p x), (p y); [apply Permutation_swap|done..].
Qed.

Lemma filter_all {A} (f : A -> bool) l : Forall (fun x => f x = true) l -> List.filter f l = l.
Proof. induction 1 as [|x l Hx _ IH]; [done|]. cbn [List.filter]. by rewrite Hx, IH. Qed.
