(* ===== verification/GoStrings.v ===== *)
(** * Go's strings package, as far as the program uses it

    Strings are byte strings ([string], one [ascii] per byte). [TrimSpace]
    knows the UTF-8 encodings of all the characters Go counts as space. *)
From S2P Require Import Prelude.
From Stdlib Require Import Ascii.

Definition strlen (s : string) : Z := Z.of_nat (String.length s).

Fixpoint HasPrefix (s p : string) : bool :=
  match p, s with
  | EmptyString, _ => true
  | String b p, String a s => bool_decide (a = b) && HasPrefix s p
  | _, EmptyString => false
  end.

(** [s[n:]] for [n <= len s]. *)
Fixpoint drop_str (n : nat) (s : string) : string :=
  match n, s with
  | S n, String _ s => drop_str n s
  | _, _ => s
  end.

(** [s[:n]] for [n <= len s]. *)
Fixpoint take_str (n : nat) (s : string) : string :=
  match n, s with
  | S n, String a s => String a (take_str n s)
  | _, _ => EmptyString
  end.

(** [IndexByte] and [LastIndexByte]; [None] is -1. *)
Fixpoint IndexByte_str (s : string) (c : ascii) : option nat :=
  match s with
  | EmptyString => None
  | String a s => if bool_decide (a = c) then Some 0%nat else S <$> IndexByte_str s c
  end.

Fixpoint LastIndexByte_str (s : string) (c : ascii) : option nat :=
  match s with
  | EmptyString => None
  | String a s =>
      match LastIndexByte_str s c with
      | Some n => Some (S n)
      | None => if bool_decide (a = c) then Some 0%nat else None
      end
  end.

(** [strings.Split] for a one-byte separator. *)
Fixpoint Split (s : string) (c : ascii) : list string :=
  match s with
  | EmptyString => [EmptyString]
  | String a s =>
      if bool_decide (a = c) then EmptyString :: Split s c
      else match Split s c with
           | [] => [String a EmptyString]
           | w :: ws => String a w :: ws
           end
  end.

(** [strings.Join]. *)
Fixpoint Join (l : list string) (sep : string) : string :=
  match l with
  | [] => EmptyString
  | [w] => w
  | w :: ws => (w ++ sep ++ Join ws sep)%string
  end.

Fixpoint rev_str (s acc : string) : string :=
  match s with EmptyString => acc | String a s => rev_str s (String a acc) end.

Definition byte_str (n : N) : string := String (ascii_of_N n) EmptyString.

Definition str_of_bytes (l : list N) : string := foldr (fun n s => String (ascii_of_N n) s) EmptyString l.

(** The encodings of the runes for which unicode.IsSpace holds. *)
Definition spaces : list string :=
  map (fun n => byte_str n) [9; 10; 11; 12; 13; 32]%N ++
  map str_of_bytes
    ([[0xc2; 0x85]; [0xc2; 0xa0]; [0xe1; 0x9a; 0x80]; [0xe2; 0x80; 0xa8]; [0xe2; 0x80; 0xa9]; [0xe2; 0x80; 0xaf];
      [0xe2; 0x81; 0x9f]; [0xe3; 0x80; 0x80]] ++
     map (fun n => [0xe2; 0x80; n]) [0x80; 0x81; 0x82; 0x83; 0x84; 0x85; 0x86; 0x87; 0x88; 0x89; 0x8a])%N.

(** Strip encodings off the front, as long as there is one. *)
Definition strip_one (encodings : list string) (s : string) : option string :=
  match List.find (fun p => HasPrefix s p) encodings with
  | Some p => Some (drop_str (String.length p) s)
  | None => None
  end.

Fixpoint strip (fuel : nat) (encodings : list string) (s : string) : string :=
  match fuel with
  | O => s
  | S fuel => match strip_one encodings s with Some s' => strip fuel encodings s' | None => s end
  end.

Definition TrimLeftSpace (s : string) : string := strip (String.length s) spaces s.
Definition TrimRightSpace (s : string) : string :=
  rev_str (strip (String.length s) (map (fun p => rev_str p EmptyString) spaces) (rev_str s EmptyString)) EmptyString.
Definition TrimSpace (s : string) : string := TrimRightSpace (TrimLeftSpace s).

(** [strings.Fields]: the maximal runs of text between white space. *)
Fixpoint fields_from (fuel : nat) (word : string) (s : string) : list string :=
  let emit := if bool_decide (word = EmptyString) then [] else [rev_str word EmptyString] in
  match fuel with
  | O => emit
  | S fuel =>
      match strip_one spaces s with
      | Some s' => emit ++ fields_from fuel EmptyString s'
      | None => match s with EmptyString => emit | String a s' => fields_from fuel (String a word) s' end
      end
  end.
Definition Fields (s : string) : list string := fields_from (S (String.length s)) EmptyString s.

(** [strings.TrimRight(s, "/")]. *)
Fixpoint TrimRight_char (s : string) (c : ascii) : string :=
  match s with
  | EmptyString => EmptyString
  | String a s =>
      match TrimRight_char s c with
      | EmptyString => if bool_decide (a = c) then EmptyString else String a EmptyString
      | s' => String a s'
      end
  end.

Definition is_digit (a : ascii) : bool := ((48 <=? N_of_ascii a) && (N_of_ascii a <=? 57))%N.
Definition digit_value (a : ascii) : Z := Z.of_N (N_of_ascii a) - 48.

Fixpoint forall_str (p : ascii -> bool) (s : string) : bool :=
  match s with EmptyString => true | String a s => p a && forall_str p s end.

(** The value of a string of decimal digits. *)
Fixpoint decimal_acc (s : string) (acc : Z) : Z :=
  match s with EmptyString => acc | String a s => decimal_acc s (10 * acc + digit_value a) end.
Definition decimal (s : string) : Z := decimal_acc s 0.

(** [strconv.Itoa] of a number that is not negative. *)
Fixpoint itoa_acc (fuel : nat) (n : Z) (acc : string) : string :=
  match fuel with
  | O => acc
  | S fuel =>
      let acc := String (ascii_of_N (Z.to_N (48 + n mod 10))) acc in
      if n / 10 =? 0 then acc else itoa_acc fuel (n / 10) acc
  end.
Definition itoa (n : Z) : string := itoa_acc (S (Z.to_nat (Z.log2 n))) n EmptyString.

(** ** Lemmas *)

(** Visible ASCII characters. *)
Definition graphic (a : ascii) : bool := ((33 <=? N_of_ascii a) && (N_of_ascii a <=? 126))%N.

Lemma app_str_cons a s t : (String a s ++ t)%string = String a (s ++ t)%string.
Proof. done. Qed.
Lemma app_str_nil t : ("" ++ t)%string = t.
Proof. done. Qed.
#[export] Hint Rewrite app_str_cons app_str_nil : go.

Lemma HasPrefix_nil s : HasPrefix s "" = true.
Proof. by destruct s. Qed.

Lemma forall_app_str p s t : forall_str p (s ++ t) = forall_str p s && forall_str p t.
Proof. induction s as [|a s IH]; autorewrite with go; simpl; [done|]. by rewrite IH, andb_assoc. Qed.

Lemma forall_str_impl p q s : (forall a, p a = true -> q a = true) -> forall_str p s = true -> forall_str q s = true.
Proof.
  intros Hpq. induction s as [|a s IH]; autorewrite with go; simpl; [done|]. intros [Ha Hs]%andb_true_iff.
  by rewrite (Hpq a Ha), IH.
Qed.

Lemma app_str_nil_r (s : string) : (s ++ "")%string = s.
Proof. induction s as [|a s IH]; [done|]. autorewrite with go; simpl. by rewrite IH. Qed.

Lemma app_str_assoc (s t u : string) : ((s ++ t) ++ u)%string = (s ++ t ++ u)%string.
Proof. induction s as [|a s IH]; [done|]. autorewrite with go; simpl. by rewrite IH. Qed.

Lemma length_app_str (s t : string) : String.length (s ++ t) = (String.length s + String.length t)%nat.
Proof. induction s as [|a s IH]; [done|]. autorewrite with go; simpl. by rewrite IH. Qed.

Lemma take_app_str s t : take_str (String.length s) (s ++ t) = s.
Proof. induction s as [|a s IH]; autorewrite with go; simpl; [by destruct t|]. by rewrite IH. Qed.

Lemma drop_app_str s t : drop_str (String.length s) (s ++ t) = t.
Proof. induction s as [|a s IH]; autorewrite with go; simpl; [by destruct t|]. by rewrite IH. Qed.

Lemma drop_app_str_S s a t : drop_str (String.length s + 1) (s ++ String a t) = t.
Proof. induction s as [|b s IH]; autorewrite with go; simpl; [by destruct t|]. by rewrite IH. Qed.

Lemma IndexByte_str_app s c t :
  forall_str (fun a => negb (bool_decide (a = c))) s = true ->
  IndexByte_str (s ++ String c t) c = Some (String.length s).
Proof.
  induction s as [|a s IH]; autorewrite with go; simpl; intros Hs; [by rewrite bool_decide_true|].
  apply andb_true_iff in Hs as [Ha Hs]. destruct (bool_decide (a = c)); [done|]. by rewrite IH.
Qed.

Lemma LastIndexByte_str_none s c :
  forall_str (fun a => negb (bool_decide (a = c))) s = true -> LastIndexByte_str s c = None.
Proof.
  induction s as [|a s IH]; autorewrite with go; simpl; intros Hs; [done|].
  apply andb_true_iff in Hs as [Ha Hs]. rewrite IH by done. by destruct (bool_decide (a = c)).
Qed.

Lemma LastIndexByte_str_app s c t :
  forall_str (fun a => negb (bool_decide (a = c))) t = true ->
  LastIndexByte_str (s ++ String c t) c = Some (String.length s).
Proof.
  intros Ht. induction s as [|a s IH]; autorewrite with go; simpl.
  - by rewrite LastIndexByte_str_none, bool_decide_true.
  - by rewrite IH.
Qed.

Lemma rev_str_app s acc : rev_str s acc = (rev_str s "" ++ acc)%string.
Proof.
  revert acc. induction s as [|a s IH]; intros acc; autorewrite with go; simpl; [done|].
  rewrite IH, (IH (String a "")), app_str_assoc. done.
Qed.

Lemma rev_str_snoc s a : rev_str (s ++ String a "") "" = String a (rev_str s "").
Proof.
  induction s as [|b s IH]; [done|]. autorewrite with go; simpl. rewrite rev_str_app, IH, (rev_str_app s (String b "")). done.
Qed.

Lemma rev_str_involutive s : rev_str (rev_str s "") "" = s.
Proof.
  induction s as [|a s IH]; [done|]. autorewrite with go; simpl.
  by rewrite (rev_str_app s (String a "")), rev_str_snoc, IH.
Qed.

(** A visible character is not the beginning or the end of a space. *)
Definition starts_invisible (p : string) : bool :=
  match p with String a _ => negb (graphic a) | EmptyString => false end.

Lemma strip_one_graphic encs a s :
  forallb starts_invisible encs = true -> graphic a = true -> strip_one encs (String a s) = None.
Proof.
  intros He Ha. unfold strip_one. enough (List.find (fun p => HasPrefix (String a s) p) encs = None) as -> by done.
  induction encs as [|p encs IH]; [done|]. simpl in *. apply andb_true_iff in He as [Hp He].
  destruct p as [|b p]; [done|]. simpl in Hp. 
  destruct (decide (a = b)) as [->|]; [by rewrite Ha in Hp|]. rewrite bool_decide_false by done. by apply IH.
Qed.

Lemma strip_graphic encs fuel a s :
  forallb starts_invisible encs = true -> graphic a = true -> strip fuel encs (String a s) = String a s.
Proof. intros He Ha. destruct fuel; [done|]. autorewrite with go; simpl. by rewrite strip_one_graphic. Qed.

(** Text whose first and last characters are visible is left alone. *)
Lemma TrimSpace_graphic a s b t :
  graphic a = true -> graphic b = true -> String a s = (t ++ String b "")%string -> TrimSpace (String a s) = String a s.
Proof.
  intros Ha Hb E. unfold TrimSpace, TrimLeftSpace.
  rewrite strip_graphic by done. unfold TrimRightSpace. rewrite E, rev_str_snoc, strip_graphic by done.
  by rewrite <- rev_str_snoc, rev_str_involutive.
Qed.

Lemma last_char s a : exists t b, String a s = (t ++ String b "")%string.
Proof.
  revert a. induction s as [|c s IH]; intros a; [by exists "", a|].
  destruct (IH c) as (t & b & E). exists (String a t), b. simpl. by rewrite E.
Qed.

Lemma TrimSpace_all_graphic s : forall_str graphic s = true -> TrimSpace s = s.
Proof.
  destruct s as [|a s]; [done|]. intros Hs. destruct (last_char s a) as (t & b & E).
  eapply TrimSpace_graphic; [| |exact E].
  - simpl in Hs. by apply andb_true_iff in Hs as [? _].
  - rewrite E, forall_app_str in Hs. apply andb_true_iff in Hs as [_ Hs]. simpl in Hs. by rewrite andb_true_r in Hs.
Qed.

(** *** Decimal numbers *)

Lemma digit_char n : 0 <= n < 10 ->
  is_digit (ascii_of_N (Z.to_N (48 + n))) = true /\ digit_value (ascii_of_N (Z.to_N (48 + n))) = n.
Proof.
  intros Hn. destruct (Z_of_nat_complete n) as [k ->]; [lia|].
  do 10 (destruct k as [|k]; [by split|]). lia.
Qed.

Lemma decimal_acc_spec s acc :
  decimal_acc s acc = acc * 10 ^ Z.of_nat (String.length s) + decimal_acc s 0.
Proof.
  revert acc. induction s as [|a s IH]; intros acc; [simpl; lia|]. cbn [decimal_acc String.length].
  rewrite IH, (IH (10 * 0 + digit_value a)), Nat2Z.inj_succ, Z.pow_succ_r by lia. lia.
Qed.

Lemma itoa_acc_spec fuel n acc :
  0 <= n -> Z.log2 n < Z.of_nat fuel ->
  exists ds, itoa_acc fuel n acc = (ds ++ acc)%string /\ ds <> EmptyString /\ forall_str is_digit ds = true /\
    decimal ds = n.
Proof.
  revert n acc. induction fuel as [|fuel IH]; intros n acc Hn Hf.
  { pose proof (Z.log2_nonneg n). lia. }
  destruct (digit_char (n mod 10)) as [Hd Hv]; [apply Z.mod_pos_bound; lia|].
  cbn [itoa_acc]. set (c := ascii_of_N _) in *. destruct (n / 10 =? 0) eqn:E; bool_to_prop.
  - exists (String c ""). split; [done|]. split; [done|]. cbn [forall_str]. rewrite Hd. split; [done|].
    unfold decimal. cbn [decimal_acc]. rewrite Hv. pose proof (Z.div_mod n 10). lia.
  - assert (Hten : 10 <= n) by (destruct (Z.lt_ge_cases n 10); [by rewrite Z.div_small in E by lia|done]).
    assert (Hlog : Z.log2 (n / 10) < Z.of_nat fuel).
    { assert (n / 10 <= n / 2) by (apply Z.div_le_compat_l; lia).
      assert (0 < n / 10) by (apply Z.div_str_pos; lia).
      pose proof (Z.log2_le_mono (n / 10) (n / 2) ltac:(lia)).
      assert (Z.log2 (n / 2) = Z.log2 n - 1); [|lia].
      rewrite <- Z.div2_div, Z.div2_spec, Z.log2_shiftr by lia.
      assert (1 <= Z.log2 n); [|lia]. apply Z.log2_le_pow2; lia. }
    destruct (IH (n / 10) (String c acc)) as (ds & He & Hne & Hall & Hval); [apply Z.div_pos; lia|done|].
    exists (ds ++ String c "")%string. rewrite He, app_str_assoc. split; [done|]. split; [by destruct ds|].
    rewrite forall_app_str, Hall. cbn [forall_str]. rewrite Hd. split; [done|].
    unfold decimal in *. clear He Hne Hall Hlog IH.
    assert (Happ : forall s acc, decimal_acc (s ++ String c "") acc = 10 * decimal_acc s acc + n mod 10).
    { intros s. induction s as [|a s IHs]; intros acc'; autorewrite with go; cbn [decimal_acc]; [by rewrite Hv|]. apply IHs. }
    rewrite Happ, Hval. pose proof (Z.div_mod n 10). lia.
Qed.

Lemma itoa_spec n : 0 <= n ->
  itoa n <> EmptyString /\ forall_str is_digit (itoa n) = true /\ decimal (itoa n) = n.
Proof.
  intros Hn. unfold itoa. destruct (itoa_acc_spec (S (Z.to_nat (Z.log2 n))) n "" Hn) as (ds & -> & H).
  - pose proof (Z.log2_nonneg n). lia.
  - by rewrite app_str_nil_r.
Qed.

(** *** Prefixes *)

Lemma HasPrefix_app_r s t p : HasPrefix s p = true -> HasPrefix (s ++ t)%string p = true.
Proof.
  revert s. induction p as [|c p IH]; intros s; [by rewrite !HasPrefix_nil|].
  destruct s as [|a s]; [done|]. rewrite app_str_cons. simpl. rewrite !andb_true_iff. intros [-> H]. auto.
Qed.

(** *** Suffixes, substrings, numbers *)

Definition HasSuffix (s p : string) : bool :=
  (String.length p <=? String.length s)%nat && bool_decide (drop_str (String.length s - String.length p) s = p).

Lemma take_drop_str n s : (take_str n s ++ drop_str n s)%string = s.
Proof.
  revert s. induction n as [|n IH]; intros [|a s]; [done..|]. cbn [take_str drop_str]. by rewrite app_str_cons, IH.
Qed.

Lemma HasSuffix_app s p : HasSuffix (s ++ p) p = true.
Proof.
  unfold HasSuffix. rewrite length_app_str, Nat.add_sub, drop_app_str. apply andb_true_iff. split; [apply Nat.leb_le; lia|by apply bool_decide_eq_true].
Qed.

Lemma HasSuffix_spec s p : HasSuffix s p = true <-> exists base, s = (base ++ p)%string.
Proof.
  split; [|intros [base ->]; apply HasSuffix_app]. unfold HasSuffix. rewrite andb_true_iff, bool_decide_eq_true. intros [_ H].
  exists (take_str (String.length s - String.length p) s). rewrite <- (take_drop_str (String.length s - String.length p) s) at 1. by rewrite H.
Qed.

(** [strings.Contains]. *)
Fixpoint Contains_str (s p : string) : bool :=
  HasPrefix s p || match s with EmptyString => false | String _ s => Contains_str s p end.

(** [strconv.Atoi]: a sign, digits, and a value that fits. *)
Definition Atoi64 (s : string) : option Z :=
  let digits (sign : Z) (s : string) :=
    if negb (bool_decide (s = EmptyString)) && forall_str is_digit s then
      let n := sign * decimal s in
      if (- 2 ^ 63 <=? n) && (n <? 2 ^ 63) then Some n else None
    else None in
  match s with
  | String "+" s' => digits 1 s'
  | String "-" s' => digits (-1) s'
  | _ => digits 1 s
  end.
