(* ===== verification/Clock.v ===== *)
(** * Time stamps (internal/clock/clock.go)

    Instants are nanoseconds since 1970 as integers. [ISO] renders one in the
    format of the database and of the API, with the proleptic Gregorian calendar
    of Go's package time; the readers of the log tables compare such texts byte
    by byte. *)
From S2P Require Import Prelude GoStrings.
From Stdlib Require Import Ascii OrderedTypeEx.
#[local] Open Scope Z_scope.

(** ** The calendar *)

Definition leap (y : Z) : bool := ((y mod 4 =? 0) && negb (y mod 100 =? 0)) || (y mod 400 =? 0).

(** Year and day of the year (from 0) of a day, counted from 1970-01-01. *)
Definition year_day (d : Z) : Z * Z :=
  let a := d + 719162 in
  let r := a mod 146097 in
  let n100 := Z.min 3 (r / 36524) in
  let r := r - 36524 * n100 in
  let n4 := r / 1461 in
  let r := r mod 1461 in
  let n1 := Z.min 3 (r / 365) in
  (400 * (a / 146097) + 100 * n100 + 4 * n4 + n1 + 1, r - 365 * n1).

Definition month_lengths (lp : bool) : list Z := [31; if lp then 29 else 28; 31; 30; 31; 30; 31; 31; 30; 31; 30; 31].

Fixpoint month_day (lens : list Z) (m yday : Z) : Z * Z :=
  match lens with
  | [] => (m, yday + 1)
  | n :: lens => if yday <? n then (m, yday + 1) else month_day lens (m + 1) (yday - n)
  end.

Definition civil (d : Z) : Z * Z * Z :=
  let '(y, yd) := year_day d in
  let '(m, md) := month_day (month_lengths (leap y)) 1 yd in
  (y, m, md).

(** ** The format *)

(** A number with leading zeros. *)
Fixpoint pad (w : nat) (n : Z) : string :=
  match w with
  | O => EmptyString
  | S w => (pad w (n / 10) ++ byte_str (Z.to_N (48 + n mod 10)))%string
  end.

Fixpoint render (fields : list (string * nat)) (values : list Z) : string :=
  match fields, values with
  | (sep, w) :: fields, v :: values => (sep ++ pad w v ++ render fields values)%string
  | _, _ => "Z"
  end.

(** "2006-01-02T15:04:05.000Z" *)
Definition ISOMillis : list (string * nat) :=
  [(EmptyString, 4); ("-", 2); ("-", 2); ("T", 2); (":", 2); (":", 2); (".", 3)]%string%nat.

Definition millisecond : Z := 1000000.
Definition day_ms : Z := 86400000.

Definition fields (ms : Z) : list Z :=
  let '(y, m, d) := civil (ms / day_ms) in
  let t := ms mod day_ms in
  [y; m; d; t / 3600000; (t / 60000) mod 60; (t / 1000) mod 60; t mod 1000].

Definition ISO (t : Z) : string := render ISOMillis (fields (t / millisecond)).

(** [t.Sub u]: the difference, as far as a Duration holds it. *)
Definition Sub (t u : Z) : Z := Z.max (- 2 ^ 63) (Z.min (2 ^ 63 - 1) (t - u)).

Definition Milliseconds (d : Z) : Z := Z.quot d millisecond.

(** ** The calendar follows the rules *)

Definition next_day (x : Z * Z * Z) : Z * Z * Z :=
  let '(y, m, d) := x in
  if d <? nth (Z.to_nat (m - 1)) (month_lengths (leap y)) 0 then (y, m, d + 1)
  else if m <? 12 then (y, m + 1, 1) else (y + 1, 1, 1).

Definition year_length (y : Z) : Z := if leap y then 366 else 365.

Lemma leap_spec y : leap y = true <-> (y mod 4 = 0 /\ y mod 100 <> 0) \/ y mod 400 = 0.
Proof. unfold leap. rewrite orb_true_iff, andb_true_iff, negb_true_iff, !Z.eqb_eq, Z.eqb_neq. done. Qed.

(** One digit of a day in the cycle of 400 years: its last value may be one
    longer than the others. *)
Lemma cycle_digit n k r : 0 < n -> 0 <= k -> 0 <= r <= n * (k + 1) ->
  exists q, Z.min k (r / n) = q /\ 0 <= q <= k /\ 0 <= r - n * q <= n /\ (r - n * q = n -> q = k).
Proof.
  intros Hn Hk Hr. exists (Z.min k (r / n)). pose proof (Z.div_mod r n). pose proof (Z.mod_pos_bound r n Hn).
  assert (0 <= r / n) by (apply Z.div_pos; lia). split; [done|]. destruct (Z.min_spec k (r / n)) as [[? ->]|[? ->]]; nia.
Qed.

Lemma year_day_digits d : exists c n100 n4 n1 yd,
  d + 719162 = 146097 * c + 36524 * n100 + 1461 * n4 + 365 * n1 + yd /\
  0 <= n100 <= 3 /\ 0 <= n4 <= 24 /\ 0 <= n1 <= 3 /\ 0 <= yd /\
  year_day d = (400 * c + 100 * n100 + 4 * n4 + n1 + 1, yd) /\
  yd < 365 + (if bool_decide (n1 = 3 /\ (n4 <> 24 \/ n100 = 3)) then 1 else 0).
Proof.
  unfold year_day. pose proof (Z.div_mod (d + 719162) 146097). pose proof (Z.mod_pos_bound (d + 719162) 146097).
  generalize dependent ((d + 719162) / 146097). intros c. generalize dependent ((d + 719162) mod 146097). intros r Hr Ha.
  destruct (cycle_digit 36524 3 r) as (n100 & -> & H1 & H2 & H3); [lia..|].
  pose proof (Z.div_mod (r - 36524 * n100) 1461). pose proof (Z.mod_pos_bound (r - 36524 * n100) 1461).
  generalize dependent ((r - 36524 * n100) / 1461). intros n4. generalize dependent ((r - 36524 * n100) mod 1461). intros r4 Hr4 Hn4.
  destruct (cycle_digit 365 3 r4) as (n1 & -> & H4 & H5 & H6); [lia..|].
  exists c, n100, n4, n1, (r4 - 365 * n1). split_and!; try lia; [done|].
  case_bool_decide as Hb; [lia|]. destruct (decide (n1 = 3)) as [->|]; [|lia].
  destruct (decide (n4 = 24)) as [->|]; [|lia]. destruct (decide (n100 = 3)); lia.
Qed.

(** Days before a year. *)
Definition year_start (y : Z) : Z := 365 * (y - 1) + (y - 1) / 4 - (y - 1) / 100 + (y - 1) / 400.

Lemma year_start_next y : year_start (y + 1) = year_start y + year_length y.
Proof.
  unfold year_start, year_length. replace (y + 1 - 1) with y by lia. pose proof (leap_spec y) as Hl.
  destruct (leap y); [destruct (proj1 Hl eq_refl) as [[]|]; Z.to_euclidean_division_equations; lia|].
  assert ((y mod 4 <> 0 \/ y mod 100 = 0) /\ y mod 400 <> 0) as [Hy ?] by (clear -Hl; destruct Hl as [_ Hl]; split; [|intros H; specialize (Hl (or_intror H)); done];
    destruct (decide (y mod 4 <> 0)); [by left|]; destruct (decide (y mod 100 = 0)); [by right|]; exfalso; assert (false = true) by (apply Hl; lia); done).
  destruct Hy; Z.to_euclidean_division_equations; lia.
Qed.

Lemma year_start_le y y' : y <= y' -> year_start y <= year_start y'.
Proof. intros Hy. unfold year_start. Z.to_euclidean_division_equations. lia. Qed.

Lemma year_day_spec d : exists y yd, year_day d = (y, yd) /\ d + 719162 = year_start y + yd /\ 0 <= yd < year_length y.
Proof.
  destruct (year_day_digits d) as (c & n100 & n4 & n1 & yd & Hd & H1 & H2 & H3 & H4 & E & H5).
  exists (400 * c + 100 * n100 + 4 * n4 + n1 + 1), yd. split; [done|].
  assert (year_start (400 * c + 100 * n100 + 4 * n4 + n1 + 1) = 146097 * c + 36524 * n100 + 1461 * n4 + 365 * n1) as Hs
    by (unfold year_start; Z.to_euclidean_division_equations; lia).
  split; [lia|]. split; [done|]. revert H5. unfold year_length. pose proof (leap_spec (400 * c + 100 * n100 + 4 * n4 + n1 + 1)) as Hl.
  case_bool_decide as Hb; [|destruct (leap _); lia]. destruct (leap _); [lia|]. destruct Hl as [_ Hl].
  assert (false = true); [|done]. apply Hl. destruct Hb as [-> Hb]. clear -H1 H2 Hb. Z.to_euclidean_division_equations. lia.
Qed.

Lemma year_day_unique d y yd : d + 719162 = year_start y + yd -> 0 <= yd < year_length y -> year_day d = (y, yd).
Proof.
  intros Hd Hyd. destruct (year_day_spec d) as (y' & yd' & -> & Hd' & Hyd').
  pose proof (year_start_next y). pose proof (year_start_next y').
  assert (~ y < y') by (intros; pose proof (year_start_le (y + 1) y'); lia).
  assert (~ y' < y) by (intros; pose proof (year_start_le (y' + 1) y); lia).
  assert (y' = y) as -> by lia. f_equal. lia.
Qed.

(** One year, day by day. *)
Definition month_day_ok (lp : bool) (yd : Z) : bool :=
  let '(m, md) := month_day (month_lengths lp) 1 yd in
  (1 <=? m) && (m <=? 12) && (1 <=? md) && (md <=? 31) &&
  (if md <? nth (Z.to_nat (m - 1)) (month_lengths lp) 0 then
     bool_decide (month_day (month_lengths lp) 1 (yd + 1) = (m, md + 1)) && (yd + 1 <? (if lp then 366 else 365))
   else if m <? 12 then
     bool_decide (month_day (month_lengths lp) 1 (yd + 1) = (m + 1, 1)) && (yd + 1 <? (if lp then 366 else 365))
   else yd + 1 =? (if lp then 366 else 365)).

Lemma month_day_next (lp : bool) yd : 0 <= yd < (if lp then 366 else 365) -> month_day_ok lp yd = true.
Proof.
  intros Hyd. assert (forallb (fun n : nat => month_day_ok lp (Z.of_nat n)) (List.seq 0 (if lp then 366 else 365)) = true) as H by (destruct lp; vm_compute; done).
  rewrite forallb_forall in H. specialize (H (Z.to_nat yd)). rewrite Z2Nat.id in H by lia. apply H, in_seq. destruct lp; lia.
Qed.

(** The calendar counts as people do. *)
Lemma civil_next d : civil (d + 1) = next_day (civil d).
Proof.
  unfold civil. destruct (year_day_spec d) as (y & yd & -> & Hd & Hyd). pose proof Hyd as Hok. unfold year_length in Hok.
  apply month_day_next in Hok. unfold month_day_ok in Hok. destruct (month_day (month_lengths (leap y)) 1 yd) as [m md]. unfold next_day.
  apply andb_true_iff in Hok as [_ Hok]. pose proof (year_start_next y) as Hn. unfold year_length in *.
  destruct (_ <? nth _ _ _); [|destruct (m <? 12)].
  1,2: apply andb_true_iff in Hok as [Hm Hlt]; apply bool_decide_eq_true in Hm; apply Z.ltb_lt in Hlt;
    rewrite (year_day_unique (d + 1) y (yd + 1)) by (unfold year_length; lia); by rewrite Hm.
  apply Z.eqb_eq in Hok. rewrite (year_day_unique (d + 1) (y + 1) 0) by (unfold year_length; destruct (leap (y + 1)); lia).
  by destruct (leap (y + 1)).
Qed.

Lemma civil_ranges d : let '(y, m, md) := civil d in 1 <= m <= 12 /\ 1 <= md <= 31.
Proof.
  unfold civil. destruct (year_day_spec d) as (y & yd & -> & Hd & Hyd). unfold year_length in Hyd.
  apply month_day_next in Hyd. unfold month_day_ok in Hyd. destruct (month_day _ 1 yd) as [m md].
  rewrite !andb_true_iff, !Z.leb_le in Hyd. lia.
Qed.

Definition day_key (d : Z) : Z := let '(y, m, md) := civil d in (y * 100 + m) * 100 + md.

Lemma day_key_next d : day_key d < day_key (d + 1).
Proof.
  unfold day_key. rewrite civil_next. pose proof (civil_ranges d) as H. destruct (civil d) as [[y m] md]. unfold next_day.
  destruct (_ <? nth _ _ _); [|destruct (Z.ltb_spec m 12)]; lia.
Qed.

Lemma day_key_mono d d' : d < d' -> day_key d < day_key d'.
Proof.
  intros H. replace d' with (d + Z.of_nat (Z.to_nat (d' - d))) by lia.
  assert (0 < Z.to_nat (d' - d))%nat as Hn by lia. generalize dependent (Z.to_nat (d' - d)). clear H. intros n Hn.
  induction n as [|n IH]; [lia|]. replace (d + Z.of_nat (S n)) with (d + Z.of_nat n + 1) by lia.
  pose proof (day_key_next (d + Z.of_nat n)). destruct (decide (n = 0)%nat) as [->|]; [by replace (d + Z.of_nat 0) with d in * by lia|].
  specialize (IH ltac:(lia)). lia.
Qed.

Example civil_epoch : civil 0 = (1970, 1, 1) /\ civil 19782 = (2024, 2, 29) /\ civil 2932896 = (9999, 12, 31).
Proof. by vm_compute. Qed.

(** ** Texts compare as in the database, byte by byte *)

Definition text_lt (a b : string) : bool := match String.compare a b with Lt => true | _ => false end.

Lemma text_lt_lts a b : text_lt a b = true <-> String_as_OT.lt a b.
Proof. rewrite <- String_as_OT.cmp_lt. unfold text_lt, String_as_OT.cmp. by destruct (String.compare a b). Qed.

Lemma text_lt_trans a b c : text_lt a b = true -> text_lt b c = true -> text_lt a c = true.
Proof. rewrite !text_lt_lts. apply String_as_OT.lt_trans. Qed.

Lemma text_lt_irrefl a : text_lt a a = false.
Proof.
  destruct (text_lt a a) eqn:E; [|done]. unfold text_lt in E. pose proof (String.compare_antisym a a) as H.
  by destruct (String.compare a a).
Qed.

Lemma text_lt_total a b : text_lt a b = false -> text_lt b a = false -> a = b.
Proof.
  unfold text_lt. rewrite (String.compare_antisym b a). destruct (String.compare a b) eqn:E; try done.
  intros _ _. by apply String.compare_eq_iff.
Qed.

Lemma text_lt_cons a b s t :
  text_lt (String a s) (String b t) = (N_of_ascii a <? N_of_ascii b)%N || (bool_decide (a = b) && text_lt s t).
Proof.
  unfold text_lt. cbn [String.compare]. unfold Ascii.compare. destruct (N.compare_spec (N_of_ascii a) (N_of_ascii b)) as [H|H|H].
  - apply (f_equal ascii_of_N) in H. rewrite !ascii_N_embedding in H. subst. rewrite bool_decide_eq_true_2, N.ltb_irrefl by done. done.
  - by rewrite (proj2 (N.ltb_lt _ _) H).
  - rewrite (proj2 (N.ltb_ge _ _)) by lia. rewrite bool_decide_eq_false_2; [done|]. intros ->. lia.
Qed.

Lemma text_lt_app a a' b b' : String.length a = String.length a' ->
  text_lt (a ++ b) (a' ++ b') = text_lt a a' || (bool_decide (a = a') && text_lt b b').
Proof.
  revert a'. induction a as [|c a IH]; intros [|c' a'] Hl; try done.
  change (String c a +:+ b) with (String c (a +:+ b)). change (String c' a' +:+ b') with (String c' (a' +:+ b')). cbn in Hl.
  rewrite !text_lt_cons, IH by lia. destruct (N.ltb_spec (N_of_ascii c) (N_of_ascii c')); [done|]. cbn.
  destruct (decide (c = c')) as [->|Hne].
  - rewrite bool_decide_eq_true_2 by done. cbn. destruct (text_lt a a'); [done|]. cbn. f_equal. apply bool_decide_ext. naive_solver.
  - rewrite (bool_decide_eq_false_2 (c = c')) by done. rewrite (bool_decide_eq_false_2 (String c a = String c' a')) by congruence. done.
Qed.

Lemma text_lt_prefix a b b' : text_lt (a ++ b) (a ++ b') = text_lt b b'.
Proof. by rewrite text_lt_app, text_lt_irrefl, bool_decide_eq_true_2. Qed.

(** ** Numbers of a fixed width compare as numbers *)

Lemma pad_length w n : String.length (pad w n) = w.
Proof. revert n. induction w as [|w IH]; intros n; [done|]. cbn [pad]. rewrite length_app_str, IH. cbn. lia. Qed.

Lemma lt_eq_inj (f : Z -> string) (P : Z -> Prop) x y :
  (forall x y, P x -> P y -> text_lt (f x) (f y) = (x <? y)) -> P x -> P y -> f x = f y -> x = y.
Proof.
  intros H Hx Hy E. pose proof (H x y Hx Hy) as H1. pose proof (H y x Hy Hx) as H2. rewrite E, text_lt_irrefl in H1, H2. lia.
Qed.

Lemma pad_lt w x y : 0 <= x < 10 ^ Z.of_nat w -> 0 <= y < 10 ^ Z.of_nat w -> text_lt (pad w x) (pad w y) = (x <? y).
Proof.
  revert x y. induction w as [|w IH]; intros x y Hx Hy; [cbn in *; destruct (Z.ltb_spec x y); [lia|done]|].
  rewrite Nat2Z.inj_succ, Z.pow_succ_r in Hx, Hy by lia. cbn [pad].
  assert (0 <= x / 10 < 10 ^ Z.of_nat w /\ 0 <= y / 10 < 10 ^ Z.of_nat w) as [Hx' Hy']
    by (generalize dependent (10 ^ Z.of_nat w); clear; intros; Z.to_euclidean_division_equations; lia).
  rewrite text_lt_app by (by rewrite !pad_length). rewrite IH by done. unfold byte_str. rewrite text_lt_cons.
  replace (text_lt EmptyString EmptyString) with false by done. rewrite andb_false_r, orb_false_r.
  assert (bool_decide (pad w (x / 10) = pad w (y / 10)) = (x / 10 =? y / 10)) as ->.
  { destruct (Z.eqb_spec (x / 10) (y / 10)) as [->|Hne]; [by apply bool_decide_eq_true_2|]. apply bool_decide_eq_false_2.
    intros E. apply Hne. by eapply (lt_eq_inj (pad w) (fun z => 0 <= z < 10 ^ Z.of_nat w)). }
  rewrite !N_ascii_embedding by (clear; Z.to_euclidean_division_equations; lia).
  destruct (Z.ltb_spec (x / 10) (y / 10)), (Z.eqb_spec (x / 10) (y / 10)), (N.ltb_spec (Z.to_N (48 + x mod 10)) (Z.to_N (48 + y mod 10))),
    (Z.ltb_spec x y); cbn; try done; exfalso; clear Hx Hy Hx' Hy' IH; Z.to_euclidean_division_equations; lia.
Qed.

(** ** Stamps compare as instants *)

Fixpoint total (fs : list (string * nat)) : Z := match fs with [] => 0 | (_, w) :: fs => Z.of_nat w + total fs end.

Fixpoint value (fs : list (string * nat)) (vs : list Z) : Z :=
  match fs, vs with
  | (_, w) :: fs, v :: vs => v * 10 ^ total fs + value fs vs
  | _, _ => 0
  end.

Definition fits (fs : list (string * nat)) (vs : list Z) : Prop := Forall2 (fun f v => 0 <= v < 10 ^ Z.of_nat (snd f)) fs vs.

Lemma total_nonneg fs : 0 <= total fs.
Proof. induction fs as [|[sep w] fs IH]; cbn; lia. Qed.

Lemma value_range fs vs : fits fs vs -> 0 <= value fs vs < 10 ^ total fs.
Proof.
  induction 1 as [|[sep w] v fs vs Hv _ IH]; cbn [value total]; [done|]. cbn in Hv.
  rewrite Z.pow_add_r by (try apply total_nonneg; lia). nia.
Qed.

Lemma render_lt fs vs vs' : fits fs vs -> fits fs vs' -> text_lt (render fs vs) (render fs vs') = (value fs vs <? value fs vs').
Proof.
  intros H. revert vs'. induction H as [|[sep w] v fs vs Hv Hf IH]; intros vs' H'; inversion H' as [|? v' ? vs0 Hv' Hf']; subst; [by rewrite text_lt_irrefl|].
  cbn [render value]. cbn in Hv, Hv'. rewrite text_lt_prefix, text_lt_app, IH, pad_lt by (by rewrite ?pad_length).
  pose proof (value_range fs vs Hf). pose proof (value_range fs vs0 Hf'). generalize dependent (value fs vs). generalize dependent (value fs vs0).
  intros a Ha b Hb. generalize dependent (10 ^ total fs). intros B HB HA. destruct (Z.ltb_spec v v') as [|]; cbn.
  - symmetry. apply Z.ltb_lt. nia.
  - case_bool_decide as E; cbn.
    + eapply (lt_eq_inj (pad w) (fun z => 0 <= z < 10 ^ Z.of_nat w)) in E as ->; [|by apply pad_lt|done..]. destruct (Z.ltb_spec b a), (Z.ltb_spec (v' * B + b) (v' * B + a)); lia.
    + symmetry. apply Z.ltb_ge. assert (v <> v') by (intros ->; done). nia.
Qed.

(** 1970-01-01T00:00:00.000Z up to the end of the year 9999. *)
Definition representable (t : Z) : Prop := 0 <= t < 253402300800000000000.

Definition stamp_value (ms : Z) : Z :=
  day_key (ms / day_ms) * 1000000000 + (let t := ms mod day_ms in
    t / 3600000 * 10000000 + t / 60000 mod 60 * 100000 + t / 1000 mod 60 * 1000 + t mod 1000).

Lemma stamp_value_lt ms ms' : ms < ms' -> stamp_value ms < stamp_value ms'.
Proof.
  intros H. unfold stamp_value. pose proof (day_key_mono (ms / day_ms) (ms' / day_ms)) as Hk.
  assert (ms / day_ms = ms' / day_ms /\ ms mod day_ms < ms' mod day_ms \/ ms / day_ms < ms' / day_ms) as Hd
    by (unfold day_ms; Z.to_euclidean_division_equations; lia).
  assert (0 <= ms mod day_ms < 86400000 /\ 0 <= ms' mod day_ms < 86400000) as [Ht Ht'] by (unfold day_ms; Z.to_euclidean_division_equations; lia).
  generalize dependent (ms mod day_ms). generalize dependent (ms' mod day_ms). intros t' Ht' t Hd Ht.
  destruct Hd as [[-> Hd]|Hd]; [clear Hk H|specialize (Hk Hd); clear Hd H].
  - generalize (day_key (ms' / day_ms)). intros k. Z.to_euclidean_division_equations. lia.
  - generalize dependent (day_key (ms / day_ms)). generalize dependent (day_key (ms' / day_ms)). intros k' k Hk. Z.to_euclidean_division_equations. lia.
Qed.

Lemma fields_fit t : representable t -> fits ISOMillis (fields (t / millisecond)) /\ value ISOMillis (fields (t / millisecond)) = stamp_value (t / millisecond).
Proof.
  intros [H0 H1]. assert (0 <= t / millisecond < 253402300800000) as [Hm0 Hm1] by (unfold millisecond; Z.to_euclidean_division_equations; lia).
  generalize dependent (t / millisecond). clear. intros ms H0 H1. unfold stamp_value, fields.
  assert (0 <= ms / day_ms < 2932897) as [Hd0 Hd1] by (unfold day_ms; Z.to_euclidean_division_equations; lia).
  assert (19700101 <= day_key (ms / day_ms) <= 99991231) as Hk.
  { split.
    - destruct (decide (ms / day_ms = 0)) as [->|]; [done|]. pose proof (day_key_mono 0 (ms / day_ms)). change (day_key 0) with 19700101 in *. lia.
    - destruct (decide (ms / day_ms = 2932896)) as [->|]; [done|]. pose proof (day_key_mono (ms / day_ms) 2932896).
      assert (day_key 2932896 = 99991231) by (by vm_compute). lia. }
  pose proof (civil_ranges (ms / day_ms)) as Hc. pose proof (Z.mod_pos_bound ms day_ms) as Ht. unfold day_key in *.
  destruct (civil (ms / day_ms)) as [[y m] d]. generalize dependent (ms mod day_ms). intros t Ht. specialize (Ht ltac:(done)). unfold day_ms in Ht. split.
  - unfold fits, ISOMillis. repeat (constructor; [cbn [snd]; lazymatch goal with |- _ <= _ < ?p => let p' := eval vm_compute in p in change p with p' end;
      clear - Hc Hk Ht; Z.to_euclidean_division_equations; lia|]). constructor.
  - unfold ISOMillis, value, total. cbn. lia.
Qed.

Lemma stamp_value_ltb ms ms' : (stamp_value ms <? stamp_value ms') = (ms <? ms').
Proof.
  destruct (Z.ltb_spec ms ms') as [H|H]; [by apply Z.ltb_lt, stamp_value_lt|]. apply Z.ltb_ge.
  destruct (decide (ms = ms')) as [->|]; [lia|]. pose proof (stamp_value_lt ms' ms). lia.
Qed.

(** Comparing two stamps as texts is comparing the instants, to the
    millisecond: what the readers do with the stored text. *)
Lemma ISO_chronological t t' : representable t -> representable t' ->
  text_lt (ISO t) (ISO t') = (t / millisecond <? t' / millisecond).
Proof.
  intros Ht Ht'. destruct (fields_fit t Ht) as [Hf Hv], (fields_fit t' Ht') as [Hf' Hv'].
  unfold ISO. by rewrite render_lt, Hv, Hv', stamp_value_ltb.
Qed.

Example ISO_example :
  ISO 1709251199999000000 = "2024-02-29T23:59:59.999Z"%string /\ ISO 1709251200000000000 = "2024-03-01T00:00:00.000Z"%string.
Proof. by vm_compute. Qed.

Lemma ISO_nonempty t : ISO t <> EmptyString.
Proof.
  unfold ISO, ISOMillis. destruct (fields (t / millisecond)) as [|y l]; cbn [render]; [done|].
  intros H. apply (f_equal String.length) in H. rewrite !length_app_str, pad_length in H. cbn in H. lia.
Qed.
