(* ===== verification/Address.v ===== *)
(** * Endpoint addresses (internal/config/address.go)

    The textual form [[user@]host[:port]] of an endpoint's address: parsing
    with its error cases, and formatting. *)
From S2P Require Import Prelude GoStrings.
From Stdlib Require Import Ascii.

Record EndpointAddress := mkAddress { Username : string; Host : string; Port : Z }.

Definition defaultUsername : string := "shellwatch".
Definition defaultPort : Z := 22.

Inductive addr_error :=
  | ErrEmpty | ErrEmptyUsername | ErrUnclosedBracket | ErrAfterBracket | ErrPort | ErrEmptyHost.

(** strconv.Atoi, as far as a port can tell: a sign, then digits. *)
Definition Atoi (s : string) : option Z :=
  let digits s := if negb (bool_decide (s = EmptyString)) && forall_str is_digit s then Some (decimal s) else None in
  match s with
  | String "+" s' => digits s'
  | String "-" s' => Z.opp <$> digits s'
  | _ => digits s
  end.

Definition parsePort (s : string) : Z + addr_error :=
  match Atoi s with
  | Some p => if (p <? 1) || (p >? 65535) then inr ErrPort else inl p
  | None => inr ErrPort
  end.

(** The regular expression of digitsRe. *)
Definition digitsRe (s : string) : bool := negb (bool_decide (s = EmptyString)) && forall_str is_digit s.

(** The host and port after the user name. *)
Definition parse_host_port (rest : string) : (string * Z) + addr_error :=
  if HasPrefix rest "[" then
    match IndexByte_str rest "]" with
    | None => inr ErrUnclosedBracket
    | Some close =>
        let host := take_str (close - 1) (drop_str 1 rest) in
        let after := drop_str (close + 1) rest in
        if HasPrefix after ":" then
          match parsePort (drop_str 1 after) with
          | inl p => inl (host, p)
          | inr e => inr e
          end
        else if bool_decide (after = EmptyString) then inl (host, defaultPort)
        else inr ErrAfterBracket
    end
  else
    match LastIndexByte_str rest ":" with
    | Some colon =>
        if digitsRe (drop_str (colon + 1) rest) then
          match parsePort (drop_str (colon + 1) rest) with
          | inl p => inl (take_str colon rest, p)
          | inr e => inr e
          end
        else inl (rest, defaultPort)
    | None => inl (rest, defaultPort)
    end.

(** The user name and what follows it. *)
Definition parse_user (trimmed : string) : (string * string) + addr_error :=
  match IndexByte_str trimmed "@" with
  | None => inl (defaultUsername, trimmed)
  | Some at_ =>
      let username := take_str at_ trimmed in
      if bool_decide (username = EmptyString) then inr ErrEmptyUsername
      else inl (username, drop_str (at_ + 1) trimmed)
  end.

Definition ParseEndpointAddress (address : string) : EndpointAddress + addr_error :=
  let trimmed := TrimSpace address in
  if bool_decide (trimmed = EmptyString) then inr ErrEmpty
  else
    match parse_user trimmed with
    | inr e => inr e
    | inl (username, rest) =>
        match parse_host_port rest with
        | inr e => inr e
        | inl (host, port) =>
            if bool_decide (host = EmptyString) then inr ErrEmptyHost
            else inl (mkAddress username host port)
        end
    end.

Definition FormatEndpointAddress (ep : EndpointAddress) : string :=
  if bool_decide (Port ep = defaultPort) then (Username ep ++ "@" ++ Host ep)%string
  else (Username ep ++ "@" ++ Host ep ++ ":" ++ itoa (Port ep))%string.

Example parse_ex1 : ParseEndpointAddress " bob@[::1]:2222 " = inl (mkAddress "bob" "::1" 2222).
Proof. reflexivity. Qed.
Example parse_ex2 : ParseEndpointAddress "example.org" = inl (mkAddress "shellwatch" "example.org" 22).
Proof. reflexivity. Qed.
Example parse_ex3 : ParseEndpointAddress "a@h:70000" = inr ErrPort.
Proof. reflexivity. Qed.
Example format_ex : FormatEndpointAddress (mkAddress "u" "h" 2222) = "u@h:2222"%string.
Proof. reflexivity. Qed.

(** ** Lemmas *)

(** No character is [c]. *)
Definition without (c : ascii) (s : string) : bool := forall_str (fun a => negb (bool_decide (a = c))) s.

Lemma digit_not_colon a : is_digit a = true -> negb (bool_decide (a = ":"%char)) = true.
Proof. intros H. by case_bool_decide; subst. Qed.

Lemma digit_graphic a : is_digit a = true -> graphic a = true.
Proof. unfold is_digit, graphic. intros [?%N.leb_le ?%N.leb_le]%andb_true_iff. apply andb_true_iff. split; apply N.leb_le; lia. Qed.

Lemma Atoi_itoa n : 0 <= n -> Atoi (itoa n) = Some n.
Proof.
  intros Hn. destruct (itoa_spec n Hn) as (Hne & Hd & Hv). unfold Atoi.
  assert (Hdef : (if negb (bool_decide (itoa n = EmptyString)) && forall_str is_digit (itoa n)
                  then Some (decimal (itoa n)) else None) = Some n) by (by rewrite bool_decide_false, Hd, Hv).
  destruct (itoa n) as [|a s]; [done|]. simpl in Hd. apply andb_true_iff in Hd as [Ha _].
  destruct a as [[] [] [] [] [] [] [] []]; try exact Hdef; discriminate Ha.
Qed.

Lemma parse_user_format u h :
  u <> EmptyString -> without "@" u = true -> parse_user (u ++ "@" ++ h) = inl (u, h).
Proof.
  intros Hu Hw. unfold parse_user. change (u ++ "@" ++ h)%string with (u ++ String "@" h)%string.
  rewrite IndexByte_str_app by done. rewrite take_app_str, drop_app_str_S, bool_decide_false by done. done.
Qed.

Lemma parse_host_port_plain h :
  HasPrefix h "[" = false -> without ":" h = true -> parse_host_port h = inl (h, defaultPort).
Proof. intros Hp Hw. unfold parse_host_port. by rewrite Hp, LastIndexByte_str_none. Qed.

Lemma parse_host_port_port h n :
  h <> EmptyString -> HasPrefix h "[" = false -> 1 <= n <= 65535 ->
  parse_host_port (h ++ ":" ++ itoa n) = inl (h, n).
Proof.
  intros Hh Hp Hn. destruct (itoa_spec n ltac:(lia)) as (Hne & Hd & _). unfold parse_host_port.
  assert (HasPrefix (h ++ ":" ++ itoa n) "[" = false) as ->.
  { destruct h as [|a h]; [done|]. rewrite app_str_cons. simpl in *. by rewrite HasPrefix_nil, andb_true_r in *. }
  change (h ++ ":" ++ itoa n)%string with (h ++ String ":" (itoa n))%string.
  rewrite LastIndexByte_str_app by (eapply forall_str_impl; [apply digit_not_colon|done]).
  rewrite drop_app_str_S, take_app_str. unfold digitsRe. rewrite bool_decide_false, Hd by done. simpl.
  unfold parsePort. rewrite Atoi_itoa by lia.
  assert ((n <? 1) || (n >? 65535) = false) as ->; [|done]. apply orb_false_iff. split; [lia|].
  rewrite Z.gtb_ltb. apply Z.ltb_ge. lia.
Qed.

(** ** Properties *)

(** Formatting an address and parsing it back gives the address, for every
    user name and host of visible characters as long as the host is not in
    brackets and, at the default port, has no colon. *)
Theorem address_roundtrip ep :
  Username ep <> EmptyString -> without "@" (Username ep) = true -> forall_str graphic (Username ep) = true ->
  Host ep <> EmptyString -> HasPrefix (Host ep) "[" = false -> forall_str graphic (Host ep) = true ->
  1 <= Port ep <= 65535 -> (Port ep <> defaultPort \/ without ":" (Host ep) = true) ->
  ParseEndpointAddress (FormatEndpointAddress ep) = inl ep.
Proof.
  destruct ep as [u h n]; simpl. intros Hu Hat Hug Hh Hb Hhg Hn Hcolon.
  assert (Hvis : forall_str graphic (FormatEndpointAddress (mkAddress u h n)) = true).
  { unfold FormatEndpointAddress; simpl. destruct (itoa_spec n ltac:(lia)) as (_ & Hd & _).
    apply (forall_str_impl _ _ _ digit_graphic) in Hd.
    case_bool_decide; rewrite !forall_app_str, Hug, Hhg, ?Hd; done. }
  unfold ParseEndpointAddress. rewrite TrimSpace_all_graphic by done.
  assert (Hne : FormatEndpointAddress (mkAddress u h n) <> EmptyString).
  { destruct u as [|a u]; [by destruct Hu|]. unfold FormatEndpointAddress; simpl. by case_bool_decide. }
  rewrite bool_decide_false by done.
  unfold FormatEndpointAddress; simpl. case_bool_decide as Hp.
  - rewrite parse_user_format, parse_host_port_plain, bool_decide_false by (done || by destruct Hcolon). by subst.
  - rewrite parse_user_format by done. rewrite parse_host_port_port, bool_decide_false by done. done.
Qed.

Lemma address_roundtrip_witness :
  ParseEndpointAddress (FormatEndpointAddress (mkAddress "bob" "fe80::1" 2222)) = inl (mkAddress "bob" "fe80::1" 2222).
Proof. apply (address_roundtrip (mkAddress "bob" "fe80::1" 2222)); simpl; try done; try lia. left. done. Defined.

(** An IPv6 host at the default port does not survive the round trip: its
    last group is read back as the port. *)
Theorem ipv6_default_port_misread :
  ParseEndpointAddress (FormatEndpointAddress (mkAddress "u" "2001:db8::22" 22)) = inl (mkAddress "u" "2001:db8:" 22) /\
  ParseEndpointAddress (FormatEndpointAddress (mkAddress "u" "::1" 22)) = inl (mkAddress "u" ":" 1).
Proof. by split. Qed.

(** Whatever is accepted has a user, a host and a port in range. *)
Lemma parsePort_range s p : parsePort s = inl p -> 1 <= p <= 65535.
Proof.
  unfold parsePort. destruct (Atoi s) as [q|]; [|done]. destruct ((q <? 1) || (q >? 65535)) eqn:E; [done|].
  intros [= <-]. bool_to_prop. apply Z.ltb_ge in H0. lia.
Qed.

(** Every accepted address is well formed: user and host are not empty, the
    port is a TCP port. *)
Theorem ParseEndpointAddress_valid s ep :
  ParseEndpointAddress s = inl ep -> Username ep <> EmptyString /\ Host ep <> EmptyString /\ 1 <= Port ep <= 65535.
Proof.
  unfold ParseEndpointAddress. case_bool_decide; [done|].
  destruct (parse_user _) as [[u rest]|] eqn:Eu; [|done]. destruct (parse_host_port rest) as [[h p]|] eqn:Eh; [|done].
  case_bool_decide; [done|]. intros [= <-]. simpl. split; [|split; [done|]].
  - unfold parse_user in Eu. destruct (IndexByte_str _ _); [|by simplify_eq]. case_bool_decide; by simplify_eq.
  - unfold parse_host_port in Eh. repeat case_match; simplify_eq; try (unfold defaultPort; lia);
      by eapply parsePort_range.
Qed.

Lemma ParseEndpointAddress_valid_witness :
  ParseEndpointAddress "a@[::1]:+22" = inl (mkAddress "a" "::1" 22) /\ 1 <= 22 <= 65535.
Proof.
  split; [reflexivity|]. apply (ParseEndpointAddress_valid "a@[::1]:+22" (mkAddress "a" "::1" 22)). reflexivity.
Defined.
