(* ===== verification/RateLimit.v ===== *)
(** * The fixed-window rate limiter (internal/ratelimit/ratelimit.go)

    One bucket per client key counts the hits of the current window. Times are
    nanoseconds. Which bucket goes when the table is full is Go's map order: it
    is an input, and the theorems hold for every choice. *)
From S2P Require Import Prelude GoStrings.

(** ** Data *)

Definition maxBuckets : nat := 5000.

Record bucket := mkBucket { count : Z; start : Z }.

Record Limiter := mkLimiter {
  max : Z;
  window : Z;
  buckets : gmap string bucket;
  lastPrune : option Z          (** [None] is the zero time *)
}.

Definition New (max window : Z) : Limiter := mkLimiter max window ∅ None.

Definition second : Z := 1000000000.
Definition minute : Z := 60 * second.

(** ** Operations *)

Definition expired (l : Limiter) (now : Z) (b : bucket) : bool := now - start b >=? window l.

(** A pass over the table, at most once a second. The zero time is longer ago
    than that. *)
Definition prune (l : Limiter) (now : Z) : Limiter :=
  if match lastPrune l with None => true | Some t => now - t >=? second end
  then mkLimiter (max l) (window l) (filter (fun x => expired l now (snd x) = false) (buckets l)) (Some now)
  else l.

(** The first key of the range over the map: the one asked for, when the map
    has it. *)
Definition first_key (m : gmap string bucket) (victim : string) : string :=
  match m !! victim with
  | Some _ => victim
  | None => match map_to_list m with [] => victim | (k, _) :: _ => k end
  end.

Definition evict (l : Limiter) (victim : string) : Limiter :=
  if (maxBuckets <=? size (buckets l))%nat
  then mkLimiter (max l) (window l) (delete (first_key (buckets l) victim) (buckets l)) (lastPrune l)
  else l.

Definition with_bucket (l : Limiter) (key : string) (b : bucket) : Limiter :=
  mkLimiter (max l) (window l) (<[key := b]> (buckets l)) (lastPrune l).

(** The table with a bucket for the key that is in its window. *)
Definition open_bucket (l : Limiter) (now : Z) (key victim : string) : Limiter * bucket :=
  match buckets l !! key with
  | Some b =>
      if expired l now b then (with_bucket l key (mkBucket 0 now), mkBucket 0 now) else (l, b)
  | None =>
      let l := if (maxBuckets <=? size (buckets l))%nat then evict (prune l now) victim else l in
      (with_bucket l key (mkBucket 0 now), mkBucket 0 now)
  end.

Record answer := mkAnswer { ok : bool; remaining : Z; reset : Z }.

Definition Allow (l : Limiter) (now : Z) (key victim : string) : Limiter * answer :=
  if max l <=? 0 then (l, mkAnswer true 0 0)
  else
    let '(l, b) := open_bucket l now key victim in
    let b := mkBucket (count b + 1) (start b) in
    (with_bucket l key b,
     mkAnswer (count b <=? max l) (Z.max 0 (max l - count b)) (window l - (now - start b))).

(** ** Rules and middleware *)

Record request := mkRequest { Method : string; URLPath : string; ClientIP : string }.

(** A rule names its limiter by an index into the limiters' table. *)
Record Rule := mkRule { r_Method : string; r_Path : string; r_Prefix : bool; r_Limiter : nat }.

Definition matches (r : Rule) (req : request) : bool :=
  if negb (bool_decide (Method req = r_Method r)) then false
  else if r_Prefix r then (strlen (URLPath req) >? strlen (r_Path r)) && HasPrefix (URLPath req) (r_Path r)
  else bool_decide (URLPath req = r_Path r).

(** [time.Duration.Round] for a positive duration: half away from zero. *)
Definition round_to (d unit : Z) : Z := (d + unit / 2) / unit.

Definition humanDuration (d : Z) : string :=
  if d >=? minute then
    let mins := round_to d minute in
    if mins <=? 1 then "1 minute" else (itoa mins ++ " minutes")%string
  else
    let secs := round_to d second in
    if secs <=? 1 then "1 second" else (itoa secs ++ " seconds")%string.

(** What the middleware answers: pass the request on, with the rate-limit
    headers of the rule that matched, or refuse it. *)
Record headers := mkHeaders { h_Limit : Z; h_Remaining : Z; h_Reset : Z }.

Inductive outcome :=
  | Forwarded (h : option headers)
  | TooManyRequests (h : headers) (retryAfter : Z) (message : string).

Definition resetSecs (reset : Z) : Z := Z.quot (reset + second / 2) second.

Definition Middleware (rules : list Rule) (ls : list Limiter) (now : Z) (req : request) (victim : string)
  : list Limiter * outcome :=
  match List.find (fun r => matches r req) rules with
  | None => (ls, Forwarded None)
  | Some r =>
      match ls !! r_Limiter r with
      | None => (ls, Forwarded None)
      | Some l =>
          let '(l', a) := Allow l now (ClientIP req) victim in
          let h := mkHeaders (max l) (remaining a) (resetSecs (reset a)) in
          (<[r_Limiter r := l']> ls,
           if ok a then Forwarded (Some h)
           else TooManyRequests h (h_Reset h) ("Rate limit exceeded, retry in " ++ humanDuration (reset a))%string)
      end
  end.

(** ** A run of hits *)

Record hit := mkHit { h_now : Z; h_key : string; h_victim : string }.

Fixpoint hits (l : Limiter) (hs : list hit) : Limiter * list answer :=
  match hs with
  | [] => (l, [])
  | h :: hs =>
      let '(l, a) := Allow l (h_now h) (h_key h) (h_victim h) in
      let '(l, ans) := hits l hs in (l, a :: ans)
  end.

(** The hits of one key that got through. *)
Fixpoint allowed (key : string) (hs : list hit) (ans : list answer) : Z :=
  match hs, ans with
  | h :: hs, a :: ans => (if bool_decide (h_key h = key) && ok a then 1 else 0) + allowed key hs ans
  | _, _ => 0
  end.

(** ** Lemmas *)

Lemma maxBuckets_pos : (2 <= maxBuckets)%nat.
Proof. unfold maxBuckets. lia. Qed.
#[local] Opaque maxBuckets.

Lemma first_key_in m victim : m <> ∅ -> is_Some (m !! first_key m victim).
Proof.
  intros Hm. unfold first_key. destruct (m !! victim) as [b|] eqn:E; [by rewrite E|].
  destruct (map_to_list m) as [|[k b] l] eqn:El; [by apply map_to_list_empty_iff in El|].
  exists b. apply elem_of_map_to_list. rewrite El. by left.
Qed.

Lemma evict_size l victim :
  (size (buckets l) <= maxBuckets)%nat -> (size (buckets (evict l victim)) < maxBuckets)%nat.
Proof.
  intros Hs. unfold evict. destruct (_ <=? _)%nat eqn:E; [|by apply Nat.leb_gt in E].
  apply Nat.leb_le in E. simpl.
  assert (Hne : buckets l <> ∅) by (intros He; rewrite He, map_size_empty in E; pose proof maxBuckets_pos; lia).
  rewrite map_size_delete_Some by (by apply first_key_in). pose proof maxBuckets_pos. lia.
Qed.

Lemma prune_size l now : (size (buckets (prune l now)) <= size (buckets l))%nat.
Proof. unfold prune. destruct (match lastPrune l with None => true | Some t => now - t >=? second end); [apply map_size_filter|done]. Qed.

Lemma with_bucket_present l key b :
  is_Some (buckets l !! key) -> size (buckets (with_bucket l key b)) = size (buckets l).
Proof. intros Hs. simpl. by apply map_size_insert_Some. Qed.

Lemma open_bucket_size l now key victim :
  (size (buckets l) <= maxBuckets)%nat ->
  let '(l', b) := open_bucket l now key victim in
  (size (buckets l') <= maxBuckets)%nat /\ buckets l' !! key = Some b.
Proof.
  intros Hs. unfold open_bucket. destruct (buckets l !! key) as [b|] eqn:E.
  - destruct (expired l now b); [|done]. rewrite with_bucket_present by (by eexists). simpl. by rewrite lookup_insert_eq.
  - split; [|simpl; by rewrite lookup_insert_eq]. simpl. rewrite map_size_insert.
    set (l1 := if (maxBuckets <=? size (buckets l))%nat then evict (prune l now) victim else l).
    assert (Hl : (size (buckets l1) < maxBuckets)%nat).
    { unfold l1. destruct (_ <=? _)%nat eqn:El; [|by apply Nat.leb_gt in El].
      apply evict_size. pose proof (prune_size l now). lia. }
    destruct (buckets l1 !! key); unfold id; lia.
Qed.

Lemma Allow_size l now key victim :
  (size (buckets l) <= maxBuckets)%nat -> (size (buckets (fst (Allow l now key victim))) <= maxBuckets)%nat.
Proof.
  intros Hs. unfold Allow. destruct (max l <=? 0); [done|].
  pose proof (open_bucket_size l now key victim Hs) as Ho.
  destruct (open_bucket l now key victim) as [l' b]. destruct Ho as [Ho Hb]. cbn [fst].
  by rewrite with_bucket_present by (by eexists).
Qed.

Lemma hits_size l hs :
  (size (buckets l) <= maxBuckets)%nat -> (size (buckets (fst (hits l hs))) <= maxBuckets)%nat.
Proof.
  revert l. induction hs as [|h hs IH]; intros l Hs; [done|]. simpl.
  pose proof (Allow_size l (h_now h) (h_key h) (h_victim h) Hs) as Ha.
  destruct (Allow l (h_now h) (h_key h) (h_victim h)) as [l1 a]. specialize (IH l1 Ha).
  by destruct (hits l1 hs) as [l2 ans].
Qed.

(** Counting the hits of a key while there is room for every key. *)
Definition room (l : Limiter) (hs : list hit) : Prop :=
  (size (dom (buckets l) ∪ list_to_set (h_key <$> hs)) <= maxBuckets)%nat.

Lemma open_bucket_room l now key victim :
  (buckets l !! key = None -> (size (buckets l) < maxBuckets)%nat) ->
  open_bucket l now key victim =
    match buckets l !! key with
    | Some b => if expired l now b then (with_bucket l key (mkBucket 0 now), mkBucket 0 now) else (l, b)
    | None => (with_bucket l key (mkBucket 0 now), mkBucket 0 now)
    end.
Proof.
  intros Hroom. unfold open_bucket. destruct (buckets l !! key) as [b|] eqn:E; [done|].
  specialize (Hroom eq_refl). by rewrite (proj2 (Nat.leb_gt _ _)).
Qed.

Lemma room_step l h hs :
  room l (h :: hs) ->
  (buckets l !! h_key h = None -> (size (buckets l) < maxBuckets)%nat) /\
  room (fst (Allow l (h_now h) (h_key h) (h_victim h))) hs /\
  max (fst (Allow l (h_now h) (h_key h) (h_victim h))) = max l /\
  window (fst (Allow l (h_now h) (h_key h) (h_victim h))) = window l.
Proof.
  intros Hroom. unfold room in *. rewrite fmap_cons, list_to_set_cons in Hroom.
  assert (Hlt : buckets l !! h_key h = None -> (size (buckets l) < maxBuckets)%nat).
  { intros Hn. rewrite <- size_dom. apply not_elem_of_dom in Hn.
    assert (size ({[h_key h]} ∪ dom (buckets l)) <= size (dom (buckets l) ∪ ({[h_key h]} ∪ list_to_set (h_key <$> hs))))%nat
      by (apply subseteq_size; set_solver).
    rewrite size_union in H by set_solver. rewrite size_singleton in H. lia. }
  split; [done|]. unfold Allow. destruct (max l <=? 0) eqn:Em.
  - split; [|done]. simpl. etrans; [|exact Hroom]. apply subseteq_size. set_solver.
  - rewrite open_bucket_room by done.
    assert (Hdom : forall b, (size (dom (<[h_key h:=b]> (buckets l)) ∪ list_to_set (h_key <$> hs)) <= maxBuckets)%nat).
    { intros b. etrans; [|exact Hroom]. apply subseteq_size. rewrite dom_insert. set_solver. }
    destruct (buckets l !! h_key h) as [b|]; [destruct (expired l (h_now h) b)|]; simpl; (split; [|done]);
      rewrite ?insert_insert_eq; apply Hdom.
Qed.

(** One hit of another key, or of the key itself inside its window. *)
Lemma Allow_bucket l h hs key b :
  room l (h :: hs) -> 0 < max l -> buckets l !! key = Some b -> h_now h - start b < window l ->
  let '(l', a) := Allow l (h_now h) (h_key h) (h_victim h) in
  if bool_decide (h_key h = key)
  then buckets l' !! key = Some (mkBucket (count b + 1) (start b)) /\ ok a = (count b + 1 <=? max l)
  else buckets l' !! key = Some b.
Proof.
  intros Hroom Hm Hb Hnow. destruct (room_step _ _ _ Hroom) as (Hlt & _).
  unfold Allow. rewrite (proj2 (Z.leb_gt _ _)) by lia. rewrite open_bucket_room by done.
  case_bool_decide as Hk.
  - rewrite Hk, Hb. unfold expired. rewrite Z.geb_leb, (proj2 (Z.leb_gt _ _)) by lia. simpl.
    by rewrite lookup_insert_eq.
  - destruct (buckets l !! h_key h) as [b'|]; [destruct (expired l (h_now h) b')|]; simpl;
      by rewrite ?lookup_insert_ne.
Qed.

Definition hits_of (key : string) (hs : list hit) : Z := zlen (filter (fun h => h_key h = key) hs).

(** ** Properties *)

(** Within a window a key gets what is left of its quota and no more: of its
    hits the first [max - count] are let through and the others refused,
    whatever other keys do in between. *)
Theorem window_quota l hs key b :
  0 < max l -> room l hs -> buckets l !! key = Some b -> 0 <= count b ->
  Forall (fun h => h_now h - start b < window l) hs ->
  allowed key hs (snd (hits l hs)) = Z.min (hits_of key hs) (Z.max 0 (max l - count b)).
Proof.
  revert l b. induction hs as [|h hs IH]; intros l b Hm Hroom Hb Hc Hw; [unfold hits_of; simpl; lia|].
  apply Forall_cons in Hw as [Hh Hw]. pose proof (Allow_bucket l h hs key b Hroom Hm Hb Hh) as Ha.
  destruct (room_step _ _ _ Hroom) as (_ & Hroom' & Hmax & Hwin). simpl.
  destruct (Allow l (h_now h) (h_key h) (h_victim h)) as [l1 a]. simpl in Hroom', Hmax, Hwin.
  assert (Hof : hits_of key (h :: hs) = (if bool_decide (h_key h = key) then 1 else 0) + hits_of key hs).
  { unfold hits_of. rewrite filter_cons. destruct (decide (h_key h = key)) as [Hk|Hk].
    - rewrite bool_decide_true by done. simpl length. lia.
    - rewrite bool_decide_false by done. lia. }
  assert (Hpos : 0 <= hits_of key hs) by (unfold hits_of; lia).
  rewrite Hof. case_bool_decide as Hk.
  - destruct Ha as [Hb' Hok].
    specialize (IH l1 _ ltac:(lia) Hroom' Hb' ltac:(simpl; lia)).
    destruct (hits l1 hs) as [l2 ans]. simpl in *. rewrite IH, Hok, Hmax by (by rewrite Hwin).
    destruct (count b + 1 <=? max l) eqn:E; bool_to_prop; lia.
  - specialize (IH l1 b ltac:(lia) Hroom' Ha Hc). destruct (hits l1 hs) as [l2 ans]. simpl in *.
    rewrite IH, Hmax by (by rewrite Hwin). lia.
Qed.

Definition ex_limiter : Limiter := with_bucket (New 2 (60 * second)) "a" (mkBucket 1 0).
Definition ex_hits : list hit := [mkHit 1 "a" ""; mkHit 2 "b" ""; mkHit 3 "a" ""; mkHit 4 "a" ""].

Lemma window_quota_witness :
  allowed "a" ex_hits (snd (hits ex_limiter ex_hits)) = 1.
Proof.
  rewrite (window_quota ex_limiter ex_hits "a" (mkBucket 1 0)); [reflexivity|simpl; lia| |reflexivity|simpl; lia|].
  - unfold room. assert (2 <= maxBuckets)%nat by apply maxBuckets_pos.
    etrans; [|exact H]. vm_compute. lia.
  - repeat constructor; simpl; unfold second; lia.
Defined.

(** The table never holds more than [maxBuckets] keys, whatever the flood
    and whichever entries are evicted. *)
Theorem limiter_bounded m w hs : (size (buckets (fst (hits (New m w) hs))) <= maxBuckets)%nat.
Proof. apply hits_size. simpl. rewrite map_size_empty. lia. Qed.

(** The middleware charges exactly one limiter, the first matching rule's;
    it refuses only when the answer of that limiter is negative, and a request
    no rule matches passes untouched. *)
Theorem Middleware_spec rules ls now req victim :
  match List.find (fun r => matches r req) rules with
  | None => Middleware rules ls now req victim = (ls, Forwarded None)
  | Some r =>
      r ∈ rules /\ matches r req = true /\
      forall l, ls !! r_Limiter r = Some l ->
        let '(l', a) := Allow l now (ClientIP req) victim in
        let '(ls', out) := Middleware rules ls now req victim in
        ls' !! r_Limiter r = Some l' /\ (forall i, i <> r_Limiter r -> ls' !! i = ls !! i) /\
        (ok a = true <-> exists h, out = Forwarded (Some h))
  end.
Proof.
  unfold Middleware. destruct (List.find _ rules) as [r|] eqn:E; [|done].
  apply find_some in E as [Hin Hm]. split; [by apply list_elem_of_In|]. split; [done|]. intros l Hl. rewrite Hl.
  destruct (Allow l now (ClientIP req) victim) as [l' a].
  split; [apply list_lookup_insert_eq; by eapply lookup_lt_Some|].
  split; [intros i Hi; by rewrite list_lookup_insert_ne|].
  destruct (ok a); split; try done; [by eexists|by intros [? ?]].
Qed.
