(* ===== verification/Net.v ===== *)
(** * IP addresses and networks, as Go's net package reads them

    [ParseIP], [ParseCIDR], [IPNet.Contains] and [SplitHostPort], which the
    client-IP resolver and the allow list of the MCP endpoint are built on. An
    address is its bytes: four, or sixteen. *)
From S2P Require Import Prelude GoStrings.
From Stdlib Require Import Ascii.

Definition IP := list Z.
Record IPNet := mkNet { net_IP : IP; net_Mask : list Z }.

Definition v4InV6Prefix : list Z := [0; 0; 0; 0; 0; 0; 0; 0; 0; 0; 255; 255].

(** A field of a dotted address: no sign, no leading zero, at most 255. *)
Definition parse_octet (s : string) : option Z :=
  if bool_decide (s = EmptyString) || negb (forall_str is_digit s) then None
  else if HasPrefix s "0" && negb (bool_decide (s = "0"%string)) then None
  else if decimal s >? 255 then None else Some (decimal s).

Definition parseIPv4Fields (s : string) : option (list Z) :=
  match Split s "." with
  | [a; b; c; d] =>
      x ← parse_octet a; y ← parse_octet b; z ← parse_octet c; w ← parse_octet d; Some [x; y; z; w]
  | _ => None
  end.

Definition hex_value (a : ascii) : option Z :=
  let n := Z.of_N (N_of_ascii a) in
  if (48 <=? n) && (n <=? 57) then Some (n - 48)
  else if (97 <=? n) && (n <=? 102) then Some (n - 87)
  else if (65 <=? n) && (n <=? 70) then Some (n - 55)
  else None.

(** The hexadecimal digits at the front: their number, their value, what
    follows; [None] at a fifth digit. *)
Fixpoint hex_group (s : string) (off : nat) (acc : Z) : option (nat * Z * string) :=
  match s with
  | EmptyString => Some (off, acc, s)
  | String a s' =>
      match hex_value a with
      | None => Some (off, acc, s)
      | Some v => if (3 <? off)%nat then None else hex_group s' (S off) (16 * acc + v)
      end
  end.

(** The groups: the bytes before and after the "::", which is at most one. A
    call handles one group; sixteen bytes bound their number. *)
Fixpoint ipv6_groups (fuel : nat) (s : string) (ip : list Z) (ellipsis : option nat)
  : option (list Z * option nat) :=
  match fuel with
  | O => if bool_decide (s = EmptyString) then Some (ip, ellipsis) else None
  | S fuel =>
      if (16 <=? length ip)%nat then (if bool_decide (s = EmptyString) then Some (ip, ellipsis) else None)
      else
        '(off, acc, rest) ← hex_group s 0 0;
        if (off =? 0)%nat then None
        else if HasPrefix rest "." then
          if (match ellipsis with None => negb (length ip =? 12)%nat | Some _ => false end)
             || (16 <? length ip + 4)%nat then None
          else v4 ← parseIPv4Fields s; Some (ip ++ v4, ellipsis)
        else
          let ip := ip ++ [acc / 256; acc mod 256] in
          match rest with
          | EmptyString => Some (ip, ellipsis)
          | String ":" EmptyString => None
          | String ":" (String ":" rest') =>
              match ellipsis with
              | Some _ => None
              | None =>
                  match rest' with
                  | EmptyString => Some (ip, Some (length ip))
                  | _ => ipv6_groups fuel rest' ip (Some (length ip))
                  end
              end
          | String ":" rest' => ipv6_groups fuel rest' ip ellipsis
          | _ => None
          end
  end.

Definition expand_ellipsis (ip : list Z) (ellipsis : option nat) : option (list Z) :=
  if (length ip <? 16)%nat then
    match ellipsis with
    | None => None
    | Some e => Some (take e ip ++ repeat 0 (16 - length ip) ++ drop e ip)
    end
  else match ellipsis with None => Some ip | Some _ => None end.

(** netip.parseIPv6, with a zone refused. *)
Definition parseIPv6 (s : string) : option IP :=
  match IndexByte_str s "%" with
  | Some _ => None
  | None =>
      if HasPrefix s "::" then
        let rest := drop_str 2 s in
        if bool_decide (rest = EmptyString) then Some (repeat 0 16)
        else '(ip, e) ← ipv6_groups 9 rest [] (Some 0%nat); expand_ellipsis ip e
      else '(ip, e) ← ipv6_groups 9 s [] None; expand_ellipsis ip e
  end.

Inductive Addr := V4 (ip : IP) | V6 (ip : IP).

(** netip.ParseAddr: the first '.', ':' or '%' decides. *)
Fixpoint address_kind (s : string) : option ascii :=
  match s with
  | EmptyString => None
  | String a s =>
      if bool_decide (a = "."%char) || bool_decide (a = ":"%char) || bool_decide (a = "%"%char)
      then Some a else address_kind s
  end.

Definition ParseAddr (s : string) : option Addr :=
  match address_kind s with
  | Some "."%char => V4 <$> parseIPv4Fields s
  | Some ":"%char => V6 <$> parseIPv6 s
  | _ => None
  end.

Definition As16 (a : Addr) : IP := match a with V4 ip => v4InV6Prefix ++ ip | V6 ip => ip end.
Definition BitLen (a : Addr) : nat := match a with V4 _ => 32 | V6 _ => 128 end%nat.

Definition ParseIP (s : string) : option IP := As16 <$> ParseAddr s.

Definition To4 (ip : IP) : option IP :=
  if (length ip =? 4)%nat then Some ip
  else if (length ip =? 16)%nat && bool_decide (take 12 ip = v4InV6Prefix) then Some (drop 12 ip)
  else None.

(** The byte of a mask that has [n] bits left to set. *)
Definition mask_byte (n : nat) : Z := 256 - 2 ^ (8 - Z.of_nat (Nat.min n 8)).
Definition CIDRMask (ones bits : nat) : list Z := map (fun i => mask_byte (ones - 8 * i)) (seq 0 (bits / 8)).

Definition and_bytes (l m : list Z) : list Z := zip_with Z.land l m.

(** [IP.Mask] for a sixteen-byte address. *)
Definition Mask (ip : IP) (m : list Z) : IP :=
  if (length m =? 4)%nat && bool_decide (take 12 ip = v4InV6Prefix) then and_bytes (drop 12 ip) m
  else and_bytes ip m.

Definition ParseCIDR (s : string) : option IPNet :=
  i ← IndexByte_str s "/";
  a ← ParseAddr (take_str i s);
  let mask := drop_str (i + 1) s in
  if bool_decide (mask = EmptyString) || negb (forall_str is_digit mask) || (decimal mask >? Z.of_nat (BitLen a))
  then None
  else
    let m := CIDRMask (Z.to_nat (decimal mask)) (BitLen a) in
    Some (mkNet (Mask (As16 a) m) m).

Definition networkNumberAndMask (n : IPNet) : option (IP * list Z) :=
  let ip := default (net_IP n) (To4 (net_IP n)) in
  if (length ip =? 4)%nat then
    if (length (net_Mask n) =? 4)%nat then Some (ip, net_Mask n)
    else if (length (net_Mask n) =? 16)%nat then Some (ip, drop 12 (net_Mask n)) else None
  else if (length ip =? 16)%nat && (length (net_Mask n) =? 16)%nat then Some (ip, net_Mask n)
  else None.

Definition Contains (n : IPNet) (ip : IP) : bool :=
  match networkNumberAndMask n with
  | None => false
  | Some (nn, m) =>
      let ip := default ip (To4 ip) in
      (length ip =? length nn)%nat && bool_decide (and_bytes nn m = and_bytes ip m)
  end.

(** [net.SplitHostPort]; [None] is an error. *)
Definition SplitHostPort (hostport : string) : option (string * string) :=
  i ← LastIndexByte_str hostport ":";
  if HasPrefix hostport "[" then
    e ← IndexByte_str hostport "]";
    if (S e =? i)%nat then
      if bool_decide (IndexByte_str (drop_str 1 hostport) "[" = None)
         && bool_decide (IndexByte_str (drop_str (S e) hostport) "]" = None)
      then Some (take_str (e - 1) (drop_str 1 hostport), drop_str (i + 1) hostport)
      else None
    else None
  else
    let host := take_str i hostport in
    if bool_decide (IndexByte_str host ":" = None) && bool_decide (IndexByte_str hostport "[" = None)
       && bool_decide (IndexByte_str hostport "]" = None)
    then Some (host, drop_str (i + 1) hostport)
    else None.

Example ip_ex1 : ParseIP "2001:db8::1" = Some [32; 1; 13; 184; 0; 0; 0; 0; 0; 0; 0; 0; 0; 0; 0; 1].
Proof. reflexivity. Qed.
Example ip_ex2 : ParseIP "::ffff:10.1.2.3" = Some (v4InV6Prefix ++ [10; 1; 2; 3]).
Proof. reflexivity. Qed.
Example ip_ex3 : ParseIP "10.01.2.3" = None /\ ParseIP "1:2:3:4:5:6:7" = None /\ ParseIP "1::2::3" = None
  /\ ParseIP "1:2:3:4:5:6:7:8" <> None /\ ParseIP "::1%eth0" = None.
Proof. by split_and!. Qed.
Example cidr_ex : (fun n => Contains n <$> ParseIP "10.255.0.1") <$> ParseCIDR "10.0.0.0/8" = Some (Some true)
  /\ (fun n => Contains n <$> ParseIP "::ffff:11.0.0.1") <$> ParseCIDR "10.0.0.0/8" = Some (Some false).
Proof. split; reflexivity. Qed.
Example hostport_ex : SplitHostPort "[::1]:8080" = Some ("::1", "8080")%string /\ SplitHostPort "1.2.3.4:80" = Some ("1.2.3.4", "80")%string
  /\ SplitHostPort "::1" = None.
Proof. by split_and!. Qed.
