(* ===== verification/RealIP.v ===== *)
(** * The client's address and the allow list (internal/realip, internal/auth/ipallowlist.go)

    Behind a reverse proxy the peer of the socket is the proxy; the client's
    address is found by walking X-Forwarded-For from the right while the hops
    are trusted. The same address is checked against the allow list of /mcp. *)
From S2P Require Import Prelude GoStrings Net.
From Stdlib Require Import Ascii.

(** ** Data *)

Record Resolver := mkResolver { trustAll : bool; nets : list IPNet }.

(** The parsed configuration value: a boolean, one string, or a list whose
    other elements are ignored. *)
Inductive trustProxy := TrustBool (b : bool) | TrustString (s : string) | TrustList (l : list (option string)).

(** What the resolver reads of a request. *)
Record request := mkRequest { RemoteAddr : string; XForwardedFor : list string }.

Definition presets (entry : string) : option (list string) :=
  if bool_decide (entry = "loopback"%string) then Some ["127.0.0.0/8"; "::1/128"]%string
  else if bool_decide (entry = "linklocal"%string) then Some ["169.254.0.0/16"; "fe80::/10"]%string
  else if bool_decide (entry = "uniquelocal"%string)
  then Some ["10.0.0.0/8"; "172.16.0.0/12"; "192.168.0.0/16"; "fc00::/7"]%string
  else None.

(** ** The resolver *)

(** The networks an entry adds. *)
Definition addEntry (entry : string) : list IPNet :=
  if bool_decide (entry = EmptyString) then []
  else
    match presets entry with
    | Some cidrs => omap ParseCIDR cidrs
    | None =>
        match ParseCIDR entry with
        | Some n => [n]
        | None =>
            match ParseIP entry with
            | None => []
            | Some ip =>
                let bits := match To4 ip with None => 128%nat | Some _ => 32%nat end in
                [mkNet ip (CIDRMask bits bits)]
            end
        end
    end.

Definition New (v : trustProxy) : Resolver :=
  match v with
  | TrustBool b => mkResolver b []
  | TrustString s => mkResolver false (mjoin (map (fun part => addEntry (TrimSpace part)) (Split s ",")))
  | TrustList l =>
      mkResolver false (mjoin (map (fun e => match e with Some s => addEntry (TrimSpace s) | None => [] end) l))
  end.

Definition stripZone (ip : string) : string :=
  match IndexByte_str ip "%" with Some i => take_str i ip | None => ip end.

(** An address is in one of the networks. *)
Definition in_nets (ns : list IPNet) (ip : string) : bool :=
  match ParseIP (stripZone ip) with
  | None => false
  | Some parsed => existsb (fun n => Contains n parsed) ns
  end.

Definition trusted (r : Resolver) (ip : string) : bool := trustAll r || in_nets (nets r) ip.

Definition remoteHost (req : request) : string :=
  match SplitHostPort (RemoteAddr req) with Some (host, _) => host | None => RemoteAddr req end.

Definition forwardedChain (req : request) : list string :=
  mjoin (map (fun h =>
    List.filter (fun p => negb (bool_decide (p = EmptyString))) (map TrimSpace (Split h ","))) (XForwardedFor req)).

(** The walk, over the chain from the right. *)
Fixpoint walk (r : Resolver) (current : string) (hops : list string) : string :=
  match hops with
  | [] => current
  | hop :: hops => if trusted r current then walk r hop hops else current
  end.

Definition ClientIP (r : Resolver) (req : request) : string :=
  let peer := remoteHost req in
  if negb (trustAll r) && bool_decide (nets r = []) then peer
  else walk r peer (rev (forwardedChain req)).

(** FromRequest: [stashed] is what the middleware left in the context. *)
Definition Middleware (r : Resolver) (req : request) : option string := Some (ClientIP r req).
Definition FromRequest (stashed : option string) (req : request) : string :=
  match stashed with
  | Some ip => if bool_decide (ip = EmptyString) then remoteHost req else ip
  | None => remoteHost req
  end.

(** ** The allow list *)

Definition NewIPChecker (allowedNetworks : list string) : list IPNet := omap ParseCIDR allowedNetworks.

Definition Allowed (c : list IPNet) (ip : string) : bool := in_nets c ip.

(** Whether a request reaches /mcp (otherwise the answer is 403). *)
Definition allow_request (c : list IPNet) (r : Resolver) (req : request) : bool :=
  Allowed c (FromRequest (Middleware r req) req).

Example realip_ex1 :
  ClientIP (New (TrustString "loopback, 10.0.0.0/8")) (mkRequest "127.0.0.1:999" ["9.9.9.9, 8.8.8.8"; "10.1.1.1"])
  = "8.8.8.8"%string.
Proof. reflexivity. Qed.
Example realip_ex2 :
  ClientIP (New (TrustBool false)) (mkRequest "127.0.0.1:999" ["9.9.9.9"]) = "127.0.0.1"%string.
Proof. reflexivity. Qed.
Example allow_ex : Allowed (NewIPChecker ["127.0.0.1/32"; "::1/128"; "junk"]) "::ffff:127.0.0.1" = true
  /\ Allowed (NewIPChecker ["127.0.0.1/32"; "::1/128"]) "127.0.0.2" = false.
Proof. by split. Qed.

(** ** Lemmas *)

Lemma walk_untrusted r current hops : trusted r current = false -> walk r current hops = current.
Proof. destruct hops; [done|]. simpl. by intros ->. Qed.

(** The walk stops at the first hop, from the right, that is not trusted. *)
Lemma walk_split r current before hop after :
  trusted r current = true -> forallb (trusted r) before = true -> trusted r hop = false ->
  walk r current (before ++ hop :: after) = hop.
Proof.
  revert current. induction before as [|b before IH]; intros current Hc Hb Hh; simpl.
  - rewrite Hc. by apply walk_untrusted.
  - simpl in Hb. apply andb_true_iff in Hb as [Hb1 Hb2]. rewrite Hc. by apply IH.
Qed.

Lemma ClientIP_walk r req :
  ClientIP r req = walk r (remoteHost req) (rev (forwardedChain req)) \/
  (trustAll r = false /\ nets r = [] /\ ClientIP r req = remoteHost req).
Proof.
  unfold ClientIP. destruct (negb (trustAll r) && _) eqn:E; [right|by left].
  apply andb_true_iff in E as [E1%negb_true_iff E2%bool_decide_eq_true]. done.
Qed.

Lemma no_nets_untrusted r ip : trustAll r = false -> nets r = [] -> trusted r ip = false.
Proof. intros H1 H2. unfold trusted, in_nets. rewrite H1, H2. by destruct (ParseIP _). Qed.

(** ** Properties *)

(** The client's address cannot be forged past the first untrusted hop: if
    some hop of the chain is not trusted, the address is the rightmost such
    hop, and whatever a client puts to the left of it (in the same header or in
    earlier ones) changes nothing; if the peer itself is not trusted, the
    header is not looked at. *)
Theorem ClientIP_not_spoofable r addr xff hop after :
  trustAll r = false ->
  forall forged, forwardedChain (mkRequest addr xff) = forged ++ hop :: after ->
  let peer := remoteHost (mkRequest addr xff) in
  (trusted r peer = false -> ClientIP r (mkRequest addr xff) = peer) /\
  (trusted r peer = true -> trusted r hop = false -> forallb (trusted r) after = true ->
     ClientIP r (mkRequest addr xff) = hop).
Proof.
  intros Hta forged Hchain peer.
  destruct (ClientIP_walk r (mkRequest addr xff)) as [->|(_ & Hn & ->)].
  - rewrite Hchain, rev_app_distr. simpl. rewrite <- app_assoc. simpl. split.
    + intros Hp. by apply walk_untrusted.
    + intros Hp Hh Ha. apply walk_split; [done| |done].
      rewrite forallb_forall in *. intros x Hx. apply Ha. by apply (proj2 (in_rev _ _)).
  - split; [done|]. intros Hp. by rewrite no_nets_untrusted in Hp.
Qed.

Lemma ClientIP_not_spoofable_witness :
  let r := New (TrustString "10.0.0.0/8") in
  ClientIP r (mkRequest "10.0.0.7:1" ["1.1.1.1, 6.6.6.6, 10.2.2.2"]) = "6.6.6.6"%string.
Proof.
  apply (proj2 (ClientIP_not_spoofable (New (TrustString "10.0.0.0/8")) "10.0.0.7:1" ["1.1.1.1, 6.6.6.6, 10.2.2.2"%string]
    "6.6.6.6" ["10.2.2.2"%string] eq_refl ["1.1.1.1"%string] eq_refl)); reflexivity.
Defined.

(** The allow list sees the resolved address only: a request is let through
    exactly when its address parses and lies in one of the listed networks, and
    entries that do not parse let nothing through. *)
Theorem allow_request_spec cidrs r req :
  allow_request (NewIPChecker cidrs) r req = true <->
  exists cidr n ip, cidr ∈ cidrs /\ ParseCIDR cidr = Some n /\ Contains n ip = true /\
    ParseIP (stripZone (FromRequest (Some (ClientIP r req)) req)) = Some ip.
Proof.
  unfold allow_request, Allowed, in_nets, Middleware, NewIPChecker.
  destruct (ParseIP _) as [ip|]; [|split; [done|]; by intros (? & ? & ? & _ & _ & _ & ?)].
  rewrite existsb_exists. split.
  - intros (n & Hn & Hc). apply list_elem_of_In, list_elem_of_omap in Hn as (cidr & Hin & Hp). by exists cidr, n, ip.
  - intros (cidr & n & ip' & Hin & Hp & Hc & [= <-]). exists n. split; [|done].
    apply list_elem_of_In, list_elem_of_omap. by exists cidr.
Qed.
