(* ===== verification/Netip.v ===== *)
(** * Addresses as Go's net/netip has them

    An address is a 128-bit number with a kind: IPv4, or IPv6 with a zone.
    The predicates the fetcher's dial guard uses, and the special-use blocks
    they stand for. *)
From S2P Require Import Prelude GoStrings Net.
From Stdlib Require Import Ascii.

(** ** Addresses *)

Inductive akind := K4 | K6 (zone : string).
#[export] Instance akind_eq_dec : EqDecision akind.
Proof. solve_decision. Defined.

Record addr := mkAddr { a_kind : akind; a_num : Z }.
#[export] Instance addr_eq_dec : EqDecision addr.
Proof. solve_decision. Defined.

Definition num_of_bytes (l : list Z) : Z := foldl (fun acc b => 256 * acc + b) 0 l.

Definition of_Addr (zone : string) (a : Addr) : addr :=
  match a with V4 ip => mkAddr K4 (num_of_bytes ip) | V6 ip => mkAddr (K6 zone) (num_of_bytes ip) end.

(** [netip.ParseAddr]: a zone follows a percent sign and is not empty. *)
Definition ParseAddr (s : string) : option addr :=
  match address_kind s with
  | Some ":"%char =>
      match IndexByte_str s "%" with
      | None => of_Addr "" <$> Net.ParseAddr s
      | Some i =>
          let zone := drop_str (S i) s in
          if bool_decide (zone = EmptyString) then None
          else of_Addr zone ∘ V6 <$> parseIPv6 (take_str i s)
      end
  | _ => of_Addr "" <$> Net.ParseAddr s
  end.

Definition Is4 (a : addr) : bool := match a_kind a with K4 => true | K6 _ => false end.
Definition hasZone (a : addr) : bool := match a_kind a with K4 => false | K6 z => negb (bool_decide (z = EmptyString)) end.
Definition Is4In6 (a : addr) : bool := negb (Is4 a) && (Z.shiftr (a_num a) 32 =? 65535).
Definition Unmap (a : addr) : addr := if Is4In6 a then mkAddr K4 (Z.land (a_num a) (2 ^ 32 - 1)) else a.

(** The bytes of an IPv4 address, and the first sixteen bits of an IPv6 one. *)
Definition v4 (a : addr) (i : Z) : Z := Z.land (Z.shiftr (a_num a) ((3 - i) * 8)) 255.
Definition v6u16 (a : addr) : Z := Z.shiftr (a_num a) 112.
Definition v6 (a : addr) : Z := Z.shiftr (a_num a) 120.

Definition IsLoopback (a : addr) : bool := if Is4 a then v4 a 0 =? 127 else a_num a =? 1.
Definition IsUnspecified (a : addr) : bool := bool_decide (a = mkAddr K4 0) || bool_decide (a = mkAddr (K6 "") 0).
Definition IsPrivate (a : addr) : bool :=
  if Is4 a then
    (v4 a 0 =? 10) || ((v4 a 0 =? 172) && (Z.land (v4 a 1) 240 =? 16)) || ((v4 a 0 =? 192) && (v4 a 1 =? 168))
  else Z.land (v6 a) 254 =? 252.
Definition IsLinkLocalUnicast (a : addr) : bool :=
  if Is4 a then (v4 a 0 =? 169) && (v4 a 1 =? 254) else Z.land (v6u16 a) 65472 =? 65152.
Definition IsLinkLocalMulticast (a : addr) : bool :=
  if Is4 a then (v4 a 0 =? 224) && (v4 a 1 =? 0) && (v4 a 2 =? 0) else Z.land (v6u16 a) 65295 =? 65282.
Definition IsMulticast (a : addr) : bool := if Is4 a then Z.land (v4 a 0) 240 =? 224 else v6 a =? 255.
Definition IsInterfaceLocalMulticast (a : addr) : bool := if Is4 a then false else Z.land (v6u16 a) 65295 =? 65281.

(** ** Prefixes *)

Record prefix := mkPrefix { p_is4 : bool; p_num : Z; p_bits : Z }.

Definition width (is4 : bool) : Z := if is4 then 32 else 128.

(** [Prefix.Contains]: an address with a zone is in no prefix. *)
Definition Contains (p : prefix) (a : addr) : bool :=
  if hasZone a || negb (Bool.eqb (p_is4 p) (Is4 a)) then false
  else Z.shiftr (Z.lxor (a_num a) (p_num p)) (width (p_is4 p) - p_bits p) =? 0.

(** [netip.MustParsePrefix], for prefixes written with their four bytes, or
    with the first two 16-bit groups and zeros. *)
Definition p4 (a b c d bits : Z) : prefix := mkPrefix true (num_of_bytes [a; b; c; d]) bits.
Definition p6 (g1 g2 bits : Z) : prefix := mkPrefix false (g1 * 2 ^ 112 + g2 * 2 ^ 96) bits.

(** ** Blocks, as a number line *)

(** The numbers of a block: those that agree with it on the first bits. *)
Definition in_block (p : prefix) (n : Z) : bool :=
  n / 2 ^ (width (p_is4 p) - p_bits p) =? p_num p / 2 ^ (width (p_is4 p) - p_bits p).

Definition in_range (a : addr) : Prop := 0 <= a_num a < 2 ^ width (Is4 a).

(** ** Lemmas *)

Lemma Contains_block p a :
  hasZone a = false -> 0 <= p_bits p <= width (p_is4 p) ->
  Contains p a = Bool.eqb (p_is4 p) (Is4 a) && in_block p (a_num a).
Proof.
  intros Hz Hb. unfold Contains, in_block. rewrite Hz. simpl. destruct (Bool.eqb _ _); [|done]. simpl.
  rewrite Z.shiftr_lxor, !Z.shiftr_div_pow2 by lia.
  apply eq_true_iff_eq. rewrite !Z.eqb_eq. split.
  - intros H. by apply Z.lxor_eq.
  - intros ->. apply Z.lxor_nilpotent.
Qed.

(** A property of all the numbers of a width, by computation: [acc] is the
    number's leading bits. *)
Fixpoint every (w : nat) (P : Z -> bool) (acc : Z) : bool :=
  match w with
  | O => P acc
  | S w => every w P (2 * acc) && every w P (2 * acc + 1)
  end.

Lemma every_spec w P acc :
  every w P acc = true -> forall n, acc * 2 ^ Z.of_nat w <= n < (acc + 1) * 2 ^ Z.of_nat w -> P n = true.
Proof.
  revert acc. induction w as [|w IH]; intros acc H n Hn.
  - simpl in *. by replace n with acc by lia.
  - cbn [every] in H. apply andb_true_iff in H as [H1 H2].
    rewrite Nat2Z.inj_succ, Z.pow_succ_r in Hn by lia.
    destruct (Z.lt_ge_cases n ((2 * acc + 1) * 2 ^ Z.of_nat w)); [apply (IH _ H1)|apply (IH _ H2)]; lia.
Qed.

Lemma all_bits (w : nat) (P : Z -> bool) :
  every w P 0 = true -> forall n, 0 <= n < 2 ^ Z.of_nat w -> P n = true.
Proof. intros H n Hn. apply (every_spec w P 0 H). lia. Qed.

Lemma mask_f0 b c : 0 <= b < 256 -> (Z.land b 240 =? 16 * c) = (b / 16 =? c).
Proof.
  intros Hb. assert (Z.land b 240 = 16 * (b / 16)) as ->.
  { apply Z.eqb_eq. revert b Hb. apply (all_bits 8). vm_compute. reflexivity. }
  apply eq_true_iff_eq. rewrite !Z.eqb_eq. lia.
Qed.

Lemma v4_div a i : 0 <= i <= 3 -> in_range a -> Is4 a = true ->
  v4 a i = a_num a / 2 ^ ((3 - i) * 8) mod 256 /\ 0 <= v4 a i < 256.
Proof.
  intros Hi Hr H4. unfold v4. rewrite Z.shiftr_div_pow2 by lia.
  change 255 with (Z.ones 8). rewrite Z.land_ones by lia. change (2 ^ 8) with 256.
  split; [done|]. apply Z.mod_pos_bound. lia.
Qed.

Lemma num4 a b c d : num_of_bytes [a; b; c; d] = a * 16777216 + b * 65536 + c * 256 + d.
Proof. unfold num_of_bytes. simpl. lia. Qed.

(** Powers of two as numerals. *)
Ltac eval_pow2 :=
  repeat match goal with
    | |- context [2 ^ ?e] => let v := eval vm_compute in (2 ^ e) in progress change (2 ^ e) with v
    | H : context [2 ^ ?e] |- _ => let v := eval vm_compute in (2 ^ e) in progress change (2 ^ e) with v in H
    end.

(** The tests on bytes are tests for a block. *)
Ltac byte_blocks :=
  intros; unfold in_block, p4, p6; cbn [p_num p_is4 p_bits width]; rewrite ?num4; eval_pow2;
  apply eq_true_iff_eq; rewrite ?andb_true_iff, ?orb_true_iff, ?Z.eqb_eq; Z.to_euclidean_division_equations; lia.

Section V4.
Variable n : Z.
Hypothesis Hn : 0 <= n < 2 ^ 32.
Let b (i : Z) : Z := n / 2 ^ ((3 - i) * 8) mod 256.

Lemma v4_byte (c : Z) : 0 <= c < 256 -> (b 0 =? c) = in_block (p4 c 0 0 0 8) n.
Proof. subst b. byte_blocks. Qed.

Lemma v4_two (c d : Z) : 0 <= c < 256 -> 0 <= d < 256 ->
  (b 0 =? c) && (b 1 =? d) = in_block (p4 c d 0 0 16) n.
Proof. subst b. byte_blocks. Qed.

Lemma v4_three (c d e : Z) : 0 <= c < 256 -> 0 <= d < 256 -> 0 <= e < 256 ->
  (b 0 =? c) && (b 1 =? d) && (b 2 =? e) = in_block (p4 c d e 0 24) n.
Proof. subst b. byte_blocks. Qed.

Lemma v4_twelve (c d : Z) : 0 <= c < 256 -> 0 <= d < 16 ->
  (b 0 =? c) && (b 1 / 16 =? d) = in_block (p4 c (16 * d) 0 0 12) n.
Proof. subst b. byte_blocks. Qed.

Lemma v4_four (c : Z) : 0 <= c < 16 -> (b 0 / 16 =? c) = in_block (p4 (16 * c) 0 0 0 4) n.
Proof. subst b. byte_blocks. Qed.

End V4.

Lemma mask_fe b : 0 <= b < 256 -> (Z.land b 254 =? 252) = (b / 2 =? 126).
Proof. intros Hb. apply eqb_prop. revert b Hb. apply (all_bits 8). vm_compute. reflexivity. Qed.

Lemma mask_ffc0 u : 0 <= u < 65536 -> (Z.land u 65472 =? 65152) = (u / 64 =? 1018).
Proof. intros Hu. apply eqb_prop. revert u Hu. apply (all_bits 16). vm_compute. reflexivity. Qed.

(** ff01::/16 and ff02::/16, whatever the flags, are multicast. *)
Lemma mask_ff0f u : 0 <= u < 65536 ->
  ((Z.land u 65295 =? 65281) || (Z.land u 65295 =? 65282)) = true -> u / 256 = 255.
Proof.
  intros Hu. assert (implb ((Z.land u 65295 =? 65281) || (Z.land u 65295 =? 65282)) (u / 256 =? 255) = true) as Hi.
  { revert u Hu. apply (all_bits 16). vm_compute. reflexivity. }
  intros H. rewrite H in Hi. by apply Z.eqb_eq in Hi.
Qed.

Section Predicates.
Variable a : addr.
Hypothesis Hr : in_range a.
Abbreviation n := (a_num a).

Lemma v4_num i : 0 <= i <= 3 -> v4 a i = n / 2 ^ ((3 - i) * 8) mod 256.
Proof.
  intros Hi. unfold v4. rewrite Z.shiftr_div_pow2 by lia. change 255 with (Z.ones 8). by rewrite Z.land_ones by lia.
Qed.

Lemma range4 : Is4 a = true -> 0 <= n < 2 ^ 32.
Proof. intros H. unfold in_range in Hr. by rewrite H in Hr. Qed.

Lemma range6 : Is4 a = false -> 0 <= n < 2 ^ 128.
Proof. intros H. unfold in_range in Hr. by rewrite H in Hr. Qed.

Lemma IsLoopback_block :
  IsLoopback a = if Is4 a then in_block (p4 127 0 0 0 8) n else in_block (mkPrefix false 1 128) n.
Proof.
  unfold IsLoopback. destruct (Is4 a) eqn:E.
  - rewrite v4_num by lia. apply v4_byte; [by apply range4|lia].
  - byte_blocks.
Qed.

Lemma IsUnspecified_block :
  hasZone a = false ->
  IsUnspecified a = if Is4 a then in_block (p4 0 0 0 0 32) n else in_block (p6 0 0 128) n.
Proof.
  intros Hz. unfold IsUnspecified. apply eq_true_iff_eq. rewrite orb_true_iff, !bool_decide_eq_true.
  clear Hr. destruct a as [[|z] num]; cbn [Is4 a_kind a_num].
  - unfold in_block, p4. cbn [p_num p_is4 p_bits width]. rewrite num4, Z.eqb_eq. simpl. rewrite Z.div_1_r.
    split; [by intros [[=]|[=]]|intros ->; by left].
  - unfold hasZone in Hz. simpl in Hz. apply negb_false_iff, bool_decide_eq_true in Hz. subst z.
    unfold in_block. cbn [p_num p_is4 p_bits width p6]. rewrite Z.eqb_eq. simpl. rewrite Z.div_1_r.
    split; [by intros [[=]|[=]]|intros ->; by right].
Qed.

Lemma IsPrivate_block :
  IsPrivate a =
  if Is4 a then in_block (p4 10 0 0 0 8) n || in_block (p4 172 16 0 0 12) n || in_block (p4 192 168 0 0 16) n
  else in_block (p6 (0xfc00) 0 7) n.
Proof.
  unfold IsPrivate, v6. destruct (Is4 a) eqn:E.
  - pose proof (range4 E) as Hn. rewrite !v4_num by lia.
    change 16 with (16 * 1) at 1. rewrite mask_f0 by (apply Z.mod_pos_bound; lia).
    rewrite (v4_byte n Hn 10), (v4_twelve n Hn 172 1), (v4_two n Hn 192 168) by lia. done.
  - pose proof (range6 E) as Hn. rewrite Z.shiftr_div_pow2 by lia.
    rewrite mask_fe by (eval_pow2; Z.to_euclidean_division_equations; lia). byte_blocks.
Qed.

Lemma IsLinkLocalUnicast_block :
  IsLinkLocalUnicast a =
  if Is4 a then in_block (p4 169 254 0 0 16) n else in_block (p6 (0xfe80) 0 10) n.
Proof.
  unfold IsLinkLocalUnicast, v6u16. destruct (Is4 a) eqn:E.
  - pose proof (range4 E) as Hn. rewrite !v4_num by lia. by apply (v4_two n Hn).
  - pose proof (range6 E) as Hn. rewrite Z.shiftr_div_pow2 by lia.
    rewrite mask_ffc0 by (eval_pow2; Z.to_euclidean_division_equations; lia). byte_blocks.
Qed.

(** The three multicast tests together are the multicast block. *)
Lemma multicast_block :
  IsLinkLocalMulticast a || IsMulticast a || IsInterfaceLocalMulticast a =
  if Is4 a then in_block (p4 224 0 0 0 4) n else in_block (p6 (0xff00) 0 8) n.
Proof.
  unfold IsLinkLocalMulticast, IsMulticast, IsInterfaceLocalMulticast, v6u16, v6. destruct (Is4 a) eqn:E.
  - pose proof (range4 E) as Hn. rewrite orb_false_r, !v4_num by lia.
    rewrite (v4_three n Hn) by lia. change 224 with (16 * 14) at 2. rewrite mask_f0 by (apply Z.mod_pos_bound; lia).
    rewrite (v4_four n Hn 14) by lia. change (16 * 14) with 224. byte_blocks.
  - pose proof (range6 E) as Hn. rewrite !Z.shiftr_div_pow2 by lia.
    pose proof (mask_ff0f (n / 2 ^ 112) ltac:(eval_pow2; Z.to_euclidean_division_equations; lia)) as Hm.
    replace (in_block (p6 0xff00 0 8) n) with (n / 2 ^ 120 =? 255) by byte_blocks.
    assert (n / 2 ^ 112 / 256 = n / 2 ^ 120) as Hq by (change 256 with (2 ^ 8); rewrite Z.div_div by lia; done).
    apply eq_true_iff_eq. rewrite !orb_true_iff, !Z.eqb_eq. rewrite <- Hq.
    rewrite orb_true_iff, !Z.eqb_eq in Hm. tauto.
Qed.

End Predicates.

(** ** The range of parsed addresses *)

Definition byte_val (b : Z) : Prop := 0 <= b < 256.

Lemma decimal_acc_nonneg s acc : forall_str is_digit s = true -> 0 <= acc -> 0 <= decimal_acc s acc.
Proof.
  revert acc. induction s as [|c s IH]; intros acc H Hacc; [done|]. simpl in *. apply andb_true_iff in H as [Hc H].
  apply IH; [done|]. unfold is_digit in Hc. apply andb_true_iff in Hc as [Hc _]. apply N.leb_le in Hc.
  unfold digit_value. lia.
Qed.

Lemma parse_octet_range s b : parse_octet s = Some b -> byte_val b.
Proof.
  unfold parse_octet. destruct (_ || _) eqn:E; [done|]. destruct (_ && _); [done|].
  destruct (decimal s >? 255) eqn:E2; [done|]. intros [= <-]. apply orb_false_iff in E as [_ E].
  apply negb_false_iff in E. bool_to_prop. bool_to_prop. split; [|lia]. by apply decimal_acc_nonneg.
Qed.

Lemma parseIPv4_range s l : parseIPv4Fields s = Some l -> Forall byte_val l /\ length l = 4%nat.
Proof.
  unfold parseIPv4Fields. destruct (Split s ".") as [|a [|b [|c [|d [|e rest]]]]]; try done.
  intros H. apply bind_Some in H as (x & Hx & H). apply bind_Some in H as (y & Hy & H).
  apply bind_Some in H as (z & Hz & H). apply bind_Some in H as (w & Hw & H). injection H as <-.
  split; [|done]. repeat constructor; by eapply parse_octet_range.
Qed.

Lemma hex_value_range c v : hex_value c = Some v -> 0 <= v < 16.
Proof. unfold hex_value. intros H. repeat case_match; simplify_eq; bool_to_prop; lia. Qed.

Lemma hex_group_range s off acc o v rest :
  hex_group s off acc = Some (o, v, rest) -> (off <= 4)%nat -> 0 <= acc < 16 ^ Z.of_nat off ->
  0 <= v < 65536.
Proof.
  revert off acc. induction s as [|c s IH]; intros off acc H Ho Ha; simpl in H.
  - injection H as <- <- <-. split; [lia|]. eapply Z.lt_le_trans; [apply Ha|].
    change 65536 with (16 ^ 4). apply Z.pow_le_mono_r; lia.
  - destruct (hex_value c) as [d|] eqn:Hd.
    + destruct (3 <? off)%nat eqn:E; [done|]. apply Nat.ltb_ge in E. apply hex_value_range in Hd.
      eapply IH; [exact H|lia|]. rewrite Nat2Z.inj_succ, Z.pow_succ_r by lia. lia.
    + injection H as <- <- <-. split; [lia|]. eapply Z.lt_le_trans; [apply Ha|].
      change 65536 with (16 ^ 4). apply Z.pow_le_mono_r; lia.
Qed.

Lemma two_bytes n : 0 <= n < 65536 -> Forall byte_val [n / 256; n mod 256].
Proof. intros Hn. repeat constructor; Z.to_euclidean_division_equations; lia. Qed.

Lemma ipv6_groups_range fuel s ip e l e' :
  ipv6_groups fuel s ip e = Some (l, e') -> Forall byte_val ip -> (length ip <= 16)%nat -> Nat.Even (length ip) ->
  Forall byte_val l /\ (length l <= 16)%nat.
Proof.
  revert s ip e. induction fuel as [|fuel IH]; intros s ip e H Hip Hlen Hev; cbn [ipv6_groups] in H.
  { case_bool_decide; [by injection H as <- <-|done]. }
  destruct (16 <=? length ip)%nat eqn:E; [case_bool_decide; [by injection H as <- <-|done]|]. apply Nat.leb_gt in E.
  apply bind_Some in H as ([[off acc] rest] & Hg & H).
  apply hex_group_range in Hg; [|lia|simpl; lia].
  destruct (off =? 0)%nat; [done|]. destruct (HasPrefix rest ".").
  - destruct (_ || _) eqn:Eb; [done|]. apply bind_Some in H as (v4 & Hv & H). injection H as <- <-.
    apply orb_false_iff in Eb as [_ Eb]. apply Nat.ltb_ge in Eb.
    apply parseIPv4_range in Hv as [Hv Hl]. split; [by apply Forall_app|]. rewrite length_app. lia.
  - assert (Forall byte_val (ip ++ [acc / 256; acc mod 256])) as Hip'.
    { apply Forall_app. split; [done|]. by apply two_bytes. }
    assert (length (ip ++ [(acc / 256)%Z; (acc mod 256)%Z]) <= 16)%nat as Hlen'
      by (clear H; rewrite length_app; simpl; destruct Hev; lia).
    assert (Nat.Even (length (ip ++ [acc / 256; acc mod 256]))) as Hev'.
    { rewrite length_app. simpl. destruct Hev as [k ->]. exists (S k). lia. }
    repeat case_match; simplify_eq; eauto.
Qed.

Lemma zeros_range k : Forall byte_val (repeat 0 k).
Proof. apply Forall_forall. intros x Hx. apply list_elem_of_In, repeat_spec in Hx as ->. by split. Qed.

Lemma expand_range l e l' :
  expand_ellipsis l e = Some l' -> Forall byte_val l -> (length l <= 16)%nat -> Forall byte_val l' /\ length l' = 16%nat.
Proof.
  unfold expand_ellipsis. intros H Hl Hlen. destruct (length l <? 16)%nat eqn:E.
  - destruct e as [e|]; [|done]. injection H as <-. split.
    + repeat apply Forall_app_2; [by apply Forall_take|apply zeros_range|by apply Forall_drop].
    + rewrite !length_app, repeat_length, length_take, length_drop. apply Nat.ltb_lt in E. lia.
  - destruct e; [done|]. injection H as <-. apply Nat.ltb_ge in E. split; [done|lia].
Qed.

Lemma parseIPv6_range s l : parseIPv6 s = Some l -> Forall byte_val l /\ length l = 16%nat.
Proof.
  unfold parseIPv6. destruct (IndexByte_str s "%"); [done|].
  assert (Nat.Even (length (A := Z) [])) as Hev by (by exists 0%nat).
  intros H. repeat case_match; simplify_eq.
  - split; [apply (zeros_range 16)|done].
  - apply bind_Some in H as ([ip e] & Hg & H). apply ipv6_groups_range in Hg as [??]; [|done|simpl; lia|done].
    by eapply expand_range.
  - apply bind_Some in H as ([ip e] & Hg & H). apply ipv6_groups_range in Hg as [??]; [|done|simpl; lia|done].
    by eapply expand_range.
Qed.

Lemma num_of_bytes_acc l acc :
  Forall byte_val l -> 0 <= acc ->
  0 <= foldl (fun acc b => 256 * acc + b) acc l < (acc + 1) * 256 ^ zlen l.
Proof.
  intros Hl. revert acc. induction Hl as [|b l Hb Hl IH]; intros acc Hacc; [simpl; lia|].
  cbn [foldl length]. rewrite Nat2Z.inj_succ, Z.pow_succ_r by lia. unfold byte_val in Hb.
  specialize (IH (256 * acc + b) ltac:(lia)). split; [lia|]. eapply Z.lt_le_trans; [apply IH|].
  replace ((acc + 1) * (256 * 256 ^ zlen l)) with ((256 * (acc + 1)) * 256 ^ zlen l) by lia.
  apply Z.mul_le_mono_nonneg_r; lia.
Qed.

Lemma ParseAddr_range s a : ParseAddr s = Some a -> in_range a.
Proof.
  assert (forall z b, Forall byte_val (match b with V4 ip | V6 ip => ip end) ->
    length (match b with V4 ip | V6 ip => ip end) = (match b with V4 _ => 4 | V6 _ => 16 end)%nat ->
    in_range (of_Addr z b)) as Hof.
  { intros z [ip|ip] Hb Hl; pose proof (num_of_bytes_acc ip 0 Hb ltac:(lia)) as Hn; rewrite Hl in Hn; exact Hn. }
  assert (forall z b, Net.ParseAddr s = Some b -> in_range (of_Addr z b)) as Hnet.
  { intros z b Hp. unfold Net.ParseAddr in Hp.
    repeat case_match; simplify_eq; apply fmap_Some in Hp as (ip & Hp & ->); apply Hof;
      first [by eapply parseIPv4_range|by eapply parseIPv6_range]. }
  unfold ParseAddr. intros H.
  assert (of_Addr "" <$> Net.ParseAddr s = Some a -> in_range a) as Hplain.
  { intros Hp. apply fmap_Some in Hp as (b & Hp & ->). by apply Hnet. }
  destruct (address_kind s) as [c|]; [|auto].
  destruct (decide (c = ":"%char)) as [->|Hne].
  - destruct (IndexByte_str s "%") as [i|]; [|auto]. case_bool_decide; [done|].
    apply fmap_Some in H as (ip & Hp & ->). apply (Hof _ (V6 ip)); by eapply parseIPv6_range.
  - apply Hplain. revert H. clear -Hne. destruct c as [[] [] [] [] [] [] [] []]; done.
Qed.
