(* ===== verification/Url.v ===== *)
(** * URLs, as Go's net/url reads and writes them

    [Parse], [URL.String], [Hostname], [EscapedPath], [ParseQuery] and
    [Values.Encode], which the client-id rules and the redirects of the OAuth
    front door are built on. [None] is a parse error; which error it is makes
    no difference to the code. The user information is kept with its password
    only as far as [String] writes it. *)
From S2P Require Import Prelude GoStrings Net Netip.
From Stdlib Require Import Ascii.

(** ** Strings *)

(** [strings.Contains] of one byte. *)
Definition has_byte (s : string) (c : ascii) : bool := match IndexByte_str s c with Some _ => true | None => false end.

(** [strings.Cut] at one byte. *)
Definition Cut (s : string) (c : ascii) : string * string :=
  match IndexByte_str s c with Some i => (take_str i s, drop_str (S i) s) | None => (s, EmptyString) end.

Fixpoint HasSuffix_char (s : string) (c : ascii) : bool :=
  match s with
  | EmptyString => false
  | String a EmptyString => bool_decide (a = c)
  | String _ s => HasSuffix_char s c
  end.

Fixpoint count_byte (s : string) (c : ascii) : nat :=
  match s with EmptyString => O | String a s => ((if bool_decide (a = c) then 1 else 0) + count_byte s c)%nat end.

Definition code (a : ascii) : Z := Z.of_N (N_of_ascii a).
Definition char (n : Z) : ascii := ascii_of_N (Z.to_N n).

Definition is_upper (a : ascii) : bool := (65 <=? code a) && (code a <=? 90).
Definition is_lower (a : ascii) : bool := (97 <=? code a) && (code a <=? 122).
Definition is_alnum (a : ascii) : bool := is_upper a || is_lower a || is_digit a.

(** [strings.ToLower] of an ASCII string. *)
Definition lower (a : ascii) : ascii := if is_upper a then char (code a + 32) else a.
Fixpoint ToLower_ascii (s : string) : string :=
  match s with EmptyString => EmptyString | String a s => String (lower a) (ToLower_ascii s) end.

Fixpoint mem_str (a : ascii) (s : string) : bool :=
  match s with EmptyString => false | String b s => bool_decide (a = b) || mem_str a s end.

(** ** Escaping *)

Inductive encoding := encodePath | encodePathSegment | encodeHost | encodeZone | encodeUserPassword | encodeQueryComponent | encodeFragment.
#[export] Instance encoding_eq_dec : EqDecision encoding.
Proof. solve_decision. Defined.

Definition host_mode (m : encoding) : bool := match m with encodeHost | encodeZone => true | _ => false end.

Definition dquote_char : ascii := char 34.

Definition shouldEscape (c : ascii) (m : encoding) : bool :=
  if is_alnum c then false
  else if host_mode m && (mem_str c "!$&'()*+,;=:[]<>" || bool_decide (c = dquote_char)) then false
  else if mem_str c "-_.~" then false
  else if mem_str c "$&+,/:;=?@" then
    match m with
    | encodePath => bool_decide (c = "?"%char)
    | encodePathSegment => mem_str c "/;,?"
    | encodeUserPassword => mem_str c "@/?:"
    | encodeQueryComponent => true
    | encodeFragment => false
    | encodeHost | encodeZone => true
    end
  else match m with encodeFragment => negb (mem_str c "!()*") | _ => true end.

Definition hex_digit (n : Z) : ascii := if n <? 10 then char (48 + n) else char (55 + n).

Fixpoint escape (s : string) (m : encoding) : string :=
  match s with
  | EmptyString => EmptyString
  | String a s =>
      if shouldEscape a m then
        if bool_decide (a = " "%char) && bool_decide (m = encodeQueryComponent) then String "+" (escape s m)
        else String "%" (String (hex_digit (code a / 16)) (String (hex_digit (code a mod 16)) (escape s m)))
      else String a (escape s m)
  end.

(** Whether an escape of the byte [16 * h + l] is allowed. *)
Definition escape_allowed (h l : Z) (m : encoding) : bool :=
  let v := 16 * h + l in
  match m with
  | encodeHost => negb (h <? 8) || (v =? 37)
  | encodeZone => (v =? 37) || (v =? 32) || negb (shouldEscape (char v) encodeHost)
  | _ => true
  end.

Fixpoint unescape (s : string) (m : encoding) : option string :=
  match s with
  | EmptyString => Some EmptyString
  | String a s' =>
      if bool_decide (a = "%"%char) then
        match s' with
        | String x (String y rest) =>
            match hex_value x, hex_value y with
            | Some h, Some l =>
                if escape_allowed h l m then String (char (16 * h + l)) <$> unescape rest m else None
            | _, _ => None
            end
        | _ => None
        end
      else if bool_decide (a = "+"%char) && bool_decide (m = encodeQueryComponent) then String " " <$> unescape s' m
      else if host_mode m && (code a <? 128) && shouldEscape a m then None
      else String a <$> unescape s' m
  end.

Fixpoint validEncoded (s : string) (m : encoding) : bool :=
  match s with
  | EmptyString => true
  | String a s =>
      (mem_str a "!$&'()*+,;=:@[]%" || negb (shouldEscape a m)) && validEncoded s m
  end.

(** ** URLs *)

Record URL := mkURL {
  Scheme : string; Opaque : string; User : option (string * option string); Host : string;
  Path : string; RawPath : string; OmitHost : bool; ForceQuery : bool; RawQuery : string;
  Fragment : string; RawFragment : string }.

(** The scheme, if the text has one; [None] for a text that starts with ":". *)
Fixpoint scheme_from (i : nat) (s : string) : option (option nat) :=
  match s with
  | EmptyString => Some None
  | String c s =>
      if is_upper c || is_lower c then scheme_from (S i) s
      else if is_digit c || mem_str c "+-." then (if (i =? 0)%nat then Some None else scheme_from (S i) s)
      else if bool_decide (c = ":"%char) then (if (i =? 0)%nat then None else Some (Some i))
      else Some None
  end.

Definition getScheme (s : string) : option (string * string) :=
  match scheme_from 0 s with
  | None => None
  | Some None => Some (EmptyString, s)
  | Some (Some i) => Some (take_str i s, drop_str (S i) s)
  end.

Definition validOptionalPort (port : string) : bool :=
  match port with
  | EmptyString => true
  | String c s => bool_decide (c = ":"%char) && forall_str is_digit s
  end.

Fixpoint index3 (s p : string) : option nat :=
  match s with
  | EmptyString => None
  | String _ s' => if HasPrefix s p then Some O else S <$> index3 s' p
  end.

Definition parseHost (host : string) : option string :=
  match LastIndexByte_str host "[" with
  | Some open =>
      close ← LastIndexByte_str host "]";
      let colonPort := drop_str (S close) host in
      if (0 <? open)%nat then None
      else if negb (validOptionalPort colonPort) then None
      else
        port ← unescape colonPort encodeHost;
        let hostname := take_str (close - S open) (drop_str (S open) host) in
        h ← match index3 hostname "%25" with
            | Some z =>
                h ← unescape (take_str z hostname) encodeHost; zone ← unescape (drop_str z hostname) encodeZone;
                Some (h ++ zone)%string
            | None => unescape hostname encodeHost
            end;
        a ← Netip.ParseAddr h;
        if Is4 a then None else Some ("[" ++ h ++ "]" ++ port)%string
  | None =>
      match IndexByte_str host ":" with
      | Some i =>
          if negb (bool_decide (LastIndexByte_str host ":" = Some i)) then None
          else if negb (validOptionalPort (drop_str i host)) then None
          else unescape host encodeHost
      | None => unescape host encodeHost
      end
  end.

Definition user_char (a : ascii) : bool := is_alnum a || mem_str a "-._:~!$&'()*+,;=%@".

Definition parseAuthority (authority : string) : option (option (string * option string) * string) :=
  match LastIndexByte_str authority "@" with
  | None => h ← parseHost authority; Some (None, h)
  | Some i =>
      h ← parseHost (drop_str (S i) authority);
      let userinfo := take_str i authority in
      if negb (forall_str user_char userinfo) then None
      else if negb (has_byte userinfo ":") then
        u ← unescape userinfo encodeUserPassword; Some (Some (u, None), h)
      else
        let '(u, p) := Cut userinfo ":" in
        u ← unescape u encodeUserPassword; p ← unescape p encodeUserPassword; Some (Some (u, Some p), h)
  end.

(** [setPath]: the decoded path, and the raw one when it is not the default
    encoding. *)
Definition setPath (p : string) : option (string * string) :=
  path ← unescape p encodePath;
  Some (path, if bool_decide (p = escape path encodePath) then EmptyString else p).

Definition control (a : ascii) : bool := (code a <? 32) || (code a =? 127).

(** The query, split off what follows the scheme. *)
Definition split_query (rest : string) : bool * string * string :=
  if HasSuffix_char rest "?" && (count_byte rest "?" =? 1)%nat
  then (true, take_str (String.length rest - 1) rest, EmptyString)
  else let '(rest, q) := Cut rest "?" in (false, rest, q).

(** [parse] of a URL whose fragment has been cut off. *)
Definition parse (rawURL : string) : option URL :=
  if negb (forall_str (fun a => negb (control a)) rawURL) then None
  else if bool_decide (rawURL = "*"%string) then Some (mkURL "" "" None "" "*" "" false false "" "" "")
  else
    '(scheme, rest) ← getScheme rawURL;
    let scheme := ToLower_ascii scheme in
    let '(force, rest, query) := split_query rest in
    let scheme_less := bool_decide (scheme = EmptyString) in
    if negb (HasPrefix rest "/") && negb scheme_less
    then Some (mkURL scheme rest None "" "" "" false force query "" "")
    else if negb (HasPrefix rest "/") && has_byte (fst (Cut rest "/")) ":" then None
    else
      '(user, host, omit, rest) ←
        (if (negb scheme_less || negb (HasPrefix rest "///")) && HasPrefix rest "//" then
           let authority := drop_str 2 rest in
           let '(authority, rest) :=
             match IndexByte_str authority "/" with
             | Some i => (take_str i authority, drop_str i authority)
             | None => (authority, EmptyString)
             end in
           '(user, host) ← parseAuthority authority; Some (user, host, false, rest)
         else Some (None, EmptyString, negb scheme_less && HasPrefix rest "/", rest));
      '(path, raw) ← setPath rest;
      Some (mkURL scheme "" user host path raw omit force query "" "").

Definition Parse (rawURL : string) : option URL :=
  let '(u, frag) := Cut rawURL "#" in
  url ← parse u;
  if bool_decide (frag = EmptyString) then Some url
  else
    f ← unescape frag encodeFragment;
    Some (mkURL (Scheme url) (Opaque url) (User url) (Host url) (Path url) (RawPath url) (OmitHost url)
            (ForceQuery url) (RawQuery url) f
            (if bool_decide (frag = escape f encodeFragment) then EmptyString else frag)).

Definition EscapedPath (u : URL) : string :=
  if negb (bool_decide (RawPath u = EmptyString)) && validEncoded (RawPath u) encodePath
     && bool_decide (unescape (RawPath u) encodePath = Some (Path u))
  then RawPath u
  else if bool_decide (Path u = "*"%string) then "*" else escape (Path u) encodePath.

Definition EscapedFragment (u : URL) : string :=
  if negb (bool_decide (RawFragment u = EmptyString)) && validEncoded (RawFragment u) encodeFragment
     && bool_decide (unescape (RawFragment u) encodeFragment = Some (Fragment u))
  then RawFragment u else escape (Fragment u) encodeFragment.

Definition userinfo_string (u : string * option string) : string :=
  (escape (fst u) encodeUserPassword ++
   match snd u with Some p => ":" ++ escape p encodeUserPassword | None => "" end)%string.

(** What [String] writes between the scheme and the path. *)
Definition authority_string (u : URL) : string :=
  if bool_decide (Scheme u = EmptyString) && bool_decide (Host u = EmptyString) && bool_decide (User u = None) then ""
  else if OmitHost u && bool_decide (Host u = EmptyString) && bool_decide (User u = None) then ""
  else
    ((if bool_decide (Host u = EmptyString) && bool_decide (Path u = EmptyString) && bool_decide (User u = None)
      then "" else "//") ++
     match User u with Some i => userinfo_string i ++ "@" | None => "" end ++
     (if bool_decide (Host u = EmptyString) then "" else escape (Host u) encodeHost))%string.

(** [URL.String]. *)
Definition url_string (u : URL) : string :=
  let scheme := (if bool_decide (Scheme u = EmptyString) then "" else Scheme u ++ ":")%string in
  let body :=
    (if negb (bool_decide (Opaque u = EmptyString)) then scheme ++ Opaque u
     else
       let front := scheme ++ authority_string u in
       let path := EscapedPath u in
       let front :=
         if negb (bool_decide (path = EmptyString)) && negb (HasPrefix path "/") && negb (bool_decide (Host u = EmptyString))
         then front ++ "/" else front in
       let front :=
         if bool_decide (front = EmptyString) && has_byte (fst (Cut path "/")) ":" then "./" else front in
       front ++ path)%string in
  (body ++ (if ForceQuery u || negb (bool_decide (RawQuery u = EmptyString)) then "?" ++ RawQuery u else "") ++
   (if bool_decide (Fragment u = EmptyString) then "" else "#" ++ EscapedFragment u))%string.

(** The host without its port and brackets. *)
Definition Hostname (u : URL) : string :=
  let host := Host u in
  let host :=
    match LastIndexByte_str host ":" with
    | Some colon => if validOptionalPort (drop_str colon host) then take_str colon host else host
    | None => host
    end in
  if HasPrefix host "[" && HasSuffix_char host "]" then take_str (String.length host - 2) (drop_str 1 host) else host.

(** ** Queries *)

(** Keys with their values, in the order of the first occurrence. *)
Abbreviation Values := (list (string * list string)).

Fixpoint values_add (v : Values) (k x : string) : Values :=
  match v with
  | [] => [(k, [x])]
  | (k', xs) :: v => if bool_decide (k' = k) then (k', xs ++ [x]) :: v else (k', xs) :: values_add v k x
  end.

(** [Values.Set]. *)
Fixpoint values_set (v : Values) (k x : string) : Values :=
  match v with
  | [] => [(k, [x])]
  | (k', xs) :: v => if bool_decide (k' = k) then (k', [x]) :: v else (k', xs) :: values_set v k x
  end.

Fixpoint values_get (v : Values) (k : string) : string :=
  match v with
  | [] => EmptyString
  | (k', xs) :: v => if bool_decide (k' = k) then List.hd EmptyString xs else values_get v k
  end.

(** [URL.Query]: pairs that do not decode, or hold a semicolon, are dropped. *)
Definition query_pair (v : Values) (pair : string) : Values :=
  if has_byte pair ";" || bool_decide (pair = EmptyString) then v
  else
    let '(k, x) := Cut pair "=" in
    match unescape k encodeQueryComponent, unescape x encodeQueryComponent with
    | Some k, Some x => values_add v k x
    | _, _ => v
    end.

Definition parse_query (q : string) : Values := foldl query_pair [] (Split q "&").
Definition Query (u : URL) : Values := parse_query (RawQuery u).

(** The keys in the order of their bytes. *)
Fixpoint insert_key (k : string) (l : list string) : list string :=
  match l with
  | [] => [k]
  | k' :: l' => if String.leb k k' then k :: l else k' :: insert_key k l'
  end.
Definition sort_keys (l : list string) : list string := foldr insert_key [] l.

Fixpoint values_of (v : Values) (k : string) : list string :=
  match v with [] => [] | (k', xs) :: v => if bool_decide (k' = k) then xs else values_of v k end.

Definition Encode (v : Values) : string :=
  Join (mjoin (map (fun k => map (fun x => (escape k encodeQueryComponent ++ "=" ++ escape x encodeQueryComponent)%string)
                               (values_of v k)) (sort_keys (map fst v)))) "&".

Example url_ex1 :
  url_string <$> Parse "HTTPS://Ex.org:8443/a%2Fb/c?x=1" = Some "https://Ex.org:8443/a%2Fb/c?x=1"%string.
Proof. vm_compute. reflexivity. Qed.
Example url_ex2 : Hostname <$> Parse "https://[::1%25lo]:90/x" = Some "::1%lo"%string.
Proof. vm_compute. reflexivity. Qed.
Example url_ex3 : Parse "https://a:1:2/" = None.
Proof. vm_compute. reflexivity. Qed.
Example url_ex4 : url_string <$> Parse "mailto:joe@example.org" = Some "mailto:joe@example.org"%string.
Proof. vm_compute. reflexivity. Qed.
Example url_ex5 :
  Encode (values_set (parse_query "b=2&a=1%20x&b=3") "error" "a b") = "a=1+x&b=2&b=3&error=a+b"%string.
Proof. vm_compute. reflexivity. Qed.
