(* ===== verification/Config.v ===== *)
(** * The configuration (internal/config/config.go)

    What a configuration file decodes to, the defaults, the checks with every
    error, and what is derived after them. The YAML decoder, the regular
    expressions, the parsers of certificates and of public keys, the file system
    and the environment are parameters; numbers with a fraction are binary64. *)
From Stdlib Require Import Ascii SpecFloat.
From S2P Require Import Prelude GoStrings Url RealIP Address.
#[local] Open Scope Z_scope.

(** ** Data *)

Abbreviation float64 := spec_float.

Definition float_of_Z (z : Z) : float64 := binary_normalize 53 1024 z 0 false.

Record HostKeyLine := mkHostKeyLine { hk_Type : string; hk_Key : list byte; hk_Fingerprint : string }.

Record SeedEndpoint := mkSeedEndpoint {
  se_Label : string; se_Address : string; se_AgentForward : option bool; se_Description : option string; se_HostKey : option string;
  se_Parsed : EndpointAddress; se_ParsedHostKey : option HostKeyLine }.

Record SeedAdminPasskey := mkSeedPasskey {
  sp_CredentialID : string; sp_PublicKeyHex : string; sp_Counter : Z; sp_Transports : option (list string); sp_Label : string }.

Record RateLimitRule := mkRateLimitRule { rl_Max : Z; rl_WindowMinutes : Z }.

Record RateLimits := mkRateLimits { rl_SelfRegister : RateLimitRule; rl_PasskeyRegister : RateLimitRule; rl_LoginOptions : RateLimitRule; rl_LoginVerify : RateLimitRule }.

(** The value of server.trustProxy, of any type. *)
Inductive any_trust := TrustNil | TrustNumber | TrustOther | TrustValue (v : trustProxy).

(** A slice that was not given is [None]. *)
Record Config := mkConfig {
  c_KeyDirectory : string; c_SeedAdminEndpoints : list SeedEndpoint; c_SeedAdminPasskeys : list SeedAdminPasskey; c_DemoEndpoints : list SeedEndpoint;
  c_Port : Z; c_ExternalURL : string; c_TrustProxy : any_trust;
  c_RpID : string; c_AllowedNetworks : option (list string); c_SelfRegistrationEnabled : bool; c_RateLimit : RateLimits; c_TrustedWebauthnOrigins : list string;
  c_DebounceMs : Z; c_SessionTimeoutMinutes : option Z; c_ProxyEnabled : bool;
  c_IdleTimeoutMinutes : float64; c_CleanupIntervalSeconds : float64;
  c_PublicURL : string; c_AdminURL : string; c_ClientID : string; c_RedirectURI : string; c_IntrospectionCacheTtlMs : option Z;
  c_AllowedScopes : option (list string); c_RedirectURIPatterns : option (list string);
  c_CimdEnabled : option bool; c_AllowedHosts : list string; c_BlockedHosts : list string; c_CacheMinSeconds : Z; c_CacheMaxSeconds : Z;
  c_ExtraCaBundlePath : string; c_AllowLoopbackDocuments : bool; c_DevProxyUpstream : string;
  c_Vapid : option (string * string * string) }.

(** ** Defaults *)

Definition or_str (s d : string) : string := if bool_decide (s = EmptyString) then d else s.
Definition or_int (n d : Z) : Z := if n =? 0 then d else n.
Definition or_float (v d : float64) : float64 := if SFeqb v (float_of_Z 0) then d else v.
Definition or_nil {A} (o : option A) (d : A) : option A := Some (default d o).

Definition defaultAllowedNetworks : list string := ["127.0.0.1/32"; "::1/128"]%string.
Definition defaultRateLimit : RateLimits := mkRateLimits (mkRateLimitRule 5 15) (mkRateLimitRule 10 15) (mkRateLimitRule 20 15) (mkRateLimitRule 10 15).
Definition defaultDcrAllowedScopes : list string := ["mcp"; "agent"]%string.
Definition defaultDcrRedirectURIPatterns : list string := ["^http://(127\.0\.0\.1|localhost)(:\d+)?(/.*)?$"; "^http://\[::1\](:\d+)?(/.*)?$"]%string.
Definition defaultIntrospectionCacheTtlMs : Z := 60000.
Definition defaultCimdCacheMinSeconds : Z := 300.
Definition defaultCimdCacheMaxSeconds : Z := 86400.
Definition defaultIdleTimeoutMinutes : Z := 30.
Definition defaultCleanupIntervalSeconds : Z := 60.

Definition fillRule (r d : RateLimitRule) : RateLimitRule := mkRateLimitRule (or_int (rl_Max r) (rl_Max d)) (or_int (rl_WindowMinutes r) (rl_WindowMinutes d)).

Definition fillRules (r d : RateLimits) : RateLimits :=
  mkRateLimits (fillRule (rl_SelfRegister r) (rl_SelfRegister d)) (fillRule (rl_PasskeyRegister r) (rl_PasskeyRegister d))
    (fillRule (rl_LoginOptions r) (rl_LoginOptions d)) (fillRule (rl_LoginVerify r) (rl_LoginVerify d)).

Definition default_passkey (p : SeedAdminPasskey) : SeedAdminPasskey :=
  mkSeedPasskey (sp_CredentialID p) (sp_PublicKeyHex p) (sp_Counter p) (or_nil (sp_Transports p) []) (or_str (sp_Label p) "Admin Passkey").

Definition applyDefaults (c : Config) : Config :=
  mkConfig (or_str (c_KeyDirectory c) "./keys") (c_SeedAdminEndpoints c) (map default_passkey (c_SeedAdminPasskeys c)) (c_DemoEndpoints c)
    (or_int (c_Port c) 3000) (c_ExternalURL c) (match c_TrustProxy c with TrustNil => TrustValue (TrustBool false) | v => v end)
    (c_RpID c) (or_nil (c_AllowedNetworks c) defaultAllowedNetworks) (c_SelfRegistrationEnabled c) (fillRules (c_RateLimit c) defaultRateLimit)
    (c_TrustedWebauthnOrigins c) (or_int (c_DebounceMs c) 100) (c_SessionTimeoutMinutes c) (c_ProxyEnabled c)
    (or_float (c_IdleTimeoutMinutes c) (float_of_Z defaultIdleTimeoutMinutes)) (or_float (c_CleanupIntervalSeconds c) (float_of_Z defaultCleanupIntervalSeconds))
    (c_PublicURL c) (c_AdminURL c) (or_str (c_ClientID c) "shellwatch-web") (c_RedirectURI c)
    (or_nil (c_IntrospectionCacheTtlMs c) defaultIntrospectionCacheTtlMs) (or_nil (c_AllowedScopes c) defaultDcrAllowedScopes)
    (or_nil (c_RedirectURIPatterns c) defaultDcrRedirectURIPatterns) (or_nil (c_CimdEnabled c) true) (c_AllowedHosts c) (c_BlockedHosts c)
    (or_int (c_CacheMinSeconds c) defaultCimdCacheMinSeconds) (or_int (c_CacheMaxSeconds c) defaultCimdCacheMaxSeconds)
    (c_ExtraCaBundlePath c) (c_AllowLoopbackDocuments c) (c_DevProxyUpstream c) (c_Vapid c).

(** ** Durations *)

(** Go's conversion of a float64 to an int64: towards zero; what becomes of
    other values depends on the machine, and is the parameter [wild]. *)
Definition int64_of_float (wild : float64 -> Z) (v : float64) : Z :=
  match v with
  | S754_zero _ => 0
  | S754_finite s m e =>
      let z := if 0 <=? e then Z.shiftl (Zpos m) e else Z.shiftr (Zpos m) (- e) in
      let z := if s then - z else z in
      if (- 2 ^ 63 <=? z) && (z <? 2 ^ 63) then z else wild v
  | _ => wild v
  end.

Definition second : Z := 1000000000.

Definition IdleTimeout (wild : float64 -> Z) (c : Config) : Z :=
  int64_of_float wild (SFmul 53 1024 (c_IdleTimeoutMinutes c) (float_of_Z (60 * second))).
Definition CleanupInterval (wild : float64 -> Z) (c : Config) : Z :=
  int64_of_float wild (SFmul 53 1024 (c_CleanupIntervalSeconds c) (float_of_Z second)).

(** ** Checks *)

Inductive config_error :=
  | PortRange | ExternalURL | TrustHops | TrustEntries | TrustType | RpIDRequired | OriginRequired | OriginScheme (o : string) | RateLimitMin (name : string)
  | DebounceRange | SessionTimeoutRemoved | IdleTimeoutRange | CleanupRange | PublicURL | AdminURL | RedirectURI | DevProxyUpstream | TtlRange
  | PatternSyntax (p : string) | CacheBounds | CaUnreadable (p : string) | CaEmpty (p : string) | HostForm (h : string)
  | SeedLabel (i : nat) | DemoLabel (i : nat) | DescriptionLength (label : string) | PasskeyFields (i : nat)
  | VapidSubject | VapidPublicKey | VapidPrivateKey.

Definition isURL (s : string) : bool :=
  match Parse s with Some u => negb (bool_decide (Scheme u = EmptyString)) && negb (bool_decide (Url.Host u = EmptyString)) | None => false end.

Definition err_if (b : bool) (e : config_error) : list config_error := if b then [e] else [].

Definition ContainsAny (s chars : string) : bool := negb (forall_str (fun a => negb (mem_str a chars)) s).

Definition empty (s : string) : bool := bool_decide (s = EmptyString).

Definition trust_errors (v : any_trust) : list config_error :=
  match v with
  | TrustValue (TrustList l) => err_if (existsb (fun e => match e with None => true | _ => false end) l) TrustEntries
  | TrustValue _ => []
  | TrustNumber => [TrustHops]
  | _ => [TrustType]
  end.

Definition rule_of (r : RateLimits) (name : string) : RateLimitRule :=
  if bool_decide (name = "selfRegister"%string) then rl_SelfRegister r else if bool_decide (name = "passkeyRegister"%string) then rl_PasskeyRegister r
  else if bool_decide (name = "loginOptions"%string) then rl_LoginOptions r else rl_LoginVerify r.

Definition rule_names : list string := ["selfRegister"; "passkeyRegister"; "loginOptions"; "loginVerify"]%string.

(** A float is in (0, hi]; the check is the negation of Go's two comparisons. *)
Definition out_of (hi : Z) (v : float64) : bool := SFleb v (float_of_Z 0) || SFltb (float_of_Z hi) v.

Section Load.
Context (regexp_ok : string -> bool) (ReadFile : string -> option string) (pem_ok : string -> bool).
Context (ParseAuthorizedKey : string -> option (string * list byte * string)).

Definition ca_errors (p : string) : list config_error :=
  if empty p then []
  else match ReadFile p with None => [CaUnreadable p] | Some raw => err_if (negb (pem_ok raw)) (CaEmpty p) end.

(** [names] is the order in which the map of the limits is walked. *)
Definition validate (names : list string) (c : Config) : list config_error :=
  err_if ((c_Port c <? 1) || (c_Port c >? 65535)) PortRange ++
  err_if (negb (isURL (c_ExternalURL c))) ExternalURL ++
  trust_errors (c_TrustProxy c) ++
  err_if (empty (c_RpID c)) RpIDRequired ++
  err_if (bool_decide (c_TrustedWebauthnOrigins c = [])) OriginRequired ++
  mjoin (map (fun o => err_if (negb (HasPrefix o "http://") && negb (HasPrefix o "https://")) (OriginScheme o)) (c_TrustedWebauthnOrigins c)) ++
  mjoin (map (fun n => let r := rule_of (c_RateLimit c) n in err_if ((rl_Max r <? 1) || (rl_WindowMinutes r <? 1)) (RateLimitMin n)) names) ++
  err_if ((c_DebounceMs c <? 10) || (c_DebounceMs c >? 5000)) DebounceRange ++
  err_if (match c_SessionTimeoutMinutes c with Some _ => true | None => false end) SessionTimeoutRemoved ++
  err_if (out_of (24 * 60) (c_IdleTimeoutMinutes c)) IdleTimeoutRange ++
  err_if (out_of 3600 (c_CleanupIntervalSeconds c)) CleanupRange ++
  err_if (negb (isURL (c_PublicURL c))) PublicURL ++
  err_if (negb (isURL (c_AdminURL c))) AdminURL ++
  err_if (negb (empty (c_RedirectURI c)) && negb (isURL (c_RedirectURI c))) RedirectURI ++
  err_if (negb (empty (c_DevProxyUpstream c)) && negb (isURL (c_DevProxyUpstream c))) DevProxyUpstream ++
  err_if (match c_IntrospectionCacheTtlMs c with Some ttl => (ttl <? 0) || (ttl >? 300000) | None => false end) TtlRange ++
  mjoin (map (fun p => err_if (negb (regexp_ok p)) (PatternSyntax p)) (default [] (c_RedirectURIPatterns c))) ++
  err_if ((c_CacheMinSeconds c <? 1) || (c_CacheMaxSeconds c <? 1) || (c_CacheMinSeconds c >? c_CacheMaxSeconds c)) CacheBounds ++
  ca_errors (c_ExtraCaBundlePath c) ++
  mjoin (map (fun h => err_if (ContainsAny h "/:" || empty (TrimSpace h)) (HostForm h)) (c_AllowedHosts c ++ c_BlockedHosts c)) ++
  mjoin (imap (fun i e => err_if (empty (se_Label e)) (SeedLabel i)) (c_SeedAdminEndpoints c)) ++
  mjoin (imap (fun i e => err_if (empty (se_Label e)) (DemoLabel i)) (c_DemoEndpoints c)) ++
  mjoin (map (fun e => err_if (match se_Description e with Some d => strlen d >? 1000 | None => false end) (DescriptionLength (se_Label e)))
           (c_SeedAdminEndpoints c ++ c_DemoEndpoints c)) ++
  mjoin (imap (fun i p => err_if (empty (sp_CredentialID p) || empty (sp_PublicKeyHex p)) (PasskeyFields i)) (c_SeedAdminPasskeys c)) ++
  match c_Vapid c with
  | None => []
  | Some (subject, publicKey, privateKey) => err_if (empty subject) VapidSubject ++ err_if (empty publicKey) VapidPublicKey ++ err_if (empty privateKey) VapidPrivateKey
  end.

(** ** Paths (path/filepath) *)

(** The elements of a path after its "." and ".." are worked off, last first. *)
Definition clean_step (rooted : bool) (stack : list string) (w : string) : list string :=
  if bool_decide (w = EmptyString) || bool_decide (w = "."%string) then stack
  else if bool_decide (w = ".."%string) then
    match stack with
    | [] => if rooted then [] else [w]
    | top :: rest => if bool_decide (top = ".."%string) then w :: stack else rest
    end
  else w :: stack.

Definition IsAbs (path : string) : bool := HasPrefix path "/".

Definition Clean (path : string) : string :=
  let out := Join (rev (fold_left (clean_step (IsAbs path)) (Split path "/"%char) [])) "/" in
  if IsAbs path then ("/" ++ out)%string else or_str out ".".

Definition Join2 (a b : string) : string :=
  if bool_decide (a = EmptyString) then (if bool_decide (b = EmptyString) then EmptyString else Clean b)
  else if bool_decide (b = EmptyString) then Clean a else Clean (a ++ "/" ++ b).

Definition Dir (path : string) : string := Clean (match LastIndexByte_str path "/" with Some i => take_str (S i) path | None => EmptyString end).

Definition Abs (getwd : option string) (path : string) : option string :=
  if IsAbs path then Some (Clean path) else wd ← getwd; Some (Join2 wd path).

(** ** Loading *)

Definition ParseHostKey (s : string) : option HostKeyLine :=
  let s := TrimSpace s in
  if empty s then None
  else if HasPrefix s "SHA256:" then Some (mkHostKeyLine EmptyString [] s)
  else '(type, key, fp) ← ParseAuthorizedKey s; Some (mkHostKeyLine type key fp).

Inductive seed_error := BadAddress (e : addr_error) | BadHostKey.

Definition parseAddress (e : SeedEndpoint) : SeedEndpoint + seed_error :=
  match ParseEndpointAddress (se_Address e) with
  | inr err => inr (BadAddress err)
  | inl parsed =>
      match se_HostKey e with
      | None => inl (mkSeedEndpoint (se_Label e) (se_Address e) (se_AgentForward e) (se_Description e) (se_HostKey e) parsed (se_ParsedHostKey e))
      | Some s =>
          match ParseHostKey s with
          | None => inr BadHostKey
          | Some hk => inl (mkSeedEndpoint (se_Label e) (se_Address e) (se_AgentForward e) (se_Description e) (se_HostKey e) parsed (Some hk))
          end
      end
  end.

Definition AgentForwardEnabled (e : SeedEndpoint) : bool := match se_AgentForward e with None => true | Some b => b end.

(** The endpoints in order, up to the first error. *)
Fixpoint parse_all (i : nat) (l : list SeedEndpoint) : list SeedEndpoint + (nat * seed_error) :=
  match l with
  | [] => inl []
  | e :: l =>
      match parseAddress e with
      | inr err => inr (i, err)
      | inl e => match parse_all (S i) l with inl l => inl (e :: l) | inr err => inr err end
      end
  end.

Inductive load_error := NoWorkingDirectory | Unreadable (path : string) | BadYaml | Invalid (errs : list config_error) | BadSeed (e : nat * seed_error) | BadDemo (e : nat * seed_error).

Definition derive (getwd : option string) (resolved : string) (c : Config) (seeds demos : list SeedEndpoint) : Config :=
  let dir := if IsAbs (c_KeyDirectory c) then c_KeyDirectory c else Join2 (Dir resolved) (c_KeyDirectory c) in
  mkConfig (default dir (Abs getwd dir)) seeds (c_SeedAdminPasskeys c) demos (c_Port c) (c_ExternalURL c) (c_TrustProxy c)
    (c_RpID c) (c_AllowedNetworks c) (c_SelfRegistrationEnabled c) (c_RateLimit c) (c_TrustedWebauthnOrigins c) (c_DebounceMs c) (c_SessionTimeoutMinutes c)
    (c_ProxyEnabled c) (c_IdleTimeoutMinutes c) (c_CleanupIntervalSeconds c) (c_PublicURL c) (c_AdminURL c) (c_ClientID c)
    (or_str (c_RedirectURI c) (TrimRight_char (c_ExternalURL c) "/"%char ++ "/auth/callback")) (c_IntrospectionCacheTtlMs c) (c_AllowedScopes c)
    (c_RedirectURIPatterns c) (c_CimdEnabled c) (c_AllowedHosts c) (c_BlockedHosts c) (c_CacheMinSeconds c) (c_CacheMaxSeconds c) (c_ExtraCaBundlePath c)
    (c_AllowLoopbackDocuments c) (c_DevProxyUpstream c) (c_Vapid c).

Definition Load (unmarshal : string -> option Config) (getwd : option string) (env : string) (names : list string) (configPath : string) : Config + load_error :=
  let configPath := or_str (or_str configPath env) "config.yaml" in
  match Abs getwd configPath with
  | None => inr NoWorkingDirectory
  | Some resolved =>
      match ReadFile resolved with
      | None => inr (Unreadable resolved)
      | Some raw =>
          match unmarshal raw with
          | None => inr BadYaml
          | Some cfg =>
              let cfg := applyDefaults cfg in
              match validate names cfg with
              | (_ :: _) as errs => inr (Invalid errs)
              | [] =>
                  match parse_all 0 (c_SeedAdminEndpoints cfg) with
                  | inr e => inr (BadSeed e)
                  | inl seeds =>
                      match parse_all 0 (c_DemoEndpoints cfg) with
                      | inr e => inr (BadDemo e)
                      | inl demos => inl (derive getwd resolved cfg seeds demos)
                      end
                  end
              end
          end
      end
  end.

End Load.

(** ** What a valid configuration is *)




Section Valid.
Context (regexp_ok : string -> bool) (ReadFile : string -> option string) (pem_ok : string -> bool).

























End Valid.

(** ** Paths *)




Lemma LastIndex_cons x s i c : LastIndexByte_str (String x s) c = Some (S i) -> exists j, LastIndexByte_str s c = Some j.
Proof. cbn. destruct (LastIndexByte_str s c) as [j|]; [by exists j|]. by case_bool_decide. Qed.



(** ** Loading *)







Section Loaded.
Context (regexp_ok : string -> bool) (ReadFile : string -> option string) (pem_ok : string -> bool).
Context (ParseAuthorizedKey : string -> option (string * list byte * string)).
Context (unmarshal : string -> option Config) (getwd : option string) (env : string).
(** os.Getwd returns an absolute path. *)
Context (getwd_abs : forall d, getwd = Some d -> IsAbs d = true).







End Loaded.

(** ** Samples *)

(** The smallest file: what has no default. *)
Definition sample_config : Config :=
  mkConfig "" [] [] [mkSeedEndpoint "demo" "demo@demo.example.org:2222" None None None (mkAddress "" "" 0) None] 0 "http://localhost:3000" TrustNil "localhost" None false
    (mkRateLimits (mkRateLimitRule 0 0) (mkRateLimitRule 0 0) (mkRateLimitRule 0 0) (mkRateLimitRule 0 0)) ["http://localhost:3000"%string] 0 None true
    (S754_zero false) (S754_zero false) "http://localhost:3000" "http://localhost:4445" "" "" None None None None [] [] 0 0 "" false "" None.

Definition sample_load (c : Config) : Config + load_error :=
  Load (fun _ => true) (fun p => if bool_decide (p = "/srv/config.yaml"%string) then Some ""%string else None) (fun _ => true) (fun _ => None) (fun _ => Some c)
    (Some "/srv/") "" rule_names "".


Definition with_idle (v : float64) (c : Config) : Config :=
  mkConfig (c_KeyDirectory c) (c_SeedAdminEndpoints c) (c_SeedAdminPasskeys c) (c_DemoEndpoints c) (c_Port c) (c_ExternalURL c) (c_TrustProxy c)
    (c_RpID c) (c_AllowedNetworks c) (c_SelfRegistrationEnabled c) (c_RateLimit c) (c_TrustedWebauthnOrigins c) (c_DebounceMs c) (c_SessionTimeoutMinutes c)
    (c_ProxyEnabled c) v (c_CleanupIntervalSeconds c) (c_PublicURL c) (c_AdminURL c) (c_ClientID c) (c_RedirectURI c) (c_IntrospectionCacheTtlMs c)
    (c_AllowedScopes c) (c_RedirectURIPatterns c) (c_CimdEnabled c) (c_AllowedHosts c) (c_BlockedHosts c) (c_CacheMinSeconds c) (c_CacheMaxSeconds c)
    (c_ExtraCaBundlePath c) (c_AllowLoopbackDocuments c) (c_DevProxyUpstream c) (c_Vapid c).

(** The check of the idle timeout lets values pass that are no timeout of its
    range: no number at all, and a positive one that is zero as a duration,
    which turns the sweep off. *)
Theorem idle_check_leaks :
  (exists c, sample_load (with_idle S754_nan sample_config) = inl c /\ c_IdleTimeoutMinutes c = S754_nan) /\
  (exists c, sample_load (with_idle (S754_finite false 4503599627370496 (-92)) sample_config) = inl c /\ forall wild, IdleTimeout wild c = 0) /\
  (forall wild c, c_IdleTimeoutMinutes c = float_of_Z 30 -> IdleTimeout wild c = 30 * 60 * second).
Proof.
  split_and!.
  - eexists. by split; [vm_compute|].
  - eexists. split; [by vm_compute|]. intros wild. by vm_compute.
  - intros wild c H. unfold IdleTimeout. rewrite H. by vm_compute.
Qed.
