(* ===== verification/Buffer.v ===== *)
(** * Terminal output buffer (internal/terminal/buffer.go)

    The byte ring behind every session: bytes are appended at the end, the
    oldest ones are dropped past [maxSize], and [baseOffset] counts what was
    dropped, so that an offset names a position of the whole output stream.
    The specification is that stream: [repr hist b] says that the buffer
    holds the last bytes of the history [hist]. *)
From S2P Require Import Prelude.

(** ** Data *)

Definition defaultMaxSize : Z := 1024 * 1024.

Record OutputBuffer := mkBuffer {
  buf : list byte;
  baseOffset : Z;
  maxSize : Z
}.

Record ReadResult := mkRead {
  rr_Data : list byte;
  rr_Offset : Z;
  rr_HasMore : bool
}.

Record FromResult := mkFrom {
  fr_Data : list byte;
  fr_Offset : Z;
  fr_Reset : bool
}.

(** ** Operations *)

Definition NewOutputBuffer (max : Z) : OutputBuffer :=
  mkBuffer [] 0 (if max <=? 0 then defaultMaxSize else max).

Definition Append (b : OutputBuffer) (data : list byte) : OutputBuffer :=
  let l := buf b ++ data in
  if zlen l >? maxSize b then
    let excess := zlen l - maxSize b in
    mkBuffer (drop (Z.to_nat excess) l) (wrap64 (baseOffset b + excess)) (maxSize b)
  else mkBuffer l (baseOffset b) (maxSize b).

(** [Read]; [None] is the run-time panic of the slice expression. *)
Definition Read (b : OutputBuffer) (afterOffset limit : Z) : option ReadResult :=
  let limit := if limit <=? 0 then 4000 else limit in
  let relStart := wrap64 (afterOffset - baseOffset b) in
  let relStart := if relStart <? 0 then 0 else relStart in
  let relStart := if relStart >? zlen (buf b) then zlen (buf b) else relStart in
  let e := wrap64 (relStart + limit) in
  let e := if e >? zlen (buf b) then zlen (buf b) else e in
  data ← slice (buf b) relStart e;
  Some (mkRead data (wrap64 (baseOffset b + relStart + zlen data))
          (wrap64 (relStart + limit) <? zlen (buf b))).

(** The offset past the last byte. *)
Definition CurrentOffset (b : OutputBuffer) : Z :=
  wrap64 (baseOffset b + zlen (buf b)).

(** [ReadFrom]; [None] as the argument is the nil pointer. *)
Definition ReadFrom (b : OutputBuffer) (afterOffset : option Z) : FromResult :=
  let cur := wrap64 (baseOffset b + zlen (buf b)) in
  match afterOffset with
  | None => mkFrom (buf b) cur false
  | Some off =>
      if off =? cur then mkFrom [] cur false
      else if (off >? cur) || (off <? baseOffset b) then mkFrom (buf b) cur true
      else mkFrom (drop (Z.to_nat (off - baseOffset b)) (buf b)) cur false
  end.

(** [bytes.IndexByte]: the first index holding [x], -1 when there is none. *)
Fixpoint IndexByte (l : list byte) (x : byte) : Z :=
  match l with
  | [] => -1
  | y :: l' =>
      if bool_decide (x = y) then 0
      else let i := IndexByte l' x in if i <? 0 then -1 else i + 1
  end.

Definition ESC : byte := x1b.

Definition Tail (b : OutputBuffer) (limit : Z) : list byte :=
  if limit <=? 0 then []
  else if zlen (buf b) <=? limit then buf b
  else
    let s := drop (Z.to_nat (zlen (buf b) - limit)) (buf b) in
    let escIdx := IndexByte s ESC in
    if escIdx <=? 0 then s else drop (Z.to_nat escIdx) s.

Definition Clear (b : OutputBuffer) : OutputBuffer := mkBuffer [] 0 (maxSize b).

(** A client that follows the [Offset] of each answer until [HasMore] is
    false, collecting the data; the fuel bounds the number of calls. *)
Fixpoint readAll (fuel : nat) (b : OutputBuffer) (off limit : Z) : option (list byte) :=
  match fuel with
  | O => None
  | S f =>
      r ← Read b off limit;
      if rr_HasMore r then
        rest ← readAll f b (rr_Offset r) limit;
        Some (rr_Data r ++ rest)
      else Some (rr_Data r)
  end.

(** ** Specification *)

(** The buffer represents the output history [hist]: it holds its last bytes,
    at most [maxSize] of them, and drops nothing it has room for. *)
Record repr (hist : list byte) (b : OutputBuffer) : Prop := {
  repr_max : 0 < maxSize b;
  repr_cap : zlen (buf b) <= maxSize b;
  repr_base : 0 <= baseOffset b;
  repr_len : baseOffset b + zlen (buf b) = zlen hist;
  repr_buf : buf b = drop (Z.to_nat (baseOffset b)) hist;
  repr_full : baseOffset b > 0 -> zlen (buf b) = maxSize b;
  repr_64 : zlen hist < 2 ^ 62
}.

(** The bytes of the history the buffer still holds past an offset. *)
Definition available (hist : list byte) (b : OutputBuffer) (off : Z) : list byte :=
  drop (Z.to_nat (Z.max off (baseOffset b))) hist.

(** ** Lemmas *)

Lemma repr_new max : repr [] (NewOutputBuffer max).
Proof.
  unfold NewOutputBuffer, defaultMaxSize.
  constructor; simpl; try done; split_ifs; lia.
Qed.

Lemma repr_clear hist b : repr hist b -> repr [] (Clear b).
Proof. intros []. constructor; simpl; lia || done. Qed.

Lemma repr_cur hist b : repr hist b -> CurrentOffset b = zlen hist.
Proof.
  intros []. unfold CurrentOffset. rewrite repr_len0.
  apply wrap64_id. unfold in64. lia.
Qed.

Lemma drop_zlen_app {A} (l k : list A) (n : Z) :
  0 <= n <= zlen l -> drop (Z.to_nat n) (l ++ k) = drop (Z.to_nat n) l ++ k.
Proof. intros. apply drop_app_le. lia. Qed.

Lemma repr_append hist b data :
  repr hist b -> zlen (hist ++ data) < 2 ^ 62 -> repr (hist ++ data) (Append b data).
Proof.
  intros [Hmax Hcap Hb Hlen Hbuf Hfull H64] Hnew.
  unfold Append. rewrite length_app in *.
  destruct (_ >? _) eqn:E; bool_to_prop.
  - rewrite (wrap64_id (_ + _)) by (unfold in64; lia).
    constructor; simpl; try rewrite !length_app; try rewrite length_drop, length_app; try lia.
    rewrite Hbuf, <- drop_zlen_app by lia. rewrite drop_drop.
    f_equal. rewrite <- Hbuf. lia.
  - constructor; simpl; rewrite ?length_app; try lia.
    rewrite Hbuf. by rewrite drop_zlen_app by lia.
Qed.

Lemma repr_in64 hist b : repr hist b -> in64 (baseOffset b).
Proof. intros []. unfold in64. lia. Qed.

(** The relative start a read computes, without overflow. *)
Lemma relStart_spec hist b off :
  repr hist b -> - 2 ^ 62 <= off < 2 ^ 63 ->
  let s := wrap64 (off - baseOffset b) in
  let s := if s <? 0 then 0 else s in
  (if s >? zlen (buf b) then zlen (buf b) else s) =
  Z.min (Z.max off (baseOffset b)) (zlen hist) - baseOffset b.
Proof.
  intros [] ? s. subst s. rewrite wrap64_id by (unfold in64; lia).
  split_ifs; lia.
Qed.

Lemma drop_from_repr hist b n :
  repr hist b -> 0 <= n ->
  drop (Z.to_nat n) (buf b) = drop (Z.to_nat (baseOffset b + n)) hist.
Proof.
  intros [] ?. rewrite repr_buf0, drop_drop. f_equal. lia.
Qed.

Lemma available_eq hist b off :
  repr hist b ->
  available hist b off =
  drop (Z.to_nat (Z.min (Z.max off (baseOffset b)) (zlen hist) - baseOffset b)) (buf b).
Proof.
  intros H. destruct (H). rewrite (drop_from_repr hist) by (done || lia).
  unfold available. destruct (decide (Z.max off (baseOffset b) <= zlen hist)).
  - f_equal. lia.
  - rewrite !drop_ge by lia. done.
Qed.

(** What a read returns when its arithmetic does not overflow. *)
Lemma Read_eq hist b off limit :
  repr hist b -> - 2 ^ 62 <= off < 2 ^ 63 -> 0 < limit < 2 ^ 62 ->
  let avail := available hist b off in
  let start := Z.min (Z.max off (baseOffset b)) (zlen hist) in
  Read b off limit =
  Some (mkRead (take (Z.to_nat limit) avail) (start + zlen (take (Z.to_nat limit) avail))
          (limit <? zlen avail)).
Proof.
  intros H Hoff Hlim avail start. subst avail start.
  unfold Read. rewrite (proj2 (Z.leb_gt limit 0)) by lia.
  rewrite (relStart_spec hist) by done. rewrite (available_eq hist) by done.
  destruct H. set (s := Z.min (Z.max off (baseOffset b)) (zlen hist) - baseOffset b).
  assert (Hs : 0 <= s <= zlen (buf b)) by (subst s; lia).
  rewrite (wrap64_id (s + limit)) by (unfold in64; lia).
  assert (Hend : exists e, (if s + limit >? zlen (buf b) then zlen (buf b) else s + limit) = e
    /\ s <= e <= zlen (buf b)
    /\ take (Z.to_nat (e - s)) (drop (Z.to_nat s) (buf b)) =
       take (Z.to_nat limit) (drop (Z.to_nat s) (buf b))).
  { eexists; split; [done|]. split_ifs.
    - split; [lia|]. rewrite !take_ge; rewrite ?length_drop; done || lia.
    - split; [lia|]. f_equal. lia. }
  destruct Hend as (e & -> & He & Htake).
  rewrite slice_Some by lia. simpl. rewrite Htake. do 2 f_equal.
  - rewrite wrap64_id; [subst s; lia|]. unfold in64. clearbody s.
    rewrite length_take, length_drop. lia.
  - clearbody s. apply Bool.eq_iff_eq_true. rewrite !Z.ltb_lt, length_drop. lia.
Qed.

Lemma IndexByte_spec l x :
  (IndexByte l x = -1 /\ x ∉ l) \/
  (0 <= IndexByte l x < zlen l /\ l !! Z.to_nat (IndexByte l x) = Some x).
Proof.
  induction l as [|y l IH]; simpl.
  - left. split; [done|]. set_solver.
  - case_bool_decide as Hxy; subst.
    + right. split; [lia|done].
    + destruct IH as [[-> ?]|[? Hl]].
      * left. split; [done|]. set_solver.
      * right. rewrite (proj2 (Z.ltb_ge _ _)) by lia.
        split; [lia|]. by replace (Z.to_nat (IndexByte l x + 1))
          with (S (Z.to_nat (IndexByte l x))) by lia.
Qed.

(** ** Properties *)

(** Appending implements the stream: whatever a program has written, the
    buffer represents the concatenation of all the chunks (C22). *)
Theorem Append_refines (chunks : list (list byte)) (max : Z)
  (Hsmall : zlen (concat chunks) < 2 ^ 62) :
  repr (concat chunks) (foldl Append (NewOutputBuffer max) chunks).
Proof.
  rewrite <- (rev_involutive chunks) in *. generalize dependent (rev chunks).
  intros l. induction l as [|c l IH]; intros Hs; [apply repr_new|].
  simpl in *. rewrite foldl_app. rewrite concat_app in *. simpl in *.
  rewrite app_nil_r in *. rewrite length_app in Hs.
  apply repr_append; [apply IH; lia|]. rewrite length_app. lia.
Qed.

Definition bytes_abc : list byte := bytes_of_string "abc".
Definition bytes_de : list byte := bytes_of_string "de".

Lemma Append_refines_witness :
  zlen (concat [bytes_abc; bytes_de]) < 2 ^ 62 /\
  repr (concat [bytes_abc; bytes_de]) (foldl Append (NewOutputBuffer 4) [bytes_abc; bytes_de]) /\
  buf (foldl Append (NewOutputBuffer 4) [bytes_abc; bytes_de]) = bytes_of_string "bcde".
Proof.
  split; [vm_compute; reflexivity|]. split; [|reflexivity].
  apply (Append_refines [bytes_abc; bytes_de] 4). vm_compute. reflexivity.
Defined.

(** A read returns exactly the next [limit] bytes of the stream that are still
    held past the offset, the offset after them, and whether more follow. *)
Theorem Read_spec hist b off limit
  (Hrepr : repr hist b) (Hoff : - 2 ^ 62 <= off < 2 ^ 63) (Hlim : 0 < limit < 2 ^ 62) :
  exists r, Read b off limit = Some r /\
    rr_Data r = take (Z.to_nat limit) (available hist b off) /\
    rr_Offset r = Z.min (Z.max off (baseOffset b)) (zlen hist) + zlen (rr_Data r) /\
    (rr_HasMore r = true <-> rr_Offset r < zlen hist).
Proof.
  eexists. split; [apply (Read_eq hist); done|]. simpl.
  split; [done|]. split; [done|].
  rewrite Z.ltb_lt, length_take. unfold available. rewrite length_drop.
  destruct Hrepr. lia.
Qed.

Lemma repr_ab : repr bytes_abc (Append (NewOutputBuffer 2) bytes_abc).
Proof. apply (repr_append [] (NewOutputBuffer 2) bytes_abc); [apply repr_new|done]. Qed.

Lemma Read_spec_witness :
  exists r, Read (Append (NewOutputBuffer 2) bytes_abc) 0 1 = Some r /\
    rr_Data r = take (Z.to_nat 1) (available bytes_abc (Append (NewOutputBuffer 2) bytes_abc) 0) /\
    rr_Offset r = Z.min (Z.max 0 (baseOffset (Append (NewOutputBuffer 2) bytes_abc)))
      (zlen bytes_abc) + zlen (rr_Data r) /\
    (rr_HasMore r = true <-> rr_Offset r < zlen bytes_abc).
Proof. apply (Read_spec bytes_abc _ 0 1); [apply repr_ab|lia|lia]. Defined.

(** A read whose offset plus limit exceeds the 64-bit range panics: the sum
    wraps to a negative slice bound. Only the limit of the request decides it,
    and nothing on the path of the MCP tool bounds it. *)
Theorem Read_overflow_panics hist b off limit
  (Hrepr : repr hist b) (Hoff : baseOffset b < off <= zlen hist)
  (Hlim : 2 ^ 63 - (off - baseOffset b) <= limit < 2 ^ 63) :
  Read b off limit = None.
Proof.
  unfold Read. rewrite (proj2 (Z.leb_gt limit 0)) by (destruct Hrepr; lia).
  rewrite (relStart_spec hist) by (done || destruct Hrepr; lia).
  destruct Hrepr.
  replace (Z.min (Z.max off (baseOffset b)) (zlen hist)) with off by lia.
  rewrite wrap64_over by lia.
  rewrite (slice_None (buf b)); [done|]. split_ifs; lia.
Qed.

Lemma Read_overflow_panics_witness :
  Read (Append (NewOutputBuffer 8) bytes_abc) 1 (2 ^ 63 - 1) = None.
Proof.
  apply (Read_overflow_panics bytes_abc); [|vm_compute; split; congruence|vm_compute; split; congruence].
  apply (repr_append [] (NewOutputBuffer 8) bytes_abc); [apply repr_new|done].
Defined.

(** Following the offsets of successive reads yields everything the buffer
    holds past the first offset, whatever the page size: enough calls always
    reach the end. *)
Theorem readAll_complete hist b off limit fuel
  (Hrepr : repr hist b) (Hoff : - 2 ^ 62 <= off < 2 ^ 63) (Hlim : 0 < limit < 2 ^ 62)
  (Hfuel : (length (buf b) < fuel)%nat) :
  readAll fuel b off limit = Some (available hist b off).
Proof.
  assert (Hav : (length (available hist b off) < fuel)%nat).
  { rewrite (available_eq hist) by done. rewrite length_drop. lia. }
  clear Hfuel. revert off Hoff Hav. induction fuel as [|fuel IH]; intros off Hoff Hav; [lia|].
  simpl. rewrite (Read_eq hist) by done. simpl.
  set (av := available hist b off) in *. destruct (limit <? zlen av) eqn:E; bool_to_prop.
  - assert (Hlen : zlen av = zlen hist - Z.min (Z.max off (baseOffset b)) (zlen hist)).
    { subst av. unfold available. rewrite length_drop. destruct Hrepr. lia. }
    rewrite length_take.
    assert (Hnext : available hist b (Z.min (Z.max off (baseOffset b)) (zlen hist) +
        Z.of_nat (Z.to_nat limit `min` length av)) = drop (Z.to_nat limit) av).
    { assert (Z.to_nat limit `min` length av = Z.to_nat limit)%nat as -> by lia.
      subst av. unfold available at 1 2. rewrite drop_drop. f_equal. destruct Hrepr. lia. }
    rewrite IH, Hnext.
    + simpl. by rewrite take_drop.
    + destruct Hrepr. lia.
    + rewrite Hnext, length_drop. lia.
  - rewrite take_ge by lia. done.
Qed.

Lemma readAll_complete_witness :
  readAll 4 (Append (NewOutputBuffer 8) bytes_abc) 1 1 =
  Some (available bytes_abc (Append (NewOutputBuffer 8) bytes_abc) 1).
Proof.
  apply (readAll_complete bytes_abc); try (simpl; lia).
  apply (repr_append [] (NewOutputBuffer 8) bytes_abc); [apply repr_new|done].
Defined.

(** The catch-up read never invents or loses bytes: its answer ends at the end
    of the stream; without the reset flag it is exactly the stream past the
    caller's offset, and the flag is raised exactly when that offset was
    evicted or lies ahead. *)
Theorem ReadFrom_spec hist b off
  (Hrepr : repr hist b) :
  let r := ReadFrom b (Some off) in
  fr_Offset r = zlen hist /\
  (fr_Reset r = true <-> off < baseOffset b \/ zlen hist < off) /\
  fr_Data r = drop (Z.to_nat (if fr_Reset r then baseOffset b else off)) hist.
Proof.
  unfold ReadFrom. pose proof (repr_cur _ _ Hrepr) as Hcur. unfold CurrentOffset in Hcur.
  rewrite Hcur. destruct Hrepr.
  destruct (off =? zlen hist) eqn:E; bool_to_prop; simpl.
  - split; [done|]. split; [split; [done|lia]|]. rewrite drop_ge by lia. done.
  - split_ifs; simpl; (split; [done|]); (split; [split; [intros; done || lia|intros; done || lia]|]);
      [by rewrite repr_buf0|].
    rewrite (drop_from_repr hist) by (done || lia). f_equal. lia.
Qed.

Lemma ReadFrom_spec_witness :
  let r := ReadFrom (Append (NewOutputBuffer 2) bytes_abc) (Some 0) in
  fr_Offset r = zlen bytes_abc /\
  (fr_Reset r = true <-> 0 < 1 \/ zlen bytes_abc < 0) /\
  fr_Data r = drop (Z.to_nat (if fr_Reset r then 1 else 0)) bytes_abc.
Proof. apply (ReadFrom_spec bytes_abc _ 0 repr_ab). Defined.

(** The tail is a suffix of the stream of at most [limit] bytes; when bytes
    were cut off and the kept part holds an escape character, it starts with
    one. *)
Theorem Tail_spec hist b limit (Hrepr : repr hist b) (Hlim : 0 < limit) :
  (exists n, Tail b limit = drop n hist) /\ zlen (Tail b limit) <= limit /\
  (limit < zlen (buf b) -> ESC ∈ drop (Z.to_nat (zlen (buf b) - limit)) (buf b) ->
   head (Tail b limit) = Some ESC).
Proof.
  unfold Tail. rewrite (proj2 (Z.leb_gt limit 0)) by lia.
  destruct (zlen (buf b) <=? limit) eqn:E; bool_to_prop.
  - split; [|split; [lia|lia]]. eexists. apply Hrepr.
  - set (s := drop _ (buf b)).
    assert (Hs : s = drop (Z.to_nat (baseOffset b + (zlen (buf b) - limit))) hist)
      by (apply drop_from_repr; [done|lia]).
    assert (Hlen : zlen s = limit) by (subst s; rewrite length_drop; lia).
    destruct (IndexByte_spec s ESC) as [[-> Hno]|[Hi Hat]].
    + simpl. split; [by eexists|]. split; [lia|done].
    + destruct (IndexByte s ESC <=? 0) eqn:E0; bool_to_prop.
      * split; [by eexists|]. split; [lia|]. intros _ _.
        replace (Z.to_nat (IndexByte s ESC)) with 0%nat in Hat by lia.
        by rewrite head_lookup.
      * split; [rewrite Hs, drop_drop; by eexists|].
        rewrite length_drop. split; [lia|]. intros _ _.
        by rewrite head_lookup, lookup_drop, Nat.add_0_r.
Qed.

Lemma Tail_spec_witness :
  let b := Append (NewOutputBuffer 8) bytes_abc in
  (exists n, Tail b 2 = drop n bytes_abc) /\ zlen (Tail b 2) <= 2 /\
  (2 < zlen (buf b) -> ESC ∈ drop (Z.to_nat (zlen (buf b) - 2)) (buf b) ->
   head (Tail b 2) = Some ESC).
Proof.
  apply (Tail_spec bytes_abc); [|lia].
  apply (repr_append [] (NewOutputBuffer 8) bytes_abc); [apply repr_new|done].
Defined.
