(* ===== verification/Ephemeral.v ===== *)
(** * The TTL store (internal/ephemeral/store.go)

    The one generic in-memory store: a map whose entries expire, an optional
    capacity with eviction of the oldest insertion, and single-use [Consume].
    Each operation is one critical section of the store's mutex; [now] is the
    value the injected clock returns inside it. The class [TTLStore] states
    what the store promises to its clients (the WebAuthn challenges and
    step-up tokens of Tokens.v), as a finite map from keys to values and
    expiry times; the instance at the end discharges it. *)
From S2P Require Import Prelude.

(** ** Data *)

Record entry (V : Type) := mkEntry { value : V; expiresAt : Z }.
Arguments mkEntry {V} _ _.
Arguments value {V} _.
Arguments expiresAt {V} _.

Record Store (K V : Type) `{Countable K} := mkStore {
  st_m : gmap K (entry V);
  st_order : list K;
  st_ttl : Z;
  st_cap : Z
}.
Arguments mkStore {K V _ _} _ _ _ _.
Arguments st_m {K V _ _} _.
Arguments st_order {K V _ _} _.
Arguments st_ttl {K V _ _} _.
Arguments st_cap {K V _ _} _.

(** What a client may rely on: the store is a finite map from keys to values
    with an expiry time. Insertion may drop other entries (eviction), never
    invent or change one; consumption removes the entry whatever it returns. *)
Class TTLStore (K V S : Type) `{Countable K} := {
  ts_put : S -> Z -> K -> V -> S;
  ts_consume : S -> Z -> K -> option V * S;
  ts_ttl : S -> Z;
  ts_inv : S -> Prop;
  ts_abs : S -> gmap K (V * Z);
  ts_put_self : forall s now k v, ts_inv s ->
    ts_abs (ts_put s now k v) !! k = Some (v, now + ts_ttl s);
  ts_put_other : forall s now k v, ts_inv s ->
    ts_abs (ts_put s now k v) ⊆ <[k := (v, now + ts_ttl s)]> (ts_abs s);
  ts_put_inv : forall s now k v, ts_inv s ->
    ts_inv (ts_put s now k v) /\ ts_ttl (ts_put s now k v) = ts_ttl s;
  ts_consume_result : forall s now k, ts_inv s ->
    fst (ts_consume s now k) =
      match ts_abs s !! k with
      | Some (v, e) => if now <? e then Some v else None
      | None => None
      end;
  ts_consume_abs : forall s now k, ts_inv s ->
    ts_abs (snd (ts_consume s now k)) = delete k (ts_abs s);
  ts_consume_inv : forall s now k, ts_inv s ->
    ts_inv (snd (ts_consume s now k)) /\ ts_ttl (snd (ts_consume s now k)) = ts_ttl s
}.

(** ** Operations *)

Section Operations.
Context {K V : Type} `{Countable K}.

Definition New (ttl capacity : Z) : Store K V := mkStore ∅ [] ttl capacity.

(** [order] without the first occurrence of a key. *)
Fixpoint remove_first (k : K) (l : list K) : list K :=
  match l with
  | [] => []
  | x :: l' => if decide (x = k) then l' else x :: remove_first k l'
  end.

Definition deleteLocked (s : Store K V) (k : K) : Store K V :=
  match st_m s !! k with
  | None => s
  | Some _ => mkStore (delete k (st_m s)) (remove_first k (st_order s)) (st_ttl s) (st_cap s)
  end.

(** [e.expiresAt.After(now)] *)
Definition After (e : entry V) (now : Z) : bool := now <? expiresAt e.

Definition Get (s : Store K V) (now : Z) (k : K) : option V * Store K V :=
  match st_m s !! k with
  | None => (None, s)
  | Some e => if After e now then (Some (value e), s) else (None, deleteLocked s k)
  end.

Definition Consume (s : Store K V) (now : Z) (k : K) : option V * Store K V :=
  match st_m s !! k with
  | None => (None, s)
  | Some e =>
      let s' := deleteLocked s k in
      if After e now then (Some (value e), s') else (None, s')
  end.

Definition Delete (s : Store K V) (k : K) : Store K V := deleteLocked s k.

Definition Len (s : Store K V) : Z := Z.of_nat (size (st_m s)).

(** The loop of [Sweep] over the insertion order: the map without the expired
    entries and the keys that are kept. *)
Fixpoint sweep_loop (now : Z) (ks : list K) (m : gmap K (entry V)) (kept : list K)
  : gmap K (entry V) * list K :=
  match ks with
  | [] => (m, kept)
  | k :: ks' =>
      match m !! k with
      | Some e =>
          if negb (After e now) then sweep_loop now ks' (delete k m) kept
          else sweep_loop now ks' m (kept ++ [k])
      | None => sweep_loop now ks' m kept
      end
  end.

Definition Sweep (s : Store K V) (now : Z) : Store K V :=
  let '(m, kept) := sweep_loop now (st_order s) (st_m s) [] in
  mkStore m kept (st_ttl s) (st_cap s).

(** The loop of [evictOldestLocked]: drop keys from the front until one that
    is still present has been deleted. *)
Fixpoint evict_loop (order : list K) (m : gmap K (entry V)) : list K * gmap K (entry V) :=
  match order with
  | [] => ([], m)
  | k :: order' =>
      match m !! k with
      | Some _ => (order', delete k m)
      | None => evict_loop order' m
      end
  end.

Definition evictOldestLocked (s : Store K V) : Store K V :=
  let '(order, m) := evict_loop (st_order s) (st_m s) in
  mkStore m order (st_ttl s) (st_cap s).

Definition PutTTL (s : Store K V) (now : Z) (k : K) (v : V) (ttl : Z) : Store K V :=
  let ttl := if ttl <=? 0 then st_ttl s else ttl in
  let present := bool_decide (is_Some (st_m s !! k)) in
  let s1 :=
    if negb present && (st_cap s >? 0) && (Z.of_nat (size (st_m s)) >=? st_cap s)
    then evictOldestLocked s else s in
  let still := bool_decide (is_Some (st_m s1 !! k)) in
  let order := if negb still then st_order s1 ++ [k] else st_order s1 in
  mkStore (<[k := mkEntry v (now + ttl)]> (st_m s1)) order (st_ttl s1) (st_cap s1).

Definition Put (s : Store K V) (now : Z) (k : K) (v : V) : Store K V :=
  PutTTL s now k v (st_ttl s).

(** The operations a client may issue, for statements about histories. *)
Inductive op :=
  | OpPut (now : Z) (k : K) (v : V)
  | OpPutTTL (now : Z) (k : K) (v : V) (ttl : Z)
  | OpGet (now : Z) (k : K)
  | OpConsume (now : Z) (k : K)
  | OpDelete (k : K)
  | OpSweep (now : Z).

Definition exec (s : Store K V) (o : op) : Store K V :=
  match o with
  | OpPut now k v => Put s now k v
  | OpPutTTL now k v ttl => PutTTL s now k v ttl
  | OpGet now k => snd (Get s now k)
  | OpConsume now k => snd (Consume s now k)
  | OpDelete k => Delete s k
  | OpSweep now => Sweep s now
  end.

(** The insertion order lists exactly the keys present, each once, and the
    capacity is never exceeded. *)
Definition wf (s : Store K V) : Prop :=
  NoDup (st_order s) /\
  (forall k, k ∈ st_order s <-> is_Some (st_m s !! k)) /\
  (st_cap s > 0 -> Len s <= st_cap s).

Definition puts_key (k : K) (o : op) : Prop :=
  match o with
  | OpPut _ k' _ | OpPutTTL _ k' _ _ => k' = k
  | _ => False
  end.

End Operations.
Arguments op K V : clear implicits.

(** ** Lemmas *)

Section Lemmas.
Context {K V : Type} `{Countable K}.
Implicit Types (s : Store K V) (k : K) (m : gmap K (entry V)).

Lemma remove_first_elem k x (l : list K) :
  NoDup l -> x ∈ remove_first k l <-> x ∈ l /\ x <> k.
Proof.
  induction 1 as [|y l Hy Hl IH]; simpl; [set_solver|].
  destruct (decide (y = k)); subst; set_solver.
Qed.

Lemma remove_first_NoDup k (l : list K) : NoDup l -> NoDup (remove_first k l).
Proof.
  induction 1 as [|y l Hy Hl IH]; simpl; [constructor|].
  destruct (decide (y = k)); [done|]. constructor; [|done].
  rewrite remove_first_elem by done. tauto.
Qed.

(** The size of a map whose keys are listed without repetition. *)
Lemma size_order m (l : list K) :
  NoDup l -> (forall k, k ∈ l <-> is_Some (m !! k)) -> size m = length l.
Proof.
  intros Hnd Hl. rewrite <- size_dom.
  assert (dom m = list_to_set (C := gset K) l) as ->.
  { apply set_eq. intros k. rewrite elem_of_dom, elem_of_list_to_set. by rewrite Hl. }
  by apply size_list_to_set.
Qed.

Lemma wf_size s : wf s -> size (st_m s) = length (st_order s).
Proof. intros (Hnd & Hl & _). by apply size_order. Qed.

Lemma deleteLocked_m s k : st_m (deleteLocked s k) = delete k (st_m s).
Proof.
  unfold deleteLocked. destruct (st_m s !! k) eqn:E; [done|]. by rewrite delete_id.
Qed.

Lemma deleteLocked_wf s k : wf s -> wf (deleteLocked s k).
Proof.
  intros (Hnd & Hl & Hcap). unfold deleteLocked.
  destruct (st_m s !! k) as [e|] eqn:E; [|done].
  split; [|split]; simpl.
  - by apply remove_first_NoDup.
  - intros x. rewrite remove_first_elem by done. rewrite lookup_delete_is_Some, Hl. naive_solver.
  - unfold Len in *; simpl. intros. rewrite map_size_delete, E. simpl. specialize (Hcap H0). lia.
Qed.

Lemma Get_store s now k :
  snd (Get s now k) = s \/ snd (Get s now k) = deleteLocked s k.
Proof. unfold Get. destruct (_ !! _) as [e|]; [destruct (After e now)|]; simpl; auto. Qed.

Lemma Consume_store s now k : snd (Consume s now k) = deleteLocked s k.
Proof.
  unfold Consume, deleteLocked. destruct (_ !! _) as [e|]; [destruct (After e now)|]; done.
Qed.

Lemma Consume_m s now k : st_m (snd (Consume s now k)) = delete k (st_m s).
Proof. by rewrite Consume_store, deleteLocked_m. Qed.

Lemma evict_loop_spec (order : list K) m :
  NoDup order -> (forall k, k ∈ order <-> is_Some (m !! k)) ->
  match order with
  | [] => evict_loop order m = ([], m)
  | k :: l => evict_loop order m = (l, delete k m)
  end.
Proof.
  destruct order as [|k l]; simpl; [done|]. intros Hnd Hl.
  destruct (proj1 (Hl k)) as [e ->]; [set_solver|done].
Qed.

Lemma evict_spec s :
  wf s ->
  evictOldestLocked s =
  match st_order s with
  | [] => s
  | k :: l => mkStore (delete k (st_m s)) l (st_ttl s) (st_cap s)
  end.
Proof.
  intros (Hnd & Hl & _). unfold evictOldestLocked.
  pose proof (evict_loop_spec _ _ Hnd Hl) as He. destruct s as [m o t c]; simpl in *.
  destruct o; rewrite He; done.
Qed.

Lemma evict_wf s : wf s -> wf (evictOldestLocked s).
Proof.
  intros Hwf. rewrite evict_spec by done. destruct Hwf as (Hnd & Hl & Hcap).
  destruct s as [m o t c]; simpl in *. destruct o as [|k l]; [done|].
  inversion Hnd as [|? ? Hk Hnd']; subst. split; [|split]; simpl; [done| |].
  - intros x. rewrite lookup_delete_is_Some, <- Hl. set_solver.
  - unfold Len in *; simpl in *. intros Hc. specialize (Hcap Hc).
    pose proof (map_size_delete k m) as Hs. destruct (m !! k); unfold id in *; lia.
Qed.

(** The store an insertion starts from: the given one, or it after eviction. *)
Definition put_base s k : Store K V :=
  if negb (bool_decide (is_Some (st_m s !! k))) && (st_cap s >? 0)
     && (Z.of_nat (size (st_m s)) >=? st_cap s)
  then evictOldestLocked s else s.

Lemma put_base_wf s k : wf s -> wf (put_base s k).
Proof. intros. unfold put_base. destruct (_ && _); [by apply evict_wf|done]. Qed.

Lemma put_base_ttl s k : st_ttl (put_base s k) = st_ttl s /\ st_cap (put_base s k) = st_cap s.
Proof.
  unfold put_base, evictOldestLocked. destruct (_ && _); [|done].
  by destruct (evict_loop _ _).
Qed.

Lemma put_base_sub s k : wf s -> st_m (put_base s k) ⊆ st_m s.
Proof.
  intros Hwf. unfold put_base. destruct (_ && _); [|done].
  rewrite evict_spec by done. destruct (st_order s); [done|]. apply delete_subseteq.
Qed.

(** After the eviction step there is room for a new key. *)
Lemma put_base_room s k :
  wf s -> st_cap s > 0 -> st_m (put_base s k) !! k = None ->
  Len (put_base s k) < st_cap s.
Proof.
  intros Hwf Hc Hnone. pose proof (wf_size _ Hwf) as Hsz. destruct Hwf as (Hnd & Hl & Hcap).
  unfold put_base, Len in *. destruct (_ && _) eqn:E.
  - rewrite evict_spec by done. destruct (st_order s) as [|x l] eqn:Eo; simpl in *; [lia|].
    specialize (Hcap Hc). pose proof (map_size_delete x (st_m s)) as Hd.
    destruct (proj1 (Hl x)) as [e He]; [set_solver|]. rewrite He in Hd. simpl in Hd. lia.
  - rewrite Hnone in E. rewrite bool_decide_false in E by (intros [? ?]; done).
    simpl in E. destruct (st_cap s >? 0) eqn:E1; simpl in E; bool_to_prop; lia.
Qed.

Lemma PutTTL_eq s now k v ttl :
  PutTTL s now k v ttl =
  mkStore (<[k := mkEntry v (now + (if ttl <=? 0 then st_ttl s else ttl))]> (st_m (put_base s k)))
    (if bool_decide (is_Some (st_m (put_base s k) !! k)) then st_order (put_base s k)
     else st_order (put_base s k) ++ [k])
    (st_ttl s) (st_cap s).
Proof.
  unfold PutTTL. fold (put_base s k). destruct (put_base_ttl s k) as [-> ->].
  by destruct (bool_decide _).
Qed.

Lemma PutTTL_wf s now k v ttl : wf s -> wf (PutTTL s now k v ttl).
Proof.
  intros Hwf. rewrite PutTTL_eq.
  pose proof (put_base_wf s k Hwf) as (Hnd & Hl & Hcap).
  pose proof (put_base_room s k Hwf) as Hroom.
  destruct (put_base_ttl s k) as [_ Hc]. rewrite Hc in *. unfold Len in *.
  case_bool_decide as Hin; split; [|split| |split]; simpl.
  - done.
  - intros x. rewrite lookup_insert_is_Some', Hl. naive_solver.
  - unfold Len in *; simpl. intros. rewrite map_size_insert_Some by done. by apply Hcap.
  - apply NoDup_app. split; [done|]. split; [|apply NoDup_singleton].
    intros x Hx ->%list_elem_of_singleton. by apply Hin, Hl.
  - intros x. rewrite lookup_insert_is_Some', elem_of_app, list_elem_of_singleton, Hl. naive_solver.
  - unfold Len in *; simpl. intros Hpos. rewrite map_size_insert_None by (by apply eq_None_not_Some).
    specialize (Hroom Hpos). rewrite eq_None_not_Some in Hroom. specialize (Hroom Hin). lia.
Qed.

(** The sweep over a duplicate-free order that lists the map's keys keeps the
    live entries, and lists exactly their keys. *)
Lemma sweep_loop_m now (ks : list K) m kept k :
  NoDup ks ->
  fst (sweep_loop now ks m kept) !! k =
  match m !! k with
  | Some e => if bool_decide (k ∈ ks) && negb (After e now) then None else Some e
  | None => None
  end.
Proof.
  revert m kept. induction ks as [|x ks IH]; intros m kept Hnd; simpl.
  - by destruct (m !! k).
  - inversion Hnd as [|? ? Hx Hnd']; subst.
    destruct (decide (x = k)) as [->|Hne].
    + destruct (m !! k) as [e|] eqn:E; [destruct (negb (After e now)) eqn:Ee|];
        rewrite IH by done; rewrite ?lookup_delete_eq, ?E; [| |done].
      * by rewrite bool_decide_true by (by left).
      * by rewrite (bool_decide_false (k ∈ ks)), !andb_false_r.
    + assert (bool_decide (k ∈ x :: ks) = bool_decide (k ∈ ks)) as ->
        by (apply bool_decide_ext; set_solver).
      destruct (m !! x) as [e|]; [destruct (negb (After e now))|]; rewrite IH by done;
        rewrite ?lookup_delete_ne by done; done.
Qed.

Lemma sweep_loop_kept now (ks : list K) m kept :
  NoDup (kept ++ ks) ->
  NoDup (snd (sweep_loop now ks m kept)) /\
  forall k, k ∈ snd (sweep_loop now ks m kept) <->
    k ∈ kept \/ (k ∈ ks /\ exists e, m !! k = Some e /\ After e now = true).
Proof.
  revert m kept. induction ks as [|x ks IH]; intros m kept Hnd; simpl.
  - rewrite app_nil_r in Hnd. split; [done|]. set_solver.
  - assert (Hx : x ∉ ks) by (apply NoDup_app in Hnd as (_ & _ & Hnd); by inversion Hnd).
    assert (Hskip : NoDup (kept ++ ks)).
    { apply NoDup_app in Hnd as (? & Hd & Hnd). apply NoDup_app.
      split; [done|]. split; [set_solver|]. by inversion Hnd. }
    destruct (m !! x) as [e|] eqn:E; [destruct (After e now) eqn:Ee; simpl|].
    + destruct (IH m (kept ++ [x])) as [? Hk]; [by rewrite <- app_assoc|].
      split; [done|]. intros k. rewrite Hk, elem_of_app. set_solver.
    + destruct (IH (delete x m) kept Hskip) as [? Hk]. split; [done|].
      intros k. rewrite Hk, elem_of_cons. destruct (decide (k = x)) as [->|].
      * split; [intros [?|[? _]]; [by left|done]|].
        intros [?|[_ (e' & ? & ?)]]; [by left|congruence].
      * rewrite lookup_delete_ne by done. naive_solver.
    + destruct (IH m kept Hskip) as [? Hk]. split; [done|].
      intros k. rewrite Hk, elem_of_cons. naive_solver.
Qed.

Lemma Sweep_m s now k :
  wf s -> st_m (Sweep s now) !! k =
    e ← st_m s !! k; if After e now then Some e else None.
Proof.
  intros (Hnd & Hl & _). unfold Sweep.
  pose proof (sweep_loop_m now (st_order s) (st_m s) [] k Hnd) as Hm.
  destruct (sweep_loop _ _ _ _) as [m' kept]; simpl in *. rewrite Hm.
  destruct (st_m s !! k) as [e|] eqn:E; [|done]. simpl.
  rewrite bool_decide_true by (apply Hl; by eexists). by destruct (After e now).
Qed.

Lemma Sweep_order s now :
  wf s -> NoDup (st_order (Sweep s now)) /\
  forall k, k ∈ st_order (Sweep s now) <-> exists e, st_m s !! k = Some e /\ After e now = true.
Proof.
  intros (Hnd & Hl & _). unfold Sweep.
  destruct (sweep_loop_kept now (st_order s) (st_m s) []) as [Hn Hk]; [done|].
  destruct (sweep_loop _ _ _ _) as [m' kept]; simpl in *. split; [done|].
  intros k. rewrite Hk. split; [set_solver|]. intros (e & ? & ?). right.
  split; [apply Hl; by eexists|by eexists].
Qed.

Lemma Sweep_params s now : st_cap (Sweep s now) = st_cap s /\ st_ttl (Sweep s now) = st_ttl s.
Proof. unfold Sweep. by destruct (sweep_loop _ _ _ _). Qed.

Lemma Sweep_wf s now : wf s -> wf (Sweep s now).
Proof.
  intros Hwf. destruct (Sweep_order s now Hwf) as [Hnd Ho].
  assert (Hiff : forall k, k ∈ st_order (Sweep s now) <-> is_Some (st_m (Sweep s now) !! k)).
  { intros k. rewrite Ho, Sweep_m by done. split.
    - intros (e & -> & Ha). simpl. rewrite Ha. by eexists.
    - destruct (st_m s !! k) as [e|]; simpl; [|intros [? ?]; done].
      destruct (After e now) eqn:Ea; [eauto|intros [? ?]; done]. }
  split; [done|]. split; [done|]. rewrite (proj1 (Sweep_params s now)). intros Hc.
  etrans; [|by apply Hwf]. unfold Len. apply Nat2Z.inj_le, map_subseteq_size.
  apply map_subseteq_spec. intros k e. rewrite Sweep_m by done.
  destruct (st_m s !! k) as [e'|]; simpl; [|done]. by destruct (After e' now).
Qed.

Lemma exec_wf s o : wf s -> wf (exec s o).
Proof.
  intros Hwf. destruct o; simpl; unfold Put.
  - by apply PutTTL_wf.
  - by apply PutTTL_wf.
  - destruct (Get_store s now k) as [-> | ->]; [done|by apply deleteLocked_wf].
  - rewrite Consume_store. by apply deleteLocked_wf.
  - by apply deleteLocked_wf.
  - by apply Sweep_wf.
Qed.

Lemma New_wf ttl cap : wf (New (K := K) (V := V) ttl cap).
Proof.
  split; [constructor|]. split; [|unfold Len; simpl; rewrite map_size_empty; lia].
  intros k. simpl. rewrite lookup_empty, is_Some_alt. set_solver.
Qed.

Lemma exec_all_wf (ops : list (op K V)) s : wf s -> wf (foldl exec s ops).
Proof. revert s. induction ops; simpl; [done|]. intros. by apply IHops, exec_wf. Qed.

(** No operation but an insertion of that very key can make a key appear. *)
Lemma exec_absent s (o : op K V) k :
  wf s -> ~ puts_key k o -> st_m s !! k = None -> st_m (exec s o) !! k = None.
Proof.
  intros Hwf Hno Hnone.
  assert (Hsub : forall s', st_m s' ⊆ st_m s -> st_m s' !! k = None).
  { intros s' Hs. by apply (lookup_weaken_None _ _ _ Hnone). }
  destruct o; cbn [exec puts_key] in *; unfold Put.
  1,2: rewrite PutTTL_eq; simpl; rewrite lookup_insert_ne by done; by apply Hsub, put_base_sub.
  - destruct (Get_store s now k0) as [-> | ->]; [done|].
    apply Hsub. rewrite deleteLocked_m. apply delete_subseteq.
  - apply Hsub. rewrite Consume_m. apply delete_subseteq.
  - apply Hsub. rewrite deleteLocked_m. apply delete_subseteq.
  - rewrite Sweep_m by done. by rewrite Hnone.
Qed.

Lemma exec_all_absent (ops : list (op K V)) s k :
  wf s -> Forall (fun o => ~ puts_key k o) ops -> st_m s !! k = None ->
  st_m (foldl exec s ops) !! k = None.
Proof.
  intros Hwf Hall. revert s Hwf. induction Hall; simpl; [done|].
  intros. apply IHHall; [by apply exec_wf|by apply exec_absent].
Qed.

(** The abstract view of the interface: values and expiry times. *)
Definition abs s : gmap K (V * Z) := (fun e => (value e, expiresAt e)) <$> st_m s.

End Lemmas.

(** The interface is discharged by the store itself. *)
#[export] Program Instance Store_TTLStore {K V} `{Countable K} : TTLStore K V (Store K V) := {|
  ts_put := Put;
  ts_consume := Consume;
  ts_ttl := st_ttl;
  ts_inv := wf;
  ts_abs := abs
|}.
Next Obligation.
  intros. unfold abs, Put. rewrite lookup_fmap, PutTTL_eq. simpl.
  rewrite lookup_insert_eq. simpl. by destruct (_ <=? 0).
Qed.
Next Obligation.
  intros. unfold abs, Put. rewrite PutTTL_eq. simpl. rewrite fmap_insert. simpl.
  replace (if _ <=? 0 then _ else _) with (st_ttl s) by (by destruct (_ <=? 0)).
  apply insert_mono, map_fmap_mono. by apply put_base_sub.
Qed.
Next Obligation.
  intros. split; [by apply PutTTL_wf|]. unfold Put. by rewrite PutTTL_eq.
Qed.
Next Obligation.
  intros. unfold abs, Consume. rewrite lookup_fmap.
  destruct (st_m s !! k) as [e|]; simpl; [|done]. unfold After. by destruct (now <? expiresAt e).
Qed.
Next Obligation. intros. unfold abs. by rewrite Consume_m, fmap_delete. Qed.
Next Obligation.
  intros. rewrite Consume_store. split; [by apply deleteLocked_wf|].
  unfold deleteLocked. by destruct (_ !! _).
Qed.

(** ** Properties *)

(** In every history of operations the insertion order lists exactly the keys
    present, each once, and the number of entries stays within the capacity,
    so the memory of the store is bounded. *)
Theorem Store_bounded {K V} `{Countable K} (ttl cap : Z) (ops : list (op K V)) :
  let s := foldl exec (New ttl cap) ops in
  wf s /\ (cap > 0 -> Len s <= cap).
Proof.
  assert (Hwf : wf (foldl exec (New ttl cap) ops)) by (apply exec_all_wf, New_wf).
  split; [done|]. intros Hc. destruct Hwf as (_ & _ & Hcap).
  assert (Hk : forall s, st_cap (foldl exec s ops) = st_cap s).
  { clear. induction ops as [|o ops IH]; [done|]. intros s. simpl. rewrite IH.
    destruct o; cbn [exec]; unfold Put, Delete.
    1,2: by rewrite PutTTL_eq.
    - destruct (Get_store s now k) as [-> | ->]; [done|]. unfold deleteLocked. by destruct (_ !! _).
    - rewrite Consume_store. unfold deleteLocked. by destruct (_ !! _).
    - unfold deleteLocked. by destruct (_ !! _).
    - apply Sweep_params. }
  rewrite Hk in Hcap. by apply Hcap.
Qed.

(** Consuming a key makes it single-use: whatever happens afterwards, until
    that very key is inserted again no read and no consumption returns a
    value. *)
Theorem Consume_single_use {K V} `{Countable K} (s : Store K V) (k : K) (t t' : Z)
  (ops : list (op K V))
  (Hwf : wf s) (Hno : Forall (fun o => ~ puts_key k o) ops) :
  let s' := foldl exec (snd (Consume s t k)) ops in
  fst (Consume s' t' k) = None /\ fst (Get s' t' k) = None.
Proof.
  assert (Hwf' : wf (snd (Consume s t k))) by (rewrite Consume_store; by apply deleteLocked_wf).
  assert (Habs : st_m (snd (Consume s t k)) !! k = None)
    by (rewrite Consume_m; apply lookup_delete_eq).
  pose proof (exec_all_absent ops _ k Hwf' Hno Habs) as Hm.
  intros s'. fold s' in Hm. clearbody s'. unfold Consume, Get. by rewrite Hm.
Qed.

Lemma Consume_single_use_witness :
  let s := Put (New 10 2) 0 1%N 5%N in
  fst (Consume s 3 1%N) = Some 5%N /\
  (let s' := foldl exec (snd (Consume s 3 1%N)) [OpPut 4 2%N 7%N; OpSweep 5] in
   fst (Consume s' 6 1%N) = None /\ fst (Get s' 6 1%N) = None).
Proof.
  split; [vm_compute; reflexivity|].
  apply (Consume_single_use (Put (New 10 2) 0 1%N 5%N) 1%N 3 6).
  - apply PutTTL_wf, New_wf.
  - repeat constructor; simpl; congruence.
Defined.

(** Inserting a new key into a full store drops exactly the oldest insertion:
    every other entry is kept as it is, the new one is stored with its own
    lifetime and becomes the youngest. *)
Theorem PutTTL_evicts_oldest {K V} `{Countable K} (s : Store K V) (now ttl : Z) (k : K) (v : V)
  (oldest : K) (rest : list K)
  (Hwf : wf s) (Hfull : 0 < st_cap s <= Len s) (Hord : st_order s = oldest :: rest)
  (Hnew : st_m s !! k = None) (Httl : 0 < ttl) :
  let s' := PutTTL s now k v ttl in
  st_m s' = <[k := mkEntry v (now + ttl)]> (delete oldest (st_m s)) /\
  st_order s' = rest ++ [k].
Proof.
  assert (Hbase : put_base s k = mkStore (delete oldest (st_m s)) rest (st_ttl s) (st_cap s)).
  { unfold put_base. rewrite bool_decide_false by (rewrite Hnew; intros [? ?]; done).
    unfold Len in Hfull. rewrite Z.gtb_ltb, (proj2 (Z.ltb_lt _ _)) by lia.
    rewrite Z.geb_leb, (proj2 (Z.leb_le _ _)) by lia. simpl.
    by rewrite evict_spec, Hord. }
  assert (Hk : ~ is_Some (delete oldest (st_m s) !! k)).
  { rewrite lookup_delete_is_Some, Hnew. intros [_ [? ?]]. done. }
  cbv zeta. rewrite PutTTL_eq, Hbase. simpl. rewrite bool_decide_false by done.
  by rewrite (proj2 (Z.leb_gt ttl 0)) by lia.
Qed.

Lemma PutTTL_evicts_oldest_witness :
  let s := Put (Put (New 10 2) 0 1%N 5%N) 1 2%N 6%N in
  let s' := PutTTL s 2 3%N 7%N 4 in
  st_m s' = <[3%N := mkEntry 7%N 6]> (delete 1%N (st_m s)) /\ st_order s' = [2%N] ++ [3%N].
Proof.
  apply (PutTTL_evicts_oldest (Put (Put (New 10 2) 0 1%N 5%N) 1 2%N 6%N) 2 4 3%N 7%N 1%N [2%N]).
  - by apply PutTTL_wf, PutTTL_wf, New_wf.
  - vm_compute. split; [reflexivity|congruence].
  - reflexivity.
  - reflexivity.
  - lia.
Defined.
