(* ===== verification/Gate.v ===== *)
(** * The bearer gate (internal/auth/gate.go, principal.go, internal/hydra/resolver.go)

    Every request passes the gate: some paths are exempt, some need no token,
    the others need an access token that carries the path's scope. Tokens are
    resolved by introspection at the authorization server, through a cache of
    positive results. The answers of the authorization server are inputs. *)
From S2P Require Import Prelude GoStrings Ephemeral.
From Stdlib Require Import Ascii.

(** ** Data *)

Record Principal := mkPrincipal { AccountID : string; ClientID : string; Scopes : list string }.

#[export] Instance Principal_eq_dec : EqDecision Principal.
Proof. solve_decision. Defined.

Definition HasScope (p : Principal) (s : string) : bool := existsb (fun sc => bool_decide (sc = s)) (Scopes p).

Definition UIScope : string := "ui".
Definition McpScope : string := "mcp".
Definition AgentScope : string := "agent".
Definition WSBearerSubprotocol : string := "shellwatch.bearer".
Definition WellKnownProtectedResource : string := "/.well-known/oauth-protected-resource".

Definition BearerPaths (scope : string) : string :=
  if bool_decide (scope = McpScope) then "/mcp"
  else if bool_decide (scope = AgentScope) then "/agent-proxy" else "".

Definition ResourceMetadataPath (scope : string) : string :=
  (WellKnownProtectedResource ++ BearerPaths scope)%string.

Definition exemptExact : list string :=
  ["/health"; "/api/version"; "/config.js"; "/manifest.json"; "/api/auth/register";
   "/api/auth/register/options"; "/api/auth/passkey-status"]%string.

Definition exemptPrefixes : list string :=
  ["/api/hydra/"; "/api/passkey-invite/"; "/passkey-invite/"; "/.well-known/"; "/_app/"]%string.

(** What the gate reads of a request: an absent header is the empty string. *)
Record request := mkRequest { Path : string; Authorization : string; SecWebsocketProtocol : string }.

(** GateParams without the resolver; [TouchLastUsed] says whether the callback
    is set. *)
Record GateParams := mkParams { ExternalURL : string; AgentProxyEnabled : bool; TouchLastUsed : bool }.

(** ** The gate *)

Definition isExempt (path : string) : bool :=
  existsb (fun p => bool_decide (p = path)) exemptExact || existsb (fun p => HasPrefix path p) exemptPrefixes.

Definition requiredScope (path : string) (agentProxyEnabled : bool) : string :=
  if bool_decide (path = "/mcp"%string) || HasPrefix path "/mcp/" then McpScope
  else if agentProxyEnabled && (bool_decide (path = "/agent-proxy"%string) || HasPrefix path "/agent-proxy/")
  then AgentScope
  else if bool_decide (path = "/ws"%string) then UIScope
  else if HasPrefix path "/api/" then UIScope
  else "".

(** The token offered as a WebSocket subprotocol. *)
Definition subprotocol_token (proto : string) : string :=
  if bool_decide (proto = EmptyString) then ""
  else
    match map TrimSpace (Split proto ",") with
    | sentinel :: token :: _ =>
        if bool_decide (sentinel = WSBearerSubprotocol) && negb (bool_decide (token = EmptyString)) then token else ""
    | _ => ""
    end.

Definition extractToken (r : request) (path : string) : string :=
  if HasPrefix (Authorization r) "Bearer " then drop_str (String.length "Bearer ") (Authorization r)
  else if bool_decide (path = "/ws"%string) then subprotocol_token (SecWebsocketProtocol r)
  else "".

(** The kinds of refusal, send401's last argument. *)
Inductive refusal := Missing | Invalid | Scope.

#[export] Instance refusal_eq_dec : EqDecision refusal.
Proof. solve_decision. Defined.

Inductive outcome :=
  | Next (principal : option Principal) (touched : option string)
  | Denied (status : Z) (www_authenticate : string) (message : string).

Definition dquote : string := String (ascii_of_N 34) EmptyString.
Definition quoted (name value : string) : string := (name ++ "=" ++ dquote ++ value ++ dquote)%string.

Definition challenge_parts (p : GateParams) (scope : string) (kind : refusal) : list string :=
  [("Bearer " ++ quoted "realm" "shellwatch")%string] ++
  (if bool_decide (scope = McpScope) || bool_decide (scope = AgentScope)
   then [quoted "resource_metadata" (TrimRight_char (ExternalURL p) "/" ++ ResourceMetadataPath scope);
         quoted "scope" scope]
   else []) ++
  (if bool_decide (kind = Invalid) then [quoted "error" "invalid_token"] else []) ++
  (if bool_decide (kind = Scope) then [quoted "error" "insufficient_scope"] else []).

Definition send401 (p : GateParams) (scope message : string) (kind : refusal) : outcome :=
  Denied (if bool_decide (kind = Scope) then 403 else 401) (Join (challenge_parts p scope kind) ", ") message.

Definition Gate (p : GateParams) (resolve : string -> option Principal) (r : request) : outcome :=
  let path := Path r in
  if isExempt path then Next None None
  else
    let scope := requiredScope path (AgentProxyEnabled p) in
    if bool_decide (scope = EmptyString) then Next None None
    else
      let token := extractToken r path in
      if bool_decide (token = EmptyString) then send401 p scope "Access token required" Missing
      else
        match resolve token with
        | None => send401 p scope "Invalid or expired access token" Invalid
        | Some principal =>
            if negb (HasScope principal scope)
            then send401 p scope ("Token lacks '" ++ scope ++ "' scope") Scope
            else Next (Some principal) (if TouchLastUsed p then Some (AccountID principal) else None)
        end.

(** ** The caching resolver *)

Definition maxCacheEntries : Z := 2048.

Record introspection := mkIntrospection {
  Active : bool; Sub : string; i_ClientID : string; i_Scope : string; TokenUse : string }.

(** [None] when caching is disabled. *)
Abbreviation cache := (option (Store string Principal)).

Definition new_cache (cacheTTL : Z) : cache := if cacheTTL >? 0 then Some (New cacheTTL maxCacheEntries) else None.

(** The principal an introspection result authorizes; [None] is an error of the
    call. *)
Definition principal_of (ins : option introspection) : option Principal :=
  match ins with
  | None => None
  | Some i =>
      if negb (Active i) || bool_decide (Sub i = EmptyString) || negb (bool_decide (TokenUse i = "access_token"%string))
      then None
      else Some (mkPrincipal (Sub i) (i_ClientID i) (Fields (i_Scope i)))
  end.

(** The resolver in its two steps: the look-up, then, when it misses and the
    authorization server has answered, the rest. Other requests run between
    the two. *)
Definition lookup_step (c : cache) (now : Z) (token : string) : option Principal * cache :=
  match c with
  | None => (None, None)
  | Some s => let '(p, s) := Get s now token in (p, Some s)
  end.

Definition answer_step (c : cache) (now : Z) (token : string) (ins : option introspection)
  : option Principal * cache :=
  match principal_of ins with
  | None => (None, c)
  | Some p => (Some p, match c with None => None | Some s => Some (Put s now token p) end)
  end.

(** What the other requests do to the cache. *)
Inductive event :=
  | Looked (now : Z) (token : string)
  | Answered (now : Z) (token : string) (ins : option introspection).

Definition event_step (c : cache) (e : event) : cache :=
  match e with
  | Looked now token => snd (lookup_step c now token)
  | Answered now token ins => snd (answer_step c now token ins)
  end.

(** One call of the resolver: it looks up at [now]; on a miss [others] happen
    before the answer arrives at [later]. *)
Record schedule := mkSchedule { now : Z; others : list event; later : Z; server : string -> option introspection }.

Definition resolve (c : cache) (t : schedule) (token : string) : option Principal :=
  match lookup_step c (now t) token with
  | (Some p, _) => Some p
  | (None, c) => fst (answer_step (foldl event_step c (others t)) (later t) token (server t token))
  end.

Example gate_ex1 :
  Gate (mkParams "https://sw.example/" true true)
    (resolve (new_cache 30) (mkSchedule 0 [] 1 (fun _ => Some (mkIntrospection true "acc" "cli" "mcp  ui" "access_token"))))
    (mkRequest "/mcp" "Bearer tok" "") = Next (Some (mkPrincipal "acc" "cli" ["mcp"; "ui"]%string)) (Some "acc"%string).
Proof. vm_compute. reflexivity. Qed.
Example gate_ex2 :
  Gate (mkParams "https://sw.example/" true true)
    (resolve (new_cache 30) (mkSchedule 0 [] 1 (fun _ => Some (mkIntrospection true "acc" "cli" "ui" "refresh_token"))))
    (mkRequest "/ws" "" "shellwatch.bearer, tok") =
  Denied 401 ("Bearer " ++ quoted "realm" "shellwatch" ++ ", " ++ quoted "error" "invalid_token")
    "Invalid or expired access token".
Proof. vm_compute. reflexivity. Qed.

(** ** Lemmas *)

(** Each cached principal is the result of an introspection of that token. *)
Definition backed (ttl : Z) (evs : list event) (c : cache) : Prop :=
  match c with
  | None => True
  | Some s =>
      wf s /\ st_ttl s = ttl /\ 0 < ttl /\
      forall tok e, st_m s !! tok = Some e ->
        exists t0 ins, Answered t0 tok ins ∈ evs /\ principal_of ins = Some (value e) /\ expiresAt e = t0 + ttl
  end.

Lemma new_cache_backed ttl : backed ttl [] (new_cache ttl).
Proof.
  unfold new_cache. destruct (ttl >? 0) eqn:E; [|done]. bool_to_prop. bool_to_prop.
  split; [apply New_wf|]. split; [done|]. split; [lia|]. intros tok e He. simpl in He. by rewrite lookup_empty in He.
Qed.

Lemma Get_wf {K V} `{Countable K} (s : Store K V) now k : wf s -> wf (snd (Get s now k)).
Proof. intros Hwf. destruct (Get_store s now k) as [-> | ->]; [done|by apply deleteLocked_wf]. Qed.

Lemma Get_ttl {K V} `{Countable K} (s : Store K V) now k : st_ttl (snd (Get s now k)) = st_ttl s.
Proof.
  destruct (Get_store s now k) as [-> | ->]; [done|]. unfold deleteLocked. by destruct (_ !! _).
Qed.

Lemma Get_sub {K V} `{Countable K} (s : Store K V) now k : st_m (snd (Get s now k)) ⊆ st_m s.
Proof.
  destruct (Get_store s now k) as [-> | ->]; [done|]. rewrite deleteLocked_m. apply delete_subseteq.
Qed.

Lemma event_backed ttl evs c e : backed ttl evs c -> backed ttl (evs ++ [e]) (event_step c e).
Proof.
  destruct c as [s|]; [|destruct e as [t tok|t tok ins]; simpl; [done|unfold answer_step; by destruct (principal_of ins)]].
  intros (Hwf & Httl & Hpos & Hb).
  assert (Hold : forall tok x, st_m s !! tok = Some x -> exists t0 ins, Answered t0 tok ins ∈ evs ++ [e] /\
    principal_of ins = Some (value x) /\ expiresAt x = t0 + ttl).
  { intros tok x Hx. destruct (Hb tok x Hx) as (t0 & ins & Hin & Hp). exists t0, ins. split; [set_solver|done]. }
  destruct e as [t tok|t tok ins]; cbn [event_step].
  - simpl. destruct (Get s t tok) as [o s'] eqn:E. simpl.
    assert (s' = snd (Get s t tok)) as -> by by rewrite E.
    split; [by apply Get_wf|]. rewrite Get_ttl. split; [done|]. split; [done|].
    intros tok' x Hx. apply Hold. by eapply lookup_weaken, Get_sub.
  - unfold answer_step. destruct (principal_of ins) as [p|] eqn:Hp; [|done].
    cbn [snd]. split; [by apply PutTTL_wf|]. unfold Put. rewrite PutTTL_eq. simpl. split; [done|]. split; [done|].
    intros tok' x Hx. destruct (decide (tok' = tok)) as [->|Hne].
    + rewrite lookup_insert_eq in Hx. simplify_eq/=. exists t, ins. split; [set_solver|]. split; [done|].
      by destruct (st_ttl s <=? 0).
    + rewrite lookup_insert_ne in Hx by done. apply Hold. by eapply lookup_weaken, put_base_sub.
Qed.

Lemma events_backed ttl evs c evs' : backed ttl evs c -> backed ttl (evs ++ evs') (foldl event_step c evs').
Proof.
  revert evs c. induction evs' as [|e evs' IH]; intros evs c Hb; simpl; [by rewrite app_nil_r|].
  replace (evs ++ e :: evs') with ((evs ++ [e]) ++ evs') by by rewrite <- app_assoc.
  by apply IH, event_backed.
Qed.

(** A hit is an entry that has not expired. *)
Lemma lookup_hit c t tok p c' :
  lookup_step c t tok = (Some p, c') ->
  exists s e, c = Some s /\ st_m s !! tok = Some e /\ value e = p /\ t < expiresAt e.
Proof.
  destruct c as [s|]; [|done]. unfold lookup_step, Get, After.
  destruct (st_m s !! tok) as [e|] eqn:E; [|by intros [=]].
  destruct (t <? expiresAt e) eqn:E2; intros [= <- <-]. bool_to_prop. eauto 6.
Qed.

Lemma principal_of_Some ins p :
  principal_of ins = Some p ->
  exists i, ins = Some i /\ Active i = true /\ Sub i = AccountID p /\ Sub i <> EmptyString /\
    TokenUse i = "access_token"%string /\ ClientID p = i_ClientID i /\ Scopes p = Fields (i_Scope i).
Proof.
  destruct ins as [i|]; [|done]. simpl.
  destruct (Active i) eqn:?; [|done]. simpl. case_bool_decide; [done|]. simpl. case_bool_decide; [|done].
  intros [= <-]. by exists i.
Qed.

Lemma HasScope_elem p s : HasScope p s = true <-> s ∈ Scopes p.
Proof.
  unfold HasScope. rewrite existsb_exists. setoid_rewrite bool_decide_eq_true.
  split; [intros (x & Hx & ->)|intros Hx; exists s; split; [|done]]; by apply list_elem_of_In.
Qed.

Lemma Gate_Next p res r pr touched :
  Gate p res r = Next (Some pr) touched ->
  isExempt (Path r) = false /\ requiredScope (Path r) (AgentProxyEnabled p) <> EmptyString /\
  requiredScope (Path r) (AgentProxyEnabled p) ∈ Scopes pr /\
  res (extractToken r (Path r)) = Some pr /\ extractToken r (Path r) <> EmptyString /\
  touched = (if TouchLastUsed p then Some (AccountID pr) else None).
Proof.
  unfold Gate. destruct (isExempt _); [done|]. case_bool_decide; [done|]. case_bool_decide; [done|].
  destruct (res _) as [pr'|]; [|done]. destruct (HasScope _ _) eqn:E; [|done]. simpl. intros [= -> <-].
  apply HasScope_elem in E. done.
Qed.

(** ** Properties *)

(** Whatever the cache went through, and however other requests
    interleave, a request that passes the gate of a protected path with a
    principal presented a token that the authorization server declared an
    active access token of that account, client and scopes, the path's scope
    among them: just now, or less than the cache's lifetime before the
    look-up. *)
Theorem protected_request_vouched p ttl evs t r pr touched :
  Gate p (resolve (foldl event_step (new_cache ttl) evs) t) r = Next (Some pr) touched ->
  let token := extractToken r (Path r) in
  exists i, token <> EmptyString /\
    Active i = true /\ TokenUse i = "access_token"%string /\
    Sub i = AccountID pr /\ Sub i <> EmptyString /\ i_ClientID i = ClientID pr /\
    requiredScope (Path r) (AgentProxyEnabled p) ∈ Fields (i_Scope i) /\
    (server t token = Some i \/ exists t0, Answered t0 token (Some i) ∈ evs /\ now t < t0 + ttl).
Proof.
  intros HG token. apply Gate_Next in HG as (_ & _ & Hsc & Hres & Htok & _).
  fold token in Hres, Htok.
  assert (exists ins, principal_of ins = Some pr /\
    (server t token = ins \/ exists t0, Answered t0 token ins ∈ evs /\ now t < t0 + ttl)) as (ins & Hp & Hv).
  { unfold resolve in Hres. destruct (lookup_step _ (now t) token) as [[q|] c'] eqn:E.
    - injection Hres as ->. apply lookup_hit in E as (s & e & Hs & He & <- & Hlt).
      pose proof (events_backed ttl [] (new_cache ttl) evs (new_cache_backed ttl)) as Hb.
      rewrite Hs in Hb. destruct Hb as (_ & _ & _ & Hb). destruct (Hb _ _ He) as (t0 & ins & Hin & Hp & Hexp).
      exists ins. split; [done|]. right. exists t0. split; [done|]. lia.
    - unfold answer_step in Hres. destruct (principal_of (server t token)) as [q|] eqn:Hq; [|done].
      simpl in Hres. injection Hres as ->. eauto. }
  apply principal_of_Some in Hp as (i & -> & ? & ? & ? & ? & Hc & Hs). exists i.
  rewrite <- Hs. repeat split; done.
Qed.

Lemma protected_request_vouched_witness :
  exists i, Active i = true /\ "ui"%string ∈ Fields (i_Scope i) /\
    Answered 5 "tok" (Some i) ∈ [Answered 5 "tok" (Some (mkIntrospection true "acc" "cli" "mcp ui" "access_token"))].
Proof.
  edestruct (protected_request_vouched (mkParams "" false false) 30
    [Answered 5 "tok" (Some (mkIntrospection true "acc" "cli" "mcp ui" "access_token"))]
    (mkSchedule 10 [] 11 (fun _ => None)) (mkRequest "/api/endpoints" "Bearer tok" "")
    (mkPrincipal "acc" "cli" ["mcp"; "ui"]%string) None) as (i & _ & Ha & _ & _ & _ & _ & Hs & Hv).
  - vm_compute. reflexivity.
  - exists i. split; [exact Ha|]. split; [exact Hs|].
    destruct Hv as [Hv|(t0 & Hin & _)]; [discriminate Hv|].
    apply list_elem_of_singleton in Hin. injection Hin as -> ->. by apply list_elem_of_singleton.
Defined.

(** A request is refused in exactly three cases, each with its status:
    no token (401), a token nobody vouches for (401), and a token without the
    path's scope (403). A refusal never reaches the handler and never counts
    as account activity. Outside /ws a token offered as a subprotocol is no
    token (C39). *)
Theorem Gate_denials p res r :
  let scope := requiredScope (Path r) (AgentProxyEnabled p) in
  let token := extractToken r (Path r) in
  (isExempt (Path r) = false -> scope <> EmptyString ->
    (token = EmptyString ->
       Gate p res r = Denied 401 (Join (challenge_parts p scope Missing) ", ") "Access token required") /\
    (token <> EmptyString -> res token = None ->
       Gate p res r = Denied 401 (Join (challenge_parts p scope Invalid) ", ") "Invalid or expired access token") /\
    (forall pr, token <> EmptyString -> res token = Some pr -> scope ∉ Scopes pr ->
       Gate p res r = Denied 403 (Join (challenge_parts p scope Scope) ", ") ("Token lacks '" ++ scope ++ "' scope")) /\
    (forall pr, token <> EmptyString -> res token = Some pr -> scope ∈ Scopes pr ->
       Gate p res r = Next (Some pr) (if TouchLastUsed p then Some (AccountID pr) else None))) /\
  (Path r <> "/ws"%string -> HasPrefix (Authorization r) "Bearer " = false -> token = EmptyString).
Proof.
  intros scope token. split.
  - intros Hex Hsc. unfold Gate. rewrite Hex. fold scope token.
    rewrite (bool_decide_false (scope = EmptyString)) by done. unfold send401.
    split; [intros ->; by rewrite bool_decide_true by done|].
    split; [intros Ht ->; by rewrite bool_decide_false by done|].
    split; intros pr Ht -> Hin; rewrite (bool_decide_false (token = EmptyString)) by done.
    + destruct (HasScope pr scope) eqn:E; [by apply HasScope_elem in E|done].
    + by apply HasScope_elem in Hin as ->.
  - intros Hp Ha. unfold token, extractToken. rewrite Ha. by rewrite bool_decide_false by done.
Qed.

Lemma Gate_denials_witness :
  Gate (mkParams "https://sw" true true) (fun _ => Some (mkPrincipal "a" "c" ["ui"%string])) (mkRequest "/mcp" "Bearer x" "")
  = Denied 403 (Join (challenge_parts (mkParams "https://sw" true true) "mcp" Scope) ", ") "Token lacks 'mcp' scope".
Proof.
  refine (proj1 (proj2 (proj2 (proj1 (Gate_denials (mkParams "https://sw" true true)
    (fun _ => Some (mkPrincipal "a" "c" ["ui"%string])) (mkRequest "/mcp" "Bearer x" "")) _ _)))
    (mkPrincipal "a" "c" ["ui"%string]) _ _ _); [reflexivity|discriminate|discriminate|reflexivity|].
  simpl. set_solver.
Defined.

(** The events of a client that only presents tokens nobody vouches for. *)
Definition worthless (e : event) : Prop :=
  match e with Looked _ _ => True | Answered _ _ ins => principal_of ins = None end.

Definition no_later (t : Z) (e : event) : Prop := match e with Looked t' _ => t' <= t | _ => True end.

Lemma worthless_keep t e0 tok s e :
  worthless e -> no_later t e -> st_m s !! tok = Some e0 -> t < expiresAt e0 ->
  exists s', event_step (Some s) e = Some s' /\ st_m s' !! tok = Some e0.
Proof.
  destruct e as [t' tok'|t' tok' ins]; simpl; intros Hw Hl He Ht.
  - destruct (Get s t' tok') as [o s'] eqn:E. exists s'. split; [done|].
    unfold Get, After in E. destruct (st_m s !! tok') as [e'|] eqn:E'; [|by simplify_eq].
    destruct (t' <? expiresAt e') eqn:E2; [by simplify_eq|]. bool_to_prop. injection E as <- <-.
    rewrite deleteLocked_m. rewrite lookup_delete_ne; [done|]. intros ->. simplify_eq. lia.
  - unfold answer_step. rewrite Hw. eauto.
Qed.

(** A flood of worthless tokens cannot push a valid token out of the
    cache: between its introspection and the end of its lifetime it is
    answered from the cache, with the same principal. *)
Theorem spray_cannot_evict ttl evs t0 token ins pr spray t :
  0 < ttl -> principal_of ins = Some pr -> t < t0 + ttl ->
  Forall worthless spray -> Forall (no_later t) spray ->
  fst (lookup_step (foldl event_step (new_cache ttl) (evs ++ Answered t0 token ins :: spray)) t token) = Some pr.
Proof.
  intros Httl Hp Ht Hw Hl. rewrite foldl_app. simpl.
  pose proof (events_backed ttl [] (new_cache ttl) evs (new_cache_backed ttl)) as Hb.
  destruct (foldl event_step (new_cache ttl) evs) as [s0|] eqn:E0.
  2:{ exfalso. clear Hb. cut (is_Some (foldl event_step (new_cache ttl) evs)); [rewrite E0; by intros []|].
      unfold new_cache. destruct (ttl >? 0) eqn:E; [|bool_to_prop; bool_to_prop; lia]. clear.
      generalize (New (K := string) (V := Principal) ttl maxCacheEntries). intros s.
      revert s. induction evs as [|e evs IH]; intros s; [done|]. simpl.
      destruct e as [? tok|? tok ins]; simpl; [destruct (Get s now0 tok); apply IH|].
      unfold answer_step. destruct (principal_of ins); apply IH. }
  destruct Hb as (_ & Hs & _). unfold answer_step. rewrite Hp. simpl.
  assert (He : st_m (Put s0 t0 token pr) !! token = Some (mkEntry pr (t0 + ttl))).
  { unfold Put. rewrite PutTTL_eq. simpl. rewrite lookup_insert_eq, Hs. by destruct (ttl <=? 0). }
  revert He. generalize (Put s0 t0 token pr). induction spray as [|e spray IH]; intros s He; simpl.
  - unfold Get, After. rewrite He. simpl. replace (t <? t0 + ttl) with true by (symmetry; apply Z.ltb_lt; lia). done.
  - apply Forall_cons in Hw as [Hw1 Hw2]. apply Forall_cons in Hl as [Hl1 Hl2].
    destruct (worthless_keep t _ token s e Hw1 Hl1 He Ht) as (s' & -> & He'). by apply IH.
Qed.

Lemma spray_cannot_evict_witness :
  fst (lookup_step (foldl event_step (new_cache 30)
    ([] ++ Answered 0 "good" (Some (mkIntrospection true "a" "c" "ui" "access_token")) ::
     [Looked 1 "x"; Answered 2 "x" None; Looked 3 "y"; Answered 4 "y" None])) 10 "good")
  = Some (mkPrincipal "a" "c" ["ui"%string]).
Proof.
  apply (spray_cannot_evict 30 [] 0 "good" (Some (mkIntrospection true "a" "c" "ui" "access_token"))
    (mkPrincipal "a" "c" ["ui"%string]) [Looked 1 "x"; Answered 2 "x" None; Looked 3 "y"; Answered 4 "y" None] 10).
  - lia.
  - vm_compute. reflexivity.
  - lia.
  - repeat constructor.
  - repeat constructor; simpl; lia.
Defined.
