(* ===== verification/HttpServer.v ===== *)
(** * The HTTP server (internal/httpserver/server.go, cors.go, logging.go)

    A request passes, from the outside in: the logger, the resolution of the
    client's address, CORS, the rate limits, the bearer gate, and the router.
    The router is chi's, a parameter; what the server relies on is that a route
    serves only paths its pattern fits. *)
From Stdlib Require Import Ascii.
From S2P Require Import Prelude GoStrings Net Url RealIP RateLimit Gate.
#[local] Open Scope Z_scope.

(** ** Configuration *)

(** The parts that may be left out of a server. *)
Record Params := mkServerParams {
  p_WebAuthn : bool; p_Invites : bool; p_HydraAdmin : bool; p_Endpoints : bool; p_Sessions : bool; p_WSHub : bool; p_MCP : bool; p_Actions : bool;
  p_AgentProxy : bool; p_Audit : bool; p_Notify : bool; p_OAuthClients : bool; p_Accounts : bool; p_Credentials : bool; p_Keys : bool;
  p_AuthSessions : bool; p_Push : bool;
  p_ProxyEnabled : bool; p_DevProxy : bool; p_ExternalURL : string; p_TrustProxy : trustProxy; p_AllowedNetworks : list string;
  p_TouchLastUsed : bool;
  p_SelfRegister : Z * Z; p_PasskeyRegister : Z * Z; p_LoginOptions : Z * Z; p_LoginVerify : Z * Z }.

(** ** Routes *)

(** A method, [None] being every method, and a pattern. *)
Record route := mkRoute { rt_Method : option string; rt_Pattern : string }.

#[export] Instance route_eq_dec : EqDecision route.
Proof. solve_decision. Defined.

Definition get (p : string) : route := mkRoute (Some "GET"%string) p.
Definition post (p : string) : route := mkRoute (Some "POST"%string) p.
Definition put (p : string) : route := mkRoute (Some "PUT"%string) p.
Definition patch (p : string) : route := mkRoute (Some "PATCH"%string) p.
Definition del (p : string) : route := mkRoute (Some "DELETE"%string) p.
Definition any (p : string) : route := mkRoute None p.

Definition on (b : bool) (l : list route) : list route := if b then l else [].

Definition webauthn_routes (invites : bool) : list route :=
  [get "/api/auth/passkey-status"; post "/api/auth/register/options"; post "/api/auth/register";
   post "/api/webauthn/register/options"; post "/api/webauthn/register"; post "/api/webauthn/stepup/options"; post "/api/webauthn/stepup/verify"] ++
  on invites
    [post "/api/webauthn/invite"; get "/api/webauthn/invite"; post "/api/webauthn/credentials/{id}/confirm"; get "/api/passkey-invite/{token}";
     post "/api/passkey-invite/register/options"; post "/api/passkey-invite/register"].

Definition discovery_routes (agentProxy : bool) : list route :=
  [get "/.well-known/oauth-protected-resource"; get "/.well-known/oauth-protected-resource/mcp"] ++
  on agentProxy [get "/.well-known/oauth-protected-resource/agent-proxy"] ++ [get "/.well-known/oauth-authorization-server"].

Definition devproxy_routes : list route :=
  [any "/oauth2/*"; any "/userinfo"; any "/.well-known/jwks.json"; any "/.well-known/openid-configuration"].

Definition provider_routes : list route :=
  [get "/api/hydra/login"; get "/api/hydra/consent"; get "/api/hydra/logout"; get "/api/hydra/error"; post "/api/hydra/login/options";
   post "/api/hydra/login/verify"; post "/api/hydra/register"; post "/api/hydra/consent/options"; post "/api/hydra/consent/verify";
   post "/api/hydra/consent/approve"].

Definition audit_routes (notify clients : bool) : list route :=
  [get "/api/audit/sessions"; get "/api/audit/signings"; get "/api/audit/signings/{id}"] ++ on notify [get "/api/audit/notifications"] ++
  on clients [get "/api/audit/oauth-clients"].

(** New, in the order of its mounts. *)
Definition routes (p : Params) : list route :=
  [get "/health"; get "/api/version"; get "/config.js"] ++ discovery_routes (p_ProxyEnabled p) ++ on (p_DevProxy p) devproxy_routes ++
  on (p_WebAuthn p) (webauthn_routes (p_Invites p)) ++ on (p_HydraAdmin p && p_WebAuthn p) provider_routes ++
  on (p_HydraAdmin p) [get "/api/hydra/authorize"] ++
  on (p_Endpoints p)
    [get "/api/endpoints"; post "/api/endpoints"; put "/api/endpoints/{id}"; del "/api/endpoints/{id}"; put "/api/endpoints/{id}/host-key";
     del "/api/endpoints/{id}/host-key"] ++
  on (p_Sessions p) [post "/api/sessions"; get "/api/sessions"; get "/api/sessions/{sessionId}/tail"; del "/api/sessions/{sessionId}"] ++
  on (p_Actions p) [get "/api/actions/{actionId}"; post "/api/actions/{actionId}/resolve"; post "/api/actions/{actionId}/deny"] ++
  on (p_Audit p) (audit_routes (p_Notify p) (p_OAuthClients p)) ++
  on (p_Accounts p) [get "/api/auth/me"; put "/api/auth/me"; get "/api/accounts"; del "/api/accounts/{id}"; get "/api/accounts/export-seed"] ++
  on (p_Credentials p) [get "/api/webauthn/credentials"; patch "/api/webauthn/credentials/{id}/label"; post "/api/webauthn/credentials/{id}/revoke"] ++
  on (p_Keys p) [get "/api/keys"] ++
  on (p_AuthSessions p) [get "/api/auth/sessions"; del "/api/auth/sessions/{clientId}"; post "/api/auth/sessions/revoke-all"] ++
  on (p_Push p) [post "/api/push/subscribe"; del "/api/push/subscribe"] ++ on (p_WSHub p) [get "/ws"] ++
  on (p_MCP p) [any "/mcp"; any "/mcp/*"] ++ on (p_AgentProxy p && p_ProxyEnabled p) [get "/agent-proxy"].

(** ** Rate limits *)

Definition minutes (n : Z) : Z := n * RateLimit.minute.

(** rateLimitRules: the limiters, and the rules that name them. *)
Definition limiter_table (p : Params) : list (string * string * bool * (Z * Z)) :=
  let dcr := (10, 15) in let cimdAuthorize := (60, 15) in
  [("POST", "/api/auth/register/options", false, p_SelfRegister p); ("POST", "/api/auth/register", false, p_SelfRegister p);
   ("POST", "/api/webauthn/register/options", false, p_PasskeyRegister p); ("POST", "/api/webauthn/register", false, p_PasskeyRegister p);
   ("POST", "/api/webauthn/invite", false, p_PasskeyRegister p); ("POST", "/api/passkey-invite/register/options", false, p_PasskeyRegister p);
   ("POST", "/api/passkey-invite/register", false, p_PasskeyRegister p); ("GET", "/api/passkey-invite/", true, p_PasskeyRegister p);
   ("GET", "/api/hydra/login", false, p_LoginOptions p); ("POST", "/api/hydra/login/options", false, p_LoginOptions p);
   ("GET", "/api/hydra/consent", false, p_LoginOptions p); ("POST", "/api/hydra/consent/options", false, p_LoginOptions p);
   ("POST", "/api/hydra/consent/approve", false, p_LoginOptions p); ("GET", "/api/hydra/logout", false, p_LoginOptions p);
   ("POST", "/api/hydra/login/verify", false, p_LoginVerify p); ("POST", "/api/hydra/consent/verify", false, p_LoginVerify p);
   ("POST", "/api/webauthn/stepup/options", false, p_LoginVerify p); ("POST", "/api/webauthn/stepup/verify", false, p_LoginVerify p);
   ("POST", "/api/hydra/register", false, dcr); ("GET", "/api/hydra/authorize", false, cimdAuthorize)]%string.

Definition rateLimitRules (p : Params) : list Rule :=
  imap (fun i x => let '(m, path, prefix, _) := x in mkRule m path prefix i) (limiter_table p).

Definition limiters (p : Params) : list Limiter := map (fun x => RateLimit.New (fst (snd x)) (minutes (snd (snd x)))) (limiter_table p).

(** ** CORS *)

Definition corsAllowMethods : string := "GET,HEAD,PUT,PATCH,POST,DELETE".

(** The headers the middleware adds to whatever comes after it. *)
Record cors_headers := mkCors { ch_allowOrigin : option string }.

Inductive cors_outcome := CorsNext (h : cors_headers) | CorsPreflight (h : cors_headers) (allowHeaders : option string).

Definition corsMiddleware (method origin requestMethod requestHeaders : string) : cors_outcome :=
  if bool_decide (origin = EmptyString) then CorsNext (mkCors None)
  else if bool_decide (method = "OPTIONS"%string) && negb (bool_decide (requestMethod = EmptyString))
  then CorsPreflight (mkCors (Some origin)) (if bool_decide (requestHeaders = EmptyString) then None else Some requestHeaders)
  else CorsNext (mkCors (Some origin)).

(** ** The router and the server *)

(** A request: the path as it was sent, before any query. *)
Record http_request := mkHttpRequest {
  hr_Method : string; hr_Target : string; hr_Origin : string; hr_RequestMethod : string; hr_RequestHeaders : string;
  hr_Authorization : string; hr_SecWebsocketProtocol : string; hr_Addr : RealIP.request }.

Inductive routed := Handler (r : route) | MethodNotAllowed | NotFound.

Inductive answer :=
  | BadRequest
  | Preflight (allowOrigin : option string) (allowHeaders : option string)
  | Limited (h : headers) (retryAfter : Z) (message : string)
  | Refused (status : Z) (www_authenticate message : string)
  | Forbidden
  | Handled (r : route) (principal : option Principal) (touched : option string)
  | NotAllowed (principal : option Principal)
  | Fallback (principal : option Principal).

(** The path chi routes by: the raw one when the URL keeps it. *)
Definition routePath (path rawPath : string) : string := if bool_decide (rawPath = EmptyString) then path else rawPath.

Section Server.
Context (chi : list route -> string -> string -> routed).

(** /mcp behind its allow list. *)
Definition behind_allowlist (r : route) : bool := bool_decide (r = any "/mcp") || bool_decide (r = any "/mcp/*").

Definition serve (p : Params) (resolve : string -> option Principal) (ls : list Limiter) (now : Z) (victim : string) (req : http_request)
  : list Limiter * answer :=
  match setPath (hr_Target req) with
  | None => (ls, BadRequest)
  | Some (path, rawPath) =>
      let stashed := RealIP.Middleware (RealIP.New (p_TrustProxy p)) (hr_Addr req) in
      let ip := FromRequest stashed (hr_Addr req) in
      match corsMiddleware (hr_Method req) (hr_Origin req) (hr_RequestMethod req) (hr_RequestHeaders req) with
      | CorsPreflight h allow => (ls, Preflight (ch_allowOrigin h) allow)
      | CorsNext _ =>
          let '(ls, limited) := RateLimit.Middleware (rateLimitRules p) ls now (RateLimit.mkRequest (hr_Method req) path ip) victim in
          match limited with
          | TooManyRequests h retry msg => (ls, Limited h retry msg)
          | Forwarded _ =>
              match Gate (mkParams (p_ExternalURL p) (p_ProxyEnabled p) (p_TouchLastUsed p)) resolve
                      (Gate.mkRequest path (hr_Authorization req) (hr_SecWebsocketProtocol req)) with
              | Denied status www msg => (ls, Refused status www msg)
              | Next principal touched =>
                  (ls, match chi (routes p) (hr_Method req) (routePath path rawPath) with
                       | NotFound => Fallback principal
                       | MethodNotAllowed => NotAllowed principal
                       | Handler r =>
                           if behind_allowlist r && negb (RealIP.Allowed (NewIPChecker (p_AllowedNetworks p)) ip) then Forbidden
                           else Handled r principal touched
                       end)
              end
          end
      end
  end.

End Server.

(** ** What the server relies on *)

(** The text of a pattern before its first parameter or wildcard. *)
Fixpoint static_prefix (s : string) : string :=
  match s with
  | EmptyString => EmptyString
  | String a t => if bool_decide (a = "{"%char) || bool_decide (a = "*"%char) then EmptyString else String a (static_prefix t)
  end.

Definition literal (pattern : string) : bool := bool_decide (static_prefix pattern = pattern).

(** A parameter stands for at least a character. *)
Definition fits (r : route) (method path : string) : bool :=
  match rt_Method r with Some m => bool_decide (m = method) | None => true end &&
  if literal (rt_Pattern r) then bool_decide (path = rt_Pattern r)
  else HasPrefix path (static_prefix (rt_Pattern r)) &&
       (HasSuffix_char (rt_Pattern r) "*" || (strlen (static_prefix (rt_Pattern r)) <? strlen path)).

(** ** The intended access *)

Definition public_patterns : list string :=
  ["/health"; "/api/version"; "/config.js"; "/.well-known/oauth-protected-resource"; "/.well-known/oauth-protected-resource/mcp";
   "/.well-known/oauth-protected-resource/agent-proxy"; "/.well-known/oauth-authorization-server"; "/oauth2/*"; "/userinfo"; "/.well-known/jwks.json";
   "/.well-known/openid-configuration"; "/api/auth/passkey-status"; "/api/hydra/error";
   "/api/auth/register/options"; "/api/auth/register"; "/api/passkey-invite/{token}"; "/api/passkey-invite/register/options";
   "/api/passkey-invite/register"; "/api/hydra/login"; "/api/hydra/consent"; "/api/hydra/logout"; "/api/hydra/login/options"; "/api/hydra/login/verify";
   "/api/hydra/register"; "/api/hydra/consent/options"; "/api/hydra/consent/verify"; "/api/hydra/consent/approve"; "/api/hydra/authorize"]%string.

Definition public (r : route) : bool := bool_decide (rt_Pattern r ∈ public_patterns).

(** Public routes that take no quota: documents, and the proxied Hydra. *)
Definition unmetered (r : route) : bool := bool_decide (rt_Pattern r ∈ take 13 public_patterns).

Definition scope_of (r : route) : string :=
  if behind_allowlist r then McpScope else if bool_decide (rt_Pattern r = "/agent-proxy"%string) then AgentScope else UIScope.

(** ** Paths and patterns *)

Definition plain (s : string) : bool := forall_str (fun a => negb (bool_decide (a = "%"%char))) s.

Lemma HasPrefix_split s p : HasPrefix s p = true -> exists t, s = (p ++ t)%string.
Proof.
  revert s. induction p as [|a p IH]; intros s H; [by exists s|]. destruct s as [|b s]; cbn in H; [done|]. apply andb_true_iff in H as [E H].
  apply bool_decide_eq_true in E as <-. apply IH in H as [t ->]. by exists t.
Qed.

Lemma HasPrefix_app p t : HasPrefix (p ++ t)%string p = true.
Proof. induction p as [|a p IH]; [by destruct t|]. rewrite app_str_cons. cbn. by rewrite bool_decide_eq_true_2. Qed.

(** Two prefixes of a string are prefixes of one another. *)
Lemma HasPrefix_comparable s p q : HasPrefix s p = true -> HasPrefix s q = true -> HasPrefix p q = true \/ HasPrefix q p = true.
Proof.
  revert s q. induction p as [|a p IH]; intros s q Hp Hq; [right; by destruct q|]. destruct q as [|b q]; [by left|]. destruct s as [|c s]; cbn in *; [done|].
  apply andb_true_iff in Hp as [Ea Hp], Hq as [Eb Hq]. apply bool_decide_eq_true in Ea as <-, Eb as <-. rewrite !bool_decide_eq_true_2 by done. cbn. by eapply IH.
Qed.

Lemma unescape_plain p t : plain p = true -> unescape (p ++ t)%string encodePath = (fun u => (p ++ u)%string) <$> unescape t encodePath.
Proof.
  induction p as [|a p IH]; intros H; [rewrite app_str_nil; by destruct (unescape t encodePath); cbn; rewrite ?app_str_nil|]. cbn in H. apply andb_true_iff in H as [Ha H].
  rewrite negb_true_iff, bool_decide_eq_false in Ha. rewrite app_str_cons. cbn [unescape]. rewrite bool_decide_eq_false_2 by done.
  rewrite (bool_decide_eq_false_2 (encodePath = encodeQueryComponent)), andb_false_r by done. cbn. rewrite (IH H). destruct (unescape t encodePath); cbn; by rewrite ?app_str_cons.
Qed.

Lemma unescape_nonempty s t m : unescape s m = Some t -> s <> EmptyString -> t <> EmptyString.
Proof.
  destruct s as [|a s]; [done|]. cbn. intros H _ ->. revert H.
  destruct (bool_decide (a = "%"%char)).
  - destruct s as [|x [|y rest]]; try done. destruct (hex_value x), (hex_value y); try done. destruct (escape_allowed _ _ _); [|done]. by destruct (unescape rest m).
  - destruct (_ && bool_decide (m = _)); [by destruct (unescape s m)|]. destruct (_ && shouldEscape a m); [done|]. by destruct (unescape s m).
Qed.

Lemma strlen_app_str s t : strlen (s ++ t)%string = strlen s + strlen t.
Proof. unfold strlen. rewrite length_app_str. lia. Qed.

(** What the router takes for the path starts like the decoded path. *)
Lemma routePath_prefix target path raw p : setPath target = Some (path, raw) -> plain p = true -> HasPrefix (routePath path raw) p = true ->
  HasPrefix path p = true /\ (strlen p <? strlen (routePath path raw)) = (strlen p <? strlen path).
Proof.
  unfold setPath, routePath. intros H Hp. destruct (unescape target encodePath) as [u|] eqn:E; [|done]. cbn in H. injection H as <- <-.
  destruct (bool_decide (target = _)); [by rewrite bool_decide_eq_true_2|]. destruct (bool_decide (target = EmptyString)); [done|].
  intros [t ->]%HasPrefix_split. rewrite (unescape_plain _ _ Hp) in E. destruct (unescape t encodePath) as [v|] eqn:Et; [|done]. cbn in E. injection E as <-.
  split; [apply HasPrefix_app|]. rewrite !strlen_app_str. apply Bool.eq_iff_eq_true. rewrite !Z.ltb_lt.
  assert (forall s : string, 0 < strlen s <-> s <> EmptyString) as Hs by (intros [|a s]; unfold strlen; cbn [String.length]; split; [lia|done|done|intros _; lia]).
  split; intros Hlt.
  - assert (0 < strlen v); [|lia]. apply Hs. eapply unescape_nonempty; [exact Et|]. apply Hs. lia.
  - assert (0 < strlen t); [|lia]. apply Hs. intros ->. cbn in Et. injection Et as <-. unfold strlen in Hlt. cbn in Hlt. lia.
Qed.

Lemma routePath_literal target path raw p : setPath target = Some (path, raw) -> plain p = true -> routePath path raw = p -> path = p.
Proof.
  unfold setPath, routePath. intros H Hp. destruct (unescape target encodePath) as [u|] eqn:E; [|done]. cbn in H. injection H as <- <-.
  destruct (bool_decide (target = _)); [by rewrite bool_decide_eq_true_2|]. destruct (bool_decide (target = EmptyString)); [done|].
  intros ->. rewrite <- (app_str_nil_r p), (unescape_plain _ _ Hp) in E. cbn in E. rewrite app_str_nil_r in E. by injection E as <-.
Qed.

(** ** The tables, checked *)

Definition apart (p q : string) : bool := negb (HasPrefix p q) && negb (HasPrefix q p).

Lemma apart_prefix path p q : HasPrefix path p = true -> apart p q = true -> HasPrefix path q = false.
Proof.
  unfold apart. intros Hp [H1 H2]%andb_true_iff. apply negb_true_iff in H1, H2. destruct (HasPrefix path q) eqn:Hq; [|done].
  destruct (HasPrefix_comparable _ _ _ Hp Hq); congruence.
Qed.

Lemma HasPrefix_refl p : HasPrefix p p = true.
Proof. rewrite <- (app_str_nil_r p) at 1. apply HasPrefix_app. Qed.

Lemma apart_ne path p q : HasPrefix path p = true -> apart p q = true -> path <> q.
Proof. intros Hp Ha ->. pose proof (apart_prefix _ _ _ Hp Ha) as H. by rewrite HasPrefix_refl in H. Qed.

(** Whatever follows the prefix, the gate exempts it or not. *)
Definition always_exempt (p : string) : bool := existsb (fun q => HasPrefix p q) exemptPrefixes.
Definition never_exempt (p : string) : bool := forallb (fun e => negb (HasPrefix e p)) exemptExact && forallb (apart p) exemptPrefixes.

Definition scope_prefix (p : string) : option string :=
  if HasPrefix p "/mcp/" then Some McpScope
  else if apart p "/mcp" && apart p "/agent-proxy" && apart p "/ws" then
    if HasPrefix p "/api/" then Some UIScope else if apart p "/api/" then Some EmptyString else None
  else None.

Lemma HasPrefix_trans s p q : HasPrefix s p = true -> HasPrefix p q = true -> HasPrefix s q = true.
Proof. intros [t ->]%HasPrefix_split [u ->]%HasPrefix_split. rewrite app_str_assoc. apply HasPrefix_app. Qed.

Lemma always_exempt_ok path p : HasPrefix path p = true -> always_exempt p = true -> isExempt path = true.
Proof.
  unfold always_exempt, isExempt. intros Hp (q & Hin & Hq)%existsb_exists. apply orb_true_iff. right. apply existsb_exists. exists q. split; [done|].
  by eapply HasPrefix_trans.
Qed.

Lemma never_exempt_ok path p : HasPrefix path p = true -> never_exempt p = true -> isExempt path = false.
Proof.
  unfold never_exempt, isExempt. intros Hp [He Hq]%andb_true_iff. rewrite forallb_forall in He, Hq. apply orb_false_iff. split; apply not_true_iff_false;
    intros (q & Hin & Hx)%existsb_exists.
  - apply bool_decide_eq_true in Hx as <-. specialize (He q Hin). by rewrite Hp in He.
  - specialize (Hq q Hin). pose proof (apart_prefix _ _ _ Hp Hq). congruence.
Qed.

Lemma scope_prefix_ok path p ap sc : HasPrefix path p = true -> scope_prefix p = Some sc -> requiredScope path ap = sc.
Proof.
  unfold scope_prefix, requiredScope. intros Hp. destruct (HasPrefix p "/mcp/") eqn:Hm.
  - intros [= <-]. rewrite (HasPrefix_trans _ _ _ Hp Hm). by rewrite orb_true_r.
  - destruct (apart p "/mcp") eqn:Ha; [|done]. destruct (apart p "/agent-proxy") eqn:Hb; [|done]. destruct (apart p "/ws") eqn:Hc; [|done]. cbn [andb].
    assert (forall q r, apart p q = true -> HasPrefix r q = true -> HasPrefix path r = false) as Hx.
    { intros q r H1 H2. destruct (HasPrefix path r) eqn:H3; [|done]. pose proof (HasPrefix_trans _ _ _ H3 H2). pose proof (apart_prefix _ _ _ Hp H1). congruence. }
    rewrite (bool_decide_eq_false_2 (path = "/mcp"%string)) by (by eapply apart_ne). rewrite (Hx "/mcp"%string "/mcp/"%string Ha eq_refl).
    rewrite (bool_decide_eq_false_2 (path = "/agent-proxy"%string)) by (by eapply apart_ne). rewrite (Hx "/agent-proxy"%string "/agent-proxy/"%string Hb eq_refl).
    rewrite (bool_decide_eq_false_2 (path = "/ws"%string)) by (by eapply apart_ne). cbn [orb]. rewrite andb_false_r.
    destruct (HasPrefix p "/api/") eqn:Hd; [intros [= <-]; by rewrite (HasPrefix_trans _ _ _ Hp Hd)|].
    destruct (apart p "/api/") eqn:He; [|done]. intros [= <-]. by rewrite (apart_prefix _ _ _ Hp He).
Qed.

(** A route's access, read off its pattern. *)
Definition guarded (r : route) : bool :=
  plain (static_prefix (rt_Pattern r)) &&
  let pat := rt_Pattern r in let p := static_prefix pat in
  if literal pat then
    if public r then isExempt pat || (bool_decide (requiredScope pat true = EmptyString) && bool_decide (requiredScope pat false = EmptyString))
    else negb (isExempt pat) && bool_decide (requiredScope pat true = scope_of r) &&
         (bool_decide (requiredScope pat false = scope_of r) || bool_decide (pat = "/agent-proxy"%string))
  else
    if public r then always_exempt p || bool_decide (scope_prefix p = Some EmptyString)
    else never_exempt p && bool_decide (scope_prefix p = Some (scope_of r)).

(** A rule that meters every request of the route. *)
Definition covers (r : route) (rule : Rule) : bool :=
  bool_decide (rt_Method r = Some (r_Method rule)) &&
  if r_Prefix rule then negb (literal (rt_Pattern r)) && bool_decide (static_prefix (rt_Pattern r) = r_Path rule) && negb (HasSuffix_char (rt_Pattern r) "*")
  else literal (rt_Pattern r) && bool_decide (rt_Pattern r = r_Path rule).

Definition full : Params :=
  mkServerParams true true true true true true true true true true true true true true true true true true true "" (TrustBool false) [] true
    (5, 15) (10, 15) (20, 15) (10, 15).

Lemma full_guarded : forallb guarded (routes full) = true.
Proof. by vm_compute. Qed.

Lemma full_metered p : forallb (fun r => negb (public r) || unmetered r || existsb (covers r) (rateLimitRules p)) (routes full) = true.
Proof. by vm_compute. Qed.

Lemma on_subseteq b l l' : l ⊆ l' -> on b l ⊆ on true l'.
Proof. destruct b; cbn; [done|]. intros _ x H. by apply not_elem_of_nil in H. Qed.

Lemma app_subseteq (l1 l1' l2 l2' : list route) : l1 ⊆ l1' -> l2 ⊆ l2' -> l1 ++ l2 ⊆ l1' ++ l2'.
Proof. intros H1 H2 x [H|H]%elem_of_app; apply elem_of_app; [left; by apply H1|right; by apply H2]. Qed.

Lemma routes_full p : routes p ⊆ routes full.
Proof.
  unfold routes, discovery_routes, webauthn_routes, audit_routes. cbn [full p_ProxyEnabled p_DevProxy p_WebAuthn p_Invites p_HydraAdmin p_Endpoints p_Sessions p_Actions p_Audit
    p_Notify p_OAuthClients p_Accounts p_Credentials p_Keys p_AuthSessions p_Push p_WSHub p_MCP p_AgentProxy andb].
  repeat first [apply app_subseteq | apply on_subseteq | reflexivity].
Qed.

Definition full_no_proxy : Params :=
  mkServerParams true true true true true true true true true true true true true true true true true false true "" (TrustBool false) [] true
    (5, 15) (10, 15) (20, 15) (10, 15).

(** The agent proxy is mounted only when the gate knows it. *)
Lemma agent_proxy_mounted p r : r ∈ routes p -> rt_Pattern r = "/agent-proxy"%string -> p_ProxyEnabled p = true.
Proof.
  intros Hr Hp. destruct (p_ProxyEnabled p) eqn:E; [done|]. exfalso.
  assert (r ∈ routes full_no_proxy) as Hf.
  { revert Hr. generalize r. change (routes p ⊆ routes full_no_proxy). unfold routes, discovery_routes, webauthn_routes, audit_routes. rewrite E, andb_false_r.
    cbn [full_no_proxy p_ProxyEnabled p_DevProxy p_WebAuthn p_Invites p_HydraAdmin p_Endpoints p_Sessions p_Actions p_Audit
      p_Notify p_OAuthClients p_Accounts p_Credentials p_Keys p_AuthSessions p_Push p_WSHub p_MCP p_AgentProxy andb].
    repeat first [reflexivity | apply app_subseteq | apply on_subseteq]. }
  assert (forallb (fun r => negb (bool_decide (rt_Pattern r = "/agent-proxy"%string))) (routes full_no_proxy) = true) as Hn by (by vm_compute).
  rewrite forallb_forall in Hn. specialize (Hn r). rewrite Hp in Hn. rewrite <- list_elem_of_In in Hn. specialize (Hn Hf). done.
Qed.

(** ** A handler's request *)

Section Guards.
Context (chi : list route -> string -> string -> routed).
(** chi's documented matching: a handler is one of the routes, and fits. *)
Context (chi_sound : forall rs m path r, chi rs m path = Handler r -> r ∈ rs /\ fits r m path = true).

Lemma fits_path r m target path raw : guarded r = true -> setPath target = Some (path, raw) -> fits r m (routePath path raw) = true -> fits r m path = true /\
  if literal (rt_Pattern r) then path = rt_Pattern r else HasPrefix path (static_prefix (rt_Pattern r)) = true.
Proof using.
  unfold guarded, fits. intros [Hpl _]%andb_true_iff Hs [Hm H]%andb_true_iff. rewrite Hm. cbn [andb]. destruct (literal (rt_Pattern r)) eqn:El.
  - apply bool_decide_eq_true in H. unfold literal in El. apply bool_decide_eq_true in El. rewrite El in Hpl. pose proof (routePath_literal _ _ _ _ Hs Hpl H) as ->.
    split; [by rewrite bool_decide_eq_true_2|done].
  - apply andb_true_iff in H as [Hp Hl]. destruct (routePath_prefix _ _ _ _ Hs Hpl Hp) as [-> Hlen]. split; [|done]. rewrite Hlen in Hl. by rewrite Hl.
Qed.

Lemma guarded_gate p r path : guarded r = true -> r ∈ routes p ->
  (if literal (rt_Pattern r) then path = rt_Pattern r else HasPrefix path (static_prefix (rt_Pattern r)) = true) ->
  if public r then isExempt path = true \/ requiredScope path (p_ProxyEnabled p) = EmptyString
  else isExempt path = false /\ requiredScope path (p_ProxyEnabled p) = scope_of r.
Proof using.
  unfold guarded. intros [_ Hg]%andb_true_iff Hin Hpath. destruct (literal (rt_Pattern r)).
  - subst path. destruct (public r).
    + apply orb_true_iff in Hg as [Hg|[H1 H2]%andb_true_iff]; [by left|right]. apply bool_decide_eq_true in H1, H2. by destruct (p_ProxyEnabled p).
    + apply andb_true_iff in Hg as [[H1 H2]%andb_true_iff H3]. apply negb_true_iff in H1. apply bool_decide_eq_true in H2. split; [done|].
      apply orb_true_iff in H3 as [H3|H3]; apply bool_decide_eq_true in H3; [by destruct (p_ProxyEnabled p)|]. by rewrite (agent_proxy_mounted p r Hin H3).
  - destruct (public r).
    + apply orb_true_iff in Hg as [Hg|Hg]; [left; by eapply always_exempt_ok|right]. apply bool_decide_eq_true in Hg. by eapply scope_prefix_ok.
    + apply andb_true_iff in Hg as [H1 H2]. apply bool_decide_eq_true in H2. split; [by eapply never_exempt_ok|by eapply scope_prefix_ok].
Qed.

Lemma covers_matches r rule m path ip : covers r rule = true -> fits r m path = true -> matches rule (RateLimit.mkRequest m path ip) = true.
Proof using.
  unfold covers, fits, matches. intros [Hm Hc]%andb_true_iff [Hf Hp]%andb_true_iff. apply bool_decide_eq_true in Hm. rewrite Hm in Hf. apply bool_decide_eq_true in Hf as <-.
  cbn. rewrite bool_decide_eq_true_2 by done. cbn [negb]. destruct (r_Prefix rule).
  - apply andb_true_iff in Hc as [[Hl Hs]%andb_true_iff Hn]. apply negb_true_iff in Hl, Hn. rewrite Hl in Hp. apply bool_decide_eq_true in Hs. rewrite Hs, Hn in Hp.
    apply andb_true_iff in Hp as [Hp Hlen]. cbn in Hlen. rewrite Z.gtb_ltb. by rewrite Hlen, Hp.
  - apply andb_true_iff in Hc as [Hl He]. rewrite Hl in Hp. apply bool_decide_eq_true in Hp, He. by rewrite bool_decide_eq_true_2 by congruence.
Qed.

(** The client's address, as the limits and the allow list see it. *)
Definition client_ip (p : Params) (req : http_request) : string :=
  FromRequest (RealIP.Middleware (RealIP.New (p_TrustProxy p)) (hr_Addr req)) (hr_Addr req).

Lemma imap_limiter {A} (f : nat -> A -> Rule) (l : list A) rule : (forall i x, r_Limiter (f i x) = i) -> rule ∈ imap f l -> (r_Limiter rule < length l)%nat.
Proof using. intros Hf (i & x & -> & Hi)%elem_of_lookup_imap. rewrite Hf. by eapply lookup_lt_Some. Qed.

Lemma metered p r ls now victim path m ip : existsb (covers r) (rateLimitRules p) = true -> fits r m path = true -> length ls = length (limiter_table p) ->
  forall h ls', RateLimit.Middleware (rateLimitRules p) ls now (RateLimit.mkRequest m path ip) victim = (ls', Forwarded h) ->
  exists rule l, rule ∈ rateLimitRules p /\ matches rule (RateLimit.mkRequest m path ip) = true /\ ls !! r_Limiter rule = Some l /\ ok (snd (Allow l now ip victim)) = true.
Proof using.
  intros (r0 & Hin & Hc)%existsb_exists Hf Hlen h ls' H. unfold RateLimit.Middleware in H.
  destruct (List.find _ (rateLimitRules p)) as [rule|] eqn:E.
  - apply List.find_some in E as [Hr%list_elem_of_In Hm].
    assert (r_Limiter rule < length ls)%nat as [l Hl]%lookup_lt_is_Some_2 by (rewrite Hlen; eapply imap_limiter; [|exact Hr]; by intros i [[[? ?] ?] ?]).
    rewrite Hl in H. cbn [RateLimit.ClientIP] in H. exists rule, l. split_and!; try done. destruct (Allow l now ip victim) as [l' a]. cbn. by destruct (ok a).
  - pose proof (List.find_none _ _ E r0 Hin) as Hn. cbn beta in Hn. pose proof (covers_matches r r0 m path ip Hc Hf). congruence.
Qed.

(** A handler runs only for a request that fits one of the mounted routes.
    Unless its route is public the caller presented a token that resolved to a
    principal with the route's scope, and nothing the URL's encoding does to
    the path changes that; the agents' surface answers only the allowed
    networks; and every public route but the fixed documents charged the
    limiter of its rule and was within its quota (C3). *)
Theorem server_routes_guarded p resolve ls now victim req ls' r principal touched :
  serve chi p resolve ls now victim req = (ls', Handled r principal touched) -> length ls = length (limiter_table p) ->
  exists path raw, setPath (hr_Target req) = Some (path, raw) /\ r ∈ routes p /\ fits r (hr_Method req) path = true /\
    (let token := extractToken (Gate.mkRequest path (hr_Authorization req) (hr_SecWebsocketProtocol req)) path in
     if public r then principal = None
     else exists pr, principal = Some pr /\ token <> EmptyString /\ resolve token = Some pr /\ scope_of r ∈ Scopes pr) /\
    (public r = true -> unmetered r = false ->
       exists rule l, rule ∈ rateLimitRules p /\ matches rule (RateLimit.mkRequest (hr_Method req) path (client_ip p req)) = true /\
         ls !! r_Limiter rule = Some l /\ ok (snd (Allow l now (client_ip p req) victim)) = true) /\
    (scope_of r = McpScope -> RealIP.Allowed (NewIPChecker (p_AllowedNetworks p)) (client_ip p req) = true).
Proof using chi_sound.
  unfold serve. fold (client_ip p req). intros H Hlen. destruct (setPath (hr_Target req)) as [[path raw]|] eqn:Es; [|done]. exists path, raw.
  destruct (corsMiddleware _ _ _ _); [|done]. destruct (RateLimit.Middleware _ _ _ _ _) as [ls1 [hd|]] eqn:Em; [|done].
  destruct (Gate _ _ _) as [pr tc|] eqn:Eg; [|done]. injection H as <- H. destruct (chi (routes p) _ _) as [r0| |] eqn:Ec; try done.
  destruct (behind_allowlist r0 && _) eqn:Ea; [done|]. injection H as -> -> ->. destruct (chi_sound _ _ _ _ Ec) as [Hin Hfit].
  assert (Hg : guarded r = true) by (pose proof full_guarded as Hf; rewrite forallb_forall in Hf; apply Hf, list_elem_of_In, (routes_full p), Hin).
  destruct (fits_path _ _ _ _ _ Hg Es Hfit) as [Hfp Hpath]. pose proof (guarded_gate p r path Hg Hin Hpath) as Hgate. split_and!; try done.
  - unfold Gate in Eg. cbn [Path AgentProxyEnabled] in Eg. destruct (public r).
    + destruct Hgate as [Hx|Hx]; rewrite Hx in Eg; [by injection Eg|]. destruct (isExempt path); [by injection Eg|]. by injection Eg.
    + destruct Hgate as [Hx Hsc]. rewrite Hx, Hsc in Eg. rewrite (bool_decide_eq_false_2 (scope_of r = EmptyString)) in Eg by (unfold scope_of; by repeat case_match).
      cbv zeta. destruct (bool_decide (extractToken _ path = EmptyString)) eqn:Et; [done|]. apply bool_decide_eq_false in Et.
      destruct (resolve _) as [pr|] eqn:Er; [|done]. destruct (HasScope pr (scope_of r)) eqn:Eh; [|done]. injection Eg as <- _.
      exists pr. split_and!; try done. by apply HasScope_elem.
  - intros Hpub Hum. pose proof (full_metered p) as Hf. rewrite forallb_forall in Hf. specialize (Hf r). rewrite <- list_elem_of_In, Hpub, Hum in Hf.
    specialize (Hf (routes_full p r Hin)). cbn in Hf. eapply metered; [exact Hf|exact Hfp|exact Hlen|exact Em].
  - unfold scope_of. destruct (behind_allowlist r); [intros _|by destruct (bool_decide _)]. cbn in Ea. by apply negb_false_iff in Ea.
Qed.

End Guards.

(** ** The client build (spaHandler) *)

(** What fs.FS holds under a name. *)
Inductive static_entry := File (data : string) | Directory.

Definition staticCacheControl (path : string) : string :=
  if HasPrefix path "_app/immutable/" then "public, max-age=31536000, immutable" else "no-cache".

Inductive spa_answer :=
  | StaticFile (cacheControl data : string)
  | RedirectDot (cacheControl : string)
  | ApiNotFound
  | Index (data : string)
  | PlainNotFound.

(** The file server redirects what ends in /index.html to its directory. *)
Definition fileServer (cacheControl path data : string) : spa_answer :=
  if HasSuffix path "/index.html" then RedirectDot cacheControl else StaticFile cacheControl data.

Definition spaHandler (fs : string -> option static_entry) (urlPath : string) : spa_answer :=
  let path := if HasPrefix urlPath "/" then drop_str 1 urlPath else urlPath in
  let fallback :=
    if HasPrefix urlPath "/api/" then ApiNotFound
    else match fs "index.html"%string with Some (File data) => Index data | Some Directory => Index EmptyString | None => PlainNotFound end in
  if bool_decide (path = EmptyString) then fallback
  else match fs path with Some (File data) => fileServer (staticCacheControl path) urlPath data | _ => fallback end.

(** Only a file is served as one, never a directory's listing; only the
    content-hashed part of the build may be kept without asking; an unknown API
    path is a JSON 404; and every other path is answered by the application. *)
Theorem spa_serves_files fs urlPath :
  let path := if HasPrefix urlPath "/" then drop_str 1 urlPath else urlPath in
  (forall cc data, spaHandler fs urlPath = StaticFile cc data -> fs path = Some (File data)) /\
  (forall cc data, spaHandler fs urlPath = StaticFile cc data -> (cc = "no-cache"%string <-> HasPrefix path "_app/immutable/" = false)) /\
  (HasPrefix urlPath "/api/" = true -> (forall data, fs path <> Some (File data)) -> spaHandler fs urlPath = ApiNotFound) /\
  (forall index, fs "index.html"%string = Some (File index) -> HasPrefix urlPath "/api/" = false ->
     path = EmptyString \/ fs path = None \/ fs path = Some Directory -> spaHandler fs urlPath = Index index).
Proof.
  intros path. unfold spaHandler. fold path. split_and!.
  - intros cc data. destruct (bool_decide (path = EmptyString)); [by destruct (HasPrefix urlPath "/api/"); [|destruct (fs "index.html"%string) as [[]|]]|].
    destruct (fs path) as [[d|]|]; [|by destruct (HasPrefix urlPath "/api/"); [|destruct (fs "index.html"%string) as [[]|]]..].
    unfold fileServer. destruct (HasSuffix _ _); [done|]. by intros [= _ ->].
  - intros cc data. destruct (bool_decide (path = EmptyString)); [by destruct (HasPrefix urlPath "/api/"); [|destruct (fs "index.html"%string) as [[]|]]|].
    destruct (fs path) as [[d|]|]; [|by destruct (HasPrefix urlPath "/api/"); [|destruct (fs "index.html"%string) as [[]|]]..].
    unfold fileServer. destruct (HasSuffix _ _); [done|]. intros [= <- _]. unfold staticCacheControl. by destruct (HasPrefix path _).
  - intros -> Hn. destruct (bool_decide (path = EmptyString)); [done|]. destruct (fs path) as [[d|]|]; [|done..]. by destruct (Hn d).
  - intros index -> -> [Hp|[Hp|Hp]]; [by rewrite bool_decide_eq_true_2|..]; rewrite Hp; by destruct (bool_decide (path = EmptyString)).
Qed.

(** ** The request log *)

Inductive write_call := WriteHeader (code : Z) | Write (n : Z).

Record statusRecorder := mkRecorder { sr_status : Z; sr_bytes : Z }.

Definition record_call (r : statusRecorder) (c : write_call) : statusRecorder :=
  match c with
  | WriteHeader code => mkRecorder code (sr_bytes r)
  | Write n => mkRecorder (if sr_status r =? 0 then 200 else sr_status r) (sr_bytes r + n)
  end.

Inductive level := LevelInfo | LevelWarn | LevelError.

Definition requestLogger (calls : list write_call) : level * Z :=
  let r := fold_left record_call calls (mkRecorder 0 0) in
  let status := if sr_status r =? 0 then 200 else sr_status r in
  (if status >=? 500 then LevelError else if status >=? 400 then LevelWarn else LevelInfo, status).

(** ** Witnesses *)

(** A router that takes the first route that fits. *)
Definition first_fit (rs : list route) (method path : string) : routed :=
  match List.find (fun r => fits r method path) rs with Some r => Handler r | None => NotFound end.

Lemma first_fit_sound rs m path r : first_fit rs m path = Handler r -> r ∈ rs /\ fits r m path = true.
Proof. unfold first_fit. destruct (List.find _ _) as [r0|] eqn:E; [|done]. apply List.find_some in E as [Hin Hf]. intros [= <-]. by rewrite list_elem_of_In. Qed.

Definition sample_request (method target token : string) : http_request :=
  mkHttpRequest method target "" "" "" (if bool_decide (token = EmptyString) then ""%string else ("Bearer " ++ token)%string) "" (RealIP.mkRequest "127.0.0.1:5000" []).

Definition sample_resolve (token : string) : option Principal := if bool_decide (token = "t"%string) then Some (mkPrincipal "alice" "spa" ["ui"%string]) else None.

(** An encoded path reaches the handler of a route with a parameter, and the gate. *)
Lemma server_routes_guarded_witness :
  snd (serve first_fit full sample_resolve (limiters full) 0 "" (sample_request "PUT" "/api/endpoints/a%2Fb" "t"))
  = Handled (put "/api/endpoints/{id}") (Some (mkPrincipal "alice" "spa" ["ui"%string])) (Some "alice"%string) /\
  exists pr, scope_of (put "/api/endpoints/{id}") ∈ Scopes pr.
Proof.
  assert (E : serve first_fit full sample_resolve (limiters full) 0 "" (sample_request "PUT" "/api/endpoints/a%2Fb" "t")
    = (limiters full, Handled (put "/api/endpoints/{id}") (Some (mkPrincipal "alice" "spa" ["ui"%string])) (Some "alice"%string))) by (by vm_compute).
  rewrite E. split; [done|].
  destruct (server_routes_guarded first_fit first_fit_sound _ _ _ _ _ _ _ _ _ _ E) as (path & raw & _ & _ & _ & Hp & _); [by vm_compute|].
  destruct Hp as (pr & _ & _ & _ & Hs). by exists pr.
Defined.

Lemma spa_serves_files_witness :
  spaHandler (fun p => if bool_decide (p = "index.html"%string) then Some (File "app") else if bool_decide (p = "_app"%string) then Some Directory else None) "/_app" = Index "app".
Proof.
  refine (proj2 (proj2 (proj2 (spa_serves_files (fun p => if bool_decide (p = "index.html"%string) then Some (File "app") else if bool_decide (p = "_app"%string) then Some Directory else None) "/_app")))
    "app"%string _ _ _); [by vm_compute|by vm_compute|right; right; by vm_compute].
Defined.
