(* ===== verification/Cimd.v ===== *)
(** * Client id metadata documents: the pure layer (internal/hydra/cimd.go)

    A client id that is an https URL names a document that describes the
    client. Here are the rules for the URL, for the document and for the
    redirect URI of a request, and the policy shared with registration. A
    compiled pattern of the policy is the predicate it stands for. *)
From S2P Require Import Prelude GoStrings Url.
From Stdlib Require Import Ascii.

(** ** JSON objects: a decoded value, keys in order *)

Inductive json :=
  | JNull | JBool (b : bool) | JNumber (n : string) | JString (s : string)
  | JArray (l : list json) | JObject (fields : list (string * json)).

Abbreviation json_object := (list (string * json)).

Fixpoint json_eqb (x y : json) : bool :=
  match x, y with
  | JNull, JNull => true
  | JBool a, JBool b => Bool.eqb a b
  | JNumber a, JNumber b | JString a, JString b => bool_decide (a = b)
  | JArray a, JArray b =>
      (fix go a b := match a, b with
        | [], [] => true | x :: a, y :: b => json_eqb x y && go a b | _, _ => false end) a b
  | JObject a, JObject b =>
      (fix go (a b : list (string * json)) := match a, b with
        | [], [] => true
        | (k, x) :: a, (k', y) :: b => bool_decide (k = k') && json_eqb x y && go a b
        | _, _ => false end) a b
  | _, _ => false
  end.

Fixpoint json_field (o : json_object) (k : string) : json :=
  match o with [] => JNull | (k', v) :: o => if bool_decide (k' = k) then v else json_field o k end.

(** ** Data *)

Definition maxClientIDLen : Z := 255.

Record ClientMetadata := mkMetadata {
  m_ClientID : string; m_ClientName : string; m_RedirectURIs : list string; m_GrantTypes : list string;
  m_ResponseTypes : list string; m_Scope : string; m_TokenEndpointAuthMethod : string; m_JwksURI : string;
  m_Jwks : json_object; m_LogoURI : string; m_ClientURI : string; m_PolicyURI : string; m_TosURI : string;
  m_ClientSecret : string; m_ClientSecretExpiresAt : option Z }.

Abbreviation matcher := (string -> bool).
Record ClientPolicy := mkPolicy { RedirectURIPatterns : list matcher; AllowedScopes : gset string }.

Definition authMethodNone : string := "none".
Definition authMethodPrivateKeyJWT : string := "private_key_jwt".

Inductive cimd_error :=
  | IdEmpty | IdTooLong | IdNotURL | IdScheme | IdUserinfo | IdNoHost | IdFragment | IdQuery | IdNoPath
  | IdDotSegment | IdNotNormal
  | DocClientID | DocSecret | DocNoKeys | DocAuthMethod | DocURL (field : string) | DocNoName | DocNoRedirects
  | DocRedirectNotAbsolute (uri : string) | DocRedirectPolicy (uri : string) | DocGrantType (gt : string)
  | DocResponseType (rt : string)
  | ScopeNotSubset (allowed : list string).

(** ** Client identifier URLs *)

Definition IsClientIDURL (clientID : string) : bool := HasPrefix clientID "https://".

Definition dot_segment (seg : string) : bool := bool_decide (seg = "."%string) || bool_decide (seg = ".."%string).

Definition ValidateClientIDURL (clientID : string) : URL + cimd_error :=
  if bool_decide (clientID = EmptyString) then inr IdEmpty
  else if strlen clientID >? maxClientIDLen then inr IdTooLong
  else
    match Parse clientID with
    | None => inr IdNotURL
    | Some u =>
        if negb (bool_decide (Scheme u = "https"%string)) then inr IdScheme
        else if negb (bool_decide (User u = None)) then inr IdUserinfo
        else if bool_decide (Hostname u = EmptyString) then inr IdNoHost
        else if negb (bool_decide (Fragment u = EmptyString)) || negb (bool_decide (RawFragment u = EmptyString))
                || has_byte clientID "#" then inr IdFragment
        else if negb (bool_decide (RawQuery u = EmptyString)) || ForceQuery u || has_byte clientID "?" then inr IdQuery
        else if bool_decide (Path u = EmptyString) || bool_decide (Path u = "/"%string) then inr IdNoPath
        else if existsb dot_segment (Split (EscapedPath u) "/") then inr IdDotSegment
        else if negb (bool_decide (url_string u = clientID)) then inr IdNotNormal
        else inl u
    end.

(** ** The policy *)

Definition NewClientPolicy (compile : string -> option matcher) (patterns scopes : list string)
  (agentProxyEnabled : bool) : ClientPolicy :=
  mkPolicy (omap compile patterns)
    (list_to_set (List.filter (fun s => negb (bool_decide (s = "agent"%string) && negb agentProxyEnabled)) scopes)).

Definition matchAny (patterns : list matcher) (uri : string) : bool := existsb (fun m => m uri) patterns.

(** ** Redirect URIs *)

Definition isLoopbackHost (host : string) : bool :=
  bool_decide (host = "127.0.0.1"%string) || bool_decide (host = "::1"%string).

(** The same URI up to the port, for loopback hosts. *)
Definition loopback_match (reg req : URL) : bool :=
  isLoopbackHost (Hostname reg) && isLoopbackHost (Hostname req) &&
  bool_decide (Scheme reg = Scheme req) && bool_decide (Hostname reg = Hostname req) &&
  bool_decide (EscapedPath reg = EscapedPath req) && bool_decide (RawQuery reg = RawQuery req).

Definition MatchRedirectURI (registered : list string) (requested : string) : bool :=
  match Parse requested with
  | None => false
  | Some req =>
      existsb (fun reg =>
        bool_decide (reg = requested) ||
        match Parse reg with None => false | Some regURL => loopback_match regURL req end) registered
  end.

Definition requireHTTPSURL (raw : string) : bool :=
  match Parse raw with
  | None => false
  | Some u => bool_decide (Scheme u = "https"%string) && negb (bool_decide (Host u = EmptyString))
  end.

Definition isAbsoluteURI (raw : string) : bool :=
  match Parse raw with
  | None => false
  | Some u =>
      negb (bool_decide (Scheme u = EmptyString)) &&
      (negb (bool_decide (Host u = EmptyString)) || negb (bool_decide (Opaque u = EmptyString)))
  end.

(** ** Documents *)

(** The first complaint of a list of checks. *)
Fixpoint first_error {A} (check : A -> option cimd_error) (l : list A) : option cimd_error :=
  match l with
  | [] => None
  | x :: l => match check x with Some e => Some e | None => first_error check l end
  end.

Definition check_auth (doc : ClientMetadata) : string + cimd_error :=
  let m := m_TokenEndpointAuthMethod doc in
  if bool_decide (m = EmptyString) then inl authMethodNone
  else if bool_decide (m = authMethodNone) then inl m
  else if bool_decide (m = authMethodPrivateKeyJWT) then
    if bool_decide (m_JwksURI doc = EmptyString) && (length (m_Jwks doc) =? 0)%nat then inr DocNoKeys else inl m
  else inr DocAuthMethod.

(** The loop over the URL fields is over a Go map: which of several bad fields
    is reported is not determined; here the first in this order is. *)
Definition check_urls (doc : ClientMetadata) : option cimd_error :=
  first_error (fun '(field, raw) =>
    if bool_decide (raw = EmptyString) || requireHTTPSURL raw then None else Some (DocURL field))
    [("jwks_uri"%string, m_JwksURI doc); ("client_uri"%string, m_ClientURI doc); ("logo_uri"%string, m_LogoURI doc);
     ("policy_uri"%string, m_PolicyURI doc); ("tos_uri"%string, m_TosURI doc)].

Definition check_redirect (policy : ClientPolicy) (uri : string) : option cimd_error :=
  if negb (isAbsoluteURI uri) then Some (DocRedirectNotAbsolute uri)
  else if negb (matchAny (RedirectURIPatterns policy) uri) then Some (DocRedirectPolicy uri)
  else None.

Definition grant_types (doc : ClientMetadata) : list string :=
  match m_GrantTypes doc with [] => ["authorization_code"; "refresh_token"]%string | l => l end.
Definition check_grant (gt : string) : option cimd_error :=
  if negb (bool_decide (gt = "authorization_code"%string)) && negb (bool_decide (gt = "refresh_token"%string))
  then Some (DocGrantType gt) else None.

Definition response_types (doc : ClientMetadata) : list string :=
  match m_ResponseTypes doc with [] => ["code"%string] | l => l end.
Definition check_response (rt : string) : option cimd_error :=
  if negb (bool_decide (rt = "code"%string)) then Some (DocResponseType rt) else None.

(** The document with its normalized fields. *)
Definition normalized (doc : ClientMetadata) (auth : string) : ClientMetadata :=
  mkMetadata (m_ClientID doc) (m_ClientName doc) (m_RedirectURIs doc) (grant_types doc) (response_types doc)
    (m_Scope doc) auth (m_JwksURI doc) (m_Jwks doc) (m_LogoURI doc) (m_ClientURI doc) (m_PolicyURI doc) (m_TosURI doc)
    (m_ClientSecret doc) (m_ClientSecretExpiresAt doc).

Definition ValidateDocument (doc : ClientMetadata) (clientIDURL : string) (policy : ClientPolicy)
  : ClientMetadata + cimd_error :=
  if negb (bool_decide (m_ClientID doc = clientIDURL)) then inr DocClientID
  else if negb (bool_decide (m_ClientSecret doc = EmptyString)) || negb (bool_decide (m_ClientSecretExpiresAt doc = None))
  then inr DocSecret
  else
    match check_auth doc with
    | inr e => inr e
    | inl auth =>
        match check_urls doc with
        | Some e => inr e
        | None =>
            if bool_decide (TrimSpace (m_ClientName doc) = EmptyString) then inr DocNoName
            else if (length (m_RedirectURIs doc) =? 0)%nat then inr DocNoRedirects
            else
              match first_error (check_redirect policy) (m_RedirectURIs doc) with
              | Some e => inr e
              | None =>
                  match first_error check_grant (grant_types doc) with
                  | Some e => inr e
                  | None =>
                      match first_error check_response (response_types doc) with
                      | Some e => inr e
                      | None => inl (normalized doc auth)
                      end
                  end
              end
        end
    end.

(** ** Scopes *)

Definition wanted (requested : string) : list string :=
  let s := TrimSpace requested in
  if bool_decide (s = EmptyString) then ["mcp"%string] else Fields s.

Definition GrantedScope (requested : string) (allowed : gset string) : list string + cimd_error :=
  let granted :=
    List.filter (fun s => negb (bool_decide (s = "offline_access"%string)) && bool_decide (s ∈ allowed)) (wanted requested) in
  if (length granted =? 0)%nat then inr (ScopeNotSubset (elements allowed))
  else inl (granted ++ ["offline_access"%string]).

Definition setOf (scopes : list string) : gset string := list_to_set scopes.

Example cimd_ex1 : exists u, ValidateClientIDURL "https://app.example/client.json" = inl u.
Proof. eexists. vm_compute. reflexivity. Qed.
Example cimd_ex2 : ValidateClientIDURL "https://app.example/a/../b" = inr IdDotSegment.
Proof. vm_compute. reflexivity. Qed.
Example cimd_ex3 : ValidateClientIDURL "HTTPS://app.example/a" = inr IdNotNormal.
Proof. vm_compute. reflexivity. Qed.
Example cimd_ex4 : MatchRedirectURI ["http://127.0.0.1/cb"%string] "http://127.0.0.1:5555/cb" = true.
Proof. vm_compute. reflexivity. Qed.
Example cimd_ex5 : MatchRedirectURI ["http://localhost/cb"%string] "http://localhost:5555/cb" = false.
Proof. vm_compute. reflexivity. Qed.

(** ** Lemmas *)

Lemma parse_opaque s u : parse s = Some u -> Opaque u <> EmptyString -> Host u = EmptyString.
Proof.
  unfold parse. destruct (negb _); [done|]. case_bool_decide as Hstar; [by intros [= <-]|].
  destruct (getScheme s) as [[scheme rest]|]; [|done]. simpl.
  destruct (split_query rest) as [[force rest'] query].
  destruct (_ && _); [by intros [= <-]|]. destruct (_ && _); [done|].
  intros H Ho. exfalso. apply Ho. clear Ho.
  apply bind_Some in H as ([[[user host] omit] rest''] & _ & H).
  apply bind_Some in H as ([path raw] & _ & H). by injection H as <-.
Qed.

Lemma Parse_opaque s u : Parse s = Some u -> Opaque u <> EmptyString -> Host u = EmptyString.
Proof.
  unfold Parse. destruct (Cut s "#") as [t frag]. destruct (parse t) as [v|] eqn:E; [|done]. simpl.
  case_bool_decide; [intros [= <-]; by eapply parse_opaque|].
  destruct (unescape frag encodeFragment); [|done]. simpl. intros [= <-]. simpl. by eapply parse_opaque.
Qed.

Lemma url_string_https u :
  Scheme u = "https"%string -> Host u <> EmptyString -> Opaque u = EmptyString -> User u = None ->
  HasPrefix (url_string u) "https://" = true.
Proof.
  intros Hs Hh Ho Hu. unfold url_string, authority_string. rewrite Hs, Ho, Hu.
  rewrite !(bool_decide_false (Host u = EmptyString)) by done.
  rewrite (bool_decide_false ("https"%string = EmptyString)) by done.
  rewrite (bool_decide_true (EmptyString = EmptyString)) by done. cbn [negb andb]. rewrite !andb_false_r.
  apply HasPrefix_app_r. cbn [andb].
  change (("https" ++ ":") ++ "//" ++ "" ++ escape (Host u) encodeHost)%string
    with ("https://" ++ escape (Host u) encodeHost)%string.
  set (front := ("https://" ++ escape (Host u) encodeHost)%string).
  assert (forall x, HasPrefix (front ++ x) "https://" = true) as Hx by (intros; by do 2 apply HasPrefix_app_r).
  assert (HasPrefix front "https://" = true) as Hf by (by apply HasPrefix_app_r).
  destruct (_ && _ && true).
  - rewrite (bool_decide_false ((front ++ "/")%string = EmptyString)) by done. by apply HasPrefix_app_r, Hx.
  - rewrite (bool_decide_false (front = EmptyString)) by done. by apply Hx.
Qed.

Lemma first_error_None {A} (check : A -> option cimd_error) l :
  first_error check l = None <-> Forall (fun x => check x = None) l.
Proof.
  induction l as [|x l IH]; simpl; [by split; constructor|].
  rewrite Forall_cons. destruct (check x); [split; [done|by intros []]|]. rewrite IH. tauto.
Qed.

(** ** Properties *)

(** Every client id that passes the check is an absolute https URL with a
    host and no user, query, fragment or dot segment, of bounded length; it
    goes down the metadata-document path; and it is its own normal form, so two
    accepted ids never denote the same parsed URL. *)
Theorem ValidateClientIDURL_sound clientID u :
  ValidateClientIDURL clientID = inl u ->
  Parse clientID = Some u /\ url_string u = clientID /\ IsClientIDURL clientID = true /\
  strlen clientID <= maxClientIDLen /\ User u = None /\ Hostname u <> EmptyString /\
  has_byte clientID "#" = false /\ has_byte clientID "?" = false /\
  Path u <> EmptyString /\ Path u <> "/"%string /\ Forall (fun seg => dot_segment seg = false) (Split (EscapedPath u) "/").
Proof.
  unfold ValidateClientIDURL. case_bool_decide; [done|]. destruct (strlen clientID >? maxClientIDLen) eqn:Hlen; [done|].
  destruct (Parse clientID) as [v|] eqn:Hp; [|done].
  case_bool_decide as Hs; [|done]. cbn [negb]. case_bool_decide as Hu; [|done]. cbn [negb].
  case_bool_decide as Hh; [done|].
  destruct (_ || _ || has_byte clientID "#") eqn:Hf; [done|]. destruct (_ || _ || has_byte clientID "?") eqn:Hq; [done|].
  destruct (bool_decide (Path v = EmptyString) || _) eqn:Hpath; [done|]. destruct (existsb _ _) eqn:Hdot; [done|].
  destruct (bool_decide (url_string v = clientID)) eqn:Hn; [|done]. cbn [negb]. intros [= <-].
  apply orb_false_iff in Hf as [_ Hf]. apply orb_false_iff in Hq as [_ Hq]. apply orb_false_iff in Hpath as [Hp1 Hp2].
  bool_to_prop. bool_to_prop.
  assert (Host v <> EmptyString) as Hhost by (intros He; apply Hh; unfold Hostname; by rewrite He).
  repeat split; try done.
  - unfold IsClientIDURL. rewrite <- Hn. apply url_string_https; [done|done| |done].
    destruct (decide (Opaque v = EmptyString)) as [|Ho]; [done|]. by apply (Parse_opaque _ _ Hp) in Ho.
  - apply Forall_forall. intros seg Hin. destruct (dot_segment seg) eqn:E; [|done].
    enough (existsb dot_segment (Split (EscapedPath v) "/") = true) by congruence.
    apply existsb_exists. exists seg. split; [by apply list_elem_of_In|done].
Qed.

Lemma ValidateClientIDURL_sound_witness :
  exists u, Parse "https://app.example:8443/c.json" = Some u /\ IsClientIDURL "https://app.example:8443/c.json" = true.
Proof.
  destruct (ValidateClientIDURL "https://app.example:8443/c.json") as [u|e] eqn:E; [|vm_compute in E; discriminate E].
  exists u. destruct (ValidateClientIDURL_sound _ _ E) as (H1 & _ & H2 & _). by split.
Defined.

(** What an accepted document promises. *)
Definition document_ok (policy : ClientPolicy) (clientIDURL : string) (d : ClientMetadata) : Prop :=
  m_ClientID d = clientIDURL /\ m_ClientSecret d = EmptyString /\ m_ClientSecretExpiresAt d = None /\
  (m_TokenEndpointAuthMethod d = authMethodNone \/
   m_TokenEndpointAuthMethod d = authMethodPrivateKeyJWT /\ (m_JwksURI d <> EmptyString \/ m_Jwks d <> [])) /\
  Forall (fun raw => raw = EmptyString \/ requireHTTPSURL raw = true)
    [m_JwksURI d; m_ClientURI d; m_LogoURI d; m_PolicyURI d; m_TosURI d] /\
  TrimSpace (m_ClientName d) <> EmptyString /\ m_RedirectURIs d <> [] /\
  Forall (fun uri => isAbsoluteURI uri = true /\ matchAny (RedirectURIPatterns policy) uri = true) (m_RedirectURIs d) /\
  m_GrantTypes d <> [] /\ m_GrantTypes d ⊆ ["authorization_code"; "refresh_token"]%string /\
  m_ResponseTypes d <> [] /\ m_ResponseTypes d ⊆ ["code"%string].

Lemma check_auth_inl doc m :
  check_auth doc = inl m ->
  (m = authMethodNone \/ m = authMethodPrivateKeyJWT /\ (m_JwksURI doc <> EmptyString \/ m_Jwks doc <> [])) /\
  (m_TokenEndpointAuthMethod doc = m \/ m_TokenEndpointAuthMethod doc = EmptyString).
Proof.
  unfold check_auth. case_bool_decide; [intros [= <-]; auto|]. case_bool_decide as E1; [intros [= <-]; auto|].
  case_bool_decide as E2; [|done]. destruct (_ && _) eqn:E; [done|]. intros [= <-]. split; [right; split; [done|]|by left].
  apply andb_false_iff in E as [E|E]; [left; by apply bool_decide_eq_false in E|right].
  intros Hn. by rewrite Hn in E.
Qed.

Lemma check_urls_None doc :
  check_urls doc = None ->
  Forall (fun raw => raw = EmptyString \/ requireHTTPSURL raw = true)
    [m_JwksURI doc; m_ClientURI doc; m_LogoURI doc; m_PolicyURI doc; m_TosURI doc].
Proof.
  unfold check_urls. rewrite first_error_None. rewrite !Forall_cons, Forall_nil.
  assert (forall raw f, (if bool_decide (raw = EmptyString) || requireHTTPSURL raw then None else Some (DocURL f)) = None ->
    raw = EmptyString \/ requireHTTPSURL raw = true) as Hone.
  { intros raw f. case_bool_decide; [auto|]. simpl. destruct (requireHTTPSURL raw); [auto|done]. }
  intros (H1 & H2 & H3 & H4 & H5 & _). repeat split; try (by eapply Hone). constructor.
Qed.

(** An accepted document keeps every promise of the policy, differs from
    what was fetched only by filled-in defaults, and is a fixpoint: checking it
    again returns it unchanged. *)
Theorem ValidateDocument_ok doc url policy d :
  ValidateDocument doc url policy = inl d ->
  document_ok policy url d /\
  d = normalized doc (m_TokenEndpointAuthMethod d) /\
  (m_GrantTypes doc <> [] -> m_GrantTypes d = m_GrantTypes doc) /\
  (m_TokenEndpointAuthMethod doc <> EmptyString -> m_TokenEndpointAuthMethod d = m_TokenEndpointAuthMethod doc) /\
  ValidateDocument d url policy = inl d.
Proof.
  unfold ValidateDocument. destruct (decide (m_ClientID doc = url)) as [Hid|]; [|by rewrite bool_decide_false by done].
  rewrite bool_decide_true by done. cbn [negb].
  destruct (_ || _) eqn:Hsec; [done|]. destruct (check_auth doc) as [auth|] eqn:Hauth; [|done].
  destruct (check_urls doc) eqn:Hurls; [done|]. destruct (bool_decide (TrimSpace _ = _)) eqn:Hname; [done|].
  destruct (_ =? _)%nat eqn:Hred; [done|]. destruct (first_error (check_redirect _) _) eqn:Hr; [done|].
  destruct (first_error check_grant _) eqn:Hg; [done|]. destruct (first_error check_response _) eqn:Hresp; [done|].
  intros [= <-].
  assert (normalized (normalized doc auth) auth = normalized doc auth) as Hidem.
  { unfold normalized, grant_types, response_types. simpl. by destruct (m_GrantTypes doc), (m_ResponseTypes doc). }
  assert (check_auth (normalized doc auth) = inl auth) as Hauth'.
  { apply check_auth_inl in Hauth as [[->|[-> Hk]] _]; [done|]. unfold check_auth. simpl.
    destruct (bool_decide (m_JwksURI doc = EmptyString)) eqn:E; [|done]. apply bool_decide_eq_true in E. simpl.
    destruct Hk as [|Hk]; [done|]. by destruct (m_Jwks doc). }
  assert (grant_types (normalized doc auth) = grant_types doc) as Hgt by (unfold normalized, grant_types; simpl; by destruct (m_GrantTypes doc)).
  assert (response_types (normalized doc auth) = response_types doc) as Hrt
    by (unfold normalized, response_types; simpl; by destruct (m_ResponseTypes doc)).
  split; [|split; [done|split; [|split]]].
  - apply check_auth_inl in Hauth as [Ha _]. apply check_urls_None in Hurls. apply orb_false_iff in Hsec as [Hs1 Hs2].
    bool_to_prop. bool_to_prop. apply first_error_None in Hr, Hg, Hresp.
    repeat split; simpl; try done.
    + intros Hn. by rewrite Hn in Hred.
    + eapply Forall_impl; [exact Hr|]. intros uri. unfold check_redirect.
      destruct (isAbsoluteURI uri); [|done]. simpl. by destruct (matchAny _ uri).
    + unfold grant_types. by destruct (m_GrantTypes doc).
    + intros gt Hin. rewrite Forall_forall in Hg. apply Hg in Hin. unfold check_grant in Hin.
      case_bool_decide; [subst; set_solver|]. case_bool_decide; [subst; set_solver|done].
    + unfold response_types. by destruct (m_ResponseTypes doc).
    + intros rt Hin. rewrite Forall_forall in Hresp. apply Hresp in Hin. unfold check_response in Hin.
      case_bool_decide; [subst; set_solver|done].
  - simpl. unfold grant_types. by destruct (m_GrantTypes doc).
  - simpl. apply check_auth_inl in Hauth as [_ [Ha|Ha]]; congruence.
  - rewrite bool_decide_true by done. cbn [negb normalized m_ClientSecret m_ClientSecretExpiresAt]. rewrite Hsec.
    rewrite Hauth'. unfold check_urls in *. cbn [normalized m_ClientName m_RedirectURIs m_JwksURI m_ClientURI m_LogoURI m_PolicyURI m_TosURI].
    by rewrite Hurls, Hname, Hred, Hr, Hgt, Hg, Hrt, Hresp, Hidem.
Qed.

Definition ex_policy : ClientPolicy := mkPolicy [fun uri => HasPrefix uri "http://127.0.0.1"] {["mcp"; "agent"]}.
Definition ex_doc : ClientMetadata :=
  mkMetadata "https://app.example/c.json" "App" ["http://127.0.0.1/cb"%string] [] [] "mcp" "" "" [] "" "" "" "" "" None.

Lemma ValidateDocument_ok_witness :
  ValidateDocument ex_doc "https://app.example/c.json" ex_policy = inl (normalized ex_doc "none") /\
  document_ok ex_policy "https://app.example/c.json" (normalized ex_doc "none").
Proof.
  assert (ValidateDocument ex_doc "https://app.example/c.json" ex_policy = inl (normalized ex_doc "none")) as E
    by (vm_compute; reflexivity).
  split; [exact E|]. exact (proj1 (ValidateDocument_ok _ _ _ _ E)).
Defined.

(** A request's redirect URI is accepted only when the document lists it
    literally, or lists the same URI up to the port and both hosts are loopback
    address literals. So a URI with any other host name, localhost included,
    must be listed to the letter. *)
Theorem MatchRedirectURI_sound registered requested :
  MatchRedirectURI registered requested = true ->
  exists req, Parse requested = Some req /\
    (requested ∈ registered \/
     exists reg regURL, reg ∈ registered /\ Parse reg = Some regURL /\
       (Hostname req = "127.0.0.1"%string \/ Hostname req = "::1"%string) /\
       Scheme regURL = Scheme req /\ Hostname regURL = Hostname req /\
       EscapedPath regURL = EscapedPath req /\ RawQuery regURL = RawQuery req).
Proof.
  unfold MatchRedirectURI. destruct (Parse requested) as [req|]; [|done]. intros H. exists req. split; [done|].
  apply existsb_exists in H as (reg & Hin & H). apply list_elem_of_In in Hin. case_bool_decide; [subst; by left|].
  simpl in H. destruct (Parse reg) as [regURL|] eqn:Hp; [|done]. right. exists reg, regURL.
  unfold loopback_match, isLoopbackHost in H. rewrite !andb_true_iff, !orb_true_iff, !bool_decide_eq_true in H.
  by destruct H as (((((_ & Hl) & ?) & ?) & ?) & ?).
Qed.

Lemma MatchRedirectURI_sound_witness :
  exists req, Parse "http://127.0.0.1:5555/cb" = Some req /\ Hostname req = "127.0.0.1"%string.
Proof.
  destruct (MatchRedirectURI_sound ["http://127.0.0.1/cb"%string] "http://127.0.0.1:5555/cb") as (req & Hp & H);
    [vm_compute; reflexivity|]. exists req. split; [exact Hp|].
  vm_compute in Hp. injection Hp as <-. vm_compute. reflexivity.
Defined.

(** Not only the port may vary: the user information and the fragment of a
    loopback URI are not compared either. *)
Theorem loopback_match_ignores_userinfo :
  MatchRedirectURI ["http://127.0.0.1/cb"%string] "http://someone@127.0.0.1:9/cb#fragment" = true.
Proof. vm_compute. reflexivity. Qed.

(** The scopes granted to a request were asked for (mcp, when nothing was)
    and are allowed, all such scopes are granted, and offline access always is;
    nothing grantable is an error. *)
Theorem GrantedScope_spec requested allowed :
  match GrantedScope requested allowed with
  | inl granted =>
      (forall s, s ∈ granted <-> s = "offline_access"%string \/ s ∈ wanted requested /\ s ∈ allowed) /\
      (exists s, s ∈ wanted requested /\ s ∈ allowed /\ s <> "offline_access"%string)
  | inr e =>
      e = ScopeNotSubset (elements allowed) /\
      forall s, s ∈ wanted requested -> s ∈ allowed -> s = "offline_access"%string
  end.
Proof.
  unfold GrantedScope.
  set (l := List.filter (fun s => negb (bool_decide (s = "offline_access"%string)) && bool_decide (s ∈ allowed)) (wanted requested)).
  assert (forall s, s ∈ l <-> s ∈ wanted requested /\ s ∈ allowed /\ s <> "offline_access"%string) as Hl.
  { intros s. unfold l. rewrite list_elem_of_In, filter_In, <- list_elem_of_In, andb_true_iff, negb_true_iff,
      bool_decide_eq_true, bool_decide_eq_false. tauto. }
  clearbody l. destruct l as [|x l]; simpl.
  - split; [done|]. intros s H1 H2. destruct (decide (s = "offline_access"%string)) as [|Hne]; [done|].
    by assert (s ∈ []) as []%not_elem_of_nil by (by apply Hl).
  - split.
    + intros s. change (x :: l ++ ["offline_access"%string]) with ((x :: l) ++ ["offline_access"%string]).
      rewrite elem_of_app, Hl, list_elem_of_singleton.
      destruct (decide (s = "offline_access"%string)); tauto.
    + exists x. apply Hl. by left.
Qed.
