(* ===== verification/CimdFetch.v ===== *)
(** * Fetching client metadata documents (internal/hydra/cimd_fetch.go)

    The fetcher gets a document over HTTPS, checks it and caches it for as long
    as its headers say, within bounds; a guard looks at every address that is
    dialled. What the network and the document's host answer is an input, and
    so are the Unicode, JSON and date functions of the standard library. *)
From S2P Require Import Prelude GoStrings Net Netip Url Cimd Ephemeral.
From Stdlib Require Import Ascii.

(** ** The dial guard *)

Definition specialUsePrefixes : list prefix :=
  [p4 0 0 0 0 8; p4 100 64 0 0 10; p4 192 0 0 0 24; p4 192 0 2 0 24; p4 192 88 99 0 24; p4 198 18 0 0 15;
   p4 198 51 100 0 24; p4 203 0 113 0 24; p4 240 0 0 0 4; p4 255 255 255 255 32;
   p6 0 0 128; p6 0x64 0xff9b 96; p6 0x100 0 64; p6 0x2001 0 23; p6 0x2001 0xdb8 32; p6 0x2002 0 16].

Definition isSpecialUse (addr : addr) : bool :=
  let addr := Unmap addr in
  if IsLoopback addr || IsUnspecified addr || IsPrivate addr || IsLinkLocalUnicast addr ||
     IsLinkLocalMulticast addr || IsMulticast addr || IsInterfaceLocalMulticast addr then true
  else existsb (fun p => Bool.eqb (p_is4 p) (Is4 addr) && Contains p addr) specialUsePrefixes.

Inductive dial_error := NotTCP | Unparseable | NotLiteral | SpecialUse.

(** [None] lets the connection proceed. *)
Definition checkDialAddress (allowLoopback : bool) (network address : string) : option dial_error :=
  if negb (HasPrefix network "tcp") then Some NotTCP
  else
    match SplitHostPort address with
    | None => Some Unparseable
    | Some (host, _) =>
        match Netip.ParseAddr host with
        | None => Some NotLiteral
        | Some a => if isSpecialUse a && negb (allowLoopback && IsLoopback (Unmap a)) then Some SpecialUse else None
        end
    end.

Example dial_ex1 : checkDialAddress false "tcp4" "93.184.216.34:443" = None.
Proof. vm_compute. reflexivity. Qed.
Example dial_ex2 : checkDialAddress false "tcp6" "[::ffff:10.0.0.1]:443" = Some SpecialUse.
Proof. vm_compute. reflexivity. Qed.
Example dial_ex3 : checkDialAddress false "tcp6" "[2606:4700::1111]:443" = None.
Proof. vm_compute. reflexivity. Qed.

(** ** The fetcher *)

Definition cimdMaxBody : Z := 5 * 2 ^ 10.
Definition cimdCacheCap : Z := 512.
Definition second : Z := 1000000000.

Record FetcherParams := mkFetcherParams {
  AllowLoopback : bool; AllowedHosts : list string; BlockedHosts : list string; CacheMin : Z; CacheMax : Z }.

Record cachedDocument := mkCached { cd_Doc : ClientMetadata; FetchedAt : Z }.

(** What the request to the document's host brings: no response, or its status,
    headers and body, the latter up to one byte past the cap. *)
Record response := mkResponse {
  StatusCode : Z; ContentType : string; CacheControl : string; Expires : string; Body : option string }.

Inductive fetch_error :=
  | FetchURL (e : cimd_error) | HostBlocked | HostNotAllowed | Unavailable | BadStatus (code : Z) | NotJSON
  | TooBig | BadJSON | BadDocument (e : cimd_error).

Section Fetcher.
(** strings.ToLower, json.Decoder.Decode and http.ParseTime. *)
Variable ToLower : string -> string.
Variable Decode : string -> option ClientMetadata.
Variable ParseTime : string -> option Z.

Definition lowerSet (l : list string) : gset string :=
  list_to_set (List.filter (fun s => negb (bool_decide (s = EmptyString))) (map (fun s => ToLower (TrimSpace s)) l)).

Record Fetcher := mkFetcher {
  params : FetcherParams; blocked : gset string; allowed : gset string; f_cache : Store string cachedDocument }.

Definition NewFetcher (p : FetcherParams) : Fetcher :=
  let p := mkFetcherParams (AllowLoopback p) (AllowedHosts p) (BlockedHosts p)
    (if CacheMin p <=? 0 then 300 * second else CacheMin p) (if CacheMax p <=? 0 then 86400 * second else CacheMax p) in
  mkFetcher p (lowerSet (BlockedHosts p)) (lowerSet (AllowedHosts p)) (New (CacheMax p) cimdCacheCap).

Definition isJSONContentType (ct : string) : bool :=
  let mediaType := ToLower (TrimSpace (List.hd EmptyString (Split ct ";"))) in
  bool_decide (mediaType = "application/json"%string) ||
  (HasPrefix mediaType "application/" && HasSuffix mediaType "+json").

Fixpoint parseMaxAge_parts (parts : list string) : option Z :=
  match parts with
  | [] => None
  | part :: parts =>
      let part := TrimSpace part in
      if negb (HasPrefix part "max-age=") then parseMaxAge_parts parts
      else
        match Atoi64 (drop_str (String.length "max-age=") part) with
        | Some secs => if secs <? 0 then None else Some secs
        | None => None
        end
  end.

Definition parseMaxAge (cc : string) : option Z := parseMaxAge_parts (Split cc ",").

(** [Time.Sub] saturates. *)
Definition Sub (t now : Z) : Z := Z.max (- 2 ^ 63) (Z.min (2 ^ 63 - 1) (t - now)).

Definition clamp (p : FetcherParams) (ttl : Z) : Z :=
  if ttl <? CacheMin p then CacheMin p else if ttl >? CacheMax p then CacheMax p else ttl.

Definition cacheTTL (p : FetcherParams) (now : Z) (res : response) : Z :=
  let cc := ToLower (CacheControl res) in
  if Contains_str cc "no-store" || Contains_str cc "no-cache" then CacheMin p
  else if Contains_str cc "max-age=" then
    clamp p match parseMaxAge cc with Some secs => wrap64 (secs * second) | None => CacheMin p end
  else
    clamp p (if bool_decide (Expires res = EmptyString) then CacheMin p
             else match ParseTime (Expires res) with Some t => Sub t now | None => CacheMin p end).

(** The checks before the request: the host of a valid client id. *)
Definition check_host (f : Fetcher) (clientIDURL : string) : option fetch_error :=
  match ValidateClientIDURL clientIDURL with
  | inr e => Some (FetchURL e)
  | inl u =>
      let host := ToLower (Hostname u) in
      if bool_decide (host ∈ blocked f) then Some HostBlocked
      else if negb (size (allowed f) =? 0)%nat && negb (bool_decide (host ∈ allowed f)) then Some HostNotAllowed
      else None
  end.

Definition read_document (res : option response) (clientIDURL : string) (policy : ClientPolicy)
  : (ClientMetadata * response) + fetch_error :=
  match res with
  | None => inr Unavailable
  | Some res =>
      if negb (StatusCode res =? 200) then inr (BadStatus (StatusCode res))
      else if negb (isJSONContentType (ContentType res)) then inr NotJSON
      else
        match Body res with
        | None => inr Unavailable
        | Some body =>
            if strlen body >? cimdMaxBody then inr TooBig
            else
              match Decode body with
              | None => inr BadJSON
              | Some doc =>
                  match ValidateDocument doc clientIDURL policy with
                  | inr e => inr (BadDocument e)
                  | inl doc => inl (doc, res)
                  end
              end
        end
  end.

Definition fetchUncached (f : Fetcher) (now : Z) (clientIDURL : string) (policy : ClientPolicy) (res : option response)
  : (ClientMetadata * Z) + fetch_error :=
  match check_host f clientIDURL with
  | Some e => inr e
  | None =>
      match read_document res clientIDURL policy with
      | inr e => inr e
      | inl (doc, res) => inl (doc, cacheTTL (params f) now res)
      end
  end.

Definition set_cache (f : Fetcher) (c : Store string cachedDocument) : Fetcher :=
  mkFetcher (params f) (blocked f) (allowed f) c.

(** Fetch in its two steps: the look-up, and what follows a miss once the
    response is there. *)
Definition fetch_lookup (f : Fetcher) (now : Z) (clientIDURL : string) : option ClientMetadata * Fetcher :=
  let '(hit, c) := Get (f_cache f) now clientIDURL in (cd_Doc <$> hit, set_cache f c).

Definition fetch_store (f : Fetcher) (now : Z) (clientIDURL : string) (policy : ClientPolicy) (res : option response)
  : (ClientMetadata + fetch_error) * Fetcher :=
  match fetchUncached f now clientIDURL policy res with
  | inr e => (inr e, f)
  | inl (doc, ttl) => (inl doc, set_cache f (PutTTL (f_cache f) now clientIDURL (mkCached doc now) ttl))
  end.

Definition Invalidate (f : Fetcher) (clientIDURL : string) : Fetcher :=
  set_cache f (Delete (f_cache f) clientIDURL).

(** The calls a fetcher sees, from all the requests. *)
Inductive fetch_event :=
  | FLook (now : Z) (url : string)
  | FStore (now : Z) (url : string) (res : option response)
  | FInvalidate (url : string).

Definition fetch_step (policy : ClientPolicy) (f : Fetcher) (e : fetch_event) : Fetcher :=
  match e with
  | FLook now url => snd (fetch_lookup f now url)
  | FStore now url res => snd (fetch_store f now url policy res)
  | FInvalidate url => Invalidate f url
  end.

(** A whole call of Fetch: [others] happen while the document is fetched. The
    flag says whether the document came from the cache. *)
Record fetching := mkFetching { fg_now : Z; fg_others : list fetch_event; fg_later : Z; fg_response : option response }.

Definition Fetch (f : Fetcher) (t : fetching) (clientIDURL : string) (policy : ClientPolicy)
  : (ClientMetadata * bool + fetch_error) * Fetcher :=
  match fetch_lookup f (fg_now t) clientIDURL with
  | (Some doc, f) => (inl (doc, true), f)
  | (None, f) =>
      let f := foldl (fetch_step policy) f (fg_others t) in
      match fetch_store f (fg_later t) clientIDURL policy (fg_response t) with
      | (inl doc, f) => (inl (doc, false), f)
      | (inr e, f) => (inr e, f)
      end
  end.

End Fetcher.

(** ** Lemmas: the guard *)

(** The special-use blocks, as one list. *)
Definition special_blocks : list prefix :=
  [p4 127 0 0 0 8; p4 10 0 0 0 8; p4 172 16 0 0 12; p4 192 168 0 0 16; p4 169 254 0 0 16; p4 224 0 0 0 4;
   mkPrefix false 1 128; p6 0xfc00 0 7; p6 0xfe80 0 10; p6 0xff00 0 8] ++ specialUsePrefixes.

Definition in_blocks (l : list prefix) (a : addr) : bool :=
  existsb (fun p => Bool.eqb (p_is4 p) (Is4 a) && in_block p (a_num a)) l.

Lemma Unmap_zone a : hasZone a = false -> hasZone (Unmap a) = false.
Proof. unfold Unmap. by destruct (Is4In6 a). Qed.

Lemma Unmap_range a : in_range a -> in_range (Unmap a).
Proof.
  unfold Unmap. destruct (Is4In6 a); [|done]. intros _. unfold in_range. cbn [Is4 a_kind a_num width].
  change (2 ^ 32 - 1) with (Z.ones 32). rewrite Z.land_ones by lia. apply Z.mod_pos_bound. lia.
Qed.

(** Every listed prefix has a length its width allows. *)
Lemma prefixes_bits : Forall (fun p => 0 <= p_bits p <= width (p_is4 p)) specialUsePrefixes.
Proof. repeat constructor; vm_compute; discriminate. Qed.

Lemma prefixes_blocks a :
  hasZone a = false ->
  existsb (fun p => Bool.eqb (p_is4 p) (Is4 a) && Contains p a) specialUsePrefixes = in_blocks specialUsePrefixes a.
Proof.
  intros Hz. unfold in_blocks. generalize prefixes_bits. generalize specialUsePrefixes as l.
  induction l as [|p l IH]; intros Hl; [done|]. simpl. apply Forall_cons in Hl as [Hp Hl].
  rewrite Contains_block, IH by done. by destruct (Bool.eqb _ _).
Qed.

(** For an address without a zone the guard's tests on bytes and its
    prefix list say exactly that the address, read as IPv4 when it is an
    IPv4-mapped one, lies in one of the special-use blocks: loopback, private,
    link-local, multicast and the listed ranges. *)
Theorem isSpecialUse_blocks a :
  in_range a -> hasZone a = false -> isSpecialUse a = in_blocks special_blocks (Unmap a).
Proof.
  intros Hr Hz. unfold isSpecialUse. apply Unmap_range in Hr. apply Unmap_zone in Hz.
  generalize dependent (Unmap a). intros b Hr Hz.
  replace (IsLoopback b || IsUnspecified b || IsPrivate b || IsLinkLocalUnicast b || IsLinkLocalMulticast b ||
           IsMulticast b || IsInterfaceLocalMulticast b)
    with (IsLoopback b || IsUnspecified b || IsPrivate b || IsLinkLocalUnicast b ||
          (IsLinkLocalMulticast b || IsMulticast b || IsInterfaceLocalMulticast b)) by (by rewrite !orb_assoc).
  rewrite IsLoopback_block, IsUnspecified_block, IsPrivate_block, IsLinkLocalUnicast_block, multicast_block,
    prefixes_blocks by done.
  unfold special_blocks, in_blocks. rewrite existsb_app.
  set (rest := existsb _ specialUsePrefixes) at 2.
  assert (in_block (p4 0 0 0 0 32) (a_num b) = true -> Is4 b = true -> rest = true) as H4.
  { intros H E. unfold rest. simpl. rewrite E. cbn [Bool.eqb andb].
    replace (in_block (p4 0 0 0 0 8) (a_num b)) with true; [done|]. revert H.
    unfold in_block, p4. cbn [p_num p_is4 p_bits width]. rewrite num4. eval_pow2.
    rewrite Z.eqb_eq. intros H. symmetry. apply Z.eqb_eq. Z.to_euclidean_division_equations. lia. }
  assert (in_block (p6 0 0 128) (a_num b) = true -> Is4 b = false -> rest = true) as H6.
  { intros H E. unfold rest. simpl. rewrite E, H. simpl. by rewrite ?orb_true_r. }
  fold rest. cbn [existsb]. unfold p4, p6 in *. cbn [p_is4] in *. destruct (Is4 b); cbn [Bool.eqb andb orb].
  - destruct (in_block (mkPrefix true (num_of_bytes [0; 0; 0; 0]) 32) (a_num b)); [rewrite H4 by done|];
      rewrite ?orb_true_r, ?orb_false_r; [destruct (_ || _); done|].
    destruct rest; rewrite ?orb_true_r, ?orb_false_r; [by destruct (_ || _)|].
    by rewrite !orb_assoc; destruct (_ || _).
  - destruct (in_block (mkPrefix false (0 * 2 ^ 112 + 0 * 2 ^ 96) 128) (a_num b)); [rewrite H6 by done|];
      rewrite ?orb_true_r, ?orb_false_r; [destruct (_ || _); done|].
    destruct rest; rewrite ?orb_true_r, ?orb_false_r; [by destruct (_ || _)|].
    by rewrite !orb_assoc; destruct (_ || _).
Qed.

Definition ex_public : addr := mkAddr K4 (num_of_bytes [93; 184; 216; 34]).

Lemma isSpecialUse_blocks_witness :
  isSpecialUse ex_public = in_blocks special_blocks (Unmap ex_public) /\ isSpecialUse ex_public = false.
Proof.
  split; [|vm_compute; reflexivity]. apply (isSpecialUse_blocks ex_public); [split; vm_compute; congruence|reflexivity].
Defined.

(** The guard without the development switch lets a connection proceed
    only over TCP to an address literal; unless the literal carries a zone, it
    is, also as the IPv4 address an IPv6 one embeds, outside every special-use
    block. *)
Theorem checkDialAddress_safe network address :
  checkDialAddress false network address = None ->
  HasPrefix network "tcp" = true /\
  exists host port a, SplitHostPort address = Some (host, port) /\ Netip.ParseAddr host = Some a /\
    (hasZone a = false -> in_blocks special_blocks (Unmap a) = false).
Proof.
  unfold checkDialAddress. destruct (HasPrefix network "tcp"); [|done]. cbn [negb].
  destruct (SplitHostPort address) as [[host port]|] eqn:Hs; [|done].
  destruct (Netip.ParseAddr host) as [a|] eqn:Ha; [|done]. cbn [negb andb]. rewrite andb_true_r.
  destruct (isSpecialUse a) eqn:Hu; [done|]. intros _. split; [done|]. exists host, port, a. split_and!; [done|done|].
  intros Hz. rewrite <- isSpecialUse_blocks; [done| |done]. by eapply ParseAddr_range.
Qed.

Lemma checkDialAddress_safe_witness :
  exists host port a, SplitHostPort "93.184.216.34:443" = Some (host, port) /\ Netip.ParseAddr host = Some a /\
    (hasZone a = false -> in_blocks special_blocks (Unmap a) = false).
Proof. apply (checkDialAddress_safe "tcp4" "93.184.216.34:443"). vm_compute. reflexivity. Defined.

(** The zone is the gap: a client id whose host is the unspecified address
    with a zone is a valid client id, and neither the unspecified-address test
    nor a prefix matches an address that has a zone, so the guard lets the
    connection proceed. The same holds for the prefix that translates to IPv4
    addresses. *)
Theorem zoned_address_passes_guard :
  (exists u, ValidateClientIDURL "https://[::%25lo]/client.json" = inl u /\ Hostname u = "::%lo"%string) /\
  checkDialAddress false "tcp6" "[::%lo]:443" = None /\
  checkDialAddress false "tcp6" "[::]:443" = Some SpecialUse /\
  checkDialAddress false "tcp6" "[64:ff9b::7f00:1%lo]:443" = None /\
  checkDialAddress false "tcp6" "[64:ff9b::7f00:1]:443" = Some SpecialUse.
Proof. split; [eexists; split; vm_compute; reflexivity|]. split_and!; vm_compute; reflexivity. Qed.

(** The development switch admits loopback addresses only; private ones stay
    refused. *)
Theorem allow_loopback_excludes_private :
  checkDialAddress true "tcp4" "127.0.0.1:443" = None /\ checkDialAddress true "tcp4" "10.0.0.1:443" = Some SpecialUse.
Proof. split; vm_compute; reflexivity. Qed.

(** ** The cache *)

Section Cache.
Variable ToLower : string -> string.
Variable Decode : string -> option ClientMetadata.
Variable ParseTime : string -> option Z.
Variable policy : ClientPolicy.
Abbreviation step := (fetch_step ToLower Decode ParseTime policy).

(** What a fetched document went through. *)
Definition vetted (f : Fetcher) (url : string) (doc : ClientMetadata) : Prop :=
  document_ok policy url doc /\
  exists u, ValidateClientIDURL url = inl u /\ ToLower (Hostname u) ∉ blocked f /\
    (allowed f <> ∅ -> ToLower (Hostname u) ∈ allowed f).

Definition cache_vetted (f : Fetcher) : Prop :=
  wf (f_cache f) /\ forall url e, st_m (f_cache f) !! url = Some e -> vetted f url (cd_Doc (value e)).

Lemma fetchUncached_vetted f now url res doc ttl :
  fetchUncached ToLower Decode ParseTime f now url policy res = inl (doc, ttl) -> vetted f url doc.
Proof.
  unfold fetchUncached, check_host. destruct (ValidateClientIDURL url) as [u|] eqn:Hu; [|done].
  case_bool_decide as Hb; [done|]. destruct (_ && _) eqn:Ha; [done|].
  assert (allowed f <> ∅ -> ToLower (Hostname u) ∈ allowed f) as Hallow.
  { intros Hne. apply andb_false_iff in Ha as [Ha|Ha].
    - apply negb_false_iff, Nat.eqb_eq in Ha. by apply size_empty_inv, leibniz_equiv in Ha.
    - apply negb_false_iff in Ha. by apply bool_decide_eq_true in Ha. }
  clear Ha. unfold read_document. destruct res as [res|]; [|done]. destruct (negb _); [done|]. destruct (negb _); [done|].
  destruct (Body res) as [body|]; [|done]. destruct (_ >? _); [done|]. destruct (Decode body) as [d|]; [|done].
  destruct (ValidateDocument d url policy) as [d'|] eqn:Hd; [|done]. intros [= <- <-].
  split; [by apply ValidateDocument_ok in Hd as [? _]|]. by exists u.
Qed.

Lemma step_params f e : blocked (step f e) = blocked f /\ allowed (step f e) = allowed f.
Proof.
  destruct e as [now url|now url res|url]; simpl; [|unfold fetch_store|done].
  - unfold fetch_lookup. by destruct (Get _ _ _).
  - by destruct (fetchUncached _ _ _ _ _ _ _ _) as [[doc ttl]|e].
Qed.

Lemma step_vetted f e : cache_vetted f -> cache_vetted (step f e).
Proof.
  intros [Hwf Hv].
  assert (forall m : gmap string (entry cachedDocument), m ⊆ st_m (f_cache f) -> forall url e, m !! url = Some e -> vetted f url (cd_Doc (value e)))
    as Hsub by (intros m Hm url x Hx; eapply Hv, lookup_weaken; done).
  destruct e as [now url|now url res|url]; cbn [fetch_step].
  - unfold fetch_lookup. destruct (Get (f_cache f) now url) as [hit c] eqn:E. cbn [snd].
    assert (c = snd (Get (f_cache f) now url)) as -> by by rewrite E. destruct (Get_store (f_cache f) now url) as [Hg|Hg];
      rewrite Hg; split; cbn [set_cache f_cache]; [done|exact Hv|by apply deleteLocked_wf|].
    rewrite deleteLocked_m. apply Hsub, delete_subseteq.
  - unfold fetch_store. destruct (fetchUncached _ _ _ _ _ _ _ _) as [[doc ttl]|e] eqn:E; [|done].
    cbn [snd]. split; cbn [set_cache f_cache]; [by apply PutTTL_wf|]. intros url' x Hx. rewrite PutTTL_eq in Hx. cbn [st_m] in Hx.
    destruct (decide (url' = url)) as [->|Hne].
    + rewrite lookup_insert_eq in Hx. injection Hx as <-. cbn [value cd_Doc]. by eapply fetchUncached_vetted.
    + rewrite lookup_insert_ne in Hx by done. by eapply Hsub; [apply put_base_sub|].
  - split; cbn [Invalidate set_cache f_cache]; [by apply deleteLocked_wf|]. unfold Delete. rewrite deleteLocked_m.
    apply Hsub, delete_subseteq.
Qed.

Lemma steps_vetted f evs :
  cache_vetted f ->
  cache_vetted (foldl step f evs) /\ blocked (foldl step f evs) = blocked f /\ allowed (foldl step f evs) = allowed f.
Proof.
  revert f. induction evs as [|e evs IH]; intros f Hf; [done|]. simpl.
  destruct (step_params f e) as [<- <-]. by apply IH, step_vetted.
Qed.

Lemma NewFetcher_vetted p : cache_vetted (NewFetcher ToLower p).
Proof. split; [apply New_wf|]. intros url e He. cbn in He. by rewrite lookup_empty in He. Qed.

(** A document the fetcher hands out, fresh or cached, was vetted. *)
Lemma Fetch_vetted f t url doc hit f' :
  cache_vetted f -> Fetch ToLower Decode ParseTime f t url policy = (inl (doc, hit), f') -> vetted f url doc.
Proof.
  intros Hf. unfold Fetch. destruct (fetch_lookup f (fg_now t) url) as [o f1] eqn:Hl.
  assert (f1 = step f (FLook (fg_now t) url)) as Hf1 by (simpl; by rewrite Hl).
  destruct o as [d|].
  - intros [= -> <- <-]. unfold fetch_lookup in Hl. destruct (Get _ _ _) as [g c] eqn:Hg. injection Hl as Hd _.
    apply fmap_Some in Hd as (cd & -> & ->). unfold Get in Hg.
    destruct (st_m (f_cache f) !! url) as [e|] eqn:He; [|done]. destruct (After e _); [|done]. injection Hg as <- _.
    destruct Hf as [_ Hf]. by apply Hf.
  - destruct (fetch_store _ _ _ _ _ _ _ _) as [[d|e] f2] eqn:Hs; [|done]. intros [= -> <- <-].
    unfold fetch_store in Hs. destruct (fetchUncached _ _ _ _ _ _ _ _) as [[d ttl]|e] eqn:E; [|done].
    injection Hs as -> _. apply fetchUncached_vetted in E.
    destruct (steps_vetted f1 (fg_others t)) as (_ & Hb & Ha); [rewrite Hf1; by apply step_vetted|].
    destruct (step_params f (FLook (fg_now t) url)) as [Hb1 Ha1].
    unfold vetted in *. rewrite Hb, Ha, Hf1, Hb1, Ha1 in E. done.
Qed.

(** Whatever the fetcher has been through and whatever runs beside the
    call, a document it hands out, fresh or cached, was checked against the
    policy for that very client id, whose URL is valid and whose host is
    neither blocked nor missing from the list of allowed hosts. *)
Theorem Fetch_document_vetted p evs t url doc hit f' :
  Fetch ToLower Decode ParseTime (foldl step (NewFetcher ToLower p) evs) t url policy = (inl (doc, hit), f') ->
  document_ok policy url doc /\
  exists u, ValidateClientIDURL url = inl u /\
    ToLower (Hostname u) ∉ lowerSet ToLower (BlockedHosts p) /\
    (lowerSet ToLower (AllowedHosts p) <> ∅ -> ToLower (Hostname u) ∈ lowerSet ToLower (AllowedHosts p)).
Proof.
  intros H. destruct (steps_vetted (NewFetcher ToLower p) evs (NewFetcher_vetted p)) as (Hv & Hb & Ha).
  apply Fetch_vetted in H; [|done]. unfold vetted in H. by rewrite Hb, Ha in H.
Qed.

(** However absurd the headers, a document is cached for no less than the
    configured minimum and no more than the maximum. *)
Theorem cacheTTL_bounds p now res :
  CacheMin p <= CacheMax p -> CacheMin p <= cacheTTL ToLower ParseTime p now res <= CacheMax p.
Proof.
  intros Hp. assert (forall ttl, CacheMin p <= clamp p ttl <= CacheMax p) as Hc by (intros; unfold clamp; split_ifs; lia).
  unfold cacheTTL. destruct (_ || _); [lia|]. destruct (Contains_str _ _); apply Hc.
Qed.

End Cache.

Definition ex_fetch_params : FetcherParams := mkFetcherParams false [] ["evil.example"%string] 0 0.
Definition ex_decode (s : string) : option ClientMetadata := if bool_decide (s = "doc"%string) then Some ex_doc else None.
Definition ex_response : response := mkResponse 200 "application/json; charset=utf-8" "max-age=600" "" (Some "doc"%string).

Lemma Fetch_document_vetted_witness :
  document_ok ex_policy "https://app.example/c.json" (normalized ex_doc "none").
Proof.
  refine (proj1 (Fetch_document_vetted ToLower_ascii ex_decode (fun _ => None) ex_policy ex_fetch_params []
    (mkFetching 0 [] 5 (Some ex_response)) "https://app.example/c.json" (normalized ex_doc "none") false _ _)).
  vm_compute. reflexivity.
Defined.

Lemma cacheTTL_bounds_witness :
  300 * second <= cacheTTL ToLower_ascii (fun _ => None) (params (NewFetcher ToLower_ascii ex_fetch_params)) 0 ex_response <= 86400 * second.
Proof. apply (cacheTTL_bounds ToLower_ascii (fun _ => None) (params (NewFetcher ToLower_ascii ex_fetch_params)) 0 ex_response). vm_compute. congruence. Defined.

(** A lifetime above what a Duration can hold wraps to a negative one, so
    a host that asks for three centuries gets the minimum instead of the
    maximum. *)
Theorem huge_max_age_wraps :
  let p := params (NewFetcher ToLower_ascii ex_fetch_params) in
  let res age := mkResponse 200 "application/json" age "" None in
  cacheTTL ToLower_ascii (fun _ => None) p 0 (res "max-age=9223372036"%string) = CacheMax p /\
  cacheTTL ToLower_ascii (fun _ => None) p 0 (res "max-age=9223372037"%string) = CacheMin p.
Proof. split; vm_compute; reflexivity. Qed.
