(* ===== verification/KeyedMutex.v ===== *)
(** * The mutex per key (internal/hydra/cimd_resolver.go, keyedMutex)

    A map from keys to reference-counted mutexes, pruned by the last releaser.
    A caller goes through four atomic steps: it takes a reference under the map
    lock, locks the entry, unlocks it, and drops its reference under the map
    lock. Callers interleave at will. *)
From S2P Require Import Prelude.

(** ** State *)

(** An entry is an object: callers keep it after the map has dropped it. *)
Record keyedEntry := mkEntry { e_locked : bool; refs : Z }.

(** Where a caller is: it waits for its entry, it holds it, or it has unlocked
    it and not yet dropped its reference. *)
Inductive phase := Waiting | Holding | Unlocked.
#[export] Instance phase_eq_dec : EqDecision phase.
Proof. solve_decision. Defined.

Record caller := mkCaller { c_key : string; c_entry : nat; c_phase : phase }.

Record keyedMutex := mkKeyed {
  entries : gmap string nat;        (** the map: each key's entry *)
  heap : gmap nat keyedEntry;       (** the entries ever made *)
  fresh : nat;
  callers : gmap nat caller         (** the calls in flight *)
}.

Definition newKeyedMutex : keyedMutex := mkKeyed ∅ ∅ 0 ∅.

(** ** Steps *)

(** The entry of the key, made when there is none. *)
Definition find_entry (k : keyedMutex) (key : string) : keyedMutex * nat :=
  match entries k !! key with
  | Some e => (k, e)
  | None =>
      (mkKeyed (<[key := fresh k]> (entries k)) (<[fresh k := mkEntry false 0]> (heap k)) (S (fresh k)) (callers k), fresh k)
  end.

Definition add_refs (h : gmap nat keyedEntry) (e : nat) (d : Z) : gmap nat keyedEntry :=
  alter (fun x => mkEntry (e_locked x) (refs x + d)) e h.

Definition set_locked (h : gmap nat keyedEntry) (e : nat) (b : bool) : gmap nat keyedEntry :=
  alter (fun x => mkEntry b (refs x)) e h.

(** The first critical section of [lock]. *)
Definition lock_ref (k : keyedMutex) (t : nat) (key : string) : keyedMutex :=
  let '(k, e) := find_entry k key in
  mkKeyed (entries k) (add_refs (heap k) e 1) (fresh k) (<[t := mkCaller key e Waiting]> (callers k)).

(** The second critical section of the release function. *)
Definition release_ref (k : keyedMutex) (t : nat) (c : caller) : keyedMutex :=
  let h := add_refs (heap k) (c_entry c) (-1) in
  mkKeyed
    (match h !! c_entry c with
     | Some x => if refs x =? 0 then delete (c_key c) (entries k) else entries k
     | None => entries k
     end) h (fresh k) (delete t (callers k)).

Definition with_phase (k : keyedMutex) (t : nat) (c : caller) (p : phase) (locked : bool) : keyedMutex :=
  mkKeyed (entries k) (set_locked (heap k) (c_entry c) locked) (fresh k)
    (<[t := mkCaller (c_key c) (c_entry c) p]> (callers k)).

Inductive kstep : keyedMutex -> keyedMutex -> Prop :=
  | KRef k t key : callers k !! t = None -> kstep k (lock_ref k t key)
  | KLock k t c x :
      callers k !! t = Some c -> c_phase c = Waiting -> heap k !! c_entry c = Some x -> e_locked x = false ->
      kstep k (with_phase k t c Holding true)
  | KUnlock k t c :
      callers k !! t = Some c -> c_phase c = Holding -> kstep k (with_phase k t c Unlocked false)
  | KRelease k t c :
      callers k !! t = Some c -> c_phase c = Unlocked -> kstep k (release_ref k t c).

Inductive kreach : keyedMutex -> Prop :=
  | KInit : kreach newKeyedMutex
  | KStep k k' : kreach k -> kstep k k' -> kreach k'.

(** [len]. *)
Definition len (k : keyedMutex) : nat := size (entries k).

(** ** Counting callers *)

Definition uses (e : nat) (cs : gmap nat caller) : nat :=
  size (filter (fun x => c_entry (snd x) = e) cs).

Definition hit (e : nat) (c : caller) : nat := if decide (c_entry c = e) then 1 else 0.

Lemma uses_new e (cs : gmap nat caller) t c : cs !! t = None -> uses e (<[t := c]> cs) = (hit e c + uses e cs)%nat.
Proof.
  intros Hn. unfold uses, hit. destruct (decide (c_entry c = e)) as [He|He].
  - rewrite map_filter_insert_True by done. rewrite map_size_insert_None; [done|].
    apply map_lookup_filter_None. by left.
  - rewrite map_filter_insert_False by done. by rewrite delete_id.
Qed.

Lemma uses_split e (cs : gmap nat caller) t c : cs !! t = Some c -> uses e cs = (hit e c + uses e (delete t cs))%nat.
Proof.
  intros Hs. rewrite <- (insert_delete_id _ _ _ Hs) at 1. apply uses_new. apply lookup_delete_eq.
Qed.

Lemma uses_update e (cs : gmap nat caller) t c c' :
  cs !! t = Some c -> c_entry c' = c_entry c -> uses e (<[t := c']> cs) = uses e cs.
Proof.
  intros Hs Heq. rewrite (uses_split _ _ _ _ Hs), <- insert_delete_eq, uses_new by apply lookup_delete_eq.
  unfold hit. by rewrite Heq.
Qed.

Lemma uses_pos e (cs : gmap nat caller) t c : cs !! t = Some c -> c_entry c = e -> (0 < uses e cs)%nat.
Proof. intros Hs <-. rewrite (uses_split _ _ _ _ Hs). unfold hit. rewrite decide_True by done. lia. Qed.

Lemma uses_witness e (cs : gmap nat caller) : (0 < uses e cs)%nat -> exists t c, cs !! t = Some c /\ c_entry c = e.
Proof.
  unfold uses. intros H. destruct (map_choose (filter (fun x => c_entry (snd x) = e) cs)) as (t & c & Hc).
  - intros Hn. rewrite Hn, map_size_empty in H. lia.
  - apply map_lookup_filter_Some in Hc as [Hc He]. by exists t, c.
Qed.

(** ** The invariant *)

Record kinv (k : keyedMutex) : Prop := mkInv {
  ki_refs : forall e x, heap k !! e = Some x -> refs x = Z.of_nat (uses e (callers k));
  ki_caller : forall t c, callers k !! t = Some c -> entries k !! c_key c = Some (c_entry c);
  ki_live : forall key e, entries k !! key = Some e -> (0 < uses e (callers k))%nat /\ is_Some (heap k !! e);
  ki_inj : forall k1 k2 e, entries k !! k1 = Some e -> entries k !! k2 = Some e -> k1 = k2;
  ki_fresh : forall e, is_Some (heap k !! e) -> (e < fresh k)%nat;
  ki_one : forall t1 t2 c1 c2, callers k !! t1 = Some c1 -> callers k !! t2 = Some c2 ->
    c_entry c1 = c_entry c2 -> c_phase c1 = Holding -> c_phase c2 = Holding -> t1 = t2;
  ki_locked : forall t c, callers k !! t = Some c -> c_phase c = Holding ->
    exists x, heap k !! c_entry c = Some x /\ e_locked x = true;
  ki_held : forall e x, heap k !! e = Some x -> e_locked x = true ->
    exists t c, callers k !! t = Some c /\ c_entry c = e /\ c_phase c = Holding
}.

Lemma kinv_new : kinv newKeyedMutex.
Proof. split; unfold newKeyedMutex; simpl; intros; simplify_map_eq; done. Qed.

Lemma add_refs_lookup h e d e' x :
  add_refs h e d !! e' = Some x ->
  exists y, h !! e' = Some y /\ x = mkEntry (e_locked y) (refs y + (if decide (e' = e) then d else 0)).
Proof.
  unfold add_refs. destruct (decide (e' = e)) as [->|Hne].
  - rewrite lookup_alter_eq. intros H. apply fmap_Some in H as (y & Hy & ->). eauto.
  - rewrite lookup_alter_ne by done. intros H. exists x. split; [done|]. destruct x as [b n]. simpl. by rewrite Z.add_0_r.
Qed.

Lemma add_refs_is_Some h e d e' : is_Some (add_refs h e d !! e') <-> is_Some (h !! e').
Proof.
  unfold add_refs. destruct (decide (e' = e)) as [->|Hne]; [rewrite lookup_alter_eq; by rewrite fmap_is_Some|].
  by rewrite lookup_alter_ne by done.
Qed.

Lemma fresh_entry k t c : kinv k -> callers k !! t = Some c -> c_entry c <> fresh k.
Proof.
  intros Hi Hc Heq. apply (ki_caller k Hi) in Hc. apply (ki_live k Hi) in Hc as [_ Hh].
  apply (ki_fresh k Hi) in Hh. lia.
Qed.

(** Taking a reference on an entry the map has. *)
Lemma ref_inv k t key e :
  kinv k -> callers k !! t = None -> entries k !! key = Some e ->
  kinv (mkKeyed (entries k) (add_refs (heap k) e 1) (fresh k) (<[t := mkCaller key e Waiting]> (callers k))).
Proof.
  intros Hi Ht He. split; cbn [entries heap fresh callers].
  - intros e' x Hx. apply add_refs_lookup in Hx as (y & Hy & ->). cbn [refs]. rewrite (ki_refs k Hi _ _ Hy), uses_new by done.
    unfold hit. cbn [c_entry]. destruct (decide (e' = e)), (decide (e = e')); subst; lia || done.
  - intros t' c Hc. destruct (decide (t' = t)) as [->|Hne]; [rewrite lookup_insert_eq in Hc; by simplify_eq|].
    rewrite lookup_insert_ne in Hc by done. by apply (ki_caller k Hi) in Hc.
  - intros key' e' H'. destruct (ki_live k Hi _ _ H') as [Hu Hh]. split; [|by apply add_refs_is_Some].
    rewrite uses_new by done. lia.
  - apply (ki_inj k Hi).
  - intros e' H'. apply add_refs_is_Some in H'. by apply (ki_fresh k Hi).
  - intros t1 t2 c1 c2 H1 H2 Heq Hp1 Hp2. rewrite lookup_insert_Some in H1, H2.
    destruct H1 as [[_ <-]|[_ H1]]; [done|]. destruct H2 as [[_ <-]|[_ H2]]; [done|]. by apply (ki_one k Hi t1 t2 c1 c2).
  - intros t' c Hc Hp. rewrite lookup_insert_Some in Hc. destruct Hc as [[_ <-]|[_ Hc]]; [done|].
    destruct (ki_locked k Hi _ _ Hc Hp) as (x & Hx & Hl). unfold add_refs.
    destruct (decide (c_entry c = e)) as [<-|Hne]; [rewrite lookup_alter_eq, Hx; by eexists|].
    rewrite lookup_alter_ne by done. eauto.
  - intros e' x Hx Hl. apply add_refs_lookup in Hx as (y & Hy & ->). cbn [e_locked] in Hl.
    destruct (ki_held k Hi _ _ Hy Hl) as (t' & c & Hc & ? & ?). exists t', c. rewrite lookup_insert_ne; [done|].
    intros ->. by rewrite Ht in Hc.
Qed.

(** A new entry is in the map with its first reference. *)
Lemma ref_new_inv k t key :
  kinv k -> callers k !! t = None -> entries k !! key = None -> kinv (lock_ref k t key).
Proof.
  intros Hi Ht Hn. unfold lock_ref, find_entry. rewrite Hn. cbn [entries heap fresh callers].
  assert (heap k !! fresh k = None) as Hf.
  { destruct (heap k !! fresh k) eqn:E; [|done]. pose proof (ki_fresh k Hi (fresh k) ltac:(eauto)). lia. }
  assert (uses (fresh k) (callers k) = 0%nat) as Hu0.
  { destruct (uses (fresh k) (callers k)) eqn:E; [done|]. destruct (uses_witness (fresh k) (callers k)) as (t' & c & Hc & He); [lia|].
    by apply (fresh_entry k t' c Hi) in Hc. }
  assert (forall key' e, entries k !! key' = Some e -> e <> fresh k) as Hne.
  { intros key' e He ->. destruct (ki_live k Hi _ _ He) as [Hu _]. lia. }
  split; cbn [entries heap fresh callers].
  - intros e x Hx. apply add_refs_lookup in Hx as (y & Hy & ->). cbn [refs]. rewrite uses_new by done.
    unfold hit. cbn [c_entry]. rewrite lookup_insert_Some in Hy. destruct Hy as [[<- <-]|[Hne' Hy]].
    + rewrite !decide_True by done. rewrite Hu0. done.
    + rewrite !decide_False by done. rewrite (ki_refs k Hi _ _ Hy). lia.
  - intros t' c Hc. rewrite lookup_insert_Some in Hc. destruct Hc as [[_ <-]|[_ Hc]]; [by rewrite lookup_insert_eq|].
    apply (ki_caller k Hi) in Hc. rewrite lookup_insert_ne; [done|]. intros ->. by rewrite Hn in Hc.
  - intros key' e H'. rewrite add_refs_is_Some. rewrite uses_new by done. unfold hit. cbn [c_entry].
    rewrite lookup_insert_Some in H'. destruct H' as [[_ <-]|[_ H']].
    + rewrite decide_True by done. split; [lia|]. rewrite lookup_insert_eq. eauto.
    + destruct (ki_live k Hi _ _ H') as [? Hh]. split; [lia|]. rewrite lookup_insert_ne; [done|].
      intros <-. by apply (Hne _ _ H').
  - intros k1 k2 e H1 H2. rewrite lookup_insert_Some in H1, H2.
    destruct H1 as [[<- <-]|[_ H1]], H2 as [[<- Hx]|[_ H2]]; try done.
    + by apply Hne in H2.
    + subst. by apply Hne in H1.
    + by eapply (ki_inj k Hi).
  - intros e H'. apply add_refs_is_Some in H' as [x Hx]. rewrite lookup_insert_Some in Hx.
    destruct Hx as [[<- _]|[_ Hx]]; [lia|]. pose proof (ki_fresh k Hi e ltac:(eauto)). lia.
  - intros t1 t2 c1 c2 H1 H2 Heq Hp1 Hp2. rewrite lookup_insert_Some in H1, H2.
    destruct H1 as [[_ <-]|[_ H1]]; [done|]. destruct H2 as [[_ <-]|[_ H2]]; [done|]. by apply (ki_one k Hi t1 t2 c1 c2).
  - intros t' c Hc Hp. rewrite lookup_insert_Some in Hc. destruct Hc as [[_ <-]|[_ Hc]]; [done|].
    destruct (ki_locked k Hi _ _ Hc Hp) as (x & Hx & Hl). exists x. split; [|done]. unfold add_refs.
    pose proof (fresh_entry k t' c Hi Hc). rewrite lookup_alter_ne, lookup_insert_ne by done. done.
  - intros e x Hx Hl. apply add_refs_lookup in Hx as (y & Hy & ->). cbn [e_locked] in Hl.
    rewrite lookup_insert_Some in Hy. destruct Hy as [[_ <-]|[_ Hy]]; [done|].
    destruct (ki_held k Hi _ _ Hy Hl) as (t' & c & Hc & ? & ?). exists t', c. rewrite lookup_insert_ne; [done|].
    intros ->. by rewrite Ht in Hc.
Qed.

Lemma lock_ref_inv k t key : kinv k -> callers k !! t = None -> kinv (lock_ref k t key).
Proof.
  intros Hi Ht. destruct (entries k !! key) as [e|] eqn:E; [|by apply ref_new_inv].
  unfold lock_ref, find_entry. rewrite E. by apply ref_inv.
Qed.

Lemma set_locked_lookup h e b e' :
  set_locked h e b !! e' = (fun x => if decide (e' = e) then mkEntry b (refs x) else x) <$> h !! e'.
Proof.
  unfold set_locked. destruct (decide (e' = e)) as [->|Hne]; [by rewrite lookup_alter_eq|].
  rewrite lookup_alter_ne by done. by destruct (h !! e').
Qed.

(** A change of phase keeps the counts and the map. *)
Lemma phase_inv k t c p b :
  kinv k -> callers k !! t = Some c ->
  (p = Holding -> b = true /\ forall t' c', callers k !! t' = Some c' -> c_entry c' = c_entry c -> c_phase c' <> Holding) ->
  (p <> Holding -> c_phase c = Holding /\ b = false) ->
  kinv (with_phase k t c p b).
Proof.
  intros Hi Hc Hp Hq. unfold with_phase. split; cbn [entries heap fresh callers].
  - intros e x Hx. rewrite set_locked_lookup in Hx. apply fmap_Some in Hx as (y & Hy & ->).
    rewrite (uses_update _ _ _ _ _ Hc) by done. rewrite <- (ki_refs k Hi _ _ Hy). by destruct (decide _).
  - intros t' c' Hc'. rewrite lookup_insert_Some in Hc'. destruct Hc' as [[_ <-]|[_ Hc']];
      [exact (ki_caller k Hi _ _ Hc)|exact (ki_caller k Hi _ _ Hc')].
  - intros key e H'. rewrite (uses_update _ _ _ _ _ Hc) by done. destruct (ki_live k Hi _ _ H') as [? Hh]. split; [done|].
    rewrite set_locked_lookup. by rewrite fmap_is_Some.
  - apply (ki_inj k Hi).
  - intros e H'. rewrite set_locked_lookup, fmap_is_Some in H'. by apply (ki_fresh k Hi).
  - intros t1 t2 c1 c2 H1 H2 Heq Hp1 Hp2. rewrite lookup_insert_Some in H1, H2.
    destruct H1 as [[<- <-]|[Hn1 H1]], H2 as [[<- <-]|[Hn2 H2]]; cbn [c_phase c_entry] in *; [done| | |by apply (ki_one k Hi t1 t2 c1 c2)].
    + by destruct (proj2 (Hp Hp1) t2 c2 H2).
    + by destruct (proj2 (Hp Hp2) t1 c1 H1).
  - intros t' c' Hc' Hp'. rewrite lookup_insert_Some in Hc'. destruct Hc' as [[<- <-]|[Hn Hc']]; cbn [c_entry c_phase] in *.
    + destruct (Hp Hp') as [-> _]. rewrite set_locked_lookup.
      destruct (ki_live k Hi _ _ (ki_caller k Hi _ _ Hc)) as [_ [y Hy]]. rewrite Hy. simpl. rewrite decide_True by done. by eexists.
    + rewrite set_locked_lookup. destruct (ki_locked k Hi _ _ Hc' Hp') as (x & Hx & Hl). rewrite Hx. simpl.
      destruct (decide (c_entry c' = c_entry c)) as [Heq|]; [|by eexists]. eexists. split; [done|]. cbn [e_locked].
      destruct (decide (p = Holding)) as [Hh|Hh]; [by apply Hp in Hh as [? _]|].
      exfalso. apply Hn. symmetry. eapply (ki_one k Hi); [exact Hc'|exact Hc|done|done|by apply Hq].
  - intros e x Hx Hl. rewrite set_locked_lookup in Hx. apply fmap_Some in Hx as (y & Hy & ->).
    destruct (decide (e = c_entry c)) as [->|Hne]; cbn [e_locked] in Hl.
    + exists t. eexists. rewrite lookup_insert_eq. split; [done|]. split; [done|]. cbn [c_phase].
      destruct (decide (p = Holding)) as [|Hh]; [done|]. destruct (Hq Hh) as [_ ->]. done.
    + destruct (ki_held k Hi _ _ Hy Hl) as (t' & c' & Hc' & He & ?). exists t', c'. rewrite lookup_insert_ne; [done|].
      intros <-. rewrite Hc in Hc'. injection Hc' as <-. by rewrite He in Hne.
Qed.

Lemma uses_delete e (cs : gmap nat caller) t c :
  cs !! t = Some c -> (uses e (delete t cs) + hit e c = uses e cs)%nat.
Proof. intros Hc. rewrite (uses_split e cs t c Hc). lia. Qed.

(** Dropping a reference, and the entry with the last one. *)
Lemma release_inv k t c :
  kinv k -> callers k !! t = Some c -> c_phase c = Unlocked -> kinv (release_ref k t c).
Proof.
  intros Hi Hc Hp. unfold release_ref.
  destruct (ki_live k Hi _ _ (ki_caller k Hi _ _ Hc)) as [_ [x Hx]].
  assert (add_refs (heap k) (c_entry c) (-1) !! c_entry c = Some (mkEntry (e_locked x) (refs x - 1))) as Hx'.
  { unfold add_refs. rewrite lookup_alter_eq, Hx. done. }
  rewrite Hx'. cbn [refs].
  assert (refs x - 1 = Z.of_nat (uses (c_entry c) (delete t (callers k)))) as Hr.
  { rewrite (ki_refs k Hi _ _ Hx), (uses_split _ _ _ _ Hc). unfold hit. rewrite decide_True by done. lia. }
  set (ents := if refs x - 1 =? 0 then delete (c_key c) (entries k) else entries k).
  assert (forall key e, ents !! key = Some e -> entries k !! key = Some e) as Hsub.
  { intros key e. unfold ents. destruct (_ =? _); [|done]. rewrite lookup_delete_Some. tauto. }
  assert (forall t' c', delete t (callers k) !! t' = Some c' -> callers k !! t' = Some c') as Hcs.
  { intros t' c'. rewrite lookup_delete_Some. tauto. }
  split; cbn [entries heap fresh callers].
  - intros e y Hy. apply add_refs_lookup in Hy as (z & Hz & ->). cbn [refs]. rewrite (ki_refs k Hi _ _ Hz).
    rewrite <- (uses_delete e _ _ _ Hc). unfold hit. destruct (decide (e = c_entry c)), (decide (c_entry c = e)); subst; lia || done.
  - intros t' c' Hc'. pose proof (ki_caller k Hi _ _ (Hcs _ _ Hc')) as He. unfold ents.
    destruct (Z.eqb_spec (refs x - 1) 0) as [H0|]; [|done]. rewrite lookup_delete_ne; [done|]. intros Heq.
    assert (c_entry c' = c_entry c) as Hee.
    { pose proof (ki_caller k Hi _ _ Hc) as He2. rewrite Heq in He2. congruence. }
    pose proof (uses_pos _ _ _ _ Hc' Hee). lia.
  - intros key e He. pose proof (Hsub _ _ He) as He'. destruct (ki_live k Hi _ _ He') as [Hu Hh].
    split; [|by apply add_refs_is_Some]. destruct (decide (e = c_entry c)) as [->|Hne].
    + unfold ents in He. destruct (Z.eqb_spec (refs x - 1) 0) as [H0|H0]; [|lia].
      rewrite (ki_inj k Hi _ _ _ He' (ki_caller k Hi _ _ Hc)), lookup_delete_eq in He. done.
    + rewrite <- (uses_delete e _ _ _ Hc) in Hu. unfold hit in Hu. rewrite decide_False in Hu by done. lia.
  - intros k1 k2 e H1 H2. by eapply (ki_inj k Hi); eapply Hsub.
  - intros e H'. apply add_refs_is_Some in H'. by apply (ki_fresh k Hi).
  - intros t1 t2 c1 c2 H1 H2. by apply (ki_one k Hi); apply Hcs.
  - intros t' c' Hc' Hp'. destruct (ki_locked k Hi _ _ (Hcs _ _ Hc') Hp') as (y & Hy & Hl). unfold add_refs.
    destruct (decide (c_entry c' = c_entry c)) as [<-|Hne]; [rewrite lookup_alter_eq, Hy; by eexists|].
    rewrite lookup_alter_ne by done. eauto.
  - intros e y Hy Hl. apply add_refs_lookup in Hy as (z & Hz & ->). cbn [e_locked] in Hl.
    destruct (ki_held k Hi _ _ Hz Hl) as (t' & c' & Hc' & ? & ?). exists t', c'. rewrite lookup_delete_ne; [done|].
    intros <-. congruence.
Qed.

Lemma kstep_inv k k' : kinv k -> kstep k k' -> kinv k'.
Proof.
  intros Hi Hs. destruct Hs as [k t key Ht|k t c x Hc Hp Hx Hl|k t c Hc Hp|k t c Hc Hp].
  - by apply lock_ref_inv.
  - apply phase_inv; [done|done| |done]. intros _. split; [done|]. intros t' c' Hc' He Hp'.
    destruct (ki_locked k Hi _ _ Hc' Hp') as (y & Hy & Hl'). rewrite He in Hy. congruence.
  - by apply phase_inv.
  - by apply release_inv.
Qed.

Lemma kreach_inv k : kreach k -> kinv k.
Proof. induction 1 as [|k k' _ IH Hs]; [apply kinv_new|by eapply kstep_inv]. Qed.

(** ** Properties *)

(** However the callers interleave, no two of them hold one key at the
    same time. *)
Theorem keyed_mutex_exclusion k t1 t2 c1 c2 :
  kreach k -> callers k !! t1 = Some c1 -> callers k !! t2 = Some c2 -> c_key c1 = c_key c2 ->
  c_phase c1 = Holding -> c_phase c2 = Holding -> t1 = t2.
Proof.
  intros Hr%kreach_inv H1 H2 Hk. apply (ki_one k Hr _ _ _ _ H1 H2).
  pose proof (ki_caller k Hr _ _ H1). pose proof (ki_caller k Hr _ _ H2). congruence.
Qed.

(** The map holds exactly the keys of the calls in flight: it never
    outgrows them, and it is empty when there are none. *)
Theorem keyed_mutex_pruned k :
  kreach k ->
  (forall key, is_Some (entries k !! key) <-> exists t c, callers k !! t = Some c /\ c_key c = key) /\
  (len k <= size (callers k))%nat.
Proof.
  intros Hr%kreach_inv.
  assert (forall key, is_Some (entries k !! key) <-> exists t c, callers k !! t = Some c /\ c_key c = key) as Hkeys.
  { intros key. split.
    - intros [e He]. destruct (ki_live k Hr _ _ He) as [Hu _]. destruct (uses_witness _ _ Hu) as (t & c & Hc & <-).
      exists t, c. split; [done|]. eapply (ki_inj k Hr); [|done]. by apply (ki_caller k Hr) in Hc.
    - intros (t & c & Hc & <-). apply (ki_caller k Hr) in Hc. eauto. }
  split; [done|]. unfold len. rewrite <- !length_map_to_list.
  rewrite <- (length_fmap fst (map_to_list (entries k))), <- (length_fmap (fun x => c_key (snd x)) (map_to_list (callers k))).
  apply NoDup_incl_length; [apply NoDup_ListNoDup, NoDup_fst_map_to_list|].
  intros key Hin%list_elem_of_In. apply list_elem_of_fmap in Hin as ([key' e] & -> & He).
  apply elem_of_map_to_list in He. destruct (proj1 (Hkeys key')) as (t & c & Hc & Hk); [by exists e|].
  apply list_elem_of_In, list_elem_of_fmap. exists (t, c). split; [done|]. by apply elem_of_map_to_list.
Qed.

(** No deadlock: while calls are in flight, one of them can take a step. *)
Theorem keyed_mutex_progress k :
  kreach k -> callers k <> ∅ ->
  exists t c, callers k !! t = Some c /\
    match c_phase c with
    | Waiting => kstep k (with_phase k t c Holding true)
    | Holding => kstep k (with_phase k t c Unlocked false)
    | Unlocked => kstep k (release_ref k t c)
    end.
Proof.
  intros Hr%kreach_inv Hne. destruct (map_choose _ Hne) as (t & c & Hc).
  destruct (c_phase c) eqn:Hp.
  - destruct (ki_live k Hr _ _ (ki_caller k Hr _ _ Hc)) as [_ [x Hx]]. destruct (e_locked x) eqn:Hl.
    + destruct (ki_held k Hr _ _ Hx Hl) as (t' & c' & Hc' & _ & Hp'). exists t', c'. rewrite Hp'.
      split; [done|]. by constructor.
    + exists t, c. rewrite Hp. split; [done|]. by eapply KLock.
  - exists t, c. rewrite Hp. split; [done|]. by constructor.
  - exists t, c. rewrite Hp. split; [done|]. by constructor.
Qed.

(** Two callers of one key, one of a second; the first holds its entry. *)
Definition ex_waiting : keyedMutex := lock_ref (lock_ref (lock_ref newKeyedMutex 0 "a") 1 "a") 2 "b".
Definition ex_held : keyedMutex := with_phase ex_waiting 0 (mkCaller "a" 0 Waiting) Holding true.

Lemma ex_held_reach : kreach ex_held.
Proof.
  do 4 (eapply KStep; [|first [apply KRef; vm_compute; reflexivity|
    eapply KLock; [vm_compute; reflexivity..]]]). apply KInit.
Qed.

Lemma keyed_mutex_exclusion_witness : kreach ex_held /\ 0%nat = 0%nat.
Proof.
  split; [exact ex_held_reach|].
  refine (keyed_mutex_exclusion ex_held 0 0 (mkCaller "a" 0 Holding) (mkCaller "a" 0 Holding) ex_held_reach _ _ _ _ _);
    vm_compute; reflexivity.
Defined.

Lemma keyed_mutex_pruned_witness : kreach ex_held /\ (len ex_held <= size (callers ex_held))%nat /\ len ex_held = 2%nat.
Proof.
  split; [exact ex_held_reach|]. split; [exact (proj2 (keyed_mutex_pruned ex_held ex_held_reach))|vm_compute; reflexivity].
Defined.

Lemma keyed_mutex_progress_witness : exists t c, callers ex_held !! t = Some c.
Proof.
  destruct (keyed_mutex_progress ex_held ex_held_reach) as (t & c & Hc & _); [|exists t, c; exact Hc].
  intros H. apply (f_equal (fun m => m !! 0%nat)) in H. vm_compute in H. discriminate H.
Defined.
