(* ===== verification/Hydra.v ===== *)
(** * The authorization server's admin interface (internal/hydra/types.go, admin.go, ensure_client.go, clientevents.go)

    The handlers of the OAuth side talk to Hydra through the interface [Admin]:
    its operations on an arbitrary world, so that the theorems hold for every
    answer, honest or not, and for every change others make between two calls.
    [logged] records the calls; [ClientTable] is a world that keeps clients. *)
From S2P Require Import Prelude GoStrings Url Cimd.
From Stdlib Require Import Ascii.

(** ** Data *)

Record OAuth2Client := mkClient {
  oc_ClientID : string; oc_ClientName : string; oc_ClientSecret : string; oc_GrantTypes : list string;
  oc_ResponseTypes : list string; oc_Scope : string; oc_RedirectURIs : list string;
  oc_TokenEndpointAuthMethod : string; oc_JwksURI : string; oc_Jwks : json_object; oc_ClientURI : string;
  oc_Metadata : option json_object; oc_CreatedAt : string }.

Record AcceptLogin := mkAcceptLogin {
  al_Subject : string; al_Remember : bool; al_RememberFor : Z; al_freshLogin : bool }.

Record LoginRequest := mkLoginRequest { lr_Challenge : string; lr_Skip : bool; lr_Subject : string }.

Record ConsentRequest := mkConsentRequest {
  cr_Challenge : string; cr_Skip : bool; cr_Subject : string; cr_Client : OAuth2Client;
  cr_RequestedScope : list string; cr_RequestedAccessTokenAudience : list string; cr_Context : json_object }.

Record AcceptConsent := mkAcceptConsent {
  ac_GrantScope : list string; ac_GrantAccessTokenAudience : list string; ac_Remember : bool; ac_RememberFor : Z }.

Record LogoutRequest := mkLogoutRequest { lo_Challenge : string; lo_Subject : string; lo_Client : option OAuth2Client }.

(** An error of a call: an answer with a status, or no answer. *)
Inductive api_error := APIError (status : Z) | CallFailed.

(** The redirect of an accept answer is its target. *)
Class Admin (W : Type) := {
  AcceptLoginRequest : W -> string -> AcceptLogin -> (string + api_error) * W;
  GetLoginRequest : W -> string -> (LoginRequest + api_error) * W;
  GetConsentRequest : W -> string -> (ConsentRequest + api_error) * W;
  AcceptConsentRequest : W -> string -> AcceptConsent -> (string + api_error) * W;
  GetLogoutRequest : W -> string -> (LogoutRequest + api_error) * W;
  AcceptLogoutRequest : W -> string -> (string + api_error) * W;
  RejectLogoutRequest : W -> string -> (unit + api_error) * W;
  CreateClient : W -> OAuth2Client -> (OAuth2Client + api_error) * W;
  GetClient : W -> string -> (option OAuth2Client + api_error) * W;
  UpdateClient : W -> string -> OAuth2Client -> (OAuth2Client + api_error) * W
}.

(** ** The calls a handler makes *)

Inductive call :=
  | CallAcceptLogin (challenge : string) (body : AcceptLogin) (answer : string + api_error)
  | CallGetLogin (challenge : string) (answer : LoginRequest + api_error)
  | CallGetConsent (challenge : string) (answer : ConsentRequest + api_error)
  | CallAcceptConsent (challenge : string) (body : AcceptConsent) (answer : string + api_error)
  | CallGetLogout (challenge : string) (answer : LogoutRequest + api_error)
  | CallAcceptLogout (challenge : string) (answer : string + api_error)
  | CallRejectLogout (challenge : string)
  | CallCreate (client : OAuth2Client) (answer : OAuth2Client + api_error)
  | CallGet (clientID : string) (answer : option OAuth2Client + api_error)
  | CallUpdate (clientID : string) (client : OAuth2Client) (answer : OAuth2Client + api_error).

Section Logged.
Context {W : Type} `{!Admin W}.

Definition log1 {A} (r : A * W) (l : list call) (c : A -> call) : A * (W * list call) :=
  (fst r, (snd r, l ++ [c (fst r)])).

#[export] Instance logged : Admin (W * list call) := {|
  AcceptLoginRequest w ch b := log1 (AcceptLoginRequest (fst w) ch b) (snd w) (CallAcceptLogin ch b);
  GetLoginRequest w ch := log1 (GetLoginRequest (fst w) ch) (snd w) (CallGetLogin ch);
  GetConsentRequest w ch := log1 (GetConsentRequest (fst w) ch) (snd w) (CallGetConsent ch);
  AcceptConsentRequest w ch b := log1 (AcceptConsentRequest (fst w) ch b) (snd w) (CallAcceptConsent ch b);
  GetLogoutRequest w ch := log1 (GetLogoutRequest (fst w) ch) (snd w) (CallGetLogout ch);
  AcceptLogoutRequest w ch := log1 (AcceptLogoutRequest (fst w) ch) (snd w) (CallAcceptLogout ch);
  RejectLogoutRequest w ch := log1 (RejectLogoutRequest (fst w) ch) (snd w) (fun _ => CallRejectLogout ch);
  CreateClient w c := log1 (CreateClient (fst w) c) (snd w) (CallCreate c);
  GetClient w id := log1 (GetClient (fst w) id) (snd w) (CallGet id);
  UpdateClient w id c := log1 (UpdateClient (fst w) id c) (snd w) (CallUpdate id c)
|}.

End Logged.

(** ** A world that keeps clients, and answers the flows as it is told *)

Record ClientTable := mkTable {
  ct_clients : gmap string OAuth2Client;
  ct_login : option LoginRequest; ct_consent : option ConsentRequest; ct_logout : option LogoutRequest;
  ct_accept : option string }.

Definition answer_of {A} (o : option A) : A + api_error := match o with Some a => inl a | None => inr (APIError 404) end.

#[export] Instance ClientTable_Admin : Admin ClientTable := {|
  AcceptLoginRequest w _ _ := (answer_of (ct_accept w), w);
  GetLoginRequest w _ := (answer_of (ct_login w), w);
  GetConsentRequest w _ := (answer_of (ct_consent w), w);
  AcceptConsentRequest w _ _ := (answer_of (ct_accept w), w);
  GetLogoutRequest w _ := (answer_of (ct_logout w), w);
  AcceptLogoutRequest w _ := (answer_of (ct_accept w), w);
  RejectLogoutRequest w _ := (inl tt, w);
  CreateClient w c :=
    match ct_clients w !! oc_ClientID c with
    | Some _ => (inr (APIError 409), w)
    | None => (inl c, mkTable (<[oc_ClientID c := c]> (ct_clients w)) (ct_login w) (ct_consent w) (ct_logout w) (ct_accept w))
    end;
  GetClient w id := (inl (ct_clients w !! id), w);
  UpdateClient w id c :=
    match ct_clients w !! id with
    | None => (inr (APIError 404), w)
    | Some _ => (inl c, mkTable (<[id := c]> (ct_clients w)) (ct_login w) (ct_consent w) (ct_logout w) (ct_accept w))
    end
|}.

(** ** Registration events *)

Definition ClientOriginDCR : string := "dcr".
Definition ClientOriginCIMD : string := "cimd".
Definition ClientEventRegistered : string := "registered".
Definition ClientEventRefreshed : string := "refreshed".
Definition ClientEventRejected : string := "rejected".

Record ClientEvent := mkEvent {
  ev_ClientID : string; ev_Origin : string; ev_Event : string; ev_ClientName : string; ev_MetadataHost : string;
  ev_AuthMethod : string; ev_RedirectURIs : list string; ev_Scope : string; ev_Reason : string }.

(** ** The first-party client *)

Section EnsureSpa.
Context {W : Type} `{!Admin W}.

Definition spa_client (clientID redirectURI : string) : OAuth2Client :=
  mkClient clientID "ShellWatch Web UI" "" ["authorization_code"; "refresh_token"]%string ["code"%string]
    "openid offline_access ui" [redirectURI] "none" "" [] "" None "".

(** [None] is success. *)
Inductive spa_error := NoRedirectURI | SpaCall (e : api_error).

Definition EnsureSpaClient (w : W) (clientID redirectURI : string) : option spa_error * W :=
  if bool_decide (redirectURI = EmptyString) then (Some NoRedirectURI, w)
  else
    let desired := spa_client clientID redirectURI in
    let '(existing, w) := GetClient w clientID in
    match existing with
    | inr e => (Some (SpaCall e), w)
    | inl None =>
        let '(r, w) := CreateClient w desired in
        (match r with inr e => Some (SpaCall e) | inl _ => None end, w)
    | inl (Some _) =>
        let '(r, w) := UpdateClient w clientID desired in
        (match r with inr e => Some (SpaCall e) | inl _ => None end, w)
    end.

End EnsureSpa.

(** ** The admin client: requests and their answers *)

(** A response of the admin API: status and body; [None] is a failed exchange. *)
Abbreviation http_answer := (option (Z * string)).

Record http_request := mkHTTP { rq_Method : string; rq_URL : string }.

Definition QueryEscape (s : string) : string := escape s encodeQueryComponent.

Definition success (status : Z) : bool := (200 <=? status) && (status <? 300).

(** adminJSON for an answer that is decoded by [decode] ([None]: bad JSON); an
    empty body leaves the zero value. *)
Definition adminJSON {A} (zero : A) (decode : string -> option A) (res : http_answer) : A + api_error :=
  match res with
  | None => inr CallFailed
  | Some (status, body) =>
      if negb (success status) then inr (APIError status)
      else if bool_decide (body = EmptyString) then inl zero
      else match decode body with Some a => inl a | None => inr CallFailed end
  end.

(** The URLs of the flows: [kind] is login, consent or logout, [action] empty
    for a GET. *)
Definition challenge_url (base kind action challenge : string) : string :=
  (base ++ "/admin/oauth2/auth/requests/" ++ kind ++ action ++ "?" ++ kind ++ "_challenge=" ++ QueryEscape challenge)%string.

Definition GetLoginRequest_http (base challenge : string) : http_request :=
  mkHTTP "GET" (challenge_url base "login" "" challenge).
Definition AcceptLoginRequest_http (base challenge : string) : http_request :=
  mkHTTP "PUT" (challenge_url base "login" "/accept" challenge).
Definition GetConsentRequest_http (base challenge : string) : http_request :=
  mkHTTP "GET" (challenge_url base "consent" "" challenge).
Definition AcceptConsentRequest_http (base challenge : string) : http_request :=
  mkHTTP "PUT" (challenge_url base "consent" "/accept" challenge).
Definition GetLogoutRequest_http (base challenge : string) : http_request :=
  mkHTTP "GET" (challenge_url base "logout" "" challenge).
Definition AcceptLogoutRequest_http (base challenge : string) : http_request :=
  mkHTTP "PUT" (challenge_url base "logout" "/accept" challenge).
Definition RejectLogoutRequest_http (base challenge : string) : http_request :=
  mkHTTP "PUT" (challenge_url base "logout" "/reject" challenge).
Definition ListConsentSessions_http (base subject : string) : http_request :=
  mkHTTP "GET" (base ++ "/admin/oauth2/auth/sessions/consent?subject=" ++ QueryEscape subject)%string.
Definition RevokeConsentSessions_http (base subject clientID : string) : http_request :=
  mkHTTP "DELETE"
    (base ++ "/admin/oauth2/auth/sessions/consent?subject=" ++ QueryEscape subject ++
     (if bool_decide (clientID = EmptyString) then "&all=true" else "&client=" ++ QueryEscape clientID))%string.
Definition RevokeLoginSessions_http (base subject : string) : http_request :=
  mkHTTP "DELETE" (base ++ "/admin/oauth2/auth/sessions/login?subject=" ++ QueryEscape subject)%string.

(** The clients' URLs escape the id as one path segment. *)
Definition client_url (base clientID : string) : string :=
  (base ++ "/admin/clients/" ++ escape clientID encodePathSegment)%string.
Definition CreateClient_http (base : string) : http_request := mkHTTP "POST" (base ++ "/admin/clients")%string.
Definition GetClient_http (base clientID : string) : http_request := mkHTTP "GET" (client_url base clientID).
Definition UpdateClient_http (base clientID : string) : http_request := mkHTTP "PUT" (client_url base clientID).

(** The revocations take a missing session for success. *)
Definition revoke_result (res : http_answer) : option api_error :=
  match adminJSON tt (fun _ => Some tt) res with
  | inl _ => None
  | inr (APIError status) => if status =? 404 then None else Some (APIError status)
  | inr e => Some e
  end.

(** GetClient: 404 is no client. *)
Definition GetClient_result {A} (decode : string -> option A) (res : http_answer) : option A + api_error :=
  match res with
  | None => inr CallFailed
  | Some (status, body) =>
      if status =? 404 then inl None
      else if negb (success status) then inr (APIError status)
      else match decode body with Some a => inl (Some a) | None => inr CallFailed end
  end.

(** Introspect: only a 200 counts. *)
Definition Introspect_result {A} (decode : string -> option A) (res : http_answer) : A + api_error :=
  match res with
  | None => inr CallFailed
  | Some (status, body) =>
      if negb (status =? 200) then inr (APIError status)
      else match decode body with Some a => inl a | None => inr CallFailed end
  end.

(** ** Lemmas: escaping *)

Lemma escape_cons a s m :
  escape (String a s) m =
  (if shouldEscape a m then
     if bool_decide (a = " "%char) && bool_decide (m = encodeQueryComponent) then String "+" (escape s m)
     else String "%" (String (hex_digit (code a / 16)) (String (hex_digit (code a mod 16)) (escape s m)))
   else String a (escape s m)).
Proof. done. Qed.

(** One byte: its escape decodes to it, and is none of the separators. *)
Definition escape_byte_ok (a : ascii) : bool :=
  if shouldEscape a encodeQueryComponent then
    bool_decide (a = " "%char) ||
    (bool_decide (Net.hex_value (hex_digit (code a / 16)) = Some (code a / 16)) &&
     bool_decide (Net.hex_value (hex_digit (code a mod 16)) = Some (code a mod 16)) &&
     bool_decide (char (16 * (code a / 16) + code a mod 16) = a) &&
     negb (mem_str (hex_digit (code a / 16)) "&=;#?") && negb (mem_str (hex_digit (code a mod 16)) "&=;#?"))
  else negb (mem_str a "%+&=;#?").

Lemma escape_byte a : escape_byte_ok a = true.
Proof. destruct a as [[] [] [] [] [] [] [] []]; vm_compute; reflexivity. Qed.

Lemma unescape_escape s : unescape (QueryEscape s) encodeQueryComponent = Some s.
Proof.
  unfold QueryEscape. induction s as [|a s IH]; [done|]. rewrite escape_cons. pose proof (escape_byte a) as Ha.
  unfold escape_byte_ok in Ha. destruct (shouldEscape a encodeQueryComponent) eqn:E.
  - destruct (decide (a = " "%char)) as [->|Hne].
    + change (String " " <$> unescape (escape s encodeQueryComponent) encodeQueryComponent = Some (String " " s)).
      by rewrite IH.
    + rewrite (bool_decide_false (a = " "%char)) in * by done. cbn [andb orb] in *.
      rewrite !andb_true_iff, !bool_decide_eq_true in Ha. destruct Ha as [[[[H1 H2] H3] _] _].
      cbn [unescape]. rewrite bool_decide_true by done. rewrite H1, H2. cbn [escape_allowed]. by rewrite IH, H3.
  - simpl in Ha. rewrite !negb_orb, !andb_true_iff, !negb_true_iff, !bool_decide_eq_false in Ha.
    destruct Ha as (Hp & Hplus & _). cbn [unescape].
    rewrite (bool_decide_false (a = "%"%char)), (bool_decide_false (a = "+"%char)) by done.
    cbn [host_mode andb]. by rewrite IH.
Qed.

Lemma escape_clean s c : mem_str c "&=;#?" = true -> has_byte (QueryEscape s) c = false.
Proof.
  intros Hc. unfold QueryEscape, has_byte. enough (IndexByte_str (escape s encodeQueryComponent) c = None) as -> by done.
  induction s as [|a s IH]; [done|]. rewrite escape_cons. pose proof (escape_byte a) as Ha. unfold escape_byte_ok in Ha.
  assert (forall b, mem_str b "&=;#?" = false -> c <> b) as Hne by (intros b Hb ->; congruence).
  assert (forall b s, c <> b -> IndexByte_str s c = None -> IndexByte_str (String b s) c = None) as Hskip
    by (intros b s0 Hb Hs; simpl; rewrite bool_decide_false by done; by rewrite Hs).
  destruct (shouldEscape a encodeQueryComponent).
  - destruct (decide (a = " "%char)) as [->|Hs]; [by apply (Hskip "+"%char); [apply Hne|]|].
    rewrite (bool_decide_false (a = " "%char)) in * by done. cbn [andb orb] in *.
    rewrite !andb_true_iff, !negb_true_iff in Ha. destruct Ha as [[_ H1] H2].
    by repeat apply Hskip; [by apply Hne|by apply Hne|by apply Hne|].
  - apply Hskip; [|done]. apply Hne. simpl in *. rewrite !negb_orb, !andb_true_iff, !negb_true_iff in Ha.
    rewrite !orb_false_iff. tauto.
Qed.

(** ** Properties of the requests *)

Lemma Split_clean s c : has_byte s c = false -> Split s c = [s].
Proof.
  unfold has_byte. induction s as [|a s IH]; [done|]. simpl. case_bool_decide; [done|].
  destruct (IndexByte_str s c) eqn:E; [done|]. intros _. by rewrite IH.
Qed.

Lemma Split_app s c t : has_byte s c = false -> Split (s ++ String c t)%string c = s :: Split t c.
Proof.
  unfold has_byte. induction s as [|a s IH]; [simpl; by rewrite bool_decide_true by done|].
  rewrite app_str_cons. simpl. case_bool_decide; [done|].
  destruct (IndexByte_str s c) eqn:E; [done|]. intros _. by rewrite IH.
Qed.

Lemma Cut_app s c t : has_byte s c = false -> Cut (s ++ String c t)%string c = (s, t).
Proof.
  unfold has_byte, Cut. intros H.
  assert (IndexByte_str (s ++ String c t)%string c = Some (String.length s)) as ->.
  { induction s as [|a s IH]; [simpl; by rewrite bool_decide_true by done|]. rewrite app_str_cons. simpl in *.
    destruct (bool_decide (a = c)); [done|]. destruct (IndexByte_str s c) eqn:E; [done|]. by rewrite IH. }
  rewrite take_app_str. f_equal. rewrite <- Nat.add_1_r. apply drop_app_str_S.
Qed.

Lemma has_byte_app s t c : has_byte (s ++ t)%string c = has_byte s c || has_byte t c.
Proof.
  unfold has_byte. induction s as [|a s IH]; [done|]. rewrite app_str_cons. simpl.
  destruct (bool_decide (a = c)); [done|]. destruct (IndexByte_str s c), (IndexByte_str (s ++ t)%string c); done.
Qed.

(** One well-formed pair of a query. *)
Lemma query_pair_escaped v k x :
  has_byte k "=" = false -> has_byte k ";" = false -> unescape k encodeQueryComponent = Some k ->
  query_pair v (k ++ String "=" (QueryEscape x))%string = values_add v k x.
Proof.
  intros H1 H2 H3. unfold query_pair. rewrite Cut_app by done. rewrite H3, unescape_escape.
  rewrite has_byte_app, H2. change (has_byte (String "=" (QueryEscape x)) ";") with
    (match S <$> IndexByte_str (QueryEscape x) ";" with Some _ => true | None => false end).
  pose proof (escape_clean x ";" eq_refl) as Hc. unfold has_byte in Hc.
  destruct (IndexByte_str (QueryEscape x) ";"); [done|]. simpl.
  rewrite bool_decide_false; [done|]. destruct k; done.
Qed.

(** A flow's challenge, a subject or a client id, whatever its bytes, arrives
    at the admin API as the value of its parameter, and adds no other. *)
Theorem challenge_roundtrip kind challenge :
  kind ∈ ["login"; "consent"; "logout"]%string ->
  parse_query (kind ++ "_challenge=" ++ QueryEscape challenge) = [((kind ++ "_challenge")%string, [challenge])].
Proof.
  intros Hk. replace (kind ++ "_challenge=" ++ QueryEscape challenge)%string
    with ((kind ++ "_challenge") ++ String "=" (QueryEscape challenge))%string by (rewrite app_str_assoc; done).
  unfold parse_query. rewrite Split_clean.
  - simpl. rewrite query_pair_escaped; [done|..];
      set_unfold in Hk; destruct Hk as [->|[->|[->|[]]]]; vm_compute; reflexivity.
  - change (String "=" (QueryEscape challenge)) with ("=" ++ QueryEscape challenge)%string.
    rewrite !has_byte_app, escape_clean by done.
    set_unfold in Hk; destruct Hk as [->|[->|[->|[]]]]; vm_compute; reflexivity.
Qed.

Lemma challenge_roundtrip_witness :
  parse_query "login_challenge=a%26b%3Dc" = [("login_challenge", ["a&b=c"])]%string.
Proof. apply (challenge_roundtrip "login" "a&b=c"). left. Defined.

(** Revoking one client's grants names exactly that subject and that client;
    only an absent client id asks for all. *)
Theorem revoke_parameters subject clientID :
  clientID <> EmptyString ->
  parse_query ("subject=" ++ QueryEscape subject ++ "&client=" ++ QueryEscape clientID)
  = [("subject"%string, [subject]); ("client"%string, [clientID])].
Proof.
  intros _. change ("subject=" ++ QueryEscape subject ++ "&client=" ++ QueryEscape clientID)%string
    with ("subject=" ++ (QueryEscape subject ++ String "&" ("client=" ++ QueryEscape clientID)))%string.
  rewrite <- app_str_assoc. unfold parse_query. rewrite Split_app.
  - rewrite Split_clean.
    + cbn [foldl].
      change ("subject=" ++ QueryEscape subject)%string with ("subject" ++ String "=" (QueryEscape subject))%string.
      change ("client=" ++ QueryEscape clientID)%string with ("client" ++ String "=" (QueryEscape clientID))%string.
      rewrite !query_pair_escaped by (vm_compute; reflexivity). reflexivity.
    + rewrite has_byte_app, escape_clean by done. reflexivity.
  - rewrite has_byte_app, escape_clean by done. reflexivity.
Qed.

Lemma revoke_parameters_witness :
  parse_query "subject=acc+1&client=c%26x" = [("subject", ["acc 1"]); ("client", ["c&x"])]%string.
Proof. apply (revoke_parameters "acc 1" "c&x"). discriminate. Defined.
