(* ===== verification/Clients.v ===== *)
(** * The list of authorized clients (internal/rest/authsessions.go, list)

    Hydra lists an account's consent grants; the page shows one row per client,
    its latest grant, the web UI first and the others by date. Go ranges over a
    map in any order, so the rows come to the sort in any order. *)
From Stdlib Require Import Sorting.Sorted.
From S2P Require Import Prelude GoStrings Clock Hydra.
#[local] Open Scope Z_scope.

(** ** A stable sort *)

Section Sort.
Context {A : Type} (less : A -> A -> bool).

Fixpoint insert_stable (x : A) (l : list A) : list A :=
  match l with
  | [] => [x]
  | y :: l' => if less y x then y :: insert_stable x l' else x :: l
  end.

(** sort.SliceStable. *)
Definition SliceStable (l : list A) : list A := foldr insert_stable [] l.

Lemma insert_stable_perm x l : insert_stable x l ≡ₚ x :: l.
Proof using. induction l as [|y l IH]; [done|]. cbn [insert_stable]. destruct (less y x); [|done]. by rewrite IH, Permutation_swap. Qed.

Lemma SliceStable_perm l : SliceStable l ≡ₚ l.
Proof using. induction l as [|x l IH]; [done|]. cbn [SliceStable foldr]. fold (SliceStable l). by rewrite insert_stable_perm, IH. Qed.

(** [less] is a strict weak order. *)
Context (less_irrefl : forall x, less x x = false).
Context (less_cotrans : forall x y z, less x z = true -> less x y = true \/ less y z = true).
Context (less_trans : forall x y z, less x y = true -> less y z = true -> less x z = true).

Definition ordered (l : list A) : Prop := StronglySorted (fun x y => less y x = false) l.

Lemma insert_stable_ordered x l : ordered l -> ordered (insert_stable x l).
Proof using less_irrefl less_cotrans less_trans.
  intros Hl. induction Hl as [|y l Hl IH Hall]; [by repeat constructor|]. cbn [insert_stable]. destruct (less y x) eqn:E.
  - constructor; [done|]. rewrite insert_stable_perm. constructor; [|done]. destruct (less x y) eqn:E2; [|done].
    by rewrite <- (less_irrefl y), (less_trans y x y E E2).
  - constructor; [by constructor|]. constructor; [done|]. eapply Forall_impl; [exact Hall|]. intros z Hz. cbn beta in *.
    destruct (less z x) eqn:E2; [|done]. destruct (less_cotrans z y x E2); congruence.
Qed.

Lemma SliceStable_ordered l : ordered (SliceStable l).
Proof using less_irrefl less_cotrans less_trans. induction l as [|x l IH]; [constructor|]. by apply insert_stable_ordered. Qed.

End Sort.

(** ** Data *)

Record ConsentSession := mkSession { cs_GrantScope : option (list string); cs_HandledAt : string; cs_Client : option OAuth2Client }.

Record AuthSessionView := mkView {
  ClientId : string; ClientName : string; Scopes : list string; AuthorizedAt : option string; CreatedAt : option string; Current : bool }.

Definition nzp (s : string) : option string := if bool_decide (s = EmptyString) then None else Some s.
Definition strOr (p : option string) : string := default EmptyString p.

(** ** The handler *)

Section list.
Context (SPAClientID : string).

Definition view_of (c : OAuth2Client) (s : ConsentSession) : AuthSessionView :=
  mkView (oc_ClientID c) (if bool_decide (oc_ClientName c = EmptyString) then oc_ClientID c else oc_ClientName c)
    (default [] (cs_GrantScope s)) (nzp (cs_HandledAt s)) (nzp (oc_CreatedAt c)) (bool_decide (oc_ClientID c = SPAClientID)).

Definition collapse (byClient : gmap string AuthSessionView) (s : ConsentSession) : gmap string AuthSessionView :=
  match cs_Client s with
  | None => byClient
  | Some client =>
      if bool_decide (oc_ClientID client = EmptyString) then byClient
      else
        let put := <[oc_ClientID client := view_of client s]> byClient in
        match byClient !! oc_ClientID client with
        | Some existing => if negb (text_lt (strOr (AuthorizedAt existing)) (strOr (nzp (cs_HandledAt s)))) then byClient else put
        | None => put
        end
  end.

Definition less (a b : AuthSessionView) : bool :=
  if negb (Bool.eqb (Current a) (Current b)) then Current a else text_lt (strOr (AuthorizedAt b)) (strOr (AuthorizedAt a)).

(** [range] is the order in which Go visits the map. *)
Definition list_clients (range : gmap string AuthSessionView -> list AuthSessionView) (sessions : option (list ConsentSession))
  : Z * list AuthSessionView :=
  match sessions with
  | None => (500, [])
  | Some sessions => (200, SliceStable less (range (fold_left collapse sessions ∅)))
  end.

(** ** Lemmas *)

Lemma text_lt_cotrans a b c : text_lt a c = true -> text_lt a b = true \/ text_lt b c = true.
Proof using.
  intros H. destruct (text_lt a b) eqn:E1; [by left|right]. destruct (text_lt b a) eqn:E2; [by eapply text_lt_trans|].
  by rewrite <- (text_lt_total a b).
Qed.

Lemma less_irrefl a : less a a = false.
Proof using. unfold less. rewrite Bool.eqb_reflx. apply text_lt_irrefl. Qed.

Lemma less_trans a b c : less a b = true -> less b c = true -> less a c = true.
Proof using. unfold less. destruct (Current a), (Current b), (Current c); cbn; try done. all: intros ? ?; by eapply text_lt_trans. Qed.

Lemma less_cotrans a b c : less a c = true -> less a b = true \/ less b c = true.
Proof using.
  unfold less. destruct (Current a), (Current b), (Current c); cbn; try done; try (by left); try (by right).
  all: intros H; apply or_comm; by apply text_lt_cotrans.
Qed.

Lemma strOr_nzp s : strOr (nzp s) = s.
Proof using. unfold nzp. by case_bool_decide. Qed.

(** The client a grant is shown for. *)
Definition grants (s : ConsentSession) (c : OAuth2Client) : Prop := cs_Client s = Some c /\ oc_ClientID c <> EmptyString.

(** [v] is the row of the first of the latest grants of client [id]. *)
Definition latest (sessions : list ConsentSession) (id : string) (v : AuthSessionView) : Prop :=
  exists pre s post c, sessions = pre ++ s :: post /\ grants s c /\ oc_ClientID c = id /\ v = view_of c s /\
    (forall s' c', s' ∈ pre -> grants s' c' -> oc_ClientID c' = id -> text_lt (cs_HandledAt s') (cs_HandledAt s) = true) /\
    (forall s' c', s' ∈ post -> grants s' c' -> oc_ClientID c' = id -> text_lt (cs_HandledAt s) (cs_HandledAt s') = false).

Definition collapsed (sessions : list ConsentSession) (m : gmap string AuthSessionView) : Prop :=
  forall id, match m !! id with
             | Some v => latest sessions id v
             | None => forall s c, s ∈ sessions -> grants s c -> oc_ClientID c <> id
             end.

Lemma latest_id sessions id v : latest sessions id v -> ClientId v = id /\ id <> EmptyString /\ Current v = bool_decide (id = SPAClientID).
Proof using. by intros (pre & s & post & c & -> & [? ?] & <- & -> & _). Qed.

(** A grant that does not show changes nothing. *)
Lemma latest_snoc sessions id v s : latest sessions id v ->
  (forall c, grants s c -> oc_ClientID c = id -> text_lt (strOr (AuthorizedAt v)) (cs_HandledAt s) = false) -> latest (sessions ++ [s]) id v.
Proof using.
  intros (pre & s0 & post & c & -> & Hg & Hid & -> & Hpre & Hpost) Hs. exists pre, s0, (post ++ [s]), c. rewrite <- app_assoc.
  split_and!; try done. intros s' c' [Hin|Hin]%elem_of_app Hg' Hid'; [by eapply Hpost|]. apply list_elem_of_singleton in Hin as ->.
  specialize (Hs c' Hg' Hid'). cbn [view_of AuthorizedAt] in Hs. by rewrite strOr_nzp in Hs.
Qed.

(** A newer grant, or the first, is the latest. *)
Lemma latest_new sessions s c : grants s c ->
  (forall s' c', s' ∈ sessions -> grants s' c' -> oc_ClientID c' = oc_ClientID c -> text_lt (cs_HandledAt s') (cs_HandledAt s) = true) ->
  latest (sessions ++ [s]) (oc_ClientID c) (view_of c s).
Proof using. intros Hg H. exists sessions, s, [], c. split_and!; try done. intros s' c' Hin. by apply not_elem_of_nil in Hin. Qed.

Lemma latest_bound sessions id v t s' c' : latest sessions id v -> text_lt (strOr (AuthorizedAt v)) t = true ->
  s' ∈ sessions -> grants s' c' -> oc_ClientID c' = id -> text_lt (cs_HandledAt s') t = true.
Proof using.
  intros (pre & s0 & post & c & -> & Hg & Hid & -> & Hpre & Hpost) Ht Hin Hg' Hid'. cbn [view_of AuthorizedAt] in Ht. rewrite strOr_nzp in Ht.
  apply elem_of_app in Hin as [Hin|Hin]; [|apply elem_of_cons in Hin as [->|Hin]; [done|]].
  - eapply text_lt_trans; [by eapply Hpre|done].
  - destruct (text_lt_cotrans _ (cs_HandledAt s') _ Ht) as [H|H]; [|done]. by rewrite (Hpost s' c') in H.
Qed.

Lemma collapse_collapsed sessions m s : collapsed sessions m -> collapsed (sessions ++ [s]) (collapse m s).
Proof using.
  intros H. unfold collapse.
  assert (forall id, (forall c, grants s c -> oc_ClientID c <> id) ->
            match m !! id with Some v => latest (sessions ++ [s]) id v | None => forall s' c, s' ∈ sessions ++ [s] -> grants s' c -> oc_ClientID c <> id end) as Hsame.
  { intros id Hno. specialize (H id). destruct (m !! id); [apply latest_snoc; [done|intros c Hg Hid; by destruct (Hno c Hg)]|].
    intros s' c [Hin| ->%list_elem_of_singleton]%elem_of_app Hg; [by eapply H|by apply Hno]. }
  destruct (cs_Client s) as [c|] eqn:Ec; [|intros id; apply Hsame; intros c [? _]; congruence].
  case_bool_decide as Hne; [intros id; apply Hsame; intros c' [? ?]; congruence|]. assert (grants s c) as Hg by done.
  assert (forall id, id <> oc_ClientID c -> forall c', grants s c' -> oc_ClientID c' <> id) as Hother by (intros id Hid c' [? _]; congruence).
  pose proof (H (oc_ClientID c)) as Hc. destruct (m !! oc_ClientID c) as [v|] eqn:Em.
  - rewrite strOr_nzp. destruct (text_lt (strOr (AuthorizedAt v)) (cs_HandledAt s)) eqn:E; cbn [negb]; intros id; (destruct (decide (id = oc_ClientID c)) as [->|Hid]; [|]).
    + rewrite lookup_insert_eq. apply latest_new; [done|]. intros s' c' ? ? ?. by eapply latest_bound.
    + rewrite lookup_insert_ne by done. by apply Hsame, Hother.
    + rewrite Em. by apply latest_snoc.
    + by apply Hsame, Hother.
  - intros id. destruct (decide (id = oc_ClientID c)) as [->|Hid].
    + rewrite lookup_insert_eq. apply latest_new; [done|]. intros s' c' Hin Hg' Hid'. by destruct (Hc s' c').
    + rewrite lookup_insert_ne by done. by apply Hsame, Hother.
Qed.

Lemma fold_collapsed sessions : collapsed sessions (fold_left collapse sessions ∅).
Proof using.
  induction sessions as [|s l IH] using rev_ind; [|rewrite fold_left_app; by apply collapse_collapsed].
  intros id. cbn [fold_left]. rewrite lookup_empty. intros s c Hin. by apply not_elem_of_nil in Hin.
Qed.

Definition row_order (a b : AuthSessionView) : Prop :=
  Current b = false /\ (Current a = false -> text_lt (strOr (AuthorizedAt a)) (strOr (AuthorizedAt b)) = false).

Lemma ordered_rows rows : Forall (fun v => Current v = bool_decide (ClientId v = SPAClientID)) rows -> NoDup (map ClientId rows) -> ordered less rows ->
  StronglySorted row_order rows /\ (SPAClientID ∈ map ClientId rows -> exists v l, rows = v :: l /\ ClientId v = SPAClientID).
Proof using.
  intros Hcur Hnd Hord. induction Hord as [|a l Hl IH Hall]; [split; [constructor|]; intros H; by apply not_elem_of_nil in H|].
  apply Forall_cons in Hcur as [Ha Hcur]. cbn [map] in Hnd. apply NoDup_cons in Hnd as [Hni Hnd]. destruct (IH Hcur Hnd) as [Hs _].
  rewrite Forall_forall in Hall, Hcur. assert (forall b, b ∈ l -> ClientId b <> ClientId a) as Hne by (intros b Hb He; apply Hni; rewrite <- He; by apply (list_elem_of_fmap_2 ClientId)).
  assert (forall b, b ∈ l -> row_order a b) as Hab.
  { intros b Hb. specialize (Hall b Hb). specialize (Hcur b Hb). specialize (Hne b Hb). unfold row_order. unfold less in Hall.
    destruct (Current a), (Current b); cbn in Hall; try done. symmetry in Ha, Hcur. apply bool_decide_eq_true in Ha, Hcur. congruence. }
  split; [constructor; [done|by apply Forall_forall]|]. cbn [map]. intros Hin. exists a, l. split; [done|].
  apply elem_of_cons in Hin as [->|Hin]; [done|]. apply list_elem_of_fmap in Hin as (b & Hb & Hbl). destruct (Hab b Hbl) as [Hf _].
  rewrite (Hcur b Hbl) in Hf. by apply bool_decide_eq_false in Hf.
Qed.

(** ** Claims *)

(** The list has exactly one row for each client that holds a grant of the
    account, with the name, the scopes and the date of its latest grant (the
    first of them when several have the same date); the web UI's row, if it has
    one, comes first, the others follow from the latest to the oldest (C29). *)
Theorem client_list_spec range sessions :
  (forall m, range m ≡ₚ (map_to_list m).*2) ->
  let rows := snd (list_clients range (Some sessions)) in
  NoDup (map ClientId rows) /\
  (forall id, id ∈ map ClientId rows <-> exists s c, s ∈ sessions /\ grants s c /\ oc_ClientID c = id) /\
  (forall v, v ∈ rows -> latest sessions (ClientId v) v) /\
  (SPAClientID ∈ map ClientId rows -> exists v l, rows = v :: l /\ ClientId v = SPAClientID) /\
  StronglySorted row_order rows.
Proof using.
  intros Hrange rows. set (m := fold_left collapse sessions ∅). pose proof (fold_collapsed sessions : collapsed sessions m) as Hm.
  assert (rows ≡ₚ (map_to_list m).*2) as Hp by (unfold rows; cbn [list_clients snd]; by rewrite SliceStable_perm, Hrange).
  assert (forall v, v ∈ rows <-> m !! ClientId v = Some v) as Hin.
  { intros v. rewrite Hp, list_elem_of_fmap. split.
    - intros ([id v'] & -> & Hid%elem_of_map_to_list). cbn [snd]. pose proof (Hm id) as Hl. rewrite Hid in Hl. by destruct (latest_id _ _ _ Hl) as (-> & _).
    - intros Hv. exists (ClientId v, v). split; [done|]. by apply elem_of_map_to_list. }
  assert (map ClientId rows ≡ₚ (map_to_list m).*1) as Hids.
  { change (map ClientId rows) with (ClientId <$> rows). rewrite Hp, <- list_fmap_compose. erewrite list_fmap_ext; [done|].
    intros i [id v] Hv. cbn. apply list_elem_of_lookup_2, elem_of_map_to_list in Hv. pose proof (Hm id) as Hl. rewrite Hv in Hl. by destruct (latest_id _ _ _ Hl) as (-> & _). }
  assert (forall v, v ∈ rows -> latest sessions (ClientId v) v) as Hlat.
  { intros v Hv%Hin. pose proof (Hm (ClientId v)) as Hl. by rewrite Hv in Hl. }
  assert (NoDup (map ClientId rows)) as Hnd by (rewrite Hids; apply NoDup_fst_map_to_list).
  assert (ordered less rows) as Hord by (apply SliceStable_ordered; [apply less_irrefl|intros x y z; apply less_cotrans|intros x y z; apply less_trans]).
  assert (Forall (fun v => Current v = bool_decide (ClientId v = SPAClientID)) rows) as Hcur.
  { apply Forall_forall. intros v Hv. by destruct (latest_id _ _ _ (Hlat v Hv)) as (_ & _ & ->). }
  destruct (ordered_rows rows Hcur Hnd Hord) as [Hsorted Hfirst]. split_and!; [done| |done|done|done].
  intros id. rewrite Hids, list_elem_of_fmap. pose proof (Hm id) as Hl. split.
  - intros ([id' v] & -> & Hv%elem_of_map_to_list). cbn [fst] in *. rewrite Hv in Hl. destruct Hl as (pre & s & post & c & -> & Hg & Hid & _).
    exists s, c. split_and!; [set_solver|done|done].
  - intros (s & c & Hs & Hg & Hid). destruct (m !! id) as [v|] eqn:E; [|by destruct (Hl s c)]. exists (id, v). split; [done|]. by apply elem_of_map_to_list.
Qed.

End list.

Definition demo_client (id name : string) : OAuth2Client := mkClient id name "" [] [] "" [] "" "" [] "" None "2024-01-01".

Definition demo_grants : list ConsentSession :=
  [ mkSession (Some ["mcp"]) "2024-01-02T00:00:00Z" (Some (demo_client "agent" "Agent"));
    mkSession None "2024-01-05T00:00:00Z" (Some (demo_client "other" ""));
    mkSession None "2024-01-01T00:00:00Z" (Some (demo_client "web" "ShellWatch"));
    mkSession (Some ["mcp"; "agent"]) "2024-01-09T00:00:00Z" (Some (demo_client "agent" "Agent"));
    mkSession None "2024-01-09T00:00:00Z" None ]%string.

Lemma client_list_spec_witness :
  let rows := snd (list_clients "web" (fun m => (map_to_list m).*2) (Some demo_grants)) in
  NoDup (map ClientId rows) /\ map (fun v => (ClientId v, ClientName v, Scopes v)) rows =
    [("web", "ShellWatch", []); ("agent", "Agent", ["mcp"; "agent"]); ("other", "other", [])]%string.
Proof.
  split; [|by vm_compute]. by destruct (client_list_spec "web" (fun m => (map_to_list m).*2) demo_grants (fun m => Permutation_refl _)) as [H _].
Defined.
