(* ===== verification/CimdResolver.v ===== *)
(** * From metadata documents to clients (internal/hydra/cimd_resolver.go, cimd_routes.go)

    The resolver checks a client id, fetches its document, checks the request
    against it and keeps the client at the authorization server in step; the
    front door puts it in front of the authorization endpoint. The lock per
    client id is [KeyedMutex]; here is what one call does. *)
From S2P Require Import Prelude GoStrings Url Cimd CimdFetch Hydra.
From Stdlib Require Import Ascii.

(** ** Comparing clients *)

Definition OriginCIMD : string := "cimd".

Definition isCIMDClient (c : OAuth2Client) : bool :=
  match oc_Metadata c with
  | None => false
  | Some m =>
      match json_field m "shellwatch" with
      | JObject sw => match json_field sw "origin" with JString o => bool_decide (o = OriginCIMD) | _ => false end
      | _ => false
      end
  end.

Definition sameStrings (a b : list string) : bool :=
  (length a =? length b)%nat && bool_decide (sort_keys a = sort_keys b).

(** Marshalling is injective on decoded values, so the texts are compared by
    comparing the values. *)
Definition sameJSON (a b : json_object) : bool :=
  if (length a =? 0)%nat && (length b =? 0)%nat then true else json_eqb (JObject a) (JObject b).

Definition clientChanged (existing desired : OAuth2Client) : bool :=
  negb (bool_decide (oc_ClientName existing = oc_ClientName desired)) ||
  negb (bool_decide (oc_Scope existing = oc_Scope desired)) ||
  negb (bool_decide (oc_TokenEndpointAuthMethod existing = oc_TokenEndpointAuthMethod desired)) ||
  negb (bool_decide (oc_JwksURI existing = oc_JwksURI desired)) ||
  negb (bool_decide (oc_ClientURI existing = oc_ClientURI desired)) ||
  negb (sameStrings (oc_RedirectURIs existing) (oc_RedirectURIs desired)) ||
  negb (sameStrings (oc_GrantTypes existing) (oc_GrantTypes desired)) ||
  negb (sameStrings (oc_ResponseTypes existing) (oc_ResponseTypes desired)) ||
  negb (sameJSON (oc_Jwks existing) (oc_Jwks desired)).

Definition materialChange (existing desired : OAuth2Client) : bool :=
  negb (bool_decide (oc_TokenEndpointAuthMethod existing = oc_TokenEndpointAuthMethod desired)) ||
  negb (bool_decide (oc_JwksURI existing = oc_JwksURI desired)) ||
  negb (sameJSON (oc_Jwks existing) (oc_Jwks desired)).

(** The client a document describes; [fetchedAt] is the formatted time. *)
Definition desiredClient (fetchedAt clientIDURL : string) (doc : ClientMetadata) (scope : list string) : OAuth2Client :=
  mkClient clientIDURL (m_ClientName doc) "" (m_GrantTypes doc) (m_ResponseTypes doc) (Join scope " ")
    (m_RedirectURIs doc) (m_TokenEndpointAuthMethod doc) (m_JwksURI doc) (m_Jwks doc) (m_ClientURI doc)
    (Some [("shellwatch"%string, JObject [("fetched_at"%string, JString fetchedAt); ("origin"%string, JString OriginCIMD)])]) "".

(** ** Resolving *)

Record ResolveError := mkResolveError { re_Code : string; re_Cause : option (cimd_error + fetch_error); RedirectValidated : bool }.

Record provisionOutcome := mkOutcome { po_FirstSeen : bool; po_Refreshed : bool; po_Material : bool }.

Record Resolution := mkResolution { rs_Doc : ClientMetadata; rs_Outcome : provisionOutcome }.

Section Resolver.
Context {W : Type} `{!Admin W}.

(** What follows once a client exists. *)
Definition provision_existing (w : W) (clientIDURL : string) (desired existing : OAuth2Client)
  : option provisionOutcome * W :=
  if negb (isCIMDClient existing) then (Some (mkOutcome false false false), w)
  else if negb (clientChanged existing desired) then (Some (mkOutcome false false false), w)
  else
    let material := materialChange existing desired in
    match UpdateClient w clientIDURL desired with
    | (inr _, w) => (None, w)
    | (inl _, w) => (Some (mkOutcome false true material), w)
    end.

(** [None] is the error "client registration failed". *)
Definition provision (w : W) (fetchedAt clientIDURL : string) (doc : ClientMetadata) (scope : list string)
  : option provisionOutcome * W :=
  let desired := desiredClient fetchedAt clientIDURL doc scope in
  match GetClient w clientIDURL with
  | (inr _, w) => (None, w)
  | (inl None, w) =>
      match CreateClient w desired with
      | (inl _, w) => (Some (mkOutcome true false false), w)
      | (inr (APIError status), w) =>
          if negb (status =? 409) then (None, w)
          else
            match GetClient w clientIDURL with
            | (inl (Some existing), w) => provision_existing w clientIDURL desired existing
            | (_, w) => (None, w)
            end
      | (inr CallFailed, w) => (None, w)
      end
  | (inl (Some existing), w) => provision_existing w clientIDURL desired existing
  end.

(** [doc] is what the fetcher answers. The flag of the result says that the
    cached document has to be dropped. *)
Definition Resolve (w : W) (policy : ClientPolicy) (fetchedAt : string) (doc : ClientMetadata + fetch_error)
  (clientIDURL requestedRedirectURI requestedScope : string) : (Resolution + ResolveError) * bool * W :=
  match ValidateClientIDURL clientIDURL with
  | inr e => (inr (mkResolveError "invalid_client" (Some (inl e)) false), false, w)
  | inl _ =>
      match doc with
      | inr e => (inr (mkResolveError "invalid_client" (Some (inr e)) false), false, w)
      | inl doc =>
          if negb (bool_decide (requestedRedirectURI = EmptyString)) && negb (MatchRedirectURI (m_RedirectURIs doc) requestedRedirectURI)
          then (inr (mkResolveError "invalid_request" None false), false, w)
          else
            let redirectOK := negb (bool_decide (requestedRedirectURI = EmptyString)) in
            match GrantedScope (m_Scope doc) (AllowedScopes policy) with
            | inr e => (inr (mkResolveError "invalid_client" (Some (inl e)) false), false, w)
            | inl registered =>
                match GrantedScope requestedScope (setOf registered) with
                | inr e => (inr (mkResolveError "invalid_scope" (Some (inl e)) redirectOK), false, w)
                | inl _ =>
                    match provision w fetchedAt clientIDURL doc registered with
                    | (None, w) => (inr (mkResolveError "server_error" None redirectOK), true, w)
                    | (Some out, w) => (inl (mkResolution doc out), false, w)
                    end
                end
            end
      end
  end.

(** ** The front door *)

Record FrontDoorParams := mkFrontDoor { fd_enabled : bool; HydraAuthorizeURL : string }.

Inductive front_answer :=
  | ToHydra (target : string)
  | ErrorRedirect (target : string)
  | ErrorPage (status : Z) (code : string).

Variable ToLower : string -> string.
(** The description of an error, its Error method. *)
Variable describe : ResolveError -> string.

Definition hostOf (rawURL : string) : string :=
  match Parse rawURL with None => EmptyString | Some u => ToLower (Hostname u) end.

Definition redirectToHydra (p : FrontDoorParams) (rawQuery : string) : string :=
  if bool_decide (rawQuery = EmptyString) then HydraAuthorizeURL p
  else (HydraAuthorizeURL p ++ "?" ++ rawQuery)%string.

Definition with_query (u : URL) (q : string) : URL :=
  mkURL (Scheme u) (Opaque u) (User u) (Host u) (Path u) (RawPath u) (OmitHost u) (ForceQuery u) q (Fragment u) (RawFragment u).

(** The redirect URI with the error added to its query. *)
Definition error_location (u : URL) (re : ResolveError) (state : string) : string :=
  let rq := values_set (values_set (Query u) "error" (re_Code re)) "error_description" (describe re) in
  let rq := if bool_decide (state = EmptyString) then rq else values_set rq "state" state in
  url_string (with_query u (Encode rq)).

Definition fail_event (clientID : string) (re : ResolveError) : ClientEvent :=
  mkEvent clientID ClientOriginCIMD ClientEventRejected "" (hostOf clientID) "" [] "" (re_Code re ++ ": " ++ describe re).

Definition fail (q : Values) (re : ResolveError) : front_answer :=
  let redirectURI := values_get q "redirect_uri" in
  let page := ErrorPage 400 (re_Code re) in
  if RedirectValidated re && negb (bool_decide (redirectURI = EmptyString)) then
    match Parse redirectURI with
    | Some u => ErrorRedirect (error_location u re (values_get q "state"))
    | None => page
    end
  else page.

Definition resolved_event (clientID : string) (r : Resolution) : list ClientEvent :=
  let out := rs_Outcome r in
  if po_FirstSeen out || po_Refreshed out then
    [mkEvent clientID ClientOriginCIMD (if po_FirstSeen out then ClientEventRegistered else ClientEventRefreshed)
       (m_ClientName (rs_Doc r)) (hostOf clientID) (m_TokenEndpointAuthMethod (rs_Doc r)) (m_RedirectURIs (rs_Doc r)) ""
       (if po_Material out then "authentication keys or method changed" else "")]
  else [].

(** A request to the front door, with its raw query. *)
Definition handleAuthorize (w : W) (p : FrontDoorParams) (policy : ClientPolicy) (fetchedAt : string)
  (doc : ClientMetadata + fetch_error) (rawQuery : string) : front_answer * list ClientEvent * bool * W :=
  let q := parse_query rawQuery in
  let clientID := values_get q "client_id" in
  if negb (fd_enabled p) || negb (IsClientIDURL clientID) then (ToHydra (redirectToHydra p rawQuery), [], false, w)
  else
    match Resolve w policy fetchedAt doc clientID (values_get q "redirect_uri") (values_get q "scope") with
    | (inr re, drop, w) => (fail q re, [fail_event clientID re], drop, w)
    | (inl r, drop, w) => (ToHydra (redirectToHydra p rawQuery), resolved_event clientID r, drop, w)
    end.

End Resolver.

(** ** Lemmas *)

Lemma json_eqb_refl x : json_eqb x x = true.
Proof.
  revert x. fix IH 1. intros [|b|n|s|l|o]; simpl; [done|by destruct b|by apply bool_decide_true|by apply bool_decide_true| |].
  - induction l as [|y l IHl]; [done|]. by rewrite IH, IHl.
  - induction o as [|[k y] o IHo]; [done|]. by rewrite bool_decide_true, IH, IHo.
Qed.

Lemma sameStrings_refl l : sameStrings l l = true.
Proof. unfold sameStrings. by rewrite Nat.eqb_refl, bool_decide_true. Qed.

Lemma sameJSON_refl o : sameJSON o o = true.
Proof. unfold sameJSON. destruct (_ && _); [done|]. apply json_eqb_refl. Qed.

(** A client that ShellWatch wrote is its own, and does not differ from what the
    same document asks for at any other time. *)
Lemma desired_is_cimd at1 url doc scope : isCIMDClient (desiredClient at1 url doc scope) = true.
Proof. reflexivity. Qed.

Lemma desired_unchanged at1 at2 url doc scope :
  clientChanged (desiredClient at1 url doc scope) (desiredClient at2 url doc scope) = false.
Proof.
  unfold clientChanged. cbn [desiredClient oc_ClientName oc_Scope oc_TokenEndpointAuthMethod oc_JwksURI oc_ClientURI
    oc_RedirectURIs oc_GrantTypes oc_ResponseTypes oc_Jwks].
  rewrite !sameStrings_refl, sameJSON_refl, !bool_decide_true by done. done.
Qed.

(** ** Ownership *)

Section Ownership.
Context {W : Type} `{!Admin W}.

(** The calls of a run that starts with an empty log. *)
Definition provision_calls (w : W) fetchedAt url doc scope : list call :=
  snd (snd (provision (w, []) fetchedAt url doc scope)).

(** The log ends where an update is due: the client read last is ours and out
    of date. *)
Inductive update_due (url : string) (desired : OAuth2Client) : list call -> Prop :=
  | due_first existing : isCIMDClient existing = true -> clientChanged existing desired = true ->
      update_due url desired [CallGet url (inl (Some existing))]
  | due_race existing : isCIMDClient existing = true -> clientChanged existing desired = true ->
      update_due url desired [CallGet url (inl None); CallCreate desired (inr (APIError 409)); CallGet url (inl (Some existing))].

Lemma existing_calls (wl : W * list call) url desired existing :
  let r := provision_existing wl url desired existing in
  (snd (snd r) = snd wl) \/
  (isCIMDClient existing = true /\ clientChanged existing desired = true /\
   exists ans, snd (snd r) = snd wl ++ [CallUpdate url desired ans]).
Proof.
  unfold provision_existing. destruct (isCIMDClient existing); [|by left]. destruct (clientChanged existing desired); [|by left].
  right. split; [done|]. split; [done|]. simpl.
  destruct (UpdateClient (fst wl) url desired) as [[c|e] w'] eqn:E; simpl; eexists; reflexivity.
Qed.

(** Take a call out of a concrete log. *)
Ltac at_position :=
  let pre := fresh "pre" in intros pre ? ? Hlog;
  repeat (destruct pre as [|? pre]; simplify_list_eq; try done).

(** Whatever the admin API answers, and whatever others do to the client
    in between, provisioning writes at most once, under the client id alone,
    with the client its document describes: it creates it only after reading
    that it does not exist, and replaces it only after reading, last, a client
    that ShellWatch itself provisioned and that differs. *)
Theorem provision_ownership w fetchedAt url doc scope :
  let desired := desiredClient fetchedAt url doc scope in
  forall pre c post, provision_calls w fetchedAt url doc scope = pre ++ c :: post ->
    match c with
    | CallUpdate id client _ => id = url /\ client = desired /\ post = [] /\ update_due url desired pre
    | CallCreate client _ => client = desired /\ pre = [CallGet url (inl None)]
    | CallGet id _ => id = url
    | _ => False
    end.
Proof.
  intros desired. unfold provision_calls, provision. cbn [GetClient logged log1 fst snd]. fold desired.
  destruct (GetClient w url) as [[[existing|]|e] w1]; cbn [fst snd app].
  - destruct (existing_calls (w1, [CallGet url (inl (Some existing))]) url desired existing) as [->|(H1 & H2 & ans & ->)]; cbn [snd app].
    + at_position.
    + at_position. split_and!; try done. by constructor.
  - cbn [CreateClient logged log1 fst snd]. destruct (CreateClient w1 desired) as [[c0|[status|]] w2]; cbn [fst snd app].
    + at_position.
    + destruct (Z.eqb_spec status 409) as [->|Hne]; cbn [negb].
      * cbn [GetClient logged log1 fst snd]. destruct (GetClient w2 url) as [[[existing|]|e] w3]; cbn [fst snd app].
        -- match goal with |- context [provision_existing (w3, ?l) _ _ _] =>
             destruct (existing_calls (w3, l) url desired existing) as [->|(H1 & H2 & ans & ->)] end; cbn [snd app].
           ++ at_position.
           ++ at_position. split_and!; try done. by constructor.
        -- at_position.
        -- at_position.
      * at_position.
    + at_position.
  - at_position.
Qed.

End Ownership.

Definition ex_url : string := "https://app.example/c.json".
Definition ex_good : ClientMetadata := normalized ex_doc "none".
Definition ex_table (cs : gmap string OAuth2Client) : ClientTable := mkTable cs None None None None.
Definition ex_old : OAuth2Client := desiredClient "2026-01-01" ex_url (mkMetadata ex_url "Old" [] [] [] "" "none" "" [] "" "" "" "" "" None) ["mcp"%string].

Lemma provision_ownership_witness :
  exists ans, provision_calls (ex_table {[ ex_url := ex_old ]}) "2026-02-02" ex_url ex_good ["mcp"%string]
    = [CallGet ex_url (inl (Some ex_old)); CallUpdate ex_url (desiredClient "2026-02-02" ex_url ex_good ["mcp"%string]) ans] /\
  update_due ex_url (desiredClient "2026-02-02" ex_url ex_good ["mcp"%string]) [CallGet ex_url (inl (Some ex_old))].
Proof.
  eexists. split; [vm_compute; reflexivity|].
  pose proof (provision_ownership (ex_table {[ ex_url := ex_old ]}) "2026-02-02" ex_url ex_good ["mcp"%string]
    [CallGet ex_url (inl (Some ex_old))]
    (CallUpdate ex_url (desiredClient "2026-02-02" ex_url ex_good ["mcp"%string])
      (inl (desiredClient "2026-02-02" ex_url ex_good ["mcp"%string]))) []) as H.
  apply H. vm_compute. reflexivity.
Defined.

(** ** Convergence *)

(** The table after a successful provisioning. *)
Definition settled (url : string) (desired : OAuth2Client) (w : ClientTable) : Prop :=
  exists c, ct_clients w !! url = Some c /\ (isCIMDClient c = false \/ clientChanged c desired = false).

(** Against an honest table of clients provisioning converges in one run:
    afterwards the id is registered, as somebody else's client or as the
    document describes it; other clients, and a foreign one under this id, are
    untouched; and the next run, at any later time, changes nothing. *)
Theorem provision_converges (w : ClientTable) at1 at2 url doc scope out w' :
  provision w at1 url doc scope = (Some out, w') ->
  settled url (desiredClient at1 url doc scope) w' /\
  (forall id, id <> url -> ct_clients w' !! id = ct_clients w !! id) /\
  (forall c, ct_clients w !! url = Some c -> isCIMDClient c = false -> w' = w) /\
  (ct_clients w !! url = None <-> po_FirstSeen out = true) /\
  provision w' at2 url doc scope = (Some (mkOutcome false false false), w').
Proof.
  set (d1 := desiredClient at1 url doc scope).
  assert (forall c w0, ct_clients w0 !! url = Some c -> isCIMDClient c = false \/ clientChanged c d1 = false ->
    provision w0 at2 url doc scope = (Some (mkOutcome false false false), w0)) as Hagain.
  { intros c w0 Hc Hs. unfold provision. cbn [GetClient ClientTable_Admin]. rewrite Hc. unfold provision_existing.
    destruct Hs as [->|Hs]; [done|]. destruct (isCIMDClient c); [|done]. cbn [negb].
    replace (clientChanged c (desiredClient at2 url doc scope)) with (clientChanged c d1) by reflexivity. by rewrite Hs. }
  assert (forall id (c : OAuth2Client), id <> url -> <[url := c]> (ct_clients w) !! id = ct_clients w !! id) as Hother
    by (intros; by rewrite lookup_insert_ne).
  intros Hp. unfold provision in Hp. cbn [GetClient ClientTable_Admin] in Hp. fold d1 in Hp.
  destruct (ct_clients w !! url) as [c|] eqn:Hc.
  - unfold provision_existing in Hp. destruct (isCIMDClient c) eqn:Ho; cbn [negb] in Hp.
    + destruct (clientChanged c d1) eqn:Hch; cbn [negb] in Hp.
      * cbn [UpdateClient ClientTable_Admin] in Hp. rewrite Hc in Hp. injection Hp as <- <-. cbn [ct_clients].
        assert (<[url := d1]> (ct_clients w) !! url = Some d1) as Hl by apply lookup_insert_eq.
        split_and!; [exists d1; split; [done|right; apply desired_unchanged]|auto|by intros ? [= <-] ?; congruence|by split|].
        eapply Hagain; [exact Hl|right; apply desired_unchanged].
      * injection Hp as <- <-. split_and!; [exists c; auto|done|done|by split|]. eapply Hagain; eauto.
    + injection Hp as <- <-. split_and!; [exists c; auto|done|done|by split|]. eapply Hagain; eauto.
  - cbn [CreateClient ClientTable_Admin] in Hp. change (oc_ClientID d1) with url in Hp. rewrite Hc in Hp.
    injection Hp as <- <-. cbn [ct_clients].
    assert (<[url := d1]> (ct_clients w) !! url = Some d1) as Hl by apply lookup_insert_eq.
    split_and!; [exists d1; split; [done|right; apply desired_unchanged]|auto|done|done|].
    eapply Hagain; [exact Hl|right; apply desired_unchanged].
Qed.

Lemma provision_converges_witness :
  exists w', provision (ex_table {[ ex_url := ex_old ]}) "t1" ex_url ex_good ["mcp"%string]
    = (Some (mkOutcome false true false), w') /\
    provision w' "t2" ex_url ex_good ["mcp"%string] = (Some (mkOutcome false false false), w').
Proof.
  eexists. split; [vm_compute; reflexivity|].
  refine (proj2 (proj2 (proj2 (proj2 (provision_converges (ex_table {[ ex_url := ex_old ]}) "t1" "t2" ex_url ex_good
    ["mcp"%string] (mkOutcome false true false) _ _))))).
  vm_compute. reflexivity.
Defined.

(** ** The front door *)

Lemma Resolve_validated {W} `{!Admin W} (w : W) policy at1 doc url ruri scope re drop w' :
  Resolve w policy at1 doc url ruri scope = (inr re, drop, w') -> RedirectValidated re = true ->
  exists d, doc = inl d /\ ruri <> EmptyString /\ MatchRedirectURI (m_RedirectURIs d) ruri = true.
Proof.
  unfold Resolve. destruct (ValidateClientIDURL url); [|by intros [= <- <- <-]].
  destruct doc as [d|e]; [|by intros [= <- <- <-]]. intros H Hv. exists d. split; [done|].
  destruct (bool_decide (ruri = EmptyString)) eqn:E; cbn [negb andb] in H.
  - destruct (GrantedScope (m_Scope d) _) as [reg|e]; [|by injection H as <- <- <-].
    destruct (GrantedScope scope _); [|by injection H as <- <- <-].
    destruct (provision w at1 url d reg) as [[o|] w2]; [done|by injection H as <- <- <-].
  - apply bool_decide_eq_false in E. split; [done|].
    destruct (MatchRedirectURI _ _); [done|by injection H as <- <- <-].
Qed.

Lemma Resolve_ok {W} `{!Admin W} (w : W) policy at1 doc url ruri scope r drop w' :
  Resolve w policy at1 doc url ruri scope = (inl r, drop, w') ->
  doc = inl (rs_Doc r) /\ (ruri = EmptyString \/ MatchRedirectURI (m_RedirectURIs (rs_Doc r)) ruri = true) /\
  exists registered granted, GrantedScope (m_Scope (rs_Doc r)) (AllowedScopes policy) = inl registered /\
    GrantedScope scope (setOf registered) = inl granted.
Proof.
  unfold Resolve. destruct (ValidateClientIDURL url); [|done]. destruct doc as [d|e]; [|done].
  destruct (negb _ && negb _) eqn:E; [done|]. destruct (GrantedScope (m_Scope d) _) as [reg|e] eqn:E1; [|done].
  destruct (GrantedScope scope _) as [g|e] eqn:E2; [|done].
  destruct (provision w at1 url d reg) as [[o|] w2]; [|done]. intros [= <- <- <-]. cbn [rs_Doc].
  split; [done|]. split; [|by eauto]. apply andb_false_iff in E as [E|E]; apply negb_false_iff in E; [left|by right].
  by apply bool_decide_eq_true in E.
Qed.

(** What the fetcher's result is to the resolver. *)
Definition fetched (r : ClientMetadata * bool + fetch_error) : ClientMetadata + fetch_error :=
  match r with inl (d, _) => inl d | inr e => inr e end.

Section FrontDoor.
Context {W : Type} `{!Admin W}.
Variable ToLower : string -> string.
Variable describe : ResolveError -> string.
Variable Decode : string -> option ClientMetadata.
Variable ParseTime : string -> option Z.
Variable policy : ClientPolicy.

(** A request at the front door, with the fetcher as its history left it. *)
Definition front_door (w : W) (p : FrontDoorParams) (fp : FetcherParams) (evs : list fetch_event) (t : fetching)
  (fetchedAt rawQuery : string) : front_answer * list ClientEvent * bool * W :=
  let f := foldl (fetch_step ToLower Decode ParseTime policy) (NewFetcher ToLower fp) evs in
  let clientID := values_get (parse_query rawQuery) "client_id" in
  handleAuthorize ToLower describe w p policy fetchedAt
    (fetched (fst (Fetch ToLower Decode ParseTime f t clientID policy))) rawQuery.

(** No open redirect: whatever the request, the document, the cache and
    the admin API are, the front door sends the browser to the authorization
    server with the query it came with, or shows an error page, or redirects to
    the requested redirect URI, changed in its query only; and the latter only
    when that URI matches a document vetted for this client id. A client id
    that is a URL reaches the authorization server only with a vetted document,
    a redirect URI that matches it (if there is one) and scopes it registers. *)
Theorem front_door_no_open_redirect w p fp evs t fetchedAt rawQuery :
  let q := parse_query rawQuery in
  let clientID := values_get q "client_id" in
  let ruri := values_get q "redirect_uri" in
  match fst (fst (fst (front_door w p fp evs t fetchedAt rawQuery))) with
  | ToHydra target =>
      target = redirectToHydra p rawQuery /\
      (fd_enabled p = true -> IsClientIDURL clientID = true ->
       exists d registered granted, document_ok policy clientID d /\
         (ruri = EmptyString \/ MatchRedirectURI (m_RedirectURIs d) ruri = true) /\
         GrantedScope (m_Scope d) (AllowedScopes policy) = inl registered /\
         GrantedScope (values_get q "scope") (setOf registered) = inl granted)
  | ErrorRedirect target =>
      exists d u rq, document_ok policy clientID d /\ MatchRedirectURI (m_RedirectURIs d) ruri = true /\
        Parse ruri = Some u /\ target = url_string (with_query u rq)
  | ErrorPage status _ => status = 400
  end.
Proof.
  intros q clientID ruri. unfold front_door, handleAuthorize. fold q. fold clientID. fold ruri.
  destruct (fd_enabled p) eqn:Hen, (IsClientIDURL clientID) eqn:Hid; cbn [negb orb fst]; try by split.
  set (f := foldl _ _ evs).
  destruct (Fetch ToLower Decode ParseTime f t clientID policy) as [fr f'] eqn:HF. cbn [fst].
  assert (forall d, fetched fr = inl d -> document_ok policy clientID d) as Hvet.
  { intros d Hd. destruct fr as [[d0 hit]|e]; [|done]. injection Hd as ->. by apply Fetch_document_vetted in HF as [? _]. }
  destruct (Resolve w policy fetchedAt (fetched fr) clientID ruri (values_get q "scope")) as [[[r|re] drop] w'] eqn:HR; cbn [fst].
  - apply Resolve_ok in HR as (Hd & Hm & reg & g & H1 & H2). split; [done|]. intros _ _. exists (rs_Doc r), reg, g. auto.
  - unfold fail. fold ruri. destruct (RedirectValidated re) eqn:Hv; [|done].
    destruct (negb _); [|done]. cbn [andb]. destruct (Parse ruri) as [u|] eqn:Hu; [|done].
    destruct (Resolve_validated _ _ _ _ _ _ _ _ _ _ HR Hv) as (d & Hd & _ & Hm).
    unfold error_location. eexists d, u, _. split; [by apply Hvet|]. done.
Qed.

End FrontDoor.

(** A run end to end: a new client is provisioned and sent on. *)
Definition ex_query : string :=
  "client_id=https%3A%2F%2Fapp.example%2Fc.json&redirect_uri=http%3A%2F%2F127.0.0.1%3A7777%2Fcb&scope=mcp&state=xyz".
Definition ex_run (scope_query : string) :=
  front_door (W := ClientTable) ToLower_ascii (fun re => re_Code re) ex_decode (fun _ => None) ex_policy (ex_table ∅)
    (mkFrontDoor true "https://hydra.example/oauth2/auth") ex_fetch_params [] (mkFetching 0 [] 5 (Some ex_response)) "now"
    scope_query.

Example front_ex1 :
  fst (fst (fst (ex_run ex_query))) = ToHydra ("https://hydra.example/oauth2/auth?" ++ ex_query).
Proof. vm_compute. reflexivity. Qed.

Example front_ex2 :
  fst (fst (fst (ex_run "client_id=https%3A%2F%2Fapp.example%2Fc.json&redirect_uri=http%3A%2F%2F127.0.0.1%3A7777%2Fcb&scope=agent&state=xyz")))
  = ErrorRedirect "http://127.0.0.1:7777/cb?error=invalid_scope&error_description=invalid_scope&state=xyz".
Proof. vm_compute. reflexivity. Qed.

Example front_ex3 :
  fst (fst (fst (ex_run "client_id=https%3A%2F%2Fapp.example%2Fc.json&redirect_uri=https%3A%2F%2Fevil.example%2F&scope=agent")))
  = ErrorPage 400 "invalid_request".
Proof. vm_compute. reflexivity. Qed.
