(* ===== verification/Tokens.v ===== *)
(** * Purpose-bound one-time values (internal/webauthn)

    - challenge.go: WebAuthn challenges bound to the flow they were minted for;
    - stepup.go: step-up tokens bound to an account and an action, and the gate
      in front of the sensitive routes;
    - invite.go: the passkey-invite slot of an account.

    The first two sit on the TTL store and are stated against its interface
    [TTLStore] only. *)
From S2P Require Import Prelude Ephemeral.

Definition second : Z := 1000000000.
Definition minute : Z := 60 * second.

(** ** Challenges (challenge.go) *)

Definition PurposeLogin : string := "auth:login".
Definition PurposeSelfRegister : string := "auth:register".
Definition PurposeRegisterInAccount : string := "register:in_account".
Definition PurposeRegisterInvite : string := "register:invite".

Definition challengeTTL : Z := 5 * minute.
Definition challengeCap : Z := 10000.

Record challengeEntry := mkChallenge { ce_challenge : string; ce_purpose : string }.

Definition NewChallengeStore : Store string challengeEntry := New challengeTTL challengeCap.

(** ** Step-up tokens (stepup.go) *)

Definition ActionRegisterPasskey : string := "register_passkey".
Definition ActionRevokePasskey : string := "revoke_passkey".
Definition ActionConfirmPasskey : string := "confirm_passkey".
Definition ActionRevokeSession : string := "revoke_session".
Definition ActionRevokeAllSessions : string := "revoke_all_sessions".
Definition ActionResetHostKey : string := "reset_host_key".
Definition ActionPinHostKey : string := "pin_host_key".

Definition ActionToPurpose : gmap string string :=
  {[ ActionRegisterPasskey := "stepup:register_passkey";
     ActionRevokePasskey := "stepup:revoke_passkey";
     ActionConfirmPasskey := "stepup:confirm_passkey";
     ActionRevokeSession := "stepup:revoke_session";
     ActionRevokeAllSessions := "stepup:revoke_all_sessions";
     ActionResetHostKey := "stepup:reset_host_key";
     ActionPinHostKey := "stepup:pin_host_key" ]}.

Definition IsStepUpAction (s : string) : bool := bool_decide (is_Some (ActionToPurpose !! s)).

Definition stepUpTTL : Z := 90 * second.

Record stepUpEntry := mkStepUp { su_accountID : string; su_action : string; su_expiresAt : Z }.

Inductive ConsumeReason :=
  | ReasonOK | ReasonMissing | ReasonExpired | ReasonWrongAction | ReasonWrongAccount.

#[export] Instance ConsumeReason_eq_dec : EqDecision ConsumeReason.
Proof. solve_decision. Defined.

Definition stepUpErrorCode (r : ConsumeReason) : string :=
  match r with
  | ReasonOK => ""
  | ReasonMissing => "stepup_required"
  | ReasonExpired => "stepup_expired"
  | ReasonWrongAction => "stepup_wrong_action"
  | ReasonWrongAccount => "stepup_wrong_account"
  end.

Definition stepUpErrorMessage (r : ConsumeReason) : string :=
  match r with
  | ReasonOK => ""
  | ReasonMissing => "Step-up authentication required"
  | ReasonExpired => "Step-up token expired"
  | ReasonWrongAction => "Step-up token not valid for this action"
  | ReasonWrongAccount => "Step-up token not valid for this account"
  end.

Definition NewStepUpStore : Store string stepUpEntry := New stepUpTTL 0.

(** What the middleware does with a request: hand it on, or answer. *)
Inductive gate_result :=
  | Forwarded
  | Rejected (status : Z) (message code : string).

Section OverTTLStore.
Context {S1 : Type} `{!TTLStore string challengeEntry S1}.
Context {S2 : Type} `{!TTLStore string stepUpEntry S2}.

(** ChallengeStore.Store *)
Definition ChallengeStore_Store (c : S1) (now : Z) (challengeID challenge purpose : string) : S1 :=
  ts_put c now challengeID (mkChallenge challenge purpose).

Definition ChallengeStore_Consume (c : S1) (now : Z) (challengeID expectedPurpose : string)
  : string * S1 :=
  let '(r, c') := ts_consume c now challengeID in
  match r with
  | Some e =>
      if negb (bool_decide (ce_purpose e = expectedPurpose)) then (""%string, c')
      else (ce_challenge e, c')
  | None => (""%string, c')
  end.

Definition StepUpStore_Mint (s : S2) (now : Z) (token accountID action : string) : Z * S2 :=
  let exp := now + stepUpTTL in
  (exp, ts_put s now token (mkStepUp accountID action exp)).

Definition StepUpStore_Consume (s : S2) (now : Z) (token accountID action : string)
  : ConsumeReason * S2 :=
  if bool_decide (token = ""%string) then (ReasonMissing, s)
  else
    let '(r, s') := ts_consume s now token in
    match r with
    | None => (ReasonMissing, s')
    | Some e =>
        if negb (bool_decide (su_accountID e = accountID)) then (ReasonWrongAccount, s')
        else if negb (bool_decide (su_action e = action)) then (ReasonWrongAction, s')
        else (ReasonOK, s')
    end.

(** RequireStepUp: [principal] is the authenticated account, if any; [token]
    the request's step-up header. *)
Definition RequireStepUp (s : S2) (now : Z) (action : string)
  (principal : option string) (token : string) : gate_result * S2 :=
  match principal with
  | None => (Rejected 401 "unauthenticated" "", s)
  | Some accountID =>
      let '(reason, s') := StepUpStore_Consume s now token accountID action in
      if negb (bool_decide (reason = ReasonOK))
      then (Rejected 401 (stepUpErrorMessage reason) (stepUpErrorCode reason), s')
      else (Forwarded, s')
  end.

End OverTTLStore.

(** ** Invites (invite.go) *)

Definition inviteTTL : Z := 5 * minute.

Record InviteSlot := mkSlot {
  is_AccountID : string;
  is_Token : string;
  is_ExpiresAt : Z;
  is_CreatedAt : Z
}.

Definition InviteStore : Type := gmap string InviteSlot.

Definition Invite_Create (s : InviteStore) (now : Z) (accountID token : string)
  : InviteSlot * InviteStore :=
  let slot := mkSlot accountID token (now + inviteTTL) now in
  (slot, <[accountID := slot]> s).

Definition Invite_FindForAccount (s : InviteStore) (now : Z) (accountID : string)
  : option InviteSlot * InviteStore :=
  match s !! accountID with
  | None => (None, s)
  | Some slot => if negb (now <? is_ExpiresAt slot) then (None, delete accountID s) else (Some slot, s)
  end.

(** The range loop over the map: [order] is the order in which the runtime
    visits the accounts present when the loop starts. *)
Fixpoint Invite_FindByToken (order : list string) (s : InviteStore) (now : Z) (token : string)
  : option InviteSlot * InviteStore :=
  match order with
  | [] => (None, s)
  | acc :: order' =>
      match s !! acc with
      | None => Invite_FindByToken order' s now token
      | Some slot =>
          if negb (now <? is_ExpiresAt slot)
          then Invite_FindByToken order' (delete acc s) now token
          else if bool_decide (is_Token slot = token) then (Some slot, s)
          else Invite_FindByToken order' s now token
      end
  end.

Definition Invite_ConsumeIfTokenMatches (s : InviteStore) (accountID token : string)
  : bool * InviteStore :=
  match s !! accountID with
  | None => (false, s)
  | Some slot =>
      if negb (bool_decide (is_Token slot = token)) then (false, s)
      else (true, delete accountID s)
  end.

(** ** Histories of a TTL store *)

Section Histories.
Context {K V S : Type} `{TTLStore K V S}.

(** A client's calls: insertions and consumptions, each at its time. *)
Inductive tcall :=
  | TPut (now : Z) (k : K) (v : V)
  | TTake (now : Z) (k : K).

Definition trun1 (s : S) (c : tcall) : S :=
  match c with
  | TPut now k v => ts_put s now k v
  | TTake now k => snd (ts_consume s now k)
  end.

Definition touches (k : K) (c : tcall) : Prop :=
  match c with TPut _ k' _ | TTake _ k' => k' = k end.

(** The call that explains an entry: its insertion, untouched since. *)
Definition explained (calls : list tcall) (ttl : Z) (k : K) (v : V) (e : Z) : Prop :=
  exists pre now post, calls = pre ++ TPut now k v :: post /\ e = now + ttl /\
    Forall (fun c => ~ touches k c) post.

Lemma explained_snoc calls c ttl k v e :
  explained calls ttl k v e -> ~ touches k c -> explained (calls ++ [c]) ttl k v e.
Proof.
  intros (pre & now & post & -> & -> & Hpost) Hc.
  exists pre, now, (post ++ [c]). split; [by rewrite <- app_assoc|]. split; [done|].
  apply Forall_app. split; [done|]. by constructor.
Qed.

Lemma trun_explained (s0 : S) (calls : list tcall) :
  ts_inv s0 -> ts_abs s0 = ∅ ->
  ts_inv (foldl trun1 s0 calls) /\ ts_ttl (foldl trun1 s0 calls) = ts_ttl s0 /\
  forall k v e, ts_abs (foldl trun1 s0 calls) !! k = Some (v, e) ->
    explained calls (ts_ttl s0) k v e.
Proof.
  intros Hinv Habs. induction calls as [|c calls IH] using rev_ind.
  - split; [done|]. split; [done|]. intros k v e. simpl. by rewrite Habs, lookup_empty.
  - rewrite foldl_app. cbn [foldl]. destruct IH as (Hi & Ht & Hex).
    set (s := foldl trun1 s0 calls) in *. destruct c as [now k0 v0|now k0]; cbn [trun1].
    + destruct (ts_put_inv s now k0 v0 Hi) as [Hi' Ht']. split; [done|].
      split; [congruence|]. intros k v e Hl.
      destruct (decide (k0 = k)) as [->|Hne].
      * rewrite ts_put_self in Hl by done. simplify_eq. rewrite Ht.
        by exists calls, now, [].
      * apply explained_snoc; [|done]. apply Hex.
        pose proof (lookup_weaken _ _ _ _ Hl (ts_put_other s now k0 v0 Hi)) as Hw.
        by rewrite lookup_insert_ne in Hw.
    + destruct (ts_consume_inv s now k0 Hi) as [Hi' Ht']. split; [done|].
      split; [congruence|]. intros k v e. rewrite ts_consume_abs by done.
      rewrite lookup_delete_Some. intros [Hne Hl]. by apply explained_snoc; [apply Hex|].
Qed.

(** What a consumption that yields a value has behind it. *)
Lemma trun_consume (s0 : S) (calls : list tcall) now k v :
  ts_inv s0 -> ts_abs s0 = ∅ ->
  fst (ts_consume (foldl trun1 s0 calls) now k) = Some v ->
  exists e, now < e /\ explained calls (ts_ttl s0) k v e.
Proof.
  intros Hinv Habs. destruct (trun_explained s0 calls Hinv Habs) as (Hi & _ & Hex).
  rewrite ts_consume_result by done. destruct (_ !! k) as [[v' e]|] eqn:E; [|done].
  intros. split_ifs. eexists. by split; [|apply Hex].
Qed.

End Histories.
Arguments tcall K V : clear implicits.

(** ** Lemmas on invites *)

Lemma FindByToken_sound order s now token slot :
  fst (Invite_FindByToken order s now token) = Some slot ->
  exists acc, s !! acc = Some slot /\ is_Token slot = token /\ now < is_ExpiresAt slot.
Proof.
  revert s. induction order as [|a order IH]; intros s; simpl; [done|].
  destruct (s !! a) as [sl|] eqn:E; [|by apply IH].
  destruct (now <? is_ExpiresAt sl) eqn:E1; simpl.
  - case_bool_decide; [|by apply IH]. simpl. intros; simplify_eq. bool_to_prop. by exists a.
  - intros Hf. apply IH in Hf as (acc & Hl & ?). apply lookup_delete_Some in Hl as [_ Hl].
    by exists acc.
Qed.

Lemma FindByToken_complete order s now token acc slot :
  fst (Invite_FindByToken order s now token) = None ->
  acc ∈ order -> s !! acc = Some slot -> is_Token slot = token -> is_ExpiresAt slot <= now.
Proof.
  revert s. induction order as [|a order IH]; intros s; simpl; [set_solver|].
  rewrite elem_of_cons. intros Hf Hin Hs Htok.
  destruct (decide (acc = a)) as [->|Hne].
  - rewrite Hs in Hf. destruct (now <? is_ExpiresAt slot) eqn:E1; simpl in Hf; bool_to_prop; [|done].
    by rewrite bool_decide_true in Hf.
  - assert (acc ∈ order) by tauto. destruct (s !! a) as [sl|] eqn:E; [|by eapply IH].
    destruct (negb _) in Hf.
    + eapply IH; [exact Hf|done| |done]. by rewrite (lookup_delete_ne s).
    + case_bool_decide; [done|]. by eapply IH.
Qed.

Lemma FindByToken_sub order s now token : snd (Invite_FindByToken order s now token) ⊆ s.
Proof.
  revert s. induction order as [|a order IH]; intros s; simpl; [done|].
  destruct (s !! a) as [sl|]; [|done]. destruct (negb _).
  - etrans; [apply IH|apply delete_subseteq].
  - case_bool_decide; [done|apply IH].
Qed.

(** ** Properties *)

Section StepUp.
Context {S2 : Type} `{!TTLStore string stepUpEntry S2}.

(** The calls a history of mints and of gated requests makes to the store. *)
Inductive stepup_event :=
  | EvMint (now : Z) (token accountID action : string)
  | EvRequest (now : Z) (action : string) (principal : option string) (token : string).

Definition stepup_exec (s : S2) (ev : stepup_event) : S2 :=
  match ev with
  | EvMint now token acc action => snd (StepUpStore_Mint s now token acc action)
  | EvRequest now action principal token => snd (RequireStepUp s now action principal token)
  end.

Definition ev_calls (ev : stepup_event) : list (tcall string stepUpEntry) :=
  match ev with
  | EvMint now token acc action => [TPut now token (mkStepUp acc action (now + stepUpTTL))]
  | EvRequest now _ (Some _) token =>
      if bool_decide (token = ""%string) then [] else [TTake now token]
  | EvRequest _ _ None _ => []
  end.

(** An event that uses up or replaces the token. *)
Definition spends (token : string) (ev : stepup_event) : Prop :=
  match ev with
  | EvMint _ t _ _ => t = token
  | EvRequest _ _ (Some _) t => t = token /\ t <> ""%string
  | EvRequest _ _ None _ => False
  end.

Lemma stepup_exec_calls s ev : stepup_exec s ev = foldl trun1 s (ev_calls ev).
Proof.
  destruct ev as [|now action [acc|] token]; simpl; [done| |done].
  unfold StepUpStore_Consume. case_bool_decide; [done|]. simpl.
  destruct (ts_consume s now token) as [[e|] s']; simpl; [|done].
  by destruct (bool_decide _), (bool_decide _).
Qed.

Lemma stepup_run_calls (s : S2) evs :
  foldl stepup_exec s evs = foldl trun1 s (concat (map ev_calls evs)).
Proof.
  revert s. induction evs as [|ev evs IH]; intros s; [done|]. simpl.
  by rewrite foldl_app, IH, stepup_exec_calls.
Qed.

Lemma RequireStepUp_forwarded s now action principal token s' :
  RequireStepUp s now action principal token = (Forwarded, s') ->
  exists acc exp, principal = Some acc /\ token <> ""%string /\
    fst (ts_consume s now token) = Some (mkStepUp acc action exp).
Proof.
  unfold RequireStepUp, StepUpStore_Consume. destruct principal as [acc|]; [|done].
  destruct (decide (token = ""%string)) as [->|Hne]; [done|].
  rewrite (bool_decide_false (token = _)) by done.
  destruct (ts_consume s now token) as [[[a act exp]|] s1]; simpl; [|done].
  destruct (decide (a = acc)) as [->|]; [|by rewrite (bool_decide_false (a = acc))].
  rewrite (bool_decide_true (acc = acc)) by done. simpl.
  destruct (decide (act = action)) as [->|]; [|by rewrite (bool_decide_false (act = action))].
  intros _. by exists acc, exp.
Qed.

(** The mint behind an explained entry, seen in the history of events. *)
Lemma explained_mint evs ttl token v e :
  explained (concat (map ev_calls evs)) ttl token v e ->
  exists pre now acc action post,
    evs = pre ++ EvMint now token acc action :: post /\
    v = mkStepUp acc action (now + stepUpTTL) /\ e = now + ttl /\
    Forall (fun ev => ~ spends token ev) post.
Proof.
  induction evs as [|ev evs IH] using rev_ind.
  - intros (pre & now & post & Hc & _). by destruct pre.
  - rewrite map_app, concat_app. simpl. rewrite app_nil_r.
    intros (pre & now & post & Hc & -> & Hpost).
    assert (Hcase : (exists pre', post = pre' ++ ev_calls ev /\
        concat (map ev_calls evs) = pre ++ TPut now token v :: pre') \/
      (post = [] /\ ev_calls ev = [TPut now token v])).
    { destruct (ev_calls ev) as [|c [|? ?]] eqn:Ee.
      - left. exists post. by rewrite app_nil_r in *.
      - destruct post as [|x post _] using rev_ind.
        + right. apply app_inj_tail in Hc as [_ ->]. done.
        + left. exists post. rewrite app_comm_cons, app_assoc in Hc.
          by apply app_inj_tail in Hc as [-> ->].
      - exfalso. destruct ev as [|? ? [?|] tk]; simpl in Ee; try done.
        by destruct (bool_decide _). }
    destruct Hcase as [(pre' & -> & Hc')|[-> Hev]].
    + apply Forall_app in Hpost as [Hp1 Hp2].
      destruct IH as (p & n & acc & act & po & -> & -> & He & Hpo).
      { by exists pre, now, pre'. }
      exists p, n, acc, act, (po ++ [ev]). rewrite <- app_assoc. split; [done|].
      split; [done|]. split; [done|]. apply Forall_app. split; [done|].
      constructor; [|done]. destruct ev as [|? ? [?|] tk]; simpl in *.
      * by inversion Hp2.
      * intros [-> Hne]. rewrite bool_decide_false in Hp2 by done. by inversion Hp2.
      * tauto.
    + destruct ev as [n tk acc act|? ? [?|] tk]; simpl in Hev;
        [|by destruct (bool_decide _)|done].
      simplify_eq. by exists evs, now, acc, act, [].
Qed.

End StepUp.

(** The step-up gate is sound: a request passes only when the history holds a
    mint of exactly the presented token, for the requesting account and for
    this very action, less than 90 seconds before, and nothing has presented
    or replaced the token since (C18). *)
Theorem RequireStepUp_sound {S2} `{!TTLStore string stepUpEntry S2} (s0 : S2)
  (evs : list stepup_event) (now : Z) (action token : string) (principal : option string) (s' : S2)
  (Hinv : ts_inv s0) (Hempty : ts_abs s0 = ∅) (Httl : ts_ttl s0 = stepUpTTL)
  (Hpass : RequireStepUp (foldl stepup_exec s0 evs) now action principal token = (Forwarded, s')) :
  exists pre t acc post,
    evs = pre ++ EvMint t token acc action :: post /\ principal = Some acc /\
    now < t + 90 * second /\ Forall (fun ev => ~ spends token ev) post.
Proof.
  apply RequireStepUp_forwarded in Hpass as (acc & exp & -> & _ & Hc).
  rewrite stepup_run_calls in Hc.
  apply trun_consume in Hc as (e & Hlt & Hex); [|done|done].
  apply explained_mint in Hex as (pre & t & acc' & act & post & -> & Hv & -> & Hpost).
  simplify_eq. exists pre, t, acc', post. rewrite Httl in Hlt. done.
Qed.

Lemma RequireStepUp_sound_witness :
  let evs := [EvMint 0 "tok" "alice" ActionPinHostKey] in
  exists pre t acc post,
    evs = pre ++ EvMint t "tok" acc ActionPinHostKey :: post /\ Some "alice"%string = Some acc /\
    5 < t + 90 * second /\ Forall (fun ev => ~ spends "tok" ev) post.
Proof.
  eapply (RequireStepUp_sound NewStepUpStore [EvMint 0 "tok" "alice" ActionPinHostKey] 5
    ActionPinHostKey "tok" (Some "alice"%string)).
  - apply New_wf.
  - reflexivity.
  - reflexivity.
  - vm_compute. reflexivity.
Defined.

(** A minted token opens the gate once for its account and action, within its
    lifetime, and never a second time. *)
Theorem StepUp_mint_then_gate {S2} `{!TTLStore string stepUpEntry S2} (s : S2)
  (t now now' : Z) (token acc action : string) (principal' : option string) (action' : string)
  (Hinv : ts_inv s) (Httl : ts_ttl s = stepUpTTL) (Htok : token <> ""%string)
  (Htime : now < t + stepUpTTL) :
  let s1 := snd (StepUpStore_Mint s t token acc action) in
  let '(r, s2) := RequireStepUp s1 now action (Some acc) token in
  r = Forwarded /\ fst (RequireStepUp s2 now' action' principal' token) <> Forwarded.
Proof.
  simpl. unfold RequireStepUp, StepUpStore_Consume. rewrite !(bool_decide_false (token = _)) by done.
  set (s1 := ts_put _ _ _ _). destruct (ts_put_inv s t token (mkStepUp acc action (t + stepUpTTL)) Hinv) as [Hi1 _].
  pose proof (ts_consume_result s1 now token Hi1) as Hr.
  pose proof (ts_consume_abs s1 now token Hi1) as Ha.
  destruct (ts_consume_inv s1 now token Hi1) as [Hi2 _].
  destruct (ts_consume s1 now token) as [r s2]; simpl in *.
  unfold s1 in Hr. rewrite ts_put_self, Httl, (proj2 (Z.ltb_lt _ _)) in Hr by done.
  subst r. simpl. rewrite !bool_decide_true by done. simpl. split; [done|].
  destruct principal' as [acc'|]; [|done].
  pose proof (ts_consume_result s2 now' token Hi2) as Hr2.
  rewrite Ha, lookup_delete_eq in Hr2.
  destruct (ts_consume s2 now' token) as [r2 s3]; simpl in *. by subst.
Qed.

Lemma StepUp_mint_then_gate_witness :
  let s1 := snd (StepUpStore_Mint NewStepUpStore 0 "tok" "alice" ActionRevokePasskey) in
  let '(r, s2) := RequireStepUp s1 7 ActionRevokePasskey (Some "alice"%string) "tok" in
  r = Forwarded /\ fst (RequireStepUp s2 8 ActionRevokePasskey (Some "alice"%string) "tok") <> Forwarded.
Proof.
  apply (StepUp_mint_then_gate NewStepUpStore 0 7 8 "tok" "alice" ActionRevokePasskey
    (Some "alice"%string) ActionRevokePasskey).
  - apply New_wf.
  - reflexivity.
  - discriminate.
  - vm_compute. reflexivity.
Defined.

(** The history behind a challenge that is handed out. *)
Lemma challenge_explained {S1} `{!TTLStore string challengeEntry S1} (s0 : S1)
  (calls : list (tcall string challengeEntry)) (now : Z) (id purpose : string)
  (Hinv : ts_inv s0) (Hempty : ts_abs s0 = ∅) (Httl : ts_ttl s0 = challengeTTL)
  (Hgot : fst (ChallengeStore_Consume (foldl trun1 s0 calls) now id purpose) <> ""%string) :
  exists pre t post,
    calls = pre ++ TPut t id (mkChallenge
      (fst (ChallengeStore_Consume (foldl trun1 s0 calls) now id purpose)) purpose) :: post /\
    now < t + 5 * minute /\ Forall (fun c => ~ touches id c) post.
Proof.
  unfold ChallengeStore_Consume in *.
  pose proof (trun_consume s0 calls now id) as Ht.
  destruct (ts_consume (foldl trun1 s0 calls) now id) as [[[ch pu]|] s'] eqn:Ec; simpl in *; [|done].
  case_bool_decide; simpl in *; [|done]. subst pu.
  destruct (Ht _ Hinv Hempty eq_refl) as (e & Hlt & pre & t & post & -> & -> & Hpost).
  exists pre, t, post. by rewrite Httl in Hlt.
Qed.

(** A challenge is handed out once, only to the flow it was minted for, and
    only within five minutes: a non-empty answer has a mint of that id with
    that purpose behind it, unspent since. *)
Theorem Challenge_sound {S1} `{!TTLStore string challengeEntry S1} (s0 : S1)
  (calls : list (tcall string challengeEntry)) (now : Z) (id purpose : string)
  (Hinv : ts_inv s0) (Hempty : ts_abs s0 = ∅) (Httl : ts_ttl s0 = challengeTTL)
  (Hgot : fst (ChallengeStore_Consume (foldl trun1 s0 calls) now id purpose) <> ""%string) :
  exists pre t post,
    calls = pre ++ TPut t id (mkChallenge
      (fst (ChallengeStore_Consume (foldl trun1 s0 calls) now id purpose)) purpose) :: post /\
    now < t + 5 * minute /\ Forall (fun c => ~ touches id c) post.
Proof. exact (challenge_explained s0 calls now id purpose Hinv Hempty Httl Hgot). Qed.

Lemma Challenge_sound_witness :
  let calls := [TPut 0 "id"%string (mkChallenge "abc" PurposeLogin)] in
  exists pre t post,
    calls = pre ++ TPut t "id"%string (mkChallenge
      (fst (ChallengeStore_Consume (foldl trun1 NewChallengeStore calls) 5 "id" PurposeLogin))
      PurposeLogin) :: post /\
    5 < t + 5 * minute /\ Forall (fun c => ~ touches "id"%string c) post.
Proof.
  apply (Challenge_sound NewChallengeStore [TPut 0 "id"%string (mkChallenge "abc" PurposeLogin)] 5
    "id" PurposeLogin).
  - apply New_wf.
  - reflexivity.
  - reflexivity.
  - vm_compute. discriminate.
Defined.

(** Looking an invite up by its token finds a live slot carrying it if there is
    one, in whatever order the runtime walks the map, and a token that was
    superseded by a newer invite of the account can neither be found nor
    redeemed. *)
Theorem Invite_lookup order s now acc token slot
  (Horder : forall a, is_Some (s !! a) -> a ∈ order)
  (Hslot : s !! acc = Some slot) (Hlive : now < is_ExpiresAt slot)
  (Huniq : forall a sl, s !! a = Some sl -> is_Token sl = is_Token slot -> a = acc) :
  fst (Invite_FindByToken order s now (is_Token slot)) = Some slot /\
  (token <> is_Token slot ->
   let s' := snd (Invite_Create s now acc token) in
   fst (Invite_ConsumeIfTokenMatches s' acc (is_Token slot)) = false /\
   fst (Invite_FindByToken order s' now (is_Token slot)) = None).
Proof.
  split.
  - destruct (fst (Invite_FindByToken order s now (is_Token slot))) as [sl|] eqn:E.
    + apply FindByToken_sound in E as (a & Ha & Htok & _).
      pose proof (Huniq a sl Ha Htok). by simplify_eq.
    + assert (is_ExpiresAt slot <= now); [|lia].
      eapply FindByToken_complete; [done| |done|done]. apply Horder. by eexists.
  - intros Hne s'. subst s'. simpl. unfold Invite_ConsumeIfTokenMatches.
    rewrite (lookup_insert_eq s). simpl. rewrite bool_decide_false by done. split; [done|].
    destruct (fst (Invite_FindByToken order _ now (is_Token slot))) as [sl|] eqn:E; [|done].
    apply FindByToken_sound in E as (a & Ha & Htok & _).
    destruct (decide (a = acc)) as [->|Hna].
    + rewrite (lookup_insert_eq s) in Ha. by simplify_eq.
    + rewrite (lookup_insert_ne s) in Ha by done. by pose proof (Huniq a sl Ha Htok).
Qed.

Lemma Invite_lookup_witness :
  let s := snd (Invite_Create ∅ 0 "alice" "t1") in
  fst (Invite_FindByToken ["alice"%string] s 1 "t1") = Some (fst (Invite_Create ∅ 0 "alice" "t1")) /\
  ("t2"%string <> "t1"%string ->
   let s' := snd (Invite_Create s 1 "alice" "t2") in
   fst (Invite_ConsumeIfTokenMatches s' "alice" "t1") = false /\
   fst (Invite_FindByToken ["alice"%string] s' 1 "t1") = None).
Proof.
  apply (Invite_lookup ["alice"%string] (snd (Invite_Create ∅ 0 "alice" "t1")) 1 "alice" "t2"
    (fst (Invite_Create ∅ 0 "alice" "t1"))).
  - intros a. simpl. unfold InviteStore. rewrite lookup_insert_is_Some'.
    intros [->|[x Hx]]; [by left|by rewrite lookup_empty in Hx].
  - reflexivity.
  - vm_compute. reflexivity.
  - intros a sl. simpl. unfold InviteStore. intros Hl _. apply lookup_insert_Some in Hl as [[? _]|[_ Hl]]; [done|].
    by rewrite lookup_empty in Hl.
Defined.
