(* ===== verification/Approval.v ===== *)
(** * Pending human approvals (internal/approval/store.go)

    The registry of actions awaiting a human. Every operation is one critical
    section of the store's mutex followed, outside of it, by the resolution
    callbacks and the hooks; an operation here returns the new registry, its
    answer, and the list of those calls ([effect]) in the order they are made.
    Where the code ranges over the map, the operation takes the order in which
    the runtime visits the ids. *)
From S2P Require Import Prelude Tokens.

(** ** Data *)

Definition ActionTTL : Z := 60 * second.

Inductive ActionType := TypeWebAuthnSign | TypeKeyApprove.

Inductive Status := StatusPending | StatusCompleted | StatusExpired | StatusDenied.

#[export] Instance ActionType_eq_dec : EqDecision ActionType.
Proof. solve_decision. Defined.
#[export] Instance Status_eq_dec : EqDecision Status.
Proof. solve_decision. Defined.

Record HostKeyInfo := mkHKI { hki_Type : string; hki_Fingerprint : string; hki_Status : string }.

Record Context_ := mkContext {
  cx_Source : string;
  cx_EndpointLabel : string;
  cx_EndpointAddress : string;
  cx_SessionID : string;
  cx_SourceIP : string;
  cx_ClientHostname : string;
  cx_ClientOS : string;
  cx_ClientVersion : string;
  cx_HostKey : option HostKeyInfo;
  cx_TriggerKind : string;
  cx_MCPReason : string;
  cx_MCPClientName : string;
  cx_MCPClientVer : string
}.

(** The browser's assertion (internal/signing/signing.go). *)
Record SignResponse := mkResponse {
  sr_AuthenticatorData : list byte;
  sr_Signature : list byte;
  sr_ClientDataJSON : list byte;
  sr_ActionID : string
}.

(** What a caller supplies; the last three fields say which resolution
    callbacks are set (not nil). *)
Record CreateParams := mkParams {
  cp_AccountID : string;
  cp_Type : ActionType;
  cp_Context : Context_;
  cp_RedirectTo : string;
  cp_ConnectionID : string;
  cp_CredentialID : string;
  cp_Challenge : string;
  cp_RpID : string;
  cp_PasskeyLabel : string;
  cp_UserVerification : string;
  cp_KeyLabel : string;
  cp_KeyFingerprint : string;
  cp_ResolveSign : bool;
  cp_ResolveKey : bool;
  cp_Reject : bool
}.

Record Action := mkAction {
  a_ID : string;
  a_Params : CreateParams;
  a_Status : Status;
  a_CreatedAt : Z;
  a_ExpiresAt : Z
}.

Inductive Outcome := OutcomeApproved | OutcomeDenied | OutcomeExpired | OutcomeCancelled.

(** The sentinel errors of broker.go. *)
Inductive RejectError := ErrDenied | ErrExpired | ErrCancelled.

Record ResolvedEvent := mkResolved {
  re_Action : Action;
  re_Outcome : Outcome;
  re_ResolvedAt : Z;
  re_CancelReason : string
}.

Record ClaimResult := mkClaim {
  cr_Won : bool;
  cr_Found : bool;
  cr_Status : option Status
}.

Inductive effect :=
  | CreatedHook (a : Action)
  | CallResolveSign (id : string) (resp : SignResponse)
  | CallResolveKey (id : string)
  | CallReject (id : string) (err : RejectError)
  | ResolvedHook (ev : ResolvedEvent).

Definition Registry : Type := gmap string Action.

(** ** Operations *)

Definition set_status (a : Action) (st : Status) : Action :=
  mkAction (a_ID a) (a_Params a) st (a_CreatedAt a) (a_ExpiresAt a).

Definition call_if (b : bool) (e : effect) : list effect := if b then [e] else [].

(** [a.reject(err)] when set. *)
Definition rejectAction (a : Action) (err : RejectError) : list effect :=
  call_if (cp_Reject (a_Params a)) (CallReject (a_ID a) err).

Definition emitResolved (a : Action) (outcome : Outcome) (now : Z) (reason : string) : list effect :=
  [ResolvedHook (mkResolved a outcome now reason)].

(** Create; [id] is what the id generator returns. *)
Definition Create (s : Registry) (now : Z) (id : string) (p : CreateParams)
  : Action * Registry * list effect :=
  let a := mkAction id p StatusPending now (now + ActionTTL) in
  (a, <[id := a]> s, [CreatedHook a]).

Definition Get (s : Registry) (id : string) : option Action := s !! id.

(** [a.ExpiresAt.After(now)] *)
Definition stillValid (a : Action) (now : Z) : bool := now <? a_ExpiresAt a.

Definition takePending (s : Registry) (now : Z) (id : string) (typ : option ActionType) (to : Status)
  : option Action * ClaimResult * Registry * list effect :=
  match s !! id with
  | None => (None, mkClaim false false None, s, [])
  | Some a =>
      if match typ with Some t => negb (bool_decide (cp_Type (a_Params a) = t)) | None => false end
      then (None, mkClaim false false None, s, [])
      else if bool_decide (a_Status a = StatusPending) && negb (stillValid a now) then
        let a' := set_status a StatusExpired in
        (None, mkClaim false true (Some StatusExpired), <[id := a']> s,
         rejectAction a' ErrExpired ++ emitResolved a' OutcomeExpired now "")
      else if negb (bool_decide (a_Status a = StatusPending)) then
        (None, mkClaim false true (Some (a_Status a)), s, [])
      else
        let a' := set_status a to in
        (Some a', mkClaim true true (Some to), <[id := a']> s, [])
  end.

Definition ResolveSign (s : Registry) (now : Z) (id : string) (resp : SignResponse)
  : ClaimResult * Registry * list effect :=
  let '(a, res, s', es) := takePending s now id (Some TypeWebAuthnSign) StatusCompleted in
  match a with
  | None => (res, s', es)
  | Some a =>
      let resp := mkResponse (sr_AuthenticatorData resp) (sr_Signature resp)
                    (sr_ClientDataJSON resp) (a_ID a) in
      (res, s', es ++ call_if (cp_ResolveSign (a_Params a)) (CallResolveSign (a_ID a) resp)
                   ++ emitResolved a OutcomeApproved now "")
  end.

Definition ResolveKey (s : Registry) (now : Z) (id : string) : ClaimResult * Registry * list effect :=
  let '(a, res, s', es) := takePending s now id (Some TypeKeyApprove) StatusCompleted in
  match a with
  | None => (res, s', es)
  | Some a =>
      (res, s', es ++ call_if (cp_ResolveKey (a_Params a)) (CallResolveKey (a_ID a))
                   ++ emitResolved a OutcomeApproved now "")
  end.

Definition Deny (s : Registry) (now : Z) (id : string) : ClaimResult * Registry * list effect :=
  let '(a, res, s', es) := takePending s now id None StatusDenied in
  match a with
  | None => (res, s', es)
  | Some a => (res, s', es ++ rejectAction a ErrDenied ++ emitResolved a OutcomeDenied now "")
  end.

(** The range loop of CancelForConnection. *)
Fixpoint cancel_loop (order : list string) (s : Registry) (connectionID : string)
  : Registry * list Action :=
  match order with
  | [] => (s, [])
  | id :: order' =>
      match s !! id with
      | None => cancel_loop order' s connectionID
      | Some a =>
          if bool_decide (a_Status a = StatusPending)
             && bool_decide (cp_ConnectionID (a_Params a) = connectionID)
          then
            let a' := set_status a StatusDenied in
            let '(s', l) := cancel_loop order' (<[id := a']> s) connectionID in
            (s', a' :: l)
          else cancel_loop order' s connectionID
      end
  end.

Definition CancelForConnection (order : list string) (s : Registry) (now : Z)
  (connectionID reason : string) : list Action * Registry * list effect :=
  let '(s', cancelled) := cancel_loop order s connectionID in
  (cancelled, s',
   concat (map (fun a => rejectAction a ErrCancelled
                         ++ emitResolved a OutcomeCancelled now reason) cancelled)).

Definition cleanupGrace : Z := 120 * second.

(** The range loop of Sweep: one visit may both expire an action and, when its
    grace is over too, delete it. *)
Fixpoint sweep_loop (order : list string) (s : Registry) (now : Z) : Registry * list Action :=
  match order with
  | [] => (s, [])
  | id :: order' =>
      match s !! id with
      | None => sweep_loop order' s now
      | Some a =>
          let expire := bool_decide (a_Status a = StatusPending) && negb (stillValid a now) in
          let a' := if expire then set_status a StatusExpired else a in
          let s1 := if expire then <[id := a']> s else s in
          let s2 :=
            if negb (bool_decide (a_Status a' = StatusPending)) && (now - a_ExpiresAt a' >? cleanupGrace)
            then delete id s1 else s1 in
          let '(s', l) := sweep_loop order' s2 now in
          (s', (if expire then [a'] else []) ++ l)
      end
  end.

Definition Sweep (order : list string) (s : Registry) (now : Z) : Registry * list effect :=
  let '(s', expired) := sweep_loop order s now in
  (s', concat (map (fun a => rejectAction a ErrExpired
                             ++ emitResolved a OutcomeExpired now "") expired)).

(** ** Histories *)

Inductive op :=
  | OpCreate (now : Z) (id : string) (p : CreateParams)
  | OpResolveSign (now : Z) (id : string) (resp : SignResponse)
  | OpResolveKey (now : Z) (id : string)
  | OpDeny (now : Z) (id : string)
  | OpCancel (now : Z) (order : list string) (connectionID reason : string)
  | OpSweep (now : Z) (order : list string).

Definition exec (s : Registry) (o : op) : Registry * list effect :=
  match o with
  | OpCreate now id p => let '(_, s', es) := Create s now id p in (s', es)
  | OpResolveSign now id resp => let '(_, s', es) := ResolveSign s now id resp in (s', es)
  | OpResolveKey now id => let '(_, s', es) := ResolveKey s now id in (s', es)
  | OpDeny now id => let '(_, s', es) := Deny s now id in (s', es)
  | OpCancel now order c r => let '(_, s', es) := CancelForConnection order s now c r in (s', es)
  | OpSweep now order => Sweep order s now
  end.

(** The registry after a history and everything it called, in order. *)
Fixpoint run (s : Registry) (ops : list op) : Registry * list effect :=
  match ops with
  | [] => (s, [])
  | o :: ops' =>
      let '(s1, es1) := exec s o in
      let '(s2, es2) := run s1 ops' in
      (s2, es1 ++ es2)
  end.

(** The resolution callback an effect is, if it is one. *)
Definition callback_of (e : effect) : option string :=
  match e with
  | CallResolveSign id _ | CallResolveKey id | CallReject id _ => Some id
  | CreatedHook _ | ResolvedHook _ => None
  end.

(** The action a resolved hook is about. *)
Definition resolved_of (e : effect) : option string :=
  match e with ResolvedHook ev => Some (a_ID (re_Action ev)) | _ => None end.

Definition count_id (f : effect -> option string) (id : string) (es : list effect) : nat :=
  length (filter (fun e => f e = Some id) es).

Definition created_ids (ops : list op) : list string :=
  omap (fun o => match o with OpCreate _ id _ => Some id | _ => None end) ops.

(** ** Lemmas: counting effects *)

Lemma count_id_app f id es1 es2 :
  count_id f id (es1 ++ es2) = (count_id f id es1 + count_id f id es2)%nat.
Proof. unfold count_id. by rewrite filter_app, length_app. Qed.

Lemma count_id_nil f id : count_id f id [] = 0%nat.
Proof. done. Qed.

Lemma count_id_one f id e :
  count_id f id [e] = if decide (f e = Some id) then 1%nat else 0%nat.
Proof. unfold count_id. rewrite filter_cons. by destruct (decide _). Qed.

Lemma count_id_call_if f id b e :
  (count_id f id (call_if b e) <= count_id f id [e])%nat.
Proof. destruct b; simpl; [done|]. rewrite count_id_nil. lia. Qed.

#[export] Hint Rewrite count_id_app count_id_nil count_id_one : count_id.

(** The calls made for one settled action. *)
Definition settle (f : Action -> list effect) (out : Outcome) (now : Z) (reason : string) (a : Action)
  : list effect := f a ++ emitResolved a out now reason.

Lemma count_settle_resolved err out now reason id (l : list Action) :
  count_id resolved_of id
    (concat (map (fun a => rejectAction a err ++ emitResolved a out now reason) l)) =
  length (filter (fun a => a_ID a = id) l).
Proof.
  induction l as [|a l IH]; [done|]. simpl. rewrite !count_id_app, IH, filter_cons.
  assert (count_id resolved_of id (rejectAction a err) = 0%nat) as ->.
  { unfold rejectAction, call_if. by destruct (cp_Reject _). }
  unfold emitResolved. rewrite count_id_one. simpl.
  destruct (decide (a_ID a = id)) as [->|]; [by rewrite decide_True|].
  by rewrite decide_False by congruence.
Qed.

Lemma count_settle_callback err out now reason id (l : list Action) :
  (count_id callback_of id
    (concat (map (fun a => rejectAction a err ++ emitResolved a out now reason) l)) <=
  length (filter (fun a => a_ID a = id) l))%nat.
Proof.
  induction l as [|a l IH]; [done|]. simpl. rewrite !count_id_app, filter_cons.
  unfold emitResolved at 1. rewrite (count_id_one _ _ (ResolvedHook _)). simpl.
  unfold rejectAction at 1. pose proof (count_id_call_if callback_of id (cp_Reject (a_Params a))
    (CallReject (a_ID a) err)) as Hc. rewrite count_id_one in Hc. simpl in Hc.
  destruct (decide (a_ID a = id)) as [Heq|]; simpl.
  - rewrite decide_True in Hc by congruence. lia.
  - rewrite decide_False in Hc by congruence. lia.
Qed.

(** ** Lemmas: what one operation does to one action *)

(** Lookups in a registry. *)
Lemma registry_insert_eq (s : Registry) id a : (<[id := a]> s : Registry) !! id = Some a.
Proof. apply lookup_insert_eq. Qed.

Lemma registry_insert_ne (s : Registry) id id' a : id <> id' -> (<[id := a]> s : Registry) !! id' = s !! id'.
Proof. apply lookup_insert_ne. Qed.

Lemma registry_delete_eq (s : Registry) id : (delete id s : Registry) !! id = None.
Proof. apply lookup_delete_eq. Qed.

Lemma registry_delete_ne (s : Registry) id id' : id <> id' -> (delete id s : Registry) !! id' = s !! id'.
Proof. apply lookup_delete_ne. Qed.

Lemma registry_empty id : (∅ : Registry) !! id = None.
Proof. apply lookup_empty. Qed.

(** An action is stored under its own id and expires one minute after its
    creation. *)
Definition wf (s : Registry) : Prop :=
  forall id a, s !! id = Some a -> a_ID a = id /\ a_ExpiresAt a = a_CreatedAt a + ActionTTL.

(** Absent, pending ([Some true]) or settled ([Some false]). *)
Definition phase (s : Registry) (id : string) : option bool :=
  (fun a => bool_decide (a_Status a = StatusPending)) <$> s !! id.

(** How an operation may change the phase of an id, with the number of
    resolved hooks and of callbacks it fires for it. *)
Inductive delta : bool -> option bool -> option bool -> nat -> nat -> Prop :=
  | delta_same p : delta false p p 0 0
  | delta_settle n : (n <= 1)%nat -> delta false (Some true) (Some false) 1 n
  | delta_settle_delete n : (n <= 1)%nat -> delta false (Some true) None 1 n
  | delta_delete : delta false (Some false) None 0 0
  | delta_create p : delta true p (Some true) 0 0.

Definition creates (o : op) (id : string) : bool :=
  match o with OpCreate _ id' _ => bool_decide (id' = id) | _ => false end.

Lemma phase_insert s id a : phase (<[id := a]> s) id = Some (bool_decide (a_Status a = StatusPending)).
Proof. unfold phase. by rewrite registry_insert_eq. Qed.

Lemma phase_insert_ne s id id' a : id <> id' -> phase (<[id := a]> s) id' = phase s id'.
Proof. intros. unfold phase. by rewrite registry_insert_ne. Qed.

Lemma wf_insert s id a a' :
  wf s -> s !! id = Some a -> a_ID a' = a_ID a -> a_ExpiresAt a' = a_ExpiresAt a ->
  a_CreatedAt a' = a_CreatedAt a -> wf (<[id := a']> s).
Proof.
  intros Hwf Ha H1 H2 H3 i b. destruct (decide (id = i)) as [->|].
  - rewrite registry_insert_eq. intros; simplify_eq. rewrite H1, H2, H3. by apply Hwf.
  - rewrite registry_insert_ne by done. apply Hwf.
Qed.

(** The four outcomes of a claim. *)
Lemma takePending_cases s now id typ to :
  match takePending s now id typ to with
  | (None, res, s', es) =>
      cr_Won res = false /\
      ((es = [] /\ s' = s /\
        (res = mkClaim false false None \/
         exists a, s !! id = Some a /\ a_Status a <> StatusPending /\
           res = mkClaim false true (Some (a_Status a)))) \/
       (exists a, s !! id = Some a /\ a_Status a = StatusPending /\ a_ExpiresAt a <= now /\
         s' = <[id := set_status a StatusExpired]> s /\
         res = mkClaim false true (Some StatusExpired) /\
         es = rejectAction (set_status a StatusExpired) ErrExpired
              ++ emitResolved (set_status a StatusExpired) OutcomeExpired now ""))
  | (Some a', res, s', es) =>
      exists a, s !! id = Some a /\ a_Status a = StatusPending /\ now < a_ExpiresAt a /\
        (forall t, typ = Some t -> cp_Type (a_Params a) = t) /\
        a' = set_status a to /\ s' = <[id := a']> s /\ es = [] /\
        res = mkClaim true true (Some to)
  end.
Proof.
  unfold takePending, stillValid. destruct (s !! id) as [a|] eqn:E; [|naive_solver].
  destruct (match typ with Some t => _ | None => false end) eqn:Et.
  { naive_solver. }
  destruct (decide (a_Status a = StatusPending)) as [Hp|Hp].
  - rewrite bool_decide_true by done. simpl. destruct (now <? a_ExpiresAt a) eqn:E1; simpl; bool_to_prop.
    + exists a. repeat (split; [done|]). split; [|done].
      intros t ->. apply negb_false_iff in Et. by apply bool_decide_eq_true in Et.
    + split; [done|]. right. exists a. done.
  - rewrite bool_decide_false by done. simpl. split; [done|]. left. split; [done|].
    split; [done|]. right. by exists a.
Qed.

(** A settled claim as a [delta]. *)
Lemma delta_settled s id id' a to (f : bool) e out now reason :
  wf s -> s !! id = Some a -> a_Status a = StatusPending -> to <> StatusPending ->
  callback_of e = Some id ->
  delta false (phase s id') (phase (<[id := set_status a to]> s) id')
    (count_id resolved_of id' (call_if f e ++ emitResolved (set_status a to) out now reason))
    (count_id callback_of id' (call_if f e ++ emitResolved (set_status a to) out now reason)).
Proof.
  intros Hwf Ha Hp Hto He. destruct (Hwf id a Ha) as [Hid _].
  rewrite !count_id_app. unfold emitResolved. rewrite !count_id_one. simpl. rewrite Hid.
  assert (Hr : count_id resolved_of id' (call_if f e) = 0%nat).
  { destruct f; simpl; [|done]. rewrite count_id_one. destruct e; simpl in *; try done. }
  assert (Hc : (count_id callback_of id' (call_if f e) <= if decide (id = id') then 1 else 0)%nat).
  { etrans; [apply count_id_call_if|]. rewrite count_id_one, He.
    destruct (decide (id = id')) as [->|]; [by rewrite decide_True|].
    by rewrite decide_False by congruence. }
  rewrite Hr. destruct (decide (id = id')) as [->|Hne].
  - rewrite phase_insert, decide_True by done. simpl. rewrite bool_decide_false by done.
    unfold phase. rewrite Ha. simpl. rewrite bool_decide_true by done.
    constructor. lia.
  - rewrite phase_insert_ne by done. rewrite decide_False by congruence.
    replace (count_id callback_of id' (call_if f e)) with 0%nat by lia. constructor.
Qed.

Lemma delta_weaken p q r c : delta false p q r 0 -> (c <= r)%nat -> delta false p q r c.
Proof.
  inversion 1; subst; intros; try (by constructor); replace c with 0%nat by lia; constructor.
Qed.

Lemma delta_trans p q q' r1 r2 :
  delta false p q r1 0 -> delta false q q' r2 0 -> delta false p q' (r1 + r2) 0.
Proof. inversion 1; subst; inversion 1; subst; simpl; by constructor. Qed.

(** A claim with the effects its winner adds. *)
Lemma claim_delta s now id typ to (f : Action -> bool) (e : Action -> effect) out :
  wf s -> to <> StatusPending -> (forall a, a_ID a = id -> callback_of (e a) = Some id) ->
  let '(a, res, s', es) := takePending s now id typ to in
  let es' := match a with
             | None => es
             | Some a => es ++ call_if (f a) (e a) ++ emitResolved a out now ""
             end in
  wf s' /\ forall id', delta false (phase s id') (phase s' id')
    (count_id resolved_of id' es') (count_id callback_of id' es').
Proof.
  intros Hwf Hto He. pose proof (takePending_cases s now id typ to) as Hc.
  destruct (takePending s now id typ to) as [[[[a'|] res] s'] es]; simpl.
  - destruct Hc as (a & Ha & Hp & _ & _ & -> & -> & -> & _).
    destruct (Hwf id a Ha) as [Hid _].
    split; [by eapply wf_insert|]. intros id'. simpl. apply delta_settled; try done. by apply He.
  - destruct Hc as [_ [(-> & -> & _)|(a & Ha & Hp & _ & -> & _ & ->)]].
    + split; [done|]. intros. rewrite !count_id_nil. constructor.
    + destruct (Hwf id a Ha) as [Hid _]. split; [by eapply wf_insert|]. intros id'.
      unfold rejectAction. apply delta_settled; try done. simpl. by rewrite Hid.
Qed.

(** One visit of a range loop that settles and possibly deletes an entry. *)
Lemma visit_delta s id a a' (del : bool) id' :
  wf s -> s !! id = Some a -> a_ID a' = id ->
  (a' = a \/ (a_Status a = StatusPending /\ a' = set_status a StatusExpired)
    \/ (a_Status a = StatusPending /\ a' = set_status a StatusDenied)) ->
  (del = true -> a_Status a' <> StatusPending) ->
  delta false (phase s id') (phase (if del then delete id s else <[id := a']> s) id')
    (if bool_decide (a_Status a <> a_Status a') then length (filter (fun b => a_ID b = id') [a']) else 0) 0.
Proof.
  intros Hwf Ha Hid Hcase Hdel. destruct (decide (id = id')) as [->|Hne].
  - assert (Hph : phase s id' = Some (bool_decide (a_Status a = StatusPending)))
      by (unfold phase; by rewrite Ha).
    assert (Hph' : phase (if del then delete id' s else <[id' := a']> s) id' =
      if del then None else Some (bool_decide (a_Status a' = StatusPending))).
    { destruct del; [unfold phase; by rewrite registry_delete_eq|by rewrite phase_insert]. }
    rewrite Hph, Hph', filter_cons, decide_True by done. simpl.
    destruct Hcase as [->|[[Hp ->]|[Hp ->]]]; simpl in *.
    + rewrite (bool_decide_false (_ <> _)) by (intros Hn; by apply Hn).
      destruct del; [|constructor]. rewrite bool_decide_false by auto. constructor.
    + rewrite Hp. simpl. destruct del; constructor; lia.
    + rewrite Hp. simpl. destruct del; constructor; lia.
  - assert (phase (if del then delete id s else <[id := a']> s) id' = phase s id') as ->.
    { destruct del; [unfold phase; by rewrite registry_delete_ne|by rewrite phase_insert_ne]. }
    rewrite filter_cons, decide_False by congruence. simpl. case_bool_decide; constructor.
Qed.

Lemma wf_delete s id : wf s -> wf (delete id s).
Proof. intros Hwf i a [_ Ha]%lookup_delete_Some. by apply Hwf. Qed.

Lemma filter_id_app (l1 l2 : list Action) id :
  length (filter (fun a => a_ID a = id) (l1 ++ l2)) =
  (length (filter (fun a => a_ID a = id) l1) + length (filter (fun a => a_ID a = id) l2))%nat.
Proof. by rewrite filter_app, length_app. Qed.

Lemma cancel_loop_delta order s c :
  wf s ->
  let '(s', l) := cancel_loop order s c in
  wf s' /\ forall id', delta false (phase s id') (phase s' id')
    (length (filter (fun a => a_ID a = id') l)) 0.
Proof.
  revert s. induction order as [|id order IH]; intros s Hwf; simpl.
  - split; [done|]. intros. constructor.
  - destruct (s !! id) as [a|] eqn:Ha; [|by apply IH].
    destruct (_ && _) eqn:E; [|by apply IH]. bool_to_prop.
    destruct (Hwf id a Ha) as [Hid _].
    assert (Hwf1 : wf (<[id := set_status a StatusDenied]> s)) by (by eapply wf_insert).
    specialize (IH _ Hwf1). destruct (cancel_loop order _ c) as [s' l].
    destruct IH as [? Hd]. split; [done|]. intros id'.
    change (set_status a StatusDenied :: l) with ([set_status a StatusDenied] ++ l).
    rewrite filter_id_app. eapply delta_trans; [|apply Hd].
    pose proof (visit_delta s id a (set_status a StatusDenied) false id' Hwf Ha Hid) as Hv.
    simpl a_Status in Hv. rewrite bool_decide_true in Hv by congruence. apply Hv; [|done].
    right. by right.
Qed.

Lemma sweep_loop_delta order s now :
  wf s ->
  let '(s', l) := sweep_loop order s now in
  wf s' /\ forall id', delta false (phase s id') (phase s' id')
    (length (filter (fun a => a_ID a = id') l)) 0.
Proof.
  revert s. induction order as [|id order IH]; intros s Hwf; simpl.
  - split; [done|]. intros. constructor.
  - destruct (s !! id) as [a|] eqn:Ha; [|by apply IH].
    destruct (Hwf id a Ha) as [Hid _]. unfold stillValid.
    set (expire := bool_decide (a_Status a = StatusPending) && negb (now <? a_ExpiresAt a)).
    set (a' := if expire then set_status a StatusExpired else a).
    set (del := negb (bool_decide (a_Status a' = StatusPending)) && (now - a_ExpiresAt a' >? cleanupGrace)).
    assert (Hs2 : (if del then delete id (if expire then <[id := a']> s else s)
                   else if expire then <[id := a']> s else s) =
                  (if del then delete id s else <[id := a']> s)).
    { destruct expire eqn:Ee; subst a'; destruct del; rewrite ?(delete_insert_eq s); try done.
      by rewrite (insert_id s). }
    rewrite Hs2.
    assert (Hid' : a_ID a' = id) by (subst a'; by destruct expire).
    assert (Hwf2 : wf (if del then delete id s else <[id := a']> s)).
    { destruct del; [by apply wf_delete|]. eapply wf_insert; [done|done| | |];
        subst a'; by destruct expire. }
    specialize (IH _ Hwf2). destruct (sweep_loop order _ now) as [s' l].
    destruct IH as [? Hd]. split; [done|]. intros id'. rewrite filter_id_app.
    eapply delta_trans; [|apply Hd].
    pose proof (visit_delta s id a a' del id' Hwf Ha Hid') as Hv.
    assert (Hst : bool_decide (a_Status a <> a_Status a') = expire).
    { subst a'. destruct expire eqn:Ee; simpl; [|by apply bool_decide_false; intros ?].
      apply bool_decide_true. subst expire. bool_to_prop. congruence. }
    rewrite Hst in Hv.
    replace (length (filter (fun a0 => a_ID a0 = id') (if expire then [a'] else []))) with
      (if expire then length (filter (fun b => a_ID b = id') [a']) else 0%nat)
      by (by destruct expire).
    apply Hv.
    + subst a'. destruct expire eqn:Ee; [right; left|by left]. subst expire. by bool_to_prop.
    + subst del. intros. by bool_to_prop.
Qed.

(** Every operation, on every id. *)
Lemma exec_delta s o s' es :
  wf s -> exec s o = (s', es) ->
  wf s' /\ forall id, delta (creates o id) (phase s id) (phase s' id)
    (count_id resolved_of id es) (count_id callback_of id es).
Proof.
  intros Hwf. destruct o as [now id p|now id resp|now id|now id|now order c r|now order]; simpl.
  - intros; simplify_eq. split.
    + intros i a. destruct (decide (id = i)) as [->|].
      * rewrite registry_insert_eq. by intros; simplify_eq.
      * rewrite registry_insert_ne by done. apply Hwf.
    + intros i. rewrite !count_id_one. simpl. case_bool_decide; subst.
      * rewrite phase_insert. simpl. constructor.
      * rewrite phase_insert_ne by done. constructor.
  - unfold ResolveSign. pose proof (claim_delta s now id (Some TypeWebAuthnSign) StatusCompleted
      (fun a => cp_ResolveSign (a_Params a))
      (fun a => CallResolveSign (a_ID a) (mkResponse (sr_AuthenticatorData resp) (sr_Signature resp)
                    (sr_ClientDataJSON resp) (a_ID a))) OutcomeApproved Hwf ltac:(done)) as Hd.
    destruct (takePending _ _ _ _ _) as [[[[a|] res] s1] es1]; intros; simplify_eq;
      apply Hd; simpl; congruence.
  - unfold ResolveKey. pose proof (claim_delta s now id (Some TypeKeyApprove) StatusCompleted
      (fun a => cp_ResolveKey (a_Params a)) (fun a => CallResolveKey (a_ID a))
      OutcomeApproved Hwf ltac:(done)) as Hd.
    destruct (takePending _ _ _ _ _) as [[[[a|] res] s1] es1]; intros; simplify_eq;
      apply Hd; simpl; congruence.
  - unfold Deny. pose proof (claim_delta s now id None StatusDenied
      (fun a => cp_Reject (a_Params a)) (fun a => CallReject (a_ID a) ErrDenied)
      OutcomeDenied Hwf ltac:(done)) as Hd.
    destruct (takePending _ _ _ _ _) as [[[[a|] res] s1] es1]; intros; simplify_eq;
      apply Hd; simpl; congruence.
  - unfold CancelForConnection. pose proof (cancel_loop_delta order s c Hwf) as Hd.
    destruct (cancel_loop order s c) as [s1 l]. destruct Hd as [? Hd]. intros; simplify_eq.
    split; [done|]. intros id. rewrite count_settle_resolved.
    apply delta_weaken; [apply Hd|apply count_settle_callback].
  - unfold Sweep. pose proof (sweep_loop_delta order s now Hwf) as Hd.
    destruct (sweep_loop order s now) as [s1 l]. destruct Hd as [? Hd]. intros; simplify_eq.
    split; [done|]. intros id. rewrite count_settle_resolved.
    apply delta_weaken; [apply Hd|apply count_settle_callback].
Qed.

Lemma run_app s ops1 ops2 :
  run s (ops1 ++ ops2) =
  let '(s1, es1) := run s ops1 in let '(s2, es2) := run s1 ops2 in (s2, es1 ++ es2).
Proof.
  revert s. induction ops1 as [|o ops1 IH]; intros s; simpl.
  - by destruct (run s ops2).
  - destruct (exec s o) as [s1 es1]. rewrite IH. destruct (run s1 ops1) as [s2 es2].
    destruct (run s2 ops2) as [s3 es3]. by rewrite app_assoc.
Qed.

Lemma run_wf s ops : wf s -> wf (fst (run s ops)).
Proof.
  revert s. induction ops as [|o ops IH]; intros s Hwf; [done|]. simpl.
  destruct (exec s o) as [s1 es1] eqn:E. apply exec_delta in E as [Hwf1 _]; [|done].
  specialize (IH s1 Hwf1). by destruct (run s1 ops).
Qed.

Lemma created_cons o ops :
  created_ids (o :: ops) =
  match o with OpCreate _ id _ => id :: created_ids ops | _ => created_ids ops end.
Proof. by destruct o. Qed.

(** An id that may still be settled: pending now, or created later. *)
Definition budget (s : Registry) (ops : list op) (id : string) : Prop :=
  phase s id = Some true \/ id ∈ created_ids ops.

(** The ids a history creates are new in it and in the registry. *)
Definition fresh_ids (s : Registry) (ops : list op) : Prop :=
  NoDup (created_ids ops) /\ forall i, i ∈ created_ids ops -> phase s i = None.

Lemma fresh_ids_step s o ops s1 es1 :
  wf s -> fresh_ids s (o :: ops) -> exec s o = (s1, es1) -> fresh_ids s1 ops.
Proof.
  intros Hwf [Hnd Hfresh] E. destruct (exec_delta _ _ _ _ Hwf E) as [_ Hd].
  rewrite created_cons in Hnd, Hfresh. split.
  - destruct o; try done. by inversion Hnd.
  - intros i Hi. specialize (Hd i).
    assert (creates o i = false /\ phase s i = None) as [Hc Hp].
    { destruct o; simpl; split; try done; try (apply Hfresh; set_solver).
      apply bool_decide_false. intros ->. by inversion Hnd. }
    rewrite Hc, Hp in Hd. by inversion Hd.
Qed.

(** What a history can do to one id. *)
Lemma run_counts ops s id :
  wf s -> fresh_ids s ops ->
  let '(s', es) := run s ops in
  let settled := count_id resolved_of id es in
  (count_id callback_of id es <= settled <= 1)%nat /\
  (~ budget s ops id -> settled = 0%nat /\ phase s' id <> Some true) /\
  (phase s' id = Some true -> settled = 0%nat) /\
  (phase s' id = Some false -> phase s id = Some false \/ settled = 1%nat).
Proof.
  revert s. induction ops as [|o ops IH]; intros s Hwf Hfresh; simpl.
  - rewrite !count_id_nil. unfold budget. repeat split; try lia; tauto.
  - destruct (exec s o) as [s1 es1] eqn:E.
    destruct (exec_delta _ _ _ _ Hwf E) as [Hwf1 Hd]. specialize (Hd id).
    pose proof (fresh_ids_step _ _ _ _ _ Hwf Hfresh E) as Hfresh1.
    specialize (IH s1 Hwf1 Hfresh1). destruct (run s1 ops) as [s' es2]. cbv zeta in *.
    rewrite !count_id_app. destruct IH as (Hle & Hbud & Hpend & Hset).
    assert (Hin : creates o id = false -> id ∈ created_ids (o :: ops) <-> id ∈ created_ids ops).
    { rewrite created_cons. destruct o; simpl; try done.
      intros Hc%bool_decide_eq_false. set_solver. }
    assert (Hnew : phase s id <> None -> id ∉ created_ids (o :: ops)).
    { intros Hp Hi. by apply Hp, Hfresh. }
    unfold budget in *.
    inversion Hd as [p Hc Hp Hp1 Hr Hcb|n Hn Hc Hp Hp1 Hr Hcb|n Hn Hc Hp Hp1 Hr Hcb
      |Hc Hp Hp1 Hr Hcb|p Hc Hp Hp1 Hr Hcb]; subst;
      rewrite <- ?Hr, <- ?Hcb, <- ?Hp, <- ?Hp1 in *; simpl.
    + rewrite Hin by done. repeat split; try (apply Hbud; tauto); try lia; tauto.
    + assert (id ∉ created_ids ops) by (rewrite <- Hin by done; by apply Hnew).
      destruct Hbud as [Hz Hnt]; [intros [?|?]; done|]. rewrite Hz in *.
      repeat split; try lia; tauto.
    + assert (id ∉ created_ids ops) by (rewrite <- Hin by done; by apply Hnew).
      destruct Hbud as [Hz Hnt]; [intros [?|?]; done|]. rewrite Hz in *.
      repeat split; try lia; tauto.
    + assert (id ∉ created_ids ops) by (rewrite <- Hin by done; by apply Hnew).
      destruct Hbud as [Hz Hnt]; [intros [?|?]; done|]. rewrite Hz in *.
      repeat split; try lia; try tauto.
    + assert (id ∈ created_ids (o :: ops)).
      { rewrite created_cons. destruct o; try done. symmetry in Hc. apply bool_decide_eq_true in Hc as ->.
        set_solver. }
      repeat split; try lia; try tauto. intros Hf. right. by destruct (Hset Hf).
Qed.

Lemma wf_empty : wf ∅.
Proof. intros id a Ha. by rewrite registry_empty in Ha. Qed.

(** ** Properties *)

(** Whatever the interleaving of approvals, denials, cancellations and sweeps,
    an action is settled at most once: at most one resolution callback and at
    most one resolved event ever fire for it, none while it is pending, and
    exactly one event once it is settled in the registry. The one-slot channels
    behind the callbacks therefore never block a second sender (C1). *)
Theorem settled_at_most_once (ops : list op) (id : string)
  (Huuid : NoDup (created_ids ops)) :
  let '(s, es) := run ∅ ops in
  (count_id callback_of id es <= count_id resolved_of id es <= 1)%nat /\
  (phase s id = Some true -> count_id callback_of id es = 0%nat) /\
  (phase s id = Some false -> count_id resolved_of id es = 1%nat) /\
  (id ∉ created_ids ops -> count_id callback_of id es = 0%nat).
Proof.
  pose proof (run_counts ops ∅ id wf_empty) as Hc.
  assert (Hp : forall i, phase ∅ i = None) by (intros; unfold phase; by rewrite registry_empty).
  destruct (run ∅ ops) as [s es]. destruct Hc as (Hle & Hbud & Hpend & Hset); [by split|].
  split; [done|]. split; [|split].
  - intros Hs. specialize (Hpend Hs). lia.
  - intros Hs. destruct (Hset Hs) as [Hf|]; [|done]. by rewrite Hp in Hf.
  - intros Hn. destruct Hbud as [? _]; [|lia]. unfold budget. rewrite Hp. by intros [?|?].
Qed.

Definition sample_context : Context_ :=
  mkContext "agent-proxy" "" "" "" "" "" "" "" None "" "" "" "".

Definition sample_params (typ : ActionType) (conn : string) : CreateParams :=
  mkParams "alice" typ sample_context "" conn "cred" "" "localhost" "key" "required" "" "" true true true.

Definition sample_response : SignResponse := mkResponse [] [] [] "".

Lemma settled_at_most_once_witness :
  let ops := [OpCreate 0 "a" (sample_params TypeWebAuthnSign "c");
              OpResolveSign 5 "a" sample_response; OpDeny 6 "a"; OpSweep 70000000000 ["a"%string]] in
  NoDup (created_ids ops) /\
  let '(s, es) := run ∅ ops in
  (count_id callback_of "a" es <= count_id resolved_of "a" es <= 1)%nat /\
  (phase s "a" = Some true -> count_id callback_of "a" es = 0%nat) /\
  (phase s "a" = Some false -> count_id resolved_of "a" es = 1%nat) /\
  ("a"%string ∉ created_ids ops -> count_id callback_of "a" es = 0%nat).
Proof.
  split; [repeat constructor; set_solver|].
  apply (settled_at_most_once [OpCreate 0 "a" (sample_params TypeWebAuthnSign "c");
              OpResolveSign 5 "a" sample_response; OpDeny 6 "a"; OpSweep 70000000000 ["a"%string]] "a").
  repeat constructor; set_solver.
Defined.

(** Where the entries of a registry come from: an operation only changes
    statuses, so an entry was there before with the same parameters, or the
    operation has just created it. *)
Definition same_request (a a' : Action) : Prop :=
  a_ID a = a_ID a' /\ a_Params a = a_Params a' /\ a_CreatedAt a = a_CreatedAt a'
  /\ a_ExpiresAt a = a_ExpiresAt a'.

Lemma same_request_refl a : same_request a a.
Proof. done. Qed.

Lemma insert_origin (s : Registry) id a st i b :
  s !! id = Some a -> <[id := set_status a st]> s !! i = Some b ->
  exists b0, s !! i = Some b0 /\ same_request b0 b.
Proof.
  intros Ha. destruct (decide (id = i)) as [->|].
  - rewrite registry_insert_eq. intros; simplify_eq. by exists a.
  - rewrite registry_insert_ne by done. by exists b.
Qed.

Lemma cancel_loop_origin order (s : Registry) c i b :
  fst (cancel_loop order s c) !! i = Some b -> exists b0, s !! i = Some b0 /\ same_request b0 b.
Proof.
  revert s. induction order as [|id order IH]; intros s; simpl; [by exists b|].
  destruct (s !! id) as [a|] eqn:Ha; [|apply IH]. destruct (_ && _); [|apply IH].
  destruct (cancel_loop order _ c) as [s' l] eqn:El. simpl. intros Hb.
  destruct (IH (<[id := set_status a StatusDenied]> s)) as (b1 & Hb1 & Hs1); [by rewrite El|].
  destruct (insert_origin _ _ _ _ _ _ Ha Hb1) as (b0 & ? & ?). exists b0. split; [done|].
  unfold same_request in *. intuition congruence.
Qed.

Lemma sweep_loop_origin order (s : Registry) now i b :
  fst (sweep_loop order s now) !! i = Some b -> exists b0, s !! i = Some b0 /\ same_request b0 b.
Proof.
  revert s. induction order as [|id order IH]; intros s; simpl; [by exists b|].
  destruct (s !! id) as [a|] eqn:Ha; [|apply IH].
  match goal with |- context [sweep_loop order ?s2 now] => set (s2' := s2) end.
  destruct (sweep_loop order s2' now) as [s' l] eqn:El. simpl. intros Hb.
  destruct (IH s2') as (b1 & Hb1 & Hs1); [by rewrite El|].
  assert (exists b0, s !! i = Some b0 /\ same_request b0 b1) as (b0 & ? & ?).
  { assert (Hs : forall t st, t = s \/ t = <[id := set_status a st]> s ->
      t !! i = Some b1 -> exists b0, s !! i = Some b0 /\ same_request b0 b1).
    { intros t st [->| ->] Ht; [by exists b1|by eapply insert_origin]. }
    subst s2'. destruct (bool_decide _ && negb (stillValid a now));
      destruct (negb _ && _); try (apply lookup_delete_Some in Hb1 as [_ Hb1]);
      (eapply (Hs _ StatusExpired); [|exact Hb1]); first [by left|by right]. }
  exists b0. split; [done|]. unfold same_request in *. intuition congruence.
Qed.

Lemma exec_origin s o s' es i b :
  exec s o = (s', es) -> s' !! i = Some b ->
  (exists b0, s !! i = Some b0 /\ same_request b0 b) \/
  (exists now, o = OpCreate now i (a_Params b) /\ b = fst (fst (Create s now i (a_Params b)))).
Proof.
  assert (Hclaim : forall now id typ to i b,
    snd (fst (takePending s now id typ to)) !! i = Some b ->
    exists b0, s !! i = Some b0 /\ same_request b0 b).
  { intros now id typ to j c. pose proof (takePending_cases s now id typ to) as Hc.
    destruct (takePending _ _ _ _ _) as [[[[a'|] res] s1] es1]; simpl.
    - destruct Hc as (a & Ha & _ & _ & _ & -> & -> & _). by eapply insert_origin.
    - destruct Hc as [_ [(_ & -> & _)|(a & Ha & _ & _ & -> & _)]];
        [by exists c|by eapply insert_origin]. }
  destruct o as [now id p|now id resp|now id|now id|now order c r|now order]; simpl;
    intros E Hb.
  - simplify_eq. destruct (decide (id = i)) as [->|].
    + rewrite registry_insert_eq in Hb. simplify_eq. right. by exists now.
    + rewrite registry_insert_ne in Hb by done. left. by exists b.
  - left. unfold ResolveSign in E. specialize (Hclaim now id (Some TypeWebAuthnSign) StatusCompleted i b).
    destruct (takePending _ _ _ _ _) as [[[[a'|] res] s1] es1]; simplify_eq/=; by apply Hclaim.
  - left. unfold ResolveKey in E. specialize (Hclaim now id (Some TypeKeyApprove) StatusCompleted i b).
    destruct (takePending _ _ _ _ _) as [[[[a'|] res] s1] es1]; simplify_eq/=; by apply Hclaim.
  - left. unfold Deny in E. specialize (Hclaim now id None StatusDenied i b).
    destruct (takePending _ _ _ _ _) as [[[[a'|] res] s1] es1]; simplify_eq/=; by apply Hclaim.
  - left. unfold CancelForConnection in E. pose proof (cancel_loop_origin order s c i b) as Hl.
    destruct (cancel_loop order s c) as [s1 l]. simplify_eq/=. by apply Hl.
  - left. unfold Sweep in E. pose proof (sweep_loop_origin order s now i b) as Hl.
    destruct (sweep_loop order s now) as [s1 l]. simplify_eq/=. by apply Hl.
Qed.

(** Every entry goes back to its creation in the history. *)
Lemma run_origin ops i b :
  fst (run ∅ ops) !! i = Some b ->
  OpCreate (a_CreatedAt b) i (a_Params b) ∈ ops /\ a_ExpiresAt b = a_CreatedAt b + ActionTTL.
Proof.
  revert i b. induction ops as [|o ops IH] using rev_ind; intros i b.
  - simpl. by rewrite registry_empty.
  - rewrite run_app. destruct (run ∅ ops) as [s1 es1]. simpl.
    destruct (exec s1 o) as [s2 es2] eqn:E. simpl. intros Hb.
    destruct (exec_origin _ _ _ _ _ _ E Hb) as [(b0 & Hb0 & Hs)|(now & -> & Hc)].
    + destruct (IH i b0 Hb0) as [Hin Hx]. destruct Hs as (? & Hp & Hc & He).
      rewrite <- Hp, <- Hc, <- He. split; [set_solver|done].
    + rewrite Hc. simpl. split; [|done]. rewrite elem_of_app. right. by left.
Qed.

(** The approvals a single operation can deliver. *)
Lemma exec_approval s o s' es id resp :
  wf s -> exec s o = (s', es) -> CallResolveSign id resp ∈ es ->
  exists now r a, o = OpResolveSign now id r /\ s !! id = Some a /\ a_Status a = StatusPending /\
    now < a_ExpiresAt a /\ cp_Type (a_Params a) = TypeWebAuthnSign /\ sr_ActionID resp = id.
Proof.
  intros Hwf.
  assert (Hrej : forall a err out now reason, CallResolveSign id resp ∉
    rejectAction a err ++ emitResolved a out now reason).
  { intros a err out now reason. unfold rejectAction, call_if, emitResolved.
    destruct (cp_Reject _); set_solver. }
  assert (Hconc : forall err out now reason l, CallResolveSign id resp ∉
    concat (map (fun a => rejectAction a err ++ emitResolved a out now reason) l)).
  { intros err out now reason l. induction l as [|a l IH]; simpl; [set_solver|].
    rewrite elem_of_app. intros [?|?]; [by eapply Hrej|done]. }
  destruct o as [now i p|now i r|now i|now i|now order c r|now order]; simpl; intros E Hin.
  - simplify_eq. set_solver.
  - unfold ResolveSign in E. pose proof (takePending_cases s now i (Some TypeWebAuthnSign) StatusCompleted) as Hc.
    destruct (takePending _ _ _ _ _) as [[[[a'|] res] s1] es1]; simplify_eq.
    + destruct Hc as (a & Ha & Hp & Hlt & Ht & -> & -> & -> & _). destruct (Hwf i a Ha) as [Hid _].
      simpl in Hin. unfold call_if, emitResolved in Hin. rewrite Hid in Hin.
      destruct (cp_ResolveSign _); [|set_solver].
      assert (Heq : CallResolveSign id resp = CallResolveSign i (mkResponse (sr_AuthenticatorData r)
        (sr_Signature r) (sr_ClientDataJSON r) i)) by set_solver.
      simplify_eq. exists now, r, a. by rewrite (Ht TypeWebAuthnSign).
    + destruct Hc as [_ [(-> & _ & _)|(a & _ & _ & _ & _ & _ & ->)]]; [set_solver|by apply Hrej in Hin].
  - unfold ResolveKey in E. pose proof (takePending_cases s now i (Some TypeKeyApprove) StatusCompleted) as Hc.
    destruct (takePending _ _ _ _ _) as [[[[a'|] res] s1] es1]; simplify_eq.
    + destruct Hc as (a & _ & _ & _ & _ & -> & _ & -> & _).
      unfold call_if, emitResolved in Hin. simpl in Hin. destruct (cp_ResolveKey _); set_solver.
    + destruct Hc as [_ [(-> & _ & _)|(a & _ & _ & _ & _ & _ & ->)]]; [set_solver|by apply Hrej in Hin].
  - unfold Deny in E. pose proof (takePending_cases s now i None StatusDenied) as Hc.
    destruct (takePending _ _ _ _ _) as [[[[a'|] res] s1] es1]; simplify_eq.
    + destruct Hc as (a & _ & _ & _ & _ & -> & _ & -> & _). by apply Hrej in Hin.
    + destruct Hc as [_ [(-> & _ & _)|(a & _ & _ & _ & _ & _ & ->)]]; [set_solver|by apply Hrej in Hin].
  - unfold CancelForConnection in E. destruct (cancel_loop order s c). simplify_eq. by apply Hconc in Hin.
  - unfold Sweep in E. destruct (sweep_loop order s now). simplify_eq. by apply Hconc in Hin.
Qed.

(** A signer receives an assertion only when a human resolved exactly that
    action, of the passkey kind, less than a minute after it was created; the
    assertion names the action (C2). *)
Theorem approval_in_time (ops : list op) (id : string) (resp : SignResponse)
  (Hcall : CallResolveSign id resp ∈ snd (run ∅ ops)) :
  exists t p now r,
    OpCreate t id p ∈ ops /\ OpResolveSign now id r ∈ ops /\ now < t + 60 * second /\
    cp_Type p = TypeWebAuthnSign /\ sr_ActionID resp = id.
Proof.
  induction ops as [|o ops IH] using rev_ind; [set_solver|].
  rewrite run_app in Hcall.
  pose proof (run_wf ∅ ops wf_empty) as Hwf. pose proof (run_origin ops) as Horig.
  destruct (run ∅ ops) as [s1 es1]. simpl in *. destruct (exec s1 o) as [s2 es2] eqn:E.
  simpl in Hcall. rewrite app_nil_r, elem_of_app in Hcall. destruct Hcall as [Hc|Hc].
  - destruct (IH Hc) as (t & p & now & r & ? & ? & ?). exists t, p, now, r. set_solver.
  - destruct (exec_approval _ _ _ _ _ _ Hwf E Hc) as (now & r & a & -> & Ha & _ & Hlt & Htyp & Hr).
    destruct (Horig id a Ha) as [Hin Hx]. exists (a_CreatedAt a), (a_Params a), now, r.
    rewrite Hx in Hlt. split; [set_solver|]. split; [|done]. rewrite elem_of_app. right. by left.
Qed.

Lemma approval_in_time_witness :
  let ops := [OpCreate 0 "a" (sample_params TypeWebAuthnSign "c"); OpResolveSign 5 "a" sample_response] in
  exists t p now r,
    OpCreate t "a" p ∈ ops /\ OpResolveSign now "a" r ∈ ops /\ now < t + 60 * second /\
    cp_Type p = TypeWebAuthnSign /\ sr_ActionID (mkResponse [] [] [] "a") = "a"%string.
Proof.
  apply (approval_in_time [OpCreate 0 "a" (sample_params TypeWebAuthnSign "c");
    OpResolveSign 5 "a" sample_response] "a" (mkResponse [] [] [] "a")).
  vm_compute. apply list_elem_of_further, list_elem_of_here.
Defined.

(** What a claim reports is what the registry asserts: a found action is
    settled with exactly the reported status, a win means it was pending and
    within its lifetime, and an unfound one leaves the registry alone. *)
Theorem claims_truthful (s : Registry) (now : Z) (id : string) (resp : SignResponse)
  (res : ClaimResult) (s' : Registry) (es : list effect)
  (Hclaim : (res, s', es) ∈ [ResolveSign s now id resp; ResolveKey s now id; Deny s now id]) :
  (cr_Found res = true -> exists a, s' !! id = Some a /\
     cr_Status res = Some (a_Status a) /\ a_Status a <> StatusPending) /\
  (cr_Won res = true -> exists a, s !! id = Some a /\ a_Status a = StatusPending /\ now < a_ExpiresAt a) /\
  (cr_Found res = false -> s' = s /\ cr_Status res = None /\ es = []).
Proof.
  assert (Htake : forall typ to, to <> StatusPending ->
    let '(a, res, s', es) := takePending s now id typ to in
    (cr_Found res = true -> exists a, s' !! id = Some a /\
       cr_Status res = Some (a_Status a) /\ a_Status a <> StatusPending) /\
    (cr_Won res = true -> exists a, s !! id = Some a /\ a_Status a = StatusPending /\ now < a_ExpiresAt a) /\
    (cr_Found res = false -> s' = s /\ cr_Status res = None /\ es = [] /\ a = None)).
  { intros typ to Hto. pose proof (takePending_cases s now id typ to) as Hc.
    destruct (takePending s now id typ to) as [[[[a'|] r] t] e].
    - destruct Hc as (a & Ha & Hp & Hlt & _ & -> & -> & -> & ->). simpl.
      split; [|split; [by exists a|done]]. intros _. exists (set_status a to).
      by rewrite registry_insert_eq.
    - destruct Hc as [_ [(-> & -> & [->|(a & Ha & Hs & ->)])|(a & Ha & _ & _ & -> & -> & ->)]]; simpl.
      + done.
      + split; [by exists a|]. done.
      + split; [|done]. intros _. exists (set_status a StatusExpired). by rewrite registry_insert_eq. }
  rewrite !elem_of_cons in Hclaim. destruct Hclaim as [Hc|[Hc|[Hc|Hc]]]; [| | |set_solver].
  - unfold ResolveSign in Hc. specialize (Htake (Some TypeWebAuthnSign) StatusCompleted ltac:(done)).
    destruct (takePending _ _ _ _ _) as [[[[a|] r] t] e]; simplify_eq; naive_solver.
  - unfold ResolveKey in Hc. specialize (Htake (Some TypeKeyApprove) StatusCompleted ltac:(done)).
    destruct (takePending _ _ _ _ _) as [[[[a|] r] t] e]; simplify_eq; naive_solver.
  - unfold Deny in Hc. specialize (Htake None StatusDenied ltac:(done)).
    destruct (takePending _ _ _ _ _) as [[[[a|] r] t] e]; simplify_eq; naive_solver.
Qed.

Definition sample_registry : Registry :=
  fst (run ∅ [OpCreate 0 "a" (sample_params TypeWebAuthnSign "c")]).

Lemma claims_truthful_witness :
  let '(res, s', es) := Deny sample_registry 5 "a" in
  (cr_Found res = true -> exists a, s' !! "a"%string = Some a /\
     cr_Status res = Some (a_Status a) /\ a_Status a <> StatusPending) /\
  (cr_Won res = true -> exists a, sample_registry !! "a"%string = Some a /\
     a_Status a = StatusPending /\ 5 < a_ExpiresAt a) /\
  (cr_Found res = false -> s' = sample_registry /\ cr_Status res = None /\ es = []).
Proof.
  destruct (Deny sample_registry 5 "a") as [[res s'] es] eqn:E.
  apply (claims_truthful sample_registry 5 "a" sample_response res s' es).
  rewrite E. do 2 apply list_elem_of_further. apply list_elem_of_here.
Defined.

(** What a sweep leaves of one entry. *)
Definition overdue (a : Action) (now : Z) : bool :=
  bool_decide (a_Status a = StatusPending) && negb (stillValid a now).

Definition swept (now : Z) (a : Action) : option Action :=
  let a' := if overdue a now then set_status a StatusExpired else a in
  if negb (bool_decide (a_Status a' = StatusPending)) && (now - a_ExpiresAt a' >? cleanupGrace)
  then None else Some a'.

Lemma swept_idem now a a' : swept now a = Some a' -> swept now a' = Some a' /\ overdue a' now = false.
Proof.
  unfold swept. destruct (overdue a now) eqn:Eo; simpl.
  - destruct (_ >? _) eqn:E; [done|]. intros; simplify_eq.
    assert (overdue (set_status a StatusExpired) now = false) as Ho by (unfold overdue; done).
    rewrite Ho. simpl. by rewrite E.
  - destruct (_ && _) eqn:E; [done|]. intros; simplify_eq. rewrite Eo, E. done.
Qed.

Lemma sweep_loop_entry order s now :
  let '(s', l) := sweep_loop order s now in
  (forall id, s' !! id = if decide (id ∈ order) then s !! id ≫= swept now else s !! id) /\
  (forall a', a' ∈ l <-> exists id a, id ∈ order /\ s !! id = Some a /\ overdue a now = true /\
     a' = set_status a StatusExpired).
Proof.
  revert s. induction order as [|id order IH]; intros s; simpl.
  - split; [done|]. set_solver.
  - destruct (s !! id) as [a|] eqn:Ha.
    + fold (overdue a now).
      match goal with |- context [sweep_loop order ?s2 now] => set (s2' := s2) end.
      assert (Hs2 : forall i, s2' !! i = if decide (i = id) then swept now a else s !! i).
      { intros i. subst s2'. unfold swept. destruct (decide (i = id)) as [->|Hne];
          destruct (overdue a now); destruct (_ && _);
          rewrite ?registry_delete_eq, ?registry_insert_eq, ?registry_delete_ne, ?registry_insert_ne by done;
          done. }
      specialize (IH s2'). destruct (sweep_loop order s2' now) as [s' l]. destruct IH as [Hl Hm].
      split.
      * intros i. rewrite Hl, Hs2. destruct (decide (i = id)) as [->|Hne].
        -- rewrite (decide_True (P := id ∈ id :: order)) by (by left). rewrite Ha. simpl.
           destruct (decide (id ∈ order)); [|done].
           destruct (swept now a) as [a1|] eqn:Es; [|done]. by apply swept_idem in Es as [? _].
        -- destruct (decide (i ∈ order)).
           ++ by rewrite decide_True by (by right).
           ++ rewrite decide_False; [done|]. by intros [?|?]%elem_of_cons.
      * intros b. rewrite elem_of_app, Hm. split.
        -- intros [Hb|(i & c & Hi & Hc & Ho & ->)].
           ++ destruct (overdue a now) eqn:Eo; [|set_solver]. apply list_elem_of_singleton in Hb as ->.
              exists id, a. split; [by left|done].
           ++ rewrite Hs2 in Hc. destruct (decide (i = id)) as [->|].
              ** apply swept_idem in Hc as [_ Hc]. congruence.
              ** exists i, c. split; [by right|done].
        -- intros (i & c & Hi & Hc & Ho & ->). destruct (decide (i = id)) as [->|Hne].
           ++ left. rewrite Ha in Hc. simplify_eq. rewrite Ho. by apply list_elem_of_singleton.
           ++ right. exists i, c. rewrite Hs2, decide_False by done. split; [|done].
              by apply elem_of_cons in Hi as [?|?].
    + specialize (IH s). destruct (sweep_loop order s now) as [s' l]. destruct IH as [Hl Hm]. split.
      * intros i. rewrite Hl. destruct (decide (i = id)) as [->|Hne].
        -- rewrite Ha. by repeat destruct (decide _).
        -- destruct (decide (i ∈ order)).
           ++ by rewrite decide_True by (by right).
           ++ rewrite decide_False; [done|]. by intros [?|?]%elem_of_cons.
      * intros b. rewrite Hm. split; intros (i & c & Hi & Hc & Ho & ->); exists i, c.
        -- split; [by right|done].
        -- split; [|done]. apply elem_of_cons in Hi as [->|?]; [congruence|done].
Qed.

(** The janitor expires exactly the overdue actions, telling each waiter, and
    forgets exactly the settled ones whose two-minute grace is over; no other
    entry changes, whatever order the runtime visits the map in. *)
Theorem Sweep_spec (order : list string) (s : Registry) (now : Z)
  (Hwf : wf s) (Hall : forall id, is_Some (s !! id) -> id ∈ order) :
  let '(s', es) := Sweep order s now in
  (forall id, s' !! id = s !! id ≫= swept now) /\
  (forall id err, CallReject id err ∈ es <->
     err = ErrExpired /\ exists a, s !! id = Some a /\ a_Status a = StatusPending /\
       a_ExpiresAt a <= now /\ cp_Reject (a_Params a) = true).
Proof.
  unfold Sweep. pose proof (sweep_loop_entry order s now) as Hl.
  destruct (sweep_loop order s now) as [s' l]. destruct Hl as [Hl Hm]. split.
  - intros id. rewrite Hl. destruct (decide (id ∈ order)) as [|Hn]; [done|].
    destruct (s !! id) eqn:E; [|done]. exfalso. apply Hn, Hall. by eexists.
  - intros id err. rewrite list_elem_of_In, in_concat. split.
    + intros (es & Hes & Hin). apply in_map_iff in Hes as (a' & <- & Ha').
      apply list_elem_of_In, Hm in Ha' as (i & a & _ & Ha & Ho & ->).
      destruct (Hwf i a Ha) as [Hid _]. unfold rejectAction, call_if, emitResolved in Hin.
      unfold overdue, stillValid in Ho. bool_to_prop. simpl in *.
      destruct (cp_Reject (a_Params a)) eqn:Er; simpl in Hin; [|naive_solver].
      destruct Hin as [Hin|[?|[]]]; [|done]. simplify_eq. split; [done|]. by exists a.
    + intros (-> & a & Ha & Hp & Hlt & Hr). destruct (Hwf id a Ha) as [Hid _].
      eexists. split.
      * apply in_map_iff. eexists. split; [reflexivity|]. apply list_elem_of_In, Hm.
        exists id, a. split; [apply Hall; by eexists|]. split; [done|]. split; [|done].
        unfold overdue, stillValid. rewrite Hp. simpl.
        by rewrite (proj2 (Z.ltb_ge _ _)) by lia.
      * unfold rejectAction. simpl. rewrite Hr, Hid. by left.
Qed.

Lemma Sweep_spec_witness :
  let '(s', es) := Sweep ["a"%string] sample_registry 70000000000 in
  (forall id, s' !! id = sample_registry !! id ≫= swept 70000000000) /\
  (forall id err, CallReject id err ∈ es <->
     err = ErrExpired /\ exists a, sample_registry !! id = Some a /\ a_Status a = StatusPending /\
       a_ExpiresAt a <= 70000000000 /\ cp_Reject (a_Params a) = true).
Proof.
  apply (Sweep_spec ["a"%string] sample_registry 70000000000).
  - apply run_wf, wf_empty.
  - intros id. unfold sample_registry. simpl. unfold Registry. rewrite lookup_insert_is_Some'.
    intros [->|[x Hx]]; [by left|by rewrite registry_empty in Hx].
Defined.

Definition belongs (connectionID : string) (a : Action) : bool :=
  bool_decide (a_Status a = StatusPending) && bool_decide (cp_ConnectionID (a_Params a) = connectionID).

Lemma cancel_loop_entry order s c :
  let '(s', l) := cancel_loop order s c in
  (forall id, s' !! id =
     if decide (id ∈ order)
     then (fun a => if belongs c a then set_status a StatusDenied else a) <$> s !! id
     else s !! id) /\
  (forall a', a' ∈ l <-> exists id a, id ∈ order /\ s !! id = Some a /\ belongs c a = true /\
     a' = set_status a StatusDenied).
Proof.
  revert s. induction order as [|id order IH]; intros s; simpl.
  - split; [done|]. set_solver.
  - assert (Hskip : forall s', (s' = s) -> (forall a, s !! id = Some a -> belongs c a = false) ->
      let '(s'', l) := cancel_loop order s' c in
      (forall i, s'' !! i = if decide (i ∈ id :: order)
         then (fun a => if belongs c a then set_status a StatusDenied else a) <$> s !! i else s !! i) /\
      (forall a', a' ∈ l <-> exists i a, i ∈ id :: order /\ s !! i = Some a /\ belongs c a = true /\
         a' = set_status a StatusDenied)).
    { intros s' -> Hb. specialize (IH s). destruct (cancel_loop order s c) as [s'' l].
      destruct IH as [Hl Hm]. split.
      - intros i. rewrite Hl. destruct (decide (i = id)) as [->|Hne].
        + rewrite (decide_True (P := id ∈ id :: order)) by (by left).
          destruct (s !! id) as [a|] eqn:Ha; simpl; [rewrite (Hb a) by done|]; by destruct (decide _).
        + destruct (decide (i ∈ order)).
          * by rewrite decide_True by (by right).
          * rewrite decide_False; [done|]. by intros [?|?]%elem_of_cons.
      - intros b. rewrite Hm. split; intros (i & a & Hi & Ha & Ho & ->); exists i, a.
        + split; [by right|done].
        + split; [|done]. apply elem_of_cons in Hi as [->|?]; [|done]. by rewrite (Hb a) in Ho. }
    destruct (s !! id) as [a|] eqn:Ha; [|by apply Hskip].
    fold (belongs c a). destruct (belongs c a) eqn:Eb; [|apply Hskip; [done|]; intros; by simplify_eq].
    specialize (IH (<[id := set_status a StatusDenied]> s)).
    destruct (cancel_loop order _ c) as [s' l]. destruct IH as [Hl Hm].
    assert (Hno : belongs c (set_status a StatusDenied) = false) by (unfold belongs; done).
    split.
    + intros i. rewrite Hl. destruct (decide (i = id)) as [->|Hne].
      * rewrite (decide_True (P := id ∈ id :: order)) by (by left).
        rewrite registry_insert_eq, Ha. simpl. rewrite Eb. by destruct (decide _).
      * rewrite registry_insert_ne by done. destruct (decide (i ∈ order)).
        -- by rewrite decide_True by (by right).
        -- rewrite decide_False; [done|]. by intros [?|?]%elem_of_cons.
    + intros b. rewrite elem_of_cons, Hm. split.
      * intros [->|(i & d & Hi & Hd & Ho & ->)]; [exists id, a; split; [by left|done]|].
        destruct (decide (id = i)) as [->|]; [rewrite registry_insert_eq in Hd; simplify_eq; congruence|].
        rewrite registry_insert_ne in Hd by done. exists i, d. split; [by right|done].
      * intros (i & d & Hi & Hd & Ho & ->). destruct (decide (i = id)) as [->|Hne].
        -- left. congruence.
        -- right. exists i, d. rewrite registry_insert_ne by done.
           apply elem_of_cons in Hi as [?|?]; [done|]. done.
Qed.

(** When a connection dies, exactly its pending actions are denied and exactly
    their waiters are told; the actions of other connections and the settled
    ones are untouched. *)
Theorem CancelForConnection_spec (order : list string) (s : Registry) (now : Z) (conn reason : string)
  (Hwf : wf s) (Hall : forall id, is_Some (s !! id) -> id ∈ order) :
  let '(cancelled, s', es) := CancelForConnection order s now conn reason in
  (forall id, s' !! id = (fun a => if belongs conn a then set_status a StatusDenied else a) <$> s !! id) /\
  (forall id err, CallReject id err ∈ es <->
     err = ErrCancelled /\ exists a, s !! id = Some a /\ a_Status a = StatusPending /\
       cp_ConnectionID (a_Params a) = conn /\ cp_Reject (a_Params a) = true) /\
  (forall a', a' ∈ cancelled <-> exists id a, s !! id = Some a /\ belongs conn a = true /\
     a' = set_status a StatusDenied).
Proof.
  unfold CancelForConnection. pose proof (cancel_loop_entry order s conn) as Hl.
  destruct (cancel_loop order s conn) as [s' l]. destruct Hl as [Hl Hm].
  assert (Hin : forall id a, s !! id = Some a -> id ∈ order) by (intros; apply Hall; by eexists).
  split; [|split].
  - intros id. rewrite Hl. destruct (decide (id ∈ order)) as [|Hn]; [done|].
    destruct (s !! id) eqn:E; [|done]. exfalso. by eapply Hn, Hin.
  - intros id err. rewrite list_elem_of_In, in_concat. split.
    + intros (es & Hes & Hc). apply in_map_iff in Hes as (a' & <- & Ha').
      apply list_elem_of_In, Hm in Ha' as (i & a & _ & Ha & Ho & ->).
      destruct (Hwf i a Ha) as [Hid _]. unfold rejectAction, call_if, emitResolved in Hc.
      unfold belongs in Ho. bool_to_prop. simpl in *.
      destruct (cp_Reject (a_Params a)) eqn:Er; simpl in Hc; [|naive_solver].
      destruct Hc as [Hc|[?|[]]]; [|done]. simplify_eq. split; [done|]. by exists a.
    + intros (-> & a & Ha & Hp & Hlt & Hr). destruct (Hwf id a Ha) as [Hid _].
      eexists. split.
      * apply in_map_iff. eexists. split; [reflexivity|]. apply list_elem_of_In, Hm.
        exists id, a. split; [by eapply Hin|]. split; [done|]. split; [|done].
        unfold belongs. by rewrite !bool_decide_true.
      * unfold rejectAction. simpl. rewrite Hr, Hid. by left.
  - intros a'. rewrite Hm. split; intros (i & a & H); exists i, a; [tauto|].
    split; [eapply Hin; apply H|done].
Qed.

Lemma CancelForConnection_spec_witness :
  let '(cancelled, s', es) := CancelForConnection ["a"%string] sample_registry 1 "c" "closed" in
  (forall id, s' !! id =
     (fun a => if belongs "c" a then set_status a StatusDenied else a) <$> sample_registry !! id) /\
  (forall id err, CallReject id err ∈ es <->
     err = ErrCancelled /\ exists a, sample_registry !! id = Some a /\ a_Status a = StatusPending /\
       cp_ConnectionID (a_Params a) = "c"%string /\ cp_Reject (a_Params a) = true) /\
  (forall a', a' ∈ cancelled <-> exists id a, sample_registry !! id = Some a /\ belongs "c" a = true /\
     a' = set_status a StatusDenied).
Proof.
  apply (CancelForConnection_spec ["a"%string] sample_registry 1 "c" "closed").
  - apply run_wf, wf_empty.
  - intros id. unfold sample_registry. simpl. unfold Registry. rewrite lookup_insert_is_Some'.
    intros [->|[x Hx]]; [by left|by rewrite registry_empty in Hx].
Defined.
