(* ===== verification/PushSubs.v ===== *)
(** * Web push (internal/store/push.go, internal/rest/push.go, internal/push)

    Browsers subscribe with the address of a push service; a pending action is
    sent to the subscriptions of its account, and those the service no longer
    knows are dropped. What the push service answers is an input. *)
From Stdlib Require Import Ascii.
From S2P Require Import Prelude GoStrings Url Approval.
#[local] Open Scope Z_scope.

(** ** The endpoints' allow list (validator.go) *)

Definition exactHosts : list string :=
  ["android.googleapis.com"; "fcm.googleapis.com"; "updates.push.services.mozilla.com"; "updates-autopush.stage.mozaws.net"; "updates-autopush.dev.mozaws.net"]%string.

Definition suffixHosts : list string := [".push.apple.com"; ".notify.windows.com"]%string.

Section Push.
Context (ToLower : string -> string).

Definition IsAllowedEndpoint (endpoint : string) : bool :=
  match Parse endpoint with
  | None => false
  | Some u =>
      if negb (bool_decide (Scheme u = "https"%string)) then false
      else match User u with
           | Some _ => false
           | None =>
               let host := ToLower (Hostname u) in
               bool_decide (host ∈ exactHosts) || existsb (fun suffix => HasSuffix host suffix) suffixHosts
           end
  end.

(** ** The table (store/push.go) *)

(** A row, without its endpoint, which is unique. *)
Record push_row := mkPushRow { pr_ID : string; pr_AccountID : string; pr_P256dh : string; pr_Auth : string; pr_CreatedAt : string; pr_UpdatedAt : string }.

Abbreviation push_table := (gmap string push_row).

Definition FindPushByEndpoint (t : push_table) (endpoint : string) : option (string * string) := (fun r => (pr_ID r, pr_AccountID r)) <$> t !! endpoint.

(** The index on the endpoint refuses a second row. *)
Definition InsertPushSub (t : push_table) (endpoint : string) (r : push_row) : option push_table :=
  match t !! endpoint with None => Some (<[endpoint := r]> t) | Some _ => None end.

Definition RotatePushSub (t : push_table) (accountID endpoint p256dh auth now : string) : push_table :=
  match t !! endpoint with
  | Some r => if bool_decide (pr_AccountID r = accountID) then <[endpoint := mkPushRow (pr_ID r) (pr_AccountID r) p256dh auth (pr_CreatedAt r) now]> t else t
  | None => t
  end.

Definition DeletePushByEndpoint (t : push_table) (accountID endpoint : string) : push_table :=
  match t !! endpoint with Some r => if bool_decide (pr_AccountID r = accountID) then delete endpoint t else t | None => t end.

Inductive upsert_result := UpsertID (id : string) | UpsertConflict | UpsertError.

(** [found] is what the look-up read: it and the write are two statements. *)
Definition Upsert (found : option (string * string)) (t : push_table) (accountID endpoint p256dh auth newID now : string) : upsert_result * push_table :=
  match found with
  | None =>
      match InsertPushSub t endpoint (mkPushRow newID accountID p256dh auth now now) with
      | Some t => (UpsertID newID, t)
      | None => (UpsertError, t)
      end
  | Some (id, owner) =>
      if negb (bool_decide (owner = accountID)) then (UpsertConflict, t)
      else (UpsertID id, RotatePushSub t accountID endpoint p256dh auth now)
  end.

(** One account's rows, in some order. *)
Definition ListForAccount (t : push_table) (accountID : string) : list (string * string * string) :=
  omap (fun '(endpoint, r) => if bool_decide (pr_AccountID r = accountID) then Some (endpoint, pr_P256dh r, pr_Auth r) else None) (map_to_list t).

(** ** The routes (rest/push.go) *)

Inductive push_reply := PushFail (status : Z) (msg : string) | Subscribed (id : string) | Unsubscribed.

Record subscription_body := mkSubscription { sb_endpoint : string; sb_p256dh : string; sb_auth : string }.

Definition subscribe (found : option (string * string)) (t : push_table) (accountID newID now : string) (b : subscription_body) : push_reply * push_table :=
  if bool_decide (sb_endpoint b = EmptyString) || bool_decide (sb_p256dh b = EmptyString) || bool_decide (sb_auth b = EmptyString)
  then (PushFail 400 "Invalid subscription: endpoint, keys.p256dh, and keys.auth are required", t)
  else if negb (IsAllowedEndpoint (sb_endpoint b)) then (PushFail 400 "endpoint is not a recognized push service", t)
  else match Upsert found t accountID (sb_endpoint b) (sb_p256dh b) (sb_auth b) newID now with
       | (UpsertError, t) => (PushFail 500 "internal error", t)
       | (UpsertConflict, t) => (PushFail 409 "endpoint already registered to a different account", t)
       | (UpsertID id, t) => (Subscribed id, t)
       end.

Definition unsubscribe (t : push_table) (accountID endpoint : string) : push_reply * push_table :=
  if bool_decide (endpoint = EmptyString) then (PushFail 400 "endpoint is required", t)
  else (Unsubscribed, DeletePushByEndpoint t accountID endpoint).

(** ** Sending (push/channel.go) *)

Definition toPath (deepLink : string) : string :=
  match Parse deepLink with Some u => if bool_decide (Path u = EmptyString) then deepLink else Path u | None => deepLink end.

Record payload := mkPayload { pl_Title : string; pl_Body : string; pl_ActionID : string; pl_DeepLink : string; pl_ActionType : string }.

Definition type_text (t : ActionType) : string := match t with TypeWebAuthnSign => "webauthn-sign" | TypeKeyApprove => "key-approve" end.

(** Three characters of the dash in the text, as bytes. *)
Definition em_dash : string := str_of_bytes [226; 128; 148]%N.

Definition quote : string := String "034" EmptyString.

Definition action_payload (a : Action) (deepLink : string) : payload :=
  let p := a_Params a in
  let source := cx_Source (cp_Context p) in
  let '(title, body) :=
    match cp_Type p with
    | TypeWebAuthnSign =>
        let label := if bool_decide (cp_PasskeyLabel p = EmptyString) then "passkey"%string else cp_PasskeyLabel p in
        ("Passkey Signature Requested", "Sign with " ++ quote ++ label ++ quote ++ " for " ++ source)%string
    | TypeKeyApprove => ("SSH Key Approval Requested", "Approve " ++ quote ++ cp_KeyLabel p ++ quote ++ " for " ++ source)%string
    end in
  let body :=
    match cx_HostKey (cp_Context p) with
    | Some hk =>
        if bool_decide (hki_Status hk = "new"%string)
        then (body ++ " " ++ em_dash ++ " FIRST connection to this host: approving pins host key " ++ hki_Fingerprint hk)%string else body
    | None => body
    end in
  mkPayload title body (a_ID a) (toPath deepLink) (type_text (cp_Type p)).

Record HostKeyMismatch := mkMismatch {
  hm_AccountID : string; hm_EndpointLabel : string; hm_EndpointAddress : string; hm_ObservedFingerprint : string; hm_PinnedFingerprint : string }.

Definition mismatch_payload (m : HostKeyMismatch) : payload :=
  mkPayload "SSH host key MISMATCH blocked"
    (quote ++ hm_EndpointLabel m ++ quote ++ " (" ++ hm_EndpointAddress m ++ ") presented " ++ hm_ObservedFingerprint m ++ " but " ++ hm_PinnedFingerprint m ++
     " is pinned. The connection was refused. Review it in Settings -> Endpoints.")
    EmptyString "/settings/endpoints" "host-key-mismatch".

(** [answer] is the status the push service gives for an endpoint, if the
    request succeeds. The messages sent, the count of those accepted, and the
    table without the subscriptions that are gone. *)
Definition sendToAccount (answer : string -> option Z) (subs : list (string * string * string)) (t : push_table) (accountID : string) (pl : payload)
  : list (string * string * string * payload) * Z * push_table :=
  fold_left (fun '(sent, n, t) '(endpoint, p256dh, auth) =>
    (sent ++ [(endpoint, p256dh, auth, pl)],
     match answer endpoint with Some status => if (200 <=? status) && (status <? 300) then n + 1 else n | None => n end,
     match answer endpoint with
     | Some status => if (status =? 404) || (status =? 410) then DeletePushByEndpoint t accountID endpoint else t
     | None => t
     end)) subs ([], 0, t).

Definition deliver (answer : string -> option Z) (subs : list (string * string * string)) (t : push_table) (a : Action) (deepLink : string) :=
  sendToAccount answer subs t (cp_AccountID (a_Params a)) (action_payload a deepLink).

(** ** Runs *)

Inductive event :=
  | ESubscribe (found : option (string * string)) (accountID newID now : string) (b : subscription_body)
  | EUnsubscribe (accountID endpoint : string)
  | EPruned (accountID endpoint : string)
  | EAccountDeleted (accountID : string).

(** The rows of a deleted account go with it (ON DELETE CASCADE). *)
Definition push_step (t : push_table) (e : event) : push_table :=
  match e with
  | ESubscribe found acc newID now b => snd (subscribe found t acc newID now b)
  | EUnsubscribe acc endpoint => snd (unsubscribe t acc endpoint)
  | EPruned acc endpoint => DeletePushByEndpoint t acc endpoint
  | EAccountDeleted acc => filter (fun x => pr_AccountID (snd x) <> acc) t
  end.

Definition push_run (es : list event) : push_table := fold_left push_step es ∅.

(** The account an event acts for. *)
Definition actor (e : event) : string :=
  match e with ESubscribe _ acc _ _ _ | EUnsubscribe acc _ | EPruned acc _ | EAccountDeleted acc => acc end.

(** An address of a push service. *)
Definition push_service (endpoint : string) : Prop :=
  exists u, Parse endpoint = Some u /\ Scheme u = "https"%string /\ User u = None /\
    (ToLower (Hostname u) ∈ exactHosts \/ Exists (fun suffix => HasSuffix (ToLower (Hostname u)) suffix = true) suffixHosts).

Lemma IsAllowedEndpoint_ok endpoint : IsAllowedEndpoint endpoint = true <-> push_service endpoint.
Proof using.
  unfold IsAllowedEndpoint, push_service. destruct (Parse endpoint) as [u|]; [|split; [done|by intros (? & ? & _)]]. split.
  - destruct (bool_decide (Scheme u = "https"%string)) eqn:E; cbn [negb]; [|done]. apply bool_decide_eq_true in E. destruct (User u) eqn:Eu; [done|]. intros H. exists u. split_and!; try done.
    apply orb_true_iff in H as [H|H]; [left; by apply bool_decide_eq_true in H|right]. apply existsb_exists in H as (s & Hin & Hs). apply Exists_exists. exists s. by rewrite list_elem_of_In.
  - intros (? & [= <-] & -> & -> & H). rewrite bool_decide_eq_true_2 by done. cbn [negb]. apply orb_true_iff. destruct H as [H|H]; [left; by apply bool_decide_eq_true|right].
    apply Exists_exists in H as (s & Hin & Hs). apply existsb_exists. exists s. by rewrite <- list_elem_of_In.
Qed.

(** Nobody changes another account's row. *)
Lemma push_step_frame t e endpoint r : t !! endpoint = Some r -> pr_AccountID r <> actor e -> push_step t e !! endpoint = Some r.
Proof using.
  intros Ht Hne. assert (Hdel : forall acc x, pr_AccountID r <> acc -> DeletePushByEndpoint t acc x !! endpoint = Some r).
  { intros acc x Hacc. unfold DeletePushByEndpoint. destruct (t !! x) as [r'|] eqn:Ex; [|done]. case_bool_decide; [|done]. destruct (decide (x = endpoint)) as [->|]; [congruence|]. by rewrite lookup_delete_ne. }
  destruct e as [found acc newID now b|acc x|acc x|acc]; cbn [push_step actor] in *.
  - unfold subscribe. destruct (_ || _ || _); [done|]. destruct (negb _); [done|]. unfold Upsert. destruct found as [[id owner]|].
    + destruct (negb _); [done|]. cbn. unfold RotatePushSub. destruct (t !! sb_endpoint b) as [r'|] eqn:Eb; [|done]. case_bool_decide; [|done].
      destruct (decide (sb_endpoint b = endpoint)) as [E|]; [|by rewrite lookup_insert_ne]. rewrite E in Eb. congruence.
    + unfold InsertPushSub. destruct (t !! sb_endpoint b) eqn:Eb; [done|]. cbn. rewrite lookup_insert_ne; [done|]. intros E. rewrite E in Eb. congruence.
  - unfold unsubscribe. destruct (bool_decide _); [done|]. by apply Hdel.
  - by apply Hdel.
  - by apply map_lookup_filter_Some.
Qed.

Lemma push_step_allowed t e : map_Forall (fun endpoint _ => push_service endpoint) t -> map_Forall (fun endpoint _ => push_service endpoint) (push_step t e).
Proof using.
  intros H. assert (Hdel : forall acc x, map_Forall (fun endpoint _ => push_service endpoint) (DeletePushByEndpoint t acc x)).
  { intros acc x. unfold DeletePushByEndpoint. destruct (t !! x); [|done]. case_bool_decide; [|done]. by apply map_Forall_delete. }
  destruct e as [found acc newID now b|acc x|acc x|acc]; cbn [push_step].
  - unfold subscribe. destruct (_ || _ || _); [done|]. destruct (negb (IsAllowedEndpoint (sb_endpoint b))) eqn:Ea; [done|]. apply negb_false_iff, IsAllowedEndpoint_ok in Ea.
    unfold Upsert. destruct found as [[id owner]|].
    + destruct (negb _); [done|]. cbn. unfold RotatePushSub. destruct (t !! sb_endpoint b); [|done]. case_bool_decide; [|done]. by apply map_Forall_insert_2.
    + unfold InsertPushSub. destruct (t !! sb_endpoint b); [done|]. cbn. by apply map_Forall_insert_2.
  - unfold unsubscribe. destruct (bool_decide _); [done|]. apply Hdel.
  - apply Hdel.
  - intros endpoint r Hr. apply map_lookup_filter_Some in Hr as [Hr _]. by eapply H.
Qed.

Lemma push_run_allowed es : map_Forall (fun endpoint _ => push_service endpoint) (push_run es).
Proof using.
  unfold push_run. assert (map_Forall (fun endpoint (_ : push_row) => push_service endpoint) ∅) as H by (by apply map_Forall_empty). revert H. generalize (∅ : push_table).
  induction es as [|e es IH]; intros t H; [done|]. cbn. by apply IH, push_step_allowed.
Qed.

Lemma elem_of_ListForAccount t acc endpoint p a : (endpoint, p, a) ∈ ListForAccount t acc <-> exists r, t !! endpoint = Some r /\ pr_AccountID r = acc /\ pr_P256dh r = p /\ pr_Auth r = a.
Proof using.
  unfold ListForAccount. rewrite list_elem_of_omap. split.
  - intros ([e r] & Hin & Hr). apply elem_of_map_to_list in Hin. case_bool_decide; simplify_eq. by exists r.
  - intros (r & Hr & <- & <- & <-). exists (endpoint, r). split; [by apply elem_of_map_to_list|]. by rewrite bool_decide_eq_true_2.
Qed.

(** What one delivery does: a message per subscription, and a deletion for each
    that the service no longer knows. *)
Lemma sendToAccount_spec answer subs t acc pl :
  let gone endpoint := match answer endpoint with Some status => (status =? 404) || (status =? 410) | None => false end in
  fst (fst (sendToAccount answer subs t acc pl)) = map (fun s => (s, pl)) subs /\
  snd (sendToAccount answer subs t acc pl) = fold_left push_step (map (EPruned acc) (List.filter gone (map (fun s => fst (fst s)) subs))) t.
Proof using.
  intros gone. unfold sendToAccount. enough (Hg : forall sent n t,
    let r := fold_left (fun '(sent, n, t) '(endpoint, p256dh, auth) =>
      (sent ++ [(endpoint, p256dh, auth, pl)],
       match answer endpoint with Some status => if (200 <=? status) && (status <? 300) then n + 1 else n | None => n end,
       match answer endpoint with Some status => if (status =? 404) || (status =? 410) then DeletePushByEndpoint t acc endpoint else t | None => t end)) subs (sent, n, t) in
    fst (fst r) = sent ++ map (fun s => (s, pl)) subs /\ snd r = fold_left push_step (map (EPruned acc) (List.filter gone (map (fun s => fst (fst s)) subs))) t) by apply (Hg [] 0 t).
  clear t. induction subs as [|[[e p] a] subs IH]; intros sent n t; [by rewrite app_nil_r|]. cbn [fold_left map List.filter fst].
  match goal with |- context [fold_left _ subs (?x, ?y, ?z)] => destruct (IH x y z) as [H1 H2] end. cbv zeta in *. rewrite H1, H2, <- app_assoc. split; [done|].
  unfold gone at 2. destruct (answer e) as [st|]; [|done]. by destruct ((st =? 404) || (st =? 410)).
Qed.

Lemma prunes_frame acc endpoint r l t : t !! endpoint = Some r -> endpoint ∉ l \/ pr_AccountID r <> acc -> fold_left push_step (map (EPruned acc) l) t !! endpoint = Some r.
Proof using.
  intros Ht Hor. revert t Ht. induction l as [|x l IH]; intros t Ht; [done|]. cbn. apply IH.
  - destruct Hor as [Hn|Hn]; [left|by right]. by intros Hin; apply Hn, list_elem_of_further.
  - destruct (decide (pr_AccountID r = acc)) as [E|E]; [|by apply (push_step_frame t (EPruned acc x))]. destruct Hor as [Hn|]; [|done]. unfold DeletePushByEndpoint. destruct (t !! x); [|done].
    case_bool_decide; [|done]. rewrite lookup_delete_ne; [done|]. intros ->. apply Hn, list_elem_of_here.
Qed.

Lemma prunes_gone acc endpoint l t : endpoint ∈ l -> (forall r, t !! endpoint = Some r -> pr_AccountID r = acc) -> fold_left push_step (map (EPruned acc) l) t !! endpoint = None.
Proof using.
  revert t. induction l as [|x l IH]; intros t Hin Ht; [by apply not_elem_of_nil in Hin|]. cbn.
  assert (Hsub : forall r, DeletePushByEndpoint t acc x !! endpoint = Some r -> t !! endpoint = Some r).
  { intros r. unfold DeletePushByEndpoint. destruct (t !! x); [|done]. case_bool_decide; [|done]. rewrite lookup_delete_Some. tauto. }
  destruct (decide (endpoint ∈ l)) as [Hl|Hl]; [apply IH; [done|]; intros r Hr; apply Ht, Hsub, Hr|]. apply elem_of_cons in Hin as [->|]; [|done].
  destruct (fold_left push_step (map (EPruned acc) l) (DeletePushByEndpoint t acc x) !! x) as [r|] eqn:E; [|done]. exfalso.
  assert (DeletePushByEndpoint t acc x !! x = None) as Hx.
  { unfold DeletePushByEndpoint. destruct (t !! x) as [r'|] eqn:Ex; [|done]. rewrite bool_decide_eq_true_2 by (by apply Ht). by rewrite lookup_delete_eq. }
  clear - E Hx. revert E Hx. generalize (DeletePushByEndpoint t acc x). induction l as [|y l IH]; intros u E Hx; [cbn in E; by rewrite Hx in E|]. cbn in E. apply (IH _ E).
  unfold DeletePushByEndpoint. destruct (u !! y); [|done]. case_bool_decide; [|done]. rewrite lookup_delete_None. by right.
Qed.

(** A pending action is announced to every subscription of its account, once,
    and to nobody else's, whatever the accounts did before and however their
    requests were interleaved; messages go over https to a known push service
    only; the subscriptions the service no longer knows are dropped, no other
    is; and no account changes another's. *)
Theorem push_confined es answer subs a deepLink : let t := push_run es in let acc := cp_AccountID (a_Params a) in subs ≡ₚ ListForAccount t acc ->
  let '(sent, _, t') := deliver answer subs t a deepLink in
  (forall endpoint p au, (exists pl, (endpoint, p, au, pl) ∈ sent) <-> exists r, t !! endpoint = Some r /\ pr_AccountID r = acc /\ pr_P256dh r = p /\ pr_Auth r = au) /\
  length sent = length subs /\
  Forall (fun s => push_service (fst (fst (fst s))) /\ pl_ActionID (snd s) = a_ID a) sent /\
  (forall endpoint r, t !! endpoint = Some r ->
     t' !! endpoint = if bool_decide (pr_AccountID r = acc) && match answer endpoint with Some status => (status =? 404) || (status =? 410) | None => false end then None else Some r) /\
  (forall e endpoint r, t !! endpoint = Some r -> pr_AccountID r <> actor e -> push_step t e !! endpoint = Some r).
Proof using.
  intros t acc Hsubs. unfold deliver. fold acc. destruct (sendToAccount_spec answer subs t acc (action_payload a deepLink)) as [H1 H2].
  destruct (sendToAccount answer subs t acc _) as [[sent n] t']. cbn [fst snd] in H1, H2. subst sent t'. split_and!.
  - intros endpoint p au. rewrite <- elem_of_ListForAccount, <- Hsubs. split.
    + intros [pl Hin]. apply list_elem_of_fmap in Hin as (s & [= <- _] & Hs). done.
    + intros Hin. exists (action_payload a deepLink). apply list_elem_of_fmap. by eexists.
  - apply length_map.
  - apply Forall_forall. intros x Hx. apply list_elem_of_fmap in Hx as ([[endpoint p] au] & -> & Hs). cbn [fst snd]. split; [|by unfold action_payload; destruct (cp_Type _)].
    rewrite Hsubs, elem_of_ListForAccount in Hs. destruct Hs as (r & Hr & _). by apply (push_run_allowed es endpoint r).
  - intros endpoint r Hr. set (gone := fun e => match answer e with Some status => (status =? 404) || (status =? 410) | None => false end).
    change (match answer endpoint with Some status => (status =? 404) || (status =? 410) | None => false end) with (gone endpoint).
    destruct (bool_decide (pr_AccountID r = acc)) eqn:Ea; cbn [andb].
    + apply bool_decide_eq_true in Ea. destruct (gone endpoint) eqn:Eg.
      * apply prunes_gone; [|by intros r' Hr'; simplify_eq]. apply list_elem_of_In, List.filter_In. split; [|done]. apply list_elem_of_In, list_elem_of_fmap.
        exists (endpoint, pr_P256dh r, pr_Auth r). split; [done|]. rewrite Hsubs, elem_of_ListForAccount. by exists r.
      * apply prunes_frame; [done|left]. intros Hin%list_elem_of_In%List.filter_In. destruct Hin as [_ Hg]. congruence.
    + apply bool_decide_eq_false in Ea. apply prunes_frame; [done|by right].
  - intros e endpoint r. apply push_step_frame.
Qed.

End Push.

(** ** Witness *)

Definition sample_events : list event :=
  [ESubscribe None "alice" "s1" "t1" (mkSubscription "https://fcm.googleapis.com/a" "p" "k"); ESubscribe None "bob" "s2" "t2" (mkSubscription "https://web.push.apple.com/b" "p" "k");
   ESubscribe (Some ("s1", "alice")) "bob" "s3" "t3" (mkSubscription "https://fcm.googleapis.com/a" "p2" "k2");
   ESubscribe None "bob" "s4" "t4" (mkSubscription "https://fcm.googleapis.com.evil.example/x" "p" "k")]%string.

Definition sample_action : Action :=
  mkAction "act1" (mkParams "alice" TypeWebAuthnSign (mkContext "endpoint-auth" "" "" "" "" "" "" "" None "" "" "" "") "" "" "" "" "" "My Key" "" "" "" true false true) StatusPending 0 0.

Definition sample_table : gmap string push_row := Eval vm_compute in push_run ToLower_ascii sample_events.

Lemma push_confined_witness :
  let '(sent, _, t') := deliver (fun _ => Some 410) (ListForAccount sample_table "alice") sample_table sample_action "https://sw.example/sign/act1" in
  length sent = 1%nat /\ t' !! "https://fcm.googleapis.com/a"%string = None /\ t' !! "https://web.push.apple.com/b"%string = sample_table !! "https://web.push.apple.com/b"%string.
Proof.
  pose proof (push_confined ToLower_ascii sample_events (fun _ => Some 410) (ListForAccount sample_table "alice") sample_action "https://sw.example/sign/act1") as H.
  assert (push_run ToLower_ascii sample_events = sample_table) as Et by (by vm_compute). rewrite Et in H. specialize (H (reflexivity _)).
  destruct (deliver (fun _ => Some 410) (ListForAccount sample_table "alice") sample_table sample_action "https://sw.example/sign/act1") as [[sent n] t'].
  destruct H as (_ & Hl & _ & Hr & _). split_and!; [rewrite Hl; by vm_compute| |].
  - rewrite (Hr "https://fcm.googleapis.com/a"%string (mkPushRow "s1" "alice" "p" "k" "t1" "t1") eq_refl). by vm_compute.
  - rewrite (Hr "https://web.push.apple.com/b"%string (mkPushRow "s2" "bob" "p" "k" "t2" "t2") eq_refl). by vm_compute.
Defined.

Example payload_sample : action_payload sample_action "https://sw.example/sign/act1"
  = mkPayload "Passkey Signature Requested" ("Sign with " ++ quote ++ "My Key" ++ quote ++ " for endpoint-auth") "act1" "/sign/act1" "webauthn-sign".
Proof. by vm_compute. Qed.
