(* ===== verification/LastUsed.v ===== *)
(** * Last use of accounts (internal/store/lastused.go)

    Requests note when an account was last used; a loop writes the notes to the
    database from time to time, and the shutdown writes them for the last time.
    Two locks: [mu], which every step here holds when it reads or writes the
    notes, and [writeMu], held over a whole flush. *)
From S2P Require Import Prelude.
#[local] Open Scope Z_scope.

(** ** State *)

Inductive flush_kind := KFlush | KClose.

(** A call of Flush or CloseAndFlush: before it has writeMu, with it, writing
    what it took, and returned. *)
Inductive flush_pc := Waiting | Locked | Writing (batch : gmap string string) | Returned.

Record flusher := mkFlusher {
  f_dirty : gmap string string; f_closed : bool; f_writeMu : option nat;
  f_calls : gmap nat (flush_kind * flush_pc);
  f_db : gmap string string }.

Definition NewLastUsedFlusher (db : gmap string string) : flusher := mkFlusher ∅ false None ∅ db.

Definition Touch (f : flusher) (accountID now : string) : flusher :=
  if f_closed f then f else mkFlusher (<[accountID := now]> (f_dirty f)) (f_closed f) (f_writeMu f) (f_calls f) (f_db f).

Definition set_call (f : flusher) (n : nat) (k : flush_kind) (pc : flush_pc) : flusher :=
  mkFlusher (f_dirty f) (f_closed f) (f_writeMu f) (<[n := (k, pc)]> (f_calls f)) (f_db f).

(** The critical section of mu: the notes are taken; a Flush after the close
    takes nothing, a close is marked. *)
Definition swap (f : flusher) (n : nat) (k : flush_kind) : flusher :=
  match k with
  | KFlush =>
      if f_closed f then set_call f n k (Writing ∅)
      else set_call (mkFlusher ∅ (f_closed f) (f_writeMu f) (f_calls f) (f_db f)) n k (Writing (f_dirty f))
  | KClose => set_call (mkFlusher ∅ true (f_writeMu f) (f_calls f) (f_db f)) n k (Writing (f_dirty f))
  end.

Inductive label :=
  | LTouch (accountID now : string)
  | LCall (n : nat) (k : flush_kind)
  | LLock (n : nat)
  | LSwap (n : nat)
  | LWrite (n : nat) (accountID : string) (ok : bool)
  | LUnlock (n : nat).

(** One step of one goroutine; [None] when it cannot be taken. The map of the
    batch is walked in any order; a write that fails is only logged. *)
Definition step (f : flusher) (l : label) : option flusher :=
  match l with
  | LTouch a now => Some (Touch f a now)
  | LCall n k => match f_calls f !! n with None => Some (set_call f n k Waiting) | Some _ => None end
  | LLock n =>
      match f_calls f !! n, f_writeMu f with
      | Some (k, Waiting), None => Some (set_call (mkFlusher (f_dirty f) (f_closed f) (Some n) (f_calls f) (f_db f)) n k Locked)
      | _, _ => None
      end
  | LSwap n => match f_calls f !! n with Some (k, Locked) => Some (swap f n k) | _ => None end
  | LWrite n a ok =>
      match f_calls f !! n with
      | Some (k, Writing batch) =>
          match batch !! a with
          | Some now =>
              Some (mkFlusher (f_dirty f) (f_closed f) (f_writeMu f) (<[n := (k, Writing (delete a batch))]> (f_calls f)) (if ok then <[a := now]> (f_db f) else f_db f))
          | None => None
          end
      | _ => None
      end
  | LUnlock n =>
      match f_calls f !! n with
      | Some (k, Writing batch) =>
          if decide (batch = ∅) then Some (set_call (mkFlusher (f_dirty f) (f_closed f) None (f_calls f) (f_db f)) n k Returned) else None
      | _ => None
      end
  end.

Fixpoint run (f : flusher) (ls : list label) : option flusher :=
  match ls with [] => Some f | l :: ls => f ← step f l; run f ls end.

(** ** What was noted *)

(** The last time that was noted for each account before the close. *)
Fixpoint noted (f : flusher) (ls : list label) (m : gmap string string) : gmap string string :=
  match ls with
  | [] => m
  | l :: ls =>
      let m := match l with LTouch a now => if f_closed f then m else <[a := now]> m | _ => m end in
      match step f l with Some f => noted f ls m | None => m end
  end.

Definition writes_ok (ls : list label) : Prop := Forall (fun l => match l with LWrite _ _ ok => ok = true | _ => True end) ls.

(** ** Invariant *)

Definition holds_lock (pc : flush_pc) : bool := match pc with Locked | Writing _ => true | _ => false end.

(** What the holder of writeMu still has to write. *)
Definition batch_of (f : flusher) : gmap string string :=
  match f_writeMu f with
  | Some n => match f_calls f !! n with Some (_, Writing b) => b | _ => ∅ end
  | None => ∅
  end.

(** writeMu is held by the one call that is inside; after the close the notes
    are empty, and once a close has returned nothing is left to be written. *)
Record inv (f : flusher) : Prop := {
  i_lock : forall n k pc, f_calls f !! n = Some (k, pc) -> holds_lock pc = true <-> f_writeMu f = Some n;
  i_holder : forall n, f_writeMu f = Some n -> is_Some (f_calls f !! n);
  i_closed : f_closed f = true -> f_dirty f = ∅;
  i_returned : forall n, f_calls f !! n = Some (KClose, Returned) -> f_closed f = true /\ batch_of f = ∅;
  i_closing : forall n b, f_calls f !! n = Some (KClose, Writing b) -> f_closed f = true }.

(** Every note is still in memory, about to be written, or in the database. *)
Definition kept (f : flusher) (m : gmap string string) : Prop :=
  forall a now, m !! a = Some now ->
    match f_dirty f !! a with
    | Some t => t = now
    | None => match batch_of f !! a with Some t => t = now | None => f_db f !! a = Some now end
    end.

Lemma flusher_inv_new db : inv (NewLastUsedFlusher db).
Proof. constructor; cbn; try done; intros *; rewrite lookup_empty; done. Qed.

Lemma kept_new db : kept (NewLastUsedFlusher db) ∅.
Proof. intros a now. by rewrite lookup_empty. Qed.

Ltac calls := repeat match goal with
  | H : context [<[?n := _]> _ !! ?m] |- _ => destruct (decide (n = m)) as [->|]; [rewrite lookup_insert_eq in H|rewrite lookup_insert_ne in H by done]
  | |- context [<[?n := _]> _ !! ?m] => destruct (decide (n = m)) as [->|]; [rewrite lookup_insert_eq|rewrite lookup_insert_ne by done]
  end; simplify_eq; cbn in *.

(** A call other than the holder of writeMu is not inside. *)
Lemma inv_outside f n k pc m : inv f -> f_calls f !! n = Some (k, pc) -> f_writeMu f = Some m -> m <> n -> holds_lock pc = false.
Proof. intros Hi Hn Hm Hne. destruct (holds_lock pc) eqn:E; [|done]. apply (i_lock f Hi n k pc Hn) in E. congruence. Qed.

Lemma inv_free f n k pc : inv f -> f_calls f !! n = Some (k, pc) -> f_writeMu f = None -> holds_lock pc = false.
Proof. intros Hi Hn Hm. destruct (holds_lock pc) eqn:E; [|done]. apply (i_lock f Hi n k pc Hn) in E. congruence. Qed.

Lemma batch_holder f n k b : inv f -> f_calls f !! n = Some (k, Writing b) -> f_writeMu f = Some n /\ batch_of f = b.
Proof. intros Hi Hn. assert (f_writeMu f = Some n) as E by (by apply (i_lock f Hi n k (Writing b) Hn)). split; [done|]. unfold batch_of. by rewrite E, Hn. Qed.

Lemma flusher_step_inv f l f' : inv f -> step f l = Some f' -> inv f'.
Proof.
  intros Hi. pose proof Hi as [Hlock Hholder Hclosed Hret Hclosing]. destruct l as [a now|n k|n|n|n a ok|n]; cbn [step].
  - intros [= <-]. unfold Touch. destruct (f_closed f) eqn:E; [done|]. constructor; cbn; done.
  - destruct (f_calls f !! n) eqn:En; [done|]. intros [= <-]. constructor; cbn; try done.
    + intros m k' pc H. calls; [|by eapply Hlock]. split; [done|]. intros E. destruct (Hholder _ E) as [? E']. congruence.
    + intros m Hm. calls; [done|by apply Hholder].
    + intros m H. calls. destruct (Hret _ H) as [Hc Hb]. split; [done|]. unfold batch_of in *. cbn. destruct (f_writeMu f) as [w|]; [|done]. by calls.
    + intros m b H. calls. by eapply Hclosing.
  - destruct (f_calls f !! n) as [[k [| | |]]|] eqn:En; try done. destruct (f_writeMu f) eqn:Ew; [done|]. intros [= <-]. constructor; cbn; try done.
    + intros m k' pc H. calls; [done|]. rewrite (inv_free f m k' pc Hi H Ew). split; [done|congruence].
    + intros m [= <-]. by rewrite lookup_insert_eq.
    + intros m H. calls. destruct (Hret _ H) as [Hc Hb]. split; [done|]. unfold batch_of. cbn. by rewrite lookup_insert_eq.
    + intros m b H. calls. by eapply Hclosing.
  - destruct (f_calls f !! n) as [[k [| | |]]|] eqn:En; try done. intros [= <-]. assert (f_writeMu f = Some n) as Ew by (by apply (Hlock n k Locked En)).
    assert (Hl : forall b m k' pc, <[n := (k, Writing b)]> (f_calls f) !! m = Some (k', pc) -> holds_lock pc = true <-> f_writeMu f = Some m).
    { intros b m k' pc H. calls; [done|by eapply Hlock]. }
    unfold swap. destruct k; [destruct (f_closed f) eqn:Ec|]; (constructor; cbn; [by intros m k0 pc H; eapply Hl, H|by intros m Hm; calls; first [done | by apply Hholder | by rewrite lookup_insert_eq]|first [done | by intros _; apply Hclosed | idtac]|..]).
    + intros m H. calls. destruct (Hret _ H) as [_ Hb]. split; [done|]. unfold batch_of. cbn. rewrite Ew. by rewrite lookup_insert_eq.
    + intros m b H. calls. done.
    + intros m H. calls. by destruct (Hret _ H).
    + intros m b H. calls. by pose proof (Hclosing _ _ H).
    + intros m H. calls. destruct (Hret _ H) as [Hc Hb]. split; [done|]. unfold batch_of. cbn. rewrite Ew, lookup_insert_eq. by apply Hclosed.
    + done.
  - destruct (f_calls f !! n) as [[k [| |batch|]]|] eqn:En; try done. destruct (batch !! a) as [t|] eqn:Ea; [|done]. intros [= <-].
    destruct (batch_holder f n k batch Hi En) as [Ew Eb]. constructor; cbn; try done.
    + intros m k' pc H. calls; [done|by eapply Hlock].
    + intros m Hm. calls; first [done | by apply Hholder].
    + intros m H. calls. destruct (Hret _ H) as [Hc Hb]. by rewrite Hb, lookup_empty in Ea.
    + intros m b H. calls; [by eapply Hclosing|by eapply Hclosing].
  - destruct (f_calls f !! n) as [[k [| |batch|]]|] eqn:En; try done. destruct (decide (batch = ∅)) as [->|]; [|done]. intros [= <-].
    destruct (batch_holder f n k ∅ Hi En) as [Ew Eb]. constructor; cbn; try done.
    + intros m k' pc H. calls; [done|]. by rewrite (inv_outside f m k' pc n Hi H Ew).
    + intros m H. split; [|done]. calls; [by eapply Hclosing|by destruct (Hret _ H)].
    + intros m b H. calls. by eapply Hclosing.
Qed.

(** Notes are not lost on their way to the database. *)
Lemma step_kept f l f' m : inv f -> kept f m -> step f l = Some f' -> match l with LWrite _ _ ok => ok = true | _ => True end ->
  kept f' (match l with LTouch a now => if f_closed f then m else <[a := now]> m | _ => m end).
Proof.
  intros Hi Hk. pose proof Hi as [Hlock Hholder Hclosed Hret Hclosing]. destruct l as [a now|n k|n|n|n a ok|n]; cbn [step].
  - intros [= <-] _. unfold Touch. destruct (f_closed f); [done|]. intros x t. cbn. destruct (decide (a = x)) as [->|]; [rewrite !lookup_insert_eq; by intros [= <-]|].
    rewrite !lookup_insert_ne by done. apply Hk.
  - destruct (f_calls f !! n) eqn:En; [done|]. intros [= <-] _ x t Hx. specialize (Hk x t Hx). unfold batch_of in *. cbn. destruct (f_writeMu f) as [w|] eqn:Ew; [|done].
    destruct (Hholder w eq_refl) as [? Hw]. rewrite lookup_insert_ne by congruence. done.
  - destruct (f_calls f !! n) as [[k [| |b|]]|] eqn:En; try done. destruct (f_writeMu f) eqn:Ew; [done|]. intros [= <-] _ x t Hx. specialize (Hk x t Hx).
    unfold batch_of in *. rewrite Ew in Hk. cbn. rewrite lookup_insert_eq. done.
  - destruct (f_calls f !! n) as [[k [| |b|]]|] eqn:En; try done. intros [= <-] _ x t Hx. specialize (Hk x t Hx). assert (f_writeMu f = Some n) as Ew by (by apply (Hlock n k Locked En)).
    unfold batch_of in *. rewrite Ew, En in Hk. unfold swap. destruct k; [destruct (f_closed f) eqn:Ec|]; cbn; rewrite Ew, lookup_insert_eq; rewrite ?lookup_empty in *.
    + by destruct (f_dirty f !! x).
    + by destruct (f_dirty f !! x).
    + by destruct (f_dirty f !! x).
  - destruct (f_calls f !! n) as [[k [| |batch|]]|] eqn:En; try done. destruct (batch !! a) as [now|] eqn:Ea; [|done]. intros [= <-] -> x t Hx. specialize (Hk x t Hx).
    destruct (batch_holder f n k batch Hi En) as [Ew Eb]. rewrite Eb in Hk. unfold batch_of. cbn. rewrite Ew, lookup_insert_eq. destruct (f_dirty f !! x); [done|].
    destruct (decide (a = x)) as [->|]; [|by rewrite !lookup_delete_ne, lookup_insert_ne]. rewrite lookup_delete_eq, lookup_insert_eq. rewrite Ea in Hk. by subst.
  - destruct (f_calls f !! n) as [[k [| |batch|]]|] eqn:En; try done. destruct (decide (batch = ∅)) as [->|]; [|done]. intros [= <-] _ x t Hx. specialize (Hk x t Hx).
    destruct (batch_holder f n k ∅ Hi En) as [Ew Eb]. rewrite Eb, lookup_empty in Hk. unfold batch_of. cbn. by destruct (f_dirty f !! x).
Qed.

Lemma flusher_run_inv f ls f' : inv f -> run f ls = Some f' -> inv f'.
Proof.
  revert f. induction ls as [|l ls IH]; intros f Hi; cbn [run]; [by intros [= <-]|]. destruct (step f l) as [f1|] eqn:E; [|done]. cbn. apply IH. by eapply flusher_step_inv.
Qed.

Lemma run_kept f ls f' m : inv f -> kept f m -> writes_ok ls -> run f ls = Some f' -> kept f' (noted f ls m).
Proof.
  revert f m. induction ls as [|l ls IH]; intros f m Hi Hk Hok; cbn [run noted]; [by intros [= <-]|]. apply Forall_cons in Hok as [Hl Hls]. destruct (step f l) as [f1|] eqn:E; [|done]. cbn.
  apply IH; [by eapply flusher_step_inv| |done]. by eapply step_kept.
Qed.

(** Once closed and with nothing left to write the database is not written. *)
Lemma settled_step f l f' : inv f -> f_closed f = true -> batch_of f = ∅ -> step f l = Some f' -> f_db f' = f_db f /\ f_closed f' = true /\ batch_of f' = ∅.
Proof.
  intros Hi Hc Hb. pose proof Hi as [Hlock Hholder Hclosed Hret Hclosing]. destruct l as [a now|n k|n|n|n a ok|n]; cbn [step].
  - intros [= <-]. unfold Touch. by rewrite Hc.
  - destruct (f_calls f !! n) eqn:En; [done|]. intros [= <-]. split_and!; try done. unfold batch_of in *. cbn. destruct (f_writeMu f) as [w|]; [|done].
    destruct (Hholder w eq_refl) as [? Hw]. by rewrite lookup_insert_ne by congruence.
  - destruct (f_calls f !! n) as [[k [| |b|]]|] eqn:En; try done. destruct (f_writeMu f) eqn:Ew; [done|]. intros [= <-]. split_and!; try done. unfold batch_of. cbn. by rewrite lookup_insert_eq.
  - destruct (f_calls f !! n) as [[k [| |b|]]|] eqn:En; try done. intros [= <-]. assert (f_writeMu f = Some n) as Ew by (by apply (Hlock n k Locked En)).
    unfold swap. destruct k; rewrite ?Hc; (split_and!; [done|done|]); unfold batch_of; cbn; rewrite Ew, lookup_insert_eq; [done|by apply Hclosed].
  - destruct (f_calls f !! n) as [[k [| |batch|]]|] eqn:En; try done. destruct (batch !! a) as [now|] eqn:Ea; [|done].
    destruct (batch_holder f n k batch Hi En) as [Ew Eb]. rewrite Eb in Hb. subst batch. by rewrite lookup_empty in Ea.
  - destruct (f_calls f !! n) as [[k [| |batch|]]|] eqn:En; try done. destruct (decide (batch = ∅)) as [->|]; [|done]. by intros [= <-].
Qed.

Lemma settled_run f ls f' : inv f -> f_closed f = true -> batch_of f = ∅ -> run f ls = Some f' -> f_db f' = f_db f.
Proof.
  revert f. induction ls as [|l ls IH]; intros f Hi Hc Hb; cbn [run]; [by intros [= <-]|]. destruct (step f l) as [f1|] eqn:E; [|done]. cbn.
  destruct (settled_step f l f1 Hi Hc Hb E) as (<- & Hc1 & Hb1). apply IH; [by eapply flusher_step_inv|done|done].
Qed.

(** Whatever the goroutines' order: once CloseAndFlush has returned the flusher
    never writes to the database again, and, unless a write failed, the
    database holds the last use of every account that was noted before the
    close, a later note never being overwritten by an earlier one. *)
Theorem close_is_last_write db ls ls' f f' n : run (NewLastUsedFlusher db) ls = Some f -> f_calls f !! n = Some (KClose, Returned) -> run f ls' = Some f' ->
  f_db f' = f_db f /\ (writes_ok ls -> forall a now, noted (NewLastUsedFlusher db) ls ∅ !! a = Some now -> f_db f' !! a = Some now).
Proof.
  intros Hrun Hn Hrun'. pose proof (flusher_run_inv _ _ _ (flusher_inv_new db) Hrun) as Hi. destruct (i_returned f Hi n Hn) as [Hc Hb]. pose proof (settled_run f ls' f' Hi Hc Hb Hrun') as Hdb.
  split; [done|]. intros Hok a now Ha. rewrite Hdb. pose proof (run_kept _ _ _ _ (flusher_inv_new db) (kept_new db) Hok Hrun a now Ha) as Hk.
  by rewrite (i_closed f Hi Hc), lookup_empty, Hb, lookup_empty in Hk.
Qed.

(** A flush is under way when the close is called, with a note in between. *)
Definition sample_run : list label :=
  [LTouch "a" "t1"; LCall 1 KFlush; LLock 1; LSwap 1; LTouch "a" "t2"; LCall 2 KClose; LWrite 1 "a" true; LUnlock 1; LLock 2; LSwap 2; LTouch "a" "t3"; LWrite 2 "a" true; LUnlock 2].

Lemma close_is_last_write_witness : exists f, run (NewLastUsedFlusher ∅) sample_run = Some f /\ f_db f !! "a"%string = Some "t2"%string.
Proof.
  assert (exists f, run (NewLastUsedFlusher ∅) sample_run = Some f /\ f_calls f !! 2%nat = Some (KClose, Returned)) as (f & Hf & Hn) by (by eexists; split; vm_compute).
  exists f. split; [done|]. refine (proj2 (close_is_last_write ∅ sample_run [] f f 2 Hf Hn eq_refl) _ "a"%string "t2"%string _); [|by vm_compute].
  unfold writes_ok, sample_run. rewrite !Forall_cons. by split_and!.
Defined.
