(* ===== verification/Base64.v ===== *)
(** * Base64 as the program uses it

    Go's [base64.StdEncoding] and [base64.RawStdEncoding] (used by
    internal/webauthn/cose.go and internal/signagent/agent.go for key blobs)
    and [base64.RawURLEncoding] (used by internal/approval/broker.go and
    wschannel.go for challenges), over lists of bytes. *)
From S2P Require Import Prelude.

(** ** Definitions *)

(** The digit of a six-bit value in the alphabet whose last two symbols are
    [p] and [q]. *)
Definition digit (url : bool) (v : Z) : byte :=
  if v <? 26 then byte_of_Z (65 + v)
  else if v <? 52 then byte_of_Z (97 + (v - 26))
  else if v <? 62 then byte_of_Z (48 + (v - 52))
  else if v =? 62 then (if url then "-"%byte else "+"%byte)
  else (if url then "_"%byte else "/"%byte).

Definition undigit (url : bool) (c : byte) : option Z :=
  let z := Z_of_byte c in
  if (65 <=? z) && (z <=? 90) then Some (z - 65)
  else if (97 <=? z) && (z <=? 122) then Some (z - 97 + 26)
  else if (48 <=? z) && (z <=? 57) then Some (z - 48 + 52)
  else if bool_decide (c = if url then "-"%byte else "+"%byte) then Some 62
  else if bool_decide (c = if url then "_"%byte else "/"%byte) then Some 63
  else None.

Definition pad_char : byte := "="%byte.

(** [EncodeToString]; [pad] distinguishes the padded encodings. *)
Fixpoint b64_encode (url pad : bool) (l : list byte) : list byte :=
  let d := digit url in
  match l with
  | a :: b :: c :: l' =>
      let v := Z_of_byte a * 65536 + Z_of_byte b * 256 + Z_of_byte c in
      d (v / 262144) :: d (v / 4096 mod 64) :: d (v / 64 mod 64) :: d (v mod 64)
      :: b64_encode url pad l'
  | [a; b] =>
      let v := Z_of_byte a * 65536 + Z_of_byte b * 256 in
      d (v / 262144) :: d (v / 4096 mod 64) :: d (v / 64 mod 64)
      :: (if pad then [pad_char] else [])
  | [a] =>
      let v := Z_of_byte a * 65536 in
      d (v / 262144) :: d (v / 4096 mod 64) :: (if pad then [pad_char; pad_char] else [])
  | [] => []
  end.

Definition dec4 (url : bool) (a b c d : byte) : option (list byte) :=
  a ← undigit url a; b ← undigit url b; c ← undigit url c; d ← undigit url d;
  let v := a * 262144 + b * 4096 + c * 64 + d in
  Some [byte_of_Z (v / 65536); byte_of_Z (v / 256); byte_of_Z v].

Definition dec3 (url : bool) (a b c : byte) : option (list byte) :=
  a ← undigit url a; b ← undigit url b; c ← undigit url c;
  let v := a * 262144 + b * 4096 + c * 64 in
  Some [byte_of_Z (v / 65536); byte_of_Z (v / 256)].

Definition dec2 (url : bool) (a b : byte) : option (list byte) :=
  a ← undigit url a; b ← undigit url b;
  Some [byte_of_Z ((a * 262144 + b * 4096) / 65536)].

(** The quanta of a text without line breaks. As in Go, the unused bits of the
    last digit are not checked. *)
Fixpoint b64_quanta (url pad : bool) (l : list byte) : option (list byte) :=
  match l with
  | [] => Some []
  | a :: b :: c :: d :: l' =>
      if pad && bool_decide (l' = []) && bool_decide (d = pad_char) then
        if bool_decide (c = pad_char) then dec2 url a b else dec3 url a b c
      else
        q ← dec4 url a b c d;
        r ← b64_quanta url pad l';
        Some (q ++ r)
  | [a; b; c] => if pad then None else dec3 url a b c
  | [a; b] => if pad then None else dec2 url a b
  | [_] => None
  end.

Definition is_break (c : byte) : bool := bool_decide (c = x0a) || bool_decide (c = x0d).

(** [DecodeString]: carriage returns and line feeds are ignored anywhere. *)
Definition b64_decode (url pad : bool) (l : list byte) : option (list byte) :=
  b64_quanta url pad (List.filter (fun c => negb (is_break c)) l).

(** ** Lemmas *)

Lemma Z_of_byte_range b : 0 <= Z_of_byte b < 256.
Proof. unfold Z_of_byte. pose proof (Byte.to_N_bounded b). lia. Qed.

Lemma byte_of_Z_of_byte b : byte_of_Z (Z_of_byte b) = b.
Proof.
  unfold byte_of_Z, Z_of_byte. pose proof (Byte.to_N_bounded b).
  rewrite Z.mod_small by lia. rewrite N2Z.id. by rewrite Byte.of_to_N.
Qed.

Lemma Z_of_byte_of_Z z : Z_of_byte (byte_of_Z z) = z mod 256.
Proof.
  unfold byte_of_Z, Z_of_byte. pose proof (Z.mod_pos_bound z 256 ltac:(lia)).
  destruct (Byte.of_N (Z.to_N (z mod 256))) as [b|] eqn:E.
  - simpl. apply Byte.to_of_N in E. rewrite E. lia.
  - apply Byte.of_N_None_iff in E. lia.
Qed.

Lemma byte_of_Z_eq z b : z mod 256 = Z_of_byte b -> byte_of_Z z = b.
Proof.
  intros H. rewrite <- (byte_of_Z_of_byte b), <- H. unfold byte_of_Z. by rewrite Z.mod_mod.
Qed.

(** Every fact about one digit is checked on the sixty-four of them. *)
Lemma forall_sextet (P : Z -> bool) :
  forallb P (seqZ 0 64) = true -> forall v, 0 <= v < 64 -> P v = true.
Proof. intros H v Hv. rewrite forallb_forall in H. apply H, list_elem_of_In, elem_of_seqZ. lia. Qed.

Lemma undigit_digit url v : 0 <= v < 64 -> undigit url (digit url v) = Some v.
Proof.
  intros Hv. apply (bool_decide_eq_true (undigit url (digit url v) = Some v)).
  revert v Hv. apply forall_sextet. by destruct url; vm_compute.
Qed.

(** Printing characters other than the space. *)
Definition graphic (c : byte) : bool := (33 <=? Z_of_byte c) && (Z_of_byte c <=? 126).

(** Every digit is one, and is not the padding. *)
Lemma digit_plain url v : 0 <= v < 64 ->
  digit url v <> pad_char /\ graphic (digit url v) = true.
Proof.
  intros Hv.
  apply (bool_decide_eq_true (digit url v <> pad_char /\ graphic (digit url v) = true)).
  revert v Hv. apply forall_sextet. by destruct url; vm_compute.
Qed.

Lemma graphic_not_break c : graphic c = true -> is_break c = false.
Proof. by destruct c. Qed.

Lemma list_ind3 (P : list byte -> Prop) :
  P [] -> (forall a, P [a]) -> (forall a b, P [a; b]) ->
  (forall a b c l, P l -> P (a :: b :: c :: l)) -> forall l, P l.
Proof.
  intros H0 H1 H2 H3. fix IH 1. intros [|a [|b [|c l]]]; [done|apply H1|apply H2|apply H3, IH].
Qed.

Ltac byte_ranges :=
  repeat match goal with
    | b : byte |- _ =>
        lazymatch goal with H : 0 <= Z_of_byte b < 256 |- _ => fail | _ => idtac end;
        pose proof (Z_of_byte_range b)
    end.

Ltac divmod := byte_ranges; Z.to_euclidean_division_equations; lia.

(** The text is digits, then padding. *)
Lemma b64_encode_chars url pad l : Forall (fun c => graphic c = true) (b64_encode url pad l).
Proof.
  induction l as [|a|a b|a b c l IH] using list_ind3; simpl b64_encode;
    repeat apply Forall_cons_2; try done;
    try (apply (digit_plain url); divmod);
    destruct pad; repeat apply Forall_cons_2; try apply Forall_nil_2; done.
Qed.

Lemma quanta_encode url pad l : b64_quanta url pad (b64_encode url pad l) = Some l.
Proof.
  induction l as [|a|a b|a b c l IH] using list_ind3; [done| | |].
  - cbn [b64_encode]. destruct pad; cbn; unfold dec2; rewrite !undigit_digit by divmod; simpl;
      do 2 f_equal; apply byte_of_Z_eq; divmod.
  - cbn [b64_encode].
    assert (Hd : dec3 url (digit url ((Z_of_byte a * 65536 + Z_of_byte b * 256) / 262144))
      (digit url ((Z_of_byte a * 65536 + Z_of_byte b * 256) / 4096 mod 64))
      (digit url ((Z_of_byte a * 65536 + Z_of_byte b * 256) / 64 mod 64)) = Some [a; b]).
    { unfold dec3. rewrite !undigit_digit by divmod. simpl.
      repeat (f_equal; []). f_equal; [|f_equal]; apply byte_of_Z_eq; divmod. }
    destruct pad; cbn [b64_quanta andb]; [|exact Hd].
    rewrite !bool_decide_true by done. cbn [andb].
    rewrite bool_decide_false; [exact Hd|]. apply digit_plain. divmod.
  - cbn [b64_encode b64_quanta].
    rewrite (bool_decide_false (digit url _ = pad_char)) by (apply digit_plain; divmod).
    rewrite !andb_false_r. rewrite IH. unfold dec4. rewrite !undigit_digit by divmod. simpl.
    f_equal. f_equal; [|f_equal; [|f_equal]]; apply byte_of_Z_eq; divmod.
Qed.

(** Decoding inverts encoding, in all four variants. *)
Lemma b64_decode_encode url pad l : b64_decode url pad (b64_encode url pad l) = Some l.
Proof.
  unfold b64_decode. rewrite <- (quanta_encode url pad l). f_equal.
  pose proof (b64_encode_chars url pad l) as H. induction H as [|c t Hc _ IH]; [done|].
  simpl. rewrite graphic_not_break by done. simpl. by f_equal.
Qed.

Lemma b64_encode_inj url pad l l' : b64_encode url pad l = b64_encode url pad l' -> l = l'.
Proof.
  intros H. apply (f_equal (b64_decode url pad)) in H. rewrite !b64_decode_encode in H. congruence.
Qed.

Lemma b64_encode_nil url pad l : b64_encode url pad l = [] -> l = [].
Proof. by destruct l as [|a [|b [|c l]]]. Qed.

#[export] Hint Rewrite Z_of_byte_of_Z byte_of_Z_of_byte b64_decode_encode : sw.
#[export] Hint Resolve Z_of_byte_range : sw.
