(* ===== verification/Keyset.v ===== *)
(** * Keyset pagination (the readers of internal/audit/sessions.go, signings.go,
      oauthclients.go and internal/notify/notify.go)

    Four readers page through a table the same way: newest first by creation
    time and id, a cursor with the key of the last row, one row more than asked
    for to learn whether there is a next page. The reader is written once, over
    the row type, its key and its filter. *)
From S2P Require Import Prelude GoStrings Base64 Clock.
From Stdlib Require Import Sorting.Sorted.
#[local] Open Scope Z_scope.

(** ** Keys *)

Record cursor := mkCursor { c_CreatedAt : string; c_ID : string }.

(** created_at < ? OR (created_at = ? AND id < ?) *)
Definition key_lt (a b : cursor) : bool :=
  text_lt (c_CreatedAt a) (c_CreatedAt b) || (bool_decide (c_CreatedAt a = c_CreatedAt b) && text_lt (c_ID a) (c_ID b)).

Definition pageLimitDefault : Z := 50.
Definition pageLimitMax : Z := 500.

Definition clampLimit (n : Z) : Z := if n <=? 0 then pageLimitDefault else if n >? pageLimitMax then pageLimitMax else n.

Section Reader.
(** encoding/json on a cursor: the object with its two fields. *)
Context (json_marshal : cursor -> list byte) (json_unmarshal : list byte -> option cursor).
(** A row and its key; the filter of a request is a predicate on rows. *)
Context {R : Type} (key : R -> cursor).

Definition encodeCursor (c : cursor) : string := String.string_of_list_byte (b64_encode true false (json_marshal c)).

Definition decodeCursor (raw : string) : option cursor :=
  if bool_decide (raw = EmptyString) then None
  else
    match b64_decode true false (bytes_of_string raw) with
    | None => None
    | Some data =>
        match json_unmarshal data with
        | None => None
        | Some c => if bool_decide (c_CreatedAt c = EmptyString) || bool_decide (c_ID c = EmptyString) then None else Some c
        end
    end.

(** ORDER BY created_at DESC, id DESC *)
Fixpoint insert_desc (x : R) (l : list R) : list R :=
  match l with
  | [] => [x]
  | y :: l' => if key_lt (key x) (key y) then y :: insert_desc x l' else x :: l
  end.

Definition order_desc (l : list R) : list R := foldr insert_desc [] l.

(** The rows of the query, with its LIMIT. *)
Definition select (table : list R) (matches : R -> bool) (c : option cursor) (n : Z) : list R :=
  take (Z.to_nat n) (order_desc (List.filter (fun r =>
    matches r && match c with Some c => key_lt (key r) c | None => true end) table)).

(** paginate: trim the over-fetched rows, and the cursor of the next page. *)
Definition paginate (rows : list R) (limit : Z) : list R * option string :=
  if zlen rows <=? limit then (rows, None)
  else
    let rows := take (Z.to_nat limit) rows in
    (rows, encodeCursor <$> (key <$> last rows)).

Definition ListPage (table : list R) (matches : R -> bool) (cursorStr : string) (limit : Z) : list R * option string :=
  let limit := clampLimit limit in
  paginate (select table matches (decodeCursor cursorStr) (limit + 1)) limit.

(** A client that follows the cursors from the first page on; the k-th request
    meets the table as it is by then. *)
Fixpoint all_pages (fuel : nat) (table : nat -> list R) (k : nat) (matches : R -> bool) (cursorStr : string) (limit : Z) : option (list R) :=
  match fuel with
  | O => None
  | S fuel =>
      match ListPage (table k) matches cursorStr limit with
      | (rows, None) => Some rows
      | (rows, Some next) => (fun rest => rows ++ rest) <$> all_pages fuel table (S k) matches next limit
      end
  end.

End Reader.

(** ** The order *)

Lemma key_lt_spec a b : key_lt a b = true <->
  text_lt (c_CreatedAt a) (c_CreatedAt b) = true \/ c_CreatedAt a = c_CreatedAt b /\ text_lt (c_ID a) (c_ID b) = true.
Proof. unfold key_lt. by rewrite orb_true_iff, andb_true_iff, bool_decide_eq_true. Qed.

Lemma key_lt_irrefl a : key_lt a a = false.
Proof. unfold key_lt. by rewrite !text_lt_irrefl, andb_false_r. Qed.

Lemma key_lt_trans a b c : key_lt a b = true -> key_lt b c = true -> key_lt a c = true.
Proof.
  rewrite !key_lt_spec. intros [H1|[E1 H1]] [H2|[E2 H2]].
  - left. by eapply text_lt_trans.
  - left. by rewrite <- E2.
  - left. by rewrite E1.
  - right. split; [congruence|by eapply text_lt_trans].
Qed.

Lemma key_lt_total a b : a <> b -> key_lt a b = true \/ key_lt b a = true.
Proof.
  intros Hne. destruct (key_lt a b) eqn:E1; [by left|]. destruct (key_lt b a) eqn:E2; [by right|]. destruct Hne.
  unfold key_lt in E1, E2. apply orb_false_iff in E1 as [A1 B1], E2 as [A2 B2]. pose proof (text_lt_total _ _ A1 A2) as Ec.
  rewrite bool_decide_true in B1, B2 by done. cbn in B1, B2. pose proof (text_lt_total _ _ B1 B2) as Ei.
  destruct a, b; cbn in *; congruence.
Qed.

Lemma StronglySorted_weaken {A} (P Q : A -> A -> Prop) l : (forall a b, P a b -> Q a b) -> StronglySorted P l -> StronglySorted Q l.
Proof. intros H. induction 1 as [|x l _ IH Hx]; constructor; [done|]. eapply Forall_impl; [exact Hx|]. auto. Qed.

Section Pages.
Context {R : Type} (key : R -> cursor).

Definition desc : list R -> Prop := StronglySorted (fun x y => key_lt (key y) (key x) = true).

Lemma insert_desc_elem x l y : y ∈ insert_desc key x l <-> y = x \/ y ∈ l.
Proof. induction l as [|z l IH]; cbn; [set_solver|]. destruct (key_lt _ _); set_solver. Qed.

Lemma order_desc_elem l y : y ∈ order_desc key l <-> y ∈ l.
Proof. induction l as [|x l IH]; cbn; [done|]. rewrite insert_desc_elem. set_solver. Qed.

Lemma insert_desc_sorted x l : desc l -> (forall y, y ∈ l -> key y <> key x) -> desc (insert_desc key x l).
Proof.
  unfold desc. induction l as [|y l IH]; intros Hs Hne; cbn; [by repeat constructor|].
  apply StronglySorted_inv in Hs as [Hs Hy]. destruct (key_lt (key x) (key y)) eqn:E.
  - constructor; [apply IH; [done|set_solver]|]. apply Forall_forall. intros z Hz. apply insert_desc_elem in Hz as [->|Hz]; [done|].
    rewrite Forall_forall in Hy. by apply Hy.
  - assert (key_lt (key y) (key x) = true) as Hyx.
    { destruct (key_lt_total (key y) (key x)) as [H|H]; [apply Hne; set_solver|done|congruence]. }
    constructor; [by constructor|]. constructor; [done|]. rewrite Forall_forall in Hy |- *. intros z Hz. eapply key_lt_trans; [by apply Hy|done].
Qed.

Lemma insert_desc_length x l : length (insert_desc key x l) = S (length l).
Proof. induction l as [|z l IH]; cbn; [done|]. destruct (key_lt _ _); cbn; [by rewrite IH|done]. Qed.

Lemma order_desc_length l : length (order_desc key l) = length l.
Proof. induction l as [|x l IH]; [done|]. cbn. rewrite insert_desc_length. by f_equal. Qed.

Lemma order_desc_sorted l : NoDup (map key l) -> desc (order_desc key l).
Proof.
  induction l as [|x l IH]; cbn; intros Hnd; [constructor|]. apply NoDup_cons in Hnd as [Hx Hnd]. apply insert_desc_sorted; [by apply IH|].
  intros y Hy Heq. apply (proj1 (order_desc_elem l y)) in Hy. apply Hx. rewrite <- Heq. by apply (list_elem_of_fmap_2 key).
Qed.

(** Strictly descending lists with the same elements are the same. *)
Lemma desc_head x l y : desc (x :: l) -> y ∈ x :: l -> y = x \/ key_lt (key y) (key x) = true.
Proof. intros [_ Hx]%StronglySorted_inv [->|Hy]%elem_of_cons; [by left|]. rewrite Forall_forall in Hx. right. by apply Hx. Qed.

Lemma desc_fresh x l : desc (x :: l) -> x ∉ l.
Proof. intros [_ Hx]%StronglySorted_inv Hin. rewrite Forall_forall in Hx. specialize (Hx x Hin). cbn in Hx. by rewrite key_lt_irrefl in Hx. Qed.

Lemma desc_unique l1 l2 : desc l1 -> desc l2 -> (forall x, x ∈ l1 <-> x ∈ l2) -> l1 = l2.
Proof.
  revert l2. induction l1 as [|x l1 IH]; intros [|y l2] H1 H2 Hel; [done|set_solver|set_solver|].
  assert (x = y) as ->.
  { destruct (desc_head y l2 x H2) as [|Hxy]; [apply Hel; set_solver|done|].
    destruct (desc_head x l1 y H1) as [|Hyx]; [apply Hel; set_solver|done|].
    pose proof (key_lt_trans _ _ _ Hxy Hyx) as Hc. by rewrite key_lt_irrefl in Hc. }
  f_equal. pose proof (desc_fresh _ _ H1). pose proof (desc_fresh _ _ H2).
  apply StronglySorted_inv in H1 as [H1 _], H2 as [H2 _]. apply IH; try done. intros z. specialize (Hel z).
  rewrite !elem_of_cons in Hel. split; intros Hz; [destruct (proj1 Hel (or_intror Hz)) as [->|]|destruct (proj2 Hel (or_intror Hz)) as [->|]]; done.
Qed.

Lemma desc_NoDup l : desc l -> NoDup (map key l).
Proof.
  unfold desc. induction 1 as [|x l Hs IH Hx]; [constructor|]. cbn. apply NoDup_cons. split; [|done]. intros Hin.
  apply list_elem_of_fmap in Hin as (y & Hk & Hy). rewrite Forall_forall in Hx. specialize (Hx y Hy). cbn in Hx. by rewrite <- Hk, key_lt_irrefl in Hx.
Qed.

Lemma filter_elem (p : R -> bool) l x : x ∈ List.filter p l <-> x ∈ l /\ p x = true.
Proof. by rewrite !list_elem_of_In, filter_In. Qed.

Lemma desc_filter p l : desc l -> desc (List.filter p l).
Proof.
  unfold desc. induction 1 as [|x l Hs IH Hx]; cbn; [constructor|]. destruct (p x); [|done]. constructor; [done|].
  rewrite Forall_forall in Hx |- *. intros y Hy. apply Hx. by apply filter_elem in Hy as [Hy _].
Qed.

Lemma order_desc_filter p l : NoDup (map key l) -> order_desc key (List.filter p l) = List.filter p (order_desc key l).
Proof.
  intros Hnd. apply desc_unique.
  - by apply order_desc_sorted, NoDup_map_filter.
  - by apply desc_filter, order_desc_sorted.
  - intros x. rewrite order_desc_elem, !filter_elem, order_desc_elem. done.
Qed.

(** The rows after one of a descending list. *)
Lemma desc_after p x q : desc (p ++ x :: q) -> List.filter (fun r => key_lt (key r) (key x)) (p ++ x :: q) = q.
Proof.
  intros Hs. induction p as [|y p IH]; cbn.
  - rewrite key_lt_irrefl. apply StronglySorted_inv in Hs as [Hs Hx]. clear -Hx. induction q as [|z q IH]; [done|]. cbn.
    apply Forall_cons in Hx as [-> Hx]. f_equal. by apply IH.
  - apply StronglySorted_inv in Hs as [Hs Hy]. rewrite Forall_forall in Hy. assert (key_lt (key x) (key y) = true) as Hxy by (apply Hy; set_solver).
    destruct (key_lt (key y) (key x)) eqn:E; [|by apply IH]. pose proof (key_lt_trans _ _ _ Hxy E) as Hc. by rewrite key_lt_irrefl in Hc.
Qed.

(** ** The pages of a growing table *)

Context (jm : cursor -> list byte) (ju : list byte -> option cursor).
(** The table at each request: rows are only added, and newer than every row
    that was there at the first request. *)
Context (table : nat -> list R).
Definition grows : Prop := forall k,
  NoDup (map key (table k)) /\ (forall r, r ∈ table 0%nat -> r ∈ table k) /\
  (forall r, r ∈ table k -> r ∈ table 0%nat \/ forall r0, r0 ∈ table 0%nat -> key_lt (key r0) (key r) = true).
(** The cursors of its rows survive their encoding. *)
Definition cursors_ok : Prop := forall r, r ∈ table 0%nat ->
  c_CreatedAt (key r) <> EmptyString /\ c_ID (key r) <> EmptyString /\ jm (key r) <> [] /\ ju (jm (key r)) = Some (key r).

Lemma cursor_roundtrip r : cursors_ok -> r ∈ table 0%nat -> decodeCursor ju (encodeCursor jm (key r)) = Some (key r).
Proof.
  intros Hok (Hc & Hi & Hne & Hj)%Hok. unfold decodeCursor, encodeCursor. rewrite bool_decide_eq_false_2.
  - unfold bytes_of_string. rewrite String.list_byte_of_string_of_list_byte, b64_decode_encode, Hj.
    by rewrite !bool_decide_eq_false_2.
  - intros He. apply Hne, (b64_encode_nil true false). by destruct (b64_encode true false (jm (key r))).
Qed.

Lemma select_after k m x p q n : grows ->
  order_desc key (List.filter m (table 0%nat)) = p ++ x :: q -> select key (table k) m (Some (key x)) n = take (Z.to_nat n) q.
Proof.
  intros Hg Ho. unfold select. f_equal. destruct (Hg 0%nat) as (Hnd0 & _ & _), (Hg k) as (Hndk & Hin & Hnew).
  assert (x ∈ table 0%nat) as Hx.
  { assert (x ∈ order_desc key (List.filter m (table 0%nat))) as H by (rewrite Ho; set_solver). by apply order_desc_elem, filter_elem in H as [H _]. }
  rewrite <- (desc_after p x q) by (rewrite <- Ho; by apply order_desc_sorted, NoDup_map_filter). rewrite <- Ho.
  apply desc_unique; [by apply order_desc_sorted, NoDup_map_filter|by apply desc_filter, order_desc_sorted, NoDup_map_filter|].
  intros y. rewrite order_desc_elem, !filter_elem, order_desc_elem, filter_elem, andb_true_iff. split.
  - intros (Hy & Hm & Hlt). split; [|done]. split; [|done]. destruct (Hnew y Hy) as [|H]; [done|].
    pose proof (key_lt_trans _ _ _ Hlt (H x Hx)) as Hc. by rewrite key_lt_irrefl in Hc.
  - intros [[Hy Hm] Hlt]. auto.
Qed.

Lemma clampLimit_pos n : 1 <= clampLimit n <= pageLimitMax.
Proof using. unfold clampLimit, pageLimitMax, pageLimitDefault. destruct (Z.leb_spec n 0); [lia|]. destruct (Z.gtb_spec n 500); lia. Qed.

Lemma paginate_rest limit q : 0 < limit ->
  paginate jm key (take (Z.to_nat (limit + 1)) q) limit =
    if zlen q <=? limit then (q, None) else (take (Z.to_nat limit) q, encodeCursor jm <$> (key <$> last (take (Z.to_nat limit) q))).
Proof using.
  intros Hl. unfold paginate. rewrite length_take. destruct (Z.leb_spec (Z.of_nat (length q)) limit).
  - destruct (Z.leb_spec (Z.of_nat (Z.to_nat (limit + 1) `min` length q)) limit); [|lia]. by rewrite take_ge by lia.
  - destruct (Z.leb_spec (Z.of_nat (Z.to_nat (limit + 1) `min` length q)) limit); [lia|]. rewrite take_take.
    by replace (Z.to_nat limit `min` Z.to_nat (limit + 1))%nat with (Z.to_nat limit) by lia.
Qed.

(** A page that is not the last one, its cursor and the rest. *)
Lemma page_split limit (q : list R) : 0 < limit < zlen q -> exists h x t, q = (h ++ [x]) ++ t /\ take (Z.to_nat limit) q = h ++ [x].
Proof using.
  intros Hl. pose proof (take_drop (Z.to_nat limit) q) as Hq. destruct (take (Z.to_nat limit) q) as [|x h _] eqn:E using rev_ind.
  - apply (f_equal length) in E. rewrite length_take in E. cbn in E. lia.
  - by exists h, x, (drop (Z.to_nat limit) q).
Qed.

Lemma all_pages_suffix fuel k m p x q limit : grows -> cursors_ok ->
  order_desc key (List.filter m (table 0%nat)) = p ++ x :: q -> (length q < fuel)%nat ->
  all_pages jm ju key fuel table k m (encodeCursor jm (key x)) limit = Some q.
Proof.
  intros Hg Hok. revert k p x q. induction fuel as [|fuel IH]; intros k p x q Ho Hf; [lia|]. cbn [all_pages]. unfold ListPage.
  assert (x ∈ table 0%nat) as Hx.
  { assert (x ∈ order_desc key (List.filter m (table 0%nat))) as H by (rewrite Ho; set_solver). by apply order_desc_elem, filter_elem in H as [H _]. }
  pose proof (clampLimit_pos limit) as [Hl _]. rewrite (cursor_roundtrip x Hok Hx), (select_after k m x p q _ Hg Ho), paginate_rest by lia.
  destruct (Z.leb_spec (zlen q) (clampLimit limit)); [done|].
  destruct (page_split (clampLimit limit) q) as (h & y & t & -> & ->); [lia|]. rewrite last_snoc. cbn [fmap option_fmap option_map].
  rewrite (IH (S k) (p ++ x :: h) y t); [done| |].
  - rewrite Ho. by rewrite <- !app_assoc.
  - rewrite !length_app in Hf. cbn in Hf. lia.
Qed.

Lemma select_elem l m c n x : x ∈ select key l m c n -> x ∈ l /\ m x = true.
Proof using.
  unfold select. intros Hx. apply elem_of_take in Hx as (i & Hi & _). apply list_elem_of_lookup_2, order_desc_elem, filter_elem in Hi as [Hl Hm].
  apply andb_true_iff in Hm as [Hm _]. done.
Qed.

(** A page holds rows that match, and no more than 500. *)
Lemma ListPage_rows l m cs limit x : x ∈ fst (ListPage jm ju key l m cs limit) -> x ∈ l /\ m x = true.
Proof using.
  unfold ListPage, paginate. intros Hx. eapply (select_elem l m _ _ x). destruct (_ <=? _); cbn in Hx; [exact Hx|].
  apply elem_of_take in Hx as (i & Hi & _). by eapply list_elem_of_lookup_2.
Qed.

Lemma ListPage_length l m cs limit : zlen (fst (ListPage jm ju key l m cs limit)) <= pageLimitMax.
Proof using.
  pose proof (clampLimit_pos limit) as [H1 H2]. unfold ListPage, paginate. destruct (Z.leb_spec (zlen (select key l m (decodeCursor ju cs) (clampLimit limit + 1))) (clampLimit limit)); cbn [fst]; [lia|].
  rewrite length_take. lia.
Qed.

End Pages.

(** A reader that follows the cursors sees every matching row of the table
    as it was at its first request, exactly once and newest first, and comes to
    an end, whatever page size it asked for, and however many newer rows arrive
    in the meantime. *)
Lemma pages_cover {R : Type} (key : R -> cursor) jm ju (table : nat -> list R) m limit :
  grows key table -> cursors_ok key jm ju table ->
  all_pages jm ju key (S (length (table 0%nat))) table 0 m EmptyString limit = Some (order_desc key (List.filter m (table 0%nat))).
Proof.
  intros Hg Hok. cbn [all_pages]. unfold ListPage. pose proof (clampLimit_pos limit) as [Hl _].
  assert (forall n, select key (table 0%nat) m None n = take (Z.to_nat n) (order_desc key (List.filter m (table 0%nat)))) as Hs.
  { intros n. unfold select. f_equal. f_equal. apply filter_ext. intros r. by rewrite andb_true_r. }
  unfold decodeCursor at 1. rewrite bool_decide_eq_true_2 by done. rewrite Hs, paginate_rest by lia.
  destruct (Z.leb_spec (zlen (order_desc key (List.filter m (table 0%nat)))) (clampLimit limit)); [done|].
  destruct (page_split (clampLimit limit) (order_desc key (List.filter m (table 0%nat)))) as (h & y & t & Ho & ->); [lia|].
  rewrite last_snoc. cbn [fmap option_fmap option_map]. rewrite (all_pages_suffix key jm ju table _ 1 m h y t limit Hg Hok).
  - by rewrite Ho.
  - by rewrite Ho, <- app_assoc.
  - assert (length (order_desc key (List.filter m (table 0%nat))) <= length (table 0%nat))%nat; [|rewrite Ho, !length_app in *; cbn in *; lia].
    rewrite order_desc_length. apply filter_length_le.
Qed.
