(* ===== verification/SSHWire.v ===== *)
(** * SSH wire formats of passkeys (internal/webauthn/cose.go,
      internal/signing/signing.go, internal/sshx/pubkey.go, and the key matching
      of internal/signagent/agent.go)

    A Go string or byte slice is a list of bytes. The COSE and ASN.1 parsers
    (third-party packages), the JSON decoder's reading of the origin and the
    SHA-256 function are parameters of the definitions that use them. *)
From S2P Require Import Prelude Base64.

(** ** SSH strings and key blobs (cose.go) *)

Definition sshAlgorithm : list byte := bytes_of_string "webauthn-sk-ecdsa-sha2-nistp256@openssh.com".
Definition sshSKKeyType : list byte := bytes_of_string "sk-ecdsa-sha2-nistp256@openssh.com".
Definition sshCurve : list byte := bytes_of_string "nistp256".

Definition SshdConfigLine : list byte := bytes_of_string "PubkeyAcceptedAlgorithms=+" ++ sshAlgorithm.

Definition sshString (b : list byte) : list byte := be32 (wrapu32 (zlen b)) ++ b.

Definition pad32 (b : list byte) : list byte :=
  if 32 <=? zlen b then drop (length b - 32) b else repeat x00 (32 - length b) ++ b.

(** What the COSE parser answers for a key it accepts. *)
Inductive ParsedKey :=
  | EC2PublicKeyData (XCoord YCoord : list byte)
  | OtherKey.

Definition coseBlob (x y rpID : list byte) : list byte :=
  let ecPoint := [x04] ++ (pad32 x ++ pad32 y) in
  sshString sshAlgorithm ++ sshString sshCurve ++ sshString ecPoint ++ sshString rpID.

Definition CoseToAuthorizedKeys (ParsePublicKey : list byte -> option ParsedKey)
  (coseKey rpID : list byte) : option (list byte) :=
  match ParsePublicKey coseKey with
  | None => None
  | Some OtherKey => None
  | Some (EC2PublicKeyData x y) =>
      Some (sshAlgorithm ++ [" "%byte] ++ b64_encode false true (coseBlob x y rpID))
  end.

Fixpoint trimEqual_rev (s : list byte) : list byte :=
  match s with
  | c :: s' => if bool_decide (c = "="%byte) then trimEqual_rev s' else s
  | [] => []
  end.

(** Both [trimEqual] and [strings.TrimRight(s, "=")]. *)
Definition trimEqual (s : list byte) : list byte := rev (trimEqual_rev (rev s)).

(** The text up to the first space, and what follows that space. *)
Fixpoint cut_space (s : list byte) : list byte * option (list byte) :=
  match s with
  | [] => ([], None)
  | c :: s' =>
      if bool_decide (c = " "%byte) then ([], Some s')
      else let '(w, r) := cut_space s' in (c :: w, r)
  end.

Definition publicKeyBlobFromLine (line : list byte) : option (list byte) :=
  let b64 := match cut_space line with (_, Some rest) => fst (cut_space rest) | (_, None) => [] end in
  if bool_decide (b64 = []) then None
  else match b64_decode false true b64 with
       | Some raw => Some raw
       | None => b64_decode false false (trimEqual b64)
       end.

Definition toSkPublicKeyBlob (webauthnBlob : list byte) : list byte :=
  if zlen webauthnBlob <? 4 then webauthnBlob
  else
    let typeLen := beU32 webauthnBlob in
    if zlen webauthnBlob <? 4 + typeLen then webauthnBlob
    else
      let rest := drop (Z.to_nat (wrapu32 (4 + typeLen))) webauthnBlob in
      sshString sshSKKeyType ++ rest.

Definition FingerprintFromAuthorizedKeys (sha256 : list byte -> list byte)
  (authorizedKeysEntry : list byte) : list byte :=
  if bool_decide (authorizedKeysEntry = []) then []
  else match publicKeyBlobFromLine authorizedKeysEntry with
       | None => []
       | Some blob =>
           bytes_of_string "SHA256:"
           ++ trimEqual (b64_encode false true (sha256 (toSkPublicKeyBlob blob)))
       end.

(** [bytes.Contains] *)
Fixpoint contains (l sub : list byte) : bool :=
  bool_decide (take (length sub) l = sub) ||
  match l with [] => false | _ :: l' => contains l' sub end.

Definition DetectAlgorithm (coseKey : list byte) : string :=
  if contains coseKey [x03; x26] then "ES256 (P-256)"
  else if contains coseKey [x03; x27] then "EdDSA (Ed25519)"
  else "unknown".

(** ** Stored keys (pubkey.go, PasskeyIdentity) *)

(** The length of the white space character a text starts with, 0 if none:
    the ASCII ones, and the UTF-8 encodings of the other Unicode spaces. *)
Definition space_len (s : list byte) : nat :=
  match s with
  | (x09 | x0a | x0b | x0c | x0d | x20) :: _ => 1
  | xc2 :: (x85 | xa0) :: _ => 2
  | xe1 :: x9a :: x80 :: _ => 3
  | xe2 :: x80 :: (x80 | x81 | x82 | x83 | x84 | x85 | x86 | x87 | x88 | x89 | x8a
                   | xa8 | xa9 | xaf) :: _ => 3
  | xe2 :: x81 :: x9f :: _ => 3
  | xe3 :: x80 :: x80 :: _ => 3
  | _ => 0
  end.

(** [strings.Fields]; [skip] counts the bytes of a white space character still
    to pass, [cur] is the word under way, reversed. *)
Fixpoint fields (skip : nat) (cur : list byte) (s : list byte) : list (list byte) :=
  let flush := match cur with [] => [] | _ => [rev cur] end in
  match s with
  | [] => flush
  | c :: s' =>
      match skip with
      | S k => fields k cur s'
      | O => match space_len s with
             | O => fields 0 (c :: cur) s'
             | S k => flush ++ fields k [] s'
             end
      end
  end.

Definition Fields (s : list byte) : list (list byte) := fields 0 [] s.

Definition parseWebauthnPublicKey (authorizedKeysLine : list byte) : option (list byte) :=
  match Fields authorizedKeysLine with
  | _ :: f1 :: _ => b64_decode false true f1
  | _ => None
  end.

(** ** Matching an offered key (agent.go) *)

Definition canonicalizeSK (blob : list byte) : list byte :=
  if zlen blob <? 4 then blob
  else
    let typeLen := beU32 blob in
    if zlen blob <? typeLen + 4 then blob
    else if negb (bool_decide (take (Z.to_nat typeLen) (drop 4 blob) = sshAlgorithm)) then blob
    else
      let rest := drop (Z.to_nat (4 + typeLen)) blob in
      be32 (zlen sshSKKeyType) ++ sshSKKeyType ++ rest.

(** ** Assertions as SSH signatures (signing.go) *)

Definition AuthDataFlagUV : Z := 4.

Definition IsUserVerified (authData : list byte) : bool :=
  (33 <=? zlen authData) &&
  match authData !! 32%nat with
  | Some f => negb (Z.land (Z_of_byte f) AuthDataFlagUV =? 0)
  | None => false
  end.

Definition appendSSHString (dst s : list byte) : list byte :=
  dst ++ be32 (wrapu32 (zlen s)) ++ s.

(** [big.Int.Bytes] of a magnitude, by [fuel] divisions. *)
Fixpoint big_bytes (fuel : nat) (v : Z) : list byte :=
  match fuel with
  | O => []
  | S f => if v <=? 0 then [] else big_bytes f (v / 256) ++ [byte_of_Z v]
  end.

Definition Bytes (v : Z) : list byte :=
  big_bytes (Z.to_nat (Z.log2 (Z.abs v)) + 1) (Z.abs v).

Definition mpint (v : Z) : list byte :=
  let b := Bytes v in
  let b := match b with
           | c :: _ => if negb (Z.land (Z_of_byte c) 128 =? 0) then [x00] ++ b else b
           | [] => b
           end in
  appendSSHString [] b.

Record Signature := mkSignature { Format : list byte; Blob : list byte; Rest : list byte }.

Inductive SignatureError := AuthenticatorDataTooShort | InvalidASN1.

Section signature.
(** parseECDSASignature runs a third-party ASN.1 reader; the origin is the
    JSON field of the client data, empty when absent. *)
Context (parseECDSASignature : list byte -> option (Z * Z)).
Context (jsonOrigin : list byte -> list byte).

Definition BuildSSHSignature (AuthenticatorData SignatureDER ClientDataJSON : list byte)
  : SignatureError + Signature :=
  if zlen AuthenticatorData <? 37 then inl AuthenticatorDataTooShort
  else
    let flags := nth 32 AuthenticatorData x00 in
    let counter := beU32 (drop 33 AuthenticatorData) in
    match parseECDSASignature SignatureDER with
    | None => inl InvalidASN1
    | Some (r, s) =>
        let blob := mpint r ++ mpint s in
        let rest := [flags] in
        let rest := rest ++ be32 counter in
        let rest := appendSSHString rest (jsonOrigin ClientDataJSON) in
        let rest := appendSSHString rest ClientDataJSON in
        let rest := appendSSHString rest [] in
        inr (mkSignature sshAlgorithm blob rest)
    end.
End signature.

(** ** Reading the formats back: what an SSH peer does *)

(** Reads one SSH string. *)
Definition readString (b : list byte) : option (list byte * list byte) :=
  if zlen b <? 4 then None
  else let n := beU32 b in
       if zlen b - 4 <? n then None
       else Some (take (Z.to_nat n) (drop 4 b), drop (Z.to_nat (4 + n)) b).

Fixpoint beValue (acc : Z) (b : list byte) : Z :=
  match b with [] => acc | c :: b' => beValue (acc * 256 + Z_of_byte c) b' end.

(** Two's complement, as in RFC 4251. *)
Definition mpintValue (b : list byte) : Z :=
  match b with
  | [] => 0
  | c :: _ => if Z_of_byte c <? 128 then beValue 0 b else beValue 0 b - 256 ^ zlen b
  end.

(** The fields of a key blob: type, curve, point, application. *)
Definition readKeyBlob (b : list byte) : option (list byte * list byte * list byte * list byte) :=
  '(t, b) ← readString b; '(c, b) ← readString b; '(p, b) ← readString b; '(a, b) ← readString b;
  if bool_decide (b = []) then Some (t, c, p, a) else None.

(** The fields of a webauthn signature's trailer: flags, counter, origin,
    client data, extensions. *)
Definition readTrailer (b : list byte) : option (byte * Z * list byte * list byte * list byte) :=
  match b with
  | f :: b =>
      if zlen b <? 4 then None
      else let counter := beU32 b in
           '(o, b) ← readString (drop 4 b); '(cd, b) ← readString b; '(e, b) ← readString b;
           if bool_decide (b = []) then Some (f, counter, o, cd, e) else None
  | [] => None
  end.

(** ** Lemmas *)

#[local] Arguments sshString : simpl never.
#[local] Arguments readString : simpl never.
#[local] Arguments be32 : simpl never.

Definition short (b : list byte) : Prop := zlen b < 2 ^ 32.

Lemma wrapu32_id z : 0 <= z < 2 ^ 32 -> wrapu32 z = z.
Proof. unfold wrapu32. intros. by rewrite Z.mod_small. Qed.

Lemma beU32_be32 z r : beU32 (be32 z ++ r) = wrapu32 z.
Proof.
  unfold be32, wrapu32. simpl.
  rewrite !Z_of_byte_of_Z, !Z.shiftr_div_pow2, !Z.shiftl_mul_pow2 by lia.
  change (2 ^ 24) with 16777216. change (2 ^ 16) with 65536. change (2 ^ 8) with 256.
  change (2 ^ 32) with 4294967296.
  Z.to_euclidean_division_equations. lia.
Qed.

Lemma length_be32 z : length (be32 z) = 4%nat.
Proof. done. Qed.

Lemma readString_spec s r : short s -> readString (sshString s ++ r) = Some (s, r).
Proof.
  intros Hs. unfold short in Hs. unfold readString, sshString. rewrite <- app_assoc.
  rewrite !length_app, length_be32.
  rewrite (proj2 (Z.ltb_ge _ _)) by lia.
  rewrite beU32_be32, !wrapu32_id by (rewrite ?wrapu32_id; lia).
  rewrite (proj2 (Z.ltb_ge _ _)) by lia.
  f_equal. f_equal.
  - change (drop 4 (be32 (zlen s) ++ s ++ r)) with (s ++ r).
    rewrite Nat2Z.id. by rewrite take_app_length.
  - rewrite Z2Nat.inj_add, Nat2Z.id by lia. change (Z.to_nat 4) with 4%nat. simpl.
    by rewrite drop_app_length.
Qed.

Lemma appendSSHString_eq d s : appendSSHString d s = d ++ sshString s.
Proof. done. Qed.

Lemma readString_sshString s : short s -> readString (sshString s) = Some (s, []).
Proof. intros. rewrite <- (app_nil_r (sshString s)). by apply readString_spec. Qed.

Lemma beValue_app acc a b : beValue acc (a ++ b) = beValue (beValue acc a) b.
Proof. revert acc. induction a as [|c a IH]; intros acc; [done|]. simpl. apply IH. Qed.

Lemma big_bytes_value fuel v : 0 <= v < 2 ^ (Z.of_nat fuel) -> beValue 0 (big_bytes fuel v) = v.
Proof.
  revert v. induction fuel as [|f IH]; intros v Hv.
  - simpl. change (2 ^ Z.of_nat 0) with 1 in Hv. lia.
  - simpl. destruct (v <=? 0) eqn:E; bool_to_prop; [simpl; lia|].
    rewrite beValue_app. simpl. rewrite IH.
    + rewrite Z_of_byte_of_Z. Z.to_euclidean_division_equations. lia.
    + rewrite Nat2Z.inj_succ, Z.pow_succ_r in Hv by lia.
      Z.to_euclidean_division_equations. lia.
Qed.

Lemma Bytes_value v : beValue 0 (Bytes v) = Z.abs v.
Proof.
  unfold Bytes. apply big_bytes_value. split; [lia|].
  destruct (decide (v = 0)) as [->|]; [done|].
  pose proof (Z.log2_spec (Z.abs v) ltac:(lia)). pose proof (Z.log2_nonneg (Z.abs v)).
  replace (Z.of_nat (Z.to_nat (Z.log2 (Z.abs v)) + 1)) with (Z.succ (Z.log2 (Z.abs v))) by lia. lia.
Qed.

Lemma high_bit b : negb (Z.land (Z_of_byte b) 128 =? 0) = negb (Z_of_byte b <? 128).
Proof. by destruct b. Qed.

Lemma mpint_payload v : exists b, mpint v = sshString b /\ mpintValue b = Z.abs v.
Proof.
  unfold mpint. pose proof (Bytes_value v) as Hv. destruct (Bytes v) as [|c b] eqn:E.
  - exists []. by rewrite <- Hv.
  - rewrite high_bit. destruct (Z_of_byte c <? 128) eqn:Ec; simpl.
    + exists (c :: b). split; [done|]. unfold mpintValue. by rewrite Ec.
    + exists (x00 :: c :: b). split; [done|]. unfold mpintValue.
      change (Z_of_byte x00 <? 128) with true. rewrite <- Hv. done.
Qed.

Lemma big_bytes_length fuel v : (length (big_bytes fuel v) <= fuel)%nat.
Proof.
  revert v. induction fuel as [|f IH]; intros v; simpl; [lia|].
  destruct (v <=? 0); simpl; [lia|]. rewrite length_app. simpl. specialize (IH (v / 256)). lia.
Qed.

Lemma mpint_short v b : Z.abs v < 2 ^ 256 -> mpint v = sshString b -> short b.
Proof.
  intros Hv E. apply (f_equal length) in E. unfold mpint, appendSSHString, sshString in E.
  unfold short. change (2 ^ 32) with 4294967296.
  assert (Hlen : (length (Bytes v) <= 257)%nat).
  { unfold Bytes. pose proof (big_bytes_length (Z.to_nat (Z.log2 (Z.abs v)) + 1) (Z.abs v)).
    assert (Z.log2 (Z.abs v) <= 256).
    { destruct (decide (v = 0)) as [->|]; [done|].
      apply Z.lt_le_incl, Z.log2_lt_pow2; lia. }
    lia. }
  rewrite !length_app, !length_be32 in E. simpl in E.
  destruct (Bytes v) as [|c l]; [simpl in E; lia|].
  destruct (negb _); simpl in E, Hlen; lia.
Qed.

Lemma pad32_length b : length (pad32 b) = 32%nat.
Proof.
  unfold pad32. split_ifs; autorewrite with sw; rewrite ?repeat_length; lia.
Qed.

(** The well-formed blobs of a passkey: a type name and the three fields that
    stay the same in both forms. *)
Definition keyBlob (typ x y rpID : list byte) : list byte :=
  sshString typ ++ sshString sshCurve ++ sshString ([x04] ++ pad32 x ++ pad32 y) ++ sshString rpID.

Lemma coseBlob_keyBlob x y rpID : coseBlob x y rpID = keyBlob sshAlgorithm x y rpID.
Proof. done. Qed.

Lemma readKeyBlob_keyBlob typ x y rpID : short typ -> short rpID ->
  readKeyBlob (keyBlob typ x y rpID) = Some (typ, sshCurve, [x04] ++ pad32 x ++ pad32 y, rpID).
Proof.
  intros Ht Hr. unfold readKeyBlob, keyBlob.
  rewrite readString_spec by done. cbn [mbind option_bind].
  rewrite readString_spec by done. cbn [mbind option_bind].
  rewrite readString_spec.
  2:{ unfold short. rewrite !length_app, !pad32_length. simpl. lia. }
  cbn [mbind option_bind]. by rewrite readString_sshString.
Qed.

Definition keyTail (x y rpID : list byte) : list byte :=
  sshString sshCurve ++ sshString ([x04] ++ pad32 x ++ pad32 y) ++ sshString rpID.

Lemma beU32_sshString s r : short s -> beU32 (sshString s ++ r) = zlen s.
Proof.
  intros Hs. unfold short in Hs. unfold sshString. rewrite <- app_assoc, beU32_be32.
  rewrite !wrapu32_id; rewrite ?wrapu32_id; lia.
Qed.

Lemma length_sshString s : length (sshString s) = (4 + length s)%nat.
Proof. unfold sshString. by rewrite length_app, length_be32. Qed.

(** Go over the first string of a blob and land on what follows it. *)
Lemma drop_sshString s r : drop (4 + length s) (sshString s ++ r) = r.
Proof. rewrite <- length_sshString. by rewrite drop_app_length. Qed.

Lemma toSk_string typ r : zlen typ < 2 ^ 32 - 4 ->
  toSkPublicKeyBlob (sshString typ ++ r) = sshString sshSKKeyType ++ r.
Proof.
  intros Ht. unfold toSkPublicKeyBlob. rewrite beU32_sshString by (unfold short; lia).
  rewrite length_app, length_sshString.
  rewrite !(proj2 (Z.ltb_ge _ _)) by lia. rewrite wrapu32_id by lia.
  replace (Z.to_nat (4 + zlen typ)) with (4 + length typ)%nat by lia.
  by rewrite drop_sshString.
Qed.

Lemma canonicalize_string typ r : short typ ->
  canonicalizeSK (sshString typ ++ r) =
  if bool_decide (typ = sshAlgorithm) then sshString sshSKKeyType ++ r else sshString typ ++ r.
Proof.
  intros Ht. unfold canonicalizeSK. rewrite beU32_sshString by done.
  rewrite length_app, length_sshString.
  rewrite !(proj2 (Z.ltb_ge _ _)) by lia.
  replace (Z.to_nat (4 + zlen typ)) with (4 + length typ)%nat by lia.
  rewrite drop_sshString.
  assert (take (Z.to_nat (zlen typ)) (drop 4 (sshString typ ++ r)) = typ) as ->.
  { unfold sshString. rewrite <- app_assoc, Nat2Z.id.
    change (drop 4 (be32 (wrapu32 (zlen typ)) ++ typ ++ r)) with (typ ++ r).
    by rewrite take_app_length. }
  by destruct (bool_decide (typ = sshAlgorithm)).
Qed.

(** Any blob is returned as it is or is a webauthn blob rewritten. *)
Lemma be32_beU32 b0 b1 b2 b3 r : be32 (beU32 (b0 :: b1 :: b2 :: b3 :: r)) = [b0; b1; b2; b3].
Proof.
  unfold be32. simpl. rewrite !Z.shiftr_div_pow2, !Z.shiftl_mul_pow2 by lia.
  change (2 ^ 24) with 16777216. change (2 ^ 16) with 65536. change (2 ^ 8) with 256.
  f_equal; [|f_equal; [|f_equal; [|f_equal]]]; apply byte_of_Z_eq; divmod.
Qed.

Lemma beU32_nonneg b : 0 <= beU32 b.
Proof.
  destruct b as [|b0 [|b1 [|b2 [|b3 b]]]]; simpl; try lia.
  rewrite !Z.shiftl_mul_pow2 by lia. byte_ranges. lia.
Qed.

(** Any blob is returned as it is or is a webauthn blob rewritten. *)
Lemma canonicalize_cases b :
  canonicalizeSK b = b \/
  exists r, b = sshString sshAlgorithm ++ r /\ canonicalizeSK b = sshString sshSKKeyType ++ r.
Proof.
  assert (Hs : short sshAlgorithm) by done. unfold short in Hs.
  unfold canonicalizeSK. set (alg := sshAlgorithm) in *. clearbody alg.
  destruct (zlen b <? 4) eqn:E; [by left|].
  destruct (zlen b <? beU32 b + 4) eqn:E2; [by left|].
  destruct (bool_decide _) eqn:E3; simpl negb; cbn match; [|by left]. bool_to_prop. right.
  exists (drop (Z.to_nat (4 + beU32 b)) b). split; [|done].
  pose proof (beU32_nonneg b) as Hpos.
  assert (Hn : beU32 b = zlen alg).
  { rewrite <- E3, length_take, length_drop. lia. }
  rewrite Hn in E3 |- *. destruct b as [|b0 [|b1 [|b2 [|b3 b]]]]; simpl in E; try lia.
  unfold sshString. rewrite wrapu32_id by lia.
  pose proof (be32_beU32 b0 b1 b2 b3 b) as Hh. rewrite Hn in Hh. rewrite Hh.
  replace (Z.to_nat (4 + zlen alg)) with (4 + Z.to_nat (zlen alg))%nat by lia.
  cbn [drop Nat.add] in E3 |- *. rewrite <- E3 at 1. rewrite <- app_assoc, take_drop. done.
Qed.

Lemma canonicalize_idem b : canonicalizeSK (canonicalizeSK b) = canonicalizeSK b.
Proof.
  destruct (canonicalize_cases b) as [E|(r & -> & ->)]; [by rewrite !E|].
  by rewrite canonicalize_string.
Qed.

Lemma graphic_not_space c s : graphic c = true -> space_len (c :: s) = 0%nat.
Proof. by destruct c. Qed.

Lemma fields_word cur w s : Forall (fun c => graphic c = true) w ->
  fields 0 cur (w ++ s) = fields 0 (rev w ++ cur) s.
Proof.
  intros H. revert cur. induction H as [|c w Hc _ IH]; intros cur; [done|].
  cbn [app fields]. rewrite graphic_not_space by done. rewrite IH. simpl. by rewrite <- app_assoc.
Qed.

Lemma cut_space_word w s : Forall (fun c => graphic c = true) w ->
  cut_space (w ++ " "%byte :: s) = (w, Some s).
Proof.
  intros H. induction H as [|c w Hc _ IH]; [done|]. simpl.
  rewrite bool_decide_false by (intros ->; done). by rewrite IH.
Qed.

Lemma cut_space_end w : Forall (fun c => graphic c = true) w -> cut_space w = (w, None).
Proof.
  intros H. induction H as [|c w Hc _ IH]; [done|]. simpl.
  rewrite bool_decide_false by (intros ->; done). by rewrite IH.
Qed.

Lemma fields_flush c cur s : fields 0 (c :: cur) (" "%byte :: s) = rev (c :: cur) :: fields 0 [] s.
Proof. done. Qed.

Lemma sshAlgorithm_graphic : Forall (fun c => graphic c = true) sshAlgorithm.
Proof. repeat constructor. Qed.

(** The second field of a line, for both readers. *)
Lemma second_field w1 w2 comment :
  Forall (fun c => graphic c = true) w1 -> Forall (fun c => graphic c = true) w2 ->
  w1 <> [] -> w2 <> [] -> (comment = [] \/ exists c, comment = " "%byte :: c) ->
  (exists fs, Fields ((w1 ++ [" "%byte] ++ w2) ++ comment) = w1 :: w2 :: fs) /\
  (let '(_, r) := cut_space ((w1 ++ [" "%byte] ++ w2) ++ comment) in
   exists rest, r = Some rest /\ fst (cut_space rest) = w2).
Proof.
  intros H1 H2 N1 N2 Hc. rewrite <- !app_assoc. cbn [app]. split.
  - unfold Fields. rewrite fields_word by done. rewrite app_nil_r.
    destruct (rev w1) as [|c l] eqn:E1.
    { exfalso. apply N1. rewrite <- (rev_involutive w1), E1. done. }
    rewrite fields_flush, <- E1, rev_involutive, fields_word, app_nil_r by done.
    destruct (rev w2) as [|c2 l2] eqn:E2.
    { exfalso. apply N2. rewrite <- (rev_involutive w2), E2. done. }
    destruct Hc as [->|[c' ->]].
    + exists []. cbn [fields]. by rewrite <- E2, rev_involutive.
    + rewrite fields_flush, <- E2, rev_involutive. by eexists.
  - rewrite cut_space_word by done. eexists. split; [done|].
    destruct Hc as [->|[c' ->]]; [rewrite app_nil_r; by rewrite cut_space_end|].
    by rewrite cut_space_word.
Qed.

(** ** Properties *)

(** A passkey's authorized_keys line, whatever comment follows it, reads back
    as exactly the blob it was made from: the passkey algorithm, the curve, the
    uncompressed point of the two 32-byte coordinates, and the relying party;
    both readers of stored keys agree on it. *)
Theorem authorized_keys_roundtrip (ParsePublicKey : list byte -> option ParsedKey)
  (coseKey x y rpID comment line : list byte)
  (Hparse : ParsePublicKey coseKey = Some (EC2PublicKeyData x y)) (Hrp : short rpID)
  (Hline : CoseToAuthorizedKeys ParsePublicKey coseKey rpID = Some line)
  (Hcomment : comment = [] \/ exists c, comment = " "%byte :: c) :
  exists blob,
    publicKeyBlobFromLine (line ++ comment) = Some blob /\
    parseWebauthnPublicKey (line ++ comment) = Some blob /\
    readKeyBlob blob = Some (sshAlgorithm, sshCurve, [x04] ++ pad32 x ++ pad32 y, rpID) /\
    readKeyBlob (toSkPublicKeyBlob blob) = Some (sshSKKeyType, sshCurve, [x04] ++ pad32 x ++ pad32 y, rpID).
Proof.
  unfold CoseToAuthorizedKeys in Hline. rewrite Hparse in Hline. simplify_eq.
  set (blob := coseBlob x y rpID). exists blob.
  destruct (second_field sshAlgorithm (b64_encode false true blob) comment) as [[fs Hf] Hcut];
    [apply sshAlgorithm_graphic|apply b64_encode_chars|done| |done|].
  { intros Hn. by apply b64_encode_nil in Hn. }
  assert (Hsk : short sshAlgorithm /\ short sshSKKeyType) by done.
  split; [|split; [|split]].
  - unfold publicKeyBlobFromLine. destruct (cut_space _) as [w r].
    destruct Hcut as (rest & -> & ->).
    rewrite bool_decide_false by (intros Hn; by apply b64_encode_nil in Hn).
    by rewrite b64_decode_encode.
  - unfold parseWebauthnPublicKey. rewrite Hf. apply b64_decode_encode.
  - unfold blob. rewrite coseBlob_keyBlob. by apply readKeyBlob_keyBlob.
  - unfold blob. rewrite coseBlob_keyBlob. unfold keyBlob. rewrite toSk_string by done.
    change (readKeyBlob (keyBlob sshSKKeyType x y rpID) =
      Some (sshSKKeyType, sshCurve, [x04] ++ pad32 x ++ pad32 y, rpID)).
    by apply readKeyBlob_keyBlob.
Qed.

Lemma authorized_keys_roundtrip_witness :
  let line := sshAlgorithm ++ [" "%byte] ++ b64_encode false true (coseBlob [x01] [x02] [x61]) in
  exists blob,
    publicKeyBlobFromLine (line ++ [" "%byte; x6d]) = Some blob /\
    parseWebauthnPublicKey (line ++ [" "%byte; x6d]) = Some blob /\
    readKeyBlob blob = Some (sshAlgorithm, sshCurve, [x04] ++ pad32 [x01] ++ pad32 [x02], [x61]) /\
    readKeyBlob (toSkPublicKeyBlob blob)
      = Some (sshSKKeyType, sshCurve, [x04] ++ pad32 [x01] ++ pad32 [x02], [x61]).
Proof.
  apply (authorized_keys_roundtrip (fun _ => Some (EC2PublicKeyData [x01] [x02])) [] [x01] [x02] [x61]);
    [done|done|done|right; by eexists].
Defined.

(** The signature blob is the two integers of the assertion as SSH mpints, and
    its trailer carries the flags byte, the counter, the origin and the client
    data of that assertion, so that a verifier reads back exactly what the
    authenticator signed; a missing or malformed assertion gives an error and
    never a signature. *)
Theorem BuildSSHSignature_spec (parse : list byte -> option (Z * Z)) (origin : list byte -> list byte)
  (authData der clientData : list byte)
  (Hsmall : forall r s, parse der = Some (r, s) -> Z.abs r < 2 ^ 256 /\ Z.abs s < 2 ^ 256)
  (Ho : short (origin clientData)) (Hc : short clientData) :
  match BuildSSHSignature parse origin authData der clientData with
  | inl AuthenticatorDataTooShort => zlen authData < 37
  | inl InvalidASN1 => 37 <= zlen authData /\ parse der = None
  | inr sig =>
      Format sig = sshAlgorithm /\
      readTrailer (Rest sig)
        = Some (nth 32 authData x00, beU32 (drop 33 authData), origin clientData, clientData, []) /\
      exists r s rb sb, parse der = Some (r, s) /\ Blob sig = sshString rb ++ sshString sb /\
        readString (Blob sig) = Some (rb, sshString sb) /\
        mpintValue rb = Z.abs r /\ mpintValue sb = Z.abs s
  end.
Proof.
  unfold BuildSSHSignature. destruct (zlen authData <? 37) eqn:E; bool_to_prop; [done|].
  destruct (parse der) as [[r s]|] eqn:Ep; [|done].
  destruct (Hsmall r s eq_refl) as [Hr Hs]. split; [done|]. split.
  - rewrite !appendSSHString_eq. cbn [Rest]. rewrite <- !app_assoc. cbn [app readTrailer].
    rewrite length_app, length_be32. rewrite (proj2 (Z.ltb_ge _ _)) by lia.
    match goal with |- context [drop 4 (be32 ?z ++ ?t)] => change (drop 4 (be32 z ++ t)) with t end.
    rewrite readString_spec by done. cbn [mbind option_bind].
    rewrite readString_spec by done. cbn [mbind option_bind].
    rewrite readString_sshString by done. cbn [mbind option_bind].
    rewrite beU32_be32. rewrite bool_decide_true by done. repeat f_equal.
    apply wrapu32_id. clear. split; [apply beU32_nonneg|].
    destruct (drop 33 authData) as [|b0 [|b1 [|b2 [|b3 b]]]]; simpl; try lia.
    rewrite !Z.shiftl_mul_pow2 by lia. byte_ranges. lia.
  - destruct (mpint_payload r) as (rb & Erb & Vr). destruct (mpint_payload s) as (sb & Esb & Vs).
    exists r, s, rb, sb. cbn [Blob]. rewrite Erb, Esb. split; [done|]. split; [done|].
    split; [|done]. apply readString_spec. by eapply (mpint_short r).
Qed.

Lemma BuildSSHSignature_spec_witness :
  match BuildSSHSignature (fun _ => Some (128, 5)) (fun _ => [x68]) (repeat x01 37) [] [x7b] with
  | inl AuthenticatorDataTooShort => zlen (repeat x01 37) < 37
  | inl InvalidASN1 => 37 <= zlen (repeat x01 37) /\ Some (128, 5) = None
  | inr sig =>
      Format sig = sshAlgorithm /\
      readTrailer (Rest sig)
        = Some (nth 32 (repeat x01 37) x00, beU32 (drop 33 (repeat x01 37)), [x68], [x7b], []) /\
      exists r s rb sb, Some (128, 5) = Some (r, s) /\ Blob sig = sshString rb ++ sshString sb /\
        readString (Blob sig) = Some (rb, sshString sb) /\
        mpintValue rb = Z.abs r /\ mpintValue sb = Z.abs s
  end.
Proof.
  apply (BuildSSHSignature_spec (fun _ => Some (128, 5)) (fun _ => [x68]) (repeat x01 37) [] [x7b]);
    [|done|done].
  intros r s [= <- <-]. done.
Defined.

(** Two blobs an OpenSSH client may present for one passkey, its webauthn form
    and its sk form, are canonically equal; two passkeys' blobs are canonically
    equal only if the points and the relying parties are; and canonicalising
    twice changes nothing. *)
Theorem canonicalizeSK_identifies (t1 t2 x1 y1 rp1 x2 y2 rp2 : list byte)
  (Ht1 : t1 = sshAlgorithm \/ t1 = sshSKKeyType) (Ht2 : t2 = sshAlgorithm \/ t2 = sshSKKeyType)
  (Hr1 : short rp1) (Hr2 : short rp2) :
  (canonicalizeSK (keyBlob t1 x1 y1 rp1) = canonicalizeSK (keyBlob t2 x2 y2 rp2)
   <-> pad32 x1 = pad32 x2 /\ pad32 y1 = pad32 y2 /\ rp1 = rp2) /\
  canonicalizeSK (canonicalizeSK (keyBlob t1 x1 y1 rp1)) = canonicalizeSK (keyBlob t1 x1 y1 rp1).
Proof.
  split; [|apply canonicalize_idem].
  assert (Hk : forall t x y rp, t = sshAlgorithm \/ t = sshSKKeyType ->
    canonicalizeSK (keyBlob t x y rp) = keyBlob sshSKKeyType x y rp).
  { intros t x y rp [->| ->]; unfold keyBlob; by rewrite canonicalize_string. }
  rewrite !Hk by done. split.
  - intros E. apply (f_equal readKeyBlob) in E. rewrite !readKeyBlob_keyBlob in E by done.
    injection E as E ->. apply app_inj_1 in E as [-> ->]; [done|]. by rewrite !pad32_length.
  - intros (E1 & E2 & ->). unfold keyBlob. by rewrite E1, E2.
Qed.

Lemma canonicalizeSK_identifies_witness :
  (canonicalizeSK (keyBlob sshAlgorithm [x01] [x02] [x61])
     = canonicalizeSK (keyBlob sshSKKeyType [x01] [x02] [x61])
   <-> pad32 [x01] = pad32 [x01] /\ pad32 [x02] = pad32 [x02] /\ [x61] = [x61]) /\
  canonicalizeSK (canonicalizeSK (keyBlob sshAlgorithm [x01] [x02] [x61]))
    = canonicalizeSK (keyBlob sshAlgorithm [x01] [x02] [x61]).
Proof.
  apply (canonicalizeSK_identifies sshAlgorithm sshSKKeyType [x01] [x02] [x61] [x01] [x02] [x61]);
    [by left|by right|done|done].
Defined.
