(* ===== verification/Passkeys.v ===== *)
(** * The credential table (internal/store/credentials.go, credentials_mgmt.go, accounts.go)

    The table of passkeys with the accounts they belong to, and the queries of
    the store over it. Rows are in the order of insertion. A statement that
    breaks a key or reference is an error and changes nothing; a transaction
    commits as a whole. Times are formatted strings. *)
From S2P Require Import Prelude GoStrings.
From Stdlib Require Import Ascii.

(** ** Data *)

Definition CredentialStateActive : string := "active".
Definition CredentialStatePendingConfirmation : string := "pending_confirmation".

(** What a verified registration hands to the store. *)
Record DecodedCredential := mkDecoded {
  d_CredentialID : string; d_PublicKeyCOSE : string; d_Counter : Z; d_Transports : list string;
  d_BaseLabel : string; d_AuthorizedKeysEntry : string }.

(** A row of webauthn_credentials. *)
Record CredentialRow := mkRow {
  ID : string; AccountID : string; CredentialID : string; PublicKeyCOSE : string; Counter : Z;
  Transports : list string; Label : string; PublicKeyOpenSSH : option string; State : string; Revoked : bool;
  CreatedAt : string; LastUsedAt : option string }.

Record Account := mkAccount { a_ID : string; a_Name : string; a_MaxSessions : Z }.

Record DB := mkDB { creds : list CredentialRow; accounts : list Account; admin_account : option string }.

Definition set_creds (db : DB) (l : list CredentialRow) : DB := mkDB l (accounts db) (admin_account db).

(** ** Queries *)

Definition active (r : CredentialRow) : bool := negb (Revoked r) && bool_decide (State r = CredentialStateActive).
Definition of_account (acc : string) (r : CredentialRow) : bool := bool_decide (AccountID r = acc).

Definition HasPasskeys (db : DB) : bool := match creds db with [] => false | _ => true end.

(** The query of this name asks for rows that are not revoked, whatever their
    state. *)
Definition ActiveCredentialIDs (db : DB) (acc : string) : list string :=
  map CredentialID (List.filter (fun r => of_account acc r && negb (Revoked r)) (creds db)).

Definition AllActiveCredentialIDs (db : DB) : list string := map CredentialID (List.filter active (creds db)).

Record AuthCredential := mkAuth { au_RowID : string; au_CredentialID : string; au_PublicKeyOpenSSH : string; au_Label : string }.

Definition ActiveCredentialsForAuth (db : DB) (acc : string) : list AuthCredential :=
  omap (fun r => (fun line => mkAuth (ID r) (CredentialID r) line (Label r)) <$> PublicKeyOpenSSH r)
    (List.filter (fun r => of_account acc r && active r) (creds db)).

Definition FindByCredentialID (db : DB) (cid : string) : option CredentialRow :=
  List.find (fun r => bool_decide (CredentialID r = cid)) (creds db).

Definition FindForAccount (db : DB) (rowID acc : string) : option CredentialRow :=
  List.find (fun r => bool_decide (ID r = rowID) && of_account acc r) (creds db).

Definition ListForAccountFull (db : DB) (acc : string) : list CredentialRow := List.filter (of_account acc) (creds db).

Definition ActiveCount (db : DB) (acc : string) : Z :=
  zlen (List.filter (fun r => of_account acc r && active r) (creds db)).

Definition LabelConflict (db : DB) (acc label exceptID : string) : bool :=
  existsb (fun r => of_account acc r && bool_decide (Label r = label) && negb (bool_decide (ID r = exceptID))) (creds db).

Definition find_account (db : DB) (acc : string) : option Account :=
  List.find (fun a => bool_decide (a_ID a = acc)) (accounts db).

(** The name, empty when there is no such account. *)
Definition AccountName (db : DB) (acc : string) : string :=
  match find_account db acc with Some a => a_Name a | None => EmptyString end.

Definition MaxSessions (db : DB) (acc : string) : option Z := a_MaxSessions <$> find_account db acc.

(** The entries of a seed file. *)
Definition ExportSeed (db : DB) (acc : string) : list (string * string * Z * list string * string) :=
  map (fun r => (CredentialID r, PublicKeyCOSE r, Counter r, Transports r, Label r))
    (List.filter (fun r => of_account acc r && active r) (creds db)).

(** ** Updates *)

Definition update_rows (p : CredentialRow -> bool) (f : CredentialRow -> CredentialRow) (db : DB) : DB :=
  set_creds db (map (fun r => if p r then f r else r) (creds db)).

Definition set_state (s : string) (r : CredentialRow) : CredentialRow :=
  mkRow (ID r) (AccountID r) (CredentialID r) (PublicKeyCOSE r) (Counter r) (Transports r) (Label r) (PublicKeyOpenSSH r)
    s (Revoked r) (CreatedAt r) (LastUsedAt r).
Definition set_revoked (r : CredentialRow) : CredentialRow :=
  mkRow (ID r) (AccountID r) (CredentialID r) (PublicKeyCOSE r) (Counter r) (Transports r) (Label r) (PublicKeyOpenSSH r)
    (State r) true (CreatedAt r) (LastUsedAt r).
Definition set_label (l : string) (r : CredentialRow) : CredentialRow :=
  mkRow (ID r) (AccountID r) (CredentialID r) (PublicKeyCOSE r) (Counter r) (Transports r) l (PublicKeyOpenSSH r)
    (State r) (Revoked r) (CreatedAt r) (LastUsedAt r).
Definition set_counter (n : Z) (at_ : string) (r : CredentialRow) : CredentialRow :=
  mkRow (ID r) (AccountID r) (CredentialID r) (PublicKeyCOSE r) n (Transports r) (Label r) (PublicKeyOpenSSH r)
    (State r) (Revoked r) (CreatedAt r) (Some at_).

Definition has_id (rowID : string) (r : CredentialRow) : bool := bool_decide (ID r = rowID).

Definition SetState (db : DB) (rowID state : string) : DB := update_rows (has_id rowID) (set_state state) db.
Definition Revoke (db : DB) (rowID : string) : DB := update_rows (has_id rowID) set_revoked db.
Definition SetLabel (db : DB) (rowID acc label : string) : DB :=
  update_rows (fun r => has_id rowID r && of_account acc r) (set_label label) db.
Definition UpdateCounter (db : DB) (nowISO rowID : string) (counter : Z) : DB :=
  update_rows (has_id rowID) (set_counter counter nowISO) db.

(** ** Labels *)

Definition candidate (base : string) (suffix : Z) : string := (base ++ " (" ++ itoa suffix ++ ")")%string.

(** The loop over the suffixes. *)
Fixpoint dedupe_from (fuel : nat) (seen : list string) (base : string) (suffix : Z) : option string :=
  match fuel with
  | O => None
  | S fuel =>
      if bool_decide (candidate base suffix ∈ seen) then dedupe_from fuel seen base (suffix + 1)
      else Some (candidate base suffix)
  end.

Definition dedupeLabel (db : DB) (acc base : string) : option string :=
  let seen := map Label (List.filter (of_account acc) (creds db)) in
  if bool_decide (base ∈ seen) then dedupe_from (S (length seen)) seen base 2 else Some base.

(** ** Insertion *)

(** The statement: primary key, unique credential id, existing account. *)
Definition insert_row (db : DB) (r : CredentialRow) : option DB :=
  if existsb (fun x => bool_decide (ID x = ID r) || bool_decide (CredentialID x = CredentialID r)) (creds db) then None
  else match find_account db (AccountID r) with None => None | Some _ => Some (set_creds db (creds db ++ [r])) end.

Record Inserted := mkInserted { in_ID : string; in_Label : string }.

Definition Insert (db : DB) (nowISO acc : string) (dec : DecodedCredential) (state id : string) : option (Inserted * DB) :=
  label ← dedupeLabel db acc (d_BaseLabel dec);
  db' ← insert_row db (mkRow id acc (d_CredentialID dec) (d_PublicKeyCOSE dec) (d_Counter dec) (d_Transports dec) label
    (if bool_decide (d_AuthorizedKeysEntry dec = EmptyString) then None else Some (d_AuthorizedKeysEntry dec))
    state false nowISO None);
  Some (mkInserted id label, db').

Definition insert_account (db : DB) (id name : string) : option DB :=
  match find_account db id with
  | Some _ => None
  | None => Some (mkDB (creds db) (accounts db ++ [mkAccount id name 5]) (admin_account db))
  end.

Record SelfRegisterParams := mkSelfRegister {
  sr_Name : string; sr_Credential : DecodedCredential; sr_SelfRegEnabled : bool; sr_NewAccountID : string; sr_NewCredID : string }.

Record SelfRegisterResult := mkSelfResult { sx_AccountID : string; sx_CredentialRowID : string; sx_Label : string }.

(** The transaction: [None] is an error, rolled back; [Some (None, _)] is the
    refusal when self-registration is disabled. A query for the administrator
    that fails ([adminAnswers] is false) counts as none, and the statement that
    makes the new account one is ignored when there is one. *)
Definition SelfRegister (db : DB) (adminAnswers : bool) (nowISO : string) (p : SelfRegisterParams) : option (option SelfRegisterResult * DB) :=
  let bootstrapped := HasPasskeys db in
  if negb (sr_SelfRegEnabled p) && bootstrapped then Some (None, db)
  else
    '(acc, db) ←
      match (if adminAnswers then admin_account db else None) with
      | Some admin =>
          if negb bootstrapped then Some (admin, db)
          else db ← insert_account db (sr_NewAccountID p) (sr_Name p); Some (sr_NewAccountID p, db)
      | None =>
          db ← insert_account db (sr_NewAccountID p) (sr_Name p);
          Some (sr_NewAccountID p, mkDB (creds db) (accounts db) (Some (default (sr_NewAccountID p) (admin_account db))))
      end;
    '(ins, db) ← Insert db nowISO acc (sr_Credential p) CredentialStateActive (sr_NewCredID p);
    Some (Some (mkSelfResult acc (in_ID ins) (in_Label ins)), db).

(** ** Lemmas *)

(** What every reachable table satisfies. *)
Record table_wf (db : DB) : Prop := mkWf {
  wf_ids : NoDup (map ID (creds db));
  wf_cids : NoDup (map CredentialID (creds db));
  wf_labels : forall r1 r2, r1 ∈ creds db -> r2 ∈ creds db ->
    AccountID r1 = AccountID r2 -> Label r1 = Label r2 -> ID r1 = ID r2;
  wf_accounts : forall r, r ∈ creds db -> is_Some (find_account db (AccountID r))
}.

Lemma decimal_inj m n : 0 <= m -> 0 <= n -> itoa m = itoa n -> m = n.
Proof.
  intros Hm Hn H. destruct (itoa_spec m Hm) as (_ & _ & <-). destruct (itoa_spec n Hn) as (_ & _ & <-). by rewrite H.
Qed.

Lemma app_str_inj_l (s t u : string) : (s ++ t)%string = (s ++ u)%string -> t = u.
Proof. induction s as [|a s IH]; [done|]. rewrite !app_str_cons. intros [= H]. auto. Qed.

Lemma app_str_inj_r (s t u : string) : (s ++ u)%string = (t ++ u)%string -> s = t.
Proof.
  revert t. induction s as [|a s IH]; intros [|b t] H.
  - done.
  - exfalso. apply (f_equal String.length) in H. rewrite !app_str_cons, app_str_nil in H. simpl in H.
    rewrite length_app_str in H. lia.
  - exfalso. apply (f_equal String.length) in H. rewrite !app_str_cons, app_str_nil in H. simpl in H.
    rewrite length_app_str in H. lia.
  - rewrite !app_str_cons in H. injection H as -> H. by rewrite (IH _ H).
Qed.

Lemma candidate_inj base m n : 0 <= m -> 0 <= n -> candidate base m = candidate base n -> m = n.
Proof.
  intros Hm Hn H. apply app_str_inj_l in H. apply (app_str_inj_l " ("), app_str_inj_r in H. by apply decimal_inj.
Qed.

(** The candidates the loop has tried when it runs out of fuel. *)
Definition candidates (base : string) (suffix : Z) (n : nat) : list string :=
  map (fun i => candidate base (suffix + Z.of_nat i)) (seq 0 n).

Lemma dedupe_None fuel seen base suffix :
  dedupe_from fuel seen base suffix = None -> Forall (fun c => c ∈ seen) (candidates base suffix fuel).
Proof.
  revert suffix. induction fuel as [|fuel IH]; intros suffix H; [constructor|]. simpl in H.
  case_bool_decide as Hin; [|done]. unfold candidates. cbn [seq map]. constructor; [by rewrite Z.add_0_r|].
  apply IH in H. unfold candidates in H. rewrite <- seq_shift, map_map.
  eapply Forall_impl; [|intros x Hx; exact Hx]. erewrite map_ext; [exact H|]. intros i. cbn beta. f_equal. lia.
Qed.

Lemma candidates_NoDup base suffix n : 0 <= suffix -> NoDup (candidates base suffix n).
Proof.
  intros Hs. unfold candidates. apply NoDup_fmap_2_strong; [|apply NoDup_seq].
  intros i j _ _ H. apply candidate_inj in H; lia.
Qed.

(** The fuel suffices: among more candidates than labels one is free. *)
Lemma dedupe_from_total seen base suffix :
  0 <= suffix -> is_Some (dedupe_from (S (length seen)) seen base suffix).
Proof.
  intros Hs. destruct (dedupe_from _ _ _ _) eqn:E; [by eexists|]. exfalso. apply dedupe_None in E.
  assert (length (candidates base suffix (S (length seen))) <= length seen)%nat as Hle.
  { apply NoDup_incl_length; [by apply NoDup_ListNoDup, candidates_NoDup|]. intros c Hc%list_elem_of_In.
    apply list_elem_of_In. rewrite Forall_forall in E. by apply E. }
  unfold candidates in Hle. rewrite length_map, length_seq in Hle. lia.
Qed.

Lemma dedupe_from_fresh fuel seen base suffix l : dedupe_from fuel seen base suffix = Some l -> l ∉ seen.
Proof.
  revert suffix. induction fuel as [|fuel IH]; intros suffix H; [done|]. simpl in H.
  case_bool_decide; [by eapply IH|]. by injection H as <-.
Qed.

Lemma dedupeLabel_spec db acc base :
  exists l, dedupeLabel db acc base = Some l /\ forall r, r ∈ creds db -> AccountID r = acc -> Label r <> l.
Proof.
  unfold dedupeLabel. set (seen := map Label (List.filter (of_account acc) (creds db))).
  assert (forall l, l ∉ seen -> forall r, r ∈ creds db -> AccountID r = acc -> Label r <> l) as Hfree.
  { intros l Hl r Hr Ha <-. apply Hl, list_elem_of_In, in_map_iff. exists r. split; [done|].
    apply filter_In. rewrite <- list_elem_of_In. split; [done|]. by apply bool_decide_eq_true. }
  case_bool_decide as Hb; [|by exists base; eauto].
  destruct (dedupe_from_total seen base 2 ltac:(lia)) as [l Hl]. exists l. split; [done|].
  apply Hfree. by eapply dedupe_from_fresh.
Qed.

(** What an insertion gives, success or not. *)
Definition insert_outcome (db : DB) (acc : string) (dec : DecodedCredential) (id : string) (r : option (Inserted * DB)) : Prop :=
  match r with
  | Some (ins, db') =>
      in_ID ins = id /\
      (forall r, r ∈ creds db -> AccountID r = acc -> Label r <> in_Label ins) /\
      ((forall r, r ∈ creds db -> AccountID r = acc -> Label r <> d_BaseLabel dec) -> in_Label ins = d_BaseLabel dec) /\
      table_wf db'
  | None =>
      (exists r, r ∈ creds db /\ (ID r = id \/ CredentialID r = d_CredentialID dec)) \/ find_account db acc = None
  end.

Lemma Insert_spec db nowISO acc dec state id :
  table_wf db -> insert_outcome db acc dec id (Insert db nowISO acc dec state id).
Proof.
  intros Hwf. unfold insert_outcome, Insert. destruct (dedupeLabel_spec db acc (d_BaseLabel dec)) as (l & Hl & Hfree). rewrite Hl. simpl.
  set (row := mkRow id acc _ _ _ _ l _ state false nowISO None).
  unfold insert_row. destruct (existsb _ (creds db)) eqn:Edup.
  { left. apply existsb_exists in Edup as (r & Hr & H). exists r. split; [by apply list_elem_of_In|].
    apply orb_true_iff in H. by rewrite !bool_decide_eq_true in H. }
  destruct (find_account db (AccountID row)) as [a|] eqn:Ea; [|by right]. cbn [mbind option_bind].
  assert (forall x, x ∈ creds db -> ID x <> id /\ CredentialID x <> d_CredentialID dec) as Hnew.
  { intros x Hx. split; intros Heq; enough (existsb (fun x => bool_decide (ID x = ID row) || bool_decide (CredentialID x = CredentialID row)) (creds db) = true)
      by congruence; apply existsb_exists; exists x; (split; [by apply list_elem_of_In|]); apply orb_true_iff;
      rewrite !bool_decide_eq_true; simpl; auto. }
  split; [done|]. split; [done|]. split.
  - intros Hbase. unfold dedupeLabel in Hl. rewrite bool_decide_false in Hl; [by injection Hl as <-|].
    intros Hin. apply list_elem_of_In, in_map_iff in Hin as (r & Hlab & Hr). apply filter_In in Hr as [Hr Ha].
    apply bool_decide_eq_true in Ha. apply (Hbase r); [by apply list_elem_of_In|done|done].
  - split; cbn [set_creds creds accounts].
    + rewrite map_app. simpl. apply NoDup_app. split; [apply (wf_ids db Hwf)|]. split; [|apply NoDup_singleton].
      intros x Hx Hin. apply list_elem_of_singleton in Hin as ->. apply list_elem_of_In, in_map_iff in Hx as (r & Hr & Hin).
      by destruct (Hnew r) as [? _]; [apply list_elem_of_In|].
    + rewrite map_app. simpl. apply NoDup_app. split; [apply (wf_cids db Hwf)|]. split; [|apply NoDup_singleton].
      intros x Hx Hin. apply list_elem_of_singleton in Hin as ->. apply list_elem_of_In, in_map_iff in Hx as (r & Hr & Hin).
      by destruct (Hnew r) as [_ ?]; [apply list_elem_of_In|].
    + intros r1 r2 H1 H2. rewrite elem_of_app, list_elem_of_singleton in H1, H2.
      destruct H1 as [H1| ->], H2 as [H2| ->]; intros Ha Hlab; [by apply (wf_labels db Hwf)| | |done].
      * by destruct (Hfree r1 H1 Ha).
      * by destruct (Hfree r2 H2 (eq_sym Ha)).
    + intros r Hr. rewrite elem_of_app, list_elem_of_singleton in Hr. destruct Hr as [Hr| ->]; [by apply (wf_accounts db Hwf)|].
      change (is_Some (find_account db (AccountID row))). rewrite Ea. by eexists.
Qed.

(** The label loop always ends: the store finds a label no credential of
    the account has, keeps the wanted one when it is free, and an insertion
    fails only on a duplicate id, a known credential or a missing account. *)
Theorem Insert_total db nowISO acc dec state id :
  table_wf db ->
  match Insert db nowISO acc dec state id with
  | Some (ins, db') =>
      in_ID ins = id /\
      (forall r, r ∈ creds db -> AccountID r = acc -> Label r <> in_Label ins) /\
      ((forall r, r ∈ creds db -> AccountID r = acc -> Label r <> d_BaseLabel dec) -> in_Label ins = d_BaseLabel dec) /\
      table_wf db'
  | None =>
      (exists r, r ∈ creds db /\ (ID r = id \/ CredentialID r = d_CredentialID dec)) \/ find_account db acc = None
  end.
Proof. exact (Insert_spec db nowISO acc dec state id). Qed.

Definition ex_dec (cid label : string) : DecodedCredential := mkDecoded cid "cose" 0 ["internal"%string] label "ssh-line".
Definition ex_db : DB :=
  mkDB [mkRow "r1" "alice" "c1" "cose" 7 [] "Key" (Some "line"%string) "active" false "t0" None]
    [mkAccount "alice" "Alice" 5] (Some "alice"%string).

Lemma ex_db_wf : table_wf ex_db.
Proof.
  split; simpl; [apply NoDup_singleton|apply NoDup_singleton| |].
  - intros r1 r2 ->%list_elem_of_singleton ->%list_elem_of_singleton. done.
  - intros r ->%list_elem_of_singleton. by eexists.
Qed.

Lemma Insert_total_witness :
  exists db', Insert ex_db "t1" "alice" (ex_dec "c2" "Key") "active" "r2" = Some (mkInserted "r2" "Key (2)", db') /\ table_wf db'.
Proof.
  pose proof (Insert_total ex_db "t1" "alice" (ex_dec "c2" "Key") "active" "r2" ex_db_wf) as H.
  assert (Insert ex_db "t1" "alice" (ex_dec "c2" "Key") "active" "r2" =
    Some (mkInserted "r2" "Key (2)", set_creds ex_db (creds ex_db ++
      [mkRow "r2" "alice" "c2" "cose" 0 ["internal"%string] "Key (2)" (Some "ssh-line"%string) "active" false "t1" None]))) as E
    by (vm_compute; reflexivity).
  rewrite E in H. destruct H as (_ & _ & _ & H). eexists. split; [exact E|exact H].
Defined.
