(* ===== verification/Ceremonies.v ===== *)
(** * The passkey ceremonies (internal/webauthn: routes.go, login.go, invite_routes.go, verify.go, aaguid.go; internal/rest/credentials.go)

    Registration, step-up, login, invites and credential management, as
    handlers on the credential table, the challenge, step-up and invite stores.
    The WebAuthn protocol library is a parameter: it checks a response's
    origin, relying party, user verification, algorithm and signature. Random
    values, the clock and failing queries are inputs of a request. *)
From S2P Require Import Prelude GoStrings Ephemeral Tokens Base64 Passkeys.
From Stdlib Require Import Ascii.

(** ** State and inputs *)

(** The sign-outs a revocation asks of the identity provider. *)
Inductive signout := RevokeConsentSessions (subject clientID : string) | RevokeLoginSessions (subject : string).

Record WA := mkWA {
  w_db : DB;
  w_challenges : Store string challengeEntry;
  w_stepups : Store string stepUpEntry;
  w_invites : gmap string InviteSlot;
  w_signouts : list signout   (* calls made so far *)
}.

Definition with_db (w : WA) (d : DB) : WA := mkWA d (w_challenges w) (w_stepups w) (w_invites w) (w_signouts w).
Definition with_challenges (w : WA) c : WA := mkWA (w_db w) c (w_stepups w) (w_invites w) (w_signouts w).
Definition with_stepups (w : WA) s : WA := mkWA (w_db w) (w_challenges w) s (w_invites w) (w_signouts w).
Definition with_invites (w : WA) i : WA := mkWA (w_db w) (w_challenges w) (w_stepups w) i (w_signouts w).
Definition with_signout (w : WA) (c : signout) : WA := mkWA (w_db w) (w_challenges w) (w_stepups w) (w_invites w) (w_signouts w ++ [c]).

Inductive query := QHas | QAdmin | QActive | QFind | QCounter | QInsert | QState | QName | QList | QConflict | QLabel | QCount | QRevoke.

(** What a request draws from its surroundings: the time, random values, which
    queries the database answers and which calls of the identity provider
    succeed, the order of the map of invites. *)
Record env := mkEnv {
  e_now : Z; rn_challenge : string; rn_user : string; rn_id : string; rn_account : string; rn_cred : string;
  up : query -> bool; admin_up : signout -> bool; e_order : list string }.

Record regOptions := mkRegOptions {
  ro_Challenge : string; ro_User : string * string; ro_Exclude : list string; ro_ChallengeID : string }.
Record authOptions := mkAuthOptions {
  ao_Challenge : string; ao_AllowCredentials : list string; ao_ChallengeID : string; ao_Action : string }.

Inductive reply :=
  | Fail (status : Z) (message : string)
  | FailCode (status : Z) (message code : string)
  | PasskeyStatus (hasPasskeys : bool)
  | RegOptions (o : regOptions)
  | AuthOptions (o : authOptions)
  | SelfRegistered (accountID id credentialID label : string)
  | Registered (credentialID id label authorizedKeys : string)
  | StepUpMinted (token : string) (expiresAt : Z) (action : string)
  | InviteSlotReply (token : string) (expiresAt createdAt : Z)
  | InviteInfo (accountName : string) (expiresAt : Z)
  | Redeemed (label authorizedKeys : string)
  | Confirmed
  | LoggedIn (accountID : string)
  | LabelUpdated
  | CredentialRevoked (sessionsInvalidated : bool).

(** What the protocol library extracts from a verified registration. *)
Record Registration := mkRegistration {
  rg_CredentialID : list byte; rg_CredentialPublicKey : string; rg_Counter : Z; rg_Transports : list string; rg_AAGUID : list byte }.

(** ** Names of authenticators *)

Definition hex_char (n : Z) : ascii := ascii_of_N (Z.to_N (if n <? 10 then 48 + n else 87 + n)).
Definition hex_byte (b : byte) : string :=
  String (hex_char (Z_of_byte b / 16)) (String (hex_char (Z_of_byte b mod 16)) EmptyString).
Definition hex_encode (l : list byte) : string := foldr (fun b s => (hex_byte b ++ s)%string) EmptyString l.

Definition formatUUID (b : list byte) : string :=
  let h := hex_encode b in
  (String.substring 0 8 h ++ "-" ++ String.substring 8 4 h ++ "-" ++ String.substring 12 4 h ++ "-" ++ String.substring 16 4 h ++ "-" ++ String.substring 20 12 h)%string.

Definition allZero (b : list byte) : bool := forallb (fun x => bool_decide (x = x00)) b.

Definition clampName (name fallback : string) : string :=
  let name := if bool_decide (name = EmptyString) then fallback else name in
  if strlen name >? 64 then take_str 64 name else name.

Section Ceremonies.
(** The embedded table of names, the protocol library's checks and the formatted
    time. *)
Variable aaguidNames : string -> option string.
Variable protocol_create : string -> string -> Registration + string.
Variable protocol_get : string -> string -> string -> Z + string.
Variable CoseToAuthorizedKeys : string -> string.
Variable ISO : Z -> string.
Variable SelfRegEnabled : bool.

Definition lookupAAGUID (aaguid : list byte) : string :=
  if negb (length aaguid =? 16)%nat || allZero aaguid then "Passkey"
  else match aaguidNames (formatUUID aaguid) with Some name => name | None => "Passkey" end.

Definition b64url (l : list byte) : string := String.string_of_list_byte (b64_encode true false l).

Definition VerifyRegistration (rawCredential challenge : string) : DecodedCredential + string :=
  match protocol_create rawCredential challenge with
  | inr e => inr e
  | inl rg =>
      inl (mkDecoded (b64url (rg_CredentialID rg)) (rg_CredentialPublicKey rg) (wrapu32 (rg_Counter rg)) (rg_Transports rg)
        (lookupAAGUID (rg_AAGUID rg)) (CoseToAuthorizedKeys (rg_CredentialPublicKey rg)))
  end.

Definition counter_error (response stored : Z) : string :=
  ("verification failed: response counter value " ++ itoa response ++ " was lower than expected " ++ itoa stored)%string.

(** The new counter of a verified assertion; counters are 32 bits wide, also
    when they are read back from the table. *)
Definition VerifyAssertion (rawCredential challenge storedCOSE : string) (storedCounter : Z) : Z + string :=
  match protocol_get rawCredential challenge storedCOSE with
  | inr e => inr e
  | inl counter =>
      let responseCounter := wrapu32 counter in
      if ((0 <? responseCounter) || (0 <? storedCounter)) && (responseCounter <=? storedCounter) then inr (counter_error responseCounter storedCounter)
      else inl responseCounter
  end.

(** ** Options *)

Definition buildRegOptions (e : env) (userName : string) (exclude : list string) : regOptions :=
  mkRegOptions (rn_challenge e) (rn_user e, userName) exclude (rn_id e).

Definition store_challenge (w : WA) (e : env) (purpose : string) : WA :=
  with_challenges w (ChallengeStore_Store (w_challenges w) (e_now e) (rn_id e) (rn_challenge e) purpose).

Definition take_challenge (w : WA) (e : env) (challengeID purpose : string) : string * WA :=
  let '(c, s) := ChallengeStore_Consume (w_challenges w) (e_now e) challengeID purpose in (c, with_challenges w s).

Definition passkeyStatus (w : WA) (e : env) : reply * WA :=
  (if negb (up e QHas) then Fail 500 "internal error" else PasskeyStatus (HasPasskeys (w_db w)), w).

(** A failing query counts as "no passkeys". *)
Definition self_registration_closed (w : WA) (e : env) : bool :=
  negb SelfRegEnabled && up e QHas && HasPasskeys (w_db w).

Definition selfRegisterOptions (w : WA) (e : env) (name : string) : reply * WA :=
  if self_registration_closed w e then (Fail 403 "Self-registration is disabled", w)
  else (RegOptions (buildRegOptions e (clampName name "user") []), store_challenge w e PurposeSelfRegister).

Definition inAccountRegisterOptions (w : WA) (e : env) (acc label name : string) : reply * WA :=
  let name := if bool_decide (name = EmptyString) then label else name in
  if negb (up e QActive) then (Fail 500 "internal error", w)
  else (RegOptions (buildRegOptions e (clampName name "user") (ActiveCredentialIDs (w_db w) acc)),
        store_challenge w e PurposeRegisterInAccount).

(** ** Registration *)

(** [None] is a body that does not decode. *)
Record verifyBody := mkVerifyBody { vb_Name : string; vb_ChallengeID : string; vb_Credential : string }.

Definition selfRegister (w : WA) (e : env) (body : option verifyBody) : reply * WA :=
  if self_registration_closed w e then (Fail 403 "Self-registration is disabled", w)
  else
    match body with
    | None => (Fail 400 "invalid body", w)
    | Some b =>
        if bool_decide (vb_ChallengeID b = EmptyString) || bool_decide (vb_Credential b = EmptyString)
        then (Fail 400 "name, challengeId, and credential are required", w)
        else
          let '(challenge, w) := take_challenge w e (vb_ChallengeID b) PurposeSelfRegister in
          if bool_decide (challenge = EmptyString) then (Fail 400 "Challenge expired or not found", w)
          else
            match VerifyRegistration (vb_Credential b) challenge with
            | inr err => (Fail 400 err, w)
            | inl dec =>
                match (if up e QInsert
                       then SelfRegister (w_db w) (up e QAdmin) (ISO (e_now e))
                         (mkSelfRegister (vb_Name b) dec SelfRegEnabled (rn_account e) (rn_cred e))
                       else None) with
                | None => (Fail 400 "constraint failed", w)
                | Some (None, _) => (Fail 403 "Self-registration is disabled", w)
                | Some (Some res, db) =>
                    (SelfRegistered (sx_AccountID res) (sx_CredentialRowID res) (d_CredentialID dec) (sx_Label res), with_db w db)
                end
            end
    end.

(** Insert, with the state of the new credential. *)
Definition insert_credential (w : WA) (e : env) (acc : string) (dec : DecodedCredential) (state : string)
  : option (Inserted * DB) :=
  if up e QInsert then Insert (w_db w) (ISO (e_now e)) acc dec state (rn_cred e) else None.

Definition inAccountRegister (w : WA) (e : env) (acc : string) (body : option verifyBody) : reply * WA :=
  match body with
  | None => (Fail 400 "invalid body", w)
  | Some b =>
      let '(challenge, w) := take_challenge w e (vb_ChallengeID b) PurposeRegisterInAccount in
      if bool_decide (challenge = EmptyString) then (Fail 400 "Challenge expired or not found", w)
      else
        match VerifyRegistration (vb_Credential b) challenge with
        | inr err => (Fail 400 err, w)
        | inl dec =>
            match insert_credential w e acc dec CredentialStateActive with
            | None => (Fail 400 "constraint failed", w)
            | Some (ins, db) =>
                (Registered (d_CredentialID dec) (in_ID ins) (in_Label ins) (d_AuthorizedKeysEntry dec), with_db w db)
            end
        end
  end.

(** ** Step-up *)

Definition purpose_of (action : string) : string := default EmptyString (ActionToPurpose !! action).

Definition stepUpOptions (w : WA) (e : env) (acc action : string) : reply * WA :=
  if negb (IsStepUpAction action) then (Fail 400 "Invalid or missing action", w)
  else if negb (up e QActive) then (Fail 500 "internal error", w)
  else
    match ActiveCredentialIDs (w_db w) acc with
    | [] => (Fail 400 "no_active_credentials", w)
    | allow => (AuthOptions (mkAuthOptions (rn_challenge e) allow (rn_id e) action), store_challenge w e (purpose_of action))
    end.

Record assertionBody := mkAssertionBody { ab_ChallengeID : string; ab_CredentialID : string; ab_Credential : string; ab_Action : string }.

(** The credential behind an assertion, if it may be used. *)
Definition find_credential (w : WA) (e : env) (cid : string) : option CredentialRow :=
  if up e QFind then FindByCredentialID (w_db w) cid else None.

Definition stepUpVerify (w : WA) (e : env) (acc : string) (body : option assertionBody) : reply * WA :=
  match body with
  | None => (Fail 400 "invalid body", w)
  | Some b =>
      if negb (IsStepUpAction (ab_Action b)) then (Fail 400 "Invalid or missing action", w)
      else
        let '(challenge, w) := take_challenge w e (ab_ChallengeID b) (purpose_of (ab_Action b)) in
        if bool_decide (challenge = EmptyString) then (Fail 400 "Challenge expired or not found", w)
        else
          match find_credential w e (ab_CredentialID b) with
          | None => (Fail 400 "Unknown credential", w)
          | Some stored =>
              if negb (bool_decide (AccountID stored = acc)) || negb (active stored) then (Fail 400 "Unknown credential", w)
              else
                match VerifyAssertion (ab_Credential b) challenge (PublicKeyCOSE stored) (wrapu32 (Counter stored)) with
                | inr err => (Fail 400 err, w)
                | inl newCounter =>
                    if negb (up e QCounter) then (Fail 400 "update failed", w)
                    else
                      let w := with_db w (UpdateCounter (w_db w) (ISO (e_now e)) (ID stored) newCounter) in
                      let '(exp, s) := StepUpStore_Mint (w_stepups w) (e_now e) (rn_challenge e) acc (ab_Action b) in
                      (StepUpMinted (rn_challenge e) exp (ab_Action b), with_stepups w s)
                end
          end
  end.

(** A route behind the step-up gate. *)
Definition gated (action : string) (w : WA) (e : env) (acc token : string) (next : WA -> reply * WA) : reply * WA :=
  match RequireStepUp (w_stepups w) (e_now e) action (Some acc) token with
  | (Tokens.Forwarded, s) => next (with_stepups w s)
  | (Tokens.Rejected status message code, s) => (FailCode status message code, with_stepups w s)
  end.

(** ** Invites *)

Definition mintInvite (w : WA) (e : env) (acc : string) : reply * WA :=
  let '(slot, i) := Invite_Create (w_invites w) (e_now e) acc (rn_challenge e) in
  (InviteSlotReply (is_Token slot) (is_ExpiresAt slot) (is_CreatedAt slot), with_invites w i).

Definition readInvite (w : WA) (e : env) (acc : string) : reply * WA :=
  match Invite_FindForAccount (w_invites w) (e_now e) acc with
  | (None, i) => (Fail 404 "No active invite", with_invites w i)
  | (Some slot, i) => (InviteSlotReply (is_Token slot) (is_ExpiresAt slot) (is_CreatedAt slot), with_invites w i)
  end.

Definition confirmCredential (w : WA) (e : env) (acc id : string) : reply * WA :=
  if negb (up e QFind) then (Fail 500 "internal error", w)
  else
    match FindForAccount (w_db w) id acc with
    | None => (Fail 404 "Credential not found", w)
    | Some cred =>
        if Revoked cred then (Fail 400 "Credential is revoked", w)
        else if bool_decide (State cred = CredentialStateActive) then (Fail 400 "Credential is already active", w)
        else if negb (up e QState) then (Fail 500 "internal error", w)
        else (Confirmed, with_db w (SetState (w_db w) id CredentialStateActive))
    end.

Definition find_invite (w : WA) (e : env) (token : string) : option InviteSlot * WA :=
  let '(slot, i) := Invite_FindByToken (e_order e) (w_invites w) (e_now e) token in (slot, with_invites w i).

Definition account_name (w : WA) (e : env) (acc : string) : string := if up e QName then AccountName (w_db w) acc else EmptyString.

Definition inviteByToken (w : WA) (e : env) (token : string) : reply * WA :=
  match find_invite w e token with
  | (None, w) => (Fail 404 "Invite not found or expired", w)
  | (Some slot, w) => (InviteInfo (account_name w e (is_AccountID slot)) (is_ExpiresAt slot), w)
  end.

Definition inviteRegisterOptions (w : WA) (e : env) (token : string) : reply * WA :=
  if bool_decide (token = EmptyString) then (Fail 400 "Token is required", w)
  else
    match find_invite w e token with
    | (None, w) => (Fail 404 "Invite not found or expired", w)
    | (Some slot, w) =>
        if negb (up e QActive) then (Fail 500 "internal error", w)
        else
          let name := account_name w e (is_AccountID slot) in
          let name := if bool_decide (name = EmptyString) then "ShellWatch user"%string else name in
          (RegOptions (buildRegOptions e (clampName name "user") (ActiveCredentialIDs (w_db w) (is_AccountID slot))),
           store_challenge w e PurposeRegisterInvite)
    end.

Definition inviteRegister (w : WA) (e : env) (token challengeID credential : string) : reply * WA :=
  if bool_decide (token = EmptyString) then (Fail 400 "Token is required", w)
  else
    match find_invite w e token with
    | (None, w) => (Fail 404 "Invite not found or expired", w)
    | (Some slot, w) =>
        let '(challenge, w) := take_challenge w e challengeID PurposeRegisterInvite in
        if bool_decide (challenge = EmptyString) then (Fail 400 "Challenge expired or not found", w)
        else
          match VerifyRegistration credential challenge with
          | inr err => (Fail 400 err, w)
          | inl dec =>
              let '(used, i) := Invite_ConsumeIfTokenMatches (w_invites w) (is_AccountID slot) token in
              let w := with_invites w i in
              if negb used then (Fail 409 "Invite was already used", w)
              else
                match insert_credential w e (is_AccountID slot) dec CredentialStatePendingConfirmation with
                | None => (Fail 400 "constraint failed", w)
                | Some (ins, db) => (Redeemed (in_Label ins) (d_AuthorizedKeysEntry dec), with_db w db)
                end
          end
    end.

(** ** Login *)

Definition login_options (w : WA) (e : env) (ids : list string) : reply * WA :=
  match ids with
  | [] => (Fail 200 "no_passkeys", w)
  | _ => (AuthOptions (mkAuthOptions (rn_challenge e) ids (rn_id e) ""), store_challenge w e PurposeLogin)
  end.

Definition LoginOptions (w : WA) (e : env) : reply * WA :=
  if negb (up e QActive) then (Fail 500 "internal error", w) else login_options w e (AllActiveCredentialIDs (w_db w)).

Definition ConsentOptions (w : WA) (e : env) (acc : string) : reply * WA :=
  if negb (up e QActive) then (Fail 500 "internal error", w) else login_options w e (ActiveCredentialIDs (w_db w) acc).

Definition VerifyLogin (w : WA) (e : env) (challengeID cid rawCredential : string) : reply * WA :=
  let '(challenge, w) := take_challenge w e challengeID PurposeLogin in
  if bool_decide (challenge = EmptyString) then (Fail 400 "Challenge expired or not found", w)
  else
    match find_credential w e cid with
    | None => (Fail 400 "Unknown credential", w)
    | Some stored =>
        if Revoked stored then (Fail 403 "This passkey has been revoked", w)
        else if negb (bool_decide (State stored = CredentialStateActive))
        then (Fail 403 "This passkey is awaiting confirmation on the original device", w)
        else
          match VerifyAssertion rawCredential challenge (PublicKeyCOSE stored) (wrapu32 (Counter stored)) with
          | inr err => (Fail 400 err, w)
          | inl newCounter =>
              if negb (up e QCounter) then (Fail 400 "update failed", w)
              else (LoggedIn (AccountID stored), with_db w (UpdateCounter (w_db w) (ISO (e_now e)) (ID stored) newCounter))
          end
    end.

Definition VerifyConsent (w : WA) (e : env) (challengeID cid rawCredential expectedAccountID : string) : reply * WA :=
  match VerifyLogin w e challengeID cid rawCredential with
  | (LoggedIn acc, w) =>
      (if negb (bool_decide (acc = expectedAccountID)) then Fail 403 "This passkey belongs to a different account"
       else LoggedIn acc, w)
  | r => r
  end.

(** ** Management *)

Definition label (w : WA) (e : env) (acc id newLabel : string) : reply * WA :=
  let trimmed := TrimSpace newLabel in
  if bool_decide (trimmed = EmptyString) then (Fail 400 "Label is required", w)
  else if negb (up e QList) then (Fail 500 "internal error", w)
  else if negb (existsb (has_id id) (ListForAccountFull (w_db w) acc)) then (Fail 404 "Credential not found", w)
  else if negb (up e QConflict) then (Fail 500 "internal error", w)
  else if LabelConflict (w_db w) acc trimmed id then (Fail 409 "A passkey with this label already exists", w)
  else if negb (up e QLabel) then (Fail 500 "internal error", w)
  else (LabelUpdated, with_db w (SetLabel (w_db w) id acc trimmed)).

(** The checks of a revocation: [None] lets it proceed. *)
Definition revoke_checks (db : DB) (e : env) (acc id : string) : option reply :=
  if negb (up e QList) then Some (Fail 500 "internal error")
  else
    match List.find (has_id id) (ListForAccountFull db acc) with
    | None => Some (Fail 404 "Credential not found")
    | Some target =>
        if Revoked target then Some (Fail 400 "Credential is already revoked")
        else if bool_decide (State target = CredentialStateActive) then
          if negb (up e QCount) then Some (Fail 500 "internal error")
          else if ActiveCount db acc <=? 1 then Some (Fail 400 "Cannot revoke the last active passkey")
          else None
        else None
    end.

(** Signing out everywhere; a failure does not undo the revocation. *)
Definition sign_out (w : WA) (e : env) (acc : string) : bool * WA :=
  let w := with_signout w (RevokeConsentSessions acc "") in
  if admin_up e (RevokeConsentSessions acc "") then
    (admin_up e (RevokeLoginSessions acc), with_signout w (RevokeLoginSessions acc))
  else (false, w).

Definition revoke (w : WA) (e : env) (acc id : string) (invalidateSessions : bool) : reply * WA :=
  match revoke_checks (w_db w) e acc id with
  | Some r => (r, w)
  | None =>
      if negb (up e QRevoke) then (Fail 500 "internal error", w)
      else
        let w := with_db w (Revoke (w_db w) id) in
        let '(sessionsInvalidated, w) := if invalidateSessions then sign_out w e acc else (false, w) in
        (CredentialRevoked sessionsInvalidated, w)
  end.

(** ** Requests *)

Inductive request :=
  | RqStatus
  | RqSelfOptions (name : string)
  | RqSelfRegister (body : option verifyBody)
  | RqRegisterOptions (acc label name : string)
  | RqRegister (acc token : string) (body : option verifyBody)
  | RqStepUpOptions (acc action : string)
  | RqStepUpVerify (acc : string) (body : option assertionBody)
  | RqMintInvite (acc : string)
  | RqReadInvite (acc : string)
  | RqConfirm (acc token id : string)
  | RqInvite (token : string)
  | RqInviteOptions (token : string)
  | RqInviteRegister (token challengeID credential : string)
  | RqLoginOptions
  | RqLogin (challengeID cid credential : string)
  | RqConsentOptions (acc : string)
  | RqConsent (challengeID cid credential acc : string)
  | RqLabel (acc id newLabel : string)
  | RqRevoke (acc token id : string) (invalidateSessions : bool)
  | RqOther (acc token action : string).   (** another route behind the gate *)

Definition handle (w : WA) (e : env) (rq : request) : reply * WA :=
  match rq with
  | RqStatus => passkeyStatus w e
  | RqSelfOptions name => selfRegisterOptions w e name
  | RqSelfRegister body => selfRegister w e body
  | RqRegisterOptions acc label name => inAccountRegisterOptions w e acc label name
  | RqRegister acc token body => gated ActionRegisterPasskey w e acc token (fun w => inAccountRegister w e acc body)
  | RqStepUpOptions acc action => stepUpOptions w e acc action
  | RqStepUpVerify acc body => stepUpVerify w e acc body
  | RqMintInvite acc => mintInvite w e acc
  | RqReadInvite acc => readInvite w e acc
  | RqConfirm acc token id => gated ActionConfirmPasskey w e acc token (fun w => confirmCredential w e acc id)
  | RqInvite token => inviteByToken w e token
  | RqInviteOptions token => inviteRegisterOptions w e token
  | RqInviteRegister token ch cred => inviteRegister w e token ch cred
  | RqLoginOptions => LoginOptions w e
  | RqLogin ch cid cred => VerifyLogin w e ch cid cred
  | RqConsentOptions acc => ConsentOptions w e acc
  | RqConsent ch cid cred acc => VerifyConsent w e ch cid cred acc
  | RqLabel acc id l => label w e acc id l
  | RqRevoke acc token id inv => gated ActionRevokePasskey w e acc token (fun w => revoke w e acc id inv)
  | RqOther acc token action => gated action w e acc token (fun w => (Confirmed, w))
  end.

(** The process starts with the database it finds, and empty stores. *)
Definition init (db : DB) : WA := mkWA db NewChallengeStore NewStepUpStore ∅ [].

Definition step (w : WA) (r : env * request) : WA := snd (handle w (fst r) (snd r)).
Definition run (w : WA) (rs : list (env * request)) : WA := foldl step w rs.

End Ceremonies.
