(* ===== verification/CeremonyProofs.v ===== *)
(** * What the passkey ceremonies guarantee

    Theorems about [Ceremonies]: how passkeys come to be active, what a login
    proves, what happens to a row over its life, and the guard of the last
    passkey. *)
From S2P Require Import Prelude GoStrings Ephemeral Tokens Passkeys Ceremonies.
From Stdlib Require Import Ascii.

Set Default Proof Using "Type".

Section Proofs.
Variable aaguidNames : string -> option string.
Variable protocol_create : string -> string -> Registration + string.
Variable protocol_get : string -> string -> string -> Z + string.
Variable CoseToAuthorizedKeys : string -> string.
Variable ISO : Z -> string.
Variable SelfRegEnabled : bool.

Abbreviation handle := (handle aaguidNames protocol_create protocol_get CoseToAuthorizedKeys ISO SelfRegEnabled).
Abbreviation step := (step aaguidNames protocol_create protocol_get CoseToAuthorizedKeys ISO SelfRegEnabled).
Abbreviation run := (run aaguidNames protocol_create protocol_get CoseToAuthorizedKeys ISO SelfRegEnabled).

(** ** What a request does to the table *)

Definition passes (w : WA) (e : env) (action acc token : string) : Prop :=
  fst (RequireStepUp (w_stepups w) (e_now e) action (Some acc) token) = Tokens.Forwarded.

Inductive effect (e : env) (rq : request) (w : WA) : DB -> Prop :=
  | E_same : effect e rq w (w_db w)
  | E_counter t stored n :
      stored ∈ creds (w_db w) -> active stored = true -> wrapu32 (Counter stored) <= n < 2 ^ 32 ->
      effect e rq w (UpdateCounter (w_db w) t (ID stored) n)
  | E_self answers t body p res d' :
      rq = RqSelfRegister body -> sr_SelfRegEnabled p = SelfRegEnabled -> 0 <= d_Counter (sr_Credential p) < 2 ^ 32 ->
      SelfRegister (w_db w) answers t p = Some (Some res, d') -> effect e rq w d'
  | E_register t acc token body dec id ins d' :
      rq = RqRegister acc token body -> 0 <= d_Counter dec < 2 ^ 32 -> passes w e ActionRegisterPasskey acc token ->
      Insert (w_db w) t acc dec CredentialStateActive id = Some (ins, d') -> effect e rq w d'
  | E_redeem t token ch cred slot dec id ins d' :
      rq = RqInviteRegister token ch cred -> 0 <= d_Counter dec < 2 ^ 32 ->
      Insert (w_db w) t (is_AccountID slot) dec CredentialStatePendingConfirmation id = Some (ins, d') -> effect e rq w d'
  | E_confirm acc token id cred :
      rq = RqConfirm acc token id -> passes w e ActionConfirmPasskey acc token ->
      FindForAccount (w_db w) id acc = Some cred -> Revoked cred = false ->
      effect e rq w (SetState (w_db w) id CredentialStateActive)
  | E_label acc id l new :
      rq = RqLabel acc id l -> LabelConflict (w_db w) acc new id = false ->
      existsb (has_id id) (ListForAccountFull (w_db w) acc) = true ->
      effect e rq w (SetLabel (w_db w) id acc new)
  | E_revoke acc token id inv :
      rq = RqRevoke acc token id inv -> passes w e ActionRevokePasskey acc token ->
      revoke_checks (w_db w) e acc id = None -> effect e rq w (Revoke (w_db w) id).

Lemma take_challenge_db w e id p : w_db (snd (take_challenge w e id p)) = w_db w /\ w_stepups (snd (take_challenge w e id p)) = w_stepups w.
Proof. unfold take_challenge. by destruct (ChallengeStore_Consume _ _ _ _). Qed.

Lemma find_invite_db w e t : w_db (snd (find_invite w e t)) = w_db w /\ w_stepups (snd (find_invite w e t)) = w_stepups w.
Proof. unfold find_invite. by destruct (Invite_FindByToken _ _ _ _). Qed.

Lemma find_credential_elem w e cid r : find_credential w e cid = Some r -> r ∈ creds (w_db w) /\ CredentialID r = cid.
Proof.
  unfold find_credential, FindByCredentialID. destruct (up e QFind); [|done]. intros [Hin H]%find_some.
  apply bool_decide_eq_true in H. split; [by apply list_elem_of_In|done].
Qed.

Lemma wrapu32_range z : 0 <= wrapu32 z < 2 ^ 32.
Proof. unfold wrapu32. apply Z.mod_pos_bound. lia. Qed.

(** The verified counter is never below the stored one, and above it unless
    both are zero. *)
Lemma VerifyAssertion_counter raw ch cose stored n :
  0 <= stored -> VerifyAssertion protocol_get raw ch cose stored = inl n ->
  exists c, protocol_get raw ch cose = inl c /\ n = wrapu32 c /\ (stored < n \/ n = 0 /\ stored = 0).
Proof.
  intros Hs. unfold VerifyAssertion. destruct (protocol_get raw ch cose) as [c|]; [|done].
  destruct (_ && _) eqn:E; [done|]. intros [= <-]. exists c. split; [done|]. split; [done|].
  pose proof (wrapu32_range c).
  apply andb_false_iff in E as [E|E]; [apply orb_false_iff in E as [E1 E2]|]; bool_to_prop; lia.
Qed.

Lemma VerifyRegistration_counter raw ch dec :
  VerifyRegistration aaguidNames protocol_create CoseToAuthorizedKeys raw ch = inl dec -> 0 <= d_Counter dec < 2 ^ 32.
Proof.
  unfold VerifyRegistration. destruct (protocol_create raw ch); [|done]. intros [= <-]. apply wrapu32_range.
Qed.

Lemma gated_effect action e rq w acc token next d' :
  (passes w e action acc token -> effect e rq w (w_db (snd (next (with_stepups w (snd (RequireStepUp (w_stepups w) (e_now e) action (Some acc) token))))))) ->
  d' = w_db (snd (gated action w e acc token next)) -> effect e rq w d'.
Proof.
  intros H ->. unfold gated, passes in *. destruct (RequireStepUp _ _ _ _ _) as [[|st m c] s]; cbn [fst snd] in *; [by apply H|].
  exact (E_same e rq w).
Qed.

Lemma insert_credential_Some w e acc dec state ins d' :
  insert_credential ISO w e acc dec state = Some (ins, d') ->
  Insert (w_db w) (ISO (e_now e)) acc dec state (rn_cred e) = Some (ins, d').
Proof. unfold insert_credential. by destruct (up e QInsert). Qed.

(** Take a challenge out without touching the table. *)
Ltac take_challenge w e :=
  match goal with
  | |- context [take_challenge w e ?id ?p] =>
      let E := fresh "E" in
      pose proof (proj1 (take_challenge_db w e id p)); pose proof (proj2 (take_challenge_db w e id p));
      destruct (take_challenge w e id p) as [?challenge ?w1]; cbn [snd] in *
  end.

(** A branch that leaves the table alone. *)
Ltac same_db := cbn [snd with_db w_db]; match goal with H : w_db _ = w_db _ |- _ => rewrite H end; apply E_same.

Lemma VerifyLogin_effect e rq w ch cid cred : effect e rq w (w_db (snd (VerifyLogin protocol_get ISO w e ch cid cred))).
Proof.
  unfold Ceremonies.VerifyLogin. take_challenge w e.
  case_bool_decide; [same_db|]. destruct (find_credential w1 e cid) as [stored|] eqn:Hf; [|same_db].
  destruct (Revoked stored) eqn:Hr; [same_db|]. case_bool_decide as Hs; cbn [negb]; [|same_db].
  destruct (VerifyAssertion _ _ _ _ _) as [n|] eqn:Hv; [|same_db]. destruct (negb _); [same_db|]. cbn [snd with_db w_db].
  apply find_credential_elem in Hf as [Hf _]. apply VerifyAssertion_counter in Hv as (c & _ & -> & Hn); [|apply wrapu32_range].
  rewrite H in *. apply E_counter; [done| |pose proof (wrapu32_range c); lia].
  unfold active. rewrite Hr. simpl. by apply bool_decide_eq_true.
Qed.

Lemma stepUpVerify_effect e rq w acc body : effect e rq w (w_db (snd (stepUpVerify protocol_get ISO w e acc body))).
Proof.
  unfold stepUpVerify. destruct body as [b|]; [|apply E_same]. destruct (negb (IsStepUpAction _)); [apply E_same|].
  take_challenge w e. case_bool_decide; [same_db|].
  destruct (find_credential w1 e (ab_CredentialID b)) as [stored|] eqn:Hf; [|same_db].
  destruct (negb (bool_decide _) || _) eqn:Ho; [same_db|].
  destruct (VerifyAssertion _ _ _ _ _) as [n|] eqn:Hv; [|same_db]. destruct (negb (up e QCounter)); [same_db|].
  cbn [snd with_db w_db with_stepups]. apply orb_false_iff in Ho as [_ Ha]. apply negb_false_iff in Ha.
  apply find_credential_elem in Hf as [Hf _]. apply VerifyAssertion_counter in Hv as (c & _ & -> & Hn); [|apply wrapu32_range].
  rewrite H in *. apply E_counter; [done|done|pose proof (wrapu32_range c); lia].
Qed.

Lemma selfRegister_effect e w body :
  effect e (RqSelfRegister body) w
    (w_db (snd (selfRegister aaguidNames protocol_create CoseToAuthorizedKeys ISO SelfRegEnabled w e body))).
Proof.
  unfold selfRegister. destruct (self_registration_closed _ _ _); [apply E_same|]. destruct body as [b|]; [|apply E_same].
  destruct (_ || _); [apply E_same|]. take_challenge w e. case_bool_decide; [same_db|].
  destruct (VerifyRegistration _ _ _ _ _) as [dec|] eqn:Hv; [|same_db].
  destruct (up e QInsert); [|same_db]. rewrite H.
  destruct (SelfRegister _ _ _ _) as [[[res|] d']|] eqn:Hs; [|same_db|same_db]. cbn [snd with_db w_db].
  eapply E_self; [done| | |exact Hs]; [done|]. cbn [sr_Credential]. by eapply VerifyRegistration_counter.
Qed.

Lemma inAccountRegister_effect e w s acc token body :
  passes w e ActionRegisterPasskey acc token ->
  effect e (RqRegister acc token body) w
    (w_db (snd (inAccountRegister aaguidNames protocol_create CoseToAuthorizedKeys ISO (with_stepups w s) e acc body))).
Proof.
  intros Hp. unfold inAccountRegister. destruct body as [b|]; [|exact (E_same e _ w)].
  take_challenge (with_stepups w s) e. cbn [with_stepups w_db] in *. case_bool_decide; [same_db|].
  destruct (VerifyRegistration _ _ _ _ _) as [dec|] eqn:Hv; [|same_db].
  destruct (insert_credential _ _ _ _ _ _) as [[ins d']|] eqn:Hi; [|same_db]. cbn [snd with_db w_db].
  apply insert_credential_Some in Hi. rewrite H in Hi. eapply E_register; [done| |exact Hp|exact Hi].
  by eapply VerifyRegistration_counter.
Qed.

Lemma inviteRegister_effect e w token ch cred :
  effect e (RqInviteRegister token ch cred) w
    (w_db (snd (inviteRegister aaguidNames protocol_create CoseToAuthorizedKeys ISO w e token ch cred))).
Proof.
  unfold inviteRegister. case_bool_decide; [apply E_same|].
  pose proof (proj1 (find_invite_db w e token)) as Hi. destruct (find_invite w e token) as [[slot|] w0]; cbn [snd] in Hi.
  2: { cbn [snd]. rewrite Hi. apply E_same. }
  take_challenge w0 e. rewrite Hi in *. case_bool_decide; [same_db|].
  destruct (VerifyRegistration _ _ _ _ _) as [dec|] eqn:Hv; [|same_db].
  destruct (Invite_ConsumeIfTokenMatches _ _ _) as [used i]. destruct (negb used); [cbn [with_invites w_db snd]; same_db|].
  destruct (insert_credential _ _ _ _ _ _) as [[ins d']|] eqn:Hc; [|cbn [with_invites w_db snd]; same_db]. cbn [snd with_db w_db].
  apply insert_credential_Some in Hc. cbn [with_invites w_db] in Hc. rewrite H0 in Hc.
  eapply E_redeem; [done| |exact Hc]. by eapply VerifyRegistration_counter.
Qed.

(** Handlers that never touch the table. *)
Lemma options_effect e rq w :
  match rq with
  | RqStatus | RqSelfOptions _ | RqRegisterOptions _ _ _ | RqStepUpOptions _ _ | RqMintInvite _ | RqReadInvite _
  | RqInvite _ | RqInviteOptions _ | RqLoginOptions | RqConsentOptions _ => w_db (snd (handle w e rq)) = w_db w
  | _ => True
  end.
Proof.
  destruct rq; try done; cbn [Ceremonies.handle].
  - unfold selfRegisterOptions. by destruct (self_registration_closed _ _ _).
  - unfold inAccountRegisterOptions. by destruct (negb (up e QActive)).
  - unfold stepUpOptions. destruct (negb _); [done|]. destruct (negb _); [done|]. by destruct (ActiveCredentialIDs _ _).
  - unfold readInvite. by destruct (Invite_FindForAccount _ _ _) as [[]].
  - unfold inviteByToken, find_invite. by destruct (Invite_FindByToken _ _ _ _) as [[]].
  - unfold inviteRegisterOptions, find_invite. case_bool_decide; [done|].
    destruct (Invite_FindByToken _ _ _ _) as [[]]; [|done]. by destruct (negb _).
  - unfold LoginOptions, login_options. destruct (negb _); [done|]. by destruct (AllActiveCredentialIDs _).
  - unfold ConsentOptions, login_options. destruct (negb _); [done|]. by destruct (ActiveCredentialIDs _ _).
Qed.

Lemma handle_effect w e rq : effect e rq w (w_db (snd (handle w e rq))).
Proof.
  pose proof (options_effect e rq w) as Ho.
  destruct rq as [|name|body|acc label name|acc token body|acc action|acc body|acc|acc|acc token id|token|token|token ch cred| |ch cid cred|acc|ch cid cred acc|acc id l|acc token id inv|acc token action];
    try (rewrite Ho; apply E_same); clear Ho; cbn [Ceremonies.handle].
  - apply selfRegister_effect.
  - eapply gated_effect; [|reflexivity]. intros Hp. by apply inAccountRegister_effect.
  - apply stepUpVerify_effect.
  - eapply gated_effect; [|reflexivity]. intros Hp. unfold confirmCredential. cbn [with_stepups w_db].
    destruct (negb (up e QFind)); [exact (E_same e _ w)|]. destruct (FindForAccount (w_db w) id acc) as [cred|] eqn:Hf; [|exact (E_same e _ w)].
    destruct (Revoked cred) eqn:Hr; [exact (E_same e _ w)|]. case_bool_decide; [exact (E_same e _ w)|]. destruct (negb (up e QState)); [exact (E_same e _ w)|].
    exact (E_confirm e _ w acc token id cred eq_refl Hp Hf Hr).
  - apply inviteRegister_effect.
  - apply VerifyLogin_effect.
  - unfold VerifyConsent. pose proof (VerifyLogin_effect e (RqConsent ch cid cred acc) w ch cid cred) as H.
    by destruct (Ceremonies.VerifyLogin _ _ _ _ _ _ _) as [[] w'].
  - unfold Ceremonies.label. case_bool_decide; [apply E_same|]. destruct (negb (up e QList)); [apply E_same|].
    destruct (existsb _ _) eqn:He; cbn [negb]; [|apply E_same]. destruct (negb (up e QConflict)); [apply E_same|].
    destruct (LabelConflict _ _ _ _) eqn:Hc; [apply E_same|]. destruct (negb (up e QLabel)); [apply E_same|].
    by eapply E_label.
  - eapply gated_effect; [|reflexivity]. intros Hp. unfold revoke. cbn [with_stepups w_db].
    destruct (revoke_checks (w_db w) e acc id) eqn:Hc; [exact (E_same e _ w)|]. destruct (negb (up e QRevoke)); [exact (E_same e _ w)|].
    destruct inv; [|exact (E_revoke e _ w acc token id _ eq_refl Hp Hc)]. unfold sign_out.
    destruct (admin_up _ _); exact (E_revoke e _ w acc token id _ eq_refl Hp Hc).
  - eapply gated_effect; [|reflexivity]. intros _. exact (E_same e _ w).
Qed.

(** ** The table stays well formed, rows only move forward *)

(** An update that keeps the identifying columns. *)
Definition keeps (f : CredentialRow -> CredentialRow) : Prop :=
  forall r, ID (f r) = ID r /\ CredentialID (f r) = CredentialID r /\ AccountID (f r) = AccountID r.

Lemma update_rows_maps p f db (g : CredentialRow -> string) :
  (forall r, g (f r) = g r) -> map g (creds (update_rows p f db)) = map g (creds db).
Proof. intros Hg. unfold update_rows, set_creds. cbn [creds]. rewrite map_map. apply map_ext. intros r. destruct (p r); [apply Hg|done]. Qed.

Lemma update_rows_elem p f db r :
  r ∈ creds (update_rows p f db) <-> exists r0, r0 ∈ creds db /\ r = (if p r0 then f r0 else r0).
Proof.
  unfold update_rows, set_creds. cbn [creds]. rewrite list_elem_of_In, in_map_iff.
  split; intros (x & H1 & H2); exists x; [split; [by apply list_elem_of_In|done]|split; [done|by apply list_elem_of_In]].
Qed.

Lemma update_wf p f db :
  keeps f -> (forall r, Label (f r) = Label r) -> table_wf db -> table_wf (update_rows p f db).
Proof.
  intros Hk Hlab Hwf.
  assert (forall r r0, r = (if p r0 then f r0 else r0) -> ID r = ID r0 /\ AccountID r = AccountID r0 /\ Label r = Label r0) as Hsame.
  { intros r r0 ->. destruct (p r0); [|done]. destruct (Hk r0) as (? & ? & ?). by rewrite Hlab. }
  split.
  - rewrite update_rows_maps; [apply (wf_ids db Hwf)|apply Hk].
  - rewrite update_rows_maps; [apply (wf_cids db Hwf)|apply Hk].
  - intros r1 r2 H1%update_rows_elem H2%update_rows_elem. destruct H1 as (x1 & H1 & E1), H2 as (x2 & H2 & E2).
    destruct (Hsame _ _ E1) as (-> & -> & ->), (Hsame _ _ E2) as (-> & -> & ->). by apply (wf_labels db Hwf).
  - intros r (x & Hx & E)%update_rows_elem. destruct (Hsame _ _ E) as (_ & -> & _). by apply (wf_accounts db Hwf).
Qed.

(** The primary key identifies the row. *)
Lemma row_unique db r1 r2 : table_wf db -> r1 ∈ creds db -> r2 ∈ creds db -> ID r1 = ID r2 -> r1 = r2.
Proof.
  intros Hwf H1 H2 Heq. pose proof (wf_ids db Hwf) as Hnd. revert H1 H2 Hnd. generalize (creds db) as l.
  induction l as [|x l IH]; [by intros []%not_elem_of_nil|]. simpl. intros H1 H2 [Hx Hnd]%NoDup_cons.
  assert (forall r, r ∈ l -> ID r = ID x -> False) as Hno.
  { intros r Hr Hid. apply Hx. rewrite <- Hid. apply list_elem_of_In, in_map, list_elem_of_In. done. }
  apply elem_of_cons in H1 as [->|H1], H2 as [->|H2]; [done|by destruct (Hno r2)|by destruct (Hno r1)|by apply IH].
Qed.

Lemma label_wf db acc id l :
  table_wf db -> LabelConflict db acc l id = false ->
  table_wf (SetLabel db id acc l).
Proof.
  intros Hwf Hc. set (p := fun r => has_id id r && of_account acc r).
  assert (forall r, r ∈ creds db -> AccountID r = acc -> Label r = l -> ID r = id) as Hfree.
  { intros r Hr Ha Hl. destruct (decide (ID r = id)) as [|Hne]; [done|].
    enough (LabelConflict db acc l id = true) by congruence. apply existsb_exists. exists r.
    split; [by apply list_elem_of_In|]. unfold of_account. rewrite !bool_decide_true by done. by rewrite bool_decide_false by done. }
  assert (forall r r0, r = (if p r0 then set_label l r0 else r0) ->
    ID r = ID r0 /\ AccountID r = AccountID r0 /\ (Label r = Label r0 \/ Label r = l /\ ID r0 = id /\ AccountID r0 = acc)) as Hsame.
  { intros r r0 ->. destruct (p r0) eqn:Ep; [|auto]. split; [done|]. split; [done|]. right. split; [done|].
    apply andb_true_iff in Ep. unfold has_id, of_account in Ep. by rewrite !bool_decide_eq_true in Ep. }
  unfold SetLabel. fold p. split.
  - rewrite update_rows_maps; [apply (wf_ids db Hwf)|done].
  - rewrite update_rows_maps; [apply (wf_cids db Hwf)|done].
  - intros r1 r2 H1%update_rows_elem H2%update_rows_elem. destruct H1 as (x1 & H1 & E1), H2 as (x2 & H2 & E2).
    destruct (Hsame _ _ E1) as (-> & -> & L1), (Hsame _ _ E2) as (-> & -> & L2). intros Ha Hl.
    destruct L1 as [L1|(L1 & I1 & A1)], L2 as [L2|(L2 & I2 & A2)].
    + apply (wf_labels db Hwf); [done|done|done|congruence].
    + rewrite I2. apply Hfree; [done|congruence|congruence].
    + rewrite I1. symmetry. apply Hfree; [done|congruence|congruence].
    + congruence.
  - intros r (x & Hx & E)%update_rows_elem. destruct (Hsame _ _ E) as (_ & -> & _). by apply (wf_accounts db Hwf).
Qed.

Lemma account_wf db db' :
  creds db' = creds db -> (forall a, is_Some (find_account db a) -> is_Some (find_account db' a)) -> table_wf db -> table_wf db'.
Proof.
  intros Hc Ha Hwf. split; rewrite Hc; [apply (wf_ids db Hwf)|apply (wf_cids db Hwf)|apply (wf_labels db Hwf)|].
  intros r Hr. by apply Ha, (wf_accounts db Hwf).
Qed.

Lemma find_account_snoc l x p : List.find p (l ++ [x]) = match List.find p l with Some a => Some a | None => List.find p [x] end :> option Account.
Proof. induction l as [|a l IH]; [done|]. cbn [List.find app]. destruct (p a); [done|exact IH]. Qed.

Lemma insert_account_spec db id name db' :
  insert_account db id name = Some db' ->
  find_account db id = None /\ creds db' = creds db /\ admin_account db' = admin_account db /\
  (forall a, is_Some (find_account db a) -> is_Some (find_account db' a)).
Proof.
  unfold insert_account. destruct (find_account db id) eqn:E; [done|]. intros [= <-]. split_and!; try done.
  intros a [x Hx]. unfold find_account in *. cbn [accounts]. rewrite find_account_snoc, Hx. by eexists.
Qed.

Lemma Insert_wf db t acc dec state id ins db' :
  table_wf db -> Insert db t acc dec state id = Some (ins, db') ->
  table_wf db' /\ exists row, creds db' = creds db ++ [row] /\ accounts db' = accounts db /\ admin_account db' = admin_account db /\
    ID row = id /\ AccountID row = acc /\ State row = state /\ Revoked row = false /\ Counter row = d_Counter dec /\
    CredentialID row = d_CredentialID dec /\ Label row = in_Label ins /\ (forall x, x ∈ creds db -> ID x <> id).
Proof.
  intros Hwf Hi. assert (table_wf db') as Hwf'.
  { pose proof (Insert_spec db t acc dec state id Hwf) as H. rewrite Hi in H. apply H. }
  split; [done|]. unfold Insert in Hi. destruct (dedupeLabel _ _ _) as [l|]; [|done]. simpl in Hi. unfold insert_row in Hi.
  destruct (existsb _ _) eqn:He; [done|]. destruct (find_account _ _); [|done]. injection Hi as <- <-.
  eexists. split_and!; try reflexivity. intros x Hx Heq.
  enough (existsb (fun x => bool_decide (ID x = id) || bool_decide (CredentialID x = d_CredentialID dec)) (creds db) = true)
    by (cbn [ID CredentialID] in He; congruence).
  apply existsb_exists. exists x. split; [by apply list_elem_of_In|]. by rewrite bool_decide_true.
Qed.

(** Self-registration as an insertion, possibly after adding an account. *)
Lemma SelfRegister_spec db answers t p res db' :
  table_wf db -> SelfRegister db answers t p = Some (Some res, db') ->
  exists db0 ins, creds db0 = creds db /\ table_wf db0 /\
    Insert db0 t (sx_AccountID res) (sr_Credential p) CredentialStateActive (sr_NewCredID p) = Some (ins, db') /\
    (sr_SelfRegEnabled p = true \/ creds db = []) /\
    (creds db = [] \/ find_account db (sx_AccountID res) = None).
Proof.
  intros Hwf. unfold SelfRegister, HasPasskeys.
  destruct (negb (sr_SelfRegEnabled p) && _) eqn:E; [done|].
  assert (sr_SelfRegEnabled p = true \/ creds db = []) as Hen.
  { destruct (sr_SelfRegEnabled p); [by left|right]. by destruct (creds db). }
  clear E. destruct (if answers then admin_account db else None) as [admin|].
  - destruct (creds db) as [|c0 cs] eqn:Ec; cbn [negb].
    + cbn [mbind option_bind]. destruct (Insert db _ _ _ _ _) as [[ins d]|] eqn:Ei; [|done]. intros [= <- <-].
      exists db, ins. cbn [sx_AccountID]. rewrite Ec. split; [done|]. split; [done|]. split; [exact Ei|]. auto.
    + destruct (insert_account db _ _) as [db1|] eqn:Eacc; [|done]. cbn [mbind option_bind].
      apply insert_account_spec in Eacc as (Hn & Hc & _ & Hmono).
      destruct (Insert db1 _ _ _ _ _) as [[ins d]|] eqn:Ei; [|done]. intros [= <- <-]. exists db1, ins. cbn [sx_AccountID].
      rewrite Hc, Ec. split; [done|]. split; [by eapply account_wf|]. split; [exact Ei|]. auto.
  - destruct (insert_account db _ _) as [db1|] eqn:Eacc; [|done]. cbn [mbind option_bind].
    apply insert_account_spec in Eacc as (Hn & Hc & _ & Hmono).
    destruct (Insert _ _ _ _ _ _) as [[ins d]|] eqn:Ei; [|done]. intros [= <- <-]. eexists _, ins. cbn [sx_AccountID].
    split; [|split; [|split; [exact Ei|auto]]]; [done|]. eapply (account_wf db); [done| |done]. exact Hmono.
Qed.

(** A row and what has become of it: the credential never changes, the counter
    only grows, activation and revocation are for good. *)
Definition later (r r' : CredentialRow) : Prop :=
  (ID r', AccountID r', CredentialID r', PublicKeyCOSE r') = (ID r, AccountID r, CredentialID r, PublicKeyCOSE r) /\
  (PublicKeyOpenSSH r', Transports r', CreatedAt r') = (PublicKeyOpenSSH r, Transports r, CreatedAt r) /\
  Counter r <= Counter r' /\
  (Revoked r = true -> Revoked r' = true) /\
  (State r = CredentialStateActive -> State r' = CredentialStateActive).

#[local] Instance later_preorder : PreOrder later.
Proof.
  split.
  - intros r. unfold later. split_and!; auto. lia.
  - intros r1 r2 r3 (A1 & B1 & C1 & D1 & E1) (A2 & B2 & C2 & D2 & E2). unfold later. rewrite A2, B2, A1, B1.
    split_and!; auto; lia.
Qed.

Definition counters_ok (db : DB) : Prop := forall r, r ∈ creds db -> 0 <= Counter r < 2 ^ 32.

(** The table grows at the end and its rows move on. *)
Definition progress (db db' : DB) : Prop := forall r, r ∈ creds db -> exists r', r' ∈ creds db' /\ later r r'.

Lemma update_progress p f db :
  (forall r, r ∈ creds db -> p r = true -> later r (f r)) -> progress db (update_rows p f db).
Proof.
  intros Hf r Hr. exists (if p r then f r else r). split; [apply update_rows_elem; eauto|].
  destruct (p r) eqn:Hp; [by apply Hf|reflexivity].
Qed.

Lemma update_counters p f db :
  (forall r, r ∈ creds db -> p r = true -> 0 <= Counter (f r) < 2 ^ 32) -> counters_ok db -> counters_ok (update_rows p f db).
Proof. intros Hf Hc r (x & Hx & ->)%update_rows_elem. destruct (p x) eqn:Hp; [by apply Hf|by apply Hc]. Qed.

Lemma snoc_progress db db' row : creds db' = creds db ++ [row] -> progress db db'.
Proof. intros He r Hr. exists r. split; [rewrite He; set_solver|reflexivity]. Qed.

Lemma snoc_counters db db' row :
  creds db' = creds db ++ [row] -> 0 <= Counter row < 2 ^ 32 -> counters_ok db -> counters_ok db'.
Proof. intros He Hrow Hc r. rewrite He, elem_of_app, list_elem_of_singleton. intros [H| ->]; [by apply Hc|done]. Qed.

(** An inserted row with the counter of a verified registration. *)
Lemma Insert_step db t acc dec state id ins db' :
  table_wf db -> counters_ok db -> 0 <= d_Counter dec < 2 ^ 32 -> Insert db t acc dec state id = Some (ins, db') ->
  table_wf db' /\ counters_ok db' /\ progress db db'.
Proof.
  intros Hwf Hc Hd Hi. apply Insert_wf in Hi as (Hwf' & row & He & _ & _ & _ & _ & _ & _ & Hcount & _); [|done].
  split; [done|]. split; [|by eapply snoc_progress]. eapply snoc_counters; [done| |done]. by rewrite Hcount.
Qed.

Lemma effect_step e rq w d :
  effect e rq w d -> table_wf (w_db w) -> counters_ok (w_db w) ->
  table_wf d /\ counters_ok d /\ progress (w_db w) d.
Proof.
  intros He Hwf Hc. destruct He as [|t stored n Hin Ha Hn|answers t body p res d' _ _ Hd Hs|t acc tok body dec id ins d' _ Hd _ Hi
    |t tok ch cred slot dec id ins d' _ Hd Hi|acc tok id cred _ _ Hf Hr|acc id l new _ Hl _|acc tok id inv _ _ _].
  - split; [done|]. split; [done|]. intros r Hr. by exists r.
  - assert (forall r, r ∈ creds (w_db w) -> has_id (ID stored) r = true -> r = stored) as Huniq.
    { intros r Hr Hid%bool_decide_eq_true. by eapply row_unique. }
    pose proof (Hc stored Hin). assert (wrapu32 (Counter stored) = Counter stored) as Hw by (unfold wrapu32; apply Z.mod_small; lia).
    split; [by apply update_wf|]. split.
    + apply update_counters; [|done]. intros r Hr Hid. cbn [set_counter Counter]. lia.
    + apply update_progress. intros r Hr Hid. rewrite (Huniq r Hr Hid). unfold later. cbn. split_and!; auto. lia.
  - apply SelfRegister_spec in Hs as (db0 & ins & Hc0 & Hwf0 & Hi & _); [|done].
    assert (counters_ok db0) as Hc0' by (unfold counters_ok; by rewrite Hc0).
    destruct (Insert_step _ _ _ _ _ _ _ _ Hwf0 Hc0' Hd Hi) as (? & ? & Hp). split; [done|]. split; [done|].
    unfold progress in *. by rewrite Hc0 in Hp.
  - by eapply Insert_step.
  - by eapply Insert_step.
  - split; [by apply update_wf|]. split; [apply update_counters; [intros r Hr' _; exact (Hc r Hr')|done]|].
    apply update_progress. intros r Hr' _. unfold later. cbn. split_and!; auto; lia.
  - split; [by apply label_wf|]. split; [apply update_counters; [intros r Hr' _; exact (Hc r Hr')|done]|].
    apply update_progress. intros r Hr' _. unfold later. cbn. split_and!; auto; lia.
  - split; [by apply update_wf|]. split; [apply update_counters; [intros r Hr' _; exact (Hc r Hr')|done]|].
    apply update_progress. intros r Hr' _. unfold later. cbn. split_and!; auto; lia.
Qed.

Lemma progress_refl db : progress db db.
Proof. intros r Hr. by exists r. Qed.

Lemma progress_trans d1 d2 d3 : progress d1 d2 -> progress d2 d3 -> progress d1 d3.
Proof.
  intros H1 H2 r Hr. destruct (H1 r Hr) as (r' & Hr' & L1). destruct (H2 r' Hr') as (r'' & Hr'' & L2).
  exists r''. split; [done|]. by transitivity r'.
Qed.

Lemma run_progress w rs :
  table_wf (w_db w) -> counters_ok (w_db w) ->
  table_wf (w_db (run w rs)) /\ counters_ok (w_db (run w rs)) /\ progress (w_db w) (w_db (run w rs)).
Proof.
  revert w. induction rs as [|[e rq] rs IH]; intros w Hwf Hc; [split; [done|]; split; [done|apply progress_refl]|].
  cbn [Ceremonies.run foldl]. destruct (effect_step e rq w _ (handle_effect w e rq) Hwf Hc) as (Hwf' & Hc' & Hp).
  destruct (IH (step w (e, rq)) Hwf' Hc') as (? & ? & ?). split; [done|]. split; [done|]. by eapply progress_trans.
Qed.

(** The database the process starts with: its constraints hold and the counters
    fit their 32 bits. *)
Variable start_db : DB.
Hypothesis start_wf : table_wf start_db.
Hypothesis start_counters : counters_ok start_db.

Abbreviation init := (init start_db).

Lemma reached_ok rs : table_wf (w_db (run init rs)) /\ counters_ok (w_db (run init rs)).
Proof using start_wf start_counters. by destruct (run_progress init rs start_wf start_counters) as (? & ? & _). Qed.

(** ** Step-up tokens *)

(** The calls a request makes to the step-up store. *)
Definition events_of (w : WA) (r : env * request) : list stepup_event :=
  match snd r with
  | RqRegister acc token _ => [EvRequest (e_now (fst r)) ActionRegisterPasskey (Some acc) token]
  | RqConfirm acc token _ => [EvRequest (e_now (fst r)) ActionConfirmPasskey (Some acc) token]
  | RqRevoke acc token _ _ => [EvRequest (e_now (fst r)) ActionRevokePasskey (Some acc) token]
  | RqOther acc token action => [EvRequest (e_now (fst r)) action (Some acc) token]
  | RqStepUpVerify acc _ =>
      match fst (handle w (fst r) (snd r)) with
      | StepUpMinted token _ action => [EvMint (e_now (fst r)) token acc action]
      | _ => []
      end
  | _ => []
  end.

Fixpoint history (w : WA) (rs : list (env * request)) : list stepup_event :=
  match rs with
  | [] => []
  | r :: rs => events_of w r ++ history (step w r) rs
  end.

Lemma gated_stepups action w e acc token next :
  (forall w', w_stepups (snd (next w')) = w_stepups w') ->
  w_stepups (snd (gated action w e acc token next)) = stepup_exec (w_stepups w) (EvRequest (e_now e) action (Some acc) token).
Proof.
  intros Hn. unfold gated. cbn [stepup_exec]. destruct (RequireStepUp _ _ _ _ _) as [[|] s]; cbn [snd]; [|done]. by rewrite Hn.
Qed.

Ltac same_stepups := cbn [snd with_db with_invites w_stepups] in *; congruence.

Lemma inAccountRegister_stepups w e acc body :
  w_stepups (snd (inAccountRegister aaguidNames protocol_create CoseToAuthorizedKeys ISO w e acc body)) = w_stepups w.
Proof.
  unfold inAccountRegister. destruct body as [b|]; [|done]. take_challenge w e. case_bool_decide; [same_stepups|].
  destruct (VerifyRegistration _ _ _ _ _); [|same_stepups]. destruct (insert_credential _ _ _ _ _ _) as [[]|]; same_stepups.
Qed.

Lemma VerifyLogin_stepups w e ch cid cred : w_stepups (snd (VerifyLogin protocol_get ISO w e ch cid cred)) = w_stepups w.
Proof.
  unfold Ceremonies.VerifyLogin. take_challenge w e. case_bool_decide; [same_stepups|].
  destruct (find_credential _ _ _) as [stored|]; [|same_stepups]. destruct (Revoked stored); [same_stepups|].
  destruct (negb (bool_decide _)); [same_stepups|]. destruct (VerifyAssertion _ _ _ _ _); [|same_stepups].
  destruct (negb _); same_stepups.
Qed.

(** What stands behind a minted token: an assertion of an active passkey of the
    account, verified against a challenge that was open for this action. *)
Definition passkey_assertion (w : WA) (e : env) (acc action : string) : Prop :=
  exists b stored challenge s newCounter,
    ChallengeStore_Consume (w_challenges w) (e_now e) (ab_ChallengeID b) (purpose_of action) = (challenge, s) /\
    challenge <> EmptyString /\ stored ∈ creds (w_db w) /\ CredentialID stored = ab_CredentialID b /\
    AccountID stored = acc /\ active stored = true /\
    VerifyAssertion protocol_get (ab_Credential b) challenge (PublicKeyCOSE stored) (wrapu32 (Counter stored)) = inl newCounter.

Lemma stepUpVerify_minted w e acc body :
  match stepUpVerify protocol_get ISO w e acc body with
  | (StepUpMinted token exp action, w') =>
      w_stepups w' = stepup_exec (w_stepups w) (EvMint (e_now e) token acc action) /\ passkey_assertion w e acc action
  | (_, w') => w_stepups w' = w_stepups w
  end.
Proof.
  unfold stepUpVerify. destruct body as [b|]; [|done]. destruct (negb (IsStepUpAction _)); [done|].
  unfold take_challenge. destruct (ChallengeStore_Consume _ _ _ _) as [challenge s] eqn:Hch.
  case_bool_decide as Hne; [done|]. destruct (find_credential _ _ _) as [stored|] eqn:Hf; [|done].
  destruct (negb (bool_decide _) || _) eqn:Ho; [done|]. destruct (VerifyAssertion _ _ _ _ _) as [n|] eqn:Hv; [|done].
  destruct (negb (up e QCounter)); [done|]. cbn [with_db w_db w_stepups with_challenges].
  destruct (StepUpStore_Mint _ _ _ _ _) as [exp s'] eqn:Hm. cbn [with_stepups w_stepups stepup_exec].
  rewrite Hm. split; [done|]. apply find_credential_elem in Hf as [Hin Hcid].
  apply orb_false_iff in Ho as [Ho Ha]. apply negb_false_iff in Ho, Ha. apply bool_decide_eq_true in Ho.
  exists b, stored, challenge, s, n. split_and!; try done.
Qed.

Lemma events_of_run w r : w_stepups (step w r) = foldl stepup_exec (w_stepups w) (events_of w r).
Proof.
  destruct r as [e rq]. unfold Ceremonies.step, events_of. cbn [fst snd].
  destruct rq as [|name|body|acc label name|acc token body|acc action|acc body|acc|acc|acc token id|token|token|token ch cred| |ch cid cred|acc|ch cid cred acc|acc id l|acc token id inv|acc token action];
    cbn [Ceremonies.handle foldl].
  - done.
  - unfold selfRegisterOptions. by destruct (self_registration_closed _ _ _).
  - unfold selfRegister. destruct (self_registration_closed _ _ _); [done|]. destruct body as [b|]; [|done].
    destruct (_ || _); [done|]. take_challenge w e. case_bool_decide; [same_stepups|].
    destruct (VerifyRegistration _ _ _ _ _); [|same_stepups]. destruct (up e QInsert); [|same_stepups].
    destruct (SelfRegister _ _ _ _) as [[[]]|]; same_stepups.
  - unfold inAccountRegisterOptions. by destruct (negb (up e QActive)).
  - apply gated_stepups. intros. apply inAccountRegister_stepups.
  - unfold stepUpOptions. destruct (negb _); [done|]. destruct (negb _); [done|]. by destruct (ActiveCredentialIDs _ _).
  - pose proof (stepUpVerify_minted w e acc body) as H. destruct (stepUpVerify _ _ _ _ _ _) as [[] w']; cbn [fst snd] in *; try exact H.
    apply H.
  - done.
  - unfold readInvite. by destruct (Invite_FindForAccount _ _ _) as [[]].
  - apply gated_stepups. intros w'. unfold confirmCredential. destruct (negb _); [done|]. destruct (FindForAccount _ _ _) as [c|]; [|done].
    destruct (Revoked c); [done|]. case_bool_decide; [done|]. by destruct (negb _).
  - unfold inviteByToken, find_invite. by destruct (Invite_FindByToken _ _ _ _) as [[]].
  - unfold inviteRegisterOptions, find_invite. case_bool_decide; [done|].
    destruct (Invite_FindByToken _ _ _ _) as [[]]; [|done]. by destruct (negb _).
  - unfold inviteRegister. case_bool_decide; [done|]. pose proof (proj2 (find_invite_db w e token)) as Hi.
    destruct (find_invite w e token) as [[slot|] w0]; [|done]. take_challenge w0 e. case_bool_decide; [same_stepups|].
    destruct (VerifyRegistration _ _ _ _ _); [|same_stepups]. destruct (Invite_ConsumeIfTokenMatches _ _ _) as [used i].
    destruct (negb used); [same_stepups|]. destruct (insert_credential _ _ _ _ _ _) as [[]|]; same_stepups.
  - unfold LoginOptions, login_options. destruct (negb _); [done|]. by destruct (AllActiveCredentialIDs _).
  - apply VerifyLogin_stepups.
  - unfold ConsentOptions, login_options. destruct (negb _); [done|]. by destruct (ActiveCredentialIDs _ _).
  - unfold VerifyConsent. pose proof (VerifyLogin_stepups w e ch cid cred) as H.
    by destruct (Ceremonies.VerifyLogin _ _ _ _ _ _ _) as [[] w'].
  - unfold Ceremonies.label. case_bool_decide; [done|]. destruct (negb _); [done|]. destruct (negb _); [done|].
    destruct (negb _); [done|]. destruct (LabelConflict _ _ _ _); [done|]. by destruct (negb _).
  - apply gated_stepups. intros w'. unfold revoke, sign_out. destruct (revoke_checks _ _ _ _); [done|].
    destruct (negb _); [done|]. destruct inv; [|done]. by destruct (admin_up _ _).
  - by apply gated_stepups.
Qed.

Lemma run_history w rs : w_stepups (run w rs) = foldl stepup_exec (w_stepups w) (history w rs).
Proof.
  revert w. induction rs as [|r rs IH]; intros w; [done|]. cbn [Ceremonies.run foldl history].
  rewrite foldl_app, <- events_of_run. apply IH.
Qed.

(** A token minted in a history of requests, for an account and an action, no
    more than 90 seconds before. *)
Definition vouched (rs : list (env * request)) (now : Z) (token acc action : string) : Prop :=
  exists pre e body exp post, rs = pre ++ (e, RqStepUpVerify acc body) :: post /\
    fst (handle (run init pre) e (RqStepUpVerify acc body)) = StepUpMinted token exp action /\
    passkey_assertion (run init pre) e acc action /\ now < e_now e + 90 * second.

Lemma history_mint w rs t token acc action :
  EvMint t token acc action ∈ history w rs ->
  exists pre e body exp post, rs = pre ++ (e, RqStepUpVerify acc body) :: post /\ t = e_now e /\
    fst (handle (run w pre) e (RqStepUpVerify acc body)) = StepUpMinted token exp action.
Proof.
  revert w. induction rs as [|[e rq] rs IH]; intros w; [by intros ?%not_elem_of_nil|]. cbn [history].
  rewrite elem_of_app. intros [H|H].
  - exists [], e. unfold events_of in H. cbn [fst snd] in H.
    destruct rq; try (by apply not_elem_of_nil in H); try (by apply list_elem_of_singleton in H).
    destruct (fst (handle w e _)) eqn:Er; try (by apply not_elem_of_nil in H).
    apply list_elem_of_singleton in H. simplify_eq. by eexists _, _, rs.
  - destruct (IH _ H) as (pre & e' & body & exp & post & -> & -> & Hr). exists ((e, rq) :: pre), e', body, exp, post. done.
Qed.

(** A request that passes the gate is vouched for by a passkey. *)
Lemma passes_vouched rs e action acc token :
  passes (run init rs) e action acc token -> vouched rs (e_now e) token acc action.
Proof.
  clear start_wf start_counters. unfold passes. destruct (RequireStepUp _ _ _ _ _) as [g s'] eqn:Hg. cbn [fst]. intros ->.
  rewrite run_history in Hg. apply RequireStepUp_forwarded in Hg as (acc' & exp & [= <-] & _ & Hc).
  rewrite stepup_run_calls in Hc. apply trun_consume in Hc as (x & Hlt & Hex); [|apply New_wf|reflexivity].
  apply explained_mint in Hex as (pre & t & a & act & post & Hh & Hv & -> & _). injection Hv as <- <- _.
  destruct (history_mint init rs t token acc action) as (p & e' & body & ex & po & Hrs & -> & Hr).
  { rewrite Hh. set_solver. }
  exists p, e', body, ex, po. split; [done|]. split; [done|]. split; [|exact Hlt].
  cbn [Ceremonies.handle] in Hr. pose proof (stepUpVerify_minted (run init p) e' acc body) as Hm.
  destruct (stepUpVerify _ _ _ _ _ _) as [[] w']; cbn [fst] in Hr; try done. injection Hr as <- _ <-. apply Hm.
Qed.

(** ** How a passkey becomes active *)

(** The first passkey, or one for an account of its own. *)
Definition by_self_registration (w : WA) (rq : request) (r : CredentialRow) : Prop :=
  (exists body, rq = RqSelfRegister body) /\ (SelfRegEnabled = true \/ creds (w_db w) = []) /\
  (creds (w_db w) = [] \/ find_account (w_db w) (AccountID r) = None).

Definition newly_active (db db' : DB) (r : CredentialRow) : Prop :=
  r ∈ creds db' /\ active r = true /\ forall x, x ∈ creds db -> ID x = ID r -> active x = false.

Lemma update_newly_active p f db r :
  keeps f -> newly_active db (update_rows p f db) r ->
  exists x, x ∈ creds db /\ p x = true /\ r = f x /\ active x = false.
Proof.
  intros Hk ((x & Hx & Hr)%update_rows_elem & Ha & Hno). destruct (p x) eqn:Hp.
  - exists x. split_and!; try done. apply Hno; [done|]. rewrite Hr. symmetry. apply Hk.
  - subst r. rewrite (Hno x Hx eq_refl) in Ha. done.
Qed.

Lemma snoc_newly_active db db' row r : creds db' = creds db ++ [row] -> newly_active db db' r -> r = row.
Proof.
  intros He (Hr & Ha & Hno). rewrite He, elem_of_app, list_elem_of_singleton in Hr. destruct Hr as [Hr|]; [|done].
  by rewrite (Hno r Hr eq_refl) in Ha.
Qed.

Lemma effect_activates e rq w d r :
  effect e rq w d -> table_wf (w_db w) -> newly_active (w_db w) d r ->
  by_self_registration w rq r \/
  (exists token body, rq = RqRegister (AccountID r) token body /\ passes w e ActionRegisterPasskey (AccountID r) token) \/
  (exists token, rq = RqConfirm (AccountID r) token (ID r) /\ passes w e ActionConfirmPasskey (AccountID r) token).
Proof.
  intros He Hwf. destruct He as [|t stored n Hin Ha Hn|answers t body p res d' -> Hreg _ Hs|t acc tok body dec id ins d' -> _ Hp Hi
    |t tok ch cred slot dec id ins d' -> _ Hi|acc tok id cred -> Hp Hf Hr|acc id l new _ _ _|acc tok id inv _ _ _]; intros Hnew.
  - destruct Hnew as (Hr & Ha & Hno). by rewrite (Hno r Hr eq_refl) in Ha.
  - apply update_newly_active in Hnew as Hx; [|done]. destruct Hx as (x & Hx & _ & -> & Hax).
    destruct Hnew as (_ & Hact & _). unfold active in *. cbn in Hact. congruence.
  - left. apply SelfRegister_spec in Hs as (db0 & ins & Hc0 & Hwf0 & Hi & Hen & Hacc); [|done].
    apply Insert_wf in Hi as (_ & row & He & _ & _ & _ & Hacc' & _); [|done]. rewrite Hc0 in He.
    apply (snoc_newly_active _ _ row) in Hnew; [|done]. subst r. split; [eauto|]. rewrite <- Hreg, Hacc'. done.
  - right. left. apply Insert_wf in Hi as (_ & row & He & _ & _ & _ & Hacc & _); [|done].
    apply (snoc_newly_active _ _ row) in Hnew; [|done]. subst r. rewrite Hacc. eauto.
  - exfalso. apply Insert_wf in Hi as (_ & row & He & _ & _ & _ & _ & Hst & _); [|done].
    pose proof Hnew as (_ & Ha & _). apply (snoc_newly_active _ _ row) in Hnew; [|done]. subst r.
    unfold active in Ha. rewrite Hst in Ha. by destruct (negb _).
  - right. right. apply update_newly_active in Hnew; [|done]. destruct Hnew as (x & Hx & Hid & -> & _).
    apply bool_decide_eq_true in Hid. unfold FindForAccount in Hf. apply find_some in Hf as [Hc Hb].
    apply andb_true_iff in Hb as [Hb1 Hb2]. apply bool_decide_eq_true in Hb1, Hb2.
    assert (cred = x) as -> by (eapply row_unique; [done|by apply list_elem_of_In|done|congruence]).
    cbn [set_state AccountID ID]. subst acc id. eauto.
  - apply update_newly_active in Hnew as Hx; [|done]. destruct Hx as (x & Hx & _ & -> & Hax).
    destruct Hnew as (_ & Hact & _). unfold active in *. cbn in Hact. congruence.
  - apply update_newly_active in Hnew as Hx; [|done]. destruct Hx as (x & Hx & _ & -> & Hax).
    destruct Hnew as (_ & Hact & _). unfold active in Hact. cbn in Hact. done.
Qed.

(** (C8) A passkey can be used only if a person let it in: in any sequence of
    requests, from any database that respects its constraints, the credential that a request turns active is the very first one,
    or it belongs to an account created with it by an open self-registration,
    or the request carried a step-up token that, within the last 90 seconds, an
    active passkey of the same account was used to obtain for that very action.
    An invite alone never activates anything. *)
Theorem activation_needs_passkey (rs : list (env * request)) (e : env) (rq : request) (r : CredentialRow)
  (Hnew : newly_active (w_db (run init rs)) (w_db (step (run init rs) (e, rq))) r) :
  by_self_registration (run init rs) rq r \/
  exists token,
    (exists body, rq = RqRegister (AccountID r) token body /\ vouched rs (e_now e) token (AccountID r) ActionRegisterPasskey) \/
    (rq = RqConfirm (AccountID r) token (ID r) /\ vouched rs (e_now e) token (AccountID r) ActionConfirmPasskey).
Proof using start_wf start_counters.
  destruct (reached_ok rs) as [Hwf _].
  destruct (effect_activates e rq _ _ r (handle_effect _ e rq) Hwf Hnew) as [H|[(token & body & -> & Hp)|(token & -> & Hp)]].
  - by left.
  - right. exists token. left. exists body. split; [done|]. by apply passes_vouched.
  - right. exists token. right. split; [done|]. by apply passes_vouched.
Qed.

(** The life of a credential row, over any sequence of requests: it is
    never deleted, its identity, owner and keys never change, its signature
    counter never goes down, a confirmed passkey never becomes pending again and
    a revoked one stays revoked; ids and credential ids stay unique and no two
    rows of an account share a label. *)
Theorem credential_lifecycle (rs1 rs2 : list (env * request)) :
  table_wf (w_db (run init rs1)) /\
  forall r, r ∈ creds (w_db (run init rs1)) ->
    exists r', r' ∈ creds (w_db (run init (rs1 ++ rs2))) /\ later r r' /\
      forall x, x ∈ creds (w_db (run init (rs1 ++ rs2))) -> ID x = ID r -> x = r'.
Proof using start_wf start_counters.
  destruct (reached_ok rs1) as [Hwf Hc]. split; [done|]. intros r Hr.
  destruct (run_progress (run init rs1) rs2 Hwf Hc) as (Hwf2 & _ & Hp).
  assert (run init (rs1 ++ rs2) = run (run init rs1) rs2) as -> by (unfold Ceremonies.run; apply foldl_app).
  destruct (Hp r Hr) as (r' & Hr' & Hl). exists r'. split; [done|]. split; [done|]. intros x Hx Hid.
  eapply row_unique; [done|done|done|]. destruct Hl as (Hl & _). congruence.
Qed.

(** ** Logins *)

Notation challenge_call := (tcall string challengeEntry).

(** The call a request makes to the challenge store, if it makes one: what it
    stores is what its reply offers. *)
Definition offered (e : env) (rq : request) (o : reply) : option challenge_call :=
  let put p := Some (TPut (e_now e) (rn_id e) (mkChallenge (rn_challenge e) p)) in
  match o, rq with
  | RegOptions _, RqSelfOptions _ => put PurposeSelfRegister
  | RegOptions _, RqRegisterOptions _ _ _ => put PurposeRegisterInAccount
  | RegOptions _, RqInviteOptions _ => put PurposeRegisterInvite
  | AuthOptions _, RqStepUpOptions _ action => put (purpose_of action)
  | AuthOptions _, RqLoginOptions | AuthOptions _, RqConsentOptions _ => put PurposeLogin
  | _, _ => None
  end.

(** A call explained by a request: a stored challenge is one it offered. *)
Definition call_of (w : WA) (r : env * request) (c : challenge_call) : Prop :=
  match c with
  | TTake _ _ => True
  | TPut _ _ _ => offered (fst r) (snd r) (fst (handle w (fst r) (snd r))) = Some c
  end.

Definition challenge_step (w : WA) (r : env * request) (w' : WA) : Prop :=
  exists cs, w_challenges w' = foldl trun1 (w_challenges w) cs /\ Forall (call_of w r) cs.

Lemma no_challenge w r w' : w_challenges w' = w_challenges w -> challenge_step w r w'.
Proof. unfold challenge_step. intros ->. by exists []. Qed.

Lemma one_take w r w' e id p :
  w_challenges w' = w_challenges (snd (take_challenge w e id p)) -> challenge_step w r w'.
Proof.
  unfold challenge_step. intros ->. exists [TTake (e_now e) id]. split; [|by constructor]. unfold take_challenge, ChallengeStore_Consume.
  cbn [foldl trun1]. destruct (ts_consume _ _ _) as [[x|] s]; [|done]. by destruct (negb _).
Qed.

Lemma one_put w r w' (c : challenge_call) :
  w_challenges w' = trun1 (w_challenges w) c -> call_of w r c -> challenge_step w r w'.
Proof. unfold challenge_step. intros -> Hc. exists [c]. by split; [|constructor]. Qed.

Lemma one_offer w w0 e rq w' p :
  w_challenges w0 = w_challenges w -> w_challenges w' = w_challenges (store_challenge w0 e p) ->
  offered e rq (fst (handle w e rq)) = Some (TPut (e_now e) (rn_id e) (mkChallenge (rn_challenge e) p)) ->
  challenge_step w (e, rq) w'.
Proof. intros Hw Hp Ho. apply (one_put _ _ _ (TPut (e_now e) (rn_id e) (mkChallenge (rn_challenge e) p))); [|exact Ho]. rewrite Hp. unfold store_challenge. cbn [with_challenges w_challenges trun1]. by rewrite Hw. Qed.

Lemma gated_challenges action w e acc token next r :
  (forall w', w_challenges w' = w_challenges w -> challenge_step w r (snd (next w'))) ->
  challenge_step w r (snd (gated action w e acc token next)).
Proof.
  intros Hn. unfold gated. destruct (RequireStepUp _ _ _ _ _) as [[|] s]; cbn [snd]; [by apply Hn|by apply no_challenge].
Qed.

Lemma VerifyLogin_challenges w r e ch cid cred : challenge_step w r (snd (VerifyLogin protocol_get ISO w e ch cid cred)).
Proof.
  eapply (one_take _ _ _ e ch PurposeLogin). unfold Ceremonies.VerifyLogin. destruct (take_challenge w e ch PurposeLogin) as [c w1].
  cbn [snd]. case_bool_decide; [done|]. destruct (find_credential _ _ _) as [stored|]; [|done]. destruct (Revoked stored); [done|].
  destruct (negb (bool_decide _)); [done|]. destruct (VerifyAssertion _ _ _ _ _); [|done]. by destruct (negb _).
Qed.

Lemma selfRegister_challenges w r e body :
  challenge_step w r (snd (selfRegister aaguidNames protocol_create CoseToAuthorizedKeys ISO SelfRegEnabled w e body)).
Proof.
  unfold selfRegister. destruct (self_registration_closed _ _ _); [by apply no_challenge|]. destruct body as [b|]; [|by apply no_challenge].
  destruct (_ || _); [by apply no_challenge|]. eapply (one_take _ _ _ e (vb_ChallengeID b) PurposeSelfRegister).
  destruct (take_challenge _ _ _ _) as [c w1]. cbn [snd]. case_bool_decide; [done|].
  destruct (VerifyRegistration _ _ _ _ _); [|done]. destruct (up e QInsert); [|done]. by destruct (SelfRegister _ _ _ _) as [[[]]|].
Qed.

Lemma inAccountRegister_challenges w w' r e acc body :
  w_challenges w' = w_challenges w ->
  challenge_step w r (snd (inAccountRegister aaguidNames protocol_create CoseToAuthorizedKeys ISO w' e acc body)).
Proof.
  intros Hw. unfold inAccountRegister. destruct body as [b|]; [|by apply no_challenge].
  eapply (one_take _ _ _ e (vb_ChallengeID b) PurposeRegisterInAccount). unfold take_challenge. rewrite Hw.
  destruct (ChallengeStore_Consume _ _ _ _) as [c s]. cbn [snd]. case_bool_decide; [done|].
  destruct (VerifyRegistration _ _ _ _ _); [|done]. by destruct (insert_credential _ _ _ _ _ _) as [[]|].
Qed.

Lemma stepUpVerify_challenges w r e acc body : challenge_step w r (snd (stepUpVerify protocol_get ISO w e acc body)).
Proof.
  unfold stepUpVerify. destruct body as [b|]; [|by apply no_challenge]. destruct (negb (IsStepUpAction _)); [by apply no_challenge|].
  eapply (one_take _ _ _ e (ab_ChallengeID b) (purpose_of (ab_Action b))).
  destruct (take_challenge _ _ _ _) as [c w1]. cbn [snd]. case_bool_decide; [done|].
  destruct (find_credential _ _ _) as [stored|]; [|done]. destruct (_ || _); [done|].
  destruct (VerifyAssertion _ _ _ _ _); [|done]. destruct (negb (up e QCounter)); [done|].
  by destruct (StepUpStore_Mint _ _ _ _ _).
Qed.

Lemma inviteRegister_challenges w r e token ch cred :
  challenge_step w r (snd (inviteRegister aaguidNames protocol_create CoseToAuthorizedKeys ISO w e token ch cred)).
Proof.
  unfold inviteRegister, find_invite. case_bool_decide; [by apply no_challenge|].
  destruct (Invite_FindByToken _ _ _ _) as [[slot|] i]; [|by apply no_challenge].
  eapply (one_take _ _ _ e ch PurposeRegisterInvite). unfold take_challenge. cbn [with_invites w_challenges].
  destruct (ChallengeStore_Consume _ _ _ _) as [c s]. cbn [snd]. case_bool_decide; [done|].
  destruct (VerifyRegistration _ _ _ _ _); [|done]. destruct (Invite_ConsumeIfTokenMatches _ _ _) as [used i'].
  destruct (negb used); [done|]. by destruct (insert_credential _ _ _ _ _ _) as [[]|].
Qed.

Lemma handle_challenges w r : challenge_step w r (step w r).
Proof.
  destruct r as [e rq]. unfold Ceremonies.step. cbn [fst snd].
  destruct rq as [|name|body|acc label name|acc token body|acc action|acc body|acc|acc|acc token id|token|token|token ch cred| |ch cid cred|acc|ch cid cred acc|acc id l|acc token id inv|acc token action] eqn:Er;
    cbn [Ceremonies.handle].
  - by apply no_challenge.
  - unfold selfRegisterOptions. destruct (self_registration_closed _ _ _) eqn:Ec; [by apply no_challenge|].
    eapply one_offer; [|reflexivity|]; [done|]. cbn [Ceremonies.handle]. unfold selfRegisterOptions. by rewrite Ec.
  - apply selfRegister_challenges.
  - unfold inAccountRegisterOptions. destruct (negb (up e QActive)) eqn:Ec; [by apply no_challenge|].
    eapply one_offer; [|reflexivity|]; [done|]. cbn [Ceremonies.handle]. unfold inAccountRegisterOptions. by rewrite Ec.
  - apply gated_challenges. intros. by apply inAccountRegister_challenges.
  - unfold stepUpOptions. destruct (negb (IsStepUpAction action)) eqn:E1; [by apply no_challenge|].
    destruct (negb (up e QActive)) eqn:E2; [by apply no_challenge|].
    destruct (ActiveCredentialIDs _ _) eqn:E3; [by apply no_challenge|].
    eapply one_offer; [|reflexivity|]; [done|]. cbn [Ceremonies.handle]. unfold stepUpOptions. by rewrite E1, E2, E3.
  - apply stepUpVerify_challenges.
  - by apply no_challenge.
  - unfold readInvite. by destruct (Invite_FindForAccount _ _ _) as [[]]; apply no_challenge.
  - apply gated_challenges. intros w' Hw. apply no_challenge. unfold confirmCredential. destruct (negb _); [done|].
    destruct (FindForAccount _ _ _) as [c|]; [|done]. destruct (Revoked c); [done|]. case_bool_decide; [done|]. by destruct (negb _).
  - unfold inviteByToken, find_invite. by destruct (Invite_FindByToken _ _ _ _) as [[]]; apply no_challenge.
  - unfold inviteRegisterOptions, find_invite. case_bool_decide as Ht; [by apply no_challenge|].
    destruct (Invite_FindByToken _ _ _ _) as [[slot|] i] eqn:Ei; [|by apply no_challenge].
    destruct (negb (up e QActive)) eqn:E2; [by apply no_challenge|].
    eapply one_offer; [|reflexivity|]; [done|]. cbn [Ceremonies.handle]. unfold inviteRegisterOptions, find_invite. by rewrite bool_decide_false, Ei, E2.
  - apply inviteRegister_challenges.
  - unfold LoginOptions, login_options. destruct (negb (up e QActive)) eqn:E2; [by apply no_challenge|].
    destruct (AllActiveCredentialIDs _) eqn:E3; [by apply no_challenge|].
    eapply one_offer; [|reflexivity|]; [done|]. cbn [Ceremonies.handle]. unfold LoginOptions, login_options. by rewrite E2, E3.
  - apply VerifyLogin_challenges.
  - unfold ConsentOptions, login_options. destruct (negb (up e QActive)) eqn:E2; [by apply no_challenge|].
    destruct (ActiveCredentialIDs _ _) eqn:E3; [by apply no_challenge|].
    eapply one_offer; [|reflexivity|]; [done|]. cbn [Ceremonies.handle]. unfold ConsentOptions, login_options. by rewrite E2, E3.
  - unfold VerifyConsent. pose proof (VerifyLogin_challenges w (e, rq) e ch cid cred) as H. subst rq.
    by destruct (Ceremonies.VerifyLogin _ _ _ _ _ _ _) as [[] w'].
  - apply no_challenge. unfold Ceremonies.label. case_bool_decide; [done|]. destruct (negb _); [done|]. destruct (negb _); [done|].
    destruct (negb _); [done|]. destruct (LabelConflict _ _ _ _); [done|]. by destruct (negb _).
  - apply gated_challenges. intros w' Hw. apply no_challenge. unfold revoke, sign_out. destruct (revoke_checks _ _ _ _); [done|].
    destruct (negb _); [done|]. destruct inv; [|done]. by destruct (admin_up _ _).
  - apply gated_challenges. intros w' Hw. by apply no_challenge.
Qed.

Lemma run_challenges w rs :
  exists cs, w_challenges (run w rs) = foldl trun1 (w_challenges w) cs /\
    forall c, c ∈ cs -> exists pre r post, rs = pre ++ r :: post /\ call_of (run w pre) r c.
Proof.
  revert w. induction rs as [|r rs IH]; intros w; [exists []; split; [done|by intros ? ?%not_elem_of_nil]|].
  destruct (handle_challenges w r) as (c1 & H1 & F1). destruct (IH (step w r)) as (c2 & H2 & F2).
  exists (c1 ++ c2). rewrite foldl_app, <- H1, <- H2. split; [done|]. intros c [Hc|Hc]%elem_of_app.
  - exists [], r, rs. split; [done|]. by eapply Forall_forall in F1.
  - destruct (F2 c Hc) as (pre & r' & post & -> & H). by exists (r :: pre), r', post.
Qed.

Lemma purpose_of_login action : purpose_of action <> PurposeLogin.
Proof.
  unfold purpose_of. destruct (ActionToPurpose !! action) as [p|] eqn:E; [|done]. cbn. revert action p E.
  change (map_Forall (fun _ p => p <> PurposeLogin) ActionToPurpose). apply (bool_decide_unpack _). by vm_compute.
Qed.

(** A challenge that some earlier request offered for a login. *)
Definition login_challenge (rs : list (env * request)) (now : Z) (id challenge : string) : Prop :=
  exists pre e rq post, rs = pre ++ (e, rq) :: post /\
    match rq with RqLoginOptions | RqConsentOptions _ => True | _ => False end /\
    rn_id e = id /\ rn_challenge e = challenge /\ now < e_now e + 5 * minute.

Lemma consumed_login_challenge rs now id challenge s :
  ChallengeStore_Consume (w_challenges (run init rs)) now id PurposeLogin = (challenge, s) -> challenge <> EmptyString ->
  login_challenge rs now id challenge.
Proof.
  clear start_wf start_counters. intros Hc Hne. destruct (run_challenges init rs) as (cs & Hcs & Hall). rewrite Hcs in Hc.
  destruct (challenge_explained NewChallengeStore cs now id PurposeLogin) as (pre & t & post & Heq & Hlt & _);
    [apply New_wf|reflexivity|reflexivity|change NewChallengeStore with (w_challenges init); by rewrite Hc|].
  change NewChallengeStore with (w_challenges init) in Heq. rewrite Hc in Heq. cbn [fst] in Heq.
  destruct (Hall (TPut t id (mkChallenge challenge PurposeLogin))) as (p & [e rq] & q & Hrs & Hcall); [rewrite Heq; set_solver|].
  exists p, e, rq, q. split; [done|]. cbn [call_of fst snd] in Hcall. unfold offered in Hcall.
  destruct (fst (handle (run init p) e rq)); try done; destruct rq; try done; simplify_eq; try done.
  exfalso. by eapply purpose_of_login.
Qed.

Lemma VerifyLogin_LoggedIn w e ch cid cred acc :
  fst (VerifyLogin protocol_get ISO w e ch cid cred) = LoggedIn acc ->
  exists challenge s stored n,
    ChallengeStore_Consume (w_challenges w) (e_now e) ch PurposeLogin = (challenge, s) /\ challenge <> EmptyString /\
    stored ∈ creds (w_db w) /\ CredentialID stored = cid /\ AccountID stored = acc /\ active stored = true /\
    VerifyAssertion protocol_get cred challenge (PublicKeyCOSE stored) (wrapu32 (Counter stored)) = inl n /\
    snd (VerifyLogin protocol_get ISO w e ch cid cred) =
      with_db (with_challenges w s) (UpdateCounter (w_db w) (ISO (e_now e)) (ID stored) n).
Proof.
  unfold Ceremonies.VerifyLogin, take_challenge. destruct (ChallengeStore_Consume _ _ _ _) as [challenge s].
  case_bool_decide as Hne; [done|]. destruct (find_credential _ _ _) as [stored|] eqn:Hf; [|done].
  destruct (Revoked stored) eqn:Hr; [done|]. case_bool_decide as Hs; cbn [negb]; [|done].
  destruct (VerifyAssertion _ _ _ _ _) as [n|] eqn:Hv; [|done]. destruct (negb (up e QCounter)); [done|].
  intros [= <-]. apply find_credential_elem in Hf as [Hin Hcid]. exists challenge, s, stored, n.
  split_and!; try done. unfold active. rewrite Hr. by apply bool_decide_eq_true.
Qed.

(** A challenge that was taken is gone. *)
Lemma consumed_again {S1} `{!TTLStore string challengeEntry S1} (s s' : S1) now now' id p c :
  ts_inv s -> ChallengeStore_Consume s now id p = (c, s') -> fst (ChallengeStore_Consume s' now' id p) = EmptyString.
Proof.
  intros Hinv Hc. assert (s' = snd (ts_consume s now id)) as ->.
  { unfold ChallengeStore_Consume in Hc. destruct (ts_consume s now id) as [[x|] t]; [destruct (negb _)|]; by simplify_eq. }
  unfold ChallengeStore_Consume. pose proof (ts_consume_result (snd (ts_consume s now id)) now' id) as Hr.
  rewrite ts_consume_abs, lookup_delete_eq in Hr by done.
  destruct (ts_consume _ now' id) as [x t]. cbn [fst] in Hr.
  rewrite Hr; [done|]. by apply ts_consume_inv.
Qed.

Lemma challenges_inv rs : ts_inv (w_challenges (run init rs)).
Proof.
  destruct (run_challenges init rs) as (cs & -> & _). eapply (trun_explained (w_challenges init)); [apply New_wf|reflexivity].
Qed.

(** (C19) A login proves possession of a passkey: the account named in the reply
    owns an active, unrevoked credential of the presented id, the response was
    verified under that credential's key against a challenge that one of the
    requests before offered for a login less than five minutes ago, and the
    signature counter moved forward (or is not in use). The challenge is spent:
    presenting it again fails, whatever the credential. *)
Theorem login_sound (rs : list (env * request)) (e : env) (ch cid cred acc : string)
  (Hin : fst (handle (run init rs) e (RqLogin ch cid cred)) = LoggedIn acc) :
  (exists challenge stored counter,
    login_challenge rs (e_now e) ch challenge /\
    stored ∈ creds (w_db (run init rs)) /\ CredentialID stored = cid /\ AccountID stored = acc /\ active stored = true /\
    protocol_get cred challenge (PublicKeyCOSE stored) = inl counter /\
    (Counter stored < wrapu32 counter \/ wrapu32 counter = 0 /\ Counter stored = 0)) /\
  forall e' cid' cred', exists message,
    fst (handle (step (run init rs) (e, RqLogin ch cid cred)) e' (RqLogin ch cid' cred')) = Fail 400 message.
Proof using start_wf start_counters.
  cbn [Ceremonies.handle] in Hin. apply VerifyLogin_LoggedIn in Hin as (challenge & s & stored & n & Hc & Hne & Hst & Hcid & Hacc & Ha & Hv & Hw).
  destruct (reached_ok rs) as [_ Hcnt]. pose proof (Hcnt stored Hst) as Hrange.
  assert (wrapu32 (Counter stored) = Counter stored) as Hwrap by (unfold wrapu32; apply Z.mod_small; lia).
  rewrite Hwrap in Hv. apply VerifyAssertion_counter in Hv as (c & Hp & -> & Hn); [|lia]. split.
  - exists challenge, stored, c. split_and!; try done. by eapply consumed_login_challenge.
  - intros e' cid' cred'. exists "Challenge expired or not found"%string. unfold Ceremonies.step. cbn [fst snd Ceremonies.handle].
    rewrite Hw. unfold Ceremonies.VerifyLogin, take_challenge. cbn [with_db with_challenges w_challenges].
    pose proof (consumed_again _ _ _ (e_now e') _ _ _ (challenges_inv rs) Hc) as Hgone.
    destruct (ChallengeStore_Consume s _ _ _) as [c' s']. cbn [fst] in Hgone. by rewrite Hgone.
Qed.

(** ** The last passkey *)

Lemma ActiveCount_pos db acc : 0 < ActiveCount db acc <-> exists r, r ∈ creds db /\ AccountID r = acc /\ active r = true.
Proof.
  unfold ActiveCount. split.
  - destruct (List.filter _ _) as [|r l] eqn:E; [cbn; lia|]. intros _. exists r.
    assert (In r (List.filter (fun r => of_account acc r && active r) (creds db))) as [Hin Hb]%filter_In by (rewrite E; by left).
    apply andb_true_iff in Hb as [Ha ?]. apply bool_decide_eq_true in Ha. by rewrite list_elem_of_In.
  - intros (r & Hr & Ha & Hact).
    assert (In r (List.filter (fun r => of_account acc r && active r) (creds db))) as Hin.
    { apply filter_In. rewrite <- list_elem_of_In. split; [done|]. unfold of_account. by rewrite bool_decide_true. }
    destruct (List.filter _ _); [done|cbn; lia].
Qed.

(** Of two active passkeys one is not the given row. *)
Lemma ActiveCount_two db acc id :
  table_wf db -> 1 < ActiveCount db acc -> exists r, r ∈ creds db /\ AccountID r = acc /\ active r = true /\ ID r <> id.
Proof.
  intros Hwf Hc. pose proof (wf_ids db Hwf) as Hnd. unfold ActiveCount in Hc.
  set (p := fun r => of_account acc r && active r) in *.
  destruct (List.filter p (creds db)) as [|x [|y l]] eqn:E; [cbn in Hc; lia|cbn in Hc; lia|].
  assert (forall r, In r (x :: y :: l) -> r ∈ creds db /\ AccountID r = acc /\ active r = true) as Hin.
  { rewrite <- E. intros r [Hr Hb]%filter_In. apply andb_true_iff in Hb as [Ha ?]. apply bool_decide_eq_true in Ha.
    by rewrite list_elem_of_In. }
  assert (ID x <> ID y) as Hne.
  { intros Heq. assert (List.NoDup (x :: y :: l)) as Hd.
    { rewrite <- E. apply List.NoDup_filter. apply (NoDup_map_inv ID). by apply NoDup_ListNoDup. }
    inversion Hd as [|? ? Hx _]. apply Hx. left. symmetry. eapply row_unique; [done|apply Hin..|done]; cbn; auto. }
  destruct (decide (ID x = id)) as [<-|Hx].
  - exists y. destruct (Hin y) as (? & ? & ?); [cbn; auto|]. auto.
  - exists x. destruct (Hin x) as (? & ? & ?); [cbn; auto|]. auto.
Qed.

Lemma progress_keeps_active db db' r acc :
  r ∈ creds db -> AccountID r = acc -> active r = true ->
  (exists r', r' ∈ creds db' /\ later r r' /\ Revoked r' = false) -> 0 < ActiveCount db' acc.
Proof.
  intros Hr Ha Hact (r' & Hr' & (Hid & _ & _ & _ & Hst) & Hrev). apply ActiveCount_pos. exists r'. split; [done|].
  injection Hid as _ -> _ _. split; [done|]. unfold active in *. rewrite Hrev.
  apply andb_true_iff in Hact as [_ Hs]. apply bool_decide_eq_true in Hs. by apply bool_decide_eq_true, Hst.
Qed.

(** A row the request does not revoke keeps its account served. *)
Lemma effect_not_revoked e rq w d r :
  effect e rq w d -> table_wf (w_db w) -> counters_ok (w_db w) -> r ∈ creds (w_db w) -> Revoked r = false ->
  (forall acc token id inv, rq = RqRevoke acc token id inv -> revoke_checks (w_db w) e acc id = None -> ID r <> id) ->
  exists r', r' ∈ creds d /\ later r r' /\ Revoked r' = false.
Proof using aaguidNames protocol_create protocol_get CoseToAuthorizedKeys ISO SelfRegEnabled.
  clear start_wf start_counters. intros He Hwf Hc Hr Hrev Hno.
  destruct (effect_step _ _ _ _ He Hwf Hc) as (Hwf' & _ & Hp). destruct (Hp r Hr) as (r' & Hr' & Hl).
  exists r'. split; [done|]. split; [done|]. pose proof Hl as (Hid & _). injection Hid as Hid _ _ _.
  assert (forall x, x ∈ creds d -> ID x = ID r -> Revoked x = false -> Revoked r' = false) as Hsame.
  { intros x Hx Hxid <-. f_equal. eapply row_unique; [done..|congruence]. }
  destruct He as [|t stored n Hin Ha Hn|answers t body p res d' -> Hreg Hd Hs|t acc tok body dec id ins d' -> Hd _ Hi
    |t tok ch cred slot dec id ins d' -> Hd Hi|acc tok id cred -> _ Hf Hrv|acc id l new -> Hl' _|acc tok id inv -> _ Hchk].
  - by apply (Hsame r).
  - apply update_rows_elem in Hr' as (x & Hx & ->). destruct (has_id _ x); cbn in *; by rewrite (row_unique _ x r Hwf Hx Hr Hid).
  - apply SelfRegister_spec in Hs as (db0 & ins & Hc0 & Hwf0 & Hi & _); [|done].
    apply Insert_wf in Hi as (_ & row & He & _); [|done]. apply (Hsame r); [rewrite He, Hc0; set_solver|done..].
  - apply Insert_wf in Hi as (_ & row & He & _); [|done]. apply (Hsame r); [rewrite He; set_solver|done..].
  - apply Insert_wf in Hi as (_ & row & He & _); [|done]. apply (Hsame r); [rewrite He; set_solver|done..].
  - apply update_rows_elem in Hr' as (x & Hx & ->). destruct (has_id _ x); cbn in *; by rewrite (row_unique _ x r Hwf Hx Hr Hid).
  - apply update_rows_elem in Hr' as (x & Hx & ->). destruct (has_id _ x && _); cbn in *; by rewrite (row_unique _ x r Hwf Hx Hr Hid).
  - apply update_rows_elem in Hr' as (x & Hx & ->). destruct (has_id id x) eqn:Eid; cbn in *.
    + apply bool_decide_eq_true in Eid. destruct (Hno acc tok id inv eq_refl Hchk). congruence.
    + by rewrite (row_unique _ x r Hwf Hx Hr Hid).
Qed.

Lemma revoke_checks_None db e acc id :
  revoke_checks db e acc id = None ->
  exists target, target ∈ creds db /\ ID target = id /\ AccountID target = acc /\
    (active target = true -> 1 < ActiveCount db acc).
Proof.
  unfold revoke_checks. destruct (negb _); [done|]. destruct (List.find _ _) as [target|] eqn:Hf; [|done].
  apply find_some in Hf as [Hin Hid]. apply filter_In in Hin as [Hin Hacc]. apply bool_decide_eq_true in Hid, Hacc.
  destruct (Revoked target) eqn:Hr; [done|]. intros H. exists target. split; [by apply list_elem_of_In|]. split; [done|]. split; [done|].
  unfold active. rewrite Hr. cbn [negb andb]. intros Hs. rewrite Hs in H. revert H. destruct (negb _); [done|].
  destruct (_ <=? 1) eqn:E; [done|]. bool_to_prop. lia.
Qed.

Lemma effect_keeps_active e rq w acc d :
  effect e rq w d -> table_wf (w_db w) -> counters_ok (w_db w) -> 0 < ActiveCount (w_db w) acc -> 0 < ActiveCount d acc.
Proof using aaguidNames protocol_create protocol_get CoseToAuthorizedKeys ISO SelfRegEnabled.
  clear start_wf start_counters. intros He Hwf Hc Hpos.
  assert (exists r, r ∈ creds (w_db w) /\ AccountID r = acc /\ active r = true /\
    forall a token id inv, rq = RqRevoke a token id inv -> revoke_checks (w_db w) e a id = None -> ID r <> id) as (r & Hr & Ha & Hact & Hno).
  { apply ActiveCount_pos in Hpos as (r & Hr & Ha & Hact). destruct rq as [| | | | | | | | | | | | | | | | | |acc' tok id inv|];
      try (by exists r).
    destruct (revoke_checks (w_db w) e acc' id) eqn:Hchk; [exists r; split_and!; try done; intros; simplify_eq; congruence|].
    apply revoke_checks_None in Hchk as (target & Hin & Hid & Hacc & Htwo). destruct (decide (ID r = id)) as [Heq|Hne].
    - assert (target = r) as -> by (eapply row_unique; [done..|congruence]).
      destruct (ActiveCount_two (w_db w) acc id) as (x & Hx & ? & ? & ?); [done|rewrite <- Ha, Hacc; by apply Htwo|].
      exists x. split_and!; try done. intros. by simplify_eq.
    - exists r. split_and!; try done. intros. by simplify_eq. }
  eapply progress_keeps_active; [exact Hr|done|done|]. eapply effect_not_revoked; [done..| |done].
  unfold active in Hact. by destruct (Revoked r).
Qed.

(** A revocation never takes an account's last active passkey: after any
    request, an account that had an active passkey still has one. *)
Theorem active_passkey_remains (rs : list (env * request)) (e : env) (rq : request) (acc : string)
  (Hhas : 0 < ActiveCount (w_db (run init rs)) acc) :
  0 < ActiveCount (w_db (step (run init rs) (e, rq))) acc.
Proof using start_wf start_counters.
  destruct (reached_ok rs) as [Hwf Hc].
  eapply effect_keeps_active; [apply handle_effect|done|done|done].
Qed.

(** The guard reads before it writes: of two revocations whose checks both
    run before either update, each is allowed, and together they leave an
    account that had two active passkeys with none. *)
Theorem concurrent_revokes_lock_out (db : DB) (acc : string) (r1 r2 : CredentialRow) (e1 e2 : env)
  (Hwf : table_wf db) (Hcount : ActiveCount db acc = 2) (Hne : ID r1 <> ID r2)
  (H1 : r1 ∈ creds db /\ AccountID r1 = acc /\ active r1 = true) (H2 : r2 ∈ creds db /\ AccountID r2 = acc /\ active r2 = true)
  (Hup1 : up e1 QList = true /\ up e1 QCount = true) (Hup2 : up e2 QList = true /\ up e2 QCount = true) :
  revoke_checks db e1 acc (ID r1) = None /\ revoke_checks db e2 acc (ID r2) = None /\
  ActiveCount (Revoke (Revoke db (ID r1)) (ID r2)) acc = 0.
Proof.
  clear - Hwf Hcount Hne H1 H2 Hup1 Hup2.
  assert (forall e r, up e QList = true /\ up e QCount = true -> r ∈ creds db /\ AccountID r = acc /\ active r = true ->
    revoke_checks db e acc (ID r) = None) as Hchk.
  { intros e r [U1 U2] (Hin & Ha & Hact). unfold revoke_checks. rewrite U1. cbn [negb].
    destruct (List.find (has_id (ID r)) _) as [x|] eqn:Hf.
    - apply find_some in Hf as [Hx Hid]. apply filter_In in Hx as [Hx _]. apply bool_decide_eq_true in Hid.
      assert (x = r) as -> by (eapply row_unique; [done|by apply list_elem_of_In|done|done]).
      apply andb_true_iff in Hact as [Hr Hs]. apply negb_true_iff in Hr. rewrite Hr, Hs, U2, Hcount. done.
    - exfalso. eapply find_none in Hf; [|apply filter_In; split; [by apply list_elem_of_In|by apply bool_decide_eq_true]].
      unfold has_id in Hf. by rewrite bool_decide_true in Hf. }
  split; [by apply Hchk|]. split; [by apply Hchk|].
  enough (~ 0 < ActiveCount (Revoke (Revoke db (ID r1)) (ID r2)) acc) by (unfold ActiveCount in *; lia).
  intros (r & Hr & Ha & Hact)%ActiveCount_pos.
  apply update_rows_elem in Hr as (y & Hy & ->). apply update_rows_elem in Hy as (x & Hx & ->).
  destruct (has_id (ID r2) _) eqn:E2; [done|]. destruct (has_id (ID r1) x) eqn:E1; [done|].
  apply bool_decide_eq_false in E1, E2. unfold ActiveCount in Hcount.
  assert (forall r, r ∈ creds db /\ AccountID r = acc /\ active r = true ->
    In r (List.filter (fun r => of_account acc r && active r) (creds db))) as Hin.
  { intros r (? & ? & Hact'). apply filter_In. rewrite <- list_elem_of_In. split; [done|]. unfold of_account. rewrite Hact'. by rewrite bool_decide_true. }
  pose proof (Hin r1 H1) as I1. pose proof (Hin r2 H2) as I2. pose proof (Hin x (conj Hx (conj Ha Hact))) as I3.
  destruct (List.filter _ _) as [|a [|b [|]]]; cbn in Hcount; try lia. cbn in I1, I2, I3.
  intuition congruence.
Qed.

End Proofs.

(** ** Concrete runs *)

Definition ex_create (raw ch : string) : Registration + string :=
  if bool_decide (raw = ("attest:" ++ ch)%string) then inl (mkRegistration (bytes_of_string ch) "cose" 0 [] []) else inr "bad attestation"%string.
Definition ex_get (raw ch cose : string) : Z + string :=
  if bool_decide (raw = ("assert:" ++ cose ++ ":" ++ ch)%string) then inl (if bool_decide (ch = "x3"%string) then 9 else 12) else inr "bad assertion"%string.
Definition ex_env (now : Z) (id ch : string) : env := mkEnv now ch "user" id "acc-1" ("row-" ++ id) (fun _ => true) (fun _ => true) [].

(** What seeding leaves behind: an administrator without a passkey, whom the
    first registration adopts. *)
Definition ex_seeded : DB := mkDB [] [mkAccount "acc-1" "admin" 5] (Some "acc-1"%string).

Lemma ex_seeded_ok : table_wf ex_seeded /\ counters_ok ex_seeded.
Proof.
  split; [|by intros r ?%not_elem_of_nil]. split; cbn; [apply NoDup_nil_2|apply NoDup_nil_2| |].
  - by intros r1 r2 ?%not_elem_of_nil.
  - by intros r ?%not_elem_of_nil.
Qed.

Definition ex_run : list (env * request) :=
  [ (ex_env 1 "i1" "x1", RqSelfOptions "Ann");
    (ex_env 2 "i2" "x2", RqSelfRegister (Some (mkVerifyBody "Ann" "i1" "attest:x1")));
    (ex_env 3 "i3" "x3", RqStepUpOptions "acc-1" ActionRegisterPasskey);
    (ex_env 4 "i4" "tok", RqStepUpVerify "acc-1" (Some (mkAssertionBody "i3" "eDE" "assert:cose:x3" ActionRegisterPasskey)));
    (ex_env 5 "i5" "x5", RqRegisterOptions "acc-1" "Laptop" "");
    (ex_env 6 "i6" "x6", RqLoginOptions) ].

Abbreviation ex_handle := (handle (fun _ => None) ex_create ex_get (fun _ => ""%string) (fun _ => "now"%string) false).
Abbreviation ex_state := (run (fun _ => None) ex_create ex_get (fun _ => ""%string) (fun _ => "now"%string) false (init ex_seeded) ex_run).
Abbreviation ex_step := (step (fun _ => None) ex_create ex_get (fun _ => ""%string) (fun _ => "now"%string) false ex_state).

Definition ex_second : CredentialRow := mkRow "row-i7" "acc-1" "eDU" "cose" 0 [] "Passkey (2)" None "active" false "now" None.
Definition ex_register : request := RqRegister "acc-1" "tok" (Some (mkVerifyBody "" "i5" "attest:x5")).

Lemma activation_needs_passkey_witness :
  newly_active (w_db ex_state) (w_db (ex_step (ex_env 7 "i7" "x7", ex_register))) ex_second /\
  (by_self_registration false ex_state ex_register ex_second \/
   exists token,
    (exists body, ex_register = RqRegister (AccountID ex_second) token body /\
      vouched (fun _ => None) ex_create ex_get (fun _ => ""%string) (fun _ => "now"%string) false ex_seeded ex_run 7 token "acc-1" ActionRegisterPasskey) \/
    (ex_register = RqConfirm (AccountID ex_second) token (ID ex_second) /\
      vouched (fun _ => None) ex_create ex_get (fun _ => ""%string) (fun _ => "now"%string) false ex_seeded ex_run 7 token "acc-1" ActionConfirmPasskey)).
Proof.
  assert (newly_active (w_db ex_state) (w_db (ex_step (ex_env 7 "i7" "x7", ex_register))) ex_second) as H.
  { split; [apply list_elem_of_In; vm_compute; right; left; reflexivity|]. split; [vm_compute; reflexivity|].
    intros x Hx. apply list_elem_of_In in Hx. vm_compute in Hx. destruct Hx as [<-|[]]. vm_compute. discriminate. }
  split; [exact H|]. exact (activation_needs_passkey _ _ _ _ _ _ _ (proj1 ex_seeded_ok) (proj2 ex_seeded_ok) _ _ _ _ H).
Defined.

Lemma login_sound_witness :
  fst (ex_handle ex_state (ex_env 7 "i7" "x7") (RqLogin "i6" "eDE" "assert:cose:x6")) = LoggedIn "acc-1" /\
  exists challenge stored counter, login_challenge ex_run 7 "i6" challenge /\
    stored ∈ creds (w_db ex_state) /\ CredentialID stored = "eDE"%string /\ AccountID stored = "acc-1"%string /\ active stored = true /\
    ex_get "assert:cose:x6" challenge (PublicKeyCOSE stored) = inl counter /\
    (Counter stored < wrapu32 counter \/ wrapu32 counter = 0 /\ Counter stored = 0).
Proof.
  split; [vm_compute; reflexivity|].
  assert (fst (ex_handle ex_state (ex_env 7 "i7" "x7") (RqLogin "i6" "eDE" "assert:cose:x6")) = LoggedIn "acc-1") as H by (vm_compute; reflexivity).
  exact (proj1 (login_sound _ _ _ _ _ _ _ (proj1 ex_seeded_ok) (proj2 ex_seeded_ok) _ _ _ _ _ _ H)).
Defined.

Definition ex_first : CredentialRow := mkRow "row-i2" "acc-1" "eDE" "cose" 9 [] "Passkey" None "active" false "now" (Some "now"%string).

Lemma credential_lifecycle_witness :
  exists r', r' ∈ creds (w_db (ex_step (ex_env 7 "i7" "x7", ex_register))) /\ ID r' = "row-i2"%string /\ 9 <= Counter r'.
Proof.
  assert (ex_first ∈ creds (w_db ex_state)) as Hin by (apply list_elem_of_In; vm_compute; left; reflexivity).
  destruct (proj2 (credential_lifecycle (fun _ => None) ex_create ex_get (fun _ => ""%string) (fun _ => "now"%string) false ex_seeded
    (proj1 ex_seeded_ok) (proj2 ex_seeded_ok) ex_run [(ex_env 7 "i7" "x7", ex_register)]) ex_first Hin) as (r' & Hr' & (Hid & _ & Hc & _) & _).
  exists r'. split; [exact Hr'|]. split; [|exact Hc]. injection Hid as Hid _ _ _. exact Hid.
Defined.

Lemma active_passkey_remains_witness :
  0 < ActiveCount (w_db ex_state) "acc-1" /\ 0 < ActiveCount (w_db (ex_step (ex_env 7 "i7" "x7", ex_register))) "acc-1".
Proof.
  assert (0 < ActiveCount (w_db ex_state) "acc-1") as H by (vm_compute; reflexivity).
  split; [exact H|]. exact (active_passkey_remains _ _ _ _ _ _ _ (proj1 ex_seeded_ok) (proj2 ex_seeded_ok) _ _ _ _ H).
Defined.

Definition ex_pair : DB :=
  mkDB [ex_second; mkRow "row-2" "acc-1" "c2" "cose" 0 [] "Key" None "active" false "now" None]
    [mkAccount "acc-1" "Ann" 5] (Some "acc-1"%string).

Lemma concurrent_revokes_lock_out_witness :
  revoke_checks ex_pair (ex_env 1 "" "") "acc-1" "row-i7" = None /\ revoke_checks ex_pair (ex_env 1 "" "") "acc-1" "row-2" = None /\
  ActiveCount (Revoke (Revoke ex_pair "row-i7") "row-2") "acc-1" = 0.
Proof.
  apply (concurrent_revokes_lock_out ex_pair "acc-1" ex_second
    (mkRow "row-2" "acc-1" "c2" "cose" 0 [] "Key" None "active" false "now" None) (ex_env 1 "" "") (ex_env 1 "" "")).
  - split; cbn; [apply (bool_decide_unpack _); vm_compute; exact I|apply (bool_decide_unpack _); vm_compute; exact I| |].
    + intros r1 r2 H1 H2. apply list_elem_of_In in H1, H2. cbn in H1, H2.
      destruct H1 as [<-|[<-|[]]], H2 as [<-|[<-|[]]]; cbn; intros; congruence.
    + intros r Hr. apply list_elem_of_In in Hr. cbn in Hr. destruct Hr as [<-|[<-|[]]]; vm_compute; eexists; reflexivity.
  - reflexivity.
  - discriminate.
  - split; [apply list_elem_of_In; left; reflexivity|split; reflexivity].
  - split; [apply list_elem_of_In; right; left; reflexivity|split; reflexivity].
  - split; reflexivity.
  - split; reflexivity.
Defined.
