(* ===== verification/Providers.v ===== *)
(** * The login, consent and registration endpoints (internal/hydra/routes.go, discovery.go)

    The pages and JSON endpoints the authorization server sends a browser to,
    mediated client registration, and the discovery documents. A handler runs
    against an arbitrary admin API and the passkey ceremonies; a rendered page
    is what it shows. *)
From S2P Require Import Prelude GoStrings Ephemeral Tokens Url Cimd CimdFetch Hydra CimdResolver Passkeys Ceremonies CeremonyProofs.
From Stdlib Require Import Ascii.

Definition rememberFor : Z := 60 * 60 * 24 * 30.

Record ProviderParams := mkProvider {
  SPAClientID : string; SelfRegistrationEnabled : bool;
  pp_AllowedScopes : list string; pp_RedirectURIPatterns : list string; pp_AgentProxyEnabled : bool }.

Record clientIdentity := mkIdentity { id_Host : string; id_ClientURIHost : string; id_Recent : bool }.

(** What a handler answers. *)
Inductive answer :=
  | Redirect (target : string)
  | HTMLError (status : Z) (code description : string)
  | LoginPage (challenge description : string) (showButton : bool) (registerURL : string)
  | ApprovePage (challenge clientName : string) (scopes : list string) (identity : option clientIdentity)
  | PasskeyPage (challenge clientName : string) (scopes : list string) (identity : option clientIdentity)
  | APIFail (status : Z) (message : string)
  | OAuthFail (status : Z) (error description : string)
  | Options (o : authOptions)
  | RedirectTo (target : string)
  | Created (clientID : string) (issuedAt : Z) (redirectURIs : list string) (scope clientName : string).

Section Providers.
Context {W : Type} `{!Admin W}.
Variable ToLower : string -> string.
(** A compiled pattern, and Go's parser of timestamps (in nanoseconds). *)
Variable compile : string -> option matcher.
Variable parseTime : string -> option Z.
Variable protocol_get : string -> string -> string -> Z + string.
Variable ISO : Z -> string.


(** ** Identity of a client on the consent page *)

Definition hour : Z := 3600 * second.

Definition client_uri_host (host uri : string) : string :=
  let h := hostOf ToLower uri in
  if negb (bool_decide (h = EmptyString)) && negb (bool_decide (h = host)) then h else EmptyString.

(** The hint that a client is new or changed. *)
Definition recent (now : Z) (metadata : option json_object) : bool :=
  match default JNull ((fun m => json_field m "shellwatch") <$> metadata) with
  | JObject sw =>
      match parseTime (match json_field sw "fetched_at" with JString s => s | _ => EmptyString end) with
      | Some t => now - t <? hour
      | None => false
      end
  | _ => false
  end.

Definition cimdIdentity (w : W) (now : Z) (c : OAuth2Client) : option clientIdentity * W :=
  if negb (IsClientIDURL (oc_ClientID c)) then (None, w)
  else
    let host := hostOf ToLower (oc_ClientID c) in
    let uriHost := client_uri_host host (oc_ClientURI c) in
    match oc_Metadata c with
    | Some m => (Some (mkIdentity host uriHost (recent now (Some m))), w)
    | None =>
        match GetClient w (oc_ClientID c) with
        | (inl (Some full), w) =>
            let uriHost := if bool_decide (uriHost = EmptyString) then client_uri_host host (oc_ClientURI full) else uriHost in
            (Some (mkIdentity host uriHost (recent now (oc_Metadata full))), w)
        | (_, w) => (Some (mkIdentity host uriHost false), w)
        end
    end.

(** ** Pages *)

Definition accept_skip (subject : string) : AcceptLogin := mkAcceptLogin subject false 0 false.

(** [hasPasskeys] is the callback's answer, [None] when there is no callback. *)
Definition loginPage (w : W) (p : ProviderParams) (hasPasskeys : option bool) (challenge : string) : answer * W :=
  if bool_decide (challenge = EmptyString) then (HTMLError 400 "missing_login_challenge" "", w)
  else
    match GetLoginRequest w challenge with
    | (inr _, w) => (HTMLError 400 "invalid_login_challenge" "", w)
    | (inl lr, w) =>
        if lr_Skip lr then
          match AcceptLoginRequest w challenge (accept_skip (lr_Subject lr)) with
          | (inr _, w) => (HTMLError 400 "login_flow_expired" "", w)
          | (inl target, w) => (Redirect target, w)
          end
        else
          let passkeysExist := default true hasPasskeys in
          let canRegister := negb passkeysExist || SelfRegistrationEnabled p in
          let desc := if passkeysExist then "Authenticate with your passkey to continue."%string
                      else "No passkeys yet — create an account to get started."%string in
          (LoginPage challenge desc passkeysExist (if canRegister then "/register" else EmptyString), w)
    end.

Definition accept_consent (cr : ConsentRequest) : AcceptConsent :=
  mkAcceptConsent (cr_RequestedScope cr) (cr_RequestedAccessTokenAudience cr) true rememberFor.

Definition freshLogin (cr : ConsentRequest) : bool :=
  match json_field (cr_Context cr) "freshLogin" with JBool b => b | _ => false end.

Definition is_none {A} (o : option A) : bool := match o with None => true | Some _ => false end.

(** Clients that are approved without asking. *)
Definition auto_consent (p : ProviderParams) (cr : ConsentRequest) (identity : option clientIdentity) : bool :=
  bool_decide (oc_ClientID (cr_Client cr) = SPAClientID p) || cr_Skip cr && is_none identity.

Definition consentPage (w : W) (p : ProviderParams) (now : Z) (challenge : string) : answer * W :=
  if bool_decide (challenge = EmptyString) then (HTMLError 400 "missing_consent_challenge" "", w)
  else
    match GetConsentRequest w challenge with
    | (inr _, w) => (HTMLError 400 "invalid_consent_challenge" "", w)
    | (inl cr, w) =>
        let '(identity, w) := cimdIdentity w now (cr_Client cr) in
        if auto_consent p cr identity then
          match AcceptConsentRequest w challenge (accept_consent cr) with
          | (inr _, w) => (HTMLError 400 "consent_flow_expired" "", w)
          | (inl target, w) => (Redirect target, w)
          end
        else
          let clientName := oc_ClientName (cr_Client cr) in
          let clientName := if bool_decide (clientName = EmptyString) && is_none identity
                            then oc_ClientID (cr_Client cr) else clientName in
          if freshLogin cr then (ApprovePage challenge clientName (cr_RequestedScope cr) identity, w)
          else (PasskeyPage challenge clientName (cr_RequestedScope cr) identity, w)
    end.

Definition logoutPage (w : W) (challenge : string) : answer * W :=
  if bool_decide (challenge = EmptyString) then (Redirect "/", w)
  else
    match GetLogoutRequest w challenge with
    | (inr _, w) => (Redirect "/", w)
    | (inl lr, w) =>
        let hinted := match lo_Client lr with Some c => negb (bool_decide (oc_ClientID c = EmptyString)) | None => false end in
        if negb hinted then (Redirect "/", snd (RejectLogoutRequest w challenge))
        else
          match AcceptLogoutRequest w challenge with
          | (inr _, w) => (Redirect "/", w)
          | (inl target, w) => (Redirect target, w)
          end
    end.

Definition errorPage (error description : string) : answer :=
  HTMLError 200 (if bool_decide (error = EmptyString) then "error" else error) description.

(** ** The JSON endpoints *)

(** The reply of a ceremony, as the endpoint renders it. *)
Definition render_options (r : reply) : answer :=
  match r with
  | AuthOptions o => Options o
  | Fail status msg => APIFail status msg
  | _ => APIFail 500 "internal error"
  end.

Definition loginOptions (a : WA) (e : env) : answer * WA :=
  let '(r, a) := LoginOptions a e in (render_options r, a).

Record verifyRequest := mkVerify { vr_challenge : string; vr_ChallengeID : string; vr_CredentialID : string; vr_Credential : string }.

Definition accept_login (subject : string) : AcceptLogin := mkAcceptLogin subject true rememberFor true.

Definition loginVerify (w : W) (a : WA) (e : env) (b : verifyRequest) : answer * (W * WA) :=
  if bool_decide (vr_challenge b = EmptyString) then (APIFail 400 "missing login_challenge", (w, a))
  else
    match VerifyLogin protocol_get ISO a e (vr_ChallengeID b) (vr_CredentialID b) (vr_Credential b) with
    | (LoggedIn subject, a) =>
        match AcceptLoginRequest w (vr_challenge b) (accept_login subject) with
        | (inr _, w) => (APIFail 400 "login_flow_expired", (w, a))
        | (inl target, w) => (RedirectTo target, (w, a))
        end
    | (r, a) => (render_options r, (w, a))
    end.

Definition consentOptions (w : W) (a : WA) (e : env) (challenge : string) : answer * (W * WA) :=
  if bool_decide (challenge = EmptyString) then (APIFail 400 "missing consent_challenge", (w, a))
  else
    match GetConsentRequest w challenge with
    | (inr _, w) => (APIFail 400 "invalid consent_challenge", (w, a))
    | (inl cr, w) => let '(r, a) := ConsentOptions a e (cr_Subject cr) in (render_options r, (w, a))
    end.

Definition acceptConsentAndRedirect (w : W) (challenge : string) (cr : ConsentRequest) : answer * W :=
  match AcceptConsentRequest w challenge (accept_consent cr) with
  | (inr _, w) => (APIFail 400 "consent_flow_expired", w)
  | (inl target, w) => (RedirectTo target, w)
  end.

Definition consentVerify (w : W) (a : WA) (e : env) (b : verifyRequest) : answer * (W * WA) :=
  if bool_decide (vr_challenge b = EmptyString) then (APIFail 400 "missing consent_challenge", (w, a))
  else
    match GetConsentRequest w (vr_challenge b) with
    | (inr _, w) => (APIFail 400 "invalid consent_challenge", (w, a))
    | (inl cr, w) =>
        match VerifyConsent protocol_get ISO a e (vr_ChallengeID b) (vr_CredentialID b) (vr_Credential b) (cr_Subject cr) with
        | (LoggedIn _, a) => let '(r, w) := acceptConsentAndRedirect w (vr_challenge b) cr in (r, (w, a))
        | (r, a) => (render_options r, (w, a))
        end
    end.

Definition consentApprove (w : W) (challenge : string) : answer * W :=
  if bool_decide (challenge = EmptyString) then (APIFail 400 "missing consent_challenge", w)
  else
    match GetConsentRequest w challenge with
    | (inr _, w) => (APIFail 400 "invalid consent_challenge", w)
    | (inl cr, w) =>
        if negb (freshLogin cr) then (APIFail 400 "passkey_required", w)
        else acceptConsentAndRedirect w challenge cr
    end.

(** ** Mediated registration *)

Definition allowed_scopes (p : ProviderParams) : list string :=
  List.filter (fun s => negb (bool_decide (s = "agent"%string) && negb (pp_AgentProxyEnabled p))) (pp_AllowedScopes p).

Definition dcr_client (clientName clientScope : string) (redirectURIs : list string) : OAuth2Client :=
  mkClient "" clientName "" ["authorization_code"; "refresh_token"]%string ["code"%string] clientScope redirectURIs "none"
    "" [] "" (Some [("shellwatch"%string, JObject [("origin"%string, JString ClientOriginDCR)])]) "".

Record dcrRequest := mkDCR { dr_RedirectURIs : list string; dr_Scope : string; dr_ClientName : string }.

Definition requested_scopes (scope : string) : list string :=
  if bool_decide (TrimSpace scope = EmptyString) then ["mcp"%string] else Fields (TrimSpace scope).

(** [key_order] is the order of the map of scopes in the message. *)
Definition handleDCR (w : W) (p : ProviderParams) (nowUnix : Z) (key_order : list string) (b : dcrRequest)
  : answer * list ClientEvent * W :=
  match dr_RedirectURIs b with
  | [] => (OAuthFail 400 "invalid_redirect_uri" "redirect_uris is required", [], w)
  | _ :: _ =>
      match List.find (fun uri => negb (matchAny (omap compile (pp_RedirectURIPatterns p)) uri)) (dr_RedirectURIs b) with
      | Some uri => (OAuthFail 400 "invalid_redirect_uri" ("redirect_uri not allowed by policy: " ++ uri), [], w)
      | None =>
          match List.filter (fun s => bool_decide (s ∈ allowed_scopes p)) (requested_scopes (dr_Scope b)) with
          | [] => (OAuthFail 400 "invalid_scope" ("scope must be a subset of: " ++ Join key_order " "), [], w)
          | granted =>
              let clientName := if bool_decide (dr_ClientName b = EmptyString) then "MCP Client"%string else dr_ClientName b in
              let clientScope := Join (granted ++ ["offline_access"%string]) " " in
              match CreateClient w (dcr_client clientName clientScope (dr_RedirectURIs b)) with
              | (inr _, w) =>
                  (OAuthFail 502 "server_error" "client registration failed",
                   [mkEvent "" ClientOriginDCR ClientEventRejected clientName "" "" (dr_RedirectURIs b) clientScope
                      "server_error: client registration failed"], w)
              | (inl created, w) =>
                  let redirectURIs := match oc_RedirectURIs created with [] => dr_RedirectURIs b | l => l end in
                  let scope := if bool_decide (oc_Scope created = EmptyString) then clientScope else oc_Scope created in
                  (Created (oc_ClientID created) nowUnix redirectURIs scope clientName,
                   [mkEvent (oc_ClientID created) ClientOriginDCR ClientEventRegistered clientName "" "none" redirectURIs scope ""], w)
              end
          end
      end
  end.

(** ** All the endpoints *)

Inductive endpoint :=
  | GetLogin (hasPasskeys : option bool) (challenge : string)
  | GetConsent (challenge : string)
  | GetLogout (challenge : string)
  | GetError (error description : string)
  | PostLoginOptions
  | PostLoginVerify (b : verifyRequest)
  | PostConsentOptions (challenge : string)
  | PostConsentVerify (b : verifyRequest)
  | PostConsentApprove (challenge : string)
  | PostRegister (nowUnix : Z) (key_order : list string) (b : dcrRequest).

Definition serve (w : W) (a : WA) (p : ProviderParams) (e : env) (ep : endpoint) : answer * (W * WA) :=
  match ep with
  | GetLogin has ch => let '(r, w) := loginPage w p has ch in (r, (w, a))
  | GetConsent ch => let '(r, w) := consentPage w p (e_now e) ch in (r, (w, a))
  | GetLogout ch => let '(r, w) := logoutPage w ch in (r, (w, a))
  | GetError err desc => (errorPage err desc, (w, a))
  | PostLoginOptions => let '(r, a) := loginOptions a e in (r, (w, a))
  | PostLoginVerify b => loginVerify w a e b
  | PostConsentOptions ch => consentOptions w a e ch
  | PostConsentVerify b => consentVerify w a e b
  | PostConsentApprove ch => let '(r, w) := consentApprove w ch in (r, (w, a))
  | PostRegister t order b => let '(r, _, w) := handleDCR w p t order b in (r, (w, a))
  end.

End Providers.

(** ** Discovery *)

Record DiscoveryParams := mkDiscovery { ExternalURL : string; HydraPublicURL : string; dp_AgentProxyEnabled : bool; CimdEnabled : bool }.

Record resourceMetadata := mkResource {
  Resource : string; AuthorizationServers : list string; BearerMethodsSupported : list string; rm_ScopesSupported : list string }.

Record asMetadata := mkAS {
  Issuer : string; AuthorizationEndpoint : string; TokenEndpoint : string; RegistrationEndpoint : string; as_JwksURI : string;
  RevocationEndpoint : string; ResponseTypesSupported : list string; GrantTypesSupported : list string;
  CodeChallengeMethodsSupported : list string; TokenEndpointAuthMethodsSupported : list string; ScopesSupported : list string;
  ClientIDMetadataDocumentSupported : bool }.

Definition ext_url (p : DiscoveryParams) : string := TrimRight_char (ExternalURL p) "/".
Definition hydra_pub (p : DiscoveryParams) : string := TrimRight_char (HydraPublicURL p) "/".

Definition resource (p : DiscoveryParams) (scope path : string) : resourceMetadata :=
  mkResource (ext_url p ++ path) [ext_url p] ["header"%string] [scope; "offline_access"%string].

Definition authorization_server (p : DiscoveryParams) : asMetadata :=
  let authorizeEndpoint := if CimdEnabled p then (ext_url p ++ "/api/hydra/authorize")%string else (hydra_pub p ++ "/oauth2/auth")%string in
  mkAS (hydra_pub p) authorizeEndpoint (hydra_pub p ++ "/oauth2/token") (ext_url p ++ "/api/hydra/register")
    (hydra_pub p ++ "/.well-known/jwks.json") (hydra_pub p ++ "/oauth2/revoke") ["code"%string]
    ["authorization_code"; "refresh_token"]%string ["S256"%string] ["none"; "private_key_jwt"]%string
    ((if dp_AgentProxyEnabled p then ["agent"%string] else []) ++ ["mcp"; "offline_access"]%string) (CimdEnabled p).

(** The documents by path; [None] is 404. *)
Definition well_known (p : DiscoveryParams) (path : string) : option (resourceMetadata + asMetadata) :=
  if bool_decide (path = "/.well-known/oauth-protected-resource"%string)
     || bool_decide (path = "/.well-known/oauth-protected-resource/mcp"%string) then Some (inl (resource p "mcp" "/mcp"))
  else if bool_decide (path = "/.well-known/oauth-protected-resource/agent-proxy"%string) then
    if dp_AgentProxyEnabled p then Some (inl (resource p "agent" "/agent-proxy")) else None
  else if bool_decide (path = "/.well-known/oauth-authorization-server"%string) then Some (inr (authorization_server p))
  else None.

(** ** Lemmas *)

Set Default Proof Using "All".

Section Justified.
Context {W : Type} `{!Admin W}.
Variable ToLower : string -> string.
Variable compile : string -> option matcher.
Variable parseTime : string -> option Z.
Variable protocol_create : string -> string -> Registration + string.
Variable protocol_get : string -> string -> string -> Z + string.
Variable CoseToAuthorizedKeys : string -> string.
Variable aaguidNames : string -> option string.
Variable ISO : Z -> string.
Variable SelfRegEnabled : bool.

Abbreviation serve_logged := (serve (W := W * list call) ToLower compile parseTime protocol_get ISO).
(** The database the process started with. *)
Variable start_db : DB.
Abbreviation reached := (run aaguidNames protocol_create protocol_get CoseToAuthorizedKeys ISO SelfRegEnabled (init start_db)).

(** The calls of an endpoint. *)
Definition served_calls (w : W) (a : WA) (p : ProviderParams) (e : env) (ep : endpoint) : list call :=
  snd (fst (snd (serve_logged (w, []) a p e ep))).

(** A passkey of the account answered a login challenge in this request. *)
Definition passkey_login (rs : list (env * request)) (e : env) (b : verifyRequest) (acc : string) : Prop :=
  exists challenge stored counter,
    login_challenge rs (e_now e) (vr_ChallengeID b) challenge /\
    stored ∈ creds (w_db (reached rs)) /\ CredentialID stored = vr_CredentialID b /\ AccountID stored = acc /\
    active stored = true /\ protocol_get (vr_Credential b) challenge (PublicKeyCOSE stored) = inl counter.

Lemma VerifyLogin_passkey rs e b acc :
  fst (VerifyLogin protocol_get ISO (reached rs) e (vr_ChallengeID b) (vr_CredentialID b) (vr_Credential b)) = LoggedIn acc ->
  passkey_login rs e b acc.
Proof.
  intros H. apply VerifyLogin_LoggedIn in H as (ch & s & stored & n & Hc & Hne & Hin & Hcid & Hacc & Ha & Hv & _).
  unfold VerifyAssertion in Hv. destruct (protocol_get _ _ _) as [counter|] eqn:Hp; [|done].
  exists ch, stored, counter. split_and!; try done. eapply consumed_login_challenge; [exact Hc|done].
Qed.

Lemma VerifyConsent_passkey rs e b acc x :
  fst (VerifyConsent protocol_get ISO (reached rs) e (vr_ChallengeID b) (vr_CredentialID b) (vr_Credential b) acc) = LoggedIn x ->
  passkey_login rs e b acc.
Proof.
  unfold VerifyConsent. destruct (VerifyLogin _ _ _ _ _ _ _) as [r a'] eqn:E. intros H.
  apply VerifyLogin_passkey. rewrite E. cbn [fst]. destruct r; try done. cbn [fst] in H. case_bool_decide as Hacc; [|done]. by subst acc.
Qed.

(** Why an accepted consent was accepted. *)
Definition consent_reason (rs : list (env * request)) (p : ProviderParams) (e : env) (ep : endpoint) (ch : string) (cr : ConsentRequest) : Prop :=
  match ep with
  | GetConsent c => c = ch /\ (oc_ClientID (cr_Client cr) = SPAClientID p \/ cr_Skip cr = true /\ IsClientIDURL (oc_ClientID (cr_Client cr)) = false)
  | PostConsentApprove c => c = ch /\ freshLogin cr = true
  | PostConsentVerify b => vr_challenge b = ch /\ passkey_login rs e b (cr_Subject cr)
  | _ => False
  end.

Definition consents_of (rs : list (env * request)) (p : ProviderParams) (e : env) (ep : endpoint) (l : list call) : Prop :=
  forall pre ch body ans post, l = pre ++ CallAcceptConsent ch body ans :: post ->
    exists cr, CallGetConsent ch (inl cr) ∈ pre /\ body = accept_consent cr /\ consent_reason rs p e ep ch cr.

Definition logins_of (rs : list (env * request)) (e : env) (ep : endpoint) (l : list call) : Prop :=
  forall pre ch body ans post, l = pre ++ CallAcceptLogin ch body ans :: post ->
    (exists lr, CallGetLogin ch (inl lr) ∈ pre /\ lr_Skip lr = true /\ body = accept_skip (lr_Subject lr)) \/
    (exists b subject, ep = PostLoginVerify b /\ vr_challenge b = ch /\ body = accept_login subject /\ passkey_login rs e b subject).

(** A position in a log of at most a few calls. *)
Ltac locate_call :=
  let pre := fresh "pre" in intros pre; intros; repeat (destruct pre as [|? pre]; simplify_list_eq; try done).

(** A short log without such a call. *)
Ltac no_call :=
  let H := fresh "Hin" in intros ? ? ? H; cbn in H;
  repeat (apply elem_of_cons in H as [H|H]; [discriminate H|]); by apply not_elem_of_nil in H.

Lemma cimdIdentity_calls (w : W) l now c :
  exists id w' mid, cimdIdentity (W := W * list call) ToLower parseTime (w, l) now c = (id, (w', l ++ mid)) /\
    (is_none id = negb (IsClientIDURL (oc_ClientID c))) /\ (mid = [] \/ exists i a, mid = [CallGet i a]).
Proof.
  unfold cimdIdentity. destruct (IsClientIDURL _); cbn [negb]; [|by exists None, w, []; rewrite app_nil_r; auto].
  destruct (oc_Metadata c) as [m|]; [by eexists _, w, []; rewrite app_nil_r; auto|].
  cbn [GetClient logged log1 fst snd]. destruct (GetClient w (oc_ClientID c)) as [[[full|]|err] w1]; cbn [fst snd];
    eexists _, w1, _; (split; [reflexivity|]); split; eauto.
Qed.

Lemma consentPage_calls rs p e (w : W) now ch :
  consents_of rs p e (GetConsent ch) (snd (snd (consentPage (W := W * list call) ToLower parseTime (w, []) p now ch))).
Proof.
  unfold consentPage. case_bool_decide; [locate_call|]. cbn [GetConsentRequest logged log1 fst snd].
  destruct (GetConsentRequest w ch) as [[cr|err] w1]; cbn [fst snd app]; [|locate_call].
  destruct (cimdIdentity_calls w1 [CallGetConsent ch (inl cr)] now (cr_Client cr)) as (id & w2 & mid & -> & Hid & Hmid).
  destruct (auto_consent p cr id) eqn:Ha.
  - cbn [AcceptConsentRequest logged log1 fst snd].
    assert (oc_ClientID (cr_Client cr) = SPAClientID p \/ cr_Skip cr = true /\ IsClientIDURL (oc_ClientID (cr_Client cr)) = false) as Hr.
    { unfold auto_consent in Ha. rewrite Hid in Ha. destruct (IsClientIDURL _), (cr_Skip cr); cbn in Ha; rewrite ?orb_false_r in Ha;
        try (left; by apply bool_decide_eq_true in Ha); auto. }
    destruct (AcceptConsentRequest w2 ch (accept_consent cr)) as [[t|err] w3]; cbn [fst snd];
      destruct Hmid as [->|(i & a & ->)]; cbn [app]; locate_call; exists cr; (split; [set_solver|]); by split.
  - destruct (freshLogin cr); cbn [snd]; destruct Hmid as [->|(i & a & ->)]; cbn [app]; locate_call.
Qed.

Lemma consentPage_no_login p (w : W) now ch c x a :
  CallAcceptLogin c x a ∉ snd (snd (consentPage (W := W * list call) ToLower parseTime (w, []) p now ch)).
Proof.
  unfold consentPage. revert c x a. case_bool_decide; [no_call|]. cbn [GetConsentRequest logged log1 fst snd].
  destruct (GetConsentRequest w ch) as [[cr|err] w1]; cbn [fst snd app]; [|no_call].
  destruct (cimdIdentity_calls w1 [CallGetConsent ch (inl cr)] now (cr_Client cr)) as (id & w2 & mid & -> & _ & Hmid).
  destruct (auto_consent p cr id); cbn [AcceptConsentRequest logged log1 fst snd].
  - destruct (AcceptConsentRequest w2 ch (accept_consent cr)) as [[t|err] w3]; cbn [fst snd];
      destruct Hmid as [->|(i & a & ->)]; no_call.
  - destruct (freshLogin cr); cbn [snd]; destruct Hmid as [->|(i & a & ->)]; no_call.
Qed.

Lemma accept_calls rs p e ep (w : W) ch cr pre :
  consent_reason rs p e ep ch cr -> pre = [CallGetConsent ch (inl cr)] ->
  consents_of rs p e ep (snd (snd (acceptConsentAndRedirect (W := W * list call) (w, pre) ch cr))).
Proof.
  intros Hr ->. unfold acceptConsentAndRedirect. cbn [AcceptConsentRequest logged log1 fst snd].
  destruct (AcceptConsentRequest w ch _) as [[t|err] w1]; cbn [fst snd app]; locate_call; exists cr; (split; [set_solver|]); by split.
Qed.

Lemma consents_none rs p e ep l : (forall ch body ans, CallAcceptConsent ch body ans ∉ l) -> consents_of rs p e ep l.
Proof. intros Hn pre ch body ans post ->. exfalso. apply (Hn ch body ans). set_solver. Qed.

Lemma logins_none rs e ep l : (forall ch body ans, CallAcceptLogin ch body ans ∉ l) -> logins_of rs e ep l.
Proof. intros Hn pre ch body ans post ->. exfalso. apply (Hn ch body ans). set_solver. Qed.

(** The branches of a ceremony that did not succeed. *)
Ltac not_logged_in tac :=
  lazymatch goal with
  | _ : _ = (LoggedIn _, _) |- _ => idtac
  | Ev : _ = (_, _) |- _ => clear Ev; cbn [fst snd]; tac
  end.

(** The calls of the pages. *)
Lemma loginPage_log (w : W) p has ch :
  let l := snd (snd (loginPage (W := W * list call) (w, []) p has ch)) in
  (forall c b a, CallAcceptConsent c b a ∉ l) /\
  forall pre c body ans post, l = pre ++ CallAcceptLogin c body ans :: post ->
    exists lr, CallGetLogin c (inl lr) ∈ pre /\ lr_Skip lr = true /\ body = accept_skip (lr_Subject lr).
Proof.
  unfold loginPage. case_bool_decide; cbn zeta; [split; [no_call|locate_call]|].
  cbn [GetLoginRequest logged log1 fst snd]. destruct (GetLoginRequest w ch) as [[lr|err] w1]; cbn [fst snd app];
    [|split; [no_call|locate_call]].
  destruct (lr_Skip lr) eqn:Hs; [|split; [no_call|locate_call]].
  cbn [AcceptLoginRequest logged log1 fst snd]. destruct (AcceptLoginRequest w1 ch _) as [[t|err] w2]; cbn [fst snd app];
    (split; [no_call|locate_call]); exists lr; (split; [set_solver|]); by split.
Qed.

Lemma logoutPage_log (w : W) ch :
  let l := snd (snd (logoutPage (W := W * list call) (w, []) ch)) in
  (forall c b a, CallAcceptConsent c b a ∉ l) /\ (forall c b a, CallAcceptLogin c b a ∉ l) /\
  forall pre c ans post, l = pre ++ CallAcceptLogout c ans :: post ->
    exists lr cl, CallGetLogout c (inl lr) ∈ pre /\ lo_Client lr = Some cl /\ oc_ClientID cl <> EmptyString.
Proof using Type.
  clear ToLower compile parseTime protocol_create protocol_get CoseToAuthorizedKeys aaguidNames ISO SelfRegEnabled.
  unfold logoutPage. case_bool_decide; cbn zeta; [split_and!; [no_call|no_call|locate_call]|].
  cbn [GetLogoutRequest logged log1 fst snd]. destruct (GetLogoutRequest w ch) as [[lr|err] w1]; cbn [fst snd app];
    [|split_and!; [no_call|no_call|locate_call]].
  destruct (lo_Client lr) as [cl|] eqn:Hcl; cbn [negb].
  - case_bool_decide as Hid; cbn [negb].
    + cbn [RejectLogoutRequest logged log1 fst snd app]. split_and!; [no_call|no_call|locate_call].
    + cbn [AcceptLogoutRequest logged log1 fst snd]. destruct (AcceptLogoutRequest w1 ch) as [[t|err] w2]; cbn [fst snd app];
        (split_and!; [no_call|no_call|locate_call]); exists lr, cl; (split; [set_solver|]); by split.
  - cbn [RejectLogoutRequest logged log1 fst snd app]. split_and!; [no_call|no_call|locate_call].
Qed.

Lemma handleDCR_log (w : W) p t order b :
  let l := snd (snd (handleDCR (W := W * list call) compile (w, []) p t order b)) in
  (l = [] \/ exists c ans, l = [CallCreate c ans]).
Proof.
  unfold handleDCR. destruct (dr_RedirectURIs b); [by left|]. destruct (List.find _ _); [by left|].
  destruct (List.filter _ _); [by left|]. right. cbn [CreateClient logged log1 fst snd].
  destruct (CreateClient w _) as [[c|err] w1]; cbn [fst snd app]; eauto.
Qed.

Lemma consentVerify_consents rs p e (w : W) b :
  consents_of rs p e (PostConsentVerify b) (snd (fst (snd (consentVerify (W := W * list call) protocol_get ISO (w, []) (reached rs) e b)))) /\
  (forall c x a, CallAcceptLogin c x a ∉ snd (fst (snd (consentVerify (W := W * list call) protocol_get ISO (w, []) (reached rs) e b)))).
Proof.
  unfold consentVerify. case_bool_decide; [split; [locate_call|no_call]|].
  cbn [GetConsentRequest logged log1 fst snd].
  destruct (GetConsentRequest w (vr_challenge b)) as [[cr|err] w1]; cbn [fst snd app]; [|split; [locate_call|no_call]].
  destruct (VerifyConsent _ _ _ _ _ _ _ _) as [r a'] eqn:Ev.
  destruct r; not_logged_in ltac:(split; [locate_call|no_call]).
  assert (passkey_login rs e b (cr_Subject cr)) as Hp by (eapply VerifyConsent_passkey; rewrite Ev; reflexivity). clear Ev.
  pose proof (accept_calls rs p e (PostConsentVerify b) w1 (vr_challenge b) cr _ (conj eq_refl Hp) eq_refl) as Hacc.
  unfold acceptConsentAndRedirect in *. cbn [AcceptConsentRequest logged log1 fst snd] in *.
  destruct (AcceptConsentRequest w1 _ _) as [[t|err] w2]; cbn [fst snd app] in *; (split; [exact Hacc|no_call]).
Qed.

Lemma consentApprove_consents rs p e (w : W) ch :
  consents_of rs p e (PostConsentApprove ch) (snd (snd (consentApprove (W := W * list call) (w, []) ch))) /\
  (forall c x a, CallAcceptLogin c x a ∉ snd (snd (consentApprove (W := W * list call) (w, []) ch))).
Proof.
  unfold consentApprove. case_bool_decide; [split; [locate_call|no_call]|].
  cbn [GetConsentRequest logged log1 fst snd].
  destruct (GetConsentRequest w ch) as [[cr|err] w1]; cbn [fst snd app]; [|split; [locate_call|no_call]].
  destruct (freshLogin cr) eqn:Hf; cbn [negb]; [|split; [locate_call|no_call]].
  pose proof (accept_calls rs p e (PostConsentApprove ch) w1 ch cr _ (conj eq_refl Hf) eq_refl) as Hacc.
  unfold acceptConsentAndRedirect in *. cbn [AcceptConsentRequest logged log1 fst snd] in *.
  destruct (AcceptConsentRequest w1 _ _) as [[t|err] w2]; cbn [fst snd app] in *; (split; [exact Hacc|no_call]).
Qed.

Lemma loginVerify_logins rs e (w : W) b :
  logins_of rs e (PostLoginVerify b) (snd (fst (snd (loginVerify (W := W * list call) protocol_get ISO (w, []) (reached rs) e b)))) /\
  (forall c x a, CallAcceptConsent c x a ∉ snd (fst (snd (loginVerify (W := W * list call) protocol_get ISO (w, []) (reached rs) e b)))).
Proof.
  unfold loginVerify. case_bool_decide; [split; [locate_call|no_call]|].
  destruct (VerifyLogin _ _ _ _ _ _ _) as [r a'] eqn:Ev.
  destruct r; not_logged_in ltac:(split; [locate_call|no_call]).
  assert (passkey_login rs e b accountID) as Hp by (apply VerifyLogin_passkey; rewrite Ev; reflexivity). clear Ev.
  cbn [AcceptLoginRequest logged log1 fst snd].
  destruct (AcceptLoginRequest w _ _) as [[t|err] w2]; cbn [fst snd app]; (split; [locate_call|no_call]); right;
    exists b, accountID; split_and!; done.
Qed.

(** A served log, by endpoint. *)
Lemma served_cases (w : W) rs p e ep :
  consents_of rs p e ep (served_calls w (reached rs) p e ep) /\ logins_of rs e ep (served_calls w (reached rs) p e ep).
Proof.
  unfold served_calls. destruct ep as [has ch|ch|ch|err desc| |b|ch|b|ch|t order b]; cbn [serve].
  - destruct (loginPage_log w p has ch) as [H1 H2]. destruct (loginPage _ _ _ _) as [r [w' l]]. cbn [fst snd] in *.
    split; [by apply consents_none|]. intros pre c body ans post Hl. left. by eapply H2.
  - pose proof (consentPage_calls rs p e w (e_now e) ch) as H1. pose proof (consentPage_no_login p w (e_now e) ch) as H2.
    destruct (consentPage _ _ _ _ _ _) as [r [w' l]]. cbn [fst snd] in *. split; [done|by apply logins_none].
  - destruct (logoutPage_log w ch) as (H1 & H2 & _). destruct (logoutPage _ _) as [r [w' l]]. cbn [fst snd] in *.
    split; [by apply consents_none|by apply logins_none].
  - split; locate_call.
  - destruct (loginOptions _ _) as [r a]. split; locate_call.
  - destruct (loginVerify_logins rs e w b) as [H1 H2]. split; [by apply consents_none|done].
  - unfold consentOptions. case_bool_decide; [split; locate_call|]. cbn [GetConsentRequest logged log1 fst snd].
    destruct (GetConsentRequest w ch) as [[cr|err] w1]; cbn [fst snd app]; [|split; locate_call].
    destruct (ConsentOptions _ _ _) as [r a]. split; locate_call.
  - destruct (consentVerify_consents rs p e w b) as [H1 H2]. split; [done|by apply logins_none].
  - destruct (consentApprove_consents rs p e w ch) as [H1 H2]. destruct (consentApprove _ _) as [r [w' l]]. cbn [fst snd] in *.
    split; [done|by apply logins_none].
  - pose proof (handleDCR_log w p t order b) as H. destruct (handleDCR _ _ _ _ _ _) as [[r evs] [w' l]]. cbn [fst snd] in *.
    destruct H as [->|(c & ans & ->)]; split; locate_call.
Qed.

(** (C17) No client gets tokens behind a user's back: whatever the authorization
    server answers, a consent is accepted only after that very consent request
    was read, with exactly the scopes and audiences it asked for, and only for
    the first-party client, for a remembered grant of a client that is not
    identified by a URL, after a login that was marked fresh, or after a
    passkey of the very account the request names answered a login challenge.
    A client with a URL id is never approved silently. *)
Theorem consent_accepted_soundly (w : W) (rs : list (env * request)) (p : ProviderParams) (e : env) (ep : endpoint)
  (pre post : list call) (ch : string) (body : AcceptConsent) (ans : string + api_error)
  (Hcall : served_calls w (reached rs) p e ep = pre ++ CallAcceptConsent ch body ans :: post) :
  exists cr, CallGetConsent ch (inl cr) ∈ pre /\ body = accept_consent cr /\ consent_reason rs p e ep ch cr /\
    (IsClientIDURL (oc_ClientID (cr_Client cr)) = true -> oc_ClientID (cr_Client cr) <> SPAClientID p ->
     freshLogin cr = true \/ exists b, passkey_login rs e b (cr_Subject cr)).
Proof.
  destruct (served_cases w rs p e ep) as [H _]. destruct (H _ _ _ _ _ Hcall) as (cr & Hin & Hb & Hr).
  exists cr. split; [done|]. split; [done|]. split; [done|]. intros Hurl Hspa.
  destruct ep; try done; cbn [consent_reason] in Hr; destruct Hr as [_ Hr].
  - destruct Hr as [|[_ Hr]]; congruence.
  - right. eauto.
  - by left.
Qed.

(** What a login vouches for: a login is accepted either because the
    authorization server remembers it, and then never marked fresh nor
    remembered anew, or because a passkey answered a login challenge in this
    request, and then for the account of that passkey. So the mark that lets a
    consent skip its passkey is only ever set by a passkey. *)
Theorem login_accepted_soundly (w : W) (rs : list (env * request)) (p : ProviderParams) (e : env) (ep : endpoint)
  (pre post : list call) (ch : string) (body : AcceptLogin) (ans : string + api_error)
  (Hcall : served_calls w (reached rs) p e ep = pre ++ CallAcceptLogin ch body ans :: post) :
  ((exists lr, CallGetLogin ch (inl lr) ∈ pre /\ lr_Skip lr = true /\ body = accept_skip (lr_Subject lr)) \/
   (exists b subject, ep = PostLoginVerify b /\ vr_challenge b = ch /\ body = accept_login subject /\ passkey_login rs e b subject)) /\
  (al_freshLogin body = true -> exists b, passkey_login rs e b (al_Subject body)).
Proof.
  destruct (served_cases w rs p e ep) as [_ H]. pose proof (H _ _ _ _ _ Hcall) as Hr. split; [done|].
  destruct Hr as [(lr & _ & _ & ->)|(b & subject & _ & _ & -> & Hp)]; [done|]. intros _. by exists b.
Qed.

(** A logout is only accepted for a request that names a client: an
    unattributed one, as a forged link produces, is rejected. *)
Theorem logout_needs_client (w : W) (ch : string) :
  let l := snd (snd (logoutPage (W := W * list call) (w, []) ch)) in
  (forall pre c ans post, l = pre ++ CallAcceptLogout c ans :: post ->
    exists lr cl, CallGetLogout c (inl lr) ∈ pre /\ lo_Client lr = Some cl /\ oc_ClientID cl <> EmptyString) /\
  (forall lr, CallGetLogout ch (inl lr) ∈ l -> lo_Client lr = None -> CallRejectLogout ch ∈ l).
Proof using Type.
  clear ToLower compile parseTime protocol_create protocol_get CoseToAuthorizedKeys aaguidNames ISO SelfRegEnabled start_db.
  split; [apply (logoutPage_log w ch)|]. unfold logoutPage. case_bool_decide; [by intros ? ?%not_elem_of_nil|].
  cbn [GetLogoutRequest logged log1 fst snd]. destruct (GetLogoutRequest w ch) as [[lr|err] w1]; cbn [fst snd app].
  2: { intros lr Hin. apply list_elem_of_singleton in Hin. done. }
  intros lr' Hin Hnone. assert (lr' = lr \/ lo_Client lr <> None) as [-> |Hl].
  { destruct (lo_Client lr) as [cl|] eqn:Hc; [right; done|left]. cbn [negb RejectLogoutRequest logged log1 fst snd app] in Hin.
    apply elem_of_cons in Hin as [Hin|Hin]; [congruence|]. by apply list_elem_of_singleton in Hin. }
  - rewrite Hnone. cbn. set_solver.
  - exfalso. destruct (lo_Client lr) as [cl|] eqn:Hc; [|done]. case_bool_decide; cbn [negb] in Hin.
    + cbn in Hin. apply elem_of_cons in Hin as [Hin|Hin]; [congruence|]. by apply list_elem_of_singleton in Hin.
    + cbn [AcceptLogoutRequest logged log1 fst snd] in Hin. destruct (AcceptLogoutRequest w1 ch) as [[t|err] w2]; cbn [fst snd app] in Hin;
        (apply elem_of_cons in Hin as [Hin|Hin]; [congruence|]; by apply list_elem_of_singleton in Hin).
Qed.

End Justified.

Set Default Proof Using "Type".

(** Registration stays within the operator's policy: a client is only
    created with redirect URIs that each match a configured pattern, with
    scopes that were asked for and are allowed (the agent scope only while the
    proxy is on) plus the refresh scope, as a public client without a secret
    and with an id the server chooses. *)
Theorem registration_within_policy {W} `{!Admin W} (compile : string -> option matcher) (w : W) (p : ProviderParams)
  (t : Z) (order : list string) (b : dcrRequest) (c : OAuth2Client) (ans : OAuth2Client + api_error)
  (Hcall : snd (snd (handleDCR (W := W * list call) compile (w, []) p t order b)) = [CallCreate c ans]) :
  (exists granted, granted <> [] /\ oc_Scope c = Join (granted ++ ["offline_access"%string]) " " /\
    forall s, s ∈ granted -> s ∈ pp_AllowedScopes p /\ s ∈ requested_scopes (dr_Scope b) /\
      (s = "agent"%string -> pp_AgentProxyEnabled p = true)) /\
  oc_RedirectURIs c = dr_RedirectURIs b /\ dr_RedirectURIs b <> [] /\
  (forall uri, uri ∈ dr_RedirectURIs b -> exists src m, src ∈ pp_RedirectURIPatterns p /\ compile src = Some m /\ m uri = true) /\
  (oc_ClientID c, oc_ClientSecret c, oc_TokenEndpointAuthMethod c) = (""%string, ""%string, "none"%string).
Proof.
  revert Hcall. unfold handleDCR. destruct (dr_RedirectURIs b) as [|u us] eqn:Hu; [done|].
  destruct (List.find _ _) eqn:Hf; [done|]. destruct (List.filter _ _) as [|g gs] eqn:Hg; [done|].
  cbn [CreateClient logged log1 fst snd].
  set (cl := dcr_client _ _ _). intros Hcall. assert (c = cl) as ->.
  { destruct (CreateClient w cl) as [[x|err] w1]; cbn [fst snd app] in Hcall; by injection Hcall as <- <-. }
  split; [|split; [done|split; [done|split; [|done]]]].
  - exists (g :: gs). split; [done|]. split; [done|]. intros s Hs. apply list_elem_of_In in Hs. rewrite <- Hg in Hs.
    apply filter_In in Hs as [Hreq Hal]. apply bool_decide_eq_true in Hal. unfold allowed_scopes in Hal.
    apply list_elem_of_In, filter_In in Hal as [Hal Hag]. split; [by apply list_elem_of_In|]. split; [by apply list_elem_of_In|].
    intros ->. rewrite bool_decide_true in Hag by done. by destruct (pp_AgentProxyEnabled p).
  - intros uri Hin. apply list_elem_of_In in Hin. eapply find_none in Hf; [|exact Hin]. apply negb_false_iff in Hf.
    apply existsb_exists in Hf as (m & Hm & Hmatch). apply list_elem_of_In, list_elem_of_omap in Hm as (src & Hsrc & Hc). eauto.
Qed.

(** ** Concrete runs *)

Definition ex_provider : ProviderParams := mkProvider "spa" false ["mcp"; "agent"]%string ["http://127.0.0.1"%string] false.
Definition ex_compile (src : string) : option matcher := Some (fun uri => HasPrefix uri src).
Definition ex_client (id : string) : OAuth2Client := mkClient id "App" "" [] [] "mcp" [] "none" "" [] "" None "".
Definition ex_consent (skip : bool) (id : string) (ctx : json_object) : ConsentRequest :=
  mkConsentRequest "cc" skip "acc-1" (ex_client id) ["mcp"%string] ["aud"%string] ctx.
Definition ex_world (cr : ConsentRequest) : ClientTable :=
  mkTable ∅ (Some (mkLoginRequest "lc" false "")) (Some cr) None (Some "https://hydra/next"%string).
Definition ex_verify (challenge : string) : verifyRequest := mkVerify challenge "i6" "eDE" "assert:cose:x6".
Abbreviation ex_served w := (served_calls (fun s => s) ex_compile (fun _ => None) ex_get (fun _ => "now"%string) w ex_state).

Lemma consent_accepted_soundly_witness :
  exists cr, cr = ex_consent true "https://app.example/c.json" [] /\
    (IsClientIDURL (oc_ClientID (cr_Client cr)) = true -> oc_ClientID (cr_Client cr) <> SPAClientID ex_provider ->
     freshLogin cr = true \/
     exists b, passkey_login ex_create ex_get (fun _ => ""%string) (fun _ => None) (fun _ => "now"%string) false CeremonyProofs.ex_seeded CeremonyProofs.ex_run (ex_env 7 "i7" "x7") b (cr_Subject cr)).
Proof.
  assert (ex_served (ex_world (ex_consent true "https://app.example/c.json" [])) ex_provider (ex_env 7 "i7" "x7")
      (PostConsentVerify (ex_verify "cc")) =
    [CallGetConsent "cc" (inl (ex_consent true "https://app.example/c.json" []))] ++
      [CallAcceptConsent "cc" (accept_consent (ex_consent true "https://app.example/c.json" [])) (inl "https://hydra/next"%string)]) as H
    by (vm_compute; reflexivity).
  destruct (consent_accepted_soundly (fun s => s) ex_compile (fun _ => None) ex_create ex_get (fun _ => ""%string) (fun _ => None) (fun _ => "now"%string) false CeremonyProofs.ex_seeded _ CeremonyProofs.ex_run _ _ _ _ _ _ _ _ H) as (cr & Hin & _ & _ & Hsound).
  exists cr. split; [|exact Hsound]. apply list_elem_of_singleton in Hin. injection Hin as Hin. exact Hin.
Defined.

Lemma login_accepted_soundly_witness :
  exists b, passkey_login ex_create ex_get (fun _ => ""%string) (fun _ => None) (fun _ => "now"%string) false CeremonyProofs.ex_seeded CeremonyProofs.ex_run (ex_env 7 "i7" "x7") b "acc-1".
Proof.
  assert (ex_served (ex_world (ex_consent false "app" [])) ex_provider (ex_env 7 "i7" "x7")
      (PostLoginVerify (ex_verify "lc")) =
    [] ++ [CallAcceptLogin "lc" (accept_login "acc-1") (inl "https://hydra/next"%string)]) as H by (vm_compute; reflexivity).
  exact (proj2 (login_accepted_soundly (fun s => s) ex_compile (fun _ => None) ex_create ex_get (fun _ => ""%string) (fun _ => None) (fun _ => "now"%string) false CeremonyProofs.ex_seeded _ CeremonyProofs.ex_run _ _ _ _ _ _ _ _ H) eq_refl).
Defined.

Lemma logout_needs_client_witness :
  CallRejectLogout "lo" ∈ snd (snd (logoutPage (W := ClientTable * list call)
    (mkTable ∅ None None (Some (mkLogoutRequest "lo" "acc-1" None)) None, []) "lo")).
Proof.
  apply (proj2 (logout_needs_client (mkTable ∅ None None (Some (mkLogoutRequest "lo" "acc-1" None)) None) "lo") (mkLogoutRequest "lo" "acc-1" None)).
  - apply list_elem_of_In. vm_compute. left. reflexivity.
  - reflexivity.
Defined.

Lemma registration_within_policy_witness :
  exists granted, granted <> [] /\ "mcp offline_access"%string = Join (granted ++ ["offline_access"%string]) " ".
Proof.
  pose (b := mkDCR ["http://127.0.0.1/cb"%string] "mcp agent" "").
  assert (snd (snd (handleDCR (W := ClientTable * list call) ex_compile (ex_world (ex_consent false "app" []), []) ex_provider 0 [] b)) =
    [CallCreate (dcr_client "MCP Client" "mcp offline_access" ["http://127.0.0.1/cb"%string])
      (inl (dcr_client "MCP Client" "mcp offline_access" ["http://127.0.0.1/cb"%string]))]) as H by (vm_compute; reflexivity).
  destruct (registration_within_policy _ _ _ _ _ _ _ _ H) as ((granted & Hne & Hs & _) & _).
  exists granted. split; [exact Hne|exact Hs].
Defined.
