(* ===== verification/Broker.v ===== *)
(** * The signing broker (internal/approval/broker.go, wschannel.go and the
      wire shape of the request context in store.go)

    A request registers an action, tells every notification channel, and waits
    on its result channel, its error channel and its context. What the two
    channels receive is read off the callbacks the registry's history makes
    ([Approval.run]); the wait's [select] may take any ready case. *)
From S2P Require Import Prelude Base64 Tokens Approval.

(** ** Definitions *)

Record SignRequest := mkSignRequest {
  rq_CredentialID : string;
  rq_DataToSign : list byte;
  rq_RpID : string;
  rq_UserVerification : string;
  rq_PasskeyLabel : string;
  rq_ConnectionID : string
}.

Record KeyApproval := mkKeyApproval {
  ka_AccountID : string;
  ka_KeyLabel : string;
  ka_KeyFingerprint : string;
  ka_ConnectionID : string;
  ka_Context : Context_;
  ka_RedirectTo : string
}.

(** The values the program marshals: maps with string keys, as the list of
    their assignments. *)
Inductive json :=
  | JStr (s : string)
  | JObj (fields : list (string * json)).

Definition field_if (b : bool) (k v : string) : list (string * json) :=
  if b then [(k, JStr v)] else [].

Definition nonempty (s : string) : bool := negb (bool_decide (s = EmptyString)).

(** The json tags of HostKeyInfo. *)
Definition HostKeyInfo_json (h : HostKeyInfo) : json :=
  JObj [("type", JStr (hki_Type h)); ("fingerprint", JStr (hki_Fingerprint h));
        ("status", JStr (hki_Status h))].

Definition Context_MarshalJSON (c : Context_) : json :=
  let m := [("source", JStr (cx_Source c))]
    ++ field_if (nonempty (cx_EndpointLabel c)) "endpointLabel" (cx_EndpointLabel c)
    ++ field_if (nonempty (cx_EndpointAddress c)) "endpointAddress" (cx_EndpointAddress c)
    ++ field_if (nonempty (cx_SessionID c)) "sessionId" (cx_SessionID c)
    ++ match cx_HostKey c with Some h => [("hostKey", HostKeyInfo_json h)] | None => [] end in
  if bool_decide (cx_Source c = "endpoint-auth") then
    let tr := [("kind", JStr (cx_TriggerKind c))]
      ++ field_if (nonempty (cx_SourceIP c)) "sourceIp" (cx_SourceIP c)
      ++ (if bool_decide (cx_TriggerKind c = "mcp")
          then field_if (nonempty (cx_MCPReason c)) "reason" (cx_MCPReason c)
               ++ field_if (nonempty (cx_MCPClientName c)) "mcpClientName" (cx_MCPClientName c)
               ++ field_if (nonempty (cx_MCPClientVer c)) "mcpClientVersion" (cx_MCPClientVer c)
          else []) in
    JObj (m ++ [("trigger", JObj tr)])
  else
    JObj (m
      ++ field_if (nonempty (cx_SourceIP c)) "sourceIp" (cx_SourceIP c)
      ++ field_if (nonempty (cx_ClientHostname c)) "clientHostname" (cx_ClientHostname c)
      ++ field_if (nonempty (cx_ClientOS c)) "clientOs" (cx_ClientOS c)
      ++ field_if (nonempty (cx_ClientVersion c)) "clientVersion" (cx_ClientVersion c)).

(** What a notification channel is asked to deliver. *)
Inductive notice :=
  | Notify (a : Action) (deepLink : string)
  | Resolved (a : Action).

Definition ActionType_string (t : ActionType) : string :=
  match t with TypeWebAuthnSign => "webauthn-sign" | TypeKeyApprove => "key-approve" end.

(** The WebSocket channel: the account and the payload it is sent. *)
Definition WSChannel_Notify (a : Action) (deepLink : string) : string * list (string * json) :=
  let p := a_Params a in
  let c := cp_Context p in
  (cp_AccountID p,
   [("type", JStr "sign:request"); ("actionId", JStr (a_ID a));
    ("actionType", JStr (ActionType_string (cp_Type p)));
    ("deepLink", JStr deepLink); ("source", JStr (cx_Source c))]
   ++ field_if (nonempty (cx_EndpointLabel c)) "endpointLabel" (cx_EndpointLabel c)
   ++ field_if (nonempty (cx_EndpointAddress c)) "endpointAddress" (cx_EndpointAddress c)
   ++ match cx_HostKey c with Some h => [("hostKey", HostKeyInfo_json h)] | None => [] end
   ++ match cp_Type p with
      | TypeWebAuthnSign =>
          [("passkeyLabel", JStr (cp_PasskeyLabel p)); ("credentialId", JStr (cp_CredentialID p));
           ("challenge", JStr (cp_Challenge p)); ("rpId", JStr (cp_RpID p))]
      | TypeKeyApprove =>
          [("keyLabel", JStr (cp_KeyLabel p)); ("keyFingerprint", JStr (cp_KeyFingerprint p))]
      end).

Definition WSChannel_Resolved (a : Action) : string * list (string * json) :=
  (cp_AccountID (a_Params a), [("type", JStr "sign:resolved"); ("actionId", JStr (a_ID a))]).

Definition orDefault (s def : string) : string := if bool_decide (s = EmptyString) then def else s.

Definition string_of_bytes (l : list byte) : string := String.string_of_list_byte l.

Definition sign_params (accountID : string) (req : SignRequest) (actionCtx : Context_)
  (redirectTo : string) : CreateParams :=
  let challenge := string_of_bytes (b64_encode false true (rq_DataToSign req)) in
  {| cp_AccountID := accountID; cp_Type := TypeWebAuthnSign; cp_Context := actionCtx;
     cp_RedirectTo := redirectTo; cp_ConnectionID := rq_ConnectionID req;
     cp_CredentialID := rq_CredentialID req; cp_Challenge := challenge; cp_RpID := rq_RpID req;
     cp_PasskeyLabel := rq_PasskeyLabel req;
     cp_UserVerification := orDefault (rq_UserVerification req) "required";
     cp_KeyLabel := ""; cp_KeyFingerprint := "";
     cp_ResolveSign := true; cp_ResolveKey := false; cp_Reject := true |}.

Definition key_params (p : KeyApproval) : CreateParams :=
  {| cp_AccountID := ka_AccountID p; cp_Type := TypeKeyApprove; cp_Context := ka_Context p;
     cp_RedirectTo := ka_RedirectTo p; cp_ConnectionID := ka_ConnectionID p;
     cp_CredentialID := ""; cp_Challenge := ""; cp_RpID := ""; cp_PasskeyLabel := "";
     cp_UserVerification := ""; cp_KeyLabel := ka_KeyLabel p; cp_KeyFingerprint := ka_KeyFingerprint p;
     cp_ResolveSign := false; cp_ResolveKey := true; cp_Reject := true |}.

(** Broker.notifyResolved, and the Notify fan-out. *)
Definition notifyResolved {C} (channels : list C) (a : Action) : list (C * notice) :=
  map (fun ch => (ch, Resolved a)) channels.

Definition notifyAll {C} (channels : list C) (baseURL : string) (a : Action) : list (C * notice) :=
  map (fun ch => (ch, Notify a (String.append (String.append baseURL "/sign/") (a_ID a)))) channels.

(** The first halves of RequestSign and RequestKeyApproval: up to the wait. *)
Definition RequestSign {C} (channels : list C) (baseURL : string) (s : Registry) (now : Z) (id : string)
  (accountID : string) (req : SignRequest) (actionCtx : Context_) (redirectTo : string)
  : Action * Registry * list effect * list (C * notice) :=
  let '(action, s', es) := Create s now id (sign_params accountID req actionCtx redirectTo) in
  (action, s', es, notifyAll channels baseURL action).

Definition RequestKeyApproval {C} (channels : list C) (baseURL : string) (s : Registry) (now : Z)
  (id : string) (p : KeyApproval) : Action * Registry * list effect * list (C * notice) :=
  let '(action, s', es) := Create s now id (key_params p) in
  (action, s', es, notifyAll channels baseURL action).

(** What the registry has sent on a waiter's channels. *)
Definition resultCh (id : string) (es : list effect) : list SignResponse :=
  omap (fun e => match e with
                 | CallResolveSign i r => if decide (i = id) then Some r else None
                 | _ => None end) es.

Definition okCh (id : string) (es : list effect) : list unit :=
  omap (fun e => match e with
                 | CallResolveKey i => if decide (i = id) then Some tt else None
                 | _ => None end) es.

Definition errCh (id : string) (es : list effect) : list RejectError :=
  omap (fun e => match e with
                 | CallReject i err => if decide (i = id) then Some err else None
                 | _ => None end) es.

(** How a wait ends. *)
Inductive WaitResult :=
  | Signed (r : SignResponse)
  | Approved (actionID : string)
  | Failed (err : RejectError)
  | ContextDone.

(** The ready cases of the [select], each with what is then told to the
    channels; the runtime takes any one of them. *)
Definition RequestSign_select {C} (channels : list C) (action : Action) (es : list effect) (ctxDone : bool)
  : list (WaitResult * list (C * notice)) :=
  map (fun r => (Signed r, notifyResolved channels action)) (take 1 (resultCh (a_ID action) es))
  ++ map (fun e => (Failed e, notifyResolved channels action)) (take 1 (errCh (a_ID action) es))
  ++ (if ctxDone then [(ContextDone, [])] else []).

Definition RequestKeyApproval_select {C} (channels : list C) (action : Action) (es : list effect)
  (ctxDone : bool) : list (WaitResult * list (C * notice)) :=
  map (fun _ => (Approved (a_ID action), notifyResolved channels action)) (take 1 (okCh (a_ID action) es))
  ++ map (fun e => (Failed e, notifyResolved channels action)) (take 1 (errCh (a_ID action) es))
  ++ (if ctxDone then [(ContextDone, [])] else []).

(** Broker.CancelForConnection: the count, and the toasts cleared. *)
Definition Broker_CancelForConnection {C} (channels : list C) (order : list string) (s : Registry)
  (now : Z) (connectionID reason : string) : Z * Registry * list effect * list (C * notice) :=
  let '(cancelled, s', es) := CancelForConnection order s now connectionID reason in
  (zlen cancelled, s', es, concat (map (notifyResolved channels) cancelled)).

(** ** Lemmas: what a history sends to one waiter *)

Definition op_time (o : op) : Z :=
  match o with
  | OpCreate now _ _ | OpResolveSign now _ _ | OpResolveKey now _ | OpDeny now _
  | OpCancel now _ _ _ | OpSweep now _ => now
  end.

(** The event that explains each rejection. *)
Definition reject_cause (o : op) (id : string) (a : Action) (err : RejectError) : Prop :=
  match err with
  | ErrDenied => exists now, o = OpDeny now id /\ now < a_ExpiresAt a
  | ErrExpired => a_ExpiresAt a <= op_time o
  | ErrCancelled => exists now order reason, o = OpCancel now order (cp_ConnectionID (a_Params a)) reason
  end.

(** A reject call names a pending action, and its cause. *)
Lemma reject_of_settle err0 out now reason (l : list Action) id err :
  CallReject id err ∈ concat (map (fun a => rejectAction a err0 ++ emitResolved a out now reason) l) ->
  err = err0 /\ exists a, a ∈ l /\ a_ID a = id.
Proof.
  rewrite list_elem_of_In, in_concat. intros (es & Hes & Hin).
  apply in_map_iff in Hes as (a & <- & Ha). apply list_elem_of_In in Ha.
  unfold rejectAction, call_if, emitResolved in Hin.
  destruct (cp_Reject (a_Params a)); simpl in Hin; [|naive_solver].
  destruct Hin as [Hin|[?|[]]]; [|done]. simplify_eq. split; [done|]. by exists a.
Qed.

Lemma exec_reject s o s' es id err :
  wf s -> exec s o = (s', es) -> CallReject id err ∈ es ->
  exists a, s !! id = Some a /\ a_Status a = StatusPending /\ reject_cause o id a err.
Proof.
  intros Hwf.
  assert (Hone : forall a err0 out now reason, a_ID a = id ->
    CallReject id err ∈ rejectAction a err0 ++ emitResolved a out now reason -> err = err0).
  { intros a err0 out now reason _ Hin.
    destruct (reject_of_settle err0 out now reason [a] id err) as [? _]; [|done].
    simpl. by rewrite app_nil_r. }
  assert (Hclaim : forall now i typ to a' res s1 es1,
    takePending s now i typ to = (a', res, s1, es1) -> CallReject id err ∈ es1 ->
    i = id /\ err = ErrExpired /\ exists a, s !! id = Some a /\ a_Status a = StatusPending /\ a_ExpiresAt a <= now).
  { intros now i typ to a' res s1 es1 E Hin. pose proof (takePending_cases s now i typ to) as Hc.
    rewrite E in Hc. destruct a' as [a'|].
    - destruct Hc as (a & _ & _ & _ & _ & _ & _ & -> & _). set_solver.
    - destruct Hc as [_ [(-> & _ & _)|(a & Ha & Hp & Hle & _ & _ & ->)]]; [set_solver|].
      destruct (Hwf i a Ha) as [Hid _].
      destruct (reject_of_settle ErrExpired OutcomeExpired now "" [set_status a StatusExpired] id err)
        as (-> & b & ->%list_elem_of_singleton & Hb); [simpl; by rewrite app_nil_r|].
      simpl in Hb. rewrite Hid in Hb. subst. split; [done|]. split; [done|]. by exists a. }
  destruct o as [now i p|now i r|now i|now i|now order c r|now order]; simpl; intros E Hin.
  - simplify_eq. set_solver.
  - unfold ResolveSign in E. destruct (takePending _ _ _ _ _) as [[[a' res] s1] es1] eqn:Et.
    destruct (Hclaim _ _ _ _ _ _ _ _ Et) as (-> & -> & a & ? & ? & ?); [|by exists a].
    destruct a'; simplify_eq; [|done]. unfold call_if, emitResolved in Hin.
    destruct (cp_ResolveSign _); set_solver.
  - unfold ResolveKey in E. destruct (takePending _ _ _ _ _) as [[[a' res] s1] es1] eqn:Et.
    destruct (Hclaim _ _ _ _ _ _ _ _ Et) as (-> & -> & a & ? & ? & ?); [|by exists a].
    destruct a'; simplify_eq; [|done]. unfold call_if, emitResolved in Hin.
    destruct (cp_ResolveKey _); set_solver.
  - unfold Deny in E. destruct (takePending _ _ _ _ _) as [[[a' res] s1] es1] eqn:Et.
    pose proof (takePending_cases s now i None StatusDenied) as Hc. rewrite Et in Hc.
    destruct a' as [a'|]; simplify_eq.
    + destruct Hc as (a & Ha & Hp & Hlt & _ & -> & _ & -> & _). simpl in Hin.
      destruct (Hwf i a Ha) as [Hid _].
      destruct (reject_of_settle ErrDenied OutcomeDenied now "" [set_status a StatusDenied] id err)
        as (-> & b & ->%list_elem_of_singleton & Hb); [simpl; by rewrite app_nil_r|].
      simpl in Hb. rewrite Hid in Hb. subst. exists a. split; [done|]. split; [done|]. by exists now.
    + destruct (Hclaim _ _ _ _ _ _ _ _ Et Hin) as (-> & -> & a & ? & ? & ?). by exists a.
  - unfold CancelForConnection in E. pose proof (cancel_loop_entry order s c) as Hl.
    destruct (cancel_loop order s c) as [s1 l]. simplify_eq.
    destruct (reject_of_settle _ _ _ _ _ _ _ Hin) as (-> & a' & Ha' & Hid').
    apply Hl in Ha' as (j & a & _ & Ha & Hb & ->). destruct (Hwf j a Ha) as [Hid _].
    assert (j = id) as -> by (simpl in Hid'; congruence).
    unfold belongs in Hb. bool_to_prop. subst.
    exists a. split; [done|]. split; [done|]. by exists now, order, r.
  - unfold Sweep in E. pose proof (sweep_loop_entry order s now) as Hl.
    destruct (sweep_loop order s now) as [s1 l]. simplify_eq.
    destruct (reject_of_settle _ _ _ _ _ _ _ Hin) as (-> & a' & Ha' & Hid').
    apply Hl in Ha' as (j & a & _ & Ha & Hb & ->). destruct (Hwf j a Ha) as [Hid _].
    assert (j = id) as -> by (simpl in Hid'; congruence).
    unfold overdue, stillValid in Hb. bool_to_prop. exists a. split; [done|]. split; [done|]. simpl. done.
Qed.

Lemma exec_key_approval s o s' es id :
  wf s -> exec s o = (s', es) -> CallResolveKey id ∈ es ->
  exists now a, o = OpResolveKey now id /\ s !! id = Some a /\ a_Status a = StatusPending /\
    now < a_ExpiresAt a /\ cp_Type (a_Params a) = TypeKeyApprove.
Proof.
  intros Hwf.
  assert (Hconc : forall err out now reason l, CallResolveKey id ∉
    concat (map (fun a => rejectAction a err ++ emitResolved a out now reason) l)).
  { intros err out now reason l. induction l as [|a l IH]; simpl; [set_solver|].
    rewrite elem_of_app. intros [Hin|?]; [|done].
    unfold rejectAction, call_if, emitResolved in Hin. destruct (cp_Reject _); set_solver. }
  assert (Hclaim : forall now i typ to a' res s1 es1,
    takePending s now i typ to = (a', res, s1, es1) -> CallResolveKey id ∉ es1).
  { intros now i typ to a' res s1 es1 E. pose proof (takePending_cases s now i typ to) as Hc.
    rewrite E in Hc. destruct a' as [a'|].
    - destruct Hc as (a & _ & _ & _ & _ & _ & _ & -> & _). set_solver.
    - destruct Hc as [_ [(-> & _ & _)|(a & _ & _ & _ & _ & _ & ->)]]; [set_solver|].
      specialize (Hconc ErrExpired OutcomeExpired now ""%string [set_status a StatusExpired]).
      simpl in Hconc. by rewrite app_nil_r in Hconc. }
  destruct o as [now i p|now i r|now i|now i|now order c r|now order]; simpl; intros E Hin.
  - simplify_eq. set_solver.
  - unfold ResolveSign in E. destruct (takePending _ _ _ _ _) as [[[a' res] s1] es1] eqn:Et.
    apply Hclaim in Et. destruct a'; simplify_eq; [|done]. unfold call_if, emitResolved in Hin.
    destruct (cp_ResolveSign _); set_solver.
  - unfold ResolveKey in E. destruct (takePending _ _ _ _ _) as [[[a' res] s1] es1] eqn:Et.
    pose proof (takePending_cases s now i (Some TypeKeyApprove) StatusCompleted) as Hc. rewrite Et in Hc.
    apply Hclaim in Et. destruct a' as [a'|]; simplify_eq; [|done].
    destruct Hc as (a & Ha & Hp & Hlt & Ht & -> & _ & -> & _). destruct (Hwf i a Ha) as [Hid _].
    simpl in Hin. unfold call_if, emitResolved in Hin. rewrite Hid in Hin.
    destruct (cp_ResolveKey _); [|set_solver].
    assert (Heq : CallResolveKey id = CallResolveKey i) by set_solver. simplify_eq.
    exists now, a. by rewrite (Ht TypeKeyApprove).
  - unfold Deny in E. destruct (takePending _ _ _ _ _) as [[[a' res] s1] es1] eqn:Et.
    apply Hclaim in Et. destruct a' as [a'|]; simplify_eq; [|done].
    specialize (Hconc ErrDenied OutcomeDenied now ""%string [a']). simpl in Hconc.
    rewrite app_nil_r in Hconc. set_solver.
  - unfold CancelForConnection in E. destruct (cancel_loop order s c). simplify_eq. by apply Hconc in Hin.
  - unfold Sweep in E. destruct (sweep_loop order s now). simplify_eq. by apply Hconc in Hin.
Qed.

(** The callbacks that reach a waiter of either kind are set. *)
Definition callbacks_set (p : CreateParams) : Prop :=
  cp_Reject p = true /\
  match cp_Type p with
  | TypeWebAuthnSign => cp_ResolveSign p = true
  | TypeKeyApprove => cp_ResolveKey p = true
  end.

Definition waiting (s : Registry) (id : string) (a : Action) : Prop :=
  exists b, s !! id = Some b /\ a_Status b = StatusPending /\ same_request a b.

Definition answered (id : string) (es : list effect) : Prop :=
  exists e, e ∈ es /\ callback_of e = Some id.

Lemma waiting_insert_ne (s : Registry) id a j b :
  s !! id = Some a -> a_Status a = StatusPending -> j <> id -> waiting (<[j := b]> s) id a.
Proof. intros. exists a. by rewrite registry_insert_ne. Qed.

Lemma answered_reject a err out now reason :
  cp_Reject (a_Params a) = true -> answered (a_ID a) (rejectAction a err ++ emitResolved a out now reason).
Proof.
  intros Hr. exists (CallReject (a_ID a) err). split; [|done].
  unfold rejectAction. rewrite Hr. by left.
Qed.

Lemma answered_concat (f : Action -> list effect) a l id :
  a ∈ l -> answered id (f a) -> answered id (concat (map f l)).
Proof.
  intros Ha (e & He & Hid). exists e. split; [|done]. rewrite list_elem_of_In, in_concat.
  exists (f a). split; [by apply in_map, list_elem_of_In|by apply list_elem_of_In].
Qed.

Lemma answered_app id es1 es2 : answered id es1 \/ answered id es2 -> answered id (es1 ++ es2).
Proof. intros [(e & ? & ?)|(e & ? & ?)]; exists e; rewrite elem_of_app; tauto. Qed.

(** A claim leaves the action waiting, or takes it, or tells its waiter. *)
Lemma claim_answers s now i typ to id a :
  wf s -> s !! id = Some a -> a_Status a = StatusPending -> cp_Reject (a_Params a) = true ->
  let '(a', res, s', es) := takePending s now i typ to in
  waiting s' id a \/ answered id es \/
  (a' = Some (set_status a to) /\ i = id /\ es = [] /\ forall t, typ = Some t -> cp_Type (a_Params a) = t).
Proof.
  intros Hwf Ha Hp Hr. pose proof (takePending_cases s now i typ to) as Hc.
  destruct (takePending s now i typ to) as [[[a' res] s'] es]. destruct (decide (i = id)) as [->|Hne].
  - destruct a' as [a'|].
    + destruct Hc as (b & Hb & _ & _ & Ht & -> & _ & -> & _). simplify_eq. right. right. done.
    + destruct Hc as [_ [(-> & -> & _)|(b & Hb & _ & _ & _ & _ & ->)]].
      * left. exists a. done.
      * right. left. simplify_eq. destruct (Hwf id a Ha) as [Hid _]. rewrite <- Hid.
        by apply (answered_reject (set_status a StatusExpired)).
  - left. destruct a' as [a'|].
    + destruct Hc as (b & Hb & _ & _ & Ht & -> & -> & -> & _). by apply waiting_insert_ne.
    + destruct Hc as [_ [(-> & -> & _)|(b & Hb & _ & _ & -> & _ & ->)]];
        [by exists a|by apply waiting_insert_ne].
Qed.

Lemma answered_one e id rest : callback_of e = Some id -> answered id (call_if true e ++ rest).
Proof. intros. exists e. split; [by left|done]. Qed.

(** No operation forgets a waiter: it stays registered or is told. *)
Lemma exec_answers s o s' es id a :
  wf s -> s !! id = Some a -> a_Status a = StatusPending -> callbacks_set (a_Params a) ->
  creates o id = false -> exec s o = (s', es) -> waiting s' id a \/ answered id es.
Proof.
  intros Hwf Ha Hp [Hr Hs] Hc. destruct (Hwf id a Ha) as [Hid _].
  destruct o as [now i p|now i r|now i|now i|now order c r|now order]; simpl; intros E.
  - simplify_eq. left. apply waiting_insert_ne; try done. simpl in Hc. by bool_to_prop.
  - unfold ResolveSign in E.
    pose proof (claim_answers s now i (Some TypeWebAuthnSign) StatusCompleted id a Hwf Ha Hp Hr) as Hcl.
    destruct (takePending _ _ _ _ _) as [[[a' res] s1] es1].
    destruct Hcl as [?|[?|(-> & -> & -> & Ht)]]; try destruct a'; simplify_eq/=; eauto using answered_app.
    right. rewrite (Ht TypeWebAuthnSign) in Hs by done. simpl. rewrite Hs. by apply answered_one; simpl; f_equal.
  - unfold ResolveKey in E.
    pose proof (claim_answers s now i (Some TypeKeyApprove) StatusCompleted id a Hwf Ha Hp Hr) as Hcl.
    destruct (takePending _ _ _ _ _) as [[[a' res] s1] es1].
    destruct Hcl as [?|[?|(-> & -> & -> & Ht)]]; try destruct a'; simplify_eq/=; eauto using answered_app.
    right. rewrite (Ht TypeKeyApprove) in Hs by done. simpl. rewrite Hs. by apply answered_one; simpl; f_equal.
  - unfold Deny in E.
    pose proof (claim_answers s now i None StatusDenied id a Hwf Ha Hp Hr) as Hcl.
    destruct (takePending _ _ _ _ _) as [[[a' res] s1] es1].
    destruct Hcl as [?|[?|(-> & -> & -> & Ht)]]; try destruct a'; simplify_eq/=; eauto using answered_app.
    right. simpl. by apply (answered_reject (set_status a StatusDenied)).
  - unfold CancelForConnection in E. pose proof (cancel_loop_entry order s c) as Hl.
    destruct (cancel_loop order s c) as [s1 l]. destruct Hl as [Hl Hm]. simplify_eq.
    destruct (decide (a_ID a ∈ order)) as [Hin|Hin], (belongs c a) eqn:Eb;
      try (left; exists a; rewrite Hl, ?decide_True, ?decide_False, Ha by done; simpl; by rewrite ?Eb).
    right. apply (answered_concat _ (set_status a StatusDenied)).
    + apply Hm. by exists (a_ID a), a.
    + by apply (answered_reject (set_status a StatusDenied)).
  - unfold Sweep in E. pose proof (sweep_loop_entry order s now) as Hl.
    destruct (sweep_loop order s now) as [s1 l]. destruct Hl as [Hl Hm]. simplify_eq.
    destruct (decide (a_ID a ∈ order)) as [Hin|Hin], (overdue a now) eqn:Eb.
    + right. apply (answered_concat _ (set_status a StatusExpired)).
      * apply Hm. by exists (a_ID a), a.
      * by apply (answered_reject (set_status a StatusExpired)).
    + left. exists a. rewrite Hl, decide_True, Ha by done. simpl. unfold swept. rewrite Eb.
      by rewrite Hp.
    + left. exists a. by rewrite Hl, decide_False, Ha.
    + left. exists a. by rewrite Hl, decide_False, Ha.
Qed.

Lemma run_answers ops s id a :
  wf s -> s !! id = Some a -> a_Status a = StatusPending -> callbacks_set (a_Params a) ->
  id ∉ created_ids ops ->
  let '(s', es) := run s ops in waiting s' id a \/ answered id es.
Proof.
  revert s a. induction ops as [|o ops IH]; intros s a Hwf Ha Hp Hcb Hn; simpl; [left; by exists a|].
  destruct (exec s o) as [s1 es1] eqn:E. pose proof (exec_delta _ _ _ _ Hwf E) as [Hwf1 _].
  rewrite created_cons in Hn.
  destruct (exec_answers s o s1 es1 id a Hwf Ha Hp Hcb) as [(b & Hb & Hpb & Hs)|Hans]; [|done| |].
  { destruct o; try done. simpl. apply bool_decide_false. set_solver. }
  - specialize (IH s1 b Hwf1 Hb Hpb). destruct (run s1 ops) as [s2 es2].
    destruct Hs as (? & Hs & ? & ?).
    destruct IH as [(d & Hd & Hpd & Hsd)|?]; [by rewrite <- Hs|destruct o; set_solver| |].
    + left. exists d. split; [done|]. split; [done|]. unfold same_request in *. intuition congruence.
    + right. apply answered_app. by right.
  - destruct (run s1 ops) as [s2 es2]. right. apply answered_app. by left.
Qed.

Lemma answered_count id es : answered id es -> (1 <= count_id callback_of id es)%nat.
Proof.
  intros (e & He & Hid). apply list_elem_of_split in He as (l1 & l2 & ->).
  change (e :: l2) with ([e] ++ l2). rewrite !count_id_app, count_id_one, decide_True by done. lia.
Qed.

(** The calls for an id are the messages on its three channels. *)
Lemma count_channels id es :
  count_id callback_of id es
  = (length (resultCh id es) + length (okCh id es) + length (errCh id es))%nat.
Proof.
  induction es as [|e es IH]; [done|].
  change (e :: es) with ([e] ++ es). rewrite count_id_app, count_id_one, IH. clear IH.
  assert (Happ : length (resultCh id ([e] ++ es)) = (length (resultCh id [e]) + length (resultCh id es))%nat
    /\ length (okCh id ([e] ++ es)) = (length (okCh id [e]) + length (okCh id es))%nat
    /\ length (errCh id ([e] ++ es)) = (length (errCh id [e]) + length (errCh id es))%nat).
  { unfold resultCh, okCh, errCh. by rewrite !omap_app, !length_app. }
  destruct Happ as (-> & -> & ->).
  assert (Hone : (if decide (callback_of e = Some id) then 1 else 0)%nat
    = (length (resultCh id [e]) + length (okCh id [e]) + length (errCh id [e]))%nat); [|lia].
  unfold resultCh, okCh, errCh.
  destruct e as [a|i r|i|i err|ev]; cbn [callback_of]; try (by rewrite decide_False);
    (destruct (decide (i = id)) as [->|Hne];
     [rewrite (decide_True (P := Some id = Some id)) by done; simpl; by rewrite decide_True by done
     |rewrite (decide_False (P := Some i = Some id)) by congruence; simpl; by rewrite decide_False by done]).
Qed.

Lemma elem_of_resultCh id r es : r ∈ resultCh id es <-> CallResolveSign id r ∈ es.
Proof.
  unfold resultCh. rewrite list_elem_of_omap. split.
  - intros (e & He & E). destruct e; try done. case_decide; simplify_eq. done.
  - intros. exists (CallResolveSign id r). by rewrite decide_True.
Qed.

Lemma elem_of_okCh id u es : u ∈ okCh id es <-> CallResolveKey id ∈ es.
Proof.
  unfold okCh. rewrite list_elem_of_omap. split.
  - intros (e & He & E). destruct e; try done. case_decide; simplify_eq. done.
  - intros. exists (CallResolveKey id). rewrite decide_True by done. by destruct u.
Qed.

Lemma elem_of_errCh id err es : err ∈ errCh id es <-> CallReject id err ∈ es.
Proof.
  unfold errCh. rewrite list_elem_of_omap. split.
  - intros (e & He & E). destruct e; try done. case_decide; simplify_eq. done.
  - intros. exists (CallReject id err). by rewrite decide_True.
Qed.

(** The channels of a waiter over a whole history: at most one message, and an
    explanation for it. *)
Lemma wait_causes h id t p :
  NoDup (created_ids h) -> OpCreate t id p ∈ h ->
  let es := snd (run ∅ h) in
  (length (resultCh id es) + length (okCh id es) + length (errCh id es) <= 1)%nat /\
  (forall r, r ∈ resultCh id es -> cp_Type p = TypeWebAuthnSign /\ sr_ActionID r = id /\
     exists now r0, OpResolveSign now id r0 ∈ h /\ now < t + ActionTTL) /\
  (forall u, u ∈ okCh id es -> cp_Type p = TypeKeyApprove /\
     exists now, OpResolveKey now id ∈ h /\ now < t + ActionTTL) /\
  (forall err, err ∈ errCh id es -> exists o, o ∈ h /\
     match err with
     | ErrDenied => exists now, o = OpDeny now id /\ now < t + ActionTTL
     | ErrExpired => t + ActionTTL <= op_time o
     | ErrCancelled => exists now order reason, o = OpCancel now order (cp_ConnectionID p) reason
     end).
Proof.
  intros Hnd Hin. cbv zeta.
  assert (Hsplit : forall e, e ∈ snd (run ∅ h) -> exists h1 o h2 s1 es1 s2 es2,
    h = h1 ++ o :: h2 /\ run ∅ h1 = (s1, es1) /\ exec s1 o = (s2, es2) /\ e ∈ es2).
  { clear. induction h as [|o h IH] using rev_ind; [set_solver|]. intros e He. rewrite run_app in He.
    destruct (run ∅ h) as [s1 es1] eqn:Er. simpl in He. destruct (exec s1 o) as [s2 es2] eqn:E.
    simpl in He. rewrite app_nil_r, elem_of_app in He. destruct He as [He|He].
    - destruct (IH e He) as (h1 & o' & h2 & x). destruct x as (s3 & es3 & s4 & es4 & -> & ? & ? & ?).
      exists h1, o', (h2 ++ [o]), s3, es3, s4, es4. by rewrite <- app_assoc.
    - by exists h, o, [], s1, es1, s2, es2. }
  assert (Hcreated : forall h1 o h2 s1 es1 a, h = h1 ++ o :: h2 -> run ∅ h1 = (s1, es1) ->
    s1 !! id = Some a -> a_Params a = p /\ a_ExpiresAt a = t + ActionTTL).
  { intros h1 o h2 s1 es1 a -> Hr Ha. pose proof (run_origin h1 id a) as Ho. rewrite Hr in Ho.
    destruct (Ho Ha) as [Ho1 Ho2].
    assert (Hu : forall l, NoDup (created_ids l) -> forall t1 p1 t2 p2,
      OpCreate t1 id p1 ∈ l -> OpCreate t2 id p2 ∈ l -> t1 = t2 /\ p1 = p2).
    { clear. induction l as [|x l IH]; intros Hnd t1 p1 t2 p2 H1 H2; [set_solver|].
      assert (Hmem : forall t p, OpCreate t id p ∈ l -> id ∈ created_ids l).
      { intros t p Hl. apply list_elem_of_omap. by exists (OpCreate t id p). }
      rewrite created_cons in Hnd. apply elem_of_cons in H1, H2.
      destruct H1 as [H1|H1], H2 as [H2|H2]; subst.
      - by simplify_eq.
      - apply NoDup_cons in Hnd as [Hn _]. by apply Hmem in H2.
      - apply NoDup_cons in Hnd as [Hn _]. by apply Hmem in H1.
      - apply (IH ltac:(destruct x; try done; by apply NoDup_cons in Hnd as [_ ?]) _ _ _ _ H1 H2). }
    destruct (Hu _ Hnd (a_CreatedAt a) (a_Params a) t p) as [<- <-]; [|done|done].
    rewrite elem_of_app. by left. }
  assert (Hwf : forall h1 s1 es1, run ∅ h1 = (s1, es1) -> wf s1).
  { intros h1 s1 es1 E. pose proof (run_wf ∅ h1 wf_empty) as Hw. by rewrite E in Hw. }
  split; [|split; [|split]].
  - rewrite <- count_channels. pose proof (run_counts h ∅ id wf_empty) as Hc.
    assert (Hp : forall i, phase ∅ i = None) by (intros; unfold phase; by rewrite registry_empty).
    destruct (run ∅ h) as [s es]. destruct Hc as (? & _); [by split|]. simpl. lia.
  - intros r (h1 & o & h2 & s1 & es1 & s2 & es2 & Hh & Hr & E & He)%elem_of_resultCh%Hsplit.
    destruct (exec_approval _ _ _ _ _ _ (Hwf _ _ _ Hr) E He) as (now & r0 & a & -> & Ha & _ & Hlt & Ht & Hid).
    destruct (Hcreated _ _ _ _ _ _ Hh Hr Ha) as [Hp Hx]. rewrite Hp in Ht. split; [done|].
    split; [done|]. exists now, r0. rewrite <- Hx. split; [|done]. rewrite Hh, elem_of_app. right. by left.
  - intros u (h1 & o & h2 & s1 & es1 & s2 & es2 & Hh & Hr & E & He)%elem_of_okCh%Hsplit.
    destruct (exec_key_approval _ _ _ _ _ (Hwf _ _ _ Hr) E He) as (now & a & -> & Ha & _ & Hlt & Ht).
    destruct (Hcreated _ _ _ _ _ _ Hh Hr Ha) as [Hp Hx]. rewrite Hp in Ht. split; [done|].
    exists now. rewrite <- Hx. split; [|done]. rewrite Hh, elem_of_app. right. by left.
  - intros err (h1 & o & h2 & s1 & es1 & s2 & es2 & Hh & Hr & E & He)%elem_of_errCh%Hsplit.
    destruct (exec_reject _ _ _ _ _ _ (Hwf _ _ _ Hr) E He) as (a & Ha & _ & Hcause).
    destruct (Hcreated _ _ _ _ _ _ Hh Hr Ha) as [Hp Hx]. rewrite <- Hp, <- Hx. exists o.
    split; [|by destruct err]. rewrite Hh, elem_of_app. right. by left.
Qed.

(** ** Properties *)

(** A signing request ends with an assertion only when a human resolved that
    very action within the minute it lives, with "denied" only when a human
    denied it in time, with "cancelled" only when its own connection was
    cancelled, and with "expired" only at or after its deadline. At most one of
    its two channels is ever ready, and every end but the caller's own
    cancellation clears the toast on every channel. *)
Theorem RequestSign_outcome {C} (channels : list C) (h : list op) (t : Z) (id accountID redirectTo : string)
  (req : SignRequest) (actionCtx : Context_) (action : Action)
  (Huuid : NoDup (created_ids h))
  (Hcreate : OpCreate t id (sign_params accountID req actionCtx redirectTo) ∈ h)
  (Haction : a_ID action = id) :
  let es := snd (run ∅ h) in
  (length (RequestSign_select channels action es false) <= 1)%nat /\
  forall ctxDone w told, (w, told) ∈ RequestSign_select channels action es ctxDone ->
    match w with
    | Signed r => told = notifyResolved channels action /\ sr_ActionID r = id /\
        exists now r0, OpResolveSign now id r0 ∈ h /\ now < t + 60 * second
    | Failed ErrDenied => told = notifyResolved channels action /\
        exists now, OpDeny now id ∈ h /\ now < t + 60 * second
    | Failed ErrExpired => told = notifyResolved channels action /\
        exists o, o ∈ h /\ t + 60 * second <= op_time o
    | Failed ErrCancelled => told = notifyResolved channels action /\
        exists now order reason, OpCancel now order (rq_ConnectionID req) reason ∈ h
    | ContextDone => ctxDone = true
    | Approved _ => False
    end.
Proof.
  subst id. destruct (wait_causes h (a_ID action) t _ Huuid Hcreate) as (Hlen & Hsign & _ & Herr). cbv zeta in *.
  set (es := snd (run ∅ h)) in *. clearbody es. unfold RequestSign_select. split.
  - rewrite !length_app, !length_map, !length_take. cbn [length]. lia.
  - intros ctxDone w told Hin. rewrite !elem_of_app in Hin.
    assert (Htake : forall A (x : A) l, x ∈ take 1 l -> x ∈ l).
    { intros A x [|y l]; simpl; [done|]. rewrite list_elem_of_singleton. intros ->. by left. }
    destruct Hin as [Hin|[Hin|Hin]].
    + apply list_elem_of_fmap in Hin as (r & ? & Hr%Htake). simplify_eq.
      by destruct (Hsign r Hr) as (_ & ? & ?).
    + apply list_elem_of_fmap in Hin as (err & ? & He%Htake). simplify_eq.
      destruct (Herr err He) as (o & Ho & Hc). destruct err.
      * destruct Hc as (now & -> & ?). split; [done|]. by exists now.
      * split; [done|]. by exists o.
      * destruct Hc as (now & order & reason & ->). split; [done|]. by exists now, order, reason.
    + destruct ctxDone; [|by apply not_elem_of_nil in Hin].
      apply list_elem_of_singleton in Hin. by simplify_eq.
Qed.

Definition sample_request : SignRequest := mkSignRequest "cred" [] "localhost" "" "key" "c".

Definition sample_history : list op :=
  [OpCreate 0 "a" (sign_params "alice" sample_request sample_context "");
   OpDeny 5 "a"; OpSweep 70000000000 ["a"%string]].

Definition sample_action : Action :=
  fst (fst (Create ∅ 0 "a" (sign_params "alice" sample_request sample_context ""))).

Lemma RequestSign_outcome_witness :
  let es := snd (run ∅ sample_history) in
  (length (RequestSign_select [0%nat] sample_action es false) <= 1)%nat /\
  forall ctxDone w told, (w, told) ∈ RequestSign_select [0%nat] sample_action es ctxDone ->
    match w with
    | Signed r => told = notifyResolved [0%nat] sample_action /\ sr_ActionID r = "a"%string /\
        exists now r0, OpResolveSign now "a" r0 ∈ sample_history /\ now < 0 + 60 * second
    | Failed ErrDenied => told = notifyResolved [0%nat] sample_action /\
        exists now, OpDeny now "a" ∈ sample_history /\ now < 0 + 60 * second
    | Failed ErrExpired => told = notifyResolved [0%nat] sample_action /\
        exists o, o ∈ sample_history /\ 0 + 60 * second <= op_time o
    | Failed ErrCancelled => told = notifyResolved [0%nat] sample_action /\
        exists now order reason, OpCancel now order "c" reason ∈ sample_history
    | ContextDone => ctxDone = true
    | Approved _ => False
    end.
Proof.
  apply (RequestSign_outcome [0%nat] sample_history 0 "a" "alice" "" sample_request sample_context sample_action).
  - unfold sample_history. simpl. repeat constructor. set_solver.
  - unfold sample_history. by left.
  - done.
Defined.

(** A waiter is never left behind: once the janitor has visited the action
    after its deadline, whatever happened in between, exactly one message has
    been sent to exactly one of its channels, so the wait has a ready case;
    this holds for passkey and for file-key requests (C11). *)
Theorem waiter_always_answered (h1 h2 : list op) (t now : Z) (id : string) (p : CreateParams)
  (order : list string)
  (Huuid : NoDup (created_ids (h1 ++ OpCreate t id p :: h2)))
  (Hcb : callbacks_set p) (Hvisit : id ∈ order) (Hlate : t + 60 * second <= now) :
  let es := snd (run ∅ (h1 ++ OpCreate t id p :: h2 ++ [OpSweep now order])) in
  (length (resultCh id es) + length (okCh id es) + length (errCh id es) = 1)%nat.
Proof.
  cbv zeta.
  assert (Hsame : created_ids (h1 ++ OpCreate t id p :: h2 ++ [OpSweep now order])
                  = created_ids (h1 ++ OpCreate t id p :: h2)).
  { unfold created_ids. rewrite !omap_app. simpl. rewrite omap_app. simpl. by rewrite app_nil_r. }
  destruct (wait_causes (h1 ++ OpCreate t id p :: h2 ++ [OpSweep now order]) id t p) as [Hle _].
  { by rewrite Hsame. }
  { rewrite elem_of_app. right. by left. }
  cbv zeta in Hle. rewrite <- count_channels in Hle |- *.
  enough (Hans : answered id (snd (run ∅ (h1 ++ OpCreate t id p :: h2 ++ [OpSweep now order])))).
  { apply answered_count in Hans. lia. }
  clear Hle Hsame. rewrite run_app. pose proof (run_wf ∅ h1 wf_empty) as Hwf.
  destruct (run ∅ h1) as [s1 es1]. simpl in *.
  set (a0 := mkAction id p StatusPending t (t + ActionTTL)).
  destruct (exec_delta s1 (OpCreate t id p) _ _ Hwf eq_refl) as [Hwf2 _].
  change (snd (fst (Create s1 t id p))) with (<[id := a0]> s1) in Hwf2. simpl in Hwf2.
  rewrite run_app. fold a0 in Hwf2. fold a0.
  pose proof (run_answers h2 (<[id := a0]> s1) id a0 Hwf2) as Hans.
  pose proof (run_wf (<[id := a0]> s1) h2 Hwf2) as Hwf3.
  destruct (run (<[id := a0]> s1) h2) as [s3 es3]. simpl in *.
  destruct (Sweep order s3 now) as [s4 es4] eqn:Es. simpl. rewrite app_nil_r.
  destruct Hans as [(b & Hb & Hpb & Hsr)|Hans]; [by rewrite registry_insert_eq|done|done| | |].
  { unfold created_ids in Huuid. rewrite omap_app in Huuid. simpl in Huuid.
    apply NoDup_app in Huuid as (_ & _ & Hn). by apply NoDup_cons in Hn as [? _]. }
  - destruct Hsr as (_ & Hpar & _ & Hx). simpl in Hpar, Hx.
    assert (exec s3 (OpSweep now order) = (s4, es4)) as E by done.
    destruct (exec_answers s3 (OpSweep now order) s4 es4 id b Hwf3 Hb Hpb) as [(d & Hd & Hpd & _)|Ha]; [|done|done| |].
    + by rewrite <- Hpar.
    + exfalso. unfold Sweep in Es. pose proof (sweep_loop_entry order s3 now) as Hl.
      destruct (sweep_loop order s3 now) as [s5 l]. destruct Hl as [Hl _]. simplify_eq.
      rewrite Hl, decide_True, Hb in Hd by done. simpl in Hd. unfold swept in Hd.
      assert (Ho : overdue b now = true).
      { unfold overdue, stillValid. rewrite Hpb. simpl. apply negb_true_iff, Z.ltb_ge.
        rewrite <- Hx. unfold ActionTTL. lia. }
      rewrite Ho in Hd. simpl in Hd. destruct (_ >? _); [done|]. simplify_eq.
    + apply answered_app. right. apply (answered_app _ [_]). right. apply answered_app. by right.
  - apply answered_app. right. apply (answered_app _ [_]). right. apply answered_app. by left.
Qed.

Lemma waiter_always_answered_witness :
  let p := key_params (mkKeyApproval "alice" "laptop" "SHA256:x" "c" sample_context "") in
  let es := snd (run ∅ ([] ++ OpCreate 0 "a" p :: [OpResolveKey 61000000000 "a"]
                        ++ [OpSweep 70000000000 ["a"%string]])) in
  (length (resultCh "a" es) + length (okCh "a" es) + length (errCh "a" es) = 1)%nat.
Proof.
  apply (waiter_always_answered [] [OpResolveKey 61000000000 "a"] 0 70000000000 "a"
    (key_params (mkKeyApproval "alice" "laptop" "SHA256:x" "c" sample_context ""))).
  - simpl. repeat constructor. set_solver.
  - done.
  - by left.
  - done.
Defined.
