(* ===== verification/HostKeys.v ===== *)
(** * Host-key pinning during a connection (internal/sshx: hostkey.go,
      webauthn_signer.go, filekey_signer.go and the decisions of Connect in
      transport.go)

    The pin store is the interface [HostKeys], whose laws are the contract the
    Go interface documents; PinStore.v discharges them. A connection is a state
    machine driven by what the handshake library reports: key exchanges, signing
    rounds with the human's answer, the end of the handshake. Between any two
    of these the rest of the program may change the store. *)
From S2P Require Import Prelude SSHWire Approval.

(** ** Data *)

(** [ssh.PublicKey]: its Type() and Marshal(). *)
Record PublicKey := mkKey { pk_Type : string; pk_Marshal : list byte }.

Record ObservedHostKey := mkObserved {
  oh_Type : string; oh_Key : list byte; oh_Fingerprint : string }.

(** [ph_Key] is empty for fingerprint-only pins. *)
Record PinnedHostKey := mkPinned {
  ph_Type : string; ph_Key : list byte; ph_Fingerprint : string }.

Record PinRequest := mkPinRequest {
  pr_EndpointID : string;
  pr_Host : string;
  pr_Port : Z;
  pr_Observed : ObservedHostKey;
  pr_PinnedBy : string;
  pr_ActionID : string
}.

Inductive HostKeyStatus := HostKeyUnseen | HostKeyNew | HostKeyKnown.

#[export] Instance HostKeyStatus_eq_dec : EqDecision HostKeyStatus.
Proof. solve_decision. Defined.

Record HostKeyState := mkState {
  hs_status : HostKeyStatus;
  hs_observed : ObservedHostKey;
  hs_pinned : bool;
  hs_dialHost : string;
  hs_dialPort : Z
}.

(** Go's zero value. *)
Definition fresh_state : HostKeyState := mkState HostKeyUnseen (mkObserved "" [] "") false "" 0.

Record HostKeyMismatchError := mkMismatch {
  mm_EndpointID : string;
  mm_ObservedKeyType : string;
  mm_ObservedFingerprint : string;
  mm_PinnedFingerprint : string
}.

(** The ways a pin write fails. *)
Inductive PinError :=
  | ErrDatabase
  | ErrEndpointNotFound
  | ErrUnknownDemo
  | ErrHostKeyPinned
  | ErrEndpointAddressChanged
  | ErrNoPinStore.

(** What a pin store promises its clients. [io] says, query by query, whether
    the database answered; [hk_peek] is the pin actually stored. A lookup
    answers the stored pin; a successful write leaves a pin with the observed
    fingerprint, made of the observed key if there was none; no write, whatever
    its answer, replaces a pin or touches another endpoint's. *)
Class HostKeys (S : Type) := {
  hk_lookup : S -> list bool -> string -> option (option PinnedHostKey);
  hk_pin : S -> list bool -> PinRequest -> S * option PinError;
  hk_peek : S -> string -> option PinnedHostKey;
  hk_lookup_spec s io id p : hk_lookup s io id = Some p -> p = hk_peek s id;
  hk_pin_ok s io req s' : hk_pin s io req = (s', None) ->
    exists p, hk_peek s' (pr_EndpointID req) = Some p /\
      ph_Fingerprint p = oh_Fingerprint (pr_Observed req);
  hk_pin_keeps s io req s' r id p : hk_pin s io req = (s', r) ->
    hk_peek s id = Some p -> hk_peek s' id = Some p;
  hk_pin_new s io req s' r id p : hk_pin s io req = (s', r) ->
    hk_peek s id = None -> hk_peek s' id = Some p ->
    id = pr_EndpointID req /\ r = None /\
    p = mkPinned (oh_Type (pr_Observed req)) (oh_Key (pr_Observed req)) (oh_Fingerprint (pr_Observed req))
}.

(** ** The connection's record (hostkey.go) *)

Definition observe (s : HostKeyState) (status : HostKeyStatus) (key : ObservedHostKey) : HostKeyState :=
  mkState status key (hs_pinned s) (hs_dialHost s) (hs_dialPort s).

Definition setDialAddress (s : HostKeyState) (host : string) (port : Z) : HostKeyState :=
  mkState (hs_status s) (hs_observed s) (hs_pinned s) host port.

Definition dialAddress (s : HostKeyState) : string * Z := (hs_dialHost s, hs_dialPort s).

Definition MarkPinned (s : HostKeyState) : HostKeyState :=
  mkState (hs_status s) (hs_observed s) true (hs_dialHost s) (hs_dialPort s).

Definition Snapshot (s : HostKeyState) : HostKeyStatus * ObservedHostKey * bool :=
  (hs_status s, hs_observed s, hs_pinned s).

(** [ParsePublicKey] answers the type of the key it parses. *)
Definition hostKeyAlgorithmsFor (ParsePublicKey : list byte -> option string)
  (pin : option PinnedHostKey) : list string :=
  match pin with
  | None => []
  | Some pin =>
      if zlen (ph_Key pin) =? 0 then []
      else match ParsePublicKey (ph_Key pin) with
           | None => []
           | Some typ =>
               if bool_decide (typ = "ssh-rsa")
               then ["rsa-sha2-512"; "rsa-sha2-256"; "ssh-rsa"]%string
               else [typ]
           end
  end.

Definition observed_key (FingerprintSHA256 : list byte -> string) (key : PublicKey) : ObservedHostKey :=
  mkObserved (pk_Type key) (pk_Marshal key) (FingerprintSHA256 (pk_Marshal key)).

(** Does the stored pin vouch for the key? *)
Definition pin_matches (pin : PinnedHostKey) (observed : ObservedHostKey) : bool :=
  if 0 <? zlen (ph_Key pin) then bool_decide (ph_Key pin = oh_Key observed)
  else bool_decide (ph_Fingerprint pin = oh_Fingerprint observed).

Definition hostKeyCallback (FingerprintSHA256 : list byte -> string) (endpointID : string)
  (pin : option PinnedHostKey) (state : HostKeyState) (key : PublicKey)
  : HostKeyState * option HostKeyMismatchError :=
  let observed := observed_key FingerprintSHA256 key in
  let '(st, prev, _) := Snapshot state in
  if negb (bool_decide (st = HostKeyUnseen)) then
    if negb (bool_decide (oh_Key prev = oh_Key observed)) then
      (state, Some (mkMismatch endpointID (oh_Type observed) (oh_Fingerprint observed) (oh_Fingerprint prev)))
    else (state, None)
  else
    match pin with
    | None => (observe state HostKeyNew observed, None)
    | Some pin =>
        if negb (pin_matches pin observed) then
          (state, Some (mkMismatch endpointID (oh_Type observed) (oh_Fingerprint observed)
                          (ph_Fingerprint pin)))
        else (observe state HostKeyKnown observed, None)
    end.

(** ** Signing under approval (webauthn_signer.go, filekey_signer.go) *)

Definition status_string (st : HostKeyStatus) : string :=
  match st with HostKeyUnseen => "" | HostKeyNew => "new" | HostKeyKnown => "known" end.

Definition set_HostKey (c : Context_) (h : HostKeyInfo) : Context_ :=
  mkContext (cx_Source c) (cx_EndpointLabel c) (cx_EndpointAddress c) (cx_SessionID c) (cx_SourceIP c)
    (cx_ClientHostname c) (cx_ClientOS c) (cx_ClientVersion c) (Some h)
    (cx_TriggerKind c) (cx_MCPReason c) (cx_MCPClientName c) (cx_MCPClientVer c).

Definition withHostKeyContext (actionCtx : Context_) (state : option HostKeyState)
  : Context_ * option ObservedHostKey :=
  match state with
  | None => (actionCtx, None)
  | Some state =>
      let '(st, observed, pinned) := Snapshot state in
      if bool_decide (st = HostKeyUnseen) then (actionCtx, None)
      else
        let isnew := bool_decide (st = HostKeyNew) && negb pinned in
        let status := if isnew then HostKeyNew else HostKeyKnown in
        (set_HostKey actionCtx (mkHKI (oh_Type observed) (oh_Fingerprint observed) (status_string status)),
         if isnew then Some observed else None)
  end.

Section with_store.
Context {S : Type} `{HK : HostKeys S}.

(** [hostKeys] and [state] are the Go pointers; [None] is nil. A provisional
    key without a state is a nil dereference, so the state is not optional
    there. *)
Definition pinAfterApproval (io : list bool) (hostKeys : option S) (state : HostKeyState)
  (endpointID : string) (provisional : option ObservedHostKey) (pinnedBy actionID : string)
  : option S * HostKeyState * option PinError :=
  match provisional with
  | None => (hostKeys, state, None)
  | Some observed =>
      match hostKeys with
      | None => (hostKeys, state, Some ErrNoPinStore)
      | Some store =>
          let '(host, port) := dialAddress state in
          match hk_pin store io (mkPinRequest endpointID host port observed pinnedBy actionID) with
          | (store', Some err) => (Some store', state, Some err)
          | (store', None) => (Some store', MarkPinned state, None)
          end
      end
  end.

Inductive SignError :=
  | SignRejected (err : RejectError)
  | SignPinFailed (err : PinError)
  | SignBadAssertion (err : SignatureError).

(** WebAuthnSigner.Sign from the broker's answer on; [build] is
    BuildSSHSignature. *)
Definition Sign (build : SignResponse -> SignatureError + Signature) (io : list bool)
  (hostKeys : option S) (state : HostKeyState) (endpointID : string)
  (provisional : option ObservedHostKey) (credentialID : string)
  (answer : RejectError + SignResponse) : option S * HostKeyState * (SignError + Signature) :=
  match answer with
  | inl err => (hostKeys, state, inl (SignRejected err))
  | inr resp =>
      match pinAfterApproval io hostKeys state endpointID provisional credentialID (sr_ActionID resp) with
      | (hostKeys', state', Some err) => (hostKeys', state', inl (SignPinFailed err))
      | (hostKeys', state', None) =>
          (hostKeys', state',
           match build resp with inl e => inl (SignBadAssertion e) | inr sig => inr sig end)
      end
  end.

(** approvedFileKeySigner.approve from the broker's answer on. *)
Definition approve (io : list bool) (hostKeys : option S) (state : HostKeyState) (endpointID : string)
  (provisional : option ObservedHostKey) (label : string) (answer : RejectError + string)
  : option S * HostKeyState * option SignError :=
  match answer with
  | inl err => (hostKeys, state, Some (SignRejected err))
  | inr actionID =>
      match pinAfterApproval io hostKeys state endpointID provisional (String.append "file-key:" label) actionID with
      | (hostKeys', state', Some err) => (hostKeys', state', Some (SignPinFailed err))
      | (hostKeys', state', None) => (hostKeys', state', None)
      end
  end.

(** ** Connect (transport.go) *)

Record ConnectParams := mkConnect {
  p_Host : string;
  p_Port : Z;
  p_EndpointID : string;
  p_HostKeys : bool;
  p_HostKeyState : option HostKeyState
}.

Inductive ConnectError :=
  | ErrHostKeysRequired
  | ErrLookupFailed
  | ErrRefused (m : HostKeyMismatchError)
  | ErrConnectFailed (untrusted : bool)
  | ErrProvisional (fingerprint typ : string).

Inductive phase := Handshaking | Established | Dead (err : ConnectError).

Record conn := mkConn {
  c_endpoint : string;
  c_pin : option PinnedHostKey;
  c_state : HostKeyState;
  c_signing : option (option ObservedHostKey);
  c_phase : phase
}.

(** Connect up to the dial. *)
Definition Connect (store : S) (io : list bool) (p : ConnectParams) : ConnectError + conn :=
  if negb (p_HostKeys p) then inl ErrHostKeysRequired
  else
    let state := default fresh_state (p_HostKeyState p) in
    let state := setDialAddress state (p_Host p) (p_Port p) in
    match hk_lookup store io (p_EndpointID p) with
    | None => inl ErrLookupFailed
    | Some pin => inr (mkConn (p_EndpointID p) pin state None Handshaking)
    end.

Inductive signer :=
  | Passkey (credentialID : string) (answer : RejectError + SignResponse)
  | FileKey (label : string) (answer : RejectError + string).

Inductive event :=
  | KeyExchange (key : PublicKey)
  | SignStart (actionCtx : Context_)
  | SignAnswer (io : list bool) (sg : signer)
  | HandshakeDone (ok : bool)
  | World (store : S).

Definition with_state (c : conn) (state : HostKeyState) (sg : option (option ObservedHostKey)) : conn :=
  mkConn (c_endpoint c) (c_pin c) state sg (c_phase c).
Definition with_phase (c : conn) (ph : phase) : conn :=
  mkConn (c_endpoint c) (c_pin c) (c_state c) (c_signing c) ph.

(** Connect's tail: [ok] is whether the handshake library succeeded. *)
Definition finish (c : conn) (ok : bool) : conn :=
  let '(st, observed, pinned) := Snapshot (c_state c) in
  let provisional := bool_decide (st = HostKeyNew) && negb pinned in
  with_phase c
    (if negb ok then Dead (ErrConnectFailed provisional)
     else if provisional then Dead (ErrProvisional (oh_Fingerprint observed) (oh_Type observed))
     else Established).

Context (FingerprintSHA256 : list byte -> string).
Context (build : SignResponse -> SignatureError + Signature).

(** One event of a connection. The library runs the host-key callback at
    every key exchange, authenticates only after the first one, and signs one
    key at a time; an event that cannot happen leaves everything as it is. *)
Definition step (w : S * conn) (e : event) : S * conn :=
  let '(store, c) := w in
  match e with
  | World store' => (store', c)
  | KeyExchange key =>
      match c_phase c with
      | Dead _ => w
      | _ =>
          let '(state, err) := hostKeyCallback FingerprintSHA256 (c_endpoint c) (c_pin c) (c_state c) key in
          let c := with_state c state (c_signing c) in
          (store, match err with Some m => with_phase c (Dead (ErrRefused m)) | None => c end)
      end
  | SignStart actionCtx =>
      match c_phase c, hs_status (c_state c), c_signing c with
      | Handshaking, (HostKeyNew | HostKeyKnown), None =>
          (store, with_state c (c_state c)
                    (Some (snd (withHostKeyContext actionCtx (Some (c_state c))))))
      | _, _, _ => w
      end
  | SignAnswer io sg =>
      match c_phase c, c_signing c with
      | Handshaking, Some provisional =>
          let '(hk, state) :=
            match sg with
            | Passkey cred answer =>
                fst (Sign build io (Some store) (c_state c) (c_endpoint c) provisional cred answer)
            | FileKey label answer =>
                fst (approve io (Some store) (c_state c) (c_endpoint c) provisional label answer)
            end in
          (default store hk, with_state c state None)
      | _, _ => w
      end
  | HandshakeDone ok =>
      match c_phase c, hs_status (c_state c), c_signing c with
      | Handshaking, (HostKeyNew | HostKeyKnown), None => (store, finish c ok)
      | Handshaking, HostKeyUnseen, None => if ok then w else (store, finish c ok)
      | _, _, _ => w
      end
  end.

Definition run_conn (w : S * conn) (es : list event) : S * conn := fold_left step es w.

(** The human approved: the answer of a signing round was not a rejection. *)
Definition human_approved (sg : signer) : Prop :=
  match sg with
  | Passkey _ (inr _) | FileKey _ (inr _) => True
  | Passkey _ (inl _) | FileKey _ (inl _) => False
  end.
End with_store.
Arguments event : clear implicits.

(** ** Lemmas *)

Section lemmas.
Context {S : Type} `{HK : HostKeys S}.
Context (FP : list byte -> string).
Context (build : SignResponse -> SignatureError + Signature).
Implicit Types (c : conn) (e : event S) (es : list (event S)).

Definition bound_to (store0 : S) (id : string) c : Prop :=
  c_endpoint c = id /\ c_pin c = hk_peek store0 id.

(** The keys exchanged so far. *)
Definition keys_seen es : list PublicKey :=
  omap (fun e => match e with KeyExchange k => Some k | _ => None end) es.

(** A human approved, and the pin store then held the observed key's
    fingerprint for the endpoint. *)
Definition vouched (w0 : S * conn) (id : string) (fp : string) es : Prop :=
  exists es1 io sg es2, es = es1 ++ SignAnswer io sg :: es2 /\ human_approved sg /\
    exists pin, hk_peek (fst (run_conn FP build w0 (es1 ++ [SignAnswer io sg]))) id = Some pin /\
      ph_Fingerprint pin = fp.

Lemma vouched_snoc w0 id fp es e : vouched w0 id fp es -> vouched w0 id fp (es ++ [e]).
Proof.
  intros (es1 & io & sg & es2 & -> & H). exists es1, io, sg, (es2 ++ [e]).
  by rewrite <- app_assoc.
Qed.

Definition sound_state (w0 : S * conn) c es : Prop :=
  let o := hs_observed (c_state c) in
  match hs_status (c_state c) with
  | HostKeyUnseen => keys_seen es = [] /\ hs_pinned (c_state c) = false /\ c_signing c = None
  | _ =>
      (exists k, k ∈ keys_seen es /\ o = observed_key FP k /\
         forall k', k' ∈ keys_seen es -> pk_Marshal k' = pk_Marshal k) /\
      match hs_status (c_state c) with
      | HostKeyKnown => exists pin, c_pin c = Some pin /\ pin_matches pin o = true
      | _ => c_pin c = None
      end /\
      (hs_pinned (c_state c) = true -> hs_status (c_state c) = HostKeyNew /\
         vouched w0 (c_endpoint c) (oh_Fingerprint o) es) /\
      (forall o', c_signing c = Some (Some o') -> o' = o /\ hs_status (c_state c) = HostKeyNew)
  end.

Definition inv (w0 : S * conn) (id : string) c es : Prop :=
  bound_to (fst w0) id c /\
  match c_phase c with
  | Handshaking => sound_state w0 c es
  | Established => sound_state w0 c es /\
      (hs_status (c_state c) = HostKeyKnown \/
       (hs_status (c_state c) = HostKeyNew /\ hs_pinned (c_state c) = true))
  | Dead _ => True
  end.

Lemma keys_seen_snoc es e :
  keys_seen (es ++ [e]) = keys_seen es ++ match e with KeyExchange k => [k] | _ => [] end.
Proof. unfold keys_seen. rewrite omap_app. by destruct e. Qed.

(** An event that is not a key exchange and leaves the connection alone
    keeps the invariant. *)
Lemma sound_state_snoc w0 c es e :
  (forall k, e <> KeyExchange k) -> sound_state w0 c es -> sound_state w0 c (es ++ [e]).
Proof.
  intros Hk. assert (keys_seen (es ++ [e]) = keys_seen es) as E.
  { rewrite keys_seen_snoc. destruct e; rewrite ?app_nil_r; try done. by destruct (Hk key). }
  unfold sound_state. rewrite E. destruct (hs_status (c_state c)); [done| |];
    intros (? & ? & Hp & ?); split_and!; try done; intros Hpin; destruct (Hp Hpin);
    split; try done; by apply vouched_snoc.
Qed.

Lemma inv_snoc w0 id c es e :
  (forall k, e <> KeyExchange k) -> inv w0 id c es -> inv w0 id c (es ++ [e]).
Proof.
  intros Hk [Hb H]. split; [done|]. destruct (c_phase c); [| |done].
  - by apply sound_state_snoc.
  - destruct H as [? ?]. split; [by apply sound_state_snoc|done].
Qed.

(** The first key exchange and every later one. *)
Lemma kex_sound w0 c es key state :
  hostKeyCallback FP (c_endpoint c) (c_pin c) (c_state c) key = (state, None) ->
  sound_state w0 c es ->
  sound_state w0 (with_state c state (c_signing c)) (es ++ [KeyExchange key]) /\
  (hs_status (c_state c) <> HostKeyUnseen -> state = c_state c).
Proof.
  unfold hostKeyCallback, Snapshot. destruct (c_state c) as [st o pn dh dp] eqn:Es. simpl.
  unfold sound_state. rewrite Es. simpl. rewrite keys_seen_snoc.
  destruct (decide (st = HostKeyUnseen)) as [->|Hst]; simpl.
  - intros Hcb (Hn & -> & Hsg). rewrite Hn. simpl. split; [|done].
    assert (Hkeys : exists k, k ∈ [key] /\ observed_key FP key = observed_key FP k /\
      forall k', k' ∈ [key] -> pk_Marshal k' = pk_Marshal k).
    { exists key. split; [by left|]. split; [done|]. by intros k' ->%list_elem_of_singleton. }
    destruct (c_pin c) as [pin|] eqn:Ep; [destruct (pin_matches pin (observed_key FP key)) eqn:Em|];
      simplify_eq/=; split_and!; try done; try (by exists pin); intros o'; by rewrite Hsg.
  - destruct (bool_decide (st = HostKeyUnseen)) eqn:E; [by bool_to_prop|]. simpl.
    destruct (bool_decide (oh_Key o = pk_Marshal key)) eqn:Ek; [|done]. simpl. intros Hcb H. simplify_eq.
    bool_to_prop. split; [|done]. destruct st; [done| |];
      (destruct H as ((k & Hk & -> & Hall) & Hpin & Hv & Hsg); split_and!; try done;
       [exists k; split; [set_solver|]; split; [done|];
        intros k'; rewrite elem_of_app; intros [?|Hk'%list_elem_of_singleton];
          [by apply Hall|subst; simpl in Ek; congruence]
       |intros Hp; destruct (Hv Hp); split; try done; by apply vouched_snoc]).
Qed.

(** What a signing round's end does: nothing to the record and the store, or
    a failed write, or an approved pin. *)
Lemma pinAfterApproval_cases io store state id provisional by_ action :
  let '(hk, state', err) := pinAfterApproval io (Some store) state id provisional by_ action in
  (provisional = None /\ hk = Some store /\ state' = state /\ err = None) \/
  (exists o store' r, provisional = Some o /\ hk = Some store' /\ err = r /\
     hk_pin store io (mkPinRequest id (hs_dialHost state) (hs_dialPort state) o by_ action) = (store', r) /\
     state' = match r with None => MarkPinned state | Some _ => state end).
Proof.
  unfold pinAfterApproval. destruct provisional as [o|]; [|by left]. simpl.
  destruct (hk_pin _ _ _) as [store' [r|]] eqn:E; right; eexists o, _, _; done.
Qed.

Definition signer_result (io : list bool) (store : S) (state : HostKeyState) (id : string)
  (provisional : option ObservedHostKey) (sg : signer) : option S * HostKeyState :=
  match sg with
  | Passkey cred answer => fst (Sign build io (Some store) state id provisional cred answer)
  | FileKey label answer => fst (approve io (Some store) state id provisional label answer)
  end.

Lemma signer_cases io store state id provisional sg hk state' :
  signer_result io store state id provisional sg = (hk, state') ->
  (hk = Some store /\ state' = state) \/
  (human_approved sg /\ exists o store' r req, provisional = Some o /\ hk = Some store' /\
     pr_EndpointID req = id /\ pr_Observed req = o /\ hk_pin store io req = (store', r) /\
     state' = match r with None => MarkPinned state | Some _ => state end).
Proof.
  assert (Hp : forall by_ action hk state' err,
    pinAfterApproval io (Some store) state id provisional by_ action = (hk, state', err) ->
    (hk = Some store /\ state' = state) \/
    (exists o store' r req, provisional = Some o /\ hk = Some store' /\
     pr_EndpointID req = id /\ pr_Observed req = o /\ hk_pin store io req = (store', r) /\
     state' = match r with None => MarkPinned state | Some _ => state end)).
  { intros by_ action hk0 state0 err E.
    pose proof (pinAfterApproval_cases io store state id provisional by_ action) as Hc. rewrite E in Hc.
    destruct Hc as [(_ & -> & -> & _)|(o & store' & r & -> & -> & -> & Hpin & ->)]; [by left|].
    right. eexists o, store', r, _. split_and!; [done|done| | |exact Hpin|done]; done. }
  unfold signer_result, Sign, approve. destruct sg as [cred [e|resp]|label [e|action]]; simpl.
  - intros; simplify_eq. by left.
  - destruct (pinAfterApproval _ _ _ _ _ _ _) as [[hk1 st1] err] eqn:E. apply Hp in E.
    destruct err; intros; simplify_eq/=; destruct E as [E|E]; auto.
  - intros; simplify_eq. by left.
  - destruct (pinAfterApproval _ _ _ _ _ _ _) as [[hk1 st1] err] eqn:E. apply Hp in E.
    destruct err; intros; simplify_eq/=; destruct E as [E|E]; auto.
Qed.

Lemma step_SignAnswer store c io sg :
  step FP build (store, c) (SignAnswer io sg) =
  match c_phase c, c_signing c with
  | Handshaking, Some provisional =>
      let '(hk, state) := signer_result io store (c_state c) (c_endpoint c) provisional sg in
      (default store hk, with_state c state None)
  | _, _ => (store, c)
  end.
Proof. by destruct sg. Qed.

Lemma step_inv (w0 : S * conn) id es e store c :
  run_conn FP build w0 es = (store, c) -> inv w0 id c es ->
  inv w0 id (snd (step FP build (store, c) e)) (es ++ [e]).
Proof.
  intros Hrun Hinv. destruct e as [key|actx|io sg|ok|store'].
  - destruct Hinv as [[Hid Hpin] Hinv]. simpl. destruct (c_phase c) eqn:Ep;
      [| |split; [done|simpl; by rewrite ?Ep]];
      destruct (hostKeyCallback _ _ _ _ _) as [state [m|]] eqn:Ecb; try done;
      (split; [done|]; simpl; rewrite Ep).
    + by destruct (kex_sound w0 c es key state Ecb Hinv) as [? _].
    + destruct Hinv as [Hs Hst]. pose proof (kex_sound w0 c es key state Ecb Hs) as [Hs' Heq].
      split; [done|]. rewrite Heq; [done|]. intros Hu. rewrite Hu in Hst. naive_solver.
  - destruct (inv_snoc w0 id c es (SignStart actx) ltac:(done) Hinv) as [Hb Hi]. simpl.
    destruct (c_phase c) eqn:Ep; try (by split; [|simpl; rewrite ?Ep]).
    destruct (hs_status (c_state c)) eqn:Es; try (by split; [|simpl; rewrite ?Ep]);
      (destruct (c_signing c) eqn:Eg; try (by split; [|simpl; rewrite ?Ep]);
       split; [done|]; simpl; rewrite Ep; unfold sound_state in *; simpl; rewrite Es in *;
       destruct Hi as (Hk & Hp & Hv & _); split_and!; try done; intros o').
    destruct (hs_pinned (c_state c)); simpl; [done|]. intros; by simplify_eq.
  - destruct (inv_snoc w0 id c es (SignAnswer io sg) ltac:(done) Hinv) as [Hb Hi].
    rewrite step_SignAnswer. destruct (c_phase c) eqn:Ep; try (by split; [|simpl; rewrite ?Ep]).
    destruct (c_signing c) as [provisional|] eqn:Eg; try (by split; [|simpl; rewrite ?Ep]).
    destruct (signer_result _ _ _ _ _ _) as [hk state] eqn:Er. simpl.
    split; [done|]. simpl. rewrite Ep.
    destruct (signer_cases _ _ _ _ _ _ _ _ Er) as [(-> & ->)|(Hh & o & store' & r & req & -> & -> & Hid & Ho & Hpin & Hst)].
    + unfold sound_state in *. simpl. destruct (hs_status (c_state c)); [naive_solver| |]; naive_solver.
    + assert (Hsig : hs_status (c_state c) = HostKeyNew /\ o = hs_observed (c_state c)).
      { unfold sound_state in Hi. rewrite Eg in Hi. destruct (hs_status (c_state c)); [naive_solver| |];
          destruct Hi as (_ & _ & _ & Hsg); destruct (Hsg o eq_refl); [done|naive_solver]. }
      destruct Hsig as [Hnew ->]. unfold sound_state in *. rewrite Hnew in Hi.
      destruct Hi as (Hk & Hp & Hv & _). destruct r as [r|]; subst state; simpl; rewrite Hnew.
      * split_and!; try done.
      * split_and!; try done. intros _. split; [done|]. exists es, io, sg, []. split; [done|].
        split; [done|]. destruct (hk_pin_ok _ _ _ _ Hpin) as (pin & Hpk & Hfp).
        rewrite Ho, Hid in *. exists pin. split; [|done].
        unfold run_conn in *. rewrite fold_left_app, Hrun. cbn [fold_left].
        rewrite step_SignAnswer, Ep, Eg, Er. done.
  - destruct (inv_snoc w0 id c es (HandshakeDone ok) ltac:(done) Hinv) as [Hb Hi]. simpl.
    destruct (c_phase c) eqn:Ep; try (by split; [|simpl; rewrite ?Ep]).
    unfold finish, Snapshot.
    destruct (hs_status (c_state c)) eqn:Es, (c_signing c) eqn:Eg, ok; try (by split; [|simpl; rewrite ?Ep]);
      simpl; split; try done; simpl; destruct (hs_pinned (c_state c)) eqn:Epn; simpl; try done;
      (split; [done|]; simpl; rewrite Es; auto).
  - by apply (inv_snoc w0 id c es).
Qed.

Lemma run_inv store0 c0 id es :
  inv (store0, c0) id c0 [] -> inv (store0, c0) id (snd (run_conn FP build (store0, c0) es)) es.
Proof.
  intros H0. induction es as [|e es IH] using rev_ind; [done|].
  destruct (run_conn FP build (store0, c0) es) as [store c] eqn:E.
  pose proof (step_inv _ _ _ e _ _ E IH) as Hs. unfold run_conn in *.
  by rewrite fold_left_app, E.
Qed.
End lemmas.

(** The simplest pin store: a map written once per endpoint. *)
Definition map_pin (m : gmap string PinnedHostKey) (io : list bool) (req : PinRequest)
  : gmap string PinnedHostKey * option PinError :=
  let o := pr_Observed req in
  match m !! pr_EndpointID req with
  | Some p => (m, if bool_decide (ph_Fingerprint p = oh_Fingerprint o) then None else Some ErrHostKeyPinned)
  | None => (<[pr_EndpointID req := mkPinned (oh_Type o) (oh_Key o) (oh_Fingerprint o)]> m, None)
  end.

#[local] Program Instance map_HostKeys : HostKeys (gmap string PinnedHostKey) := {|
  hk_lookup m _ id := Some (m !! id);
  hk_pin := map_pin;
  hk_peek m id := m !! id
|}.
Next Obligation. intros; simpl in *. by simplify_eq. Qed.
Next Obligation.
  intros m io req m'. unfold map_pin. destruct (m !! pr_EndpointID req) as [p|] eqn:E.
  - case_bool_decide; [|done]. intros; simplify_eq. by exists p.
  - intros; simplify_eq. eexists. by rewrite lookup_insert_eq.
Qed.
Next Obligation.
  intros m io req m' r id p. unfold map_pin. destruct (m !! pr_EndpointID req) as [q|] eqn:E;
    intros; simplify_eq; [done|]. rewrite lookup_insert_ne; [done|]. intros <-. congruence.
Qed.
Next Obligation.
  intros m io req m' r id p. unfold map_pin. destruct (m !! pr_EndpointID req) as [q|] eqn:E.
  - intros; simplify_eq.
  - intros ? Hn Hs; simplify_eq. destruct (decide (pr_EndpointID req = id)) as [<-|Hne].
    + rewrite lookup_insert_eq in Hs. by simplify_eq.
    + rewrite lookup_insert_ne in Hs by done. congruence.
Qed.

Section start.
Context {S : Type} `{HK : HostKeys S}.

(** A connection starts with nothing observed and nothing pinned. *)
Lemma Connect_inv (store : S) io p c :
  hs_status (default fresh_state (p_HostKeyState p)) = HostKeyUnseen ->
  hs_pinned (default fresh_state (p_HostKeyState p)) = false ->
  Connect store io p = inr c ->
  c_endpoint c = p_EndpointID p /\
  forall FP build, inv FP build (store, c) (p_EndpointID p) c [].
Proof.
  intros Hs Hp. unfold Connect. destruct (p_HostKeys p); [|done]. simpl.
  destruct (hk_lookup store io (p_EndpointID p)) as [pin|] eqn:E; [|done]. intros; simplify_eq.
  split; [done|]. intros FP build. split; [split; [done|]; by apply hk_lookup_spec in E|].
  simpl. unfold sound_state. simpl. by rewrite Hs, Hp.
Qed.

Lemma step_dead FP build w e err :
  c_phase (snd w) = Dead err -> c_phase (snd (step FP build w e)) = Dead err.
Proof.
  destruct w as [store c]. simpl. intros Hd.
  destruct e; simpl; rewrite ?Hd; simpl; done.
Qed.

Lemma run_dead FP build w es err :
  c_phase (snd w) = Dead err -> c_phase (snd (run_conn FP build w es)) = Dead err.
Proof.
  intros Hd. induction es as [|e es IH] using rev_ind; [done|].
  unfold run_conn in *. rewrite fold_left_app. by apply step_dead.
Qed.

Lemma keys_seen_elem (es : list (event S)) k : k ∈ keys_seen es <-> KeyExchange k ∈ es.
Proof.
  unfold keys_seen. rewrite list_elem_of_omap. split.
  - intros (e & He & E). destruct e; by simplify_eq.
  - intros. by exists (KeyExchange k).
Qed.
End start.

(** ** Properties *)

(** A connection that reaches an established session talks to a host somebody
    vouched for: every key exchange presented one and the same key, and either
    the pin read before the dial matches it, or the endpoint had no pin and a
    human's approval on this connection left the endpoint pinned to that key's
    fingerprint, before the session was established. This holds whatever the
    rest of the program does to the store in the meantime (C7). *)
Theorem established_host_vouched {S : Type} `{HK : HostKeys S} (FP : list byte -> string)
  (build : SignResponse -> SignatureError + Signature) (store : S) (io : list bool)
  (p : ConnectParams) (c : conn) (es : list (event S))
  (Hstatus : hs_status (default fresh_state (p_HostKeyState p)) = HostKeyUnseen)
  (Hpinned : hs_pinned (default fresh_state (p_HostKeyState p)) = false)
  (Hconnect : Connect store io p = inr c)
  (Hestablished : c_phase (snd (run_conn FP build (store, c) es)) = Established) :
  exists key, KeyExchange key ∈ es /\
    (forall k, KeyExchange k ∈ es -> pk_Marshal k = pk_Marshal key) /\
    ((exists pin, hk_peek store (p_EndpointID p) = Some pin /\
        pin_matches pin (observed_key FP key) = true) \/
     (hk_peek store (p_EndpointID p) = None /\
      exists es1 io' sg es2, es = es1 ++ SignAnswer io' sg :: es2 /\ human_approved sg /\
        exists pin, hk_peek (fst (run_conn FP build (store, c) (es1 ++ [SignAnswer io' sg])))
                      (p_EndpointID p) = Some pin /\
          ph_Fingerprint pin = FP (pk_Marshal key))).
Proof.
  destruct (Connect_inv _ _ _ _ Hstatus Hpinned Hconnect) as [Hid Hinv].
  pose proof (run_inv FP build store c (p_EndpointID p) es (Hinv FP build)) as [[Hb Hpin] H].
  rewrite Hestablished in H. destruct H as [Hs Hst]. unfold sound_state in Hs. simpl in Hpin.
  set (c' := snd (run_conn FP build (store, c) es)) in *.
  destruct Hst as [Hk|[Hn Hpn]].
  - rewrite Hk in Hs. destruct Hs as ((k & Hin & Ho & Hall) & (pin & Hp & Hm) & _).
    exists k. split; [by apply keys_seen_elem|].
    split; [intros k' Hk'%keys_seen_elem; by apply Hall|]. left.
    exists pin. rewrite <- Ho. split; [congruence|done].
  - rewrite Hn in Hs. destruct Hs as ((k & Hin & Ho & Hall) & Hp & Hv & _).
    exists k. split; [by apply keys_seen_elem|].
    split; [intros k' Hk'%keys_seen_elem; by apply Hall|]. right. split; [congruence|].
    destruct (Hv Hpn) as [_ Hvouched]. rewrite Hb, Ho in Hvouched. exact Hvouched.
Qed.

Definition sample_FP (l : list byte) : string := String.append "SHA256:" (String.string_of_list_byte l).
Definition sample_build (r : SignResponse) : SignatureError + Signature := inr (mkSignature [] [] []).
Definition sample_connect : ConnectParams := mkConnect "host" 22 "e" true None.
Definition sample_trace : list (event (gmap string PinnedHostKey)) :=
  [KeyExchange (mkKey "ssh-ed25519" [x01]); SignStart sample_context;
   SignAnswer [true] (FileKey "laptop" (inr "action"%string)); HandshakeDone true].
Definition sample_conn : conn :=
  mkConn "e" None (mkState HostKeyUnseen (mkObserved "" [] "") false "host" 22) None Handshaking.

Lemma established_host_vouched_witness :
  c_phase (snd (run_conn sample_FP sample_build (∅, sample_conn) sample_trace)) = Established /\
  exists key, KeyExchange key ∈ sample_trace /\
    (forall k, KeyExchange k ∈ sample_trace -> pk_Marshal k = pk_Marshal key) /\
    ((exists pin, hk_peek (∅ : gmap string PinnedHostKey) "e" = Some pin /\
        pin_matches pin (observed_key sample_FP key) = true) \/
     (hk_peek (∅ : gmap string PinnedHostKey) "e" = None /\
      exists es1 io' sg es2, sample_trace = es1 ++ SignAnswer io' sg :: es2 /\ human_approved sg /\
        exists pin, hk_peek (fst (run_conn sample_FP sample_build (∅, sample_conn)
                              (es1 ++ [SignAnswer io' sg]))) "e" = Some pin /\
          ph_Fingerprint pin = sample_FP (pk_Marshal key))).
Proof.
  split; [by vm_compute|].
  apply (established_host_vouched sample_FP sample_build (∅ : gmap string PinnedHostKey) [] sample_connect
    sample_conn sample_trace); by vm_compute.
Defined.

(** A server that presents a key other than the pinned one, or changes its key
    while connected, ends the connection then and there, with both fingerprints
    reported; the connection never becomes established afterwards and the store
    is untouched by it. *)
Lemma mismatch_step {S : Type} `{HK : HostKeys S} FP build (store : S) c key :
  c_phase c = Handshaking \/ c_phase c = Established ->
  (match hs_status (c_state c) with
   | HostKeyUnseen => exists pin, c_pin c = Some pin /\ pin_matches pin (observed_key FP key) = false
   | _ => oh_Key (hs_observed (c_state c)) <> pk_Marshal key
   end) ->
  exists m, step FP build (store, c) (KeyExchange key) = (store, with_phase c (Dead (ErrRefused m))) /\
    mm_EndpointID m = c_endpoint c /\ mm_ObservedFingerprint m = FP (pk_Marshal key).
Proof.
  intros Hph Hbad. unfold step.
  assert (exists m, hostKeyCallback FP (c_endpoint c) (c_pin c) (c_state c) key = (c_state c, Some m) /\
    mm_EndpointID m = c_endpoint c /\ mm_ObservedFingerprint m = FP (pk_Marshal key)) as (m & Hcb & H1 & H2).
  { unfold hostKeyCallback, Snapshot. destruct (hs_status (c_state c)).
    - destruct Hbad as (pin & -> & Hm). rewrite bool_decide_true by done. simpl. rewrite Hm. by eexists.
    - rewrite !bool_decide_false by done. by eexists.
    - rewrite !bool_decide_false by done. by eexists. }
  exists m. rewrite Hcb. destruct c; simpl in *. by destruct Hph as [->| ->].
Qed.

(** Wherever in a connection's life it happens, a key exchange with a key that
    differs from the pin, or from the key of an earlier exchange, kills the
    connection for good, before any authentication when it is the first one:
    no later event establishes it. *)
Theorem mismatch_is_fatal {S : Type} `{HK : HostKeys S} (FP : list byte -> string)
  (build : SignResponse -> SignatureError + Signature) (store : S) (io : list bool)
  (p : ConnectParams) (c : conn) (es es' : list (event S)) (key : PublicKey) (c1 : conn) (store1 : S)
  (Hconnect : Connect store io p = inr c)
  (Hrun : run_conn FP build (store, c) es = (store1, c1))
  (Halive : c_phase c1 = Handshaking \/ c_phase c1 = Established)
  (Hbad : match hs_status (c_state c1) with
          | HostKeyUnseen => exists pin, c_pin c1 = Some pin /\ pin_matches pin (observed_key FP key) = false
          | _ => oh_Key (hs_observed (c_state c1)) <> pk_Marshal key
          end) :
  exists m, c_phase (snd (run_conn FP build (store, c) (es ++ KeyExchange key :: es'))) = Dead (ErrRefused m) /\
    mm_ObservedFingerprint m = FP (pk_Marshal key) /\
    fst (run_conn FP build (store, c) (es ++ [KeyExchange key])) = store1.
Proof.
  destruct (mismatch_step FP build store1 c1 key Halive Hbad) as (m & Hm & _ & Hfp).
  exists m. unfold run_conn in *. rewrite !fold_left_app, Hrun. cbn [fold_left]. rewrite Hm.
  split; [|done]. by apply (run_dead FP build (store1, with_phase c1 (Dead (ErrRefused m)))).
Qed.

Lemma mismatch_is_fatal_witness :
  exists m, c_phase (snd (run_conn sample_FP sample_build (∅, sample_conn)
      (sample_trace ++ KeyExchange (mkKey "ssh-ed25519" [x02]) :: [HandshakeDone true]))) = Dead (ErrRefused m) /\
    mm_ObservedFingerprint m = sample_FP [x02] /\
    fst (run_conn sample_FP sample_build (∅, sample_conn)
      (sample_trace ++ [KeyExchange (mkKey "ssh-ed25519" [x02])]))
    = fst (run_conn sample_FP sample_build (∅, sample_conn) sample_trace).
Proof.
  apply (mismatch_is_fatal sample_FP sample_build (∅ : gmap string PinnedHostKey) [] sample_connect sample_conn
    sample_trace [HandshakeDone true] (mkKey "ssh-ed25519" [x02])
    (snd (run_conn sample_FP sample_build (∅, sample_conn) sample_trace)));
    [by vm_compute|by vm_compute|right; by vm_compute|by vm_compute].
Defined.
