(* ===== verification/PinStore.v ===== *)
(** * Endpoints and their host-key pins (internal/store/endpoints.go with its
      queries, internal/demo/demo.go, internal/hostkeys/hostkeys.go and
      internal/endpointsvc/endpointsvc.go)

    The endpoints table is a finite map from ids to rows; each SQL statement
    of queries/endpoints.sql is one function on it. [io] says query by query
    whether the database answered; a query that fails writes nothing. *)
From S2P Require Import Prelude Base64 SSHWire Approval HostKeys.
From stdpp Require Import pretty.
#[local] Open Scope Z_scope.

(** ** The table *)

Record row := mkRow {
  r_account : string;
  r_label : string;
  r_host : string;
  r_port : Z;
  r_username : string;
  r_uv : string;
  r_description : option string;
  r_agent_forward : bool;
  r_enabled : bool;
  r_created_at : string;
  r_updated_at : string;
  r_hk_type : option string;
  r_hk : list byte;
  r_hk_fp : option string;
  r_hk_at : option string;
  r_hk_by : option string
}.

Abbreviation Table := (gmap string row).

(** Did the [n]-th query of an operation go through? *)
Definition answers (io : list bool) (n : nat) : bool := nth n io true.

Record HostKeyPin := mkPin { hp_Type : string; hp_Fingerprint : string; hp_PinnedAt : string; hp_PinnedBy : string }.

Record HostKeyRecord := mkRecord { kr_Type : string; kr_Key : list byte; kr_Fingerprint : string }.

Record Endpoint := mkEndpoint {
  ep_ID : string;
  ep_AccountID : string;
  ep_Label : string;
  ep_Host : string;
  ep_Port : Z;
  ep_Username : string;
  ep_UserVerification : string;
  ep_Description : option string;
  ep_AgentForward : bool;
  ep_HostKey : option HostKeyPin
}.

(** NULL reads as the empty string. *)
Definition text (s : option string) : string := default EmptyString s.

(** The empty string is written as NULL. *)
Definition nz (s : string) : option string := if bool_decide (s = EmptyString) then None else Some s.

Definition fromRow (id : string) (r : row) : Endpoint :=
  mkEndpoint id (r_account r) (r_label r) (r_host r) (r_port r) (r_username r) (r_uv r)
    (r_description r) (r_agent_forward r)
    (match r_hk_fp r with
     | Some fp => Some (mkPin (text (r_hk_type r)) fp (text (r_hk_at r)) (text (r_hk_by r)))
     | None => None
     end).

(** ** store.Endpoints *)

(** ORDER BY created_at, id: the order, and insertion along it. *)
Definition row_leb (a b : string * row) : bool :=
  match String.compare (r_created_at (snd a)) (r_created_at (snd b)) with
  | Lt => true
  | Gt => false
  | Eq => match String.compare (fst a) (fst b) with Gt => false | _ => true end
  end.

Fixpoint insert_row (x : string * row) (l : list (string * row)) : list (string * row) :=
  match l with
  | [] => [x]
  | y :: l' => if row_leb x y then x :: l else y :: insert_row x l'
  end.

Definition order_rows (l : list (string * row)) : list (string * row) := foldr insert_row [] l.

Definition ListForAccount (t : Table) (io : list bool) (accountID : string) : option (list Endpoint) :=
  if answers io 0 then
    let rows := List.filter (fun x => bool_decide (r_account (snd x) = accountID) && r_enabled (snd x))
                  (map_to_list t) in
    Some (map (fun x => fromRow (fst x) (snd x)) (order_rows rows))
  else None.

(** [None] is a database error, [Some None] no such endpoint. *)
Definition GetForAccount (t : Table) (io : list bool) (id accountID : string) : option (option Endpoint) :=
  if answers io 0 then
    Some (match t !! id with
          | Some r => if bool_decide (r_account r = accountID) then Some (fromRow id r) else None
          | None => None
          end)
  else None.

(** INSERT: refused by the database when the id is taken. *)
Definition Create (t : Table) (io : list bool) (now : string) (ep : Endpoint) : Table * bool :=
  if answers io 0 && bool_decide (t !! ep_ID ep = None) then
    (<[ep_ID ep := mkRow (ep_AccountID ep) (ep_Label ep) (ep_Host ep) (ep_Port ep) (ep_Username ep)
        (ep_UserVerification ep) (ep_Description ep) (ep_AgentForward ep) true now now
        None [] None None None]> t, true)
  else (t, false).

Definition update_row (r : row) (now : string) (ep : Endpoint) : row :=
  let keep := bool_decide (r_host r = ep_Host ep) && (r_port r =? ep_Port ep) in
  mkRow (r_account r) (ep_Label ep) (ep_Host ep) (ep_Port ep) (ep_Username ep)
    (ep_UserVerification ep) (ep_Description ep) (ep_AgentForward ep) (r_enabled r) (r_created_at r) now
    (if keep then r_hk_type r else None) (if keep then r_hk r else [])
    (if keep then r_hk_fp r else None) (if keep then r_hk_at r else None)
    (if keep then r_hk_by r else None).

(** The answer: [None] a database error, otherwise whether a row matched. *)
Definition Update (t : Table) (io : list bool) (now : string) (ep : Endpoint) : Table * option bool :=
  if answers io 0 then
    match t !! ep_ID ep with
    | Some r =>
        if bool_decide (r_account r = ep_AccountID ep)
        then (<[ep_ID ep := update_row r now ep]> t, Some true) else (t, Some false)
    | None => (t, Some false)
    end
  else (t, None).

Definition Delete (t : Table) (io : list bool) (now id accountID : string) : Table * option bool :=
  if answers io 0 then
    match t !! id with
    | Some r =>
        if bool_decide (r_account r = accountID)
        then (<[id := mkRow (r_account r) (r_label r) (r_host r) (r_port r) (r_username r) (r_uv r)
                (r_description r) (r_agent_forward r) false (r_created_at r) now
                (r_hk_type r) (r_hk r) (r_hk_fp r) (r_hk_at r) (r_hk_by r)]> t, Some true)
        else (t, Some false)
    | None => (t, Some false)
    end
  else (t, None).

Definition row_pin (r : row) : option HostKeyRecord :=
  match r_hk_fp r with
  | Some fp => Some (mkRecord (text (r_hk_type r)) (r_hk r) fp)
  | None => None
  end.

Definition GetHostKey (t : Table) (io : list bool) (id : string) : option (option HostKeyRecord) :=
  if answers io 0 then
    Some (match t !! id with Some r => row_pin r | None => None end)
  else None.

Record PinHostKeyParams := mkPinParams {
  pk_ID : string;
  pk_Host : string;
  pk_Port : Z;
  pk_Record : HostKeyRecord;
  pk_PinnedBy : string
}.

(** The columns a pin writes ([h] is empty when they are cleared). *)
Definition set_pin (r : row) (now : string) (typ : option string) (key : list byte)
  (fp at_ by_ : option string) : row :=
  mkRow (r_account r) (r_label r) (r_host r) (r_port r) (r_username r) (r_uv r)
    (r_description r) (r_agent_forward r) (r_enabled r) (r_created_at r) now typ key fp at_ by_.

Definition PinHostKey (t : Table) (io : list bool) (now : string) (p : PinHostKeyParams)
  : Table * option PinError :=
  if negb (answers io 0) then (t, Some ErrDatabase)
  else
    let record := pk_Record p in
    let matched :=
      match t !! pk_ID p with
      | Some r => bool_decide (r_hk_fp r = None) && bool_decide (r_host r = pk_Host p)
                  && (r_port r =? pk_Port p)
      | None => false
      end in
    if matched then
      (alter (fun r => set_pin r now (nz (kr_Type record)) (kr_Key record) (Some (kr_Fingerprint record))
                         (Some now) (nz (pk_PinnedBy p))) (pk_ID p) t, None)
    else if negb (answers io 1) then (t, Some ErrDatabase)
    else
      match t !! pk_ID p with
      | None => (t, Some ErrEndpointNotFound)
      | Some existing =>
          if negb (bool_decide (r_host existing = pk_Host p)) || negb (r_port existing =? pk_Port p)
          then (t, Some ErrEndpointAddressChanged)
          else if bool_decide (r_hk_fp existing = Some (kr_Fingerprint record)) then (t, None)
          else (t, Some ErrHostKeyPinned)
      end.

Definition ClearHostKey (t : Table) (io : list bool) (now id accountID : string) : Table * option bool :=
  if answers io 0 then
    match t !! id with
    | Some r =>
        if bool_decide (r_account r = accountID) && negb (bool_decide (r_hk_fp r = None))
        then (<[id := set_pin r now None [] None None None]> t, Some true)
        else (t, Some false)
    | None => (t, Some false)
    end
  else (t, None).

(** The enabled endpoints at an address, with their pins; the query has no
    order, so the answer is a finite map. *)
Definition ListByAddress (t : Table) (io : list bool) (accountID host : string) (port : Z) (username : string)
  : option (gmap string string) :=
  if answers io 0 then
    Some (omap (fun r => if bool_decide (r_account r = accountID) && bool_decide (r_host r = host)
                            && (r_port r =? port) && bool_decide (r_username r = username) && r_enabled r
                         then Some (text (r_hk_fp r)) else None) t)
  else None.

(** ** demo.Service *)

Definition IDPrefix : string := "demo:".

Definition IsID (id : string) : bool :=
  (Z.of_nat (String.length IDPrefix) <=? Z.of_nat (String.length id))
  && String.eqb (String.substring 0 (String.length IDPrefix) id) IDPrefix.

Record EndpointAddress := mkAddress { ea_Username : string; ea_Host : string; ea_Port : Z }.

Record SeedEndpoint := mkSeed {
  se_Label : string;
  se_Parsed : EndpointAddress;
  se_AgentForward : option bool;
  se_Description : option string;
  se_ParsedHostKey : option HostKeyRecord
}.

Record HostKey := mkHostKey { hk_Type : string; hk_Key : list byte; hk_Fingerprint : string; hk_PinnedBy : string }.

Record DemoService := mkDemo { d_endpoints : list SeedEndpoint; d_pins : gmap string HostKey }.

Section demo.
(** SHA-256, and what the OpenSSH line parser makes of a baked-in line. *)
Context (sha256 : list byte -> list byte).
Context (ParseAuthorizedKey : string -> option HostKeyRecord).

Definition bakedInHostKeys : gmap string string := ∅.

Definition stableID (host : string) (port : Z) (username : string) : string :=
  let sum := sha256 (bytes_of_string (host +:+ " " +:+ pretty port +:+ " " +:+ username)) in
  IDPrefix +:+ String.string_of_list_byte (take 12 (b64_encode true false sum)).

Definition seed_id (e : SeedEndpoint) : string :=
  stableID (ea_Host (se_Parsed e)) (ea_Port (se_Parsed e)) (ea_Username (se_Parsed e)).

Definition seed_pin (pins : gmap string HostKey) (e : SeedEndpoint) : gmap string HostKey :=
  let id := seed_id e in
  match se_ParsedHostKey e with
  | Some hk => <[id := mkHostKey (kr_Type hk) (kr_Key hk) (kr_Fingerprint hk) "config"]> pins
  | None =>
      match bakedInHostKeys !! ea_Host (se_Parsed e) with
      | Some line =>
          match ParseAuthorizedKey line with
          | Some key => <[id := mkHostKey (kr_Type key) (kr_Key key) (kr_Fingerprint key) "demo"]> pins
          | None => pins
          end
      | None => pins
      end
  end.

Definition NewService (endpoints : list SeedEndpoint) : DemoService :=
  mkDemo endpoints (fold_left seed_pin endpoints ∅).

Definition HostKeyFor (s : DemoService) (endpointID : string) : option HostKey := d_pins s !! endpointID.

Definition Demo_PinHostKey (s : DemoService) (endpointID : string) (hk : HostKey)
  : DemoService * option PinError :=
  match d_pins s !! endpointID with
  | Some existing =>
      if bool_decide (hk_Fingerprint existing = hk_Fingerprint hk) then (s, None)
      else (s, Some ErrHostKeyPinned)
  | None => (mkDemo (d_endpoints s) (<[endpointID := hk]> (d_pins s)), None)
  end.

(** [agentForward] defaults to true. *)
Definition AgentForwardEnabled (e : SeedEndpoint) : bool := default true (se_AgentForward e).

Definition List_ (s : DemoService) (accountID : string) : list Endpoint :=
  map (fun e =>
    let id := seed_id e in
    let pin := match HostKeyFor s id with
               | Some hk => Some (mkPin (hk_Type hk) (hk_Fingerprint hk) "" (hk_PinnedBy hk))
               | None => None
               end in
    mkEndpoint id accountID (se_Label e) (ea_Host (se_Parsed e)) (ea_Port (se_Parsed e))
      (ea_Username (se_Parsed e)) "required" (se_Description e) (AgentForwardEnabled e) pin)
    (d_endpoints s).

Definition IsEmpty (s : DemoService) : bool := zlen (d_endpoints s) =? 0.

(** ** hostkeys.Service *)

Record Service := mkService {
  sv_Endpoints : Table;
  sv_Demo : option DemoService;
  (* the clock, and the actions OnPinned was called with, in order *)
  sv_now : string;
  sv_OnPinned : list string
}.

Definition Lookup (s : Service) (io : list bool) (endpointID : string) : option (option PinnedHostKey) :=
  if IsID endpointID then
    match sv_Demo s with
    | None => Some None
    | Some d =>
        match HostKeyFor d endpointID with
        | None => Some None
        | Some hk => Some (Some (mkPinned (hk_Type hk) (hk_Key hk) (hk_Fingerprint hk)))
        end
    end
  else
    match GetHostKey (sv_Endpoints s) io endpointID with
    | None => None
    | Some None => Some None
    | Some (Some rec) => Some (Some (mkPinned (kr_Type rec) (kr_Key rec) (kr_Fingerprint rec)))
    end.

Definition Pin (s : Service) (io : list bool) (req : PinRequest) : Service * option PinError :=
  let o := pr_Observed req in
  let '(s', err) :=
    if IsID (pr_EndpointID req) then
      match sv_Demo s with
      | None => (s, Some ErrUnknownDemo)
      | Some d =>
          let '(d', err) := Demo_PinHostKey d (pr_EndpointID req)
            (mkHostKey (oh_Type o) (oh_Key o) (oh_Fingerprint o) (pr_PinnedBy req)) in
          (mkService (sv_Endpoints s) (Some d') (sv_now s) (sv_OnPinned s), err)
      end
    else
      let '(t', err) := PinHostKey (sv_Endpoints s) io (sv_now s)
        (mkPinParams (pr_EndpointID req) (pr_Host req) (pr_Port req)
           (mkRecord (oh_Type o) (oh_Key o) (oh_Fingerprint o)) (pr_PinnedBy req)) in
      (mkService t' (sv_Demo s) (sv_now s) (sv_OnPinned s), err) in
  match err with
  | Some e => (s', Some e)
  | None => (mkService (sv_Endpoints s') (sv_Demo s') (sv_now s') (sv_OnPinned s' ++ [pr_ActionID req]), None)
  end.

(** ** endpointsvc *)

Definition DescriptionMaxLen : Z := 1000.
Definition UserVerificationValues : list string := ["required"; "preferred"; "discouraged"]%string.

Definition IsUserVerification (v : string) : bool :=
  existsb (fun u => bool_decide (u = v)) UserVerificationValues.

(** An endpoint and whether it is a demo one. *)
Definition Svc_GetForAccount (t : Table) (demo : option DemoService) (io : list bool) (id accountID : string)
  : option (option (Endpoint * bool)) :=
  if IsID id then
    Some (match demo with
          | Some d =>
              match List.find (fun e => bool_decide (ep_ID e = id)) (List_ d accountID) with
              | Some e => Some (e, true)
              | None => None
              end
          | None => None
          end)
  else
    match GetForAccount t io id accountID with
    | None => None
    | Some None => Some None
    | Some (Some ep) => Some (Some (ep, false))
    end.

(** [show] is the account's toggle, [false] when it cannot be read. *)
Definition Svc_ListForAccount (t : Table) (demo : option DemoService) (show : bool) (io : list bool)
  (accountID : string) : option (list (Endpoint * bool)) :=
  match ListForAccount t io accountID with
  | None => None
  | Some own =>
      Some (map (fun e => (e, false)) own
            ++ (if show then match demo with
                             | Some d => map (fun e => (e, true)) (List_ d accountID)
                             | None => []
                             end
                else []))
  end.

Record EndpointRef := mkRef {
  ref_ID : string; ref_Label : string; ref_AccountID : string; ref_Host : string; ref_Port : Z;
  ref_Username : string; ref_UserVerification : string; ref_AgentForward : bool
}.

Definition RefForAccount (t : Table) (demo : option DemoService) (io : list bool) (id accountID : string)
  : option (option EndpointRef) :=
  match Svc_GetForAccount t demo io id accountID with
  | None => None
  | Some None => Some None
  | Some (Some (ep, _)) =>
      Some (Some (mkRef (ep_ID ep) (ep_Label ep) (ep_AccountID ep) (ep_Host ep) (ep_Port ep)
                    (ep_Username ep) (ep_UserVerification ep) (ep_AgentForward ep)))
  end.
End demo.

(** ** Histories of the table *)

Inductive store_op :=
  | OpCreate (io : list bool) (now : string) (ep : Endpoint)
  | OpUpdate (io : list bool) (now : string) (ep : Endpoint)
  | OpDelete (io : list bool) (now id accountID : string)
  | OpPin (io : list bool) (now : string) (p : PinHostKeyParams)
  | OpClear (io : list bool) (now id accountID : string).

Definition exec_store (t : Table) (o : store_op) : Table :=
  match o with
  | OpCreate io now ep => fst (Create t io now ep)
  | OpUpdate io now ep => fst (Update t io now ep)
  | OpDelete io now id acc => fst (Delete t io now id acc)
  | OpPin io now p => fst (PinHostKey t io now p)
  | OpClear io now id acc => fst (ClearHostKey t io now id acc)
  end.

Definition run_store (ops : list store_op) : Table := fold_left exec_store ops ∅.

(** The account an account-scoped operation acts for; pins are written for an
    endpoint the connection resolved in its own account. *)
Definition op_account (o : store_op) : option string :=
  match o with
  | OpCreate _ _ ep | OpUpdate _ _ ep => Some (ep_AccountID ep)
  | OpDelete _ _ _ acc | OpClear _ _ _ acc => Some acc
  | OpPin _ _ _ => None
  end.

(** ** The pin store keeps its contract *)

Lemma nz_text s : text (nz s) = s.
Proof. unfold nz, text. by case_bool_decide. Qed.

Definition stored_pin (t : Table) (id : string) : option PinnedHostKey :=
  r ← t !! id; rec ← row_pin r;
  Some (mkPinned (kr_Type rec) (kr_Key rec) (kr_Fingerprint rec)).

Definition peek (s : Service) (id : string) : option PinnedHostKey :=
  if IsID id then
    d ← sv_Demo s; hk ← HostKeyFor d id; Some (mkPinned (hk_Type hk) (hk_Key hk) (hk_Fingerprint hk))
  else stored_pin (sv_Endpoints s) id.

(** The four outcomes of the compare-and-set on the table. *)
Lemma PinHostKey_cases t io now p :
  let rec := pk_Record p in
  match PinHostKey t io now p with
  | (t', None) =>
      exists r, t !! pk_ID p = Some r /\ r_host r = pk_Host p /\ r_port r = pk_Port p /\
        ((r_hk_fp r = None /\
          t' = <[pk_ID p := set_pin r now (nz (kr_Type rec)) (kr_Key rec) (Some (kr_Fingerprint rec))
                              (Some now) (nz (pk_PinnedBy p))]> t) \/
         (r_hk_fp r = Some (kr_Fingerprint rec) /\ t' = t))
  | (t', Some err) =>
      t' = t /\
      match err with
      | ErrDatabase => answers io 0 = false \/ answers io 1 = false
      | ErrEndpointNotFound => t !! pk_ID p = None
      | ErrEndpointAddressChanged => exists r, t !! pk_ID p = Some r /\
          ~ (r_host r = pk_Host p /\ r_port r = pk_Port p)
      | ErrHostKeyPinned => exists r fp, t !! pk_ID p = Some r /\ r_hk_fp r = Some fp /\
          fp <> kr_Fingerprint rec
      | _ => False
      end
  end.
Proof.
  cbv zeta. unfold PinHostKey. destruct (answers io 0) eqn:E0; simpl; [|by auto].
  destruct (t !! pk_ID p) as [r|] eqn:E; simpl.
  2:{ destruct (answers io 1) eqn:E1; simpl; auto. }
  destruct (decide (r_host r = pk_Host p)) as [Hh|Hh];
    [rewrite (bool_decide_true (r_host r = pk_Host p)) by done
    |rewrite (bool_decide_false (r_host r = pk_Host p)) by done; rewrite andb_false_r; simpl;
     destruct (answers io 1) eqn:E1; simpl; [|by auto]; split; [done|]; exists r; naive_solver].
  destruct (r_port r =? pk_Port p) eqn:Ep; bool_to_prop; rewrite ?andb_true_r, ?andb_false_r; simpl;
    [|destruct (answers io 1) eqn:E1; simpl; [|by auto]; split; [done|]; exists r; naive_solver].
  case_bool_decide as Hfp; simpl.
  - exists r. split_and!; try done. left. split; [done|]. rewrite <- (insert_id t (pk_ID p) r E) at 1. by rewrite alter_insert_eq.
  - destruct (answers io 1) eqn:E1; simpl; [|by auto]. case_bool_decide as Hsame.
    + exists r. split_and!; try done. by right.
    + split; [done|]. destruct (r_hk_fp r) as [fp|] eqn:Ef; [|done]. exists r, fp. naive_solver.
Qed.

Section service.
Context (sha256 : list byte -> list byte).

Lemma Pin_demo s io req s' err :
  IsID (pr_EndpointID req) = true -> Pin s io req = (s', err) ->
  sv_Endpoints s' = sv_Endpoints s /\
  match sv_Demo s with
  | None => err = Some ErrUnknownDemo /\ sv_Demo s' = None
  | Some d =>
      exists d', sv_Demo s' = Some d' /\
      match d_pins d !! pr_EndpointID req with
      | Some hk => d' = d /\ (err = None -> hk_Fingerprint hk = oh_Fingerprint (pr_Observed req))
      | None => err = None /\ d_pins d' = <[pr_EndpointID req := mkHostKey (oh_Type (pr_Observed req))
          (oh_Key (pr_Observed req)) (oh_Fingerprint (pr_Observed req)) (pr_PinnedBy req)]> (d_pins d)
      end
  end.
Proof.
  intros Hid. unfold Pin. rewrite Hid. destruct (sv_Demo s) as [d|] eqn:Ed.
  - unfold Demo_PinHostKey. destruct (d_pins d !! pr_EndpointID req) as [hk|] eqn:Ep; simpl.
    + case_bool_decide; intros; simplify_eq/=; split; try done; by exists d.
    + intros; simplify_eq/=. split; [done|]. by eexists.
  - intros; simplify_eq. by rewrite Ed.
Qed.

Lemma Pin_table s io req s' err :
  IsID (pr_EndpointID req) = false -> Pin s io req = (s', err) ->
  sv_Demo s' = sv_Demo s /\
  (sv_Endpoints s', err) = PinHostKey (sv_Endpoints s) io (sv_now s)
    (mkPinParams (pr_EndpointID req) (pr_Host req) (pr_Port req)
       (mkRecord (oh_Type (pr_Observed req)) (oh_Key (pr_Observed req)) (oh_Fingerprint (pr_Observed req)))
       (pr_PinnedBy req)).
Proof.
  intros Hid. unfold Pin. rewrite Hid. destruct (PinHostKey _ _ _ _) as [t' [e|]]; intros; by simplify_eq/=.
Qed.

Lemma stored_pin_set (t : Table) id r now typ key fp at_ by_ i :
  t !! id = Some r ->
  stored_pin (<[id := set_pin r now (nz typ) key (Some fp) at_ by_]> t) i =
  if decide (i = id) then Some (mkPinned typ key fp) else stored_pin t i.
Proof.
  intros Hr. unfold stored_pin. destruct (decide (i = id)) as [->|].
  - rewrite lookup_insert_eq. simpl. by rewrite nz_text.
  - by rewrite lookup_insert_ne.
Qed.

(** How a write changes what is pinned, wherever the pin lives. *)
Lemma Pin_peek s io req s' err :
  Pin s io req = (s', err) ->
  let id := pr_EndpointID req in let o := pr_Observed req in
  (forall i, i <> id -> peek s' i = peek s i) /\
  (peek s' id = peek s id \/
   (peek s id = None /\ err = None /\
    peek s' id = Some (mkPinned (oh_Type o) (oh_Key o) (oh_Fingerprint o)))) /\
  (err = None -> exists p, peek s' id = Some p /\ ph_Fingerprint p = oh_Fingerprint o).
Proof.
  intros E. cbv zeta. destruct (IsID (pr_EndpointID req)) eqn:Hid.
  - pose proof (Pin_demo _ _ _ _ _ Hid E) as [Ht Hd]. unfold peek. rewrite Hid, Ht.
    destruct (sv_Demo s) as [d|]; [|destruct Hd as [-> ->]; split; [done|]; split; [by left|done]].
    destruct Hd as (d' & -> & Hd). unfold HostKeyFor.
    destruct (d_pins d !! pr_EndpointID req) as [hk|] eqn:Ep.
    + destruct Hd as [-> Hfp]. split; [done|]. split; [by left|]. intros Herr. simpl.
      rewrite Ep. simpl. eexists. split; [done|]. by apply Hfp.
    + destruct Hd as [-> Hpins]. simpl. rewrite Hpins. split; [|split].
      * intros i Hi. by rewrite lookup_insert_ne.
      * right. rewrite lookup_insert_eq, Ep. done.
      * intros _. rewrite lookup_insert_eq. simpl. by eexists.
  - pose proof (Pin_table _ _ _ _ _ Hid E) as [Hd Ht]. unfold peek. rewrite Hid, Hd.
    pose proof (PinHostKey_cases (sv_Endpoints s) io (sv_now s)
      (mkPinParams (pr_EndpointID req) (pr_Host req) (pr_Port req)
       (mkRecord (oh_Type (pr_Observed req)) (oh_Key (pr_Observed req)) (oh_Fingerprint (pr_Observed req)))
       (pr_PinnedBy req))) as Hc.
    rewrite <- Ht in Hc. cbv zeta in Hc. simpl in Hc. destruct err as [e|].
    + destruct Hc as [-> _]. split; [done|]. split; [by left|done].
    + destruct Hc as (r & Hr & _ & _ & [[Hn ->]|[Hfp ->]]).
      * split; [|split].
        -- intros i Hi. destruct (IsID i); [done|]. by rewrite stored_pin_set, decide_False.
        -- right. rewrite stored_pin_set, decide_True by done. split; [|done].
           unfold stored_pin. rewrite Hr. simpl. unfold row_pin. by rewrite Hn.
        -- intros _. rewrite stored_pin_set, decide_True by done. by eexists.
      * split; [done|]. split; [by left|]. intros _. unfold stored_pin. rewrite Hr. simpl.
        unfold row_pin. rewrite Hfp. simpl. by eexists.
Qed.

#[export] Program Instance Service_HostKeys : HostKeys Service := {|
  hk_lookup := Lookup;
  hk_pin := Pin;
  hk_peek := peek
|}.
Next Obligation.
  intros s io id p. unfold Lookup, peek. destruct (IsID id).
  - destruct (sv_Demo s) as [d|]; simpl; [|by intros; simplify_eq].
    destruct (HostKeyFor d id); simpl; by intros; simplify_eq.
  - unfold GetHostKey, stored_pin. destruct (answers io 0); [|done].
    destruct (sv_Endpoints s !! id) as [r|]; simpl; [|by intros; simplify_eq].
    destruct (row_pin r); simpl; by intros; simplify_eq.
Qed.
Next Obligation. intros s io req s' E. by apply Pin_peek in E as (_ & _ & ?); auto. Qed.
Next Obligation.
  intros s io req s' r id p E Hp. apply Pin_peek in E as (Hne & Hid & _).
  destruct (decide (id = pr_EndpointID req)) as [->|]; [|by rewrite Hne].
  destruct Hid as [->|[? _]]; [done|congruence].
Qed.
Next Obligation.
  intros s io req s' r id p E Hn Hp. apply Pin_peek in E as (Hne & Hid & _).
  destruct (decide (id = pr_EndpointID req)) as [->|]; [|rewrite Hne in Hp by done; congruence].
  destruct Hid as [Heq|(_ & -> & Hs)]; [congruence|]. split; [done|]. split; [done|]. congruence.
Qed.
End service.

(** ** Lemmas on histories *)

(** A pin that a row keeps, or that an operation writes. *)
Lemma exec_store_pin t o id r fp :
  exec_store t o !! id = Some r -> r_hk_fp r = Some fp ->
  (exists r0, t !! id = Some r0 /\ r_hk_fp r0 = Some fp /\ r_host r0 = r_host r /\ r_port r0 = r_port r
     /\ r_hk r0 = r_hk r) \/
  (exists io now p, o = OpPin io now p /\ pk_ID p = id /\ pk_Host p = r_host r /\ pk_Port p = r_port r /\
     kr_Fingerprint (pk_Record p) = fp /\ kr_Key (pk_Record p) = r_hk r).
Proof.
  assert (Hsame : forall r0 : row, t !! id = Some r0 -> r = r0 -> r_hk_fp r = Some fp ->
    exists r0, t !! id = Some r0 /\ r_hk_fp r0 = Some fp /\ r_host r0 = r_host r /\ r_port r0 = r_port r
     /\ r_hk r0 = r_hk r) by (intros r0 ? -> ?; by exists r0).
  destruct o as [io now ep|io now ep|io now i acc|io now p|io now i acc]; simpl; intros Hr Hfp.
  - left. unfold Create in Hr. destruct (_ && _); simpl in Hr; [|by eapply Hsame].
    destruct (decide (ep_ID ep = id)) as [<-|]; [rewrite lookup_insert_eq in Hr; by simplify_eq|].
    rewrite lookup_insert_ne in Hr by done. by eapply Hsame.
  - left. unfold Update in Hr. destruct (answers io 0); simpl in Hr; [|by eapply Hsame].
    destruct (t !! ep_ID ep) as [r0|] eqn:E; simpl in Hr; [|by eapply Hsame].
    case_bool_decide; simpl in Hr; [|by eapply Hsame].
    destruct (decide (ep_ID ep = id)) as [<-|]; [|rewrite lookup_insert_ne in Hr by done; by eapply Hsame].
    rewrite lookup_insert_eq in Hr. simplify_eq. unfold update_row in *. simpl in *.
    destruct (bool_decide _ && _) eqn:Ek; [|done]. bool_to_prop. by exists r0.
  - left. unfold Delete in Hr. destruct (answers io 0); simpl in Hr; [|by eapply Hsame].
    destruct (t !! i) as [r0|] eqn:E; simpl in Hr; [|by eapply Hsame].
    case_bool_decide; simpl in Hr; [|by eapply Hsame].
    destruct (decide (i = id)) as [<-|]; [|rewrite lookup_insert_ne in Hr by done; by eapply Hsame].
    rewrite lookup_insert_eq in Hr. simplify_eq. by exists r0.
  - pose proof (PinHostKey_cases t io now p) as Hc. destruct (PinHostKey t io now p) as [t' [e|]]; simpl in *.
    + destruct Hc as [-> _]. left. by eapply Hsame.
    + destruct Hc as (r0 & Hr0 & Hh & Hp & [[Hn ->]|[_ ->]]); [|left; by eapply Hsame].
      destruct (decide (pk_ID p = id)) as [<-|];
        [|rewrite lookup_insert_ne in Hr by done; left; by eapply Hsame].
      rewrite lookup_insert_eq in Hr. simplify_eq/=. right. by eexists io, now, p.
  - left. unfold ClearHostKey in Hr. destruct (answers io 0); simpl in Hr; [|by eapply Hsame].
    destruct (t !! i) as [r0|] eqn:E; simpl in Hr; [|by eapply Hsame].
    destruct (_ && _); simpl in Hr; [|by eapply Hsame].
    destruct (decide (i = id)) as [<-|]; [|rewrite lookup_insert_ne in Hr by done; by eapply Hsame].
    rewrite lookup_insert_eq in Hr. by simplify_eq.
Qed.

(** Every row an operation touches belongs to the account it acts for, and
    rows never change hands. *)
Lemma exec_store_foreign t o id r :
  t !! id = Some r -> op_account o <> None -> op_account o <> Some (r_account r) ->
  exec_store t o !! id = Some r.
Proof.
  intros Hr Hn Hacc. destruct o as [io now ep|io now ep|io now i acc|io now p|io now i acc]; simpl in *.
  - unfold Create. destruct (answers io 0 && _) eqn:E; simpl; [|done]. bool_to_prop.
    rewrite lookup_insert_ne; [done|]. intros <-. congruence.
  - unfold Update. destruct (answers io 0); simpl; [|done].
    destruct (t !! ep_ID ep) as [r0|] eqn:E; simpl; [|done]. case_bool_decide; simpl; [|done].
    rewrite lookup_insert_ne; [done|]. intros <-. congruence.
  - unfold Delete. destruct (answers io 0); simpl; [|done].
    destruct (t !! i) as [r0|] eqn:E; simpl; [|done]. case_bool_decide; simpl; [|done].
    rewrite lookup_insert_ne; [done|]. intros <-. congruence.
  - done.
  - unfold ClearHostKey. destruct (answers io 0); simpl; [|done].
    destruct (t !! i) as [r0|] eqn:E; simpl; [|done]. destruct (bool_decide _ && _) eqn:E2; simpl; [|done].
    bool_to_prop. rewrite lookup_insert_ne; [done|]. intros <-. congruence.
Qed.

(** ** Properties *)

(** After any history of endpoint edits, deletions, approvals and resets, a
    stored pin vouches for the row's present address: it was written by a pin
    operation for exactly that endpoint, host and port, with that fingerprint
    and key. An address change can therefore never inherit the old host's key
    (C12). *)
Theorem pin_vouches_for_current_address (ops : list store_op) (id : string) (r : row) (fp : string)
  (Hrow : run_store ops !! id = Some r) (Hpin : r_hk_fp r = Some fp) :
  exists io now p, OpPin io now p ∈ ops /\ pk_ID p = id /\ pk_Host p = r_host r /\ pk_Port p = r_port r /\
    kr_Fingerprint (pk_Record p) = fp /\ kr_Key (pk_Record p) = r_hk r.
Proof.
  revert r Hrow Hpin. unfold run_store. induction ops as [|o ops IH] using rev_ind; intros r Hrow Hpin.
  - simpl in Hrow. by rewrite lookup_empty in Hrow.
  - rewrite fold_left_app in Hrow. simpl in Hrow.
    destruct (exec_store_pin _ _ _ _ _ Hrow Hpin) as [(r0 & H0 & Hf & Hh & Hp & Hk)|(io & now & p & -> & H)].
    + destruct (IH r0 H0 Hf) as (io & now & p & Hin & H). exists io, now, p.
      rewrite Hh, Hp, Hk in H. split; [|done]. rewrite elem_of_app. by left.
    + exists io, now, p. split; [|done]. rewrite elem_of_app. right. by left.
Qed.

Definition sample_endpoint : Endpoint := mkEndpoint "e" "alice" "box" "host" 22 "root" "required" None true None.
Definition sample_pin : PinHostKeyParams :=
  mkPinParams "e" "host" 22 (mkRecord "ssh-ed25519" [x01] "SHA256:a") "manual".
Definition sample_ops : list store_op := [OpCreate [] "t0" sample_endpoint; OpPin [] "t1" sample_pin].

Lemma pin_vouches_for_current_address_witness :
  let r := mkRow "alice" "box" "host" 22 "root" "required" None true true "t0" "t1"
             (Some "ssh-ed25519") [x01] (Some "SHA256:a") (Some "t1") (Some "manual") in
  exists io now p, OpPin io now p ∈ sample_ops /\ pk_ID p = "e"%string /\ pk_Host p = r_host r /\
    pk_Port p = r_port r /\ kr_Fingerprint (pk_Record p) = "SHA256:a"%string /\ kr_Key (pk_Record p) = r_hk r.
Proof.
  intros r. apply (pin_vouches_for_current_address sample_ops "e" r "SHA256:a"); by vm_compute.
Defined.

(** A pin write is a compare-and-set bound to the dialed address: it succeeds
    exactly when the endpoint is still at that address and is unpinned or
    already pinned to the same fingerprint; it is the only case that writes,
    it never changes an existing pin, and every other case has its own error. *)
Theorem PinHostKey_spec (t : Table) (now : string) (p : PinHostKeyParams) :
  let rec := pk_Record p in
  PinHostKey t [true; true] now p =
  match t !! pk_ID p with
  | None => (t, Some ErrEndpointNotFound)
  | Some r =>
      if bool_decide (r_host r = pk_Host p /\ r_port r = pk_Port p) then
        match r_hk_fp r with
        | None => (<[pk_ID p := set_pin r now (nz (kr_Type rec)) (kr_Key rec) (Some (kr_Fingerprint rec))
                                 (Some now) (nz (pk_PinnedBy p))]> t, None)
        | Some fp => (t, if bool_decide (fp = kr_Fingerprint rec) then None else Some ErrHostKeyPinned)
        end
      else (t, Some ErrEndpointAddressChanged)
  end.
Proof.
  cbv zeta. unfold PinHostKey. simpl. destruct (t !! pk_ID p) as [r|] eqn:E; [|done].
  destruct (decide (r_host r = pk_Host p)) as [Hh|Hh], (decide (r_port r = pk_Port p)) as [Hp|Hp].
  - rewrite (bool_decide_true (_ /\ _)) by done. rewrite (bool_decide_true (r_host r = _)) by done.
    rewrite Hp, Z.eqb_refl, !andb_true_r. simpl. destruct (r_hk_fp r) as [fp|] eqn:Ef.
    + rewrite bool_decide_false by done. simpl. destruct (decide (fp = kr_Fingerprint (pk_Record p))) as [->|Hn].
      * by rewrite !bool_decide_true.
      * by rewrite !bool_decide_false by congruence.
    + rewrite bool_decide_true by done. f_equal.
      rewrite <- (insert_id t (pk_ID p) r E) at 1. by rewrite alter_insert_eq.
  - rewrite (bool_decide_false (_ /\ _)) by tauto. rewrite (proj2 (Z.eqb_neq _ _)) by done.
    rewrite !andb_false_r, orb_true_r. done.
  - rewrite (bool_decide_false (_ /\ _)) by tauto. rewrite (bool_decide_false (r_host r = _)) by done.
    rewrite !andb_false_r. done.
  - rewrite (bool_decide_false (_ /\ _)) by tauto. rewrite (bool_decide_false (r_host r = _)) by done.
    rewrite !andb_false_r. done.
Qed.

(** No account's operation can reach another account's endpoints: creations,
    edits, deletions and pin resets for one account leave every row of the
    others exactly as it was, and reads for an account only answer its own
    rows. *)
Theorem endpoints_isolated (ops : list store_op) (t : Table) (id : string) (r : row)
  (Hrow : t !! id = Some r)
  (Hforeign : Forall (fun o => exists acc, op_account o = Some acc /\ acc <> r_account r) ops) :
  fold_left exec_store ops t !! id = Some r /\
  forall acc io ep, acc <> r_account r -> GetForAccount (fold_left exec_store ops t) io id acc <> Some (Some ep).
Proof.
  assert (Hkeep : fold_left exec_store ops t !! id = Some r).
  { revert t Hrow. induction Hforeign as [|o ops (acc & Ho & Hne) _ IH]; intros t Hrow; [done|].
    simpl. apply IH, exec_store_foreign; [done|congruence|congruence]. }
  split; [done|]. intros acc io ep Hne. unfold GetForAccount. rewrite Hkeep.
  destruct (answers io 0); [|done]. by rewrite bool_decide_false.
Qed.

Lemma endpoints_isolated_witness :
  let r := mkRow "alice" "box" "host" 22 "root" "required" None true true "t0" "t1"
             (Some "ssh-ed25519") [x01] (Some "SHA256:a") (Some "t1") (Some "manual") in
  fold_left exec_store [OpDelete [] "t2" "e" "bob"; OpClear [] "t3" "e" "bob"] (run_store sample_ops)
    !! "e"%string = Some r /\
  forall acc io ep, acc <> "alice"%string ->
    GetForAccount (fold_left exec_store [OpDelete [] "t2" "e" "bob"; OpClear [] "t3" "e" "bob"]
                     (run_store sample_ops)) io "e" acc <> Some (Some ep).
Proof.
  intros r. apply (endpoints_isolated [OpDelete [] "t2" "e" "bob"; OpClear [] "t3" "e" "bob"]
    (run_store sample_ops) "e" r); [by vm_compute|].
  repeat constructor; by exists "bob"%string.
Defined.
