(* ===== verification/Seed.v ===== *)
(** * The first boot (internal/seed/seed.go)

    The administrator's account, passkeys and endpoints of the configuration are
    written to the database at every boot, as far as they are missing; then the
    host keys the configuration gives are pinned. The statements are not in a
    transaction: each may fail, and a crash is a failure of all that follow. *)
From Stdlib Require Import Ascii SpecFloat.
From S2P Require Import Prelude GoStrings Net SSHWire Address Config Passkeys PinStore.
#[local] Open Scope Z_scope.

(** ** State and statements *)

Record boot := mkBoot { b_db : DB; b_endpoints : Table }.

(** What each statement meets, in order: true when it goes through. *)
Abbreviation outcomes := (list bool).

Definition M (A : Type) : Type := boot * outcomes -> (boot * outcomes) * option A.

Definition ret {A} (a : A) : M A := fun s => (s, Some a).
Definition bind {A B} (m : M A) (f : A -> M B) : M B := fun s => match m s with (s, Some a) => f a s | (s, None) => (s, None) end.

(** A statement: it may meet an error, or be refused by the database. *)
Definition stmt {A} (f : boot -> option (A * boot)) : M A := fun s =>
  let '(b, io) := s in
  if List.hd true io then match f b with Some (a, b) => ((b, List.tl io), Some a) | None => ((b, List.tl io), None) end
  else ((b, List.tl io), None).

Definition query {A} (f : boot -> A) : M A := stmt (fun b => Some (f b, b)).

#[local] Notation "x <-- m ;; k" := (bind m (fun x => k)) (at level 62, m at next level, right associativity).

Fixpoint for_each {A B} (l : list A) (acc : B) (f : B -> A -> M B) : M B :=
  match l with [] => ret acc | x :: l => acc <-- f acc x ;; for_each l acc f end.

(** hex.DecodeString. *)
Fixpoint hex_decode (s : string) : option string :=
  match s with
  | EmptyString => Some EmptyString
  | String a (String b s) => x ← hex_value a; y ← hex_value b; rest ← hex_decode s; Some (String (ascii_of_N (Z.to_N (16 * x + y))) rest)
  | _ => None
  end.

(** ** FromConfig *)

Record seed_result := mkSeedResult { sr_Account : bool; sr_Passkey : bool; sr_AdminID : string }.

Section Seed.
(** The parser of COSE keys, and the source of row ids. *)
Context (ParsePublicKey : list byte -> option ParsedKey).
Context (newID : nat -> string).

Definition insert_first_account (id : string) (b : boot) : option (unit * boot) :=
  if existsb (fun a => bool_decide (a_ID a = id)) (accounts (b_db b)) then None
  else Some (tt, mkBoot (mkDB (creds (b_db b)) (accounts (b_db b) ++ [mkAccount id "admin" 5]) (admin_account (b_db b))) (b_endpoints b)).

Definition insert_admin (id : string) (b : boot) : option (unit * boot) :=
  match admin_account (b_db b), find_account (b_db b) id with
  | None, Some _ => Some (tt, mkBoot (mkDB (creds (b_db b)) (accounts (b_db b)) (Some id)) (b_endpoints b))
  | _, _ => None
  end.

Definition select_admin (b : boot) : option (string * boot) := (fun a => (a, b)) <$> admin_account (b_db b).

(** The account of the administrator, whether it was created, and how many ids
    were minted. *)
Definition seed_account : M (string * bool * nat) :=
  count <-- query (fun b => length (accounts (b_db b))) ;;
  if (count =? 0)%nat
  then _ <-- stmt (insert_first_account (newID 0)) ;; _ <-- stmt (insert_admin (newID 0)) ;; ret (newID 0, true, 1%nat)
  else adminID <-- stmt select_admin ;; ret (adminID, false, 0%nat).

Definition openssh_line (rpID pubKey : string) : option string :=
  String.string_of_list_byte <$> CoseToAuthorizedKeys ParsePublicKey (bytes_of_string pubKey) (bytes_of_string rpID).

Definition passkey_row (rpID ts adminID id : string) (pk : SeedAdminPasskey) (pubKey : string) : CredentialRow :=
  Passkeys.mkRow id adminID (sp_CredentialID pk) pubKey (sp_Counter pk) (default [] (sp_Transports pk)) (sp_Label pk) (openssh_line rpID pubKey)
    CredentialStateActive false ts None.

Definition has_credential (db : DB) (cid : string) : bool := existsb (fun r => bool_decide (CredentialID r = cid)) (creds db).

Definition seed_passkey (rpID ts adminID : string) (acc : bool * nat) (pk : SeedAdminPasskey) : M (bool * nat) :=
  let '(seeded, n) := acc in
  exists_ <-- query (fun b => has_credential (b_db b) (sp_CredentialID pk)) ;;
  if exists_ : bool then ret (seeded, n)
  else match hex_decode (sp_PublicKeyHex pk) with
       | None => ret (seeded, n)
       | Some pubKey =>
           _ <-- stmt (fun b => (fun db => (tt, mkBoot db (b_endpoints b))) <$> Passkeys.insert_row (b_db b) (passkey_row rpID ts adminID (newID n) pk pubKey)) ;;
           ret (true, S n)
       end.

Definition endpoint_row (ts adminID : string) (e : Config.SeedEndpoint) : PinStore.row :=
  PinStore.mkRow adminID (Config.se_Label e) (Address.Host (Config.se_Parsed e)) (Address.Port (Config.se_Parsed e)) (Address.Username (Config.se_Parsed e)) "required"
    (Config.se_Description e) (Config.AgentForwardEnabled e) true ts ts None [] None None None.

Definition seed_endpoint (ts adminID : string) (n : nat) (e : Config.SeedEndpoint) : M nat :=
  _ <-- stmt (fun b => match b_endpoints b !! newID n with
                       | Some _ => None
                       | None => Some (tt, mkBoot (b_db b) (<[newID n := endpoint_row ts adminID e]> (b_endpoints b)))
                       end) ;;
  ret (S n).

Definition FromConfig (cfg : Config) (ts : string) : M seed_result :=
  account <-- seed_account ;;
  let '(adminID, created, n) := account in
  passkeys <-- for_each (c_SeedAdminPasskeys cfg) (false, n) (seed_passkey (c_RpID cfg) ts adminID) ;;
  let '(seeded, n) := passkeys in
  count <-- query (fun b => size (b_endpoints b)) ;;
  _ <-- (if (count =? 0)%nat then for_each (c_SeedAdminEndpoints cfg) n (seed_endpoint ts adminID) else ret n) ;;
  ret (mkSeedResult created seeded (if created then adminID else EmptyString)).

(** ** ApplyHostKeyPins *)

(** One row of an endpoint's address; a failure is only logged. [io] is what
    the two statements of the pin meet. *)
Definition pin_row (now : string) (e : Config.SeedEndpoint) (hk : HostKeyLine) (io : outcomes) (t : Table) (x : string * string) : Table :=
  let '(id, pinned) := x in
  if bool_decide (pinned = Config.hk_Fingerprint hk) then t
  else if negb (bool_decide (pinned = EmptyString)) then t
  else fst (PinHostKey t io now (mkPinParams id (Address.Host (Config.se_Parsed e)) (Address.Port (Config.se_Parsed e))
                                   (mkRecord (Config.hk_Type hk) (Config.hk_Key hk) (Config.hk_Fingerprint hk)) "config")).

(** What the look-up and each pin of an endpoint meet. *)
Record pin_io := mkPinIO { pi_list : outcomes; pi_pin : outcomes }.

Definition pin_endpoint (now adminID : string) (t : Table) (x : Config.SeedEndpoint * pin_io) : Table :=
  let '(e, io) := x in
  match Config.se_ParsedHostKey e with
  | None => t
  | Some hk =>
      match ListByAddress t (pi_list io) adminID (Address.Host (Config.se_Parsed e)) (Address.Port (Config.se_Parsed e)) (Address.Username (Config.se_Parsed e)) with
      | None => t
      | Some rows => fold_left (pin_row now e hk (pi_pin io)) (map_to_list rows) t
      end
  end.

Definition ApplyHostKeyPins (now : string) (cfg : Config) (io : Config.SeedEndpoint -> pin_io) (b : boot) : Table :=
  match admin_account (b_db b) with
  | None => b_endpoints b
  | Some adminID => fold_left (pin_endpoint now adminID) (map (fun e => (e, io e)) (c_SeedAdminEndpoints cfg)) (b_endpoints b)
  end.

(** ** Lemmas *)

(** A run in which nothing fails. *)
Definition goes {A} (m : M A) (b : boot) (a : A) (b' : boot) : Prop := m (b, []) = ((b', []), Some a).

(** A failure is never added. *)
Definition quiet {A} (m : M A) : Prop := forall b, snd (fst (m (b, []))) = [].

Lemma quiet_ret {A} (a : A) : quiet (ret a).
Proof using. done. Qed.

Lemma quiet_stmt {A} (f : boot -> option (A * boot)) : quiet (stmt f).
Proof using. intros b. unfold stmt. cbn. by destruct (f b) as [[a b']|]. Qed.

Lemma quiet_bind {A B} (m : M A) (f : A -> M B) : quiet m -> (forall a, quiet (f a)) -> quiet (bind m f).
Proof using.
  intros Hm Hf b. unfold bind. specialize (Hm b). destruct (m (b, [])) as [[b1 io] [a|]]; cbn in Hm; subst io; [apply Hf|done].
Qed.

Lemma quiet_for_each {A B} (l : list A) (acc : B) (f : B -> A -> M B) : (forall acc x, quiet (f acc x)) -> quiet (for_each l acc f).
Proof using. intros Hf. revert acc. induction l as [|x l IH]; intros acc; [apply quiet_ret|]. apply quiet_bind; [apply Hf|apply IH]. Qed.

Lemma bind_goes {A B} (m : M A) (f : A -> M B) b x b' : quiet m -> goes (bind m f) b x b' -> exists a b1, goes m b a b1 /\ goes (f a) b1 x b'.
Proof using.
  intros Hm. unfold goes, bind. specialize (Hm b). destruct (m (b, [])) as [[b1 io] [a|]]; cbn in Hm; subst io; [|done]. intros H. by exists a, b1.
Qed.

Lemma goes_bind {A B} (m : M A) (f : A -> M B) b a b1 x b' : goes m b a b1 -> goes (f a) b1 x b' -> goes (bind m f) b x b'.
Proof using. unfold goes, bind. by intros ->. Qed.

Lemma goes_stmt {A} (f : boot -> option (A * boot)) b a b' : goes (stmt f) b a b' <-> f b = Some (a, b').
Proof using.
  unfold goes, stmt. cbn. destruct (f b) as [[x y]|]; (split; [|done || intros [= -> ->]; done]); [intros [= -> ->]; done|done].
Qed.

Lemma quiet_passkey rpID ts adminID acc pk : quiet (seed_passkey rpID ts adminID acc pk).
Proof using.
  unfold seed_passkey. destruct acc as [seeded n]. apply quiet_bind; [apply quiet_stmt|]. intros []; [apply quiet_ret|]. destruct (hex_decode _); [|apply quiet_ret].
  apply quiet_bind; [apply quiet_stmt|]. intros _. apply quiet_ret.
Qed.

Lemma quiet_endpoint ts adminID n e : quiet (seed_endpoint ts adminID n e).
Proof using. apply quiet_bind; [apply quiet_stmt|]. intros _. apply quiet_ret. Qed.

Lemma quiet_account : quiet seed_account.
Proof using.
  apply quiet_bind; [apply quiet_stmt|]. intros n. destruct (n =? 0)%nat; repeat (apply quiet_bind; [apply quiet_stmt|]; intros ?); apply quiet_ret.
Qed.

(** A run that comes to its end met no failure. *)
Definition lucky {A} (m : M A) : Prop := forall b io b' io' a, m (b, io) = ((b', io'), Some a) -> goes m b a b'.

Lemma lucky_ret {A} (a : A) : lucky (ret a).
Proof using. intros b io b' io' x H. unfold ret in H. injection H as <- _ <-. done. Qed.

Lemma lucky_stmt {A} (f : boot -> option (A * boot)) : lucky (stmt f).
Proof using.
  intros b io b' io' x H. apply goes_stmt. unfold stmt in H. destruct (List.hd true io); [|done]. destruct (f b) as [[y b1]|]; [|done]. by injection H as <- _ <-.
Qed.

Lemma lucky_bind {A B} (m : M A) (f : A -> M B) : lucky m -> (forall a, lucky (f a)) -> lucky (bind m f).
Proof using.
  intros Hm Hf b io b' io' x H. unfold bind in H. destruct (m (b, io)) as [[b1 io1] [a|]] eqn:E; [|done]. eapply goes_bind; [by eapply Hm|by eapply Hf].
Qed.

Lemma lucky_for_each {A B} (l : list A) (acc : B) (f : B -> A -> M B) : (forall acc x, lucky (f acc x)) -> lucky (for_each l acc f).
Proof using. intros Hf. revert acc. induction l as [|x l IH]; intros acc; [apply lucky_ret|]. apply lucky_bind; [apply Hf|apply IH]. Qed.

Lemma lucky_FromConfig cfg ts : lucky (FromConfig cfg ts).
Proof using.
  unfold FromConfig. apply lucky_bind.
  { apply lucky_bind; [apply lucky_stmt|]. intros n. destruct (n =? 0)%nat; repeat (apply lucky_bind; [apply lucky_stmt|]; intros ?); apply lucky_ret. }
  intros [[adminID created] n]. apply lucky_bind.
  { apply lucky_for_each. intros [seeded k] pk. apply lucky_bind; [apply lucky_stmt|]. intros []; [apply lucky_ret|]. destruct (hex_decode _); [|apply lucky_ret].
    apply lucky_bind; [apply lucky_stmt|]. intros _. apply lucky_ret. }
  intros [seeded k]. apply lucky_bind; [apply lucky_stmt|]. intros count. apply lucky_bind; [|intros _; apply lucky_ret]. destruct (count =? 0)%nat; [|apply lucky_ret].
  apply lucky_for_each. intros j e. apply lucky_bind; [apply lucky_stmt|]. intros _. apply lucky_ret.
Qed.

(** ** What stays *)

(** Nothing that was there is changed or removed. *)
Definition extends (b b' : boot) : Prop :=
  creds (b_db b) `prefix_of` creds (b_db b') /\ accounts (b_db b) `prefix_of` accounts (b_db b') /\
  (forall a, admin_account (b_db b) = Some a -> admin_account (b_db b') = Some a) /\ b_endpoints b ⊆ b_endpoints b'.

#[local] Instance extends_preorder : PreOrder extends.
Proof using.
  split; [by intros b; split_and!|]. intros a b c (H1 & H2 & H3 & H4) (K1 & K2 & K3 & K4). split_and!; [by etrans|by etrans|auto|by etrans].
Qed.

Definition additive {A} (m : M A) : Prop := forall s, extends (fst s) (fst (fst (m s))).

Lemma additive_ret {A} (a : A) : additive (ret a).
Proof using. by intros s. Qed.

Lemma additive_stmt {A} (f : boot -> option (A * boot)) : (forall b a b', f b = Some (a, b') -> extends b b') -> additive (stmt f).
Proof using. intros Hf [b io]. unfold stmt. cbn. destruct (hd true io); [|done]. destruct (f b) as [[a b']|] eqn:E; [|done]. by eapply Hf. Qed.

Lemma additive_query {A} (f : boot -> A) : additive (query f).
Proof using. apply additive_stmt. by intros b a b' [= _ <-]. Qed.

Lemma additive_bind {A B} (m : M A) (f : A -> M B) : additive m -> (forall a, additive (f a)) -> additive (bind m f).
Proof using. intros Hm Hf s. unfold bind. specialize (Hm s). destruct (m s) as [s1 [a|]]; cbn in *; [|done]. etrans; [done|apply Hf]. Qed.

Lemma additive_for_each {A B} (l : list A) (acc : B) (f : B -> A -> M B) : (forall acc x, additive (f acc x)) -> additive (for_each l acc f).
Proof using. intros Hf. revert acc. induction l as [|x l IH]; intros acc; [apply additive_ret|]. apply additive_bind; [apply Hf|apply IH]. Qed.

Lemma insert_row_app db r db' : Passkeys.insert_row db r = Some db' -> db' = set_creds db (creds db ++ [r]).
Proof using. unfold Passkeys.insert_row. destruct (existsb _ _); [done|]. destruct (find_account _ _); [|done]. by intros [= <-]. Qed.

Lemma additive_passkey rpID ts adminID acc pk : additive (seed_passkey rpID ts adminID acc pk).
Proof using.
  unfold seed_passkey. destruct acc as [seeded n]. apply additive_bind; [apply additive_query|]. intros []; [apply additive_ret|]. destruct (hex_decode _); [|apply additive_ret].
  apply additive_bind; [|intros _; apply additive_ret]. apply additive_stmt. intros b a b' H. apply fmap_Some in H as (db & Hdb & [= _ ->]). apply insert_row_app in Hdb as ->.
  split_and!; cbn; try done. by apply prefix_app_r.
Qed.

Lemma additive_endpoint ts adminID n e : additive (seed_endpoint ts adminID n e).
Proof using.
  apply additive_bind; [|intros _; apply additive_ret]. apply additive_stmt. intros b a b'. destruct (b_endpoints b !! newID n) eqn:E; [done|]. intros [= _ <-].
  split_and!; cbn; try done. by apply insert_subseteq.
Qed.

Lemma additive_account : additive seed_account.
Proof using.
  apply additive_bind; [apply additive_query|]. intros k. destruct (k =? 0)%nat.
  - apply additive_bind; [|intros _; apply additive_bind; [|intros _; apply additive_ret]]; apply additive_stmt; intros b a b'.
    + unfold insert_first_account. destruct (existsb _ _); [done|]. intros [= _ <-]. split_and!; cbn; try done. by apply prefix_app_r.
    + unfold insert_admin. destruct (admin_account (b_db b)) eqn:Ea; [done|]. destruct (find_account _ _); [|done]. intros [= _ <-]. split_and!; cbn; try done. congruence.
  - apply additive_bind; [|intros ?; apply additive_ret]. apply additive_stmt. intros b a b' H. apply fmap_Some in H as (x & _ & [= _ ->]). done.
Qed.

Lemma additive_FromConfig cfg ts : additive (FromConfig cfg ts).
Proof using.
  unfold FromConfig. apply additive_bind; [apply additive_account|]. intros [[adminID created] n]. apply additive_bind; [apply additive_for_each; intros; apply additive_passkey|]. intros [seeded k].
  apply additive_bind; [apply additive_query|]. intros c. apply additive_bind; [|intros _; apply additive_ret].
  destruct (c =? 0)%nat; [apply additive_for_each; intros; apply additive_endpoint|apply additive_ret].
Qed.

(** ** What a boot without failures establishes *)

Definition passkey_done (db : DB) (pk : SeedAdminPasskey) : Prop := has_credential db (sp_CredentialID pk) = true \/ hex_decode (sp_PublicKeyHex pk) = None.

Lemma has_credential_prefix db db' cid : creds db `prefix_of` creds db' -> has_credential db cid = true -> has_credential db' cid = true.
Proof using. intros [l E]. unfold has_credential. rewrite E, existsb_app. by intros ->. Qed.

Lemma additive_goes {A} (m : M A) b a b' : additive m -> goes m b a b' -> extends b b'.
Proof using. intros Hm H. specialize (Hm (b, [])). unfold goes in H. by rewrite H in Hm. Qed.

Lemma passkey_goes rpID ts adminID acc pk b acc' b' : goes (seed_passkey rpID ts adminID acc pk) b acc' b' -> passkey_done (b_db b') pk.
Proof using.
  unfold seed_passkey. destruct acc as [seeded n]. intros H. apply bind_goes in H as (x & b1 & H1 & H2); [|apply quiet_stmt]. apply goes_stmt in H1 as [= <- <-].
  destruct (has_credential _ _) eqn:Eh; [injection H2 as <- <-; by left|]. destruct (hex_decode _) as [pubKey|] eqn:Ed; [|by right].
  apply bind_goes in H2 as ([] & b2 & H2 & H3); [|apply quiet_stmt]. injection H3 as <- <-. apply goes_stmt in H2. apply fmap_Some in H2 as (db & Hdb & [= ->]). apply insert_row_app in Hdb as ->.
  left. unfold has_credential. cbn. rewrite existsb_app. cbn. by rewrite bool_decide_eq_true_2, orb_true_r.
Qed.

Lemma passkeys_goes rpID ts adminID l acc b acc' b' : goes (for_each l acc (seed_passkey rpID ts adminID)) b acc' b' -> Forall (passkey_done (b_db b')) l.
Proof using.
  revert acc b. induction l as [|pk l IH]; intros acc b; [by intros _|]. cbn [for_each]. intros H. apply bind_goes in H as (x & b1 & H1 & H2); [|apply quiet_passkey].
  constructor; [|by eapply IH]. apply passkey_goes in H1. assert (extends b1 b') as (Hc & _) by (eapply additive_goes; [|exact H2]; apply additive_for_each; intros; apply additive_passkey).
  destruct H1 as [H1|H1]; [left; by eapply has_credential_prefix|by right].
Qed.

(** The account of the administrator exists after it. *)
Lemma account_goes b x b' : goes seed_account b x b' -> accounts (b_db b') <> [] /\ admin_account (b_db b') = Some (fst (fst x)).
Proof using.
  intros H. apply bind_goes in H as (n & b1 & H1 & H2); [|apply quiet_stmt]. apply goes_stmt in H1 as [= <- <-]. destruct (length (accounts (b_db b)) =? 0)%nat eqn:En.
  - apply bind_goes in H2 as ([] & b2 & H2 & H3); [|apply quiet_stmt]. apply bind_goes in H3 as ([] & b3 & H3 & H4); [|apply quiet_stmt]. injection H4 as <- <-.
    apply goes_stmt in H2, H3. unfold insert_first_account in H2. destruct (existsb _ _); [done|]. injection H2 as <-. unfold insert_admin in H3. cbn in H3.
    destruct (admin_account (b_db b)); [done|]. destruct (List.find _ _); [|done]. injection H3 as <-. cbn. split; [by destruct (accounts (b_db b))|done].
  - apply bind_goes in H2 as (a & b2 & H2 & H3); [|apply quiet_stmt]. injection H3 as <- <-. apply goes_stmt in H2. apply fmap_Some in H2 as (x & Hx & [= -> ->]). cbn. split; [|done].
    intros E. by rewrite E in En.
Qed.

Lemma endpoints_goes ts adminID l n b n' b' : goes (for_each l n (seed_endpoint ts adminID)) b n' b' -> l <> [] -> b_endpoints b' <> ∅.
Proof using.
  destruct l as [|e l]; [done|]. intros H _. cbn [for_each] in H. apply bind_goes in H as (k & b1 & H1 & H2); [|apply quiet_endpoint].
  unfold seed_endpoint in H1. apply bind_goes in H1 as ([] & b2 & H1 & H3); [|apply quiet_stmt]. injection H3 as <- <-. apply goes_stmt in H1. destruct (b_endpoints b !! newID n) eqn:E; [done|]. injection H1 as <-.
  assert (extends (mkBoot (b_db b) (<[newID n:=endpoint_row ts adminID e]> (b_endpoints b))) b') as (_ & _ & _ & Hs).
  { eapply additive_goes; [|exact H2]. apply additive_for_each. intros. apply additive_endpoint. }
  cbn in Hs. intros E'. rewrite E' in Hs. specialize (Hs (newID n)). rewrite lookup_empty, lookup_insert_eq in Hs. done.
Qed.

Lemma FromConfig_goes cfg ts b r b' : goes (FromConfig cfg ts) b r b' ->
  accounts (b_db b') <> [] /\ is_Some (admin_account (b_db b')) /\ Forall (passkey_done (b_db b')) (c_SeedAdminPasskeys cfg) /\
  (c_SeedAdminEndpoints cfg <> [] -> b_endpoints b' <> ∅).
Proof using.
  unfold FromConfig. intros H. apply bind_goes in H as ([[adminID created] n] & b1 & H1 & H2); [|apply quiet_account]. destruct (account_goes _ _ _ H1) as [Ha Had].
  apply bind_goes in H2 as ([seeded k] & b2 & H2 & H3); [|apply quiet_for_each; intros; apply quiet_passkey]. pose proof (passkeys_goes _ _ _ _ _ _ _ _ H2) as Hp.
  assert (extends b1 b2) as (_ & E1 & E2 & _) by (eapply additive_goes; [|exact H2]; apply additive_for_each; intros; apply additive_passkey).
  apply bind_goes in H3 as (c & b3 & H3 & H4); [|apply quiet_stmt]. apply goes_stmt in H3 as [= <- <-].
  apply bind_goes in H4 as (k' & b4 & H4 & H5); [|destruct (_ =? 0)%nat; [apply quiet_for_each; intros; apply quiet_endpoint|apply quiet_ret]]. injection H5 as <- _.
  assert (extends b2 b4) as (F0 & F1 & F2 & _).
  { eapply additive_goes; [|exact H4]. destruct (_ =? 0)%nat; [apply additive_for_each; intros; apply additive_endpoint|apply additive_ret]. }
  split_and!.
  - intros E. rewrite E in F1. apply prefix_nil_inv in F1. rewrite F1 in E1. by apply prefix_nil_inv in E1.
  - rewrite (F2 _ (E2 _ Had)). by eexists.
  - eapply Forall_impl; [exact Hp|]. intros pk [Hk|Hk]; [left; by eapply has_credential_prefix|by right].
  - intros Hne. destruct (size (b_endpoints b2) =? 0)%nat eqn:Es; [by eapply endpoints_goes|]. injection H4 as <- _. intros E. by rewrite E, map_size_empty in Es.
Qed.

(** A boot when all is there. *)
Lemma passkeys_nothing rpID ts adminID l acc b : Forall (passkey_done (b_db b)) l -> goes (for_each l acc (seed_passkey rpID ts adminID)) b acc b.
Proof using.
  intros H. revert acc. induction H as [|pk l Hpk _ IH]; intros acc; [done|]. cbn [for_each]. eapply goes_bind; [|apply IH]. unfold seed_passkey. destruct acc as [seeded n].
  eapply goes_bind; [by apply goes_stmt|]. destruct Hpk as [Hpk|Hpk]; [by rewrite Hpk|]. destruct (has_credential _ _); [done|]. by rewrite Hpk.
Qed.

Lemma FromConfig_nothing cfg ts b : accounts (b_db b) <> [] -> is_Some (admin_account (b_db b)) -> Forall (passkey_done (b_db b)) (c_SeedAdminPasskeys cfg) ->
  (c_SeedAdminEndpoints cfg <> [] -> b_endpoints b <> ∅) -> goes (FromConfig cfg ts) b (mkSeedResult false false EmptyString) b.
Proof using.
  intros Ha [a Had] Hp He. unfold FromConfig. eapply (goes_bind _ _ b (a, false, 0%nat) b).
  { unfold seed_account. eapply goes_bind; [by apply goes_stmt|]. destruct (accounts (b_db b)); [done|]. cbn [length Nat.eqb]. eapply goes_bind; [apply goes_stmt; unfold select_admin; by rewrite Had|]. done. }
  eapply goes_bind; [by apply passkeys_nothing|]. cbv beta iota. eapply goes_bind; [by apply goes_stmt|]. eapply (goes_bind _ _ b 0%nat b); [|done].
  destruct (size (b_endpoints b) =? 0)%nat eqn:Es; [|done]. destruct (c_SeedAdminEndpoints cfg) as [|e l]; [done|]. exfalso. apply He; [done|]. apply map_size_empty_inv. by apply Nat.eqb_eq in Es.
Qed.

End Seed.

(** ** Claims *)

(** A boot never changes or removes what the database holds, whichever of its
    statements fail; and after a boot in which none failed the seeds are in
    place, so that every later boot, with fresh ids and another time, finds
    nothing to do and leaves the database as it is (C35). *)
Theorem seed_once ParsePublicKey newID cfg ts b :
  (forall io, extends b (fst (fst (FromConfig ParsePublicKey newID cfg ts (b, io))))) /\
  (forall r b', goes (FromConfig ParsePublicKey newID cfg ts) b r b' ->
     is_Some (admin_account (b_db b')) /\ Forall (passkey_done (b_db b')) (c_SeedAdminPasskeys cfg) /\
     forall newID' ts', FromConfig ParsePublicKey newID' cfg ts' (b', []) = ((b', []), Some (mkSeedResult false false EmptyString))).
Proof.
  split; [intros io; apply (additive_FromConfig ParsePublicKey newID cfg ts (b, io))|]. intros r b' H. destruct (FromConfig_goes _ _ _ _ _ _ _ H) as (H1 & H2 & H3 & H4). split_and!; [done|done|].
  intros newID' ts'. by apply FromConfig_nothing.
Qed.

(** A failure between the two statements that create the administrator's
    account is for ever: every later boot fails, whatever its configuration. *)
Theorem seed_lockout ParsePublicKey newID cfg ts : exists b',
  fst (fst (FromConfig ParsePublicKey newID cfg ts (mkBoot (mkDB [] [] None) ∅, [true; true; false]))) = b' /\
  forall newID' cfg' ts' io, snd (FromConfig ParsePublicKey newID' cfg' ts' (b', io)) = None.
Proof.
  eexists. split; [reflexivity|]. intros newID' cfg' ts' io. unfold FromConfig, bind, seed_account, bind, query, stmt. cbn.
  destruct io as [|[] io]; cbn; [done| |done]. by destruct io as [|[] io].
Qed.

(** ** Pins of the configuration *)

Section Pins.
Context (now adminID : string) (seeds : list Config.SeedEndpoint).

(** A row that gets the host key of the configuration at its address. *)
Definition pinned_from_config (r r' : PinStore.row) : Prop :=
  r_hk_fp r = None /\ r_account r = adminID /\ r_enabled r = true /\
  exists e hk, e ∈ seeds /\ Config.se_ParsedHostKey e = Some hk /\ r_host r = Address.Host (Config.se_Parsed e) /\ r_port r = Address.Port (Config.se_Parsed e) /\
    r_username r = Address.Username (Config.se_Parsed e) /\
    r' = set_pin r now (nz (Config.hk_Type hk)) (Config.hk_Key hk) (Some (Config.hk_Fingerprint hk)) (Some now) (nz "config").

Definition row_kept (o o' : option PinStore.row) : Prop :=
  match o, o' with None, None => True | Some r, Some r' => r' = r \/ pinned_from_config r r' | _, _ => False end.

Definition kept_table (t t' : Table) : Prop := forall id, row_kept (t !! id) (t' !! id).

Lemma kept_table_refl t : kept_table t t.
Proof using. intros id. unfold row_kept. destruct (t !! id); [by left|done]. Qed.

Lemma kept_trans a b c : kept_table a b -> kept_table b c -> kept_table a c.
Proof using.
  intros H K id. specialize (H id). specialize (K id). unfold row_kept in *. destruct (a !! id) as [ra|], (b !! id) as [rb|], (c !! id) as [rc|]; try done.
  destruct H as [->|H]; [done|]. destruct K as [->|(Hn & _)]; [by right|]. destruct H as (_ & _ & _ & e & hk & _ & _ & _ & _ & _ & ->). done.
Qed.

Lemma kept_columns t t' id r r' : kept_table t t' -> t !! id = Some r -> t' !! id = Some r' ->
  r_account r' = r_account r /\ r_enabled r' = r_enabled r /\ r_username r' = r_username r.
Proof using.
  intros H Hr Hr'. specialize (H id). rewrite Hr, Hr' in H. destruct H as [->|(_ & _ & _ & e & hk & _ & _ & _ & _ & _ & ->)]; done.
Qed.

Lemma pin_row_kept e hk io t0 t id pinned : e ∈ seeds -> Config.se_ParsedHostKey e = Some hk -> kept_table t0 t ->
  (exists r, t0 !! id = Some r /\ r_account r = adminID /\ r_username r = Address.Username (Config.se_Parsed e) /\ r_enabled r = true) ->
  kept_table t0 (pin_row now e hk io t (id, pinned)).
Proof using.
  intros He Hk Ht (r0 & Hr0 & Ha & Hu & Hen). unfold pin_row. destruct (bool_decide _); [done|]. destruct (negb _); [done|]. unfold PinHostKey. cbn [pk_ID pk_Host pk_Port pk_Record pk_PinnedBy kr_Type kr_Key kr_Fingerprint].
  destruct (negb (answers io 0)); [done|]. destruct (t !! id) as [r|] eqn:Er; cbv iota beta zeta.
  - destruct (bool_decide (r_hk_fp r = None) && _ && _) eqn:Em.
    + apply andb_true_iff in Em as [[E1 E2]%andb_true_iff E3]. apply bool_decide_eq_true in E1, E2. apply Z.eqb_eq in E3. eapply kept_trans; [exact Ht|]. intros x. cbn [fst].
      destruct (decide (x = id)) as [->|Hne].
      * rewrite lookup_alter_eq, Er. cbn. right. destruct (kept_columns _ _ _ _ _ Ht Hr0 Er) as (C1 & C2 & C3). split_and!; try congruence. exists e, hk. split_and!; congruence.
      * rewrite lookup_alter_ne by done. unfold row_kept. destruct (t !! x); [by left|done].
    + by repeat (case_match; try done).
  - by destruct (negb (answers io 1)).
Qed.

Lemma pin_endpoint_kept t e io : e ∈ seeds -> kept_table t (pin_endpoint now adminID t (e, io)).
Proof using.
  intros He. unfold pin_endpoint. destruct (Config.se_ParsedHostKey e) as [hk|] eqn:Ek; [|apply kept_table_refl]. unfold ListByAddress. destruct (answers _ 0); [|apply kept_table_refl].
  assert (Hrows : Forall (fun x => exists r, t !! fst x = Some r /\ r_account r = adminID /\ r_username r = Address.Username (Config.se_Parsed e) /\ r_enabled r = true)
    (map_to_list (omap (fun r => if bool_decide (r_account r = adminID) && bool_decide (r_host r = Address.Host (Config.se_Parsed e)) && (r_port r =? Address.Port (Config.se_Parsed e))
                                   && bool_decide (r_username r = Address.Username (Config.se_Parsed e)) && r_enabled r then Some (text (r_hk_fp r)) else None) t))).
  { apply Forall_forall. intros [id fp] Hin. apply elem_of_map_to_list in Hin. rewrite lookup_omap in Hin. cbn [fst]. destruct (t !! id) as [r|]; [|done]. cbn in Hin. exists r.
    destruct (bool_decide (r_account r = adminID)) eqn:E1; [|done]. destruct (bool_decide (r_host r = _)); [|done]. destruct (r_port r =? _); [|done].
    destruct (bool_decide (r_username r = _)) eqn:E2; [|done]. destruct (r_enabled r); [|done]. apply bool_decide_eq_true in E1, E2. done. }
  revert Hrows. generalize (map_to_list (omap (fun r => if bool_decide (r_account r = adminID) && bool_decide (r_host r = Address.Host (Config.se_Parsed e))
    && (r_port r =? Address.Port (Config.se_Parsed e)) && bool_decide (r_username r = Address.Username (Config.se_Parsed e)) && r_enabled r then Some (text (r_hk_fp r)) else None) t)).
  intros l Hl. pose proof (kept_table_refl t) as Hk. revert Hk. generalize t at 2 4. induction Hl as [|[id fp] l Hx _ IH]; intros u Hu; [done|]. cbn [fold_left]. apply IH. by apply pin_row_kept.
Qed.

Lemma pins_kept t l : (forall e io, (e, io) ∈ l -> e ∈ seeds) -> kept_table t (fold_left (pin_endpoint now adminID) l t).
Proof using.
  revert t. induction l as [|[e io] l IH]; intros t Hl; [apply kept_table_refl|]. cbn [fold_left]. eapply kept_trans; [apply pin_endpoint_kept|apply IH].
  - apply (Hl e io), list_elem_of_here.
  - intros e' io' Hin. apply (Hl e' io'). by apply list_elem_of_further.
Qed.

End Pins.

(** Pinning from the configuration, at any boot and with any failure, adds no
    endpoint, removes none, and changes a row only if it is an enabled endpoint
    of the administrator with no pin, at the very address whose key the
    configuration gives; an existing pin is never overwritten. *)
Theorem config_pins_never_overwrite now cfg io b id :
  match b_endpoints b !! id, ApplyHostKeyPins now cfg io b !! id with
  | None, None => True
  | Some r, Some r' =>
      r' = r \/ exists adminID, admin_account (b_db b) = Some adminID /\ pinned_from_config now adminID (c_SeedAdminEndpoints cfg) r r'
  | _, _ => False
  end.
Proof.
  unfold ApplyHostKeyPins. destruct (admin_account (b_db b)) as [adminID|]; [|destruct (b_endpoints b !! id); [by left|done]].
  pose proof (pins_kept now adminID (c_SeedAdminEndpoints cfg) (b_endpoints b) (map (fun e => (e, io e)) (c_SeedAdminEndpoints cfg))) as H.
  assert (forall e x, (e, x) ∈ map (fun e => (e, io e)) (c_SeedAdminEndpoints cfg) -> e ∈ c_SeedAdminEndpoints cfg) as Hin.
  { intros e x Hx. apply list_elem_of_fmap in Hx as (e' & [= -> _] & He'). done. }
  specialize (H Hin id). unfold row_kept in H. destruct (b_endpoints b !! id) as [r|], (fold_left _ _ (b_endpoints b) !! id) as [r'|]; try done.
  destruct H as [->|H]; [by left|right]. by exists adminID.
Qed.

(** ** Witness: a first boot and a second one *)

Definition sample_parse : list byte -> option ParsedKey := fun _ => None.
Definition sample_ids (prefix : string) (n : nat) : string := prefix ++ itoa (Z.of_nat n).
Definition sample_cfg : Config :=
  with_idle (S754_zero false)
    (mkConfig "" [Config.mkSeedEndpoint "box" "root@box:22" None None None (Address.mkAddress "root" "box" 22) None] [mkSeedPasskey "cred" "0aFF" 0 None "Admin Passkey"] [] 0 "" TrustNil "localhost" None false
      (mkRateLimits (mkRateLimitRule 0 0) (mkRateLimitRule 0 0) (mkRateLimitRule 0 0) (mkRateLimitRule 0 0)) [] 0 None true
      (S754_zero false) (S754_zero false) "" "" "" "" None None None None [] [] 0 0 "" false "" None).

Lemma seed_once_witness :
  let b := fst (fst (FromConfig sample_parse (sample_ids "a") sample_cfg "t0" (mkBoot (mkDB [] [] None) ∅, []))) in
  size (b_endpoints b) = 1%nat /\ map CredentialID (creds (b_db b)) = ["cred"%string] /\
  FromConfig sample_parse (sample_ids "b") sample_cfg "t1" (b, []) = ((b, []), Some (mkSeedResult false false EmptyString)).
Proof.
  intros b. split; [by vm_compute|]. split; [by vm_compute|].
  assert (goes (FromConfig sample_parse (sample_ids "a") sample_cfg "t0") (mkBoot (mkDB [] [] None) ∅) (mkSeedResult true true "a0") b) as Hg by (by vm_compute).
  destruct (proj2 (seed_once sample_parse (sample_ids "a") sample_cfg "t0" (mkBoot (mkDB [] [] None) ∅)) _ _ Hg) as (_ & _ & H). apply H.
Defined.

(** A failure after the first of two endpoints: the table is not empty any
    more, so the second is never written. *)
Definition two_endpoints : Config :=
  let e label := Config.mkSeedEndpoint label "root@box:22" None None None (Address.mkAddress "root" "box" 22) None in
  mkConfig "" [e "one"; e "two"]%string [] [] 0 "" TrustNil "localhost" None false
    (mkRateLimits (mkRateLimitRule 0 0) (mkRateLimitRule 0 0) (mkRateLimitRule 0 0) (mkRateLimitRule 0 0)) [] 0 None true
    (S754_zero false) (S754_zero false) "" "" "" "" None None None None [] [] 0 0 "" false "" None.

Theorem endpoints_half_seeded :
  let b := fst (fst (FromConfig sample_parse (sample_ids "a") two_endpoints "t0" (mkBoot (mkDB [] [] None) ∅, [true; true; true; true; true; false]))) in
  size (b_endpoints b) = 1%nat /\ FromConfig sample_parse (sample_ids "b") two_endpoints "t1" (b, []) = ((b, []), Some (mkSeedResult false false EmptyString)).
Proof. split; by vm_compute. Qed.
