(* ===== verification/SignAgent.v ===== *)
(** * The broker-backed SSH agent and its WebSocket framing
      (internal/signagent/agent.go, internal/agentproxy/framing.go)

    A signature request is a function from the broker's answers to the calls it
    makes to the broker, in order, and its result: a human is asked exactly by
    those calls. *)
From S2P Require Import Prelude Base64 SSHWire Tokens Approval Broker HostKeys.

(** ** The agent *)

(** What the agent uses of an [ssh.Signer]: its public key and whether it can
    sign with a chosen algorithm; the signature itself is a parameter. *)
Record Signer := mkSigner { sg_PublicKey : PublicKey; sg_AlgorithmSigner : bool }.

Record Identity := mkIdentity {
  id_Signer : option Signer;
  id_PublicKey : option PublicKey;
  id_IsPasskey : bool;
  id_CredentialID : string;
  id_Label : string;
  id_RpID : string
}.

Record Agent := mkAgent {
  ag_identities : list Identity;
  ag_accountID : string;
  ag_connectionID : string;
  ag_actionCtx : Context_;
  ag_redirectTo : string
}.

Inductive broker_call :=
  | CallRequestSign (accountID : string) (req : SignRequest) (ctx : Context_) (redirectTo : string)
  | CallRequestKeyApproval (p : KeyApproval).

Inductive AgentError :=
  | ErrKeyNotFound
  | ErrIncapableSigner
  | ErrBroker (err : RejectError)
  | ErrAssertion (err : SignatureError)
  | ErrSignerFailed
  | ErrReadOnly
  | ErrExtensionUnsupported
  | NilSigner.

Definition KeyAlgoRSA : string := "ssh-rsa".
Definition KeyAlgoRSASHA256 : string := "rsa-sha2-256".
Definition KeyAlgoRSASHA512 : string := "rsa-sha2-512".
Definition SignatureFlagRsaSha256 : Z := 2.
Definition SignatureFlagRsaSha512 : Z := 4.

(** The public key an identity presents. *)
Definition identity_key (id : Identity) : option PublicKey :=
  match id_PublicKey id with
  | Some pub => Some pub
  | None => sg_PublicKey <$> id_Signer id
  end.

(** List: format, blob and comment of each presentable identity. *)
Definition List_ (a : Agent) : list (string * list byte * string) :=
  omap (fun id => pub ← identity_key id; Some (pk_Type pub, pk_Marshal pub, id_Label id)) (ag_identities a).

Definition identity_matches (want : list byte) (id : Identity) : bool :=
  match identity_key id with
  | None => false
  | Some pub =>
      bool_decide (pk_Marshal pub = want)
      || id_IsPasskey id && bool_decide (canonicalizeSK (pk_Marshal pub) = canonicalizeSK want)
  end.

Definition match_ (a : Agent) (key : PublicKey) : option Identity :=
  List.find (identity_matches (pk_Marshal key)) (ag_identities a).

Section sign.
(** The broker's answers, the assertion converter, the fingerprint and the
    file keys' signatures. *)
Context (RequestSign : SignRequest -> RejectError + SignResponse).
Context (RequestKeyApproval : KeyApproval -> RejectError + string).
Context (build : SignResponse -> SignatureError + Signature).
Context (FingerprintSHA256 : list byte -> string).
Context (signer_Sign : Signer -> list byte -> option string -> option Signature).

Definition sign (a : Agent) (key : PublicKey) (data : list byte) (algorithm : string)
  : list broker_call * (AgentError + Signature) :=
  match match_ a key with
  | None => ([], inl ErrKeyNotFound)
  | Some id =>
      if id_IsPasskey id then
        let req := mkSignRequest (id_CredentialID id) data (id_RpID id) "" (id_Label id) (ag_connectionID a) in
        ([CallRequestSign (ag_accountID a) req (ag_actionCtx a) (ag_redirectTo a)],
         match RequestSign req with
         | inl err => inl (ErrBroker err)
         | inr resp => match build resp with inl e => inl (ErrAssertion e) | inr sig => inr sig end
         end)
      else
        match id_Signer id with
        | None => ([], inl NilSigner)
        | Some s =>
            let wants := negb (bool_decide (algorithm = EmptyString))
                         && bool_decide (pk_Type (sg_PublicKey s) = KeyAlgoRSA) in
            if wants && negb (sg_AlgorithmSigner s) then ([], inl ErrIncapableSigner)
            else
              let p := mkKeyApproval (ag_accountID a) (id_Label id)
                         (FingerprintSHA256 (pk_Marshal (sg_PublicKey s)))
                         (ag_connectionID a) (ag_actionCtx a) (ag_redirectTo a) in
              ([CallRequestKeyApproval p],
               match RequestKeyApproval p with
               | inl err => inl (ErrBroker err)
               | inr _ =>
                   match signer_Sign s data (if wants then Some algorithm else None) with
                   | Some sig => inr sig
                   | None => inl ErrSignerFailed
                   end
               end)
        end
  end.

Definition Agent_Sign (a : Agent) (key : PublicKey) (data : list byte) := sign a key data "".

Definition SignWithFlags (a : Agent) (key : PublicKey) (data : list byte) (flags : Z) :=
  let algorithm :=
    if negb (Z.land flags SignatureFlagRsaSha512 =? 0) then KeyAlgoRSASHA512
    else if negb (Z.land flags SignatureFlagRsaSha256 =? 0) then KeyAlgoRSASHA256
    else EmptyString in
  sign a key data algorithm.
End sign.

(** Add, Remove, RemoveAll, Lock, Unlock and Signers; and Extension. *)
Definition readOnly : AgentError := ErrReadOnly.
Definition Extension : AgentError := ErrExtensionUnsupported.

(** The identity of a stored passkey. *)
Definition PasskeyIdentity (authorizedKeysLine : list byte) (credentialID label rpID : string) : option Identity :=
  match parseWebauthnPublicKey authorizedKeysLine with
  | None => None
  | Some blob =>
      Some (mkIdentity None (Some (mkKey (string_of_bytes sshAlgorithm) blob)) true credentialID label rpID)
  end.

(** ** Framing (framing.go) *)

(** A message read from the socket: binary or not. *)
Inductive ws_message := Binary (data : list byte) | NotBinary.

Inductive read_error := SocketError | EOF.

(** One Read of up to [n] bytes. [inbound] are the messages the socket will
    deliver; when they run out it reports an error. The answer is the bytes or
    the error, the messages left, the rest of the current message, and whether
    the socket was closed with code 4002. *)
Fixpoint Read (inbound : list ws_message) (readBuf : list byte) (n : nat)
  : (read_error + list byte) * list ws_message * list byte * bool :=
  match readBuf with
  | _ :: _ => (inr (take n readBuf), inbound, drop n readBuf, false)
  | [] =>
      match inbound with
      | [] => (inl SocketError, [], [], false)
      | NotBinary :: rest => (inl EOF, rest, [], true)
      | Binary data :: rest =>
          match data with
          | _ :: _ => (inr (take n data), rest, drop n data, false)
          | [] => Read rest [] n
          end
      end
  end.

(** The flush loop of Write: [ok] says of each outgoing frame whether the
    socket took it. The answer is the frames sent, the bytes kept and whether
    every frame was taken. *)
Fixpoint flush (fuel : nat) (ok : list byte -> bool) (writeBuf : list byte)
  : list (list byte) * list byte * bool :=
  match fuel with
  | O => ([], writeBuf, true)
  | S fuel =>
      if zlen writeBuf <? 4 then ([], writeBuf, true)
      else
        let n := beU32 writeBuf in
        if wrapu32 (zlen writeBuf - 4) <? n then ([], writeBuf, true)
        else
          let size := Z.to_nat (wrapu32 (4 + n)) in
          let frame := take size writeBuf in
          if ok frame then
            let '(sent, kept, done) := flush fuel ok (drop size writeBuf) in
            (frame :: sent, kept, done)
          else ([], writeBuf, false)
  end.

Definition Write (ok : list byte -> bool) (writeBuf p : list byte) : list (list byte) * list byte * bool :=
  let writeBuf := writeBuf ++ p in
  flush (S (length writeBuf)) ok writeBuf.

(** A series of writes: what ServeAgent does with its responses. *)
Fixpoint writes (ok : list byte -> bool) (writeBuf : list byte) (chunks : list (list byte))
  : list (list byte) * list byte * bool :=
  match chunks with
  | [] => ([], writeBuf, true)
  | p :: chunks' =>
      let '(sent, kept, done) := Write ok writeBuf p in
      if done then let '(sent', kept', done') := writes ok kept chunks' in (sent ++ sent', kept', done')
      else (sent, kept, false)
  end.

(** Every Read of [n] bytes until the socket fails. *)
Fixpoint reads (fuel : nat) (inbound : list ws_message) (readBuf : list byte) (n : nat) : list byte :=
  match fuel with
  | O => []
  | S fuel =>
      match Read inbound readBuf n with
      | (inr b, inbound', readBuf', _) => b ++ reads fuel inbound' readBuf' n
      | (inl _, _, _, _) => []
      end
  end.

(** ** Lemmas *)

(** No frame is complete in what is left over. *)
Definition partial (b : list byte) : Prop := zlen b < 4 \/ zlen b - 4 < beU32 b.

Definition frame (payload : list byte) : list byte := sshString payload.

Lemma flush_partial fuel ok b : partial b -> zlen b < 2 ^ 32 -> flush fuel ok b = ([], b, true).
Proof.
  intros Hp Hl. destruct fuel as [|fuel]; [done|]. simpl.
  destruct (zlen b <? 4) eqn:E; [done|]. bool_to_prop. destruct Hp as [Hp|Hp]; [lia|].
  rewrite wrapu32_id by lia. by rewrite (proj2 (Z.ltb_lt _ _)).
Qed.

Lemma flush_frame fuel ok payload rest :
  zlen payload + zlen rest + 4 < 2 ^ 32 -> ok (frame payload) = true ->
  flush (S fuel) ok (frame payload ++ rest) =
  let '(sent, kept, done) := flush fuel ok rest in (frame payload :: sent, kept, done).
Proof.
  intros Hl Hok. cbn [flush]. unfold frame in *.
  rewrite length_app, length_sshString, beU32_sshString by (unfold short; lia).
  rewrite (proj2 (Z.ltb_ge _ _)) by lia. rewrite !wrapu32_id by lia.
  rewrite (proj2 (Z.ltb_ge _ _)) by lia.
  replace (Z.to_nat (4 + zlen payload)) with (length (sshString payload)) by (rewrite length_sshString; lia).
  by rewrite take_app_length, drop_app_length, Hok.
Qed.

Definition all_ok : list byte -> bool := fun _ => true.

Lemma flush_frames fuel payloads rest :
  zlen (concat (map frame payloads) ++ rest) < 2 ^ 32 -> partial rest ->
  (length payloads <= fuel)%nat ->
  flush fuel all_ok (concat (map frame payloads) ++ rest) = (map frame payloads, rest, true).
Proof.
  revert fuel. induction payloads as [|p payloads IH]; intros fuel Hl Hp Hf; cbn [map concat length] in *.
  - by apply flush_partial.
  - destruct fuel as [|fuel]; [lia|].
    assert (Hlen : length (frame p) = (4 + length p)%nat) by apply length_sshString.
    rewrite <- app_assoc. rewrite <- app_assoc, length_app in Hl.
    rewrite flush_frame; [|lia|done]. rewrite IH; [done|lia|done|lia].
Qed.

(** Any buffer is some complete frames and an incomplete rest. *)
Lemma split_frames b : exists payloads rest, b = concat (map frame payloads) ++ rest /\ partial rest.
Proof.
  remember (length b) as k eqn:Hk. revert b Hk. induction k as [k IH] using lt_wf_ind. intros b ->.
  destruct (decide (zlen b < 4)) as [Hs|Hs]; [exists [], b; split; [done|by left]|].
  destruct (decide (zlen b - 4 < beU32 b)) as [Hi|Hi]; [exists [], b; split; [done|by right]|].
  pose proof (beU32_nonneg b) as Hn. set (n := Z.to_nat (beU32 b)).
  assert (Hb32 : beU32 b < 2 ^ 32).
  { destruct b as [|b0 [|b1 [|b2 [|b3 b]]]]; simpl; try lia.
    rewrite !Z.shiftl_mul_pow2 by lia. byte_ranges. lia. }
  set (t := drop 4 b).
  assert (Ht : b = be32 (beU32 b) ++ t).
  { destruct b as [|b0 [|b1 [|b2 [|b3 b]]]]; simpl length in *; try lia. by rewrite be32_beU32. }
  assert (Hlt : length t = (length b - 4)%nat) by apply length_drop.
  destruct (IH (length (drop n t)) ltac:(rewrite length_drop; lia) (drop n t) eq_refl)
    as (ps & rest & Hb & Hp).
  exists (take n t :: ps), rest. split; [|done]. cbn [map concat]. rewrite <- app_assoc, <- Hb.
  unfold frame, sshString. rewrite length_take, Nat.min_l by lia.
  subst n. rewrite Z2Nat.id, wrapu32_id, <- app_assoc, take_drop by lia. done.
Qed.

Lemma partial_prefix_frames payloads rest payloads' rest' :
  Forall (fun p => short p) payloads -> Forall (fun p => short p) payloads' ->
  partial rest -> partial rest' ->
  concat (map frame payloads) ++ rest = concat (map frame payloads') ++ rest' ->
  payloads = payloads' /\ rest = rest'.
Proof.
  assert (Hhead : forall p t, short p -> ~ partial (frame p ++ t)).
  { intros p t Hs [Hp|Hp]; revert Hp; rewrite length_app; unfold frame; rewrite length_sshString;
      [lia|rewrite beU32_sshString by done; lia]. }
  intros H. revert payloads'. induction H as [|p payloads Hs _ IH]; intros payloads' H' Hp Hp' E;
    destruct H' as [|p' payloads' Hs' H']; cbn [map concat app] in *.
  - done.
  - exfalso. subst. rewrite <- app_assoc in Hp. by eapply Hhead.
  - exfalso. subst. rewrite <- app_assoc in Hp'. by eapply Hhead.
  - rewrite <- !app_assoc in E.
    assert (Hr : readString (frame p ++ concat (map frame payloads) ++ rest)
      = readString (frame p' ++ concat (map frame payloads') ++ rest')) by by rewrite E.
    unfold frame in Hr at 1 3. rewrite !readString_spec in Hr by done.
    injection Hr as -> Hr. destruct (IH payloads' H' Hp Hp' Hr) as [-> ->]. done.
Qed.

(** One write from an incomplete buffer. *)
Lemma Write_spec b p :
  zlen (b ++ p) < 2 ^ 32 ->
  exists payloads rest, Write all_ok b p = (map frame payloads, rest, true) /\
    b ++ p = concat (map frame payloads) ++ rest /\ partial rest.
Proof.
  intros Hl. destruct (split_frames (b ++ p)) as (ps & rest & E & Hp).
  exists ps, rest. split; [|done]. unfold Write. rewrite E. apply flush_frames; [by rewrite <- E|done|].
  assert (Hlen : (length ps <= length (concat (map frame ps)))%nat).
  { clear. induction ps as [|q ps IH]; cbn [map concat length]; [lia|]. rewrite length_app.
    unfold frame at 1. rewrite length_sshString. lia. }
  rewrite length_app. lia.
Qed.

Lemma writes_spec chunks b :
  zlen (b ++ concat chunks) < 2 ^ 32 -> partial b ->
  exists payloads rest, writes all_ok b chunks = (map frame payloads, rest, true) /\
    b ++ concat chunks = concat (map frame payloads) ++ rest /\ partial rest.
Proof.
  revert b. induction chunks as [|p chunks IH]; intros b Hl Hp; cbn [writes concat] in *.
  - exists [], b. by rewrite app_nil_r.
  - rewrite app_assoc in Hl. destruct (Write_spec b p) as (ps1 & rest1 & -> & E1 & Hp1).
    { rewrite length_app in Hl. lia. }
    destruct (IH rest1) as (ps2 & rest2 & -> & E2 & Hp2); [|done|].
    { rewrite E1, <- app_assoc in Hl. rewrite length_app in Hl. lia. }
    exists (ps1 ++ ps2), rest2. rewrite map_app, concat_app. split; [done|]. split; [|done].
    by rewrite app_assoc, E1, <- !app_assoc, E2.
Qed.

(** What the inbound messages carry before the first one that is not binary. *)
Fixpoint binary_bytes (inbound : list ws_message) : list byte :=
  match inbound with
  | Binary data :: rest => data ++ binary_bytes rest
  | _ => []
  end.

Lemma Read_progress inbound readBuf n :
  (0 < n)%nat ->
  match Read inbound readBuf n with
  | (inr b, inbound', readBuf', closed) =>
      b <> [] /\ (length b <= n)%nat /\ closed = false /\
      readBuf ++ binary_bytes inbound = b ++ readBuf' ++ binary_bytes inbound'
  | (inl _, _, _, _) => readBuf ++ binary_bytes inbound = []
  end.
Proof.
  intros Hn. revert readBuf. induction inbound as [|m inbound IH]; intros [|c readBuf]; simpl.
  - done.
  - split_and!; [by destruct n; [lia|]|rewrite length_take; simpl; lia|done|].
    by rewrite app_assoc, take_drop.
  - destruct m as [[|c data]|]; [apply (IH [])| |done].
    split_and!; [by destruct n; [lia|]|rewrite length_take; simpl; lia|done|].
    by rewrite app_assoc, take_drop.
  - split_and!; [by destruct n; [lia|]|rewrite length_take; simpl; lia|done|].
    by rewrite app_assoc, take_drop.
Qed.

(** ** Properties *)

(** However the agent server cuts its responses into writes, the socket gets
    exactly one message per complete SSH agent frame, in order, and nothing
    else: the frames sent are the unique cut of the written bytes into frames,
    and what is kept back is the incomplete rest. *)
Theorem Write_one_message_per_frame (chunks payloads : list (list byte)) (rest : list byte)
  (Hbytes : concat chunks = concat (map frame payloads) ++ rest)
  (Hrest : partial rest) (Hsize : zlen (concat chunks) < 2 ^ 32) :
  writes all_ok [] chunks = (map frame payloads, rest, true).
Proof.
  destruct (writes_spec chunks []) as (ps & rest' & -> & E & Hp'); [done|by left|].
  simpl in E. rewrite Hbytes in E.
  assert (Hshort : forall qs r, concat chunks = concat (map frame qs) ++ r -> Forall short qs).
  { intros qs r Eq. rewrite Eq in Hsize. clear - Hsize. induction qs as [|q qs IH]; [done|].
    cbn [map concat] in Hsize. rewrite <- app_assoc, length_app in Hsize.
    unfold frame at 1 in Hsize. rewrite length_sshString in Hsize.
    constructor; [unfold short; lia|apply IH; lia]. }
  destruct (partial_prefix_frames payloads rest ps rest') as [-> ->]; try done.
  - by eapply Hshort.
  - apply (Hshort ps rest'). by rewrite Hbytes.
Qed.

Lemma Write_one_message_per_frame_witness :
  writes all_ok [] [[x00; x00]; [x00; x01; x0b; x00]; [x00; x00; x00; x00]]
  = (map frame [[x0b]; []], [x00], true).
Proof.
  apply (Write_one_message_per_frame [[x00; x00]; [x00; x01; x0b; x00]; [x00; x00; x00; x00]] [[x0b]; []] [x00]).
  - reflexivity.
  - left. reflexivity.
  - reflexivity.
Defined.

(** Reading in pieces of any positive size yields the bytes of the binary
    messages, in order and complete, up to the first message that is not
    binary, where the stream ends; each read makes progress, so as many reads
    as there are bytes suffice. *)
Theorem Read_streams_binary_messages (inbound : list ws_message) (n fuel : nat)
  (Hn : (0 < n)%nat) (Hfuel : (length (binary_bytes inbound) <= fuel)%nat) :
  reads fuel inbound [] n = binary_bytes inbound.
Proof.
  change (binary_bytes inbound) with ([] ++ binary_bytes inbound) in *. revert Hfuel.
  generalize (@nil byte) as readBuf. revert inbound.
  induction fuel as [|fuel IH]; intros inbound readBuf Hf.
  - simpl. destruct (readBuf ++ binary_bytes inbound); [done|simpl in Hf; lia].
  - simpl. pose proof (Read_progress inbound readBuf n Hn) as Hp.
    destruct (Read inbound readBuf n) as [[[[e|b] inbound'] readBuf'] closed]; [by rewrite Hp|].
    destruct Hp as (Hb & _ & _ & E). rewrite E. f_equal. apply IH.
    rewrite E, length_app in Hf. destruct b; [done|]. simpl in Hf. lia.
Qed.

Lemma Read_streams_binary_messages_witness :
  reads 9 [Binary [x01; x02; x03]; Binary []; Binary [x04]; NotBinary; Binary [x05]] [] 2
  = binary_bytes [Binary [x01; x02; x03]; Binary []; Binary [x04]; NotBinary; Binary [x05]].
Proof.
  apply (Read_streams_binary_messages [Binary [x01; x02; x03]; Binary []; Binary [x04]; NotBinary; Binary [x05]]
    2 9); simpl; lia.
Defined.

(** The agent signs only for an identity it offers and only after a human
    approved: a signature comes with exactly one broker call, for that
    identity, whose answer was an approval; and a request for an unknown key,
    or for an algorithm the key cannot do, is refused without asking
    anyone (C5). *)
Theorem agent_signs_only_approved RequestSign_ RequestKeyApproval_ build FP signer_Sign
  (a : Agent) (key : PublicKey) (data : list byte) (flags : Z) :
  let '(calls, result) := SignWithFlags RequestSign_ RequestKeyApproval_ build FP signer_Sign a key data flags in
  (result = inl ErrKeyNotFound <->
     forall id, id ∈ ag_identities a -> identity_matches (pk_Marshal key) id = false) /\
  (result = inl ErrKeyNotFound \/ result = inl ErrIncapableSigner -> calls = []) /\
  (forall sig, result = inr sig ->
     exists id, id ∈ ag_identities a /\ identity_matches (pk_Marshal key) id = true /\
       if id_IsPasskey id then
         exists req resp, RequestSign_ req = inr resp /\ build resp = inr sig /\
           rq_CredentialID req = id_CredentialID id /\ rq_DataToSign req = data /\
           calls = [CallRequestSign (ag_accountID a) req (ag_actionCtx a) (ag_redirectTo a)]
       else
         exists p actionID s, RequestKeyApproval_ p = inr actionID /\ id_Signer id = Some s /\
           ka_AccountID p = ag_accountID a /\ ka_KeyFingerprint p = FP (pk_Marshal (sg_PublicKey s)) /\
           calls = [CallRequestKeyApproval p]).
Proof.
  unfold SignWithFlags, sign.
  destruct (match_ a key) as [id|] eqn:Em; unfold match_ in Em.
  - apply List.find_some in Em as [Hin Hm]. apply list_elem_of_In in Hin.
    assert (Hnf : ~ (forall i, i ∈ ag_identities a -> identity_matches (pk_Marshal key) i = false))
      by (intros Hall; specialize (Hall id Hin); congruence).
    destruct (id_IsPasskey id) eqn:Epk.
    + destruct (RequestSign_ _) as [e|resp] eqn:Er; [|destruct (build resp) as [e|sig] eqn:Eb];
        (split; [by split|]; split; [by intros [?|?]|]); intros sig' Hs; simplify_eq.
      exists id. rewrite Epk. split; [done|]. split; [done|]. by eexists _, resp.
    + destruct (id_Signer id) as [s|] eqn:Es.
      * set (wants := negb _ && bool_decide (pk_Type _ = _)).
        destruct (wants && negb (sg_AlgorithmSigner s)) eqn:Ew;
          [split; [by split|]; by split|].
        destruct (RequestKeyApproval_ _) as [e|action] eqn:Er;
          [|destruct (signer_Sign _ _ _) as [sig|] eqn:Eg];
          (split; [by split|]; split; [by intros [?|?]|]); intros sig' Hs; simplify_eq.
        exists id. rewrite Epk. split; [done|]. split; [done|]. by eexists _, action, s.
      * split; [by split|]. by split.
  - split; [|by split]. split; [|done]. intros _ id Hid.
    eapply List.find_none; [exact Em|]. by apply list_elem_of_In.
Qed.
