(* ===== verification/AgentClient.v ===== *)
(** * The agent on the user's machine: its relay (agent-client/internal/proxy/proxy.go)

    An SSH client connects to a local socket and speaks the agent protocol; the
    relay forwards each of its frames as one WebSocket message to the server's
    agent proxy and writes the answer back. *)
From Stdlib Require Import Ascii.
From S2P Require Import Prelude GoStrings Url SSHWire SignAgent.
#[local] Open Scope Z_scope.

(** ** Frames *)

(** io.EOF, io.ErrUnexpectedEOF, and the refusal of a length. *)
Inductive frame_error := FrameEOF | FrameUnexpectedEOF | FrameTooLarge (n : Z).

Definition maxFrame : Z := 256 * 1024.

(** io.ReadFull of [n] bytes of a stream that ends after [input]. *)
Definition ReadFull (input : list byte) (n : nat) : frame_error + (list byte * list byte) :=
  if decide (n <= length input)%nat then inr (take n input, drop n input)
  else match input with [] => inl FrameEOF | _ => inl FrameUnexpectedEOF end.

(** The frame, with its length, and the rest of the stream. *)
Definition readFrame (input : list byte) : frame_error + (list byte * list byte) :=
  match ReadFull input 4 with
  | inl err => inl err
  | inr (lenBuf, input) =>
      let payloadLen := beU32 lenBuf in
      if payloadLen >? maxFrame then inl (FrameTooLarge payloadLen)
      else
        match ReadFull input (Z.to_nat payloadLen) with
        | inl err => inl err
        | inr (payload, input) => inr (lenBuf ++ payload, input)
        end
  end.

(** ** One connection (handleConnection) *)

Definition sshAgentFailure : Z := 5.
Definition sshAgentcExtension : Z := 27.
Definition agentFailureResponse : list byte := be32 1 ++ [byte_of_Z sshAgentFailure].

Definition is_extension (frame : list byte) : bool :=
  (5 <=? zlen frame) && match frame !! 4%nat with Some b => Z_of_byte b =? sshAgentcExtension | None => false end.

(** What the world answers: whether the dial succeeds, and for each exchange
    with the server whether the write succeeds and which message is read; and
    for each write to the client whether it succeeds. *)
Record exchange := mkExchange { ex_write : bool; ex_read : option ws_message }.
Record world := mkConnWorld { w_dial : bool; w_exchanges : list exchange; w_client : list bool }.

Inductive relay_event := Dial | ToServer (frame : list byte) | ToClient (data : list byte) | CloseWS.

Definition client_ok (w : world) : bool * world :=
  match w_client w with b :: l => (b, mkConnWorld (w_dial w) (w_exchanges w) l) | [] => (true, w) end.

Definition next_exchange (w : world) : exchange * world :=
  match w_exchanges w with e :: l => (e, mkConnWorld (w_dial w) l (w_client w)) | [] => (mkExchange false None, w) end.

(** [ws] says whether the connection has its WebSocket; every frame takes at
    least four bytes of the input. *)
Fixpoint relay (fuel : nat) (ws : bool) (w : world) (input : list byte) : list relay_event :=
  let close := if ws then [CloseWS] else [] in
  match fuel with
  | O => close
  | S fuel =>
      match readFrame input with
      | inl _ => close
      | inr (frame, input) =>
          if is_extension frame then
            let '(ok, w) := client_ok w in
            ToClient agentFailureResponse :: (if ok then relay fuel ws w input else close)
          else if negb ws && negb (w_dial w) then [Dial]
          else
            (if ws then [] else [Dial]) ++
            let '(e, w) := next_exchange w in
            ToServer frame ::
              if negb (ex_write e) then [CloseWS]
              else
                match ex_read e with
                | Some (Binary response) =>
                    let '(ok, w) := client_ok w in
                    ToClient response :: (if ok then relay fuel true w input else [CloseWS])
                | _ => [CloseWS]
                end
      end
  end.

Definition handleConnection (w : world) (input : list byte) : list relay_event := relay (S (length input)) false w input.

(** ** Dialing (dialWithRetry) *)

Definition milliseconds (n : Z) : Z := n * 1000000.
Definition seconds (n : Z) : Z := n * 1000000000.
Definition dialInitialBackoff : Z := milliseconds 500.
Definition dialMaxBackoff : Z := seconds 30.
Definition dialBudget : Z := seconds 60.

Definition nextBackoff (cur : Z) : Z := let next := cur * 2 in if next >? dialMaxBackoff then dialMaxBackoff else next.

(** What errors.As and errors.Is find in a failed dial; [de_status] is the
    response of a bad handshake. *)
Record dial_error := mkDialError { de_status : option Z; de_certificate : bool; de_network : bool; de_eof : bool }.

Definition isTransientDialErr (err : option dial_error) : bool :=
  match err with
  | None => false
  | Some e =>
      match de_status e with
      | Some status => (status >=? 500) || (status =? 408) || (status =? 429)
      | None => if de_certificate e then false else de_network e || de_eof e
      end
  end.

Inductive dial_result := Connected (attempts : nat) | DialError (e : dial_error) | RetriesExhausted (attempts : nat) (e : dial_error) | StillDialing.

(** An attempt: the time it ended, and its error. *)
Fixpoint dialWithRetry_from (deadline backoff : Z) (attempt : nat) (attempts : list (Z * option dial_error)) : dial_result * list Z :=
  match attempts with
  | [] => (StillDialing, [])
  | (now, err) :: attempts =>
      let attempt := S attempt in
      match err with
      | None => (Connected attempt, [])
      | Some e =>
          if negb (isTransientDialErr (Some e)) then (DialError e, [])
          else if now + backoff >? deadline then (RetriesExhausted attempt e, [])
          else let '(r, sleeps) := dialWithRetry_from deadline (nextBackoff backoff) attempt attempts in (r, backoff :: sleeps)
      end
  end.

Definition dialWithRetry (start : Z) (attempts : list (Z * option dial_error)) : dial_result * list Z :=
  dialWithRetry_from (start + dialBudget) dialInitialBackoff 0 attempts.

(** ** Keepalive (managedWS) *)

Definition pingInterval : Z := seconds 30.
Definition pongWait : Z := seconds 60.

(** [m_deadline] is the read deadline, [m_stopped] whether stopPing is closed. *)
Record managedWS := mkManaged { m_deadline : Z; m_stopped : bool; m_closed : bool }.

Definition newManagedWS (now : Z) : managedWS := mkManaged (now + pongWait) false false.

Inductive ws_event := Pong (now : Z) | DataRead (now : Z).

(** A pong, or a read that succeeded. *)
Definition managed_event (m : managedWS) (e : ws_event) : managedWS :=
  match e with Pong now | DataRead now => mkManaged (now + pongWait) (m_stopped m) (m_closed m) end.

Definition managed_Close (m : managedWS) : managedWS := mkManaged (m_deadline m) true true.

(** ** The server's address (buildWSURL, and Run's check of it) *)

Definition buildWSURL (serverURL : string) : option string :=
  u ← Parse serverURL;
  scheme ← (if bool_decide (Scheme u = "https"%string) then Some "wss"%string else if bool_decide (Scheme u = "http"%string) then Some "ws"%string
            else if bool_decide (Scheme u = "wss"%string) || bool_decide (Scheme u = "ws"%string) then Some (Scheme u) else None);
  Some (url_string (mkURL scheme (Opaque u) (User u) (Host u) (TrimRight_char (Path u) "/"%char ++ "/agent-proxy")%string (RawPath u) (OmitHost u) (ForceQuery u)
                      (RawQuery u) (Fragment u) (RawFragment u))).

Definition relay_url (insecure : bool) (serverURL : string) : option string :=
  u ← buildWSURL serverURL; if negb insecure && negb (HasPrefix u "wss://") then None else Some u.

(** ** What a connection amounts to *)

(** The frames of a stream, up to the end or an error. *)
Fixpoint frames (fuel : nat) (input : list byte) : list (list byte) :=
  match fuel with
  | O => []
  | S fuel => match readFrame input with inl _ => [] | inr (f, input) => f :: frames fuel input end
  end.

(** handleConnection on frames. *)
Fixpoint answer_frames (ws : bool) (w : world) (fs : list (list byte)) : list relay_event :=
  let close := if ws then [CloseWS] else [] in
  match fs with
  | [] => close
  | f :: fs =>
      if is_extension f then
        let '(ok, w) := client_ok w in ToClient agentFailureResponse :: (if ok then answer_frames ws w fs else close)
      else if negb ws && negb (w_dial w) then [Dial]
      else
        (if ws then [] else [Dial]) ++
        let '(e, w) := next_exchange w in
        ToServer f ::
          if negb (ex_write e) then [CloseWS]
          else match ex_read e with
               | Some (Binary response) => let '(ok, w) := client_ok w in ToClient response :: (if ok then answer_frames true w fs else [CloseWS])
               | _ => [CloseWS]
               end
  end.

Lemma relay_frames fuel ws w input : relay fuel ws w input = answer_frames ws w (frames fuel input).
Proof.
  revert ws w input. induction fuel as [|fuel IH]; intros ws w input; [done|]. cbn [relay frames]. destruct (readFrame input) as [err|[f rest]]; [done|].
  cbn [answer_frames]. destruct (is_extension f); [destruct (client_ok w) as [[] w']; by rewrite ?IH|].
  destruct (negb ws && negb (w_dial w)); [done|]. f_equal. destruct (next_exchange w) as [e w']. f_equal. destruct (ex_write e); cbn [negb]; [|done].
  destruct (ex_read e) as [[response|]|]; [|done|done]. destruct (client_ok w') as [[] w'']; by rewrite ?IH.
Qed.

Lemma ReadFull_app a b : ReadFull (a ++ b) (length a) = inr (a, b).
Proof. unfold ReadFull. rewrite decide_True by (rewrite length_app; lia). by rewrite take_app_length, drop_app_length. Qed.

Lemma ReadFull_inr input n a b : ReadFull input n = inr (a, b) -> input = a ++ b /\ length a = n.
Proof. unfold ReadFull. destruct (decide _); [intros [= <- <-]|by destruct input]. rewrite take_drop, length_take. split; [done|lia]. Qed.

(** A frame that may pass. *)
Definition sendable (p : list byte) : Prop := zlen p <= maxFrame.

Lemma sendable_short p : sendable p -> short p.
Proof. unfold sendable, short, maxFrame. lia. Qed.

Lemma readFrame_frame p rest : sendable p -> readFrame (frame p ++ rest) = inr (frame p, rest).
Proof.
  intros Hs. pose proof (sendable_short _ Hs) as Hsh. unfold readFrame, frame, sshString. rewrite wrapu32_id by (unfold short in Hsh; lia). rewrite <- app_assoc.
  assert (beU32 (be32 (zlen p)) = zlen p) as E.
  { rewrite <- (app_nil_r (be32 _)), beU32_be32, wrapu32_id; unfold short in Hsh; lia. }
  change 4%nat with (length (be32 (zlen p))). rewrite ReadFull_app, E. unfold sendable in Hs. rewrite Z.gtb_ltb, (proj2 (Z.ltb_ge _ _)) by lia.
  by rewrite Nat2Z.id, ReadFull_app.
Qed.

Lemma readFrame_inr input f rest : readFrame input = inr (f, rest) -> exists p, f = frame p /\ sendable p /\ input = frame p ++ rest.
Proof.
  unfold readFrame. destruct (ReadFull input 4) as [err|[lenBuf input1]] eqn:E1; [done|]. destruct (beU32 lenBuf >? maxFrame) eqn:Em; [done|].
  destruct (ReadFull input1 _) as [err|[payload input2]] eqn:E2; [done|]. intros [= <- <-]. apply ReadFull_inr in E1 as [-> Hl], E2 as [-> Hp].
  rewrite Z.gtb_ltb in Em. apply Z.ltb_ge in Em. pose proof (beU32_nonneg lenBuf) as Hn. assert (zlen payload = beU32 lenBuf) as Hz by lia.
  exists payload. assert (lenBuf ++ payload = frame payload) as <-.
  { unfold frame, sshString. rewrite Hz, wrapu32_id by (unfold maxFrame in Em; lia). destruct lenBuf as [|b0 [|b1 [|b2 [|b3 [|? ?]]]]]; try discriminate Hl.
    pose proof (be32_beU32 b0 b1 b2 b3 []) as Hb. by rewrite Hb. }
  split; [done|]. split; [unfold sendable; lia|]. by rewrite <- app_assoc.
Qed.

Lemma frames_spec fuel input : (length input < fuel)%nat ->
  exists payloads rest err, frames fuel input = map frame payloads /\ Forall sendable payloads /\ input = concat (map frame payloads) ++ rest /\ readFrame rest = inl err.
Proof.
  revert input. induction fuel as [|fuel IH]; intros input Hf; [lia|]. cbn [frames]. destruct (readFrame input) as [err|[f rest]] eqn:E.
  - exists [], input, err. by split_and!.
  - destruct (readFrame_inr _ _ _ E) as (p & -> & Hs & ->). destruct (IH rest) as (ps & rest' & err & Hfr & Hps & -> & Herr).
    { rewrite length_app in Hf. unfold frame in Hf. rewrite length_sshString in Hf. lia. }
    exists (p :: ps), rest', err. rewrite Hfr. split_and!; [done|by constructor| |done]. cbn [map concat]. by rewrite <- app_assoc.
Qed.

(** The frames of a stream are what was framed. *)
Lemma frames_concat payloads rest err fuel : Forall sendable payloads -> readFrame rest = inl err -> (length payloads < fuel)%nat ->
  frames fuel (concat (map frame payloads) ++ rest) = map frame payloads.
Proof.
  intros H Hr. revert fuel. induction H as [|p ps Hp _ IH]; intros fuel Hf; (destruct fuel as [|fuel]; [cbn in Hf; lia|]); cbn [frames map concat].
  - by rewrite app_nil_l, Hr.
  - rewrite <- app_assoc, readFrame_frame by done. f_equal. apply IH. cbn in Hf. lia.
Qed.

(** ** Claims *)

Definition forwarded (evs : list relay_event) : list (list byte) := omap (fun e => match e with ToServer f => Some f | _ => None end) evs.
Definition dials (evs : list relay_event) : nat := length (List.filter (fun e => match e with Dial => true | _ => false end) evs).

Lemma forwarded_prefix ws w fs : forwarded (answer_frames ws w fs) `prefix_of` List.filter (fun f => negb (is_extension f)) fs.
Proof.
  revert ws w. induction fs as [|f fs IH]; intros ws w; [by destruct ws|]. cbn [answer_frames List.filter]. destruct (is_extension f); cbn [negb].
  - destruct (client_ok w) as [[] w']; cbn; [apply IH|destruct ws; apply prefix_nil].
  - destruct ws, (w_dial w); cbn [negb andb app]; try (by apply prefix_nil); destruct (next_exchange w) as [e w']; cbn;
      (destruct (ex_write e); cbn; [|apply prefix_cons, prefix_nil]); (destruct (ex_read e) as [[response|]|]; cbn; [|apply prefix_cons, prefix_nil..]);
      (destruct (client_ok w') as [[] w'']; cbn; [apply prefix_cons, IH|apply prefix_cons, prefix_nil]).
Qed.

(** One dial, made for the first frame that goes to the server. *)
Lemma dials_once ws w fs : (dials (answer_frames ws w fs) <= if ws then 0 else 1)%nat.
Proof.
  revert ws w. induction fs as [|f fs IH]; intros ws w; [by destruct ws; cbn; lia|]. cbn [answer_frames]. unfold dials in *. destruct (is_extension f).
  - destruct (client_ok w) as [[] w']; cbn; [apply IH|destruct ws; cbn; lia].
  - destruct ws, (w_dial w); cbn [negb andb app]; try (cbn; lia); destruct (next_exchange w) as [e w']; cbn;
      (destruct (ex_write e); cbn; [|lia]); (destruct (ex_read e) as [[response|]|]; cbn; [|lia..]);
      (destruct (client_ok w') as [[] w'']; cbn; [|lia]); pose proof (IH true w'') as Hw; cbn beta iota in Hw; lia.
Qed.

(** The answers when nothing fails: the server's to each frame but an
    extension, which the relay refuses itself. *)
Fixpoint answered (ws : bool) (fs : list (list byte)) (responses : list (list byte)) : list relay_event :=
  match fs with
  | [] => if ws then [CloseWS] else []
  | f :: fs =>
      if is_extension f then ToClient agentFailureResponse :: answered ws fs responses
      else
        match responses with
        | [] => []
        | r :: responses => (if ws then [] else [Dial]) ++ ToServer f :: ToClient r :: answered true fs responses
        end
  end.

Definition willing (responses : list (list byte)) : world := mkConnWorld true (map (fun r => mkExchange true (Some (Binary r))) responses) [].

Lemma answer_willing ws fs responses : length (List.filter (fun f => negb (is_extension f)) fs) = length responses ->
  answer_frames ws (willing responses) fs = answered ws fs responses.
Proof.
  revert ws responses. induction fs as [|f fs IH]; intros ws responses Hl; [done|]. cbn [answer_frames answered List.filter] in *. destruct (is_extension f); cbn [negb] in Hl.
  - cbn. f_equal. by apply IH.
  - destruct responses as [|r responses]; [done|]. cbn in Hl |- *. rewrite andb_false_r. cbn. do 2 f_equal. f_equal. fold (willing responses). apply IH. lia.
Qed.

(** The relay is transparent: whatever the client sends is cut into frames in
    one way, each is forwarded whole, in order and at most once, as one
    message, except extensions, which are refused locally and never reach the
    server; nothing longer than the limit is forwarded; the server is dialed at
    most once, and only for a frame that needs it; and while nothing fails every
    frame is answered, in order, by its own response (C31). *)
Theorem relay_transparent payloads rest err : Forall sendable payloads -> readFrame rest = inl err ->
  let input := concat (map frame payloads) ++ rest in
  let messages := List.filter (fun f => negb (is_extension f)) (map frame payloads) in
  (forall w, forwarded (handleConnection w input) `prefix_of` messages /\ (dials (handleConnection w input) <= 1)%nat /\
     (messages = [] -> dials (handleConnection w input) = 0%nat)) /\
  (forall responses, length messages = length responses -> handleConnection (willing responses) input = answered false (map frame payloads) responses).
Proof.
  intros Hp Hr input messages.
  assert (Hfr : forall w, handleConnection w input = answer_frames false w (map frame payloads)).
  { intros w. unfold handleConnection. rewrite relay_frames. f_equal. eapply frames_concat; [done|exact Hr|].
    unfold input. rewrite length_app. assert (length payloads <= length (concat (map frame payloads)))%nat; [|lia].
    clear. induction payloads as [|q ps IH]; cbn [map concat length]; [lia|]. rewrite length_app. unfold frame at 1. rewrite length_sshString. lia. }
  split.
  - intros w. rewrite Hfr. split; [apply forwarded_prefix|]. split; [apply dials_once|]. unfold messages. clear. generalize (map frame payloads) as fs.
    intros fs. revert w. induction fs as [|f fs IH]; intros w Hm; [done|]. cbn [List.filter] in Hm. cbn [answer_frames]. destruct (is_extension f); [|done].
    destruct (client_ok w) as [[] w']; [|done]. by apply IH.
  - intros responses Hl. rewrite Hfr. by apply answer_willing.
Qed.

(** ** Dialing ends *)

(** The clock does not go back, time.Sleep sleeps at least as long as it is told,
    and an attempt has ended at most [d] after the sleep before it was to end. *)
Fixpoint paced (d now backoff : Z) (attempts : list (Z * option dial_error)) : Prop :=
  match attempts with
  | [] => True
  | (t, _) :: attempts => now <= t <= now + d /\ paced d (t + backoff) (nextBackoff backoff) attempts
  end.

Definition total (l : list Z) : Z := foldr Z.add 0 l.

(** The wait after [i] earlier ones. *)
Fixpoint backoff_at (i : nat) : Z := match i with O => dialInitialBackoff | S i => nextBackoff (backoff_at i) end.

Lemma total_backoffs_S i : total (map backoff_at (seq 0 (S i))) = total (map backoff_at (seq 0 i)) + backoff_at i.
Proof.
  rewrite seq_S, map_app. unfold total. cbn. rewrite foldr_app. cbn. generalize (map backoff_at (seq 0 i)). intros l.
  induction l as [|x l IHl]; cbn; lia.
Qed.

(** After six waits the next one would go past the deadline. *)
Lemma seventh_attempt_last start i t : start + total (map backoff_at (seq 0 i)) <= t -> (i < 7)%nat -> t + backoff_at i <= start + dialBudget -> (S i < 7)%nat.
Proof.
  intros Hs Hi Ht. destruct (decide (i = 6)%nat) as [->|]; [|lia]. exfalso.
  assert (total (map backoff_at (seq 0 6)) = milliseconds 31500) as E1 by (by vm_compute).
  assert (backoff_at 6 = seconds 30) as E2 by (by vm_compute). rewrite E1 in Hs. rewrite E2 in Ht. unfold dialBudget, milliseconds, seconds in *. lia.
Qed.

(** How a loop that has made [i] attempts comes out: [n] more waits, and what the
    attempt after them came to. *)
Definition dial_outcome (start : Z) (i n : nat) (attempts : list (Z * option dial_error)) (r : dial_result) : Prop :=
  match r with
  | Connected k => k = S (i + n) /\ exists t, attempts !! n = Some (t, None)
  | DialError e => isTransientDialErr (Some e) = false /\ exists t, attempts !! n = Some (t, Some e)
  | RetriesExhausted k e => k = S (i + n) /\ isTransientDialErr (Some e) = true /\
      exists t, attempts !! n = Some (t, Some e) /\ start + dialBudget < t + backoff_at (i + n)
  | StillDialing => length attempts = n
  end.

Lemma dial_from d start now i attempts :
  start + total (map backoff_at (seq 0 i)) <= now -> (i < 7)%nat -> paced d now (backoff_at i) attempts ->
  let '(r, sleeps) := dialWithRetry_from (start + dialBudget) (backoff_at i) i attempts in
  (i + length sleeps < 7)%nat /\ sleeps = map backoff_at (seq i (length sleeps)) /\ dial_outcome start i (length sleeps) attempts r /\
  (forall j t err, attempts !! j = Some (t, err) -> (j <= length sleeps)%nat -> t <= Z.max now (start + dialBudget) + d) /\
  (forall j t err, attempts !! j = Some (t, err) -> (j < length sleeps)%nat ->
     exists e, err = Some e /\ isTransientDialErr (Some e) = true /\ t + backoff_at (i + j) <= start + dialBudget).
Proof.
  revert now i. induction attempts as [|[t err] attempts IH]; intros now i Hs Hi Hp; [cbn; split_and!; try done; lia|].
  cbn [paced] in Hp. destruct Hp as [Ht Hp].
  assert (Hfirst : forall j t' err', ((t, err) :: attempts) !! j = Some (t', err') -> (j <= 0)%nat -> t' <= Z.max now (start + dialBudget) + d).
  { intros [|j] t' err' Hj Hj0; [|lia]. injection Hj as <- _. lia. }
  cbn [dialWithRetry_from]. destruct err as [e|]; [|cbn; rewrite Nat.add_0_r; split_and!; eauto; lia].
  destruct (isTransientDialErr (Some e)) eqn:Etr; cbn [negb]; [|cbn; rewrite Nat.add_0_r; split_and!; eauto; lia].
  destruct (t + backoff_at i >? start + dialBudget) eqn:Ed; rewrite Z.gtb_ltb in Ed.
  { apply Z.ltb_lt in Ed. cbn. rewrite Nat.add_0_r. split_and!; eauto; lia. }
  apply Z.ltb_ge in Ed. assert (S i < 7)%nat as Hi' by (eapply (seventh_attempt_last start i t); lia).
  change (nextBackoff (backoff_at i)) with (backoff_at (S i)) in *. specialize (IH (t + backoff_at i) (S i) ltac:(rewrite total_backoffs_S; lia) Hi' Hp).
  destruct (dialWithRetry_from _ _ _ attempts) as [r sleeps]. cbn [length]. destruct IH as (IH1 & IH2 & IH3 & IH4 & IH5). split_and!.
  - lia.
  - cbn. by f_equal.
  - unfold dial_outcome in *. rewrite Nat.add_succ_r. cbn [lookup list_lookup]. destruct r; naive_solver.
  - intros [|j] t' err' Hj Hle; [by eapply (Hfirst 0%nat)|]. specialize (IH4 j t' err' Hj ltac:(lia)). lia.
  - intros [|j] t' err' Hj Hlt; [injection Hj as <- <-; rewrite Nat.add_0_r; eauto|].
    rewrite Nat.add_succ_r. apply (IH5 j t' err' Hj). lia.
Qed.

(** Dialing comes to an end: there are at most seven attempts, with half a
    second to sixteen seconds of sleep between them, doubling; every attempt but the last
    failed in a way that is worth a retry, and the last one has connected, failed in a
    way that is not, or left no time for another wait. No wait is begun that would
    end after the budget, so that if an attempt lasts at most [d] the whole call lasts at most the
    budget and [d]; it may last longer than the budget (dial_overruns_budget) (C38). *)
Theorem dial_ends d start attempts : paced d start dialInitialBackoff attempts ->
  let '(r, sleeps) := dialWithRetry start attempts in
  let n := length sleeps in
  sleeps `prefix_of` map milliseconds [500; 1000; 2000; 4000; 8000; 16000] /\
  dial_outcome start 0 n attempts r /\
  (forall j t err, attempts !! j = Some (t, err) -> (j <= n)%nat -> t <= start + dialBudget + d) /\
  (forall j t err, attempts !! j = Some (t, err) -> (j < n)%nat ->
     exists e, err = Some e /\ isTransientDialErr (Some e) = true /\ t + backoff_at j <= start + dialBudget).
Proof.
  intros Hp. unfold dialWithRetry. pose proof (dial_from d start start 0 attempts ltac:(cbn; lia) ltac:(lia) Hp) as H. change (backoff_at 0) with dialInitialBackoff in H.
  destruct (dialWithRetry_from _ _ _ attempts) as [r sleeps]. cbv zeta. destruct H as (H1 & H2 & H3 & H4 & H5). split_and!; [|done| |done].
  - rewrite H2. assert (map milliseconds [500; 1000; 2000; 4000; 8000; 16000] = map backoff_at (seq 0 (length sleeps)) ++ map backoff_at (seq (length sleeps) (6 - length sleeps))) as ->;
      [|by apply prefix_app_r]. rewrite <- map_app, <- (seq_app (length sleeps) _ 0).
    replace (length sleeps + (6 - length sleeps))%nat with 6%nat by lia. by vm_compute.
  - intros j t err Hj Hle. specialize (H4 j t err Hj Hle). assert (0 <= dialBudget) by (by vm_compute). lia.
Qed.

(** *** A finding *)

Definition connection_refused : dial_error := mkDialError None false true false.

(** Six attempts of four seconds, and a seventh that runs into the handshake's
    time limit of ten. *)
Definition slow_attempts : list (Z * option dial_error) :=
  map (fun ms => (milliseconds ms, Some connection_refused)) [4000; 8500; 13500; 19500; 27500; 39500; 65500].

(** The budget decides only whether another wait begins: the call can be busy for
    longer, although its comment says that the total time is capped. *)
Theorem dial_overruns_budget :
  paced (seconds 10) 0 dialInitialBackoff slow_attempts /\
  fst (dialWithRetry 0 slow_attempts) = RetriesExhausted 7 connection_refused /\
  exists t err, last slow_attempts = Some (t, err) /\ 0 + dialBudget < t.
Proof.
  split; [|split; [by vm_compute|eexists _, _; split; [by vm_compute|by vm_compute]]].
  unfold slow_attempts, seconds, dialInitialBackoff, milliseconds. cbn. unfold nextBackoff, dialMaxBackoff, seconds. vm_compute. intuition congruence.
Qed.

(** ** Keepalive *)

Definition event_time (e : ws_event) : Z := match e with Pong t | DataRead t => t end.

(** A link that has gone silent fails its read a fixed time after its last sign of life. *)
Lemma silence_noticed start evs e : m_deadline (fold_left managed_event (evs ++ [e]) (newManagedWS start)) = event_time e + pongWait.
Proof. rewrite fold_left_app. by destruct e. Qed.

(** ** Witnesses *)

Example buildWSURL_sample : buildWSURL "https://app.shellwatch.ai/x/" = Some "wss://app.shellwatch.ai/x/agent-proxy"%string.
Proof. by vm_compute. Qed.

Example relay_url_sample : relay_url false "http://localhost:3000" = None /\ relay_url true "http://localhost:3000" = Some "ws://localhost:3000/agent-proxy"%string.
Proof. split; by vm_compute. Qed.

(** A binding extension, then a request for identities. *)
Definition sample_payloads : list (list byte) := [[x1b; x00]; [x0b]].

Lemma relay_transparent_witness :
  handleConnection (willing [frame [x0c]]) (concat (map frame sample_payloads))
  = [ToClient agentFailureResponse; Dial; ToServer (frame [x0b]); ToClient (frame [x0c]); CloseWS].
Proof.
  rewrite <- (app_nil_r (concat (map frame sample_payloads))).
  refine (proj2 (relay_transparent sample_payloads [] FrameEOF _ _) [frame [x0c]] _); [|by vm_compute|by vm_compute].
  unfold sample_payloads. rewrite !Forall_cons. split_and!; try (by vm_compute).
Defined.

(** A server that is down for three attempts. *)
Definition sample_attempts : list (Z * option dial_error) :=
  let down := Some (mkDialError None false true false) in [(0, down); (seconds 1, down); (seconds 3, down); (seconds 6, None)].

Lemma dial_ends_witness : fst (dialWithRetry 0 sample_attempts) = Connected 4 /\
  snd (dialWithRetry 0 sample_attempts) `prefix_of` map milliseconds [500; 1000; 2000; 4000; 8000; 16000].
Proof.
  split; [by vm_compute|]. pose proof (dial_ends (seconds 2) 0 sample_attempts) as H. destruct (dialWithRetry 0 sample_attempts) as [r sleeps]. apply H.
  unfold sample_attempts, seconds, dialInitialBackoff, milliseconds. cbn. unfold seconds. vm_compute. intuition congruence.
Defined.
