(* ===== verification/CredStore.v ===== *)
(** * Stored credentials (agent-client/internal/credstore/credstore.go)

    One token per server, in the system's keyring or in a file. The keyring is
    reached by calls that may fail, or time out and take effect later; what each
    call meets is an input. The file is what its JSON decodes to. *)
From Stdlib Require Import Ascii.
From S2P Require Import Prelude GoStrings Url.
#[local] Open Scope Z_scope.

(** ** Keys *)

Section Store.
Context (ToLower : string -> string).

Definition CanonicalizeServerURL (raw : string) : option string :=
  u ← Parse raw;
  if bool_decide (Scheme u = EmptyString) || bool_decide (Host u = EmptyString) then None
  else Some (url_string (mkURL (ToLower (Scheme u)) (Opaque u) (User u) (ToLower (Host u)) (TrimRight_char (Path u) "/"%char) (RawPath u) (OmitHost u)
                           (ForceQuery u) EmptyString EmptyString (RawFragment u))).

(** ** Backends *)

(** keyring.ErrNotFound, the time limit of a call, and other errors: whether
    they wrap a net.OpError, and their text. *)
Inductive keyring_error := KMissing | KTimeout | KError (network : bool) (msg : string).

Definition isMissing (e : keyring_error) : bool := match e with KMissing => true | _ => false end.

Definition isUnavailable (e : keyring_error) : bool :=
  match e with
  | KMissing => false
  | KTimeout => true
  | KError network msg =>
      network || HasPrefix msg "dbus: " || Contains_str msg "secret service is not available" || Contains_str msg "no such interface"
  end.

Inductive cred_file := NoFile | Garbage | Tokens (m : gmap string string).

Inductive cred_error := InvalidURL | ErrNotFound | Keyring (e : keyring_error) | ReadFailed | ParseFailed | WriteFailed.

Inductive late_op := LateSet (key token : string) | LateDelete (key : string).

(** [st_late] are the calls that timed out and still run. *)
Record store := mkStore { st_keyring : gmap string string; st_late : list late_op; st_file : cred_file }.

(** What a call on the keyring meets: it is carried out, it times out, or it
    fails; and whether the file can be read and written. *)
Inductive keyring_reply := Reached | TimesOut | Fails (network : bool) (msg : string).
Record io := mkIO { io_keyring : keyring_reply; io_read : bool; io_write : bool }.

Definition keyring_Get (i : io) (s : store) (key : string) : keyring_error + string :=
  match io_keyring i with
  | Reached => match st_keyring s !! key with Some t => inr t | None => inl KMissing end
  | TimesOut => inl KTimeout
  | Fails n m => inl (KError n m)
  end.

Definition keyring_Set (i : io) (s : store) (key token : string) : option keyring_error * store :=
  match io_keyring i with
  | Reached => (None, mkStore (<[key := token]> (st_keyring s)) (st_late s) (st_file s))
  | TimesOut => (Some KTimeout, mkStore (st_keyring s) (LateSet key token :: st_late s) (st_file s))
  | Fails n m => (Some (KError n m), s)
  end.

Definition keyring_Delete (i : io) (s : store) (key : string) : option keyring_error * store :=
  match io_keyring i with
  | Reached =>
      match st_keyring s !! key with
      | Some _ => (None, mkStore (delete key (st_keyring s)) (st_late s) (st_file s))
      | None => (Some KMissing, s)
      end
  | TimesOut => (Some KTimeout, mkStore (st_keyring s) (LateDelete key :: st_late s) (st_file s))
  | Fails n m => (Some (KError n m), s)
  end.

(** A call that timed out completes. *)
Definition complete (o : late_op) (m : gmap string string) : gmap string string :=
  match o with LateSet key token => <[key := token]> m | LateDelete key => delete key m end.

Definition late_step (n : nat) (s : store) : store :=
  match st_late s !! n with
  | Some o => mkStore (complete o (st_keyring s)) (take n (st_late s) ++ drop (S n) (st_late s)) (st_file s)
  | None => s
  end.

(** fileStore.read: a missing file is an empty one, with ErrNotFound. *)
Definition file_read (i : io) (f : cred_file) : gmap string string * option cred_error :=
  match f with
  | NoFile => (∅, Some ErrNotFound)
  | _ => if negb (io_read i) then (∅, Some ReadFailed) else match f with Tokens m => (m, None) | _ => (∅, Some ParseFailed) end
  end.

Definition file_Get (i : io) (f : cred_file) (key : string) : cred_error + string :=
  match file_read i f with
  | (_, Some err) => inl err
  | (m, None) => match m !! key with Some t => inr t | None => inl ErrNotFound end
  end.

Definition file_write (i : io) (f : cred_file) (m : gmap string string) : option cred_error * cred_file :=
  if io_write i then (None, Tokens m) else (Some WriteFailed, f).

Definition file_Set (i : io) (f : cred_file) (key token : string) : option cred_error * cred_file :=
  match file_read i f with
  | (m, None) | (m, Some ErrNotFound) => file_write i f (<[key := token]> m)
  | (_, Some err) => (Some err, f)
  end.

Definition file_Delete (i : io) (f : cred_file) (key : string) : option cred_error * cred_file :=
  match file_read i f with
  | (_, Some err) => (Some err, f)
  | (m, None) => match m !! key with None => (Some ErrNotFound, f) | Some _ => file_write i f (delete key m) end
  end.

(** ** dualStore *)

Definition Get (i : io) (s : store) (serverURL : string) : cred_error + string :=
  match CanonicalizeServerURL serverURL with
  | None => inl InvalidURL
  | Some key =>
      match keyring_Get i s key with
      | inr token => inr token
      | inl err => if negb (isMissing err) && negb (isUnavailable err) then inl (Keyring err) else file_Get i (st_file s) key
      end
  end.

Definition with_file (s : store) (f : cred_file) : store := mkStore (st_keyring s) (st_late s) f.

Definition Set_ (i : io) (s : store) (serverURL token : string) : option cred_error * store :=
  match CanonicalizeServerURL serverURL with
  | None => (Some InvalidURL, s)
  | Some key =>
      match keyring_Set i s key token with
      | (None, s) => (None, with_file s (snd (file_Delete i (st_file s) key)))
      | (Some err, s) =>
          if negb (isUnavailable err) then (Some (Keyring err), s)
          else let '(e, f) := file_Set i (st_file s) key token in (e, with_file s f)
      end
  end.

Definition Delete (i : io) (s : store) (serverURL : string) : option cred_error * store :=
  match CanonicalizeServerURL serverURL with
  | None => (Some InvalidURL, s)
  | Some key =>
      let '(keyringErr, s) := keyring_Delete i s key in
      let '(fileErr, f) := file_Delete i (st_file s) key in
      let s := with_file s f in
      let keyringNothing := match keyringErr with Some e => isMissing e || isUnavailable e | None => false end in
      (match keyringErr, fileErr with
       | Some e, _ =>
           if negb (isMissing e) && negb (isUnavailable e) then Some (Keyring e)
           else match fileErr with
                | Some ErrNotFound => if keyringNothing then Some ErrNotFound else None
                | Some err => Some err
                | None => None
                end
       | None, Some ErrNotFound | None, None => None
       | None, Some err => Some err
       end, s)
  end.

(** ** Runs *)

Inductive op := OpGet (serverURL : string) | OpSet (serverURL token : string) | OpDelete (serverURL : string) | OpLate (n : nat).

Inductive result := Token (t : string) | Error (e : cred_error) | Done.

Definition result_of (e : option cred_error) : result := match e with Some e => Error e | None => Done end.

Definition apply (x : op * io) (s : store) : result * store :=
  let '(o, i) := x in
  match o with
  | OpGet url => (match Get i s url with inr t => Token t | inl e => Error e end, s)
  | OpSet url token => let '(e, s) := Set_ i s url token in (result_of e, s)
  | OpDelete url => let '(e, s) := Delete i s url in (result_of e, s)
  | OpLate n => (Done, late_step n s)
  end.

Fixpoint run (xs : list (op * io)) (s : store) : list result * store :=
  match xs with
  | [] => ([], s)
  | x :: xs => let '(r, s) := apply x s in let '(rs, s) := run xs s in (r :: rs, s)
  end.

(** ** A map of tokens, one per server *)

Definition spec_apply (o : op) (m : gmap string string) : result * gmap string string :=
  match o with
  | OpGet url =>
      (match CanonicalizeServerURL url with
       | None => Error InvalidURL
       | Some key => match m !! key with Some t => Token t | None => Error ErrNotFound end
       end, m)
  | OpSet url token => match CanonicalizeServerURL url with None => (Error InvalidURL, m) | Some key => (Done, <[key := token]> m) end
  | OpDelete url =>
      match CanonicalizeServerURL url with
      | None => (Error InvalidURL, m)
      | Some key => (match m !! key with Some _ => Done | None => Error ErrNotFound end, delete key m)
      end
  | OpLate _ => (Done, m)
  end.

Fixpoint spec_run (os : list op) (m : gmap string string) : list result * gmap string string :=
  match os with
  | [] => ([], m)
  | o :: os => let '(r, m) := spec_apply o m in let '(rs, m) := spec_run os m in (r :: rs, m)
  end.

(** The keyring answers every call, or none. *)
Definition steady (up : bool) (i : io) : Prop :=
  io_read i = true /\ io_write i = true /\
  match io_keyring i with Reached => up = true | TimesOut => up = false | Fails n m => up = false /\ isUnavailable (KError n m) = true end.

Definition tokens_of (f : cred_file) : gmap string string := match f with Tokens m => m | _ => ∅ end.

(** What is stored, as seen while the keyring is up or down. *)
Definition view (up : bool) (s : store) : gmap string string :=
  if up then st_keyring s ∪ tokens_of (st_file s) else tokens_of (st_file s).

(** No garbled file; and while the keyring is up no call is still under way. *)
Definition sane (up : bool) (s : store) : Prop := st_file s <> Garbage /\ (up = true -> st_late s = []).

Lemma file_read_sane i f : io_read i = true -> f <> Garbage ->
  file_read i f = (tokens_of f, match f with NoFile => Some ErrNotFound | _ => None end).
Proof using. intros Hr Hf. destruct f; try done; cbn; by rewrite Hr. Qed.

Lemma file_Get_view i f key : io_read i = true -> f <> Garbage ->
  file_Get i f key = match tokens_of f !! key with Some t => inr t | None => inl ErrNotFound end.
Proof using. intros Hr Hf. unfold file_Get. rewrite file_read_sane by done. destruct f; done. Qed.

Lemma file_Set_view i f key token : io_read i = true -> io_write i = true -> f <> Garbage -> file_Set i f key token = (None, Tokens (<[key := token]> (tokens_of f))).
Proof using. intros Hr Hw Hf. unfold file_Set. rewrite file_read_sane by done. unfold file_write. rewrite Hw. by destruct f. Qed.

Lemma file_Delete_view i f key : io_read i = true -> io_write i = true -> f <> Garbage ->
  exists f', file_Delete i f key = (match tokens_of f !! key with Some _ => None | None => Some ErrNotFound end, f') /\ tokens_of f' = delete key (tokens_of f) /\ f' <> Garbage.
Proof using.
  intros Hr Hw Hf. unfold file_Delete. rewrite file_read_sane by done. destruct f as [| |m]; [|done|].
  - exists NoFile. cbn. split_and!; try done.
  - cbn [tokens_of]. unfold file_write. rewrite Hw. destruct (m !! key) eqn:E; [by exists (Tokens (delete key m))|]. exists (Tokens m). split_and!; try done.
    cbn. symmetry. by apply delete_id.
Qed.

Lemma steady_down i : steady false i -> exists e, isUnavailable e = true /\ isMissing e = false /\
  (forall s key, keyring_Get i s key = inl e) /\
  (forall s key token, fst (keyring_Set i s key token) = Some e /\ st_file (snd (keyring_Set i s key token)) = st_file s) /\
  (forall s key, fst (keyring_Delete i s key) = Some e /\ st_file (snd (keyring_Delete i s key)) = st_file s).
Proof using.
  intros (_ & _ & H). unfold keyring_Get, keyring_Set, keyring_Delete. destruct (io_keyring i) as [| |n m]; [done| |].
  - by exists KTimeout.
  - destruct H as [_ H]. by exists (KError n m).
Qed.

(** One call against the map. *)
Lemma apply_refines up o i s : steady up i -> sane up s -> (forall n, o = OpLate n -> up = false) ->
  fst (apply (o, i) s) = fst (spec_apply o (view up s)) /\ view up (snd (apply (o, i) s)) = snd (spec_apply o (view up s)) /\ sane up (snd (apply (o, i) s)).
Proof using.
  intros Hst [Hf Hl] Hlate. destruct Hst as (Hr & Hw & Hk) eqn:Hst'. clear Hst'. destruct o as [url|url token|url|n]; cbn [apply spec_apply].
  - unfold Get. destruct (CanonicalizeServerURL url) as [key|]; [|done]. split; [|done]. destruct up.
    + unfold keyring_Get. destruct (io_keyring i); try (by destruct Hk); [|done]. unfold view. rewrite lookup_union. rewrite file_Get_view by done.
      destruct (st_keyring s !! key); cbn; [by destruct (tokens_of _ !! key)|]. by destruct (tokens_of _ !! key).
    + destruct (steady_down i) as (e & He & Hm & -> & _); [by split_and!|]. rewrite He, Hm. cbn. rewrite file_Get_view by done. by destruct (tokens_of _ !! key).
  - unfold Set_. destruct (CanonicalizeServerURL url) as [key|]; [|done]. destruct up.
    + unfold keyring_Set. destruct (io_keyring i); try (by destruct Hk); [|done]. cbn [st_file fst snd result_of]. destruct (file_Delete_view i (st_file s) key Hr Hw Hf) as (f' & -> & Ht & Hg).
      split_and!; [done| |done]. unfold view. cbn [with_file st_keyring st_file fst snd]. rewrite Ht. rewrite <- insert_union_l. apply map_eq. intros k. destruct (decide (k = key)) as [->|Hne].
      * by rewrite !lookup_insert_eq.
      * rewrite !lookup_insert_ne by done. by rewrite !lookup_union, lookup_delete_ne.
    + destruct (steady_down i) as (e & He & Hm & _ & Hset & _); [by split_and!|]. specialize (Hset s key token). destruct (keyring_Set i s key token) as [err s']. cbn in Hset. destruct Hset as [-> Hsf].
      rewrite He. cbn [negb]. rewrite Hsf, file_Set_view by done. split_and!; done.
  - unfold Delete. destruct (CanonicalizeServerURL url) as [key|]; [|done]. destruct (file_Delete_view i (st_file s) key Hr Hw Hf) as (f' & Ed & Ht & Hg). destruct up.
    + unfold keyring_Delete. destruct (io_keyring i); try (by destruct Hk); [|done]. unfold view. rewrite !lookup_union, delete_union. destruct (st_keyring s !! key) eqn:Ek; cbn [st_file]; rewrite Ed; cbn [fst snd with_file st_keyring st_file result_of].
      * rewrite Ht. split_and!; try done. by destruct (tokens_of (st_file s) !! key).
      * rewrite Ht, (delete_id (st_keyring s)) by done. split_and!; try done. by destruct (tokens_of (st_file s) !! key).
    + destruct (steady_down i) as (e & He & Hm & _ & _ & Hdel); [by split_and!|]. specialize (Hdel s key). destruct (keyring_Delete i s key) as [err s']. cbn in Hdel. destruct Hdel as [-> Hsf].
      rewrite Hsf, Ed, He, Hm. cbn. split_and!; try done. by destruct (tokens_of (st_file s) !! key).
  - rewrite (Hlate n eq_refl) in *. cbn. unfold late_step. by destruct (st_late s !! n).
Qed.

(** While the keyring's availability does not change the two backends together
    are one map of tokens, one per server: a token is read back until it is
    replaced or deleted, under every spelling of the server's address, a
    deletion leaves nothing, and an absent token is reported as such (C33). *)
Theorem store_is_a_map up xs s : Forall (fun x => steady up (snd x) /\ forall n, fst x = OpLate n -> up = false) xs -> sane up s ->
  fst (run xs s) = fst (spec_run (map fst xs) (view up s)) /\ view up (snd (run xs s)) = snd (spec_run (map fst xs) (view up s)).
Proof using.
  intros H. revert s. induction H as [|[o i] xs [Hst Hl] _ IH]; intros s Hs; [done|]. cbn [run map fst spec_run].
  destruct (apply_refines up o i s Hst Hs Hl) as (H1 & H2 & H3). destruct (apply (o, i) s) as [r s']. destruct (spec_apply o (view up s)) as [r' m']. cbn [fst snd] in *. subst r m'.
  destruct (IH s' H3) as [H4 H5]. destruct (run xs s') as [rs s'']. destruct (spec_run (map fst xs) (view up s')) as [rs' m'']. cbn [fst snd] in *. by subst.
Qed.

End Store.

(** ** Witness, and a change of availability *)

Definition up_io : io := mkIO Reached true true.
Definition down_io : io := mkIO (Fails true "dial unix /run/user/1000/bus: connect: no such file or directory") true true.

Definition sample_calls : list (op * io) :=
  [(OpSet "https://X.example/" "a", up_io); (OpGet "HTTPS://x.example", up_io); (OpDelete "https://x.example//", up_io); (OpGet "https://x.example", up_io)].

Lemma store_is_a_map_witness : fst (run ToLower_ascii sample_calls (mkStore ∅ [] NoFile)) = [Done; Token "a"; Done; Error ErrNotFound].
Proof.
  rewrite (proj1 (store_is_a_map ToLower_ascii true sample_calls (mkStore ∅ [] NoFile)
    ltac:(unfold sample_calls; rewrite !Forall_cons; split_and!; try done; by split_and!) ltac:(by split_and!))).
  by vm_compute.
Defined.

(** A token written while the keyring is down is not the one that is read when
    it is up again: what the keyring still holds wins. *)
Theorem old_token_returns :
  fst (run ToLower_ascii [(OpSet "https://x.example" "old", up_io); (OpSet "https://x.example" "new", down_io); (OpGet "https://x.example", up_io)] (mkStore ∅ [] NoFile))
  = [Done; Done; Token "old"] /\
  fst (run ToLower_ascii [(OpSet "https://x.example" "old", up_io); (OpSet "https://x.example" "new", down_io); (OpDelete "https://x.example", down_io); (OpGet "https://x.example", up_io)]
         (mkStore ∅ [] NoFile))
  = [Done; Done; Done; Token "old"].
Proof. split; by vm_compute. Qed.
