(* ===== verification/AgentLogin.v ===== *)
(** * Signing in from the user's machine (agent-client/internal/oauth, internal/config)

    Login: discovery, registration, the browser's callback and the exchange of
    its code; then the daemon's token source, which renews access tokens and
    stores every rotated refresh token, and the configuration that starts it.
    The answers of the network, the browser and the random numbers are inputs;
    the coding of the stored credentials is a parameter. *)
From Stdlib Require Import Ascii.
From S2P Require Import Prelude GoStrings Url Base64 Hydra RateLimit Gate HttpServer SignAgent AgentClient CredStore.
#[local] Open Scope Z_scope.

(** ** Calls and their answers (token.go, login.go) *)

Record Endpoints := mkEndpoints { ep_Authorization : string; ep_Token : string; ep_Registration : string }.
Record tokenResponse := mkTokenResponse { tr_AccessToken : string; tr_RefreshToken : string; tr_ExpiresIn : Z }.

Inductive oauth_call :=
  | GetDiscovery (url : string)
  | PostRegister (url redirect_uri scope : string)
  | PostToken (url : string) (form : list (string * string)).

Inductive oauth_error :=
  | Transport | DiscoveryStatus (n : Z) | DiscoveryParse | DiscoveryMissing
  | TokenOAuth (error description : string) | TokenStatus (n : Z) | TokenParse | TokenMissing
  | RegisterStatus (n : Z) | RegisterParse | RegisterMissing
  | ServerInvalid | ServerScheme | NoListener | NoRandom | LoginTimedOut | Interrupted
  | StateMismatch | AuthorizeError (error description : string) | CodeMissing | NoRefreshToken | EmptyToken.

(** An answer: nothing, or a status and what the body decodes to. *)
Definition Discover (r : option (Z * option Endpoints)) : oauth_error + Endpoints :=
  match r with
  | None => inl Transport
  | Some (status, body) =>
      if negb (status =? 200) then inl (DiscoveryStatus status)
      else match body with
           | None => inl DiscoveryParse
           | Some eps =>
               if bool_decide (ep_Authorization eps = EmptyString) || bool_decide (ep_Token eps = EmptyString) || bool_decide (ep_Registration eps = EmptyString)
               then inl DiscoveryMissing else inr eps
           end
  end.

Record token_reply := mkTokenReply { tp_status : Z; tp_error : option (string * string); tp_token : option tokenResponse }.

Definition postToken (r : option token_reply) : oauth_error + tokenResponse :=
  match r with
  | None => inl Transport
  | Some r =>
      if negb (tp_status r =? 200) then
        match tp_error r with
        | Some (e, d) => if bool_decide (e = EmptyString) then inl (TokenStatus (tp_status r)) else inl (TokenOAuth e d)
        | None => inl (TokenStatus (tp_status r))
        end
      else match tp_token r with
           | None => inl TokenParse
           | Some t => if bool_decide (tr_AccessToken t = EmptyString) then inl TokenMissing else inr t
           end
  end.

Definition registerClient (r : option (Z * option string)) : oauth_error + string :=
  match r with
  | None => inl Transport
  | Some (status, body) =>
      if negb (status =? 201) && negb (status =? 200) then inl (RegisterStatus status)
      else match body with
           | None => inl RegisterParse
           | Some id => if bool_decide (id = EmptyString) then inl RegisterMissing else inr id
           end
  end.

Definition discovery_url (serverURL : string) : string := serverURL ++ "/.well-known/oauth-authorization-server".

(** ** The token source *)

Record RefreshTokenSource := mkSource { rs_serverURL : string; rs_clientID : string; rs_refreshToken : string; rs_cached : string; rs_expiry : Z }.

Definition NewRefreshTokenSource (serverURL clientID refreshToken : string) : RefreshTokenSource := mkSource serverURL clientID refreshToken EmptyString 0.

Definition tokenRefreshSkew : Z := seconds 60.

(** The time of the call, the two answers, and the time after them. *)
Record token_input := mkTokenInput { ti_now : Z; ti_discovery : option (Z * option Endpoints); ti_token : option token_reply; ti_later : Z }.

(** The token, the calls made, and the refresh token given to onRotate. *)
Definition Token (s : RefreshTokenSource) (i : token_input) : (oauth_error + string) * RefreshTokenSource * list oauth_call * option string :=
  if negb (bool_decide (rs_cached s = EmptyString)) && (rs_expiry s - ti_now i >? tokenRefreshSkew) then (inr (rs_cached s), s, [], None)
  else
    match Discover (ti_discovery i) with
    | inl e => (inl e, s, [GetDiscovery (discovery_url (rs_serverURL s))], None)
    | inr eps =>
        let calls := [GetDiscovery (discovery_url (rs_serverURL s));
                      PostToken (ep_Token eps) [("grant_type", "refresh_token"); ("refresh_token", rs_refreshToken s); ("client_id", rs_clientID s)]%string] in
        match postToken (ti_token i) with
        | inl e => (inl e, s, calls, None)
        | inr tok =>
            let rotated := negb (bool_decide (tr_RefreshToken tok = EmptyString)) && negb (bool_decide (tr_RefreshToken tok = rs_refreshToken s)) in
            let refresh := if rotated then tr_RefreshToken tok else rs_refreshToken s in
            let expiresIn := if tr_ExpiresIn tok <=? 0 then 300 else tr_ExpiresIn tok in
            (inr (tr_AccessToken tok),
             mkSource (rs_serverURL s) (rs_clientID s) refresh (tr_AccessToken tok) (ti_later i + wrap64 (expiresIn * 1000000000)),
             calls, if rotated then Some refresh else None)
        end
    end.

(** ** Login *)

Section Login.
Context (ToLower : string -> string) (sha256 : list byte -> list byte).

Definition canonicalServer (raw : string) (allowInsecure : bool) : oauth_error + string :=
  match Parse raw with
  | None => inl ServerInvalid
  | Some u =>
      if bool_decide (Scheme u = EmptyString) || bool_decide (Url.Host u = EmptyString) then inl ServerInvalid
      else
        let scheme := ToLower (Scheme u) in
        if negb (bool_decide (scheme = "https"%string)) && negb allowInsecure then inl ServerScheme
        else if negb (bool_decide (scheme = "https"%string)) && negb (bool_decide (scheme = "http"%string)) then inl ServerScheme
        else inr (url_string (mkURL scheme (Opaque u) (User u) (ToLower (Url.Host u)) (TrimRight_char (Url.Path u) "/"%char) (RawPath u) (OmitHost u)
                                (ForceQuery u) EmptyString EmptyString (RawFragment u)))
  end.

(** The challenge of newPkce. *)
Definition pkce_challenge (verifier : string) : string := String.string_of_list_byte (b64_encode true false (sha256 (bytes_of_string verifier))).

Definition authorize_params (clientID redirect scope state challenge : string) : list (string * string) :=
  [("response_type", "code"); ("client_id", clientID); ("redirect_uri", redirect); ("scope", scope); ("state", state); ("code_challenge", challenge);
   ("code_challenge_method", "S256")]%string.

Definition buildAuthorizeURL (authEndpoint clientID redirect scope state challenge : string) : string :=
  authEndpoint ++ "?" ++ Encode (fold_left (fun v p => values_set v (fst p) (snd p)) (authorize_params clientID redirect scope state challenge) []).

(** callbackHandler's answer to a request: what it sends to the waiting login,
    nothing for another path. *)
Definition callbackHandler (state : string) (r : string * string) : option (oauth_error + string) :=
  let '(path, rawQuery) := r in
  if negb (bool_decide (path = "/callback"%string)) then None
  else
    let q := parse_query rawQuery in
    Some (if negb (bool_decide (values_get q "state" = state)) then inl StateMismatch
          else if negb (bool_decide (values_get q "error" = EmptyString)) then inl (AuthorizeError (values_get q "error") (values_get q "error_description"))
          else if bool_decide (values_get q "code" = EmptyString) then inl CodeMissing
          else inr (values_get q "code")).

(** The first result sent wins; else the wait ends with [stop]. *)
Fixpoint wait_callback (state : string) (reqs : list (string * string)) (stop : oauth_error) : oauth_error + string :=
  match reqs with
  | [] => inl stop
  | r :: reqs => match callbackHandler state r with Some res => res | None => wait_callback state reqs stop end
  end.

(** The requests the loopback server gets before the wait ends, and whether the
    timer or the context ends it. *)
Record login_input := mkLoginInput {
  li_discovery : option (Z * option Endpoints); li_port : option Z; li_register : option (Z * option string); li_verifier : option string;
  li_state : option string; li_requests : list (string * string); li_interrupted : bool; li_token : option token_reply }.

Record login_result := mkLoginResult { lr_ServerURL : string; lr_ClientID : string; lr_RefreshToken : string }.

Definition redirect_of (port : Z) : string := "http://127.0.0.1:" ++ itoa port ++ "/callback".

(** The outcome, the calls made, and the address opened in the browser. *)
Definition Login (serverURL scope : string) (insecure : bool) (i : login_input) : (oauth_error + login_result) * list oauth_call * option string :=
  let scope := if bool_decide (scope = EmptyString) then "agent"%string else scope in
  if bool_decide (serverURL = EmptyString) then (inl ServerInvalid, [], None)
  else
  match canonicalServer serverURL insecure with
  | inl e => (inl e, [], None)
  | inr server =>
      let calls := [GetDiscovery (discovery_url server)] in
      match Discover (li_discovery i) with
      | inl e => (inl e, calls, None)
      | inr eps =>
          match li_port i with
          | None => (inl NoListener, calls, None)
          | Some port =>
              let redirectURI := redirect_of port in
              let requestScope := (TrimSpace scope ++ " offline_access")%string in
              let calls := calls ++ [PostRegister (ep_Registration eps) redirectURI requestScope] in
              match registerClient (li_register i) with
              | inl e => (inl e, calls, None)
              | inr clientID =>
                  match li_verifier i, li_state i with
                  | Some verifier, Some state =>
                      let opened := Some (buildAuthorizeURL (ep_Authorization eps) clientID redirectURI requestScope state (pkce_challenge verifier)) in
                      match wait_callback state (li_requests i) (if li_interrupted i then Interrupted else LoginTimedOut) with
                      | inl e => (inl e, calls, opened)
                      | inr code =>
                          let calls := calls ++ [PostToken (ep_Token eps) [("grant_type", "authorization_code"); ("code", code); ("redirect_uri", redirectURI);
                                                                          ("code_verifier", verifier); ("client_id", clientID)]%string] in
                          match postToken (li_token i) with
                          | inl e => (inl e, calls, opened)
                          | inr tok =>
                              if bool_decide (tr_RefreshToken tok = EmptyString) then (inl NoRefreshToken, calls, opened)
                              else (inr (mkLoginResult server clientID (tr_RefreshToken tok)), calls, opened)
                          end
                      end
                  | _, _ => (inl NoRandom, calls, None)
                  end
              end
          end
      end
  end.
End Login.

(** ** The daemon's configuration (config.go) *)

Record StoredCreds := mkStoredCreds { sc_ClientID : string; sc_RefreshToken : string }.

Inductive tokener := StaticToken (t : string) | Refreshing (s : RefreshTokenSource).

Definition StaticToken_Token (t : string) : oauth_error + string := if bool_decide (t = EmptyString) then inl EmptyToken else inr t.

Record agent_config := mkAgentConfig { ac_Server : string; ac_SocketPath : string; ac_Insecure : bool; ac_Token : option tokener }.

(** A flag is [None] when it was not given. *)
Record flagValues := mkFlags { fv_server : option string; fv_token : option string; fv_socket : option string; fv_insecure : bool }.
Record envValues := mkEnv { ev_server : string; ev_token : string; ev_socket : string }.

Definition DefaultServer : string := "https://app.shellwatch.ai".

Section Daemon.
Context (ToLower : string -> string).
Context (encode : StoredCreds -> string) (decode : string -> option StoredCreds).

Definition DecodeCreds (s : string) : option StoredCreds :=
  c ← decode s; if bool_decide (sc_ClientID c = EmptyString) || bool_decide (sc_RefreshToken c = EmptyString) then None else Some c.

(** [opened] is the credential store, if it could be opened. *)
Definition resolve (fv : flagValues) (ev : envValues) (defaultSocketPath : string) (opened : option store) (i : io) : agent_config :=
  let nonempty s d := if bool_decide (s = EmptyString) then d else s in
  let server := nonempty (default (ev_server ev) (fv_server fv)) DefaultServer in
  let socket := nonempty (default (ev_socket ev) (fv_socket fv)) defaultSocketPath in
  let static := default (ev_token ev) (fv_token fv) in
  mkAgentConfig server socket (fv_insecure fv)
    (if negb (bool_decide (static = EmptyString)) then Some (StaticToken static)
     else match opened with
          | None => None
          | Some s =>
              match Get ToLower i s server with
              | inl _ => None
              | inr val =>
                  match DecodeCreds val with
                  | Some creds => Some (Refreshing (NewRefreshTokenSource server (sc_ClientID creds) (sc_RefreshToken creds)))
                  | None => Some (StaticToken val)
                  end
              end
          end).

Definition Validate (c : agent_config) : bool := match ac_Token c with Some _ => true | None => false end.

(** A call of the token source and its onRotate, which stores the new refresh
    token; a failure to store it is only reported. *)
Definition daemon_step (d : RefreshTokenSource * store) (x : token_input * io) : (oauth_error + string) * (RefreshTokenSource * store) :=
  let '(s, st) := d in
  let '(r, s', _, rotated) := Token s (fst x) in
  (r, (s', match rotated with
           | Some refreshToken => snd (Set_ ToLower (snd x) st (rs_serverURL s) (encode (mkStoredCreds (rs_clientID s) refreshToken)))
           | None => st
           end)).

Definition daemon_run (d : RefreshTokenSource * store) (xs : list (token_input * io)) : RefreshTokenSource * store :=
  fold_left (fun d x => snd (daemon_step d x)) xs d.

(** runLogin after Login, and runLogout. *)
Definition save_login (i : io) (st : store) (r : login_result) : option cred_error * store :=
  Set_ ToLower i st (lr_ServerURL r) (encode (mkStoredCreds (lr_ClientID r) (lr_RefreshToken r))).

Definition resolveServer (flag env : string) : string := if negb (bool_decide (flag = EmptyString)) then flag else if negb (bool_decide (env = EmptyString)) then env else DefaultServer.

Definition runLogout (i : io) (st : store) (flag env : string) : option cred_error * store :=
  match Delete ToLower i st (resolveServer flag env) with
  | (Some ErrNotFound, st) => (None, st)
  | r => r
  end.

End Daemon.

(** ** Lemmas: what the browser is sent *)

(** The pairs of an encoded query, read back. *)
Lemma parse_query_pairs (l : list (string * string)) v : l <> [] ->
  foldl query_pair v (Split (Join (map (fun p => QueryEscape (fst p) ++ "=" ++ QueryEscape (snd p))%string l) "&") "&"%char)
  = fold_left (fun v p => values_add v (fst p) (snd p)) l v.
Proof.
  assert (Hpair : forall v (p : string * string), query_pair v (QueryEscape (fst p) ++ "=" ++ QueryEscape (snd p))%string = values_add v (fst p) (snd p)).
  { intros v0 [k x]. cbn [fst snd]. unfold query_pair. change ("=" ++ QueryEscape x)%string with (String "=" (QueryEscape x)).
    rewrite has_byte_app, (escape_clean k ";" eq_refl). cbn [orb]. change (String "=" (QueryEscape x)) with ("=" ++ QueryEscape x)%string.
    rewrite has_byte_app, (escape_clean x ";" eq_refl). change (has_byte "=" ";") with false. cbn [orb].
    rewrite bool_decide_eq_false_2 by (destruct (QueryEscape k); done). change ("=" ++ QueryEscape x)%string with (String "=" (QueryEscape x)).
    rewrite Cut_app by (by apply escape_clean). by rewrite !unescape_escape. }
  assert (Hclean : forall p : string * string, has_byte (QueryEscape (fst p) ++ "=" ++ QueryEscape (snd p))%string "&" = false).
  { intros [k x]. cbn [fst snd]. by rewrite !has_byte_app, !escape_clean. }
  revert v. induction l as [|p [|p' l] IH]; intros v Hl; [done| |].
  - cbn [map Join fold_left]. rewrite Split_clean by apply Hclean. cbn [foldl]. by rewrite Hpair.
  - set (rest := p' :: l) in *. cbn [map]. set (w := map _ rest). assert (forall a, Join (a :: w) "&" = (a ++ String "&" (Join w "&"))%string) as -> by reflexivity.
    rewrite Split_app by apply Hclean. cbn [foldl fold_left]. rewrite Hpair. by apply IH.
Qed.

(** The authorization request carries each parameter as it was given. *)
Lemma authorize_query clientID redirect scope state challenge k x : (k, x) ∈ authorize_params clientID redirect scope state challenge ->
  values_get (parse_query (Encode (fold_left (fun v p => values_set v (fst p) (snd p)) (authorize_params clientID redirect scope state challenge) []))) k = x.
Proof.
  intros Hin. set (sorted := [("client_id", clientID); ("code_challenge", challenge); ("code_challenge_method", "S256"); ("redirect_uri", redirect);
                              ("response_type", "code"); ("scope", scope); ("state", state)]%string).
  set (v := fold_left _ _ _). assert (v = map (fun p => (fst p, [snd p])) (authorize_params clientID redirect scope state challenge)) as -> by reflexivity.
  unfold Encode. set (vals := map (fun p => (fst p, [snd p])) _). assert (sort_keys (map fst vals) = map fst sorted) as -> by reflexivity.
  assert (map (fun k => (k, values_of vals k)) (map fst sorted) = map (fun p => (fst p, [snd p])) sorted) as Hv by reflexivity.
  assert (mjoin (map (fun k => map (fun x => (QueryEscape k ++ "=" ++ QueryEscape x)%string) (values_of vals k)) (map fst sorted))
    = map (fun p => (QueryEscape (fst p) ++ "=" ++ QueryEscape (snd p))%string) sorted) as Hm.
  { transitivity (mjoin (map (fun kv => map (fun x => (QueryEscape (fst kv) ++ "=" ++ QueryEscape x)%string) (snd kv)) (map (fun k => (k, values_of vals k)) (map fst sorted)))).
    - by rewrite (map_map (fun k => (k, values_of vals k))).
    - rewrite Hv, map_map. generalize sorted. clear. intros l. induction l as [|p l IH]; [done|]. cbn [map fst snd]. rewrite <- IH. reflexivity. }
  unfold QueryEscape in Hm at 1 2. rewrite Hm. clear Hm Hv.
  unfold parse_query. rewrite parse_query_pairs by done. unfold authorize_params in Hin. repeat (apply elem_of_cons in Hin as [[= -> ->]|Hin]; [reflexivity|]). by apply not_elem_of_nil in Hin.
Qed.

Lemma buildAuthorizeURL_query auth clientID redirect scope state challenge : exists query,
  buildAuthorizeURL auth clientID redirect scope state challenge = (auth ++ "?" ++ query)%string /\ values_get (parse_query query) "state" = state /\
  values_get (parse_query query) "code_challenge" = challenge /\ values_get (parse_query query) "code_challenge_method" = "S256"%string /\
  values_get (parse_query query) "client_id" = clientID /\ values_get (parse_query query) "redirect_uri" = redirect.
Proof.
  eexists. split; [reflexivity|]. split_and!; apply (authorize_query clientID redirect scope state challenge); unfold authorize_params;
    repeat first [apply list_elem_of_here | apply list_elem_of_further].
Qed.

(** ** Login is bound to the browser it opened *)

Lemma wait_callback_inr state reqs stop code : wait_callback state reqs stop = inr code ->
  exists before q after, reqs = before ++ ("/callback"%string, q) :: after /\ Forall (fun r => fst r <> "/callback"%string) before /\
    values_get (parse_query q) "state" = state /\ values_get (parse_query q) "error" = EmptyString /\ values_get (parse_query q) "code" = code /\ code <> EmptyString.
Proof.
  induction reqs as [|[path q] reqs IH]; [done|]. cbn [wait_callback callbackHandler]. destruct (bool_decide (path = "/callback"%string)) eqn:Ep; cbn [negb].
  - apply bool_decide_eq_true in Ep as ->. intros H. exists [], q, reqs. split; [done|]. split; [done|].
    destruct (bool_decide (values_get (parse_query q) "state" = state)) eqn:E1; [|done]. destruct (bool_decide (values_get (parse_query q) "error" = EmptyString)) eqn:E2; [|done].
    destruct (bool_decide (values_get (parse_query q) "code" = EmptyString)) eqn:E3; [done|]. cbn in H. injection H as <-. apply bool_decide_eq_true in E1, E2. by apply bool_decide_eq_false in E3.
  - intros H. destruct (IH H) as (before & q' & after & -> & Hb & Hr). exists ((path, q) :: before), q', after. split; [done|]. split; [|done]. constructor; [|done].
    by apply bool_decide_eq_false in Ep.
Qed.

Section LoginClaims.
Context (ToLower : string -> string) (sha256 : list byte -> list byte).

(** A code is exchanged only after the first callback of the browser, if it
    carries the state of the address that was opened and no error; it is
    exchanged with the verifier whose challenge that address carries, for the
    client and the redirect it names; nothing is called unless the address of
    the server is https, or http and that was asked for (the endpoints that its
    discovery document names can have any scheme); and a login that succeeds has
    a refresh token (C32). *)
Theorem login_bound serverURL scope insecure i res calls opened : Login ToLower sha256 serverURL scope insecure i = (res, calls, opened) ->
  (forall url form, PostToken url form ∈ calls ->
     exists auth query q before after clientID port verifier state code,
       opened = Some (auth ++ "?" ++ query)%string /\ li_requests i = before ++ ("/callback"%string, q) :: after /\ Forall (fun r => fst r <> "/callback"%string) before /\
       values_get (parse_query q) "state" = values_get (parse_query query) "state" /\ values_get (parse_query query) "state" = state /\ li_state i = Some state /\
       values_get (parse_query q) "error" = EmptyString /\ values_get (parse_query q) "code" = code /\ code <> EmptyString /\
       values_get (parse_query query) "code_challenge" = pkce_challenge sha256 verifier /\ values_get (parse_query query) "code_challenge_method" = "S256"%string /\
       values_get (parse_query query) "client_id" = clientID /\ values_get (parse_query query) "redirect_uri" = redirect_of port /\
       form = [("grant_type", "authorization_code"); ("code", code); ("redirect_uri", redirect_of port); ("code_verifier", verifier); ("client_id", clientID)]%string) /\
  (calls <> [] -> exists u, Parse serverURL = Some u /\ (ToLower (Scheme u) = "https"%string \/ insecure = true /\ ToLower (Scheme u) = "http"%string)) /\
  (forall r, res = inr r -> lr_RefreshToken r <> EmptyString /\ lr_ClientID r <> EmptyString /\ exists url form, PostToken url form ∈ calls).
Proof using.
  unfold Login. set (sc := if bool_decide (scope = EmptyString) then _ else _). destruct (bool_decide (serverURL = EmptyString)).
  { intros [= <- <- <-]. split_and!; [by intros ? ? ?%not_elem_of_nil|done|done]. }
  destruct (canonicalServer ToLower serverURL insecure) as [e|server] eqn:Ec.
  { intros [= <- <- <-]. split_and!; [by intros ? ? ?%not_elem_of_nil|done|done]. }
  assert (Hserver : exists u, Parse serverURL = Some u /\ (ToLower (Scheme u) = "https"%string \/ insecure = true /\ ToLower (Scheme u) = "http"%string)).
  { unfold canonicalServer in Ec. destruct (Parse serverURL) as [u|]; [|done]. destruct (_ || _); [done|]. exists u. split; [done|].
    destruct (bool_decide (ToLower (Scheme u) = "https"%string)) eqn:E1; [left; by apply bool_decide_eq_true in E1|]. right. destruct insecure; [|done]. cbn in Ec.
    destruct (bool_decide (ToLower (Scheme u) = "http"%string)) eqn:E2; [|done]. split; [done|]. by apply bool_decide_eq_true in E2. }
  assert (Hnone : forall url form g, PostToken url form ∈ [g] -> (exists u, g = GetDiscovery u) \/ (exists u r s, g = PostRegister u r s) -> False).
  { intros url form g [<-|H%not_elem_of_nil]%elem_of_cons; [|done]. by intros [[? ?]|(? & ? & ? & ?)]. }
  destruct (Discover (li_discovery i)) as [e|eps]; [intros [= <- <- <-]; split_and!; [intros ? ? Hin; exfalso; eapply Hnone; [exact Hin|left; by eexists]|done|done]|].
  destruct (li_port i) as [port|]; [|intros [= <- <- <-]; split_and!; [intros ? ? Hin; exfalso; eapply Hnone; [exact Hin|left; by eexists]|done|done]].
  assert (Hnone2 : forall url form u u' r s, PostToken url form ∈ [GetDiscovery u; PostRegister u' r s] -> False).
  { intros url form u u' r s [|Hin]%elem_of_cons; [done|]. eapply Hnone; [exact Hin|right; by do 3 eexists]. }
  destruct (registerClient (li_register i)) as [e|clientID] eqn:Er; [intros [= <- <- <-]; split_and!; [intros ? ? Hin; exfalso; by eapply Hnone2|done|done]|].
  destruct (li_verifier i) as [verifier|]; [|intros [= <- <- <-]; split_and!; [intros ? ? Hin; exfalso; by eapply Hnone2|done|done]].
  destruct (li_state i) as [state|]; [|intros [= <- <- <-]; split_and!; [intros ? ? Hin; exfalso; by eapply Hnone2|done|done]].
  destruct (wait_callback state (li_requests i) _) as [e|code] eqn:Ew; [intros [= <- <- <-]; split_and!; [intros ? ? Hin; exfalso; by eapply Hnone2|done|done]|].
  assert (Hid : clientID <> EmptyString).
  { unfold registerClient in Er. destruct (li_register i) as [[st body]|]; [|done]. destruct (_ && _); [done|]. destruct body as [id|]; [|done]. by case_bool_decide; simplify_eq. }
  destruct (wait_callback_inr _ _ _ _ Ew) as (before & q & after & Hreqs & Hb & Hs & He & Hcode & Hne).
  set (form0 := [("grant_type", "authorization_code"); ("code", code); ("redirect_uri", redirect_of port); ("code_verifier", verifier); ("client_id", clientID)]%string).
  intros H. assert (opened = Some (buildAuthorizeURL (ep_Authorization eps) clientID (redirect_of port) (TrimSpace sc ++ " offline_access")%string state (pkce_challenge sha256 verifier))
    /\ calls = [GetDiscovery (discovery_url server); PostRegister (ep_Registration eps) (redirect_of port) (TrimSpace sc ++ " offline_access")%string; PostToken (ep_Token eps) form0]
    /\ (forall r, res = inr r -> lr_RefreshToken r <> EmptyString /\ lr_ClientID r = clientID)) as (Ho & Hc & Hres).
  { destruct (postToken (li_token i)) as [e|tok]; [by injection H as <- <- <-|]. destruct (bool_decide (tr_RefreshToken tok = EmptyString)) eqn:Et; injection H as <- <- <-; [done|].
    split_and!; [done|done|]. apply bool_decide_eq_false in Et. by intros r [= <-]. }
  subst opened calls. split_and!; [|done|].
  - intros url form [|[|[[= -> ->]|Hin%not_elem_of_nil]%elem_of_cons]%elem_of_cons]%elem_of_cons; [done|done| |done].
    destruct (buildAuthorizeURL_query (ep_Authorization eps) clientID (redirect_of port) (TrimSpace sc ++ " offline_access")%string state (pkce_challenge sha256 verifier))
      as (query & -> & Q1 & Q2 & Q3 & Q4 & Q5).
    eexists _, query, q, before, after, clientID, port, verifier, state, code. split; [reflexivity|]. rewrite Q1, Q2, Q3, Q4, Q5. by split_and!.
  - intros r ->. destruct (Hres r eq_refl) as [H1 ->]. split_and!; [done|done|]. exists (ep_Token eps), form0. apply list_elem_of_further, list_elem_of_further, list_elem_of_here.
Qed.

End LoginClaims.

(** ** The token source *)

(** A cached token is given out only with more than the skew left; else the
    newest refresh token is spent, and on success replaced; a failure changes
    nothing, so the next call tries again. *)
Lemma Token_cases s i r s' calls rotated : Token s i = (r, s', calls, rotated) ->
  (calls = [] /\ r = inr (rs_cached s) /\ rs_cached s <> EmptyString /\ ti_now i + tokenRefreshSkew < rs_expiry s /\ s' = s /\ rotated = None) \/
  (exists e, r = inl e /\ s' = s /\ rotated = None) \/
  (exists eps tok, r = inr (tr_AccessToken tok) /\ tr_AccessToken tok <> EmptyString /\ rs_cached s' = tr_AccessToken tok /\
     calls = [GetDiscovery (discovery_url (rs_serverURL s));
              PostToken (ep_Token eps) [("grant_type", "refresh_token"); ("refresh_token", rs_refreshToken s); ("client_id", rs_clientID s)]%string] /\
     rs_clientID s' = rs_clientID s /\ rs_serverURL s' = rs_serverURL s /\ postToken (ti_token i) = inr tok /\
     ((rotated = None /\ rs_refreshToken s' = rs_refreshToken s /\ (tr_RefreshToken tok = EmptyString \/ tr_RefreshToken tok = rs_refreshToken s)) \/
      (rotated = Some (tr_RefreshToken tok) /\ rs_refreshToken s' = tr_RefreshToken tok /\ tr_RefreshToken tok <> EmptyString))).
Proof.
  unfold Token. destruct (negb _ && _) eqn:Ec.
  { intros [= <- <- <- <-]. left. apply andb_true_iff in Ec as [H1 H2]. apply negb_true_iff, bool_decide_eq_false in H1. rewrite Z.gtb_ltb in H2. apply Z.ltb_lt in H2. split_and!; try done. lia. }
  destruct (Discover (ti_discovery i)) as [e|eps]; [intros [= <- <- <- <-]; right; left; by exists e|]. destruct (postToken (ti_token i)) as [e|tok] eqn:Ep; [intros [= <- <- <- <-]; right; left; by exists e|].
  intros [= <- <- <- <-]. right; right. exists eps, tok. assert (tr_AccessToken tok <> EmptyString) as Hne.
  { unfold postToken in Ep. destruct (ti_token i) as [p|]; [|done]. destruct (negb (tp_status p =? 200)). { destruct (tp_error p) as [[e d]|]; [|done]. by destruct (bool_decide (e = EmptyString)). }
    destruct (tp_token p) as [t|]; [|done]. by case_bool_decide; simplify_eq. }
  split_and!; try done. cbn [rs_refreshToken]. destruct (bool_decide (tr_RefreshToken tok = EmptyString)) eqn:E1; cbn [negb andb]; [left; split_and!; [done|done|left]; by apply bool_decide_eq_true in E1|].
  destruct (bool_decide (tr_RefreshToken tok = rs_refreshToken s)) eqn:E2; cbn [negb]; [left; split_and!; [done|done|right]; by apply bool_decide_eq_true in E2|].
  right. split_and!; [done|done|]. by apply bool_decide_eq_false in E1.
Qed.

Section DaemonClaims.
Context (ToLower : string -> string) (encode : StoredCreds -> string) (decode : string -> option StoredCreds).

Definition ascii_only (s : string) : bool := forall_str (fun a => bool_decide (N_of_ascii a < 128)%N) s.
Definition plain_creds (c : StoredCreds) : Prop := ascii_only (sc_ClientID c) = true /\ ascii_only (sc_RefreshToken c) = true.

(** Credentials of ASCII text survive their JSON coding. *)
Context (decode_encode : forall c, plain_creds c -> decode (encode c) = Some c).

(** What a restart would find. *)
Definition stored (up : bool) (st : store) (server : string) (clientID refreshToken : string) : Prop :=
  exists key blob, CanonicalizeServerURL ToLower server = Some key /\ view up st !! key = Some blob /\ DecodeCreds decode blob = Some (mkStoredCreds clientID refreshToken).

Lemma Get_view up i st url : steady up i -> sane up st ->
  Get ToLower i st url = match CanonicalizeServerURL ToLower url with
                         | None => inl InvalidURL
                         | Some key => match view up st !! key with Some t => inr t | None => inl ErrNotFound end
                         end.
Proof using.
  intros Hs Hst. destruct (apply_refines ToLower up (OpGet url) i st Hs Hst ltac:(done)) as [H _]. cbn in H. destruct (Get ToLower i st url) as [e|t].
  - destruct (CanonicalizeServerURL ToLower url) as [key|]; [|by injection H as ->]. destruct (view up st !! key); [done|by injection H as ->].
  - destruct (CanonicalizeServerURL ToLower url) as [key|]; [|done]. destruct (view up st !! key); [by injection H as ->|done].
Qed.

(** The credentials of a running daemon: complete and plain. *)
Definition good_source (s : RefreshTokenSource) : Prop :=
  rs_clientID s <> EmptyString /\ rs_refreshToken s <> EmptyString /\ plain_creds (mkStoredCreds (rs_clientID s) (rs_refreshToken s)).

Definition plain_reply (i : token_input) : Prop := forall tok, postToken (ti_token i) = inr tok -> ascii_only (tr_RefreshToken tok) = true.

Lemma daemon_step_stored up s st x s' st' : steady up (snd x) -> plain_reply (fst x) -> good_source s -> sane up st -> stored up st (rs_serverURL s) (rs_clientID s) (rs_refreshToken s) ->
  snd (daemon_step ToLower encode (s, st) x) = (s', st') ->
  good_source s' /\ sane up st' /\ rs_serverURL s' = rs_serverURL s /\ rs_clientID s' = rs_clientID s /\ stored up st' (rs_serverURL s') (rs_clientID s') (rs_refreshToken s').
Proof using decode_encode.
  intros Hst Hplain (Hc & Hr & Hp1 & Hp2) Hsane Hsto H. unfold daemon_step in H. destruct (Token s (fst x)) as [[[r s1] calls] rotated] eqn:Et. cbn [snd] in H. injection H as <- <-.
  destruct (Token_cases _ _ _ _ _ _ Et) as [(_ & _ & _ & _ & -> & ->)|[(e & _ & -> & ->)|(eps & tok & _ & _ & _ & _ & Hid & Hurl & Hpt & Hrot)]]; [by split_and!..|].
  destruct Hrot as [(-> & Hrt & _)|(-> & Hrt & Hne)].
  { unfold good_source, stored. rewrite Hid, Hurl, Hrt. by split_and!. }
  pose proof (Hplain tok Hpt) as Hap. unfold good_source, stored. rewrite Hid, Hurl, Hrt. destruct Hsto as (key & blob & Hk & _ & _).
  destruct (apply_refines ToLower up (OpSet (rs_serverURL s) (encode (mkStoredCreds (rs_clientID s) (tr_RefreshToken tok)))) (snd x) st Hst Hsane ltac:(done)) as (_ & H2 & H3).
  cbn [apply spec_apply] in H2, H3. rewrite Hk in H2. destruct (Set_ ToLower (snd x) st (rs_serverURL s) _) as [e st2] eqn:Es. cbn [fst snd] in *. split_and!; try done.
  exists key, (encode (mkStoredCreds (rs_clientID s) (tr_RefreshToken tok))). split; [done|]. rewrite H2. split; [by rewrite lookup_insert_eq|].
  unfold DecodeCreds. rewrite decode_encode by done. cbn. by rewrite !bool_decide_eq_false_2 by done.
Qed.

Lemma daemon_run_stored up xs s st s' st' : Forall (fun x => steady up (snd x) /\ plain_reply (fst x)) xs -> good_source s -> sane up st ->
  stored up st (rs_serverURL s) (rs_clientID s) (rs_refreshToken s) -> daemon_run ToLower encode (s, st) xs = (s', st') ->
  sane up st' /\ rs_serverURL s' = rs_serverURL s /\ rs_clientID s' = rs_clientID s /\ stored up st' (rs_serverURL s') (rs_clientID s') (rs_refreshToken s').
Proof using decode_encode.
  intros H. revert s st. induction H as [|x xs [Hst Hpl] _ IH]; intros s st Hg Hs Hsto; unfold daemon_run; cbn [fold_left].
  - intros [= <- <-]. by split_and!.
  - destruct (snd (daemon_step ToLower encode (s, st) x)) as [s1 st1] eqn:E. destruct (daemon_step_stored up s st x s1 st1 Hst Hpl Hg Hs Hsto E) as (Hg1 & Hs1 & Hu & Hc & Hsto1).
    intros Hrun. destruct (IH s1 st1 Hg1 Hs1 Hsto1 Hrun) as (H1 & -> & -> & H2). by split_and!.
Qed.

(** While storage holds, the refresh token that a restart would use is the newest.
    If from the first start to the second the token file can be read and
    written, the keyring answers every call or is unavailable to every call, no
    timed-out call is still under way when the keyring is up,
    and the server's tokens are ASCII text, then whenever
    the daemon is stopped, and whichever of its renewals failed before, starting it
    again finds the client and the refresh token it had. Without that it may not:
    a failed write loses the token, and a token that was rotated while the keyring
    was unavailable is hidden by the older one as soon as the keyring answers again
    ([CredStore.old_token_returns], [lost_rotation]) (C34). *)
Theorem rotation_survives_restart up fv ev path st i xs s' st' s : steady up i -> sane up st -> Forall (fun x => steady up (snd x) /\ plain_reply (fst x)) xs ->
  ac_Token (resolve ToLower decode fv ev path (Some st) i) = Some (Refreshing s) -> plain_creds (mkStoredCreds (rs_clientID s) (rs_refreshToken s)) ->
  daemon_run ToLower encode (s, st) xs = (s', st') -> forall j, steady up j ->
  ac_Token (resolve ToLower decode fv ev path (Some st') j) = Some (Refreshing (NewRefreshTokenSource (rs_serverURL s') (rs_clientID s') (rs_refreshToken s'))).
Proof using decode_encode.
  intros Hi Hs Hxs Hres Hp Hrun j Hj. unfold resolve in *. set (server := if bool_decide (default (ev_server ev) (fv_server fv) = EmptyString) then _ else _) in *.
  cbn [ac_Token] in *. destruct (negb (bool_decide (default (ev_token ev) (fv_token fv) = EmptyString))); [done|]. rewrite (Get_view up i) in Hres by done.
  destruct (CanonicalizeServerURL ToLower server) as [key|] eqn:Ek; [|done]. destruct (view up st !! key) as [blob|] eqn:Ev; [|done].
  destruct (DecodeCreds decode blob) as [creds|] eqn:Ed; [|done]. injection Hres as <-. destruct creds as [cid rt].
  assert (cid <> EmptyString /\ rt <> EmptyString) as [Hcid Hrt].
  { unfold DecodeCreds in Ed. destruct (decode blob) as [c|]; [|done]. cbn in Ed. destruct (bool_decide (sc_ClientID c = EmptyString) || _) eqn:Eo; [done|]. injection Ed as ->.
    apply orb_false_iff in Eo as [E1 E2]. apply bool_decide_eq_false in E1, E2. done. }
  pose proof (fun Hg Hsto => daemon_run_stored up xs _ st s' st' Hxs Hg Hs Hsto Hrun) as Hinv.
  destruct Hinv as (Hs' & Hu & Hc & (key' & blob' & Hk' & Hv' & Hd')); [by split_and!|by exists key, blob|].
  cbn [NewRefreshTokenSource rs_serverURL] in Hu. rewrite Hu in Hk'. rewrite (Get_view up j) by done. rewrite Hk', Hv', Hd'. by rewrite Hu.
Qed.

End DaemonClaims.

(** ** Samples *)

(** A coding that serves as JSON would. *)
Definition sample_encode (c : StoredCreds) : string := QueryEscape (sc_ClientID c) ++ String "&" (QueryEscape (sc_RefreshToken c)).
Definition sample_decode (s : string) : option StoredCreds :=
  let '(a, b) := Cut s "&" in id ← unescape a encodeQueryComponent; rt ← unescape b encodeQueryComponent; Some (mkStoredCreds id rt).

Lemma sample_decode_encode c : plain_creds c -> sample_decode (sample_encode c) = Some c.
Proof. intros _. unfold sample_decode, sample_encode. rewrite Cut_app by (by apply escape_clean). rewrite !unescape_escape. by destruct c. Qed.

Definition sample_endpoints : Endpoints := mkEndpoints "https://h/auth" "https://h/token" "https://h/register".
Definition sample_renewal (access refresh : string) : token_input :=
  mkTokenInput 0 (Some (200, Some sample_endpoints)) (Some (mkTokenReply 200 None (Some (mkTokenResponse access refresh 30)))) 0.

Definition sample_store : store := mkStore {["https://h"%string := sample_encode (mkStoredCreds "cid" "r1")]} [] NoFile.
Definition sample_flags : flagValues := mkFlags (Some "https://h/"%string) None None false.

Lemma rotation_survives_restart_witness :
  let d := daemon_run ToLower_ascii sample_encode (NewRefreshTokenSource "https://h/" "cid" "r1", sample_store) [(sample_renewal "a" "r2", up_io); (sample_renewal "b" "r3", up_io)] in
  rs_refreshToken (fst d) = "r3"%string /\
  ac_Token (resolve ToLower_ascii sample_decode sample_flags (mkEnv "" "" "") "/tmp/sock" (Some (snd d)) up_io) = Some (Refreshing (NewRefreshTokenSource "https://h/" "cid" "r3")).
Proof.
  intros d. split; [by vm_compute|].
  refine (rotation_survives_restart ToLower_ascii sample_encode sample_decode sample_decode_encode true sample_flags (mkEnv "" "" "") "/tmp/sock" sample_store up_io
    [(sample_renewal "a" "r2", up_io); (sample_renewal "b" "r3", up_io)] (fst d) (snd d) (NewRefreshTokenSource "https://h/" "cid" "r1") _ _ _ _ _ _ up_io _); try (by split_and!).
  - rewrite !Forall_cons. split_and!; try done; intros tok [= <-]; by vm_compute.
  - by vm_compute.
  - apply surjective_pairing.
Defined.

(** A renewal while the keyring is unavailable: the file gets the new token, and
    a restart with the keyring back finds the spent one. *)
Theorem lost_rotation :
  let d := daemon_run ToLower_ascii sample_encode (NewRefreshTokenSource "https://h/" "cid" "r1", sample_store) [(sample_renewal "a" "r2", down_io)] in
  rs_refreshToken (fst d) = "r2"%string /\
  ac_Token (resolve ToLower_ascii sample_decode sample_flags (mkEnv "" "" "") "/tmp/sock" (Some (snd d)) up_io) = Some (Refreshing (NewRefreshTokenSource "https://h/" "cid" "r1")).
Proof. split; by vm_compute. Qed.

Definition sample_login (requests : list (string * string)) : login_input :=
  mkLoginInput (Some (200, Some sample_endpoints)) (Some 4000) (Some (201, Some "cid"%string)) (Some "v"%string) (Some "st"%string) requests false
    (Some (mkTokenReply 200 None (Some (mkTokenResponse "a" "r1" 300)))).

Lemma login_bound_witness :
  fst (fst (Login ToLower_ascii (fun l => l) "https://h/" "" false (sample_login [("/favicon.ico", ""); ("/callback", "state=st&code=c1")]%string)))
  = inr (mkLoginResult "https://h" "cid" "r1") /\ "r1"%string <> EmptyString.
Proof.
  destruct (Login ToLower_ascii (fun l => l) "https://h/" "" false (sample_login [("/favicon.ico", ""); ("/callback", "state=st&code=c1")]%string)) as [[res calls] opened] eqn:E.
  assert (fst (fst (res, calls, opened)) = inr (mkLoginResult "https://h" "cid" "r1")) as Hres by (rewrite <- E; by vm_compute). split; [done|].
  apply (proj2 (proj2 (login_bound _ _ _ _ _ _ _ _ _ E)) _ Hres).
Defined.

(** With a slash at the end of the server's address the daemon finds its
    credentials and its WebSocket, but asks for the discovery document under a
    path that no route of the server fits, so it never gets an access token. *)
Theorem trailing_slash_no_token :
  CanonicalizeServerURL ToLower_ascii "https://h/" = CanonicalizeServerURL ToLower_ascii "https://h" /\
  buildWSURL "https://h/" = buildWSURL "https://h" /\
  (exists u, Parse (discovery_url "https://h/") = Some u /\ forall p r, r ∈ HttpServer.routes p -> fits r "GET" (Url.Path u) = false) /\
  (exists u, Parse (discovery_url "https://h") = Some u /\ exists r, r ∈ HttpServer.routes full /\ fits r "GET" (Url.Path u) = true).
Proof.
  split_and!; [by vm_compute|by vm_compute| |].
  - eexists. split; [by vm_compute|]. intros p r Hr%(routes_full p).
    assert (forallb (fun r => negb (fits r "GET" "//.well-known/oauth-authorization-server")) (HttpServer.routes full) = true) as Hf by (by vm_compute).
    rewrite forallb_forall in Hf. apply negb_true_iff. apply Hf. by apply list_elem_of_In.
  - eexists. split; [by vm_compute|]. exists (get "/.well-known/oauth-authorization-server"). split; [|by vm_compute]. apply list_elem_of_In. vm_compute. tauto.
Qed.
