(* ===== verification/KeyDir.v ===== *)
(** * File keys (internal/sshx/keys.go, internal/store/sshkeys.go,
      internal/rest/keys.go and the key selection of
      internal/sshx/passkey_factory.go and internal/agentproxy/route.go)

    Private keys live as files in one directory; the database remembers what was
    ever found there. A scan reads the directory into a map from fingerprints;
    a synchronisation also inserts the keys the database does not know. *)
From S2P Require Import Prelude GoStrings Clock Keyset SSHWire Approval Broker Passkeys HostKeys SignAgent.
#[local] Open Scope Z_scope.

(** ** The table ssh_keys *)

Record SSHKeyFull := mkSSHKey {
  k_ID : string; k_Label : string; k_Type : string; k_PublicKey : string; k_Fingerprint : string; k_Enabled : bool;
  k_CreatedAt : string; k_LastUsedAt : option string }.

Definition KeyTable : Type := gmap string SSHKeyFull.

Definition key_rows (t : KeyTable) : list SSHKeyFull := map snd (map_to_list t).

(** ORDER BY created_at, id *)
Definition in_order (l : list SSHKeyFull) : list SSHKeyFull := rev (order_desc (fun r => mkCursor (k_CreatedAt r) (k_ID r)) l).

Definition ListFull (t : KeyTable) : list SSHKeyFull := in_order (key_rows t).

(** WHERE enabled = 1; the columns of the short listing. *)
Definition SSHKeys_List (t : KeyTable) : list (string * string * string * string) :=
  map (fun r => (k_ID r, k_Label r, k_Type r, k_Fingerprint r)) (in_order (List.filter k_Enabled (key_rows t))).

Definition SSHKeys_Get (t : KeyTable) (id : string) : option (string * string * string * string * string) :=
  (fun r => (k_ID r, k_Label r, k_Type r, k_Fingerprint r, k_PublicKey r)) <$> t !! id.

Definition SSHKeyFingerprintExists (t : KeyTable) (fp : string) : bool := existsb (fun r => bool_decide (k_Fingerprint r = fp)) (key_rows t).

(** The primary key and the unique index on fingerprints refuse. *)
Definition InsertFileKey (t : KeyTable) (r : SSHKeyFull) : option KeyTable :=
  if bool_decide (t !! k_ID r = None) && negb (SSHKeyFingerprintExists t (k_Fingerprint r)) then Some (<[k_ID r := r]> t) else None.

(** [io] answers the two queries; [None] is an error. *)
Definition UpsertFileKey (t : KeyTable) (io : bool * bool) (id label publicKey fingerprint now : string) : option KeyTable :=
  if negb (fst io) then None
  else if SSHKeyFingerprintExists t fingerprint then Some t
  else if negb (snd io) then None
  else InsertFileKey t (mkSSHKey id label "file" publicKey fingerprint true now None).

(** ** The directory *)

Record scannedKey := mkScanned { sk_filename : string; sk_signer : Signer; sk_publicKey : string; sk_fingerprint : string }.

Record KeyDir := mkKeyDir { kd_available : gmap string scannedKey; kd_loaded : bool }.

Definition NewKeyDir : KeyDir := mkKeyDir ∅ false.

(** What a scan meets: [None] content is a file that cannot be read, no
    directory at all is [None]. *)
Record entry := mkEntry { en_Name : string; en_IsDir : bool; en_Content : option (list byte) }.
Abbreviation listing := (option (list entry)).

Section Dir.
(** golang.org/x/crypto/ssh: ParsePrivateKey, FingerprintSHA256 and
    MarshalAuthorizedKey. *)
Context (ParsePrivateKey : list byte -> option Signer) (FingerprintSHA256 : PublicKey -> string) (MarshalAuthorizedKey : PublicKey -> string).

Definition scan_entry (e : entry) : option scannedKey :=
  if en_IsDir e || negb (HasSuffix (en_Name e) ".pem") then None
  else
    raw ← en_Content e; signer ← ParsePrivateKey raw;
    let pub := sg_PublicKey signer in
    Some (mkScanned (en_Name e) signer (TrimSpace (MarshalAuthorizedKey pub)) (FingerprintSHA256 pub)).

Definition scanLocked (d : listing) : KeyDir :=
  mkKeyDir (match d with
    | None => ∅
    | Some es => fold_left (fun next e => match scan_entry e with Some sk => <[sk_fingerprint sk := sk]> next | None => next end) es ∅
    end) true.

(** Reads scan first when nothing has. *)
Definition loaded (k : KeyDir) (d : listing) : KeyDir := if kd_loaded k then k else scanLocked d.

Definition IsAvailable (k : KeyDir) (fingerprint : string) : bool := bool_decide (is_Some (kd_available k !! fingerprint)).

Definition SignerFor (k : KeyDir) (d : listing) (fingerprint : string) : KeyDir * option Signer :=
  let k := loaded k d in (k, sk_signer <$> kd_available k !! fingerprint).

(** [order] is the order in which the runtime visits the map. *)
Definition Signers (k : KeyDir) (d : listing) (order : list string) : KeyDir * list Signer :=
  let k := loaded k d in (k, omap (fun fp => sk_signer <$> kd_available k !! fp) order).

Definition Reload (d : listing) : KeyDir := scanLocked d.

(** strings.TrimSuffix *)
Definition TrimSuffix (s suffix : string) : string :=
  if HasSuffix s suffix then take_str (String.length s - String.length suffix) s else s.

Definition key_id (sk : scannedKey) : string := TrimSuffix (sk_filename sk) ".pem".

(** One upsert of a synchronisation; a failure is logged. *)
Definition upsert (now : string) (t : KeyTable) (sk : scannedKey) (io : bool * bool) : KeyTable :=
  default t (UpsertFileKey t io (key_id sk) (sk_filename sk) (sk_publicKey sk) (sk_fingerprint sk) now).

(** [now i] is what the [i]th call of now() returns. *)
Fixpoint upserts (now : nat -> string) (t : KeyTable) (snapshot : list scannedKey) (io : list (bool * bool)) : KeyTable :=
  match snapshot with
  | [] => t
  | sk :: snapshot =>
      let '(a, io) := match io with a :: io => (a, io) | [] => ((true, true), []) end in
      upserts (fun i => now (S i)) (upsert (now 0%nat) t sk a) snapshot io
  end.

Definition sync (t : KeyTable) (d : listing) (now : nat -> string) (order : list string) (io : list (bool * bool)) : KeyDir * KeyTable :=
  let k := scanLocked d in
  (k, upserts now t (omap (fun fp => kd_available k !! fp) order) io).

(** *** Watching *)

(** The watcher waits for changes and keeps one debounce timer. *)
Record watch := mkWatch { wt_dir : KeyDir; wt_table : KeyTable; wt_timer : bool }.

Inductive watch_event :=
  | Changed
  | TimerFires (d : listing) (now : nat -> string) (order : list string) (io : list (bool * bool)).

Definition watch_step (w : watch) (e : watch_event) : watch :=
  match e with
  | Changed => mkWatch (wt_dir w) (wt_table w) true
  | TimerFires d now order io =>
      if wt_timer w then let '(k, t) := sync (wt_table w) d now order io in mkWatch k t false else w
  end.

(** ** Which file keys a connection may use *)

(** fileKeysFor; [rows] is the listing, [None] a failed query. *)
Definition fileKeysFor (admin : bool) (k : KeyDir) (d : listing) (rows : option (list SSHKeyFull)) : list (Signer * string) :=
  if negb admin then []
  else
    match rows with
    | None => []
    | Some rows =>
        omap (fun row =>
          if negb (bool_decide (k_Type row = "file"%string)) || negb (k_Enabled row) then None
          else (fun s => (s, k_Label row)) <$> snd (SignerFor k d (k_Fingerprint row))) rows
    end.

(** The agent proxy's identities (buildIdentities in agentproxy/route.go):
    [creds] is the listing of the account's passkeys, [None] a failed query. *)
Definition proxy_file_identity (s : Signer) : Identity := mkIdentity (Some s) None false EmptyString "file key" EmptyString.

Definition buildIdentities (fileKeys : bool) (k : KeyDir) (d : listing) (order : list string) (creds : option (list AuthCredential)) (rpID : string)
  : option (list Identity) :=
  let keys := if fileKeys then map proxy_file_identity (snd (Signers k d order)) else [] in
  match creds with
  | None => None
  | Some creds =>
      Some (keys ++ omap (fun c => PasskeyIdentity (bytes_of_string (au_PublicKeyOpenSSH c)) (au_CredentialID c) (au_Label c) rpID) creds)
  end.

(** ** The listing of the UI (rest/keys.go) *)

Record key_info := mkKeyInfo {
  ki_id : string; ki_label : string; ki_type : string; ki_algorithm : string; ki_fingerprint : string; ki_revoked : bool;
  ki_available : bool; ki_authorizedKeys : option string; ki_createdAt : string; ki_lastUsedAt : option string }.

(** [Available] is nil or the directory's. *)
Definition key_view (Available : option (string -> bool)) (key : SSHKeyFull) : key_info :=
  mkKeyInfo (k_ID key) (k_Label key) (k_Type key)
    (match GoStrings.Fields (k_PublicKey key) with f :: _ => f | [] => "unknown"%string end) (k_Fingerprint key) (negb (k_Enabled key))
    (k_Enabled key && match Available with Some f => f (k_Fingerprint key) | None => true end)
    (if bool_decide (k_PublicKey key = EmptyString) then None else Some (k_PublicKey key)) (k_CreatedAt key) (k_LastUsedAt key).

(** [None] is the failed query. *)
Definition Keys_list (admin : bool) (rows : option (list SSHKeyFull)) (Available : option (string -> bool)) : option (list key_info) :=
  if negb admin then Some []
  else
    rows ← rows;
    Some (map (key_view Available) (List.filter (fun key => bool_decide (k_Type key = "file"%string)) rows)).

(** ** What a scan finds *)

(** The file a key was read from. *)
Definition read_from (d : listing) (fp : string) (sk : scannedKey) : Prop :=
  sk_fingerprint sk = fp /\ FingerprintSHA256 (sg_PublicKey (sk_signer sk)) = fp /\
  exists es e, d = Some es /\ e ∈ es /\ en_IsDir e = false /\ en_Name e = sk_filename sk /\ HasSuffix (en_Name e) ".pem" = true /\
    (en_Content e ≫= ParsePrivateKey) = Some (sk_signer sk).

Lemma scan_entry_from es e sk : e ∈ es -> scan_entry e = Some sk -> read_from (Some es) (sk_fingerprint sk) sk.
Proof using.
  unfold scan_entry. intros He. destruct (en_IsDir e) eqn:Ed; [done|]. destruct (HasSuffix (en_Name e) ".pem") eqn:Es; [|done]. cbn.
  destruct (en_Content e) as [raw|] eqn:Ec; [|done]. cbn. destruct (ParsePrivateKey raw) as [signer|] eqn:Ep; [|done]. cbn. intros; simplify_eq.
  split; [done|]. split; [done|]. exists es, e. cbn. rewrite Ec. by split_and!.
Qed.

Lemma scan_from d fp sk : kd_available (scanLocked d) !! fp = Some sk -> read_from d fp sk.
Proof using.
  destruct d as [es|]; [|cbn; by rewrite lookup_empty]. cbn [scanLocked kd_available].
  assert (forall l (m : gmap string scannedKey), (forall e, e ∈ l -> e ∈ es) -> (forall fp sk, m !! fp = Some sk -> read_from (Some es) fp sk) ->
    forall fp sk, fold_left (fun next e => match scan_entry e with Some sk => <[sk_fingerprint sk := sk]> next | None => next end) l m !! fp = Some sk ->
      read_from (Some es) fp sk) as H.
  { induction l as [|e l IH]; intros m Hl Hm; [done|]. cbn. apply IH; [intros; apply Hl; by right|]. intros fp' sk'.
    destruct (scan_entry e) as [sk0|] eqn:E; [|apply Hm]. intros [[<- <-]|[_ H]]%lookup_insert_Some; [|by apply Hm].
    eapply scan_entry_from; [|done]. apply Hl. by left. }
  apply H; [done|]. intros fp' sk'. by rewrite lookup_empty.
Qed.

(** ** A synchronisation *)

Lemma exists_fingerprint t fp : SSHKeyFingerprintExists t fp = true <-> exists id r, t !! id = Some r /\ k_Fingerprint r = fp.
Proof using.
  unfold SSHKeyFingerprintExists. rewrite existsb_exists. split.
  - intros (r & Hin & Hfp). apply bool_decide_eq_true in Hfp. apply list_elem_of_In, list_elem_of_fmap in Hin as ([id r'] & -> & H%elem_of_map_to_list). eauto.
  - intros (id & r & Hr & Hfp). exists r. split; [|by apply bool_decide_eq_true]. apply list_elem_of_In, list_elem_of_fmap. exists (id, r).
    split; [done|]. by apply elem_of_map_to_list.
Qed.

Definition keyed (t : KeyTable) : Prop := forall id r, t !! id = Some r -> k_ID r = id.

(** The row of a new file key. *)
Definition new_row (now : string) (sk : scannedKey) : SSHKeyFull :=
  mkSSHKey (key_id sk) (sk_filename sk) "file" (sk_publicKey sk) (sk_fingerprint sk) true now None.

Lemma upsert_cases now t sk io :
  upsert now t sk io = t /\ (io = (true, true) -> SSHKeyFingerprintExists t (sk_fingerprint sk) = true \/ is_Some (t !! key_id sk)) \/
  upsert now t sk io = <[key_id sk := new_row now sk]> t /\ t !! key_id sk = None /\ SSHKeyFingerprintExists t (sk_fingerprint sk) = false.
Proof using.
  unfold upsert, UpsertFileKey. destruct io as [[] b]; cbn; [|by left]. destruct (SSHKeyFingerprintExists t (sk_fingerprint sk)) eqn:Ef; [left; auto|].
  destruct b; cbn; [|left; split; [done|congruence]]. unfold InsertFileKey. cbn. rewrite Ef. destruct (decide (t !! key_id sk = None)) as [Hn|Hn].
  - rewrite bool_decide_eq_true_2 by done. by right.
  - rewrite bool_decide_eq_false_2 by done. left. split; [done|]. intros _. right. by apply not_eq_None_Some.
Qed.

Lemma upserts_keep now t l io : t ⊆ upserts now t l io.
Proof using.
  revert now t io. induction l as [|sk l IH]; intros now t io; [done|]. cbn [upserts]. destruct io as [|a io]; (etransitivity; [|apply IH]);
    match goal with |- _ ⊆ upsert ?n _ _ ?a => destruct (upsert_cases n t sk a) as [[-> _]|(-> & Hn & _)] end; try done; by apply insert_subseteq.
Qed.

Lemma upserts_new now t l io id r : upserts now t l io !! id = Some r ->
  t !! id = Some r \/ exists i sk, sk ∈ l /\ id = key_id sk /\ r = new_row (now i) sk.
Proof using.
  revert now t io. induction l as [|sk l IH]; intros now t io; [by left|]. cbn [upserts].
  assert (forall a io, upserts (fun i => now (S i)) (upsert (now 0%nat) t sk a) l io !! id = Some r ->
    t !! id = Some r \/ exists i sk0, sk0 ∈ sk :: l /\ id = key_id sk0 /\ r = new_row (now i) sk0) as H.
  { intros a io' [H|(i & sk' & Hin & H)]%IH; [|right; exists (S i), sk'; split; [by right|done]].
    destruct (upsert_cases (now 0%nat) t sk a) as [[Hu _]|(Hu & _ & _)]; rewrite Hu in H; [by left|].
    apply lookup_insert_Some in H as [[<- <-]|[_ H]]; [right|by left]. exists 0%nat, sk. split; [by left|done]. }
  destruct io as [|a io]; apply H.
Qed.

(** With a database that answers, every key on disk has a row afterwards,
    unless its id is taken. *)
Lemma upserts_complete now t l sk : sk ∈ l ->
  let t' := upserts now t l [] in SSHKeyFingerprintExists t' (sk_fingerprint sk) = true \/ is_Some (t' !! key_id sk).
Proof using.
  revert now t. induction l as [|sk0 l IH]; intros now t Hin; [by apply not_elem_of_nil in Hin|]. cbn [upserts]. apply elem_of_cons in Hin as [->|Hin]; [|by apply IH].
  pose proof (upserts_keep (fun i => now (S i)) (upsert (now 0%nat) t sk0 (true, true)) l []) as Hk.
  destruct (upsert_cases (now 0%nat) t sk0 (true, true)) as [[Hu Hc]|(Hu & _ & _)]; rewrite Hu in *.
  - destruct (Hc eq_refl) as [(id & r & Hr & Hf)%exists_fingerprint|[r Hr]].
    + left. apply exists_fingerprint. exists id, r. split; [by eapply lookup_weaken|done].
    + right. exists r. by eapply lookup_weaken.
  - left. apply exists_fingerprint. exists (key_id sk0), (new_row (now 0%nat) sk0). split; [|done]. eapply lookup_weaken; [|exact Hk]. apply lookup_insert_eq.
Qed.

(** The name of a row: that of the file without its extension. *)
Lemma key_id_pem sk : (exists base, sk_filename sk = (base ++ ".pem")%string) -> (key_id sk ++ ".pem")%string = sk_filename sk.
Proof using.
  intros [base Hb]. unfold key_id, TrimSuffix. rewrite Hb, HasSuffix_app, length_app_str, Nat.add_sub. by rewrite take_app_str.
Qed.

(** A file of the directory that holds a usable private key, and what is kept of it. *)
Definition holds_key (e : entry) (sk : scannedKey) : Prop :=
  en_IsDir e = false /\ (exists base, en_Name e = (base ++ ".pem")%string) /\ sk_filename sk = en_Name e /\
  (exists raw, en_Content e = Some raw /\ ParsePrivateKey raw = Some (sk_signer sk)) /\
  sk_publicKey sk = TrimSpace (MarshalAuthorizedKey (sg_PublicKey (sk_signer sk))) /\
  sk_fingerprint sk = FingerprintSHA256 (sg_PublicKey (sk_signer sk)).

(** Of the files that hold the same key the last one in the listing counts. *)
Definition on_disk (d : listing) (fp : string) (sk : scannedKey) : Prop :=
  exists pre e post, d = Some (pre ++ e :: post) /\ holds_key e sk /\ sk_fingerprint sk = fp /\
    forall e' sk', e' ∈ post -> holds_key e' sk' -> sk_fingerprint sk' <> fp.

Lemma scan_entry_spec e sk : scan_entry e = Some sk <-> holds_key e sk.
Proof using.
  unfold scan_entry, holds_key. rewrite <- HasSuffix_spec. destruct (en_IsDir e); [cbn; naive_solver|].
  destruct (HasSuffix (en_Name e) ".pem"); [|cbn; naive_solver]. cbn. split.
  - intros (raw & Hc & (signer & Hp & [= <-])%bind_Some)%bind_Some. cbn. split_and!; eauto.
  - intros (_ & _ & Hn & (raw & -> & Hp) & Hk & Hf). cbn. rewrite Hp. cbn. destruct sk. cbn in *. by subst.
Qed.

Lemma scan_spec d fp sk : kd_available (scanLocked d) !! fp = Some sk <-> on_disk d fp sk.
Proof using.
  unfold on_disk. destruct d as [es|]; [|cbn; rewrite lookup_empty; naive_solver]. cbn [scanLocked kd_available].
  induction es as [|e es IH] using rev_ind.
  - cbn. rewrite lookup_empty. split; [done|]. intros (pre & e & post & [= H] & _). by destruct pre.
  - rewrite fold_left_app. cbn [fold_left]. destruct (scan_entry e) as [sk0|] eqn:E.
    + apply scan_entry_spec in E. rewrite lookup_insert_Some, IH. split.
      * intros [[Hf ->]|[Hne (pre & e1 & post & [= ->] & Hk & Hfp & Hl)]].
        -- exists es, e, []. split_and!; try done. by intros ? ? ?%not_elem_of_nil.
        -- exists pre, e1, (post ++ [e]). rewrite <- app_assoc. split_and!; try done. intros e' sk' [Hin|Hin]%elem_of_app Hk'; [by eapply Hl|].
           apply list_elem_of_singleton in Hin as ->. apply scan_entry_spec in E, Hk'. congruence.
      * intros (pre & e1 & post & [= Heq] & Hk & Hfp & Hl).
        destruct post as [|e' post' _] using rev_ind.
        -- apply app_inj_tail in Heq as [<- <-]. left. apply scan_entry_spec in E, Hk. split; congruence.
        -- rewrite app_comm_cons, app_assoc in Heq. apply app_inj_tail in Heq as [-> <-]. right. split.
           ++ apply (Hl e); [apply elem_of_app; right; by left|done].
           ++ exists pre, e1, post'. split_and!; try done. intros e' sk' Hin. apply Hl, elem_of_app. by left.
    + rewrite IH. split.
      * intros (pre & e1 & post & [= ->] & Hk & Hfp & Hl). exists pre, e1, (post ++ [e]). rewrite <- app_assoc. split_and!; try done.
        intros e' sk' [Hin|Hin]%elem_of_app Hk'; [by eapply Hl|]. apply list_elem_of_singleton in Hin as ->. apply scan_entry_spec in Hk'. congruence.
      * intros (pre & e1 & post & [= Heq] & Hk & Hfp & Hl). destruct post as [|e' post' _] using rev_ind.
        -- apply app_inj_tail in Heq as [_ <-]. apply scan_entry_spec in Hk. congruence.
        -- rewrite app_comm_cons, app_assoc in Heq. apply app_inj_tail in Heq as [-> <-]. exists pre, e1, post'. split_and!; try done.
           intros e' sk' Hin. apply Hl, elem_of_app. by left.
Qed.

(** After a synchronisation the directory offers, for each fingerprint, the key
    of the last readable .pem file that parses to it, and nothing else; the
    database has lost and changed nothing; what it gained are enabled rows for
    keys on disk, named after their files; and, its queries answered, it knows every key on disk but
    those whose id another key has taken (C37). *)
Theorem sync_spec t d now order io k t' :
  sync t d now order io = (k, t') -> (forall fp, is_Some (kd_available k !! fp) -> fp ∈ order) ->
  kd_loaded k = true /\ (forall fp sk, kd_available k !! fp = Some sk <-> on_disk d fp sk) /\ t ⊆ t' /\
  (forall id r, t' !! id = Some r -> t !! id = None -> exists i fp sk, on_disk d fp sk /\ (id ++ ".pem")%string = sk_filename sk /\
     r = mkSSHKey id (sk_filename sk) "file" (sk_publicKey sk) fp true (now i) None) /\
  (io = [] -> forall fp sk, on_disk d fp sk ->
     (exists id r, t' !! id = Some r /\ k_Fingerprint r = fp) \/ exists id, (id ++ ".pem")%string = sk_filename sk /\ is_Some (t' !! id)).
Proof using.
  unfold sync. intros [= <- <-] Hord. split; [done|]. split; [intros; apply scan_spec|]. split; [apply upserts_keep|].
  assert (forall fp sk, on_disk d fp sk -> (key_id sk ++ ".pem")%string = sk_filename sk) as Hid.
  { intros fp sk (_ & e & _ & _ & (_ & Hb & Hn & _) & _). apply key_id_pem. by rewrite Hn. }
  split.
  - intros id r Hr Hn. destruct (upserts_new _ _ _ _ _ _ Hr) as [H|(i & sk & Hin & -> & ->)]; [congruence|].
    apply list_elem_of_omap in Hin as (fp & _ & Hsk%scan_spec). exists i, fp, sk. split_and!; [done|by eapply Hid|].
    destruct Hsk as (_ & _ & _ & _ & _ & <- & _). done.
  - intros -> fp sk Hd. assert (sk_fingerprint sk = fp) as <- by (by destruct Hd as (_ & _ & _ & _ & _ & ? & _)).
    pose proof Hd as Hsk%scan_spec. destruct (upserts_complete now t (omap (fun fp => kd_available (scanLocked d) !! fp) order) sk) as [H|H].
    + apply list_elem_of_omap. exists (sk_fingerprint sk). split; [by apply Hord|done].
    + left. by apply exists_fingerprint.
    + right. exists (key_id sk). split; [by eapply Hid|done].
Qed.

(** ** Entitlement *)

Lemma in_order_elem l r : r ∈ in_order l <-> r ∈ l.
Proof using. unfold in_order. rewrite list_elem_of_In, <- in_rev, <- list_elem_of_In. apply order_desc_elem. Qed.

Lemma ListFull_elem t r : r ∈ ListFull t <-> exists id, t !! id = Some r.
Proof using.
  unfold ListFull. rewrite in_order_elem. unfold key_rows. rewrite list_elem_of_fmap. split.
  - intros ([id r'] & -> & H%elem_of_map_to_list). by exists id.
  - intros (id & H). exists (id, r). split; [done|]. by apply elem_of_map_to_list.
Qed.

(** Watch: a first synchronisation, then one per fired timer. *)
Definition watched (t : KeyTable) (d : listing) (now : nat -> string) (order : list string) (io : list (bool * bool)) (es : list watch_event) : watch :=
  let '(k, t) := sync t d now order io in fold_left watch_step es (mkWatch k t false).

(** The directory is always that of a scan the watcher made. *)
Lemma watched_scanned t d now order io es :
  exists d', (d' = d \/ exists now' order' io', TimerFires d' now' order' io' ∈ es) /\ wt_dir (watched t d now order io es) = scanLocked d'.
Proof using.
  assert (forall es e, watched t d now order io (es ++ [e]) = watch_step (watched t d now order io es) e) as Hsnoc.
  { intros es0 e. unfold watched. destruct (sync t d now order io) as [k0 t0]. by rewrite fold_left_app. }
  induction es as [|e es IH] using rev_ind; [exists d; unfold watched, sync; cbn; auto|].
  rewrite Hsnoc. destruct IH as (d' & Hd' & Hk).
  assert (d' = d \/ exists now' order' io', TimerFires d' now' order' io' ∈ es ++ [e]) as Hin.
  { destruct Hd' as [|(n' & o' & i' & H)]; [by left|right]. exists n', o', i'. apply elem_of_app. by left. }
  destruct e as [|d2 n2 o2 i2]; cbn [watch_step]; [by exists d'|]. destruct (wt_timer _); [|by exists d'].
  exists d2. unfold sync. cbn. split; [right|done]. exists n2, o2, i2. apply elem_of_app. right. by left.
Qed.

(** A file key is offered to a session of an admin account only, for an
    enabled row of the type file, under the label and with the fingerprint of
    that row; and the directory held the private key at the last scan. *)
Lemma fileKeysFor_entitled t d now order io es admin d0 tbl s label :
  let k := wt_dir (watched t d now order io es) in
  (s, label) ∈ fileKeysFor admin k d0 (Some (ListFull tbl)) ->
  admin = true /\
  exists id row, tbl !! id = Some row /\ k_Type row = "file"%string /\ k_Enabled row = true /\ label = k_Label row /\
    FingerprintSHA256 (sg_PublicKey s) = k_Fingerprint row /\
    exists d' sk, (d' = d \/ exists now' order' io', TimerFires d' now' order' io' ∈ es) /\ read_from d' (k_Fingerprint row) sk /\ sk_signer sk = s.
Proof using.
  intros k. destruct (watched_scanned t d now order io es) as (d' & Hd' & Hk). fold k in Hk. unfold fileKeysFor. destruct admin; cbn [negb]; [|intros H; by apply not_elem_of_nil in H].
  intros Hin. split; [done|]. apply list_elem_of_omap in Hin as (row & Hrow & E). apply ListFull_elem in Hrow as (id & Hrow).
  destruct (negb (bool_decide (k_Type row = "file"%string)) || negb (k_Enabled row)) eqn:Eb; [done|].
  rewrite orb_false_iff, !negb_false_iff, bool_decide_eq_true in Eb. destruct Eb as [Hty Hen].
  rewrite Hk in E. cbn in E. apply fmap_Some in E as (s' & Hs & [= -> ->]). apply fmap_Some in Hs as (sk & Hsk & ->).
  pose proof (scan_from _ _ _ Hsk) as Hr. exists id, row. split_and!; try done; [by destruct Hr as (_ & ? & _)|]. exists d', sk. auto.
Qed.

End Dir.

(** ** Findings *)

(** The proxy's agent carries every key of the directory: no account is asked
    for, and no row of the database. *)
Lemma proxy_carries ParsePrivateKey FingerprintSHA256 MarshalAuthorizedKey k d order creds rpID ids fp sk :
  kd_available (loaded ParsePrivateKey FingerprintSHA256 MarshalAuthorizedKey k d) !! fp = Some sk -> fp ∈ order ->
  buildIdentities ParsePrivateKey FingerprintSHA256 MarshalAuthorizedKey true k d order (Some creds) rpID = Some ids ->
  proxy_file_identity (sk_signer sk) ∈ ids.
Proof.
  intros Hsk Hord. unfold buildIdentities, Signers. cbn. intros [= <-]. apply elem_of_app. left. apply (list_elem_of_fmap_2 proxy_file_identity).
  apply list_elem_of_omap. exists fp. by rewrite Hsk.
Qed.

(** A toy private-key format: the file is the public key. *)
Definition toy_parse (raw : list byte) : option Signer := match raw with [] => None | _ => Some (mkSigner (mkKey "ssh-ed25519" raw) true) end.
Definition toy_fingerprint (k : PublicKey) : string := String.append "SHA256:" (String.string_of_list_byte (pk_Marshal k)).
Definition toy_marshal (k : PublicKey) : string := String.append "ssh-ed25519 " (String.string_of_list_byte (pk_Marshal k)).

Definition deploy_key (content : list byte) : listing := Some [mkEntry "deploy.pem" false (Some content)].

(** A file key that is disabled in the database still signs on the agent proxy,
    for any account that approves its own request. *)
Theorem proxy_signs_with_disabled_key :
  let k := scanLocked toy_parse toy_fingerprint toy_marshal (deploy_key [x41]) in
  let row := mkSSHKey "deploy" "deploy.pem" "file" "ssh-ed25519 A" "SHA256:A" false "t" None in
  let sig := mkSignature [] [x42] [] in
  fileKeysFor toy_parse toy_fingerprint toy_marshal true k None (Some [row]) = [] /\
  exists ids, buildIdentities toy_parse toy_fingerprint toy_marshal true k None ["SHA256:A"%string] (Some []) "rp" = Some ids /\
    let ag := mkAgent ids "guest" "conn" sample_context "" in
    let p := mkKeyApproval "guest" "file key" "fp" "conn" sample_context "" in
    Agent_Sign (fun _ => inl ErrDenied) (fun p' => if bool_decide (ka_AccountID p' = "guest"%string) then inr "action"%string else inl ErrDenied)
      (fun _ => inl InvalidASN1) (fun _ => "fp"%string) (fun _ data _ => Some (mkSignature [] data [])) ag (mkKey "ssh-ed25519" [x41]) [x42]
    = ([CallRequestKeyApproval p], inr sig).
Proof. split; [by vm_compute|]. eexists. split; [by vm_compute|by vm_compute]. Qed.

(** A key that replaces another one in the same file never gets a row: its id
    is taken, and sessions are never offered it. *)
Theorem rotated_key_not_offered :
  let '(_, t1) := sync toy_parse toy_fingerprint toy_marshal ∅ (deploy_key [x41]) (fun _ => "t1"%string) ["SHA256:A"%string] [] in
  let '(k, t2) := sync toy_parse toy_fingerprint toy_marshal t1 (deploy_key [x42]) (fun _ => "t2"%string) ["SHA256:B"%string] [] in
  IsAvailable k "SHA256:B" = true /\ t2 = t1 /\ fileKeysFor toy_parse toy_fingerprint toy_marshal true k None (Some (ListFull t2)) = [] /\
  omap (fun v => if ki_available v then Some (ki_id v) else None) (default [] (Keys_list true (Some (ListFull t2)) (Some (IsAvailable k)))) = [].
Proof. by vm_compute. Qed.

(** ** Witnesses *)

Definition two_files : listing :=
  Some [mkEntry "deploy.pem" false (Some [x41]); mkEntry "deploy.txt" false (Some [x42]); mkEntry "copy.pem" false (Some [x41])].

Lemma sync_spec_witness :
  let '(k, t') := sync toy_parse toy_fingerprint toy_marshal ∅ two_files (fun _ => "t1"%string) ["SHA256:A"%string] [] in
  on_disk toy_parse toy_fingerprint toy_marshal two_files "SHA256:A"
    (mkScanned "copy.pem" (mkSigner (mkKey "ssh-ed25519" [x41]) true) "ssh-ed25519 A" "SHA256:A") /\ (∅ : KeyTable) ⊆ t' /\ map k_ID (ListFull t') = ["copy"%string].
Proof.
  destruct (sync _ _ _ _ _ _ _ _) as [k t'] eqn:E.
  assert (kd_available k = {["SHA256:A"%string := mkScanned "copy.pem" (mkSigner (mkKey "ssh-ed25519" [x41]) true) "ssh-ed25519 A" "SHA256:A"]}) as Hk
    by (injection E as <- _; by vm_compute).
  destruct (sync_spec toy_parse toy_fingerprint toy_marshal ∅ two_files (fun _ => "t1"%string) ["SHA256:A"%string] [] k t' E) as (_ & Hd & Hsub & _).
  - rewrite Hk. intros fp [sk [<- _]%lookup_singleton_Some]. by left.
  - split; [apply Hd; by rewrite Hk, lookup_singleton_eq|]. split; [done|]. injection E as _ <-. by vm_compute.
Defined.
