(* ===== verification/Terminal.v ===== *)
(** * The session registry (internal/terminal/manager.go, types.go, transport.go)

    Sessions live behind pointers: the registry maps ids to [managed] objects
    of a heap, which goroutines keep using after the registry has forgotten
    them. A goroutine is a program counter ([thread]); one [step] runs one
    critical section of the manager's mutex, or one action outside of it
    (calling a subscriber, closing the transport, waiting for it), so every
    interleaving of goroutines is a sequence of labels. What subscribers and
    transports see is the [log], in the order in which they are called. *)
From S2P Require Import Prelude Buffer.

(** ** Data *)

Inductive Status := StatusOpening | StatusOpen | StatusClosing | StatusClosed | StatusError.

Inductive Source := SourceUI | SourceMCP | SourceSSH.

(** [NoReason] is the empty string. *)
Inductive CloseReason :=
  | NoReason | CloseClientUI | CloseClientMCP | CloseClientWS | CloseAgentDisconnect
  | CloseIdleTimeout | CloseAccountDeleted | CloseServerHangup | CloseTransportError | CloseShutdown.

#[export] Instance Status_eq_dec : EqDecision Status.
Proof. solve_decision. Defined.
#[export] Instance Source_eq_dec : EqDecision Source.
Proof. solve_decision. Defined.
#[export] Instance CloseReason_eq_dec : EqDecision CloseReason.
Proof. solve_decision. Defined.

Record Session := mkSession {
  SessionID : string;
  EndpointID : string;
  AccountID : string;
  s_Status : Status;
  CreatedAt : Z;
  LastActivityAt : Z;
  s_Source : Source;
  s_CloseReason : CloseReason;
  SourceIP : string;
  OwnerClientID : string;
  MCPReason : string;
  MCPClientName : string;
  MCPClientVer : string
}.

Record Trigger := mkTrigger {
  tr_Kind : Source;
  tr_SourceIP : string;
  tr_Reason : string;
  tr_OwnerClientID : string;
  tr_MCPClientName : string;
  tr_MCPClientVer : string
}.

(** What the manager reads of an EndpointRef. *)
Record EndpointRef := mkRef { ep_ID : string; ep_AccountID : string }.

(** A transport event. *)
Inductive Event := EvData (data : list byte) | EvErr | EvClosed.

(** The flags say whether the transport and cancelSetup pointers are set. *)
Record managed := mkManaged {
  session : Session;
  transport : bool;
  output : OutputBuffer;
  pumpDone : bool;
  abandoned : bool;
  cancelSetup : bool
}.

Record StatusEvent := mkStatusEvent {
  ev_SessionID : string;
  ev_Status : Status;
  ev_Previous : Status;
  ev_Reason : CloseReason;
  ev_CreatedAt : Z
}.

(** What happens outside the manager. [Registered] marks the moment a session
    enters the registry; the others are calls to subscribers, to a transport,
    to a setup's cancel function, and Create's answers. *)
Inductive obs :=
  | Registered (sid : string)
  | StatusHook (ev : StatusEvent)
  | OutputHook (sid : string) (offset : Z)
  | RemovedHook (sid : string)
  | TransportClose (r : nat)
  | TransportWrite (r : nat) (input : list byte)
  | SetupCancelled (r : nat)
  | Created (s : Session)
  | CreateFailed.

(** Where a goroutine is. [Emit o k] is about to perform [o] and then [k]. *)
Inductive thread :=
  | Done
  | Emit (o : obs) (k : thread)
  | CreateStart (ep : EndpointRef) (expectedAccountID : string) (tr : Trigger) (sid : string)
  | CreateFactory (r : nat)
  | CreateAdopt (r : nat) (ok : bool)
  | CreateFailStatus (r : nat)
  | CreateAbortStatus (r : nat)
  | CreateRemove (r : nat)
  | CreateOpen (r : nat)
  | CreateSnapshot (r : nat)
  | CloseStart (sid : string) (reason : CloseReason)
  | CloseBegin (r : nat) (sid : string) (reason : CloseReason)
  | CloseRead (r : nat) (sid : string) (reason : CloseReason)
  | CloseJoin (r : nat) (sid : string) (reason : CloseReason)
  | CloseStatus (r : nat) (sid : string) (reason : CloseReason)
  | CloseRemove (sid : string)
  | Pump (r : nat)
  | PumpAppend (r : nat) (data : list byte)
  | PumpActivity (r : nat)
  | PumpReason (r : nat) (st : Status) (fallback : CloseReason)
  | PumpStatus (r : nat) (st : Status) (reason : CloseReason)
  | PumpExit (r : nat)
  | InputStart (sid : string) (input : list byte)
  | InputWrite (r : nat) (input : list byte)
  | InputActivity (r : nat).

Record Manager := mkManager {
  destroyed : bool;
  terminals : gmap string nat;
  heap : gmap nat managed;
  next_ref : nat;
  idleTimeout : Z;
  maxBufferSize : Z;
  threads : list thread;
  log : list obs
}.

Definition DefaultIdleTimeout : Z := 30 * 60 * 1000000000.

Definition NewManager (maxBufferSize : Z) : Manager :=
  mkManager false ∅ ∅ 0 DefaultIdleTimeout maxBufferSize [] [].

(** ** Updates *)

Definition with_terminals (m : Manager) (t : gmap string nat) : Manager :=
  mkManager (destroyed m) t (heap m) (next_ref m) (idleTimeout m) (maxBufferSize m) (threads m) (log m).
Definition with_heap (m : Manager) (h : gmap nat managed) : Manager :=
  mkManager (destroyed m) (terminals m) h (next_ref m) (idleTimeout m) (maxBufferSize m) (threads m) (log m).
Definition with_threads (m : Manager) (ts : list thread) : Manager :=
  mkManager (destroyed m) (terminals m) (heap m) (next_ref m) (idleTimeout m) (maxBufferSize m) ts (log m).
Definition add_log (m : Manager) (o : obs) : Manager :=
  mkManager (destroyed m) (terminals m) (heap m) (next_ref m) (idleTimeout m) (maxBufferSize m)
    (threads m) (log m ++ [o]).
Definition with_destroyed (m : Manager) : Manager :=
  mkManager true (terminals m) (heap m) (next_ref m) (idleTimeout m) (maxBufferSize m) (threads m) (log m).

Definition SetIdleTimeout (m : Manager) (d : Z) : Manager :=
  mkManager (destroyed m) (terminals m) (heap m) (next_ref m) d (maxBufferSize m) (threads m) (log m).

Definition upd (m : Manager) (r : nat) (f : managed -> managed) : Manager :=
  with_heap m (alter f r (heap m)).

Definition set_session (g : managed) (s : Session) : managed :=
  mkManaged s (transport g) (output g) (pumpDone g) (abandoned g) (cancelSetup g).
Definition set_output (g : managed) (b : OutputBuffer) : managed :=
  mkManaged (session g) (transport g) b (pumpDone g) (abandoned g) (cancelSetup g).
Definition set_pumpDone (g : managed) : managed :=
  mkManaged (session g) (transport g) (output g) true (abandoned g) (cancelSetup g).
Definition set_abandoned (g : managed) : managed :=
  mkManaged (session g) (transport g) (output g) (pumpDone g) true (cancelSetup g).
Definition adopt (g : managed) (tr : bool) : managed :=
  mkManaged (session g) tr (output g) (pumpDone g) (abandoned g) false.

Definition set_status (s : Session) (st : Status) (reason : CloseReason) : Session :=
  mkSession (SessionID s) (EndpointID s) (AccountID s) st (CreatedAt s) (LastActivityAt s) (s_Source s)
    reason (SourceIP s) (OwnerClientID s) (MCPReason s) (MCPClientName s) (MCPClientVer s).
Definition set_activity (s : Session) (now : Z) : Session :=
  mkSession (SessionID s) (EndpointID s) (AccountID s) (s_Status s) (CreatedAt s) now (s_Source s)
    (s_CloseReason s) (SourceIP s) (OwnerClientID s) (MCPReason s) (MCPClientName s) (MCPClientVer s).

(** ** Critical sections *)

Definition get (m : Manager) (sid : string) : option nat := terminals m !! sid.

Definition status_of (g : managed) : Status := s_Status (session g).

(** The stamped close reason: the first one given stays. *)
Definition stamp (old reason : CloseReason) : CloseReason :=
  if negb (bool_decide (reason = NoReason)) && bool_decide (old = NoReason) then reason else old.

Definition transition (g : managed) (st : Status) (reason : CloseReason) : managed * StatusEvent :=
  let s := session g in
  let s' := set_status s st (stamp (s_CloseReason s) reason) in
  (set_session g s',
   mkStatusEvent (SessionID s) st (s_Status s) (s_CloseReason s') (CreatedAt s)).

(** setStatus and beginClosing up to the hooks: the hook call to make, if the
    transition happens. *)
Definition absorbed (prev st : Status) : bool :=
  bool_decide (prev = st) || bool_decide (prev = StatusClosed) || bool_decide (prev = StatusError)
  || bool_decide (prev = StatusClosing) && bool_decide (st = StatusOpen).

Definition setStatus (m : Manager) (r : nat) (st : Status) (reason : CloseReason)
  : Manager * option StatusEvent :=
  match heap m !! r with
  | None => (m, None)
  | Some g =>
      if absorbed (status_of g) st then (m, None)
      else let '(g', ev) := transition g st reason in (upd m r (fun _ => g'), Some ev)
  end.

Definition beginClosing (m : Manager) (r : nat) (reason : CloseReason) : Manager * option StatusEvent :=
  match heap m !! r with
  | None => (m, None)
  | Some g =>
      if bool_decide (status_of g = StatusClosed) || bool_decide (status_of g = StatusClosing)
      then (m, None)
      else let '(g', ev) := transition g StatusClosing reason in (upd m r (fun _ => g'), Some ev)
  end.

Definition reasonOr (m : Manager) (r : nat) (fallback : CloseReason) : CloseReason :=
  match heap m !! r with
  | Some g => if bool_decide (s_CloseReason (session g) = NoReason) then fallback
              else s_CloseReason (session g)
  | None => fallback
  end.

(** removeEntry up to the hooks; the answer says whether this call deleted. *)
Definition removeEntry (m : Manager) (sid : string) : Manager * bool :=
  match terminals m !! sid with
  | None => (m, false)
  | Some r =>
      (with_terminals (upd m r (fun g => set_output g (Clear (output g)))) (delete sid (terminals m)), true)
  end.

(** Create up to the registration. *)
Definition new_session (now : Z) (ep : EndpointRef) (tr : Trigger) (sid : string) : Session :=
  let mcp := bool_decide (tr_Kind tr = SourceMCP) in
  mkSession sid (ep_ID ep) (ep_AccountID ep) StatusOpening now now (tr_Kind tr) NoReason (tr_SourceIP tr)
    (if mcp then tr_OwnerClientID tr else EmptyString) (if mcp then tr_Reason tr else EmptyString)
    (if mcp then tr_MCPClientName tr else EmptyString) (if mcp then tr_MCPClientVer tr else EmptyString).

Definition register (m : Manager) (now : Z) (ep : EndpointRef) (tr : Trigger) (sid : string)
  : Manager * option nat :=
  if destroyed m then (m, None)
  else
    let r := next_ref m in
    let g := mkManaged (new_session now ep tr sid) false (NewOutputBuffer (maxBufferSize m)) false false true in
    (mkManager (destroyed m) (<[sid := r]> (terminals m)) (<[r := g]> (heap m)) (S r) (idleTimeout m)
       (maxBufferSize m) (threads m) (log m), Some r).

(** ** Goroutines *)

(** What the outside gives a step: the time, the factory's answer, the next
    transport event ([None]: the channel closed), or how Close's wait ended. *)
Inductive env :=
  | NoEnv
  | Now (t : Z)
  | Factory (ok : bool)
  | Transport (ev : option Event)
  | JoinTimeout (b : bool)
  | WriteOk (b : bool).

Definition emit_status (ev : option StatusEvent) (k : thread) : thread :=
  match ev with Some ev => Emit (StatusHook ev) k | None => k end.

(** One step of one goroutine: the manager, where the goroutine is next, and
    the goroutine it starts. [None]: it cannot move with that input. *)

(** Create. *)
Definition create_step (m : Manager) (th : thread) (e : env) : option (Manager * thread * option thread) :=
  let ret m th := Some (m, th, None) in
  match th with
  | CreateStart ep expected tr sid =>
      match e with
      | Now now =>
          if negb (bool_decide (ep_AccountID ep = expected)) then ret m (Emit CreateFailed Done)
          else match register m now ep tr sid with
               | (m', None) => ret m' (Emit CreateFailed Done)
               | (m', Some r) => ret (add_log m' (Registered sid)) (CreateFactory r)
               end
      | _ => None
      end
  | CreateFactory r =>
      match e with Factory ok => ret m (CreateAdopt r ok) | _ => None end
  | CreateAdopt r ok =>
      match heap m !! r with
      | None => None
      | Some g =>
          let aborted := negb (bool_decide (status_of g = StatusOpening)) in
          let m' := upd m r (fun g => adopt g (if ok && negb aborted then true else transport g)) in
          ret m' (if negb ok then CreateFailStatus r
                  else if aborted then Emit (TransportClose r) (CreateAbortStatus r)
                  else CreateOpen r)
      end
  | CreateFailStatus r =>
      let '(m', ev) := setStatus m r StatusClosed CloseTransportError in
      ret m' (emit_status ev (CreateRemove r))
  | CreateAbortStatus r =>
      let '(m', ev) := setStatus m r StatusClosed NoReason in
      ret m' (emit_status ev (CreateRemove r))
  | CreateRemove r =>
      match heap m !! r with
      | None => None
      | Some g =>
          let sid := SessionID (session g) in
          let '(m', did) := removeEntry m sid in
          ret m' (if did then Emit (RemovedHook sid) (Emit CreateFailed Done) else Emit CreateFailed Done)
      end
  | CreateOpen r =>
      let '(m', ev) := setStatus m r StatusOpen NoReason in
      ret m' (emit_status ev (CreateSnapshot r))
  | CreateSnapshot r =>
      match heap m !! r with
      | None => None
      | Some g => Some (m, Emit (Created (session g)) Done, Some (Pump r))
      end
  | _ => None
  end.

(** Close. *)
Definition close_step (m : Manager) (th : thread) (e : env) : option (Manager * thread * option thread) :=
  let ret m th := Some (m, th, None) in
  match th with
  | CloseStart sid reason =>
      match get m sid with
      | None => ret m Done
      | Some r => ret m (CloseBegin r sid reason)
      end
  | CloseBegin r sid reason =>
      match beginClosing m r reason with
      | (m', None) => ret m' Done
      | (m', Some ev) => ret m' (Emit (StatusHook ev) (CloseRead r sid reason))
      end
  | CloseRead r sid reason =>
      match heap m !! r with
      | None => None
      | Some g =>
          if negb (transport g) then
            ret m (if cancelSetup g then Emit (SetupCancelled r) Done else Done)
          else ret m (Emit (TransportClose r) (CloseJoin r sid reason))
      end
  | CloseJoin r sid reason =>
      match heap m !! r, e with
      | Some g, JoinTimeout false =>
          if pumpDone g then ret m (CloseStatus r sid reason) else None
      | Some g, JoinTimeout true => ret (upd m r set_abandoned) (CloseStatus r sid reason)
      | _, _ => None
      end
  | CloseStatus r sid reason =>
      let '(m', ev) := setStatus m r StatusClosed reason in
      ret m' (emit_status ev (CloseRemove sid))
  | CloseRemove sid =>
      let '(m', did) := removeEntry m sid in
      ret m' (if did then Emit (RemovedHook sid) Done else Done)
  | _ => None
  end.

(** The pump. *)
Definition pump_step (m : Manager) (th : thread) (e : env) : option (Manager * thread * option thread) :=
  let ret m th := Some (m, th, None) in
  match th with
  | Pump r =>
      match e with
      | Transport (Some EvErr) => ret m (PumpReason r StatusError CloseTransportError)
      | Transport (Some EvClosed) => ret m (PumpReason r StatusClosed CloseServerHangup)
      | Transport None => ret m (PumpReason r StatusClosed CloseServerHangup)
      | Transport (Some (EvData data)) =>
          match heap m !! r with
          | None => None
          | Some g => ret m (if abandoned g then Pump r else PumpAppend r data)
          end
      | _ => None
      end
  | PumpAppend r data =>
      ret (upd m r (fun g => set_output g (Append (output g) data))) (PumpActivity r)
  | PumpActivity r =>
      match heap m !! r, e with
      | Some g, Now now =>
          ret (upd m r (fun g => set_session g (set_activity (session g) now)))
            (Emit (OutputHook (SessionID (session g)) (CurrentOffset (output g))) (Pump r))
      | _, _ => None
      end
  | PumpReason r st fallback => ret m (PumpStatus r st (reasonOr m r fallback))
  | PumpStatus r st reason =>
      let '(m', ev) := setStatus m r st reason in ret m' (emit_status ev (PumpExit r))
  | PumpExit r => ret (upd m r set_pumpDone) Done
  | _ => None
  end.

(** SendInput. *)
Definition input_step (m : Manager) (th : thread) (e : env) : option (Manager * thread * option thread) :=
  let ret m th := Some (m, th, None) in
  match th with
  | InputStart sid input =>
      match get m sid with
      | None => ret m Done
      | Some r => ret m (InputWrite r input)
      end
  | InputWrite r input =>
      match heap m !! r, e with
      | Some g, WriteOk ok =>
          if bool_decide (status_of g = StatusOpen)
          then ret m (Emit (TransportWrite r input) (if ok then InputActivity r else Done))
          else ret m Done
      | _, _ => None
      end
  | InputActivity r =>
      match e with
      | Now now => ret (upd m r (fun g => set_session g (set_activity (session g) now))) Done
      | _ => None
      end
  | _ => None
  end.

Definition run_thread (m : Manager) (th : thread) (e : env) : option (Manager * thread * option thread) :=
  match th with
  | Done => None
  | Emit o k => Some (add_log m o, k, None)
  | CreateStart _ _ _ _ | CreateFactory _ | CreateAdopt _ _ | CreateFailStatus _
  | CreateAbortStatus _ | CreateRemove _ | CreateOpen _ | CreateSnapshot _ => create_step m th e
  | CloseStart _ _ | CloseBegin _ _ _ | CloseRead _ _ _ | CloseJoin _ _ _
  | CloseStatus _ _ _ | CloseRemove _ => close_step m th e
  | Pump _ | PumpAppend _ _ | PumpActivity _ | PumpReason _ _ _
  | PumpStatus _ _ _ | PumpExit _ => pump_step m th e
  | InputStart _ _ | InputWrite _ _ | InputActivity _ => input_step m th e
  end.

(** ** The requests that sweep the registry *)

Definition sessions (m : Manager) : list (string * managed) :=
  omap (fun x => g ← heap m !! snd x; Some (fst x, g)) (map_to_list (terminals m)).

Definition ids_where (m : Manager) (p : managed -> bool) : list string :=
  map fst (List.filter (fun x => p (snd x)) (sessions m)).

Definition spawn (m : Manager) (ts : list thread) : Manager := with_threads m (threads m ++ ts).

Definition closeAll (m : Manager) (ids : list string) (reason : CloseReason) : Manager :=
  spawn m (map (fun id => CloseStart id reason) ids).

Definition SweepIdle (m : Manager) (now : Z) : Manager :=
  if idleTimeout m <=? 0 then m
  else closeAll m (ids_where m (fun g =>
         bool_decide (status_of g = StatusOpen) && (now - LastActivityAt (session g) >? idleTimeout m)))
         CloseIdleTimeout.

Definition not_closed (g : managed) : bool := negb (bool_decide (status_of g = StatusClosed)).
Definition of_account (acc : string) (g : managed) : bool := bool_decide (AccountID (session g) = acc).

Definition CloseAllForAccount (m : Manager) (acc : string) (reason : CloseReason) : Manager * Z :=
  let ids := ids_where m (fun g => of_account acc g && not_closed g) in
  (closeAll m ids reason, zlen ids).

Definition CloseAllForClient (m : Manager) (acc client : string) (reason : CloseReason) : Manager * Z :=
  let ids := ids_where m (fun g =>
    of_account acc g && bool_decide (s_Source (session g) = SourceMCP) && not_closed g
    && (bool_decide (client = EmptyString) || bool_decide (OwnerClientID (session g) = client))) in
  (closeAll m ids reason, zlen ids).

(** RemoveForAccount: the deletions in one critical section, then the hooks. *)
Definition dead (g : managed) : bool :=
  bool_decide (status_of g = StatusClosed) || bool_decide (status_of g = StatusError).

Definition remove_ids (m : Manager) (ids : list string) : Manager :=
  fold_left (fun m id => fst (removeEntry m id)) ids m.

Definition RemoveForAccount (m : Manager) (acc : string) : Manager * Z :=
  let ids := ids_where m (fun g => of_account acc g && dead g) in
  (spawn (remove_ids m ids) [foldr (fun id k => Emit (RemovedHook id) k) Done ids], zlen ids).

Definition Destroy (m : Manager) : Manager :=
  let m := with_destroyed m in
  closeAll m (map fst (map_to_list (terminals m))) CloseShutdown.

(** Reads. *)
Definition ListSessions (m : Manager) : list Session :=
  map (fun x => session (snd x)) (List.filter (fun x => not_closed (snd x)) (sessions m)).

Definition ListForAccount (m : Manager) (acc : string) : list Session :=
  map (fun x => session (snd x)) (List.filter (fun x => of_account acc (snd x) && not_closed (snd x)) (sessions m)).

Definition CountOpenForAccount (m : Manager) (acc : string) : Z :=
  zlen (ids_where m (fun g => of_account acc g && bool_decide (status_of g = StatusOpen))).

Definition EndpointIDsForAccount (m : Manager) (acc : string) : list string :=
  map EndpointID (ListForAccount m acc).

Definition lookup_session (m : Manager) (sid : string) : option managed := r ← get m sid; heap m !! r.

Definition GetSession (m : Manager) (sid : string) : option Session := session <$> lookup_session m sid.

(** The outer [None] is "not found"; the inner one is the buffer's panic. *)
Definition ReadOutput (m : Manager) (sid : string) (afterOffset limit : Z) : option (option ReadResult) :=
  (fun g => Read (output g) afterOffset limit) <$> lookup_session m sid.

Definition ReadOutputFrom (m : Manager) (sid : string) (afterOffset : option Z) : option FromResult :=
  (fun g => ReadFrom (output g) afterOffset) <$> lookup_session m sid.

Definition ReadOutputTail (m : Manager) (sid : string) (limit : Z) : list byte :=
  match lookup_session m sid with Some g => Tail (output g) limit | None => [] end.

Definition OutputOffset (m : Manager) (sid : string) : option Z :=
  (fun g => CurrentOffset (output g)) <$> lookup_session m sid.

(** Resize: whether the transport is asked. *)
Definition Resize (m : Manager) (sid : string) : bool :=
  match lookup_session m sid with Some g => transport g | None => false end.

(** ** The whole system *)

Inductive label :=
  | LCreate (ep : EndpointRef) (expected : string) (tr : Trigger) (sid : string)
  | LClose (sid : string) (reason : CloseReason)
  | LInput (sid : string) (input : list byte)
  | LSweepIdle (now : Z)
  | LCloseAllForAccount (acc : string) (reason : CloseReason)
  | LCloseAllForClient (acc client : string) (reason : CloseReason)
  | LRemoveForAccount (acc : string)
  | LSetIdleTimeout (d : Z)
  | LDestroy
  | LRun (tid : nat) (e : env).

Definition run_tid (m : Manager) (tid : nat) (e : env) : Manager :=
  match threads m !! tid with
  | None => m
  | Some th =>
      match run_thread m th e with
      | None => m
      | Some (m', th', new) =>
          with_threads m' (<[tid := th']> (threads m') ++ match new with Some t => [t] | None => [] end)
      end
  end.

Definition step (m : Manager) (l : label) : Manager :=
  match l with
  | LCreate ep expected tr sid => spawn m [CreateStart ep expected tr sid]
  | LClose sid reason => spawn m [CloseStart sid reason]
  | LInput sid input => spawn m [InputStart sid input]
  | LSweepIdle now => SweepIdle m now
  | LCloseAllForAccount acc reason => fst (CloseAllForAccount m acc reason)
  | LCloseAllForClient acc client reason => fst (CloseAllForClient m acc client reason)
  | LRemoveForAccount acc => fst (RemoveForAccount m acc)
  | LSetIdleTimeout d => SetIdleTimeout m d
  | LDestroy => Destroy m
  | LRun tid e => run_tid m tid e
  end.

Definition run (max : Z) (ls : list label) : Manager := fold_left step ls (NewManager max).

(** ** How a session may change *)

(** Live: still on its way up, or up. *)
Definition live (st : Status) : Prop := st = StatusOpening \/ st = StatusOpen.

(** A later state of the same session: its identity and owner, its transport
    and the reason of its end stay; a status once left is not entered again. *)
Record later (g g' : managed) : Prop := {
  later_id : SessionID (session g') = SessionID (session g);
  later_ep : EndpointID (session g') = EndpointID (session g);
  later_account : AccountID (session g') = AccountID (session g);
  later_source : s_Source (session g') = s_Source (session g);
  later_owner : OwnerClientID (session g') = OwnerClientID (session g);
  later_created : CreatedAt (session g') = CreatedAt (session g);
  later_reason : s_CloseReason (session g) <> NoReason ->
    s_CloseReason (session g') = s_CloseReason (session g);
  later_transport : transport g = true -> transport g' = true;
  later_closed : status_of g = StatusClosed -> status_of g' = StatusClosed;
  later_opening : status_of g' = StatusOpening -> status_of g = StatusOpening;
  later_live : live (status_of g') -> live (status_of g)
}.

#[export] Instance later_preorder : PreOrder later.
Proof.
  split; [intros g; by constructor|].
  intros a b c Hab Hbc. destruct Hab, Hbc. constructor; try congruence; auto.
  intros Hr. rewrite <- (later_reason0 Hr). apply later_reason1. by rewrite later_reason0.
Qed.

Lemma later_transition g st reason :
  absorbed (status_of g) st = false \/ (st = StatusClosing /\ status_of g <> StatusClosed) ->
  st <> StatusOpening -> (st = StatusOpen -> status_of g = StatusOpening) ->
  later g (fst (transition g st reason)).
Proof.
  intros Ha Hst Hopen. constructor; try done.
  - simpl. unfold stamp. intros Hr. by rewrite (bool_decide_false (s_CloseReason (session g) = NoReason)), andb_false_r.
  - change (status_of (fst (transition g st reason))) with st. intros Hc. exfalso.
    destruct Ha as [Ha|[_ Ha]]; [|done]. unfold absorbed in Ha. rewrite Hc in Ha.
    by rewrite (bool_decide_true (StatusClosed = StatusClosed)), !orb_true_r in Ha.
  - intros [Hc|Hc]; change (status_of (fst (transition g st reason))) with st in Hc; [done|].
    left. by apply Hopen.
Qed.

Lemma absorbed_open prev : absorbed prev StatusOpen = false -> prev = StatusOpening.
Proof. by destruct prev. Qed.

(** The heap after some steps: nothing disappears, and everything that was
    there is later. *)
Definition heap_later (h h' : gmap nat managed) : Prop :=
  forall r g, h !! r = Some g -> exists g', h' !! r = Some g' /\ later g g'.

#[export] Instance heap_later_preorder : PreOrder heap_later.
Proof.
  split; [intros h r g Hg; by exists g|]. intros a b c Hab Hbc r g Hg.
  destruct (Hab r g Hg) as (g1 & H1 & L1). destruct (Hbc r g1 H1) as (g2 & H2 & L2).
  exists g2. split; [done|]. by etrans.
Qed.

Lemma heap_later_refl h : heap_later h h.
Proof. done. Qed.

Lemma heap_later_upd h r (f : managed -> managed) :
  (forall g, h !! r = Some g -> later g (f g)) -> heap_later h (alter f r h).
Proof.
  intros Hf i g Hg. destruct (decide (r = i)) as [->|Hne].
  - rewrite lookup_alter_eq, Hg. eexists. split; [done|]. by apply Hf.
  - rewrite lookup_alter_ne by done. by exists g.
Qed.

Lemma later_output g b : later g (set_output g b).
Proof. by constructor. Qed.
Lemma later_pumpDone g : later g (set_pumpDone g).
Proof. by constructor. Qed.
Lemma later_abandoned g : later g (set_abandoned g).
Proof. by constructor. Qed.
Lemma later_activity g now : later g (set_session g (set_activity (session g) now)).
Proof. by constructor. Qed.
Lemma later_adopt g (b : bool) : later g (adopt g (if b then true else transport g)).
Proof. constructor; try done. simpl. by intros ->; destruct b. Qed.

#[export] Hint Resolve heap_later_refl later_output later_pumpDone later_abandoned later_activity
  later_adopt : sw.

Lemma setStatus_later m r st reason m' ev :
  setStatus m r st reason = (m', ev) -> st <> StatusOpening -> heap_later (heap m) (heap m').
Proof.
  unfold setStatus. destruct (heap m !! r) as [g|] eqn:E; [|intros; simplify_eq; apply heap_later_refl].
  destruct (absorbed (status_of g) st) eqn:Ea; intros; simplify_eq/=; [apply heap_later_refl|].
  apply heap_later_upd. intros g' Hg'. simplify_eq.
  apply (later_transition g st reason); [by left|done|]. intros ->. by apply absorbed_open.
Qed.

Lemma beginClosing_later m r reason m' ev :
  beginClosing m r reason = (m', ev) -> heap_later (heap m) (heap m').
Proof.
  unfold beginClosing. destruct (heap m !! r) as [g|] eqn:E; [|intros; simplify_eq; apply heap_later_refl].
  destruct (bool_decide (status_of g = StatusClosed) || _) eqn:Ea;
    intros; simplify_eq/=; [apply heap_later_refl|].
  bool_to_prop. apply heap_later_upd. intros g' Hg'. simplify_eq.
  by apply (later_transition g StatusClosing reason); [right|..].
Qed.

Lemma removeEntry_later m sid m' did :
  removeEntry m sid = (m', did) -> heap_later (heap m) (heap m').
Proof.
  unfold removeEntry. destruct (terminals m !! sid) as [r|]; intros; simplify_eq/=;
    [apply heap_later_upd; auto with sw|apply heap_later_refl].
Qed.

Definition wf_refs (m : Manager) : Prop := forall r, is_Some (heap m !! r) -> (r < next_ref m)%nat.

Lemma register_later m now ep tr sid m' r :
  wf_refs m -> register m now ep tr sid = (m', r) -> heap_later (heap m) (heap m').
Proof.
  unfold register. intros Hwf. destruct (destroyed m); intros; simplify_eq/=; [apply heap_later_refl|].
  intros i g Hg. destruct (decide (next_ref m = i)) as [<-|Hne].
  - assert (next_ref m < next_ref m)%nat by (apply Hwf; by rewrite Hg). lia.
  - rewrite lookup_insert_ne by done. by exists g.
Qed.

(** A step that finds its goroutine where it can move. *)
Ltac run_cases :=
  repeat match goal with
  | H : context [match ?x with _ => _ end] |- _ =>
      lazymatch x with
      | context [match _ with _ => _ end] => fail
      | _ => let E := fresh "E" in destruct x eqn:E; try discriminate H
      end
  end.

(** A thread that is about to set a status never sets it to opening. *)
Fixpoint good_thread (th : thread) : Prop :=
  match th with
  | Emit _ k => good_thread k
  | PumpReason _ st _ | PumpStatus _ st _ => st = StatusClosed \/ st = StatusError
  | _ => True
  end.

Lemma run_thread_later m th e m' th' new :
  wf_refs m -> good_thread th -> run_thread m th e = Some (m', th', new) ->
  heap_later (heap m) (heap m').
Proof.
  intros Hwf Hth H. unfold run_thread, create_step, close_step, pump_step, input_step in H.
  destruct th; run_cases; simplify_eq/=; auto with sw;
    try (by eapply setStatus_later; [eassumption|]);
    try (by eapply beginClosing_later); try (by eapply removeEntry_later);
    try (by eapply register_later);
    try (by apply heap_later_upd; intros; auto with sw).
  - eapply setStatus_later; [eassumption|]. by destruct Hth as [->| ->].
Qed.

(** ** What a step leaves alone *)

Lemma upd_refs m r f : wf_refs m -> wf_refs (upd m r f).
Proof.
  intros Hwf i. simpl. destruct (decide (r = i)) as [->|Hne].
  - rewrite lookup_alter_eq, fmap_is_Some. apply Hwf.
  - rewrite lookup_alter_ne by done. apply Hwf.
Qed.

(** The parts of the manager a critical section on one session cannot touch. *)
Definition frame (m m' : Manager) : Prop :=
  threads m' = threads m /\ destroyed m' = destroyed m /\ (wf_refs m -> wf_refs m').

Lemma frame_refl m : frame m m.
Proof. done. Qed.
Lemma frame_upd m r f : frame m (upd m r f).
Proof. split; [done|]. split; [done|]. apply upd_refs. Qed.
Lemma frame_log m o : frame m (add_log m o).
Proof. done. Qed.
#[export] Hint Resolve frame_refl frame_upd frame_log : sw.

Lemma setStatus_frame m r st reason m' ev :
  setStatus m r st reason = (m', ev) -> frame m m' /\ terminals m' = terminals m /\ log m' = log m.
Proof.
  unfold setStatus. destruct (heap m !! r); [|by intros; simplify_eq].
  destruct (absorbed _ _); intros; simplify_eq/=; auto with sw.
Qed.

Lemma beginClosing_frame m r reason m' ev :
  beginClosing m r reason = (m', ev) -> frame m m' /\ terminals m' = terminals m /\ log m' = log m.
Proof.
  unfold beginClosing. destruct (heap m !! r); [|by intros; simplify_eq].
  destruct (_ || _); intros; simplify_eq/=; auto with sw.
Qed.

Lemma removeEntry_frame m sid m' did :
  removeEntry m sid = (m', did) ->
  frame m m' /\ log m' = log m /\ terminals m' = delete sid (terminals m) /\
  (did = true <-> is_Some (terminals m !! sid)).
Proof.
  unfold removeEntry. destruct (terminals m !! sid) as [r|] eqn:E; intros; simplify_eq/=.
  - split; [|by eauto]. split; [done|]. split; [done|]. apply (upd_refs m).
  - rewrite delete_id by done. split; [done|]. split; [done|]. split; [done|].
    split; [done|]. intros [? ?]; congruence.
Qed.

Lemma register_frame m now ep tr sid m' r :
  register m now ep tr sid = (m', r) ->
  frame m m' /\ log m' = log m /\
  match r with
  | None => m' = m /\ destroyed m = true
  | Some r => destroyed m = false /\ terminals m' = <[sid := r]> (terminals m)
  end.
Proof.
  unfold register. destruct (destroyed m) eqn:E; intros; simplify_eq/=; [done|].
  split; [|done]. split; [done|]. split; [done|]. intros Hwf i. simpl.
  destruct (decide (next_ref m = i)) as [<-|Hne]; [lia|]. rewrite lookup_insert_ne by done.
  intros Hi%Hwf. lia.
Qed.

Lemma good_emit ev k : good_thread k -> good_thread (emit_status ev k).
Proof. by destruct ev. Qed.

Lemma run_thread_frame m th e m' th' new :
  good_thread th -> run_thread m th e = Some (m', th', new) ->
  frame m m' /\ good_thread th' /\ match new with Some t => good_thread t | None => True end.
Proof.
  intros Hth H. unfold run_thread, create_step, close_step, pump_step, input_step in H.
  destruct th; run_cases; simplify_eq/=; auto with sw;
    repeat match goal with
      | E : setStatus _ _ _ _ = _ |- _ => apply setStatus_frame in E as (? & _)
      | E : beginClosing _ _ _ = _ |- _ => apply beginClosing_frame in E as (? & _)
      | E : removeEntry _ _ = _ |- _ => apply removeEntry_frame in E as (? & _)
      | E : register _ _ _ _ _ = _ |- _ => apply register_frame in E as (? & _)
      end; auto using good_emit with sw.
  all: try (split; [done|]; split; [apply good_emit|]; done).
Qed.

Lemma remove_ids_frame ids m :
  frame m (remove_ids m ids) /\ log (remove_ids m ids) = log m /\
  heap_later (heap m) (heap (remove_ids m ids)) /\
  forall sid, terminals (remove_ids m ids) !! sid = if decide (sid ∈ ids) then None else terminals m !! sid.
Proof.
  unfold remove_ids. revert m. induction ids as [|id ids IH]; intros m; simpl; [auto with sw|].
  destruct (removeEntry m id) as [m1 did] eqn:E. simpl.
  pose proof (removeEntry_later _ _ _ _ E) as Hl.
  apply removeEntry_frame in E as ((Ht & Hd & Hw) & Hlog & Hterm & _).
  destruct (IH m1) as ((Ht' & Hd' & Hw') & Hlog' & Hl' & Hterm').
  split; [split; [congruence|]; split; [congruence|]; auto|]. split; [congruence|].
  split; [by etrans|]. intros sid. rewrite Hterm', Hterm.
  destruct (decide (sid ∈ id :: ids)) as [Hi|Hi], (decide (sid ∈ ids)) as [Hi2|Hi2]; try done.
  - apply elem_of_cons in Hi as [->|?]; [by rewrite lookup_delete_eq|done].
  - exfalso. apply Hi. by right.
  - rewrite lookup_delete_ne; [done|]. intros ->. apply Hi. by left.
Qed.

(** ** Invariants of every reachable manager *)

Definition inv (m : Manager) : Prop := wf_refs m /\ Forall good_thread (threads m).

Lemma good_closeAll ids reason : Forall good_thread (map (fun id => CloseStart id reason) ids).
Proof. induction ids; by constructor. Qed.

Lemma good_hooks ids : good_thread (foldr (fun id k => Emit (RemovedHook id) k) Done ids).
Proof. by induction ids. Qed.

Lemma inv_spawn m ts : inv m -> Forall good_thread ts -> inv (spawn m ts).
Proof. intros [? ?] ?. split; [done|]. simpl. by apply Forall_app. Qed.

Lemma manager_step_inv m l : inv m -> inv (step m l) /\ heap_later (heap m) (heap (step m l)).
Proof.
  intros Hinv. destruct l; simpl; try (split; [apply inv_spawn; [done|by repeat constructor]|done]).
  - unfold SweepIdle. destruct (_ <=? _); [done|].
    split; [apply inv_spawn; [done|apply good_closeAll]|done].
  - split; [apply inv_spawn; [done|apply good_closeAll]|done].
  - split; [apply inv_spawn; [done|apply good_closeAll]|done].
  - unfold RemoveForAccount. simpl.
    destruct (remove_ids_frame (ids_where m (fun g => of_account acc g && dead g)) m)
      as ((Ht & _ & Hw) & _ & Hl & _).
    split; [|done]. apply inv_spawn.
    + destruct Hinv as [? Hg]. split; [auto|]. by rewrite Ht.
    + constructor; [apply good_hooks|done].
  - done.
  - unfold Destroy. split; [|done]. apply (inv_spawn (with_destroyed m)); [done|apply good_closeAll].
  - unfold run_tid. destruct (threads m !! tid) as [th|] eqn:Eth; [|done].
    destruct Hinv as [Hwf Hgood].
    assert (Hth : good_thread th) by (rewrite Forall_lookup in Hgood; eauto).
    destruct (run_thread m th e) as [[[m' th'] new]|] eqn:E; [|done].
    destruct (run_thread_frame _ _ _ _ _ _ Hth E) as ((Ht & _ & Hw) & Hth' & Hnew).
    split; [|exact (run_thread_later _ _ _ _ _ _ Hwf Hth E)]. split; [simpl; auto|]. simpl. apply Forall_app. split.
    + rewrite Ht. by apply Forall_insert.
    + destruct new; by repeat constructor.
Qed.

Lemma inv_new max : inv (NewManager max).
Proof. split; [|done]. intros r [g Hg]. simpl in Hg. by rewrite lookup_empty in Hg. Qed.

Lemma run_snoc max ls l : run max (ls ++ [l]) = step (run max ls) l.
Proof. unfold run. by rewrite fold_left_app. Qed.

Lemma manager_run_inv max ls : inv (run max ls).
Proof.
  induction ls as [|l ls IH] using rev_ind; [apply inv_new|]. rewrite run_snoc. by apply manager_step_inv.
Qed.

Lemma run_later max ls1 ls2 : heap_later (heap (run max ls1)) (heap (run max (ls1 ++ ls2))).
Proof.
  induction ls2 as [|l ls2 IH] using rev_ind; [by rewrite app_nil_r|].
  rewrite app_assoc, run_snoc. etrans; [exact IH|]. by apply manager_step_inv, manager_run_inv.
Qed.

(** Steps that add requests, and the ones that run a goroutine. *)
Lemma run_tid_cases m tid e :
  run_tid m tid e = m \/
  exists th m' th' new, threads m !! tid = Some th /\ run_thread m th e = Some (m', th', new) /\
    run_tid m tid e =
      with_threads m' (<[tid := th']> (threads m') ++ match new with Some t => [t] | None => [] end).
Proof.
  unfold run_tid. destruct (threads m !! tid) as [th|]; [|by left].
  destruct (run_thread m th e) as [[[m' th'] new]|] eqn:E; [|by left]. right. by exists th, m', th', new.
Qed.

(** *** The registry after shutdown *)

Lemma run_thread_terminals m th e m' th' new :
  run_thread m th e = Some (m', th', new) ->
  (exists ep ex tr sid now, th = CreateStart ep ex tr sid /\ e = Now now /\ destroyed m = false /\
     terminals m' = <[sid := next_ref m]> (terminals m) /\ destroyed m' = false /\
     heap m' !! next_ref m = Some (mkManaged (new_session now ep tr sid) false
       (NewOutputBuffer (maxBufferSize m)) false false true) /\
     (forall r, r <> next_ref m -> heap m' !! r = heap m !! r) /\
     ep_AccountID ep = ex /\ th' = CreateFactory (next_ref m) /\ new = None /\
     log m' = log m ++ [Registered sid]) \/
  ((exists sid, terminals m' = delete sid (terminals m)) /\ destroyed m' = destroyed m /\
   (forall r, is_Some (heap m' !! r) <-> is_Some (heap m !! r))) \/
  (terminals m' = terminals m /\ destroyed m' = destroyed m /\
   (forall r, is_Some (heap m' !! r) <-> is_Some (heap m !! r))).
Proof.
  assert (Hupd : forall m r f i, is_Some (heap (upd m r f) !! i) <-> is_Some (heap m !! i)).
  { intros m0 r f i. simpl. destruct (decide (r = i)) as [->|];
      [by rewrite lookup_alter_eq, fmap_is_Some|by rewrite lookup_alter_ne]. }
  assert (Hset : forall m r st reason m' ev, setStatus m r st reason = (m', ev) ->
    terminals m' = terminals m /\ destroyed m' = destroyed m /\
    (forall r, is_Some (heap m' !! r) <-> is_Some (heap m !! r))).
  { intros m0 r st reason m1 ev. unfold setStatus. destruct (heap m0 !! r); [|by intros; simplify_eq].
    destruct (absorbed _ _); intros; simplify_eq/=; (split; [done|]; split; [done|]; first [done|apply (Hupd m0)]). }
  assert (Hbeg : forall m r reason m' ev, beginClosing m r reason = (m', ev) ->
    terminals m' = terminals m /\ destroyed m' = destroyed m /\
    (forall r, is_Some (heap m' !! r) <-> is_Some (heap m !! r))).
  { intros m0 r reason m1 ev. unfold beginClosing. destruct (heap m0 !! r); [|by intros; simplify_eq].
    destruct (_ || _); intros; simplify_eq/=; (split; [done|]; split; [done|]; first [done|apply (Hupd m0)]). }
  assert (Hrem : forall m sid m' did, removeEntry m sid = (m', did) ->
    (exists sid, terminals m' = delete sid (terminals m)) /\ destroyed m' = destroyed m /\
    (forall r, is_Some (heap m' !! r) <-> is_Some (heap m !! r))).
  { intros m0 sid m1 did. unfold removeEntry. destruct (terminals m0 !! sid) eqn:E; intros; simplify_eq/=.
    - split; [by exists sid|]. split; [done|]. apply (Hupd m0).
    - split; [|done]. exists sid. by rewrite delete_id. }
  intros H. unfold run_thread, create_step, close_step, pump_step, input_step in H.
  destruct th; run_cases; simplify_eq/=; eauto;
    try (right; right; split; [done|]; split; [done|]; apply (Hupd m));
    try (right; right; by eapply Hset); try (right; right; by eapply Hbeg);
    try (right; left; by eapply Hrem).
  - unfold register in *. destruct (destroyed m) eqn:Ed; simplify_eq/=. left.
    bool_to_prop. eexists _, _, _, _, _. split; [done|]. split; [done|]. split; [done|].
    split; [done|]. split; [done|]. rewrite lookup_insert_eq. split; [done|].
    split; [intros; by rewrite lookup_insert_ne|]. done.
  - unfold register in *. destruct (destroyed m) eqn:Ed; simplify_eq/=. eauto.
Qed.

Lemma step_destroyed m l :
  destroyed m = true -> destroyed (step m l) = true /\ terminals (step m l) ⊆ terminals m.
Proof.
  intros Hd. destruct l; simpl; try done.
  - unfold SweepIdle. destruct (_ <=? _); [done|]. done.
  - unfold RemoveForAccount. simpl.
    destruct (remove_ids_frame (ids_where m (fun g => of_account acc g && dead g)) m)
      as ((_ & Hd' & _) & _ & _ & Ht).
    split; [congruence|]. apply map_subseteq_spec. intros sid r. rewrite Ht. by case_decide.
  - destruct (run_tid_cases m tid e) as [->|(th & m' & th' & new & _ & E & ->)]; [done|]. simpl.
    destruct (run_thread_terminals _ _ _ _ _ _ E) as [(ep & ex & tr & sid & now & _ & _ & Hd' & _)
      |[((sid & ->) & -> & _)|(-> & -> & _)]]; [congruence| |done].
    split; [done|]. apply delete_subseteq.
Qed.

(** *** Who is registered *)

Definition registered_by (ls : list label) (g : managed) : Prop :=
  exists ep ex tr, LCreate ep ex tr (SessionID (session g)) ∈ ls /\ ep_AccountID ep = ex /\
    AccountID (session g) = ex /\ EndpointID (session g) = ep_ID ep /\
    s_Source (session g) = tr_Kind tr /\
    OwnerClientID (session g) = if decide (tr_Kind tr = SourceMCP) then tr_OwnerClientID tr else EmptyString.

Lemma registered_by_later ls g g' : later g g' -> registered_by ls g -> registered_by ls g'.
Proof.
  intros [] (ep & ex & tr & Hin & He & Ha & Hep & Hs & Ho). exists ep, ex, tr.
  rewrite later_id0, later_account0, later_ep0, later_source0, later_owner0. done.
Qed.

Lemma registered_by_more ls l g : registered_by ls g -> registered_by (ls ++ [l]) g.
Proof. intros (ep & ex & tr & Hin & H). exists ep, ex, tr. rewrite elem_of_app. auto. Qed.

(** Creations under way come from requests; every session object comes from a
    request whose endpoint is the requesting account's; the registry points to
    objects of the right id. *)
Definition origins (ls : list label) (m : Manager) : Prop :=
  (forall i ep ex tr sid, threads m !! i = Some (CreateStart ep ex tr sid) -> LCreate ep ex tr sid ∈ ls) /\
  (forall r g, heap m !! r = Some g -> registered_by ls g) /\
  (forall sid r, terminals m !! sid = Some r -> exists g, heap m !! r = Some g /\ SessionID (session g) = sid).

(** A goroutine never turns into the start of a creation. *)
Fixpoint no_create (th : thread) : Prop :=
  match th with
  | Emit _ k => no_create k
  | CreateStart _ _ _ _ => False
  | _ => True
  end.

Definition top_create (th : thread) : Prop :=
  match th with CreateStart _ _ _ _ => True | _ => no_create th end.

Lemma no_create_emit ev k : no_create k -> no_create (emit_status ev k).
Proof. by destruct ev. Qed.

Lemma run_thread_no_create m th e m' th' new :
  top_create th -> run_thread m th e = Some (m', th', new) ->
  no_create th' /\ match new with Some t => no_create t | None => True end.
Proof.
  intros Hth H. unfold run_thread, create_step, close_step, pump_step, input_step in H.
  destruct th; run_cases; simplify_eq/=; auto using no_create_emit.
  all: by split; [apply no_create_emit|].
Qed.

Definition inv_create (m : Manager) : Prop := Forall top_create (threads m).

Lemma top_of_no_create th : no_create th -> top_create th.
Proof. by destruct th. Qed.

Lemma no_create_closeAll ids reason : Forall no_create (map (fun id => CloseStart id reason) ids).
Proof. induction ids; by constructor. Qed.

Lemma no_create_hooks ids : no_create (foldr (fun id k => Emit (RemovedHook id) k) Done ids).
Proof. by induction ids. Qed.

(** The requests a label adds: none of them is half-way through. *)
Fixpoint core (th : thread) : thread := match th with Emit _ k => core k | _ => th end.

Definition at_start (th : thread) : Prop :=
  match core th with CreateStart _ _ _ _ | CloseStart _ _ | InputStart _ _ | Done => True | _ => False end.

Lemma at_start_closeAll ids reason : Forall at_start (map (fun id => CloseStart id reason) ids).
Proof. induction ids; by constructor. Qed.

Lemma at_start_hooks ids : at_start (foldr (fun id k => Emit (RemovedHook id) k) Done ids).
Proof. unfold at_start. by induction ids. Qed.

Lemma step_threads m l :
  (exists tid e, l = LRun tid e) \/
  exists ts, threads (step m l) = threads m ++ ts /\ Forall at_start ts /\
    (match l with
     | LCreate ep ex tr sid => ts = [CreateStart ep ex tr sid]
     | _ => Forall no_create ts
     end).
Proof.
  assert (Hca : forall ids reason, exists ts,
    threads m ++ map (fun id => CloseStart id reason) ids = threads m ++ ts /\ Forall at_start ts /\
    Forall no_create ts).
  { intros ids reason. eexists. split; [done|]. split; [apply at_start_closeAll|apply no_create_closeAll]. }
  assert (Hnil : exists ts, threads m = threads m ++ ts /\ Forall at_start ts /\ Forall no_create ts).
  { exists []. by rewrite app_nil_r. }
  destruct l; try (left; by eauto); right; simpl; try apply Hca; try done.
  - eexists. split; [done|]. by repeat constructor.
  - eexists. split; [done|]. by repeat constructor.
  - eexists. split; [done|]. by repeat constructor.
  - unfold SweepIdle. destruct (_ <=? _); [done|apply Hca].
  - unfold RemoveForAccount. simpl.
    destruct (remove_ids_frame (ids_where m (fun g => of_account acc g && dead g)) m) as ((-> & _) & _).
    eexists. split; [done|]. split; constructor; [apply at_start_hooks|done|apply no_create_hooks|done].
Qed.

Lemma run_thread_threads m th e m' th' new :
  good_thread th -> run_thread m th e = Some (m', th', new) -> threads m' = threads m.
Proof. intros Hth E. by destruct (run_thread_frame _ _ _ _ _ _ Hth E) as ((? & _) & _). Qed.

Lemma step_inv_create m l : inv m -> inv_create m -> inv_create (step m l).
Proof.
  intros Hinv Hc. unfold inv_create in *. destruct (step_threads m l) as [(tid & e & ->)|(ts & -> & _ & Hts)].
  - simpl. destruct (run_tid_cases m tid e) as [->|(th & m' & th' & new & Hth & E & ->)]; [done|]. simpl.
    assert (Htop : top_create th) by (rewrite Forall_lookup in Hc; eauto).
    destruct (run_thread_no_create _ _ _ _ _ _ Htop E) as [H' Hnew].
    pose proof (run_thread_threads _ _ _ _ _ _ (proj1 (Forall_lookup _ _) (proj2 Hinv) _ _ Hth) E) as Ht.
    rewrite Ht. apply Forall_app. split; [apply Forall_insert; [done|by apply top_of_no_create]|].
    destruct new; constructor; [by apply top_of_no_create|done].
  - apply Forall_app. split; [done|]. destruct l; try (by eapply Forall_impl; [exact Hts|apply top_of_no_create]).
    subst. by repeat constructor.
Qed.

Lemma run_inv_create max ls : inv_create (run max ls).
Proof.
  induction ls as [|l ls IH] using rev_ind; [by constructor|]. rewrite run_snoc.
  apply step_inv_create; [apply manager_run_inv|done].
Qed.

(** Outside of goroutines, the registry only loses entries and the heap keeps
    its objects. *)
Lemma step_request m l :
  (exists tid e, l = LRun tid e) \/
  (heap_later (heap m) (heap (step m l)) /\ terminals (step m l) ⊆ terminals m /\
   (forall r g', heap (step m l) !! r = Some g' ->
      exists g, heap m !! r = Some g /\ session g' = session g /\ transport g' = transport g) /\
   log (step m l) = log m).
Proof.
  destruct l; try (left; by eauto); right; simpl; try (by split_and!; eauto).
  - unfold SweepIdle. destruct (_ <=? _); by split_and!; eauto.
  - unfold RemoveForAccount. simpl. set (ids := ids_where _ _).
    destruct (remove_ids_frame ids m) as (_ & Hlog & Hl & Ht).
    split; [done|]. split; [|split; [|done]].
    + apply map_subseteq_spec. intros sid r. rewrite Ht. by case_decide.
    + clearbody ids. clear. unfold remove_ids. revert m.
      induction ids as [|id ids IH]; intros m r g'; simpl; [by eauto|].
      intros (g & Hg & Hs & Htr)%IH. revert Hg. unfold removeEntry.
      destruct (terminals m !! id) as [r'|]; simpl; [|by eauto].
      destruct (decide (r' = r)) as [->|]; [|rewrite lookup_alter_ne by done; by eauto].
      rewrite lookup_alter_eq. destruct (heap m !! r) as [g0|]; [|done]. intros; simplify_eq/=. by eauto.
Qed.

Lemma step_origins ls m l : inv m -> inv_create m -> origins ls m -> origins (ls ++ [l]) (step m l).
Proof.
  intros Hinv Hcr (Hth & Hheap & Hterm).
  destruct (manager_step_inv m l Hinv) as [_ Hlater].
  assert (Hnew : forall r g', heap (step m l) !! r = Some g' -> is_Some (heap m !! r) -> registered_by (ls ++ [l]) g').
  { intros r g' Hg' [g Hg]. destruct (Hlater r g Hg) as (g1 & Hg1 & Hl). simplify_eq.
    eapply registered_by_later; [exact Hl|]. apply registered_by_more, (Hheap r g Hg). }
  assert (Hkeep : forall sid r, terminals m !! sid = Some r ->
    exists g, heap (step m l) !! r = Some g /\ SessionID (session g) = sid).
  { intros sid r Hr. destruct (Hterm sid r Hr) as (g & Hg & Hid). destruct (Hlater r g Hg) as (g' & Hg' & Hl).
    exists g'. split; [done|]. destruct Hl. congruence. }
  split; [|split].
  - intros i ep ex tr sid Hi. rewrite elem_of_app.
    destruct (step_threads m l) as [(tid & e & ->)|(ts & Hts & _ & Hgood)].
    + left. simpl in Hi. destruct (run_tid_cases m tid e) as [Heq|(th & m' & th' & new & Ht & E & Heq)];
        rewrite Heq in Hi; [by eapply Hth|]. simpl in Hi.
      assert (Htop : top_create th) by (unfold inv_create in Hcr; rewrite Forall_lookup in Hcr; eauto).
      destruct (run_thread_no_create _ _ _ _ _ _ Htop E) as [Hn Hnw].
      rewrite (run_thread_threads _ _ _ _ _ _ (proj1 (Forall_lookup _ _) (proj2 Hinv) _ _ Ht) E) in Hi.
      apply lookup_app_Some in Hi as [Hi|[_ Hi]].
      * apply list_lookup_insert_Some in Hi as [(_ & Heq2 & _)|[_ Hi]]; [by subst|by eapply Hth].
      * destruct new as [t|]; [|done].
        apply list_lookup_singleton_Some in Hi as [_ Heq2]. by subst.
    + rewrite Hts in Hi. apply lookup_app_Some in Hi as [Hi|[_ Hi]]; [left; by eapply Hth|].
      destruct l; try (rewrite Forall_lookup in Hgood; by apply Hgood in Hi).
      subst. apply list_lookup_singleton_Some in Hi as [_ ?]. simplify_eq. right. by left.
  - intros r g' Hg'. destruct (step_request m l) as [(tid & e & ->)|(_ & _ & Hback & _)];
      [|destruct (Hback r g' Hg') as (g & Hg & _); eauto].
    simpl in *. destruct (run_tid_cases m tid e) as [Heq|(th & m' & th' & new & Ht & E & Heq)];
      rewrite Heq in *; [by apply registered_by_more, (Hheap r)|]. simpl in *.
    destruct (run_thread_terminals _ _ _ _ _ _ E) as
      [(ep & ex & tr & sid & now & -> & _ & _ & _ & _ & Hg & Hne & Hac & _)|[(_ & _ & Hsame)|(_ & _ & Hsame)]];
      [|by eapply Hnew, Hsame|by eapply Hnew, Hsame].
    destruct (decide (r = next_ref m)) as [->|Hn].
    + rewrite Hg in Hg'. simplify_eq. exists ep, (ep_AccountID ep), tr. simpl.
      rewrite elem_of_app. split; [left; by eapply Hth|]. split_and!; try done.
      by destruct (decide (tr_Kind tr = SourceMCP)); [rewrite bool_decide_true|rewrite bool_decide_false].
    + rewrite Hne in Hg' by done. by apply registered_by_more, (Hheap r).
  - intros sid r Hr. destruct (step_request m l) as [(tid & e & ->)|(_ & Hsub & _)].
    + simpl in *. destruct (run_tid_cases m tid e) as [Heq|(th & m' & th' & new & Ht & E & Heq)];
        rewrite Heq in *; [by apply Hkeep|]. simpl in *.
      destruct (run_thread_terminals _ _ _ _ _ _ E) as
        [(ep & ex & tr & sid' & now & -> & _ & _ & Htm & _ & Hg & _)|[((sid' & Htm) & _)|(Htm & _)]];
        rewrite Htm in Hr.
      * apply lookup_insert_Some in Hr as [[<- <-]|[_ Hr]]; [by eexists|by apply Hkeep].
      * apply lookup_delete_Some in Hr as [_ Hr]. by apply Hkeep.
      * by apply Hkeep.
    + apply Hkeep. by eapply lookup_weaken.
Qed.

Lemma run_origins max ls : origins ls (run max ls).
Proof.
  induction ls as [|l ls IH] using rev_ind.
  - split; [|split]; [done|..]; intros ? ? H; simpl in H; by rewrite lookup_empty in H.
  - rewrite run_snoc. apply step_origins; [apply manager_run_inv|apply run_inv_create|done].
Qed.

(** *** An open session has its transport *)

Definition has_transport (h : gmap nat managed) (r : nat) : Prop :=
  exists g, h !! r = Some g /\ transport g = true.

Definition opener_ok (h : gmap nat managed) (th : thread) : Prop :=
  match core th with CreateOpen r => has_transport h r | _ => True end.

Definition open_ok (m : Manager) : Prop :=
  (forall r g, heap m !! r = Some g -> status_of g = StatusOpen -> transport g = true) /\
  Forall (opener_ok (heap m)) (threads m).

Lemma opener_later h h' th : heap_later h h' -> opener_ok h th -> opener_ok h' th.
Proof.
  intros Hl. unfold opener_ok. destruct (core th); try done. intros (g & Hg & Ht).
  destruct (Hl _ _ Hg) as (g' & Hg' & []). exists g'. auto.
Qed.

Lemma core_emit ev k : core (emit_status ev k) = core k.
Proof. by destruct ev. Qed.

(** Only Create's own transition opens a session, and nothing else gives it
    that program counter than the adoption of a transport. *)
Lemma run_thread_open m th e m' th' new :
  wf_refs m -> good_thread th -> opener_ok (heap m) th -> run_thread m th e = Some (m', th', new) ->
  (forall r g', heap m' !! r = Some g' -> status_of g' = StatusOpen ->
     (exists g, heap m !! r = Some g /\ status_of g = StatusOpen) \/ has_transport (heap m) r) /\
  opener_ok (heap m') th' /\ match new with Some t => opener_ok (heap m') t | None => True end.
Proof.
  intros Hwf Hgood Hok H.
  assert (Hupd : forall r f i g', (forall g, heap m !! r = Some g -> status_of (f g) = status_of g) ->
    alter f r (heap m) !! i = Some g' -> status_of g' = StatusOpen ->
    (exists g, heap m !! i = Some g /\ status_of g = StatusOpen) \/ has_transport (heap m) i).
  { intros r f i g' Hf Hg' Ho. left. destruct (decide (r = i)) as [->|].
    - rewrite lookup_alter_eq in Hg'. destruct (heap m !! i) as [g|] eqn:Eg; [|done]. simplify_eq/=.
      exists g. split; [done|]. by rewrite <- Hf.
    - rewrite lookup_alter_ne in Hg' by done. by exists g'. }
  assert (Hset : forall r st reason m1 ev i g', setStatus m r st reason = (m1, ev) ->
    (st = StatusOpen -> has_transport (heap m) r) -> heap m1 !! i = Some g' -> status_of g' = StatusOpen ->
    (exists g, heap m !! i = Some g /\ status_of g = StatusOpen) \/ has_transport (heap m) i).
  { intros r st reason m1 ev i g' Es Hst Hg' Ho. unfold setStatus in Es.
    destruct (heap m !! r) as [g|] eqn:Eg; [|simplify_eq; left; by exists g'].
    destruct (absorbed _ _); simplify_eq/=; [left; by exists g'|].
    destruct (decide (r = i)) as [->|].
    - rewrite lookup_alter_eq in Hg'. rewrite Eg in Hg'. simplify_eq/=. right. by apply Hst.
    - rewrite lookup_alter_ne in Hg' by done. left. by exists g'. }
  assert (Hrem : forall sid m1 did i g', removeEntry m sid = (m1, did) ->
    heap m1 !! i = Some g' -> status_of g' = StatusOpen ->
    (exists g, heap m !! i = Some g /\ status_of g = StatusOpen) \/ has_transport (heap m) i).
  { intros sid m1 did i g' Es Hg' Ho. unfold removeEntry in Es.
    destruct (terminals m !! sid) as [r|]; simplify_eq/=; [|left; by exists g'].
    by eapply (Hupd r (fun g => set_output g (Clear (output g)))). }
  assert (Hbeg : forall r reason m1 ev i g', beginClosing m r reason = (m1, ev) ->
    heap m1 !! i = Some g' -> status_of g' = StatusOpen ->
    (exists g, heap m !! i = Some g /\ status_of g = StatusOpen) \/ has_transport (heap m) i).
  { intros r reason m1 ev i g' Es Hg' Ho. left. unfold beginClosing in Es.
    destruct (heap m !! r) as [g|] eqn:Eg; [|simplify_eq; by exists g'].
    destruct (_ || _); simplify_eq/=; [by exists g'|]. destruct (decide (r = i)) as [->|].
    - rewrite lookup_alter_eq, Eg in Hg'. by simplify_eq/=.
    - rewrite lookup_alter_ne in Hg' by done. by exists g'. }
  assert (Hreg : forall now ep tr sid m1 o i g', register m now ep tr sid = (m1, o) ->
    heap m1 !! i = Some g' -> status_of g' = StatusOpen ->
    (exists g, heap m !! i = Some g /\ status_of g = StatusOpen) \/ has_transport (heap m) i).
  { intros now ep tr sid m1 o i g' Es Hg' Ho. left. unfold register in Es.
    destruct (destroyed m); simplify_eq/=; [by exists g'|].
    apply lookup_insert_Some in Hg' as [[_ <-]|[_ Hg']]; [done|by exists g']. }
  unfold run_thread, create_step, close_step, pump_step, input_step in H.
  destruct th; run_cases; simplify_eq/=;
    (split; [intros i g' Hg' Ho|unfold opener_ok; rewrite ?core_emit; try done]);
    try (left; by exists g'); try (by eapply Hset); try (by eapply Hrem);
    try (by eapply Hbeg); try (by eapply Hreg); try (by eapply Hupd; [|exact Hg'|done]).
  - destruct ok; [|done]. split; [|done]. exists (adopt m0 true). by rewrite lookup_alter_eq, E.
  - by destruct ok.
  - eapply Hset; [eassumption| |eassumption|done]. intros ->. by destruct Hgood.
Qed.

Lemma run_tid_open_ok m tid e : inv m -> open_ok m -> open_ok (run_tid m tid e).
Proof.
  intros Hinv [Hopen Hth]. pose proof (manager_step_inv m (LRun tid e) Hinv) as [_ Hlater]. simpl in Hlater.
  destruct (run_tid_cases m tid e) as [->|(th & m' & th' & new & Ht & E & Heq)]; [done|].
  rewrite Heq in *. simpl in *. destruct Hinv as [Hwf Hgood].
  assert (Hg : good_thread th) by (rewrite Forall_lookup in Hgood; eauto).
  assert (Ho : opener_ok (heap m) th) by (rewrite Forall_lookup in Hth; eauto).
  destruct (run_thread_open _ _ _ _ _ _ Hwf Hg Ho E) as (H1 & H2 & H3). split; simpl.
  - intros r g' Hg' Hst. destruct (H1 r g' Hg' Hst) as [(g & Hg0 & Hs)|(g & Hg0 & Hs)];
      destruct (Hlater r g Hg0) as (g1 & Hg1 & []); simplify_eq; eauto.
  - rewrite (run_thread_threads _ _ _ _ _ _ Hg E). apply Forall_app. split.
    + apply Forall_insert; [|done]. eapply Forall_impl; [exact Hth|]. intros t. by apply opener_later.
    + destruct new; by repeat constructor.
Qed.

Lemma step_open_ok m l : inv m -> open_ok m -> open_ok (step m l).
Proof.
  intros Hinv Hok.
  destruct (step_threads m l) as [(tid & e & ->)|(ts & Hts & Hst & _)]; [by apply run_tid_open_ok|].
  destruct (step_request m l) as [(tid & e & ->)|(Hl & _ & Hback & _)]; [by apply run_tid_open_ok|].
  destruct Hok as [Hopen Hth]. split.
  - intros r g' Hg' Hs'. destruct (Hback r g' Hg') as (g & Hg & Hs & ->).
    apply (Hopen r g Hg). unfold status_of in *. by rewrite <- Hs.
  - rewrite Hts. apply Forall_app. split; (eapply Forall_impl; [eassumption|]); intros t;
      [by apply opener_later|]. unfold at_start, opener_ok. by destruct (core t).
Qed.

Lemma run_open_ok max ls : open_ok (run max ls).
Proof.
  induction ls as [|l ls IH] using rev_ind.
  - split; [|by constructor]. intros r g Hg. simpl in Hg. by rewrite lookup_empty in Hg.
  - rewrite run_snoc. apply step_open_ok; [apply manager_run_inv|done].
Qed.

(** *** Counting notifications *)

Fixpoint pending (p : obs -> bool) (th : thread) : nat :=
  match th with Emit o k => ((if p o then 1 else 0) + pending p k)%nat | _ => 0%nat end.

Definition count_log (p : obs -> bool) (l : list obs) : nat := length (List.filter p l).

Definition total {A} (w : A -> nat) (l : list A) : nat := sum_list_with w l.

Lemma total_app {A} (w : A -> nat) l k : total w (l ++ k) = (total w l + total w k)%nat.
Proof. apply sum_list_with_app. Qed.

Lemma total_insert {A} (w : A -> nat) (l : list A) i x y :
  l !! i = Some x -> (total w (<[i := y]> l) + w x = total w l + w y)%nat.
Proof.
  unfold total. revert i. induction l as [|z l IH]; intros [|i] H; simplify_eq/=; [lia|].
  specialize (IH i H). lia.
Qed.

Lemma count_log_snoc p l o : count_log p (l ++ [o]) = (count_log p l + if p o then 1 else 0)%nat.
Proof. unfold count_log. rewrite List.filter_app, length_app. simpl. by destruct (p o). Qed.

Lemma total_zero {A} (w : A -> nat) l : Forall (fun x => w x = 0%nat) l -> total w l = 0%nat.
Proof. induction 1 as [|x l Hx _ IH]; [done|]. unfold total in *. simpl. lia. Qed.

Definition is_removed (sid : string) (o : obs) : bool :=
  match o with RemovedHook s => bool_decide (s = sid) | _ => false end.
Definition is_registered (sid : string) (o : obs) : bool :=
  match o with Registered s => bool_decide (s = sid) | _ => false end.
Definition creates (sid : string) (th : thread) : nat :=
  match core th with CreateStart _ _ _ s => if bool_decide (s = sid) then 1 else 0 | _ => 0 end%nat.

Definition in_registry (sid : string) (m : Manager) : nat :=
  match terminals m !! sid with Some _ => 1 | None => 0 end%nat.

(** The registrations of an id: those to come, made, and undone. *)
Definition to_register (sid : string) (m : Manager) : nat :=
  (total (creates sid) (threads m) + count_log (is_registered sid) (log m))%nat.
Definition unregistered (sid : string) (m : Manager) : nat :=
  (in_registry sid m + total (pending (is_removed sid)) (threads m) + count_log (is_removed sid) (log m))%nat.

Lemma pending_emit_status sid ev k : pending (is_removed sid) (emit_status ev k) = pending (is_removed sid) k.
Proof. by destruct ev. Qed.

Lemma pending_registered_emit sid ev k :
  pending (is_registered sid) (emit_status ev k) = pending (is_registered sid) k.
Proof. by destruct ev. Qed.

Lemma creates_emit sid ev k : creates sid (emit_status ev k) = creates sid k.
Proof. unfold creates. by rewrite core_emit. Qed.

Definition opt_total (w : thread -> nat) (o : option thread) : nat :=
  match o with Some t => w t | None => 0%nat end.

(** The registrations a step of a goroutine adds to what is to come. *)
Lemma run_thread_registers sid m th e m' th' new :
  run_thread m th e = Some (m', th', new) -> pending (is_registered sid) th = 0%nat -> top_create th ->
  pending (is_registered sid) th' = 0%nat /\ opt_total (pending (is_registered sid)) new = 0%nat /\
  opt_total (creates sid) new = 0%nat /\
  (creates sid th' + count_log (is_registered sid) (log m') <=
   creates sid th + count_log (is_registered sid) (log m))%nat.
Proof.
  intros H Hp Ht. unfold run_thread, create_step, close_step, pump_step, input_step in H.
  destruct th; run_cases; simplify_eq/=;
    repeat match goal with
      | E : setStatus _ _ _ _ = _ |- _ => apply setStatus_frame in E as (_ & _ & ->)
      | E : beginClosing _ _ _ = _ |- _ => apply beginClosing_frame in E as (_ & _ & ->)
      | E : removeEntry _ _ = _ |- _ => apply removeEntry_frame in E as (_ & -> & _)
      | E : register _ _ _ _ _ = _ |- _ => apply register_frame in E as (_ & -> & _)
      end;
    rewrite ?pending_registered_emit, ?creates_emit, ?count_log_snoc; unfold creates; simpl in *;
    try (split_and!; lia).
Qed.

Lemma in_registry_delete sid sid' m m' :
  terminals m' = delete sid' (terminals m) -> is_Some (terminals m !! sid') ->
  (in_registry sid m' + if bool_decide (sid' = sid) then 1 else 0)%nat = in_registry sid m.
Proof.
  intros Ht [r Hr]. unfold in_registry. rewrite Ht. case_bool_decide as Heq.
  - subst. by rewrite lookup_delete_eq, Hr.
  - rewrite lookup_delete_ne by done. lia.
Qed.

Lemma in_registry_same sid m m' : terminals m' = terminals m -> in_registry sid m' = in_registry sid m.
Proof. intros Ht. unfold in_registry. by rewrite Ht. Qed.

Lemma removeEntry_counts sid sid' m m' did :
  removeEntry m sid' = (m', did) ->
  (in_registry sid m' + if did then (if bool_decide (sid' = sid) then 1 else 0) else 0)%nat = in_registry sid m.
Proof.
  intros E. apply removeEntry_frame in E as (_ & _ & Ht & Hd). destruct did.
  - apply (in_registry_delete _ _ _ _ Ht). by apply Hd.
  - rewrite Nat.add_0_r. apply in_registry_same. rewrite Ht. apply delete_id.
    destruct (terminals m !! sid') eqn:E; [|done]. exfalso. by assert (false = true) by (apply Hd; by eexists).
Qed.

(** Each removal of an entry comes with the promise of one notification. *)
Lemma run_thread_removes sid m th e m' th' new :
  run_thread m th e = Some (m', th', new) -> pending (is_registered sid) th = 0%nat ->
  (in_registry sid m = 0%nat \/ creates sid th = 0%nat) ->
  (in_registry sid m' + pending (is_removed sid) th' + opt_total (pending (is_removed sid)) new
     + count_log (is_removed sid) (log m') + count_log (is_registered sid) (log m) =
   in_registry sid m + pending (is_removed sid) th
     + count_log (is_removed sid) (log m) + count_log (is_registered sid) (log m'))%nat.
Proof.
  intros H Hp Hc. unfold run_thread, create_step, close_step, pump_step, input_step in H.
  destruct th; run_cases; simplify_eq/=;
    repeat match goal with
      | E : setStatus _ _ _ _ = _ |- _ =>
          apply setStatus_frame in E as (_ & E & ->); rewrite (in_registry_same sid _ _ E)
      | E : beginClosing _ _ _ = _ |- _ =>
          apply beginClosing_frame in E as (_ & E & ->); rewrite (in_registry_same sid _ _ E)
      | E : removeEntry _ _ = _ |- _ =>
          pose proof (removeEntry_counts sid _ _ _ _ E);
          apply removeEntry_frame in E as (_ & -> & _)
      | E : register _ _ _ _ _ = _ |- _ => apply register_frame in E as (_ & -> & E)
      end;
    rewrite ?pending_emit_status, ?count_log_snoc; simpl in *;
    try (unfold in_registry in *; simpl in *; lia).
  - destruct E1 as [_ Et]. unfold creates in Hc. simpl in Hc. revert Hc. unfold in_registry. simpl. rewrite Et.
    destruct (decide (sid0 = sid)) as [->|Hne].
    + rewrite bool_decide_true, lookup_insert_eq by done. lia.
    + rewrite bool_decide_false, lookup_insert_ne by done. lia.
  - destruct E1 as [-> _]. lia.
Qed.

Lemma ids_where_in m p id : id ∈ ids_where m p -> is_Some (terminals m !! id).
Proof.
  unfold ids_where, sessions. intros ((sid & g) & -> & Hin)%list_elem_of_fmap. simpl.
  apply list_elem_of_In, filter_In in Hin as [Hin%list_elem_of_In _].
  apply list_elem_of_omap in Hin as ((sid' & r) & Hin & Hr). simpl in Hr.
  destruct (heap m !! r); simplify_eq/=. apply elem_of_map_to_list in Hin. by eexists.
Qed.

Lemma ids_where_NoDup m p : NoDup (ids_where m p).
Proof.
  unfold ids_where, sessions.
  assert (Hnd : NoDup (map_to_list (terminals m)).*1) by apply NoDup_fst_map_to_list.
  revert Hnd. generalize (map_to_list (terminals m)). intros l. induction l as [|(sid & r) l IH]; simpl; [constructor|].
  intros (Hni & Hnd)%NoDup_cons. destruct (heap m !! r) as [g|]; simpl; [|by apply IH].
  destruct (p g); simpl; [|by apply IH]. constructor; [|by apply IH].
  intros ((sid' & g') & Heq & Hin)%list_elem_of_fmap. simpl in Heq. subst sid'. apply Hni.
  apply list_elem_of_In, filter_In in Hin as [Hin%list_elem_of_In _].
  apply list_elem_of_omap in Hin as ((sid' & r') & Hin & Hr). simpl in Hr.
  destruct (heap m !! r'); simplify_eq/=. apply list_elem_of_fmap. by exists (sid, r').
Qed.

Lemma pending_hooks sid ids :
  NoDup ids ->
  pending (is_removed sid) (foldr (fun id k => Emit (RemovedHook id) k) Done ids) =
  if decide (sid ∈ ids) then 1%nat else 0%nat.
Proof.
  induction 1 as [|id ids Hni Hnd IH]; [done|]. simpl. rewrite IH.
  destruct (decide (id = sid)) as [->|Hne].
  - rewrite bool_decide_true, (decide_False (P := sid ∈ ids)), decide_True by (done || by left). done.
  - rewrite bool_decide_false by done. destruct (decide (sid ∈ ids)) as [Hi|Hi].
    + by rewrite decide_True by (by right).
    + rewrite decide_False; [done|]. intros [->|?]%elem_of_cons; done.
Qed.

Lemma pending_hooks_registered sid ids :
  pending (is_registered sid) (foldr (fun id k => Emit (RemovedHook id) k) Done ids) = 0%nat.
Proof. by induction ids. Qed.

Lemma creates_hooks sid ids : creates sid (foldr (fun id k => Emit (RemovedHook id) k) Done ids) = 0%nat.
Proof. unfold creates. by induction ids. Qed.

Lemma remove_ids_counts sid m ids :
  NoDup ids -> (forall id, id ∈ ids -> is_Some (terminals m !! id)) ->
  (in_registry sid (remove_ids m ids) +
     pending (is_removed sid) (foldr (fun id k => Emit (RemovedHook id) k) Done ids))%nat = in_registry sid m.
Proof.
  intros Hnd Hin. destruct (remove_ids_frame ids m) as (_ & _ & _ & Ht).
  rewrite pending_hooks by done. unfold in_registry. rewrite Ht. destruct (decide (sid ∈ ids)) as [Hi|].
  - by destruct (Hin _ Hi) as [r ->].
  - lia.
Qed.

(** What the requests add: nothing they start emits a registration, and the
    entries they remove are paid for with notifications. *)
Lemma pending_closeAll p ids reason : total (pending p) (map (fun id => CloseStart id reason) ids) = 0%nat.
Proof. by induction ids. Qed.

Lemma step_request_counts sid m l :
  (exists tid e, l = LRun tid e) \/
  exists ts, threads (step m l) = threads m ++ ts /\ log (step m l) = log m /\
    total (pending (is_registered sid)) ts = 0%nat /\
    total (creates sid) ts = (match l with LCreate _ _ _ s => if bool_decide (s = sid) then 1 else 0 | _ => 0 end)%nat /\
    (in_registry sid (step m l) + total (pending (is_removed sid)) ts)%nat = in_registry sid m.
Proof.
  assert (Hca : forall ids reason, exists ts,
    threads m ++ map (fun id => CloseStart id reason) ids = threads m ++ ts /\ log m = log m /\
    total (pending (is_registered sid)) ts = 0%nat /\ total (creates sid) ts = 0%nat /\
    (in_registry sid m + total (pending (is_removed sid)) ts)%nat = in_registry sid m).
  { intros ids reason. eexists. split; [done|]. split; [done|]. rewrite !pending_closeAll.
    split; [done|]. split; [by induction ids|lia]. }
  assert (Hnil : exists ts, threads m = threads m ++ ts /\ log m = log m /\
    total (pending (is_registered sid)) ts = 0%nat /\ total (creates sid) ts = 0%nat /\
    (in_registry sid m + total (pending (is_removed sid)) ts)%nat = in_registry sid m).
  { exists []. rewrite app_nil_r. split_and!; try done; simpl; lia. }
  destruct l; try (left; by eauto); right; simpl; try apply Hca; try done;
    try (eexists; split; [done|]; unfold creates, in_registry; simpl; split_and!; try done; lia).
  - unfold SweepIdle. destruct (_ <=? _); [done|apply Hca].
  - unfold RemoveForAccount. simpl. set (ids := ids_where _ _).
    destruct (remove_ids_frame ids m) as ((-> & _) & Hlog & _).
    eexists. split; [done|]. split; [done|]. unfold total. simpl. rewrite !Nat.add_0_r.
    split; [apply pending_hooks_registered|]. split; [apply creates_hooks|].
    apply (remove_ids_counts sid m ids); [apply ids_where_NoDup|intros id; apply ids_where_in].
Qed.

Definition count_creates (sid : string) (ls : list label) : nat :=
  total (fun l => match l with LCreate _ _ _ s => if bool_decide (s = sid) then 1 else 0 | _ => 0 end)%nat ls.

(** An id that is created at most once is registered at most once, and its
    registrations are the entry, the notifications owed and those made. *)
Definition counted (sid : string) (ls : list label) (m : Manager) : Prop :=
  Forall (fun th => pending (is_registered sid) th = 0%nat) (threads m) /\
  (to_register sid m <= count_creates sid ls)%nat /\
  ((count_creates sid ls <= 1)%nat -> unregistered sid m = count_log (is_registered sid) (log m)).

Lemma total_lookup {A} (w : A -> nat) l i x : l !! i = Some x -> (w x <= total w l)%nat.
Proof.
  unfold total. revert i. induction l as [|z l IH]; intros [|i] H; simplify_eq/=; [lia|].
  specialize (IH i H). lia.
Qed.

Lemma total_zero_inv {A} (w : A -> nat) l : total w l = 0%nat -> Forall (fun x => w x = 0)%nat l.
Proof. unfold total. induction l as [|x l IH]; simpl; [constructor|]. intros. constructor; [lia|apply IH; lia]. Qed.

Lemma total_opt w (new : option thread) :
  total w (match new with Some t => [t] | None => [] end) = opt_total w new.
Proof. destruct new; [apply Nat.add_0_r|done]. Qed.

Lemma step_counted sid ls m l :
  inv m -> inv_create m -> counted sid ls m -> counted sid (ls ++ [l]) (step m l).
Proof.
  intros Hinv Hcr (Hq & Hreg & Heq).
  assert (Hmore : (count_creates sid ls <= count_creates sid (ls ++ [l]))%nat)
    by (unfold count_creates; rewrite total_app; lia).
  destruct (step_request_counts sid m l) as [(tid & e & ->)|(ts & Hts & Hlog & Hts0 & Hc & Hr)].
  - simpl. destruct (run_tid_cases m tid e) as [->|(th & m' & th' & new & Ht & E & ->)];
      [split; [done|]; split; [lia|intros; apply Heq; lia]|].
    pose proof (run_thread_threads _ _ _ _ _ _ (proj1 (Forall_lookup _ _) (proj2 Hinv) _ _ Ht) E) as Hthr.
    assert (Hth : pending (is_registered sid) th = 0%nat) by (rewrite Forall_lookup in Hq; eauto).
    assert (Htop : top_create th) by (unfold inv_create in Hcr; rewrite Forall_lookup in Hcr; eauto).
    destruct (run_thread_registers sid _ _ _ _ _ _ E Hth Htop) as (H1 & H2 & H3 & H4).
    unfold counted, to_register, unregistered in *. simpl. rewrite Hthr, !total_app, !total_opt.
    pose proof (total_insert (creates sid) _ _ _ th' Ht) as I1.
    pose proof (total_insert (pending (is_removed sid)) _ _ _ th' Ht) as I2.
    pose proof (total_lookup (creates sid) _ _ _ Ht) as I3. split; [|split].
    + apply Forall_app. split; [by apply Forall_insert|]. destruct new; by repeat constructor.
    + lia.
    + intros Hle. specialize (Heq ltac:(lia)).
      pose proof (run_thread_removes sid _ _ _ _ _ _ E Hth ltac:(lia)) as H5.
      change (in_registry sid (with_threads m' (<[tid:=th']> (threads m) ++ match new with Some t => [t] | None => [] end)))
        with (in_registry sid m'). lia.
  - unfold counted, to_register, unregistered in *. rewrite Hts, Hlog, !total_app.
    unfold count_creates in *. rewrite total_app in *.
    set (own := total _ [l]) in *. assert (Hown : own = total (creates sid) ts)
      by (rewrite Hc; unfold own, total; simpl; lia).
    clearbody own. split; [|split].
    + apply Forall_app. split; [done|]. by apply total_zero_inv.
    + lia.
    + intros Hle. rewrite <- Heq by lia. lia.
Qed.

Lemma run_counted sid max ls : counted sid ls (run max ls).
Proof.
  induction ls as [|l ls IH] using rev_ind; [by repeat constructor|]. rewrite run_snoc.
  apply step_counted; [apply manager_run_inv|apply run_inv_create|done].
Qed.

(** *** Running one goroutine alone *)

Definition solo (m : Manager) (tid : nat) (es : list env) : Manager :=
  fold_left (fun m e => run_tid m tid e) es m.

(** What one goroutine sees of the manager, with its own program counter. *)
Definition view (m : Manager) (tid : nat) (th : thread) (t : gmap string nat) (h : gmap nat managed)
  (l : list obs) : Prop :=
  threads m !! tid = Some th /\ terminals m = t /\ heap m = h /\ log m = l.

Lemma view_step m tid th t h l e m' th' :
  view m tid th t h l -> run_thread m th e = Some (m', th', None) -> threads m' = threads m ->
  view (run_tid m tid e) tid th' (terminals m') (heap m') (log m').
Proof.
  intros (Hth & _) E Ht. unfold view, run_tid. rewrite Hth, E. simpl. rewrite app_nil_r.
  split; [|done]. rewrite Ht. apply list_lookup_insert_eq. by eapply lookup_lt_Some.
Qed.

Lemma view_emit m tid o k t h l :
  view m tid (Emit o k) t h l -> view (run_tid m tid NoEnv) tid k t h (l ++ [o]).
Proof. intros Hv. pose proof Hv as (_ & <- & <- & <-). by apply (view_step _ _ _ _ _ _ NoEnv (add_log m o) k Hv). Qed.

(** A sequence of moves of one goroutine, from one view to another. *)
Definition moves (tid : nat) (es : list env) (th : thread) (t : gmap string nat) (h : gmap nat managed)
  (l : list obs) (th' : thread) (t' : gmap string nat) (h' : gmap nat managed) (l' : list obs) : Prop :=
  forall m, view m tid th t h l -> view (solo m tid es) tid th' t' h' l'.

Lemma moves_nil tid th t h l : moves tid [] th t h l th t h l.
Proof. by intros m. Qed.

Lemma moves_step tid e es th t h l th1 t1 h1 l1 th' t' h' l' :
  (forall m, terminals m = t -> heap m = h -> log m = l -> exists m', run_thread m th e = Some (m', th1, None) /\
     threads m' = threads m /\ terminals m' = t1 /\ heap m' = h1 /\ log m' = l1) ->
  moves tid es th1 t1 h1 l1 th' t' h' l' ->
  moves tid (e :: es) th t h l th' t' h' l'.
Proof.
  intros H1 H2 m V. apply H2. pose proof V as (_ & Ht & Hh & Hl).
  destruct (H1 m Ht Hh Hl) as (m' & E & Hth & <- & <- & <-). by eapply view_step.
Qed.

Lemma moves_emit tid es o k t h l th' t' h' l' :
  moves tid es k t h (l ++ [o]) th' t' h' l' -> moves tid (NoEnv :: es) (Emit o k) t h l th' t' h' l'.
Proof. intros H m V. apply H. by apply view_emit. Qed.

(** The goroutine moves on and leaves the manager alone. *)
Lemma moves_pure tid e es th th1 t h l th' t' h' l' :
  (forall m, terminals m = t -> heap m = h -> run_thread m th e = Some (m, th1, None)) ->
  moves tid es th1 t h l th' t' h' l' -> moves tid (e :: es) th t h l th' t' h' l'.
Proof. intros H. apply moves_step. intros m <- <- <-. exists m. auto. Qed.

(** It makes a transition at [r] and tells the subscribers. *)
Lemma moves_status tid e es th k r g st reason t h l th' t' h' l' :
  h !! r = Some g -> absorbed (status_of g) st = false ->
  (forall m, run_thread m th e =
     let '(m', ev) := setStatus m r st reason in Some (m', emit_status ev k, None)) ->
  moves tid es k t (alter (fun _ => fst (transition g st reason)) r h)
    (l ++ [StatusHook (snd (transition g st reason))]) th' t' h' l' ->
  moves tid (e :: NoEnv :: es) th t h l th' t' h' l'.
Proof.
  intros Hg Ha Hrun H. eapply moves_step; [|by apply moves_emit, H]. intros m <- <- <-.
  rewrite Hrun. unfold setStatus. rewrite Hg, Ha. simpl. by eexists.
Qed.

(** It removes the entry and tells the subscribers. *)
Lemma moves_remove tid e es th k sid r t h l th' t' h' l' :
  t !! sid = Some r ->
  (forall m, heap m = h -> run_thread m th e =
     let '(m', did) := removeEntry m sid in Some (m', if did then Emit (RemovedHook sid) k else k, None)) ->
  moves tid es k (delete sid t) (alter (fun g => set_output g (Clear (output g))) r h)
    (l ++ [RemovedHook sid]) th' t' h' l' ->
  moves tid (e :: NoEnv :: es) th t h l th' t' h' l'.
Proof.
  intros Hr Hrun H. eapply moves_step; [|by apply moves_emit, H]. intros m <- Hh <-.
  rewrite Hrun by done. unfold removeEntry. rewrite Hr, <- Hh. by eexists.
Qed.

Lemma stamp_idem a b : stamp (stamp a b) b = stamp a b.
Proof. unfold stamp. by destruct a, b. Qed.

Lemma alter_at {A} (f : A -> A) (h : gmap nat A) r a : h !! r = Some a -> alter f r h !! r = Some (f a).
Proof. intros H. by rewrite lookup_alter_eq, H. Qed.

Definition cleared (g : managed) : managed := set_output g (Clear (output g)).

(** Close, alone, on a session that has its transport, with a pump that does
    not drain in time. *)
Definition close_schedule : list env :=
  [NoEnv; NoEnv; NoEnv; NoEnv; NoEnv; JoinTimeout true; NoEnv; NoEnv; NoEnv; NoEnv].

Lemma moves_close tid sid reason t h l r g :
  t !! sid = Some r -> h !! r = Some g -> transport g = true ->
  status_of g <> StatusClosed -> status_of g <> StatusClosing ->
  let g1 := fst (transition g StatusClosing reason) in
  let g2 := fst (transition (set_abandoned g1) StatusClosed reason) in
  exists h',
    moves tid close_schedule (CloseStart sid reason) t h l Done (delete sid t) h'
      (l ++ [StatusHook (snd (transition g StatusClosing reason)); TransportClose r;
             StatusHook (snd (transition (set_abandoned g1) StatusClosed reason)); RemovedHook sid]) /\
    h' !! r = Some (cleared g2).
Proof.
  intros Hr Hg Htr Hs1 Hs2 g1 g2.
  pose proof (alter_at (fun _ => g1) _ _ _ Hg) as Hg1.
  pose proof (alter_at set_abandoned _ _ _ Hg1) as Hg1'.
  pose proof (alter_at (fun _ => g2) _ _ _ Hg1') as Hg2.
  eexists. split; [|exact (alter_at cleared _ _ _ Hg2)]. unfold close_schedule.
  eapply moves_pure; [intros m <- <-; simpl; unfold get; by rewrite Hr|].
  eapply (moves_step _ _ _ _ _ _ _ (Emit (StatusHook (snd (transition g StatusClosing reason)))
    (CloseRead r sid reason)) t (alter (fun _ => g1) r h) l).
  { intros m <- <- <-. exists (upd m r (fun _ => g1)). split; [|done]. simpl. unfold beginClosing.
    by rewrite Hg, !bool_decide_false. }
  apply moves_emit. eapply moves_pure.
  { intros m _ Hh. simpl. rewrite Hh, Hg1. simpl. by rewrite Htr. }
  apply moves_emit. eapply (moves_step _ _ _ _ _ _ _ (CloseStatus r sid reason) t
    (alter set_abandoned r (alter (fun _ => g1) r h))).
  { intros m Ht Hh Hl. exists (upd m r set_abandoned). simpl. rewrite Hh, Hg1.
    split_and!; [done..|exact Hl]. }
  eapply (moves_status _ _ _ _ (CloseRemove sid) r _ StatusClosed reason); [exact Hg1'|reflexivity|reflexivity|].
  eapply moves_remove; [exact Hr|reflexivity|].
  rewrite <- !app_assoc. apply moves_nil.
Qed.

(** The end of a creation that a Close raced: the factory answers, and the
    goroutine runs alone. *)
Definition abort_schedule (ok : bool) : list env :=
  Factory ok :: NoEnv :: (if ok then [NoEnv] else @nil env) ++ [NoEnv; NoEnv; NoEnv; NoEnv; NoEnv].

Lemma moves_abort tid (ok : bool) t h l r g sid :
  t !! sid = Some r -> h !! r = Some g -> SessionID (session g) = sid -> status_of g = StatusClosing ->
  let g1 := adopt g (transport g) in
  let tr := transition g1 StatusClosed (if ok then NoReason else CloseTransportError) in
  exists h',
    moves tid (abort_schedule ok) (CreateFactory r) t h l Done (delete sid t) h'
      (l ++ (if ok then [TransportClose r] else []) ++ [StatusHook (snd tr); RemovedHook sid; CreateFailed]) /\
    h' !! r = Some (cleared (fst tr)).
Proof.
  intros Hr Hg Hid Hs g1 tr.
  pose proof (alter_at (fun _ => g1) _ _ _ Hg) as Hg1.
  pose proof (alter_at (fun _ => fst tr) _ _ _ Hg1) as Hg2.
  eexists. split; [|exact (alter_at cleared _ _ _ Hg2)]. unfold abort_schedule.
  assert (Ha : absorbed (status_of g1) StatusClosed = false).
  { change (status_of g1) with (status_of g). by rewrite Hs. }
  eapply moves_pure; [done|].
  assert (Hadopt : forall k, (if negb ok then CreateFailStatus r else Emit (TransportClose r) (CreateAbortStatus r)) = k ->
    forall m, terminals m = t -> heap m = h -> log m = l -> exists m',
      run_thread m (CreateAdopt r ok) NoEnv = Some (m', k, None) /\ threads m' = threads m /\
      terminals m' = t /\ heap m' = alter (fun _ => g1) r h /\ log m' = l).
  { intros k <- m <- Hh <-. simpl. rewrite Hh, Hg, Hs. rewrite (bool_decide_false (StatusClosing = StatusOpening)) by done.
    rewrite andb_false_r. eexists. split; [done|]. simpl. split_and!; try done. rewrite Hh.
    apply alter_ext. intros g' Hg'. by simplify_eq. }
  assert (Hend : forall l, moves tid [NoEnv; NoEnv; NoEnv; NoEnv; NoEnv]
    (if ok then CreateAbortStatus r else CreateFailStatus r) t (alter (fun _ => g1) r h) l Done (delete sid t)
    (alter cleared r (alter (fun _ => fst tr) r (alter (fun _ => g1) r h)))
    (l ++ [StatusHook (snd tr); RemovedHook sid; CreateFailed])).
  { intros l0. eapply (moves_status _ _ _ _ (CreateRemove r) r g1 StatusClosed (if ok then NoReason else CloseTransportError));
      [exact Hg1|exact Ha|by intros; destruct ok|].
    eapply (moves_remove _ _ _ _ (Emit CreateFailed Done)); [exact Hr| |].
    - intros m Hh. assert (Hm : heap m !! r = Some (fst tr)) by (rewrite Hh; exact Hg2).
      cbn [run_thread create_step]. rewrite Hm. simpl. by rewrite Hid.
    - apply moves_emit. rewrite <- !app_assoc. apply moves_nil. }
  destruct ok; (eapply moves_step; [by apply Hadopt|]); simpl.
  - apply moves_emit. specialize (Hend (l ++ [TransportClose r])). by rewrite <- app_assoc in Hend.
  - apply Hend.
Qed.

(** ** The properties *)

(** (C9) A session object only ever moves forward, whatever creations, closes,
    sweeps and goroutine steps follow in whatever order: its identity and owner
    stay, a close reason once stamped stays, closed is final, and no status
    leads back to opening or from an ended session to a live one. *)
Theorem lifecycle_monotone max ls1 ls2 r g :
  heap (run max ls1) !! r = Some g ->
  exists g', heap (run max (ls1 ++ ls2)) !! r = Some g' /\ later g g'.
Proof. apply run_later. Qed.

(** Nothing outlives shutdown: every session of the registry gets a close
    request, and after the flag is set no step adds an entry or registers a
    session. *)
Theorem nothing_registered_after_destroy max ls1 ls2 :
  let m := run max ls1 in
  let m' := run max (ls1 ++ LDestroy :: ls2) in
  (forall sid, is_Some (terminals m !! sid) -> CloseStart sid CloseShutdown ∈ threads (Destroy m)) /\
  terminals m' ⊆ terminals m /\
  (forall tid ep ex tr sid now, threads m' !! tid = Some (CreateStart ep ex tr sid) ->
     threads (run_tid m' tid (Now now)) !! tid = Some (Emit CreateFailed Done)).
Proof.
  intros m m'. split; [|].
  - intros sid [r Hr]. unfold Destroy, closeAll, spawn. simpl. apply elem_of_app. right.
    apply list_elem_of_fmap. exists sid. split; [done|]. apply list_elem_of_fmap. exists (sid, r).
    split; [done|]. by apply elem_of_map_to_list.
  - assert (H : destroyed m' = true /\ terminals m' ⊆ terminals m).
    { subst m m'. induction ls2 as [|l ls2 IH] using rev_ind; [by rewrite run_snoc|].
      rewrite app_comm_cons, app_assoc, run_snoc. destruct IH as [Hd Hs].
      destruct (step_destroyed _ l Hd) as [? ?]. split; [done|]. by etrans. }
    destruct H as [Hd Hs]. split; [done|]. intros tid ep ex tr sid now Ht.
    unfold run_tid. rewrite Ht. simpl. unfold register. rewrite Hd.
    destruct (negb _); simpl; rewrite app_nil_r; apply list_lookup_insert_eq; by eapply lookup_lt_Some.
Qed.

(** A session found under an id was asked for under that id by a request
    for an endpoint of the session's own account: the cross-account guard holds
    for every entry, and an MCP session's owner is the client that asked. *)
Theorem session_belongs_to_requester max ls sid s :
  GetSession (run max ls) sid = Some s ->
  SessionID s = sid /\
  exists ep tr, LCreate ep (AccountID s) tr sid ∈ ls /\ ep_AccountID ep = AccountID s /\
    EndpointID s = ep_ID ep /\ s_Source s = tr_Kind tr /\
    (s_Source s = SourceMCP -> OwnerClientID s = tr_OwnerClientID tr).
Proof.
  unfold GetSession, lookup_session, get. destruct (run_origins max ls) as (_ & Hheap & Hterm).
  destruct (terminals (run max ls) !! sid) as [r|] eqn:Er; [|done]. simpl.
  destruct (heap (run max ls) !! r) as [g|] eqn:Eg; [|done]. simpl. intros [= <-].
  destruct (Hterm sid r Er) as (g' & Hg' & Hid). rewrite Eg in Hg'. simplify_eq. split; [done|].
  destruct (Hheap r g' Eg) as (ep & ex & tr & Hin & He & Ha & Hep & Hsrc & Ho). subst ex.
  exists ep, tr. rewrite Ha. split_and!; try done. intros Hm. rewrite Hsrc in Hm.
  by rewrite Ho, decide_True.
Qed.

(** A session that is open has its transport: SendInput, which checks the
    status and then uses the transport, never meets a nil one. *)
Theorem open_session_has_transport max ls r g :
  heap (run max ls) !! r = Some g -> status_of g = StatusOpen -> transport g = true.
Proof. intros Hg Hs. destruct (run_open_ok max ls) as [H _]. eauto. Qed.

(** (C15) Each removal notifies exactly once: of an id that is created at most
    once, the removals announced are never more than one registration, and when
    every goroutine is done the sessions that were registered and are gone have
    been announced, the ones still registered have not. *)
Theorem removed_exactly_once max ls sid :
  (count_creates sid ls <= 1)%nat ->
  let m := run max ls in
  let announced := count_log (is_removed sid) (log m) in
  let registered := count_log (is_registered sid) (log m) in
  (announced + in_registry sid m <= registered <= 1)%nat /\
  (Forall (eq Done) (threads m) -> (announced + in_registry sid m)%nat = registered).
Proof.
  intros Hc m announced registered. destruct (run_counted sid max ls) as (_ & Hr & Hu).
  specialize (Hu Hc). unfold unregistered, to_register in *. fold m announced registered in Hr, Hu.
  split; [lia|]. intros Hd. rewrite <- Hu. rewrite (total_zero (pending (is_removed sid))); [lia|].
  eapply Forall_impl; [exact Hd|]. by intros th <-.
Qed.

(** (C13) Close always ends, even on a transport whose pump never drains: alone
    it takes ten steps, after which the session is out of the registry, closed
    with the reason first given, its buffer cleared and its pump abandoned; the
    subscribers saw closing, closed and removed, in this order. *)
Theorem close_completes max ls tid sid reason r g :
  let m := run max ls in
  threads m !! tid = Some (CloseStart sid reason) ->
  terminals m !! sid = Some r -> heap m !! r = Some g -> transport g = true ->
  status_of g <> StatusClosed -> status_of g <> StatusClosing ->
  let why := stamp (s_CloseReason (session g)) reason in
  let event st prev := StatusHook (mkStatusEvent sid st prev why (CreatedAt (session g))) in
  let m' := solo m tid close_schedule in
  threads m' !! tid = Some Done /\ GetSession m' sid = None /\
  log m' = log m ++ [event StatusClosing (status_of g); TransportClose r;
                     event StatusClosed StatusClosing; RemovedHook sid] /\
  exists g', heap m' !! r = Some g' /\ status_of g' = StatusClosed /\ s_CloseReason (session g') = why /\
    abandoned g' = true /\ output g' = Clear (output g).
Proof.
  intros m Ht Hr Hg Htr H1 H2 why event m'.
  assert (Hid : SessionID (session g) = sid).
  { destruct (run_origins max ls) as (_ & _ & Hterm). destruct (Hterm sid r Hr) as (g1 & Hg1 & Hid).
    subst m. rewrite Hg1 in Hg. by simplify_eq. }
  destruct (moves_close tid sid reason _ _ (log m) r g Hr Hg Htr H1 H2) as (h' & Hm & Hg').
  destruct (Hm m) as (Hd & Hterm & Hh & Hl); [done|]. fold m' in Hd, Hterm, Hh, Hl.
  split; [done|]. split; [unfold GetSession, lookup_session, get; by rewrite Hterm, lookup_delete_eq|].
  split.
  - rewrite Hl. unfold event, why. simpl. by rewrite Hid, stamp_idem.
  - eexists. rewrite Hh. split; [exact Hg'|]. split_and!; try done. simpl. apply stamp_idem.
Qed.

(** A creation whose session was closed while it was connecting finishes
    the session, whatever the factory answers: alone it ends with the session
    closed and out of the registry, Create fails, and a transport the factory
    still returned is closed. *)
Theorem aborted_setup_is_finalised max ls tid sid r g ok :
  let m := run max ls in
  threads m !! tid = Some (CreateFactory r) ->
  terminals m !! sid = Some r -> heap m !! r = Some g -> status_of g = StatusClosing ->
  let m' := solo m tid (abort_schedule ok) in
  threads m' !! tid = Some Done /\ GetSession m' sid = None /\
  (exists g', heap m' !! r = Some g' /\ status_of g' = StatusClosed /\ transport g' = transport g) /\
  exists ev, ev_Status ev = StatusClosed /\ ev_SessionID ev = sid /\
    log m' = log m ++ (if ok then [TransportClose r] else []) ++ [StatusHook ev; RemovedHook sid; CreateFailed].
Proof.
  intros m Ht Hr Hg Hs m'.
  assert (Hid : SessionID (session g) = sid).
  { destruct (run_origins max ls) as (_ & _ & Hterm). destruct (Hterm sid r Hr) as (g1 & Hg1 & Hid).
    subst m. rewrite Hg1 in Hg. by simplify_eq. }
  destruct (moves_abort tid ok _ _ (log m) r g sid Hr Hg Hid Hs) as (h' & Hm & Hg').
  destruct (Hm m) as (Hd & Hterm & Hh & Hl); [done|]. fold m' in Hd, Hterm, Hh, Hl.
  split; [done|]. split; [unfold GetSession, lookup_session, get; by rewrite Hterm, lookup_delete_eq|].
  split; [eexists; rewrite Hh; by split|]. eexists. split; [|split; [|exact Hl]]; [done|exact Hid].
Qed.

(** ** Concrete runs *)

Definition ex_ep : EndpointRef := mkRef "ep" "acc".
Definition ex_tr : Trigger := mkTrigger SourceMCP "10.0.0.1" "why" "client" "agent" "1".

(** One session brought up by goroutine 0; its pump is goroutine 1. *)
Definition up : list label :=
  [LCreate ex_ep "acc" ex_tr "s"; LRun 0 (Now 5); LRun 0 (Factory true); LRun 0 NoEnv; LRun 0 NoEnv;
   LRun 0 NoEnv; LRun 0 NoEnv; LRun 0 NoEnv].

(** Close goes through its first two transitions-to-be; the server hangs up in
    between, and the pump's broadcast overtakes the closing one. *)
Definition overtaking : list label :=
  up ++ [LClose "s" CloseClientUI; LRun 2 NoEnv; LRun 2 NoEnv; LRun 1 (Transport (Some EvClosed));
         LRun 1 NoEnv; LRun 1 NoEnv; LRun 1 NoEnv; LRun 2 NoEnv].

(** The status events of a session can reach the subscribers out of order:
    the transitions are ordered by the lock, the calls to the hooks come after
    it is released, so a subscriber may be told of closed, whose previous
    status is closing, before it is told of closing. *)
Theorem status_events_can_be_reordered :
  exists ls, let ev st prev := StatusHook (mkStatusEvent "s" st prev CloseClientUI 5) in
  List.filter (fun o => match o with StatusHook e => negb (bool_decide (ev_Status e = StatusOpen)) | _ => false end)
    (log (run 100 ls)) = [ev StatusClosed StatusClosing; ev StatusClosing StatusOpen].
Proof. exists overtaking. by vm_compute. Qed.

(** The pump has passed its check and holds a chunk; Close gives up on it,
    clears the buffer and forgets the session; then the pump appends. *)
Definition refilling : list label :=
  up ++ [LClose "s" CloseClientUI; LRun 1 (Transport (Some (EvData [x41])))] ++
  map (LRun 2) close_schedule ++ [LRun 1 NoEnv].

(** The abandoned flag does not keep a removed session's buffer empty: a
    pump that read it before the close timed out still appends its chunk after
    the clear; every later chunk is dropped. *)
Theorem removed_buffer_refilled :
  let m := run 100 refilling in
  GetSession m "s" = None /\
  (exists g, heap m !! 0%nat = Some g /\ abandoned g = true /\ status_of g = StatusClosed /\
     Tail (output g) 100 = [x41]) /\
  forall r g data m', abandoned g = true -> heap m' !! r = Some g ->
    run_thread m' (Pump r) (Transport (Some (EvData data))) = Some (m', Pump r, None).
Proof.
  split; [by vm_compute|]. split; [eexists; split; [by vm_compute|by vm_compute]|].
  intros r g data m' Ha Hg. simpl. by rewrite Hg, Ha.
Qed.

(** ** Witnesses *)

Lemma lifecycle_monotone_witness :
  exists g g', heap (run 100 overtaking) !! 0%nat = Some g /\ status_of g = StatusClosed /\
    heap (run 100 (overtaking ++ [LRun 2 NoEnv])) !! 0%nat = Some g' /\ later g g'.
Proof.
  eexists. edestruct (lifecycle_monotone 100 overtaking [LRun 2 NoEnv] 0%nat) as (g' & Hg' & Hl);
    [vm_compute; reflexivity|].
  exists g'. split; [vm_compute; reflexivity|]. split; [reflexivity|]. by split.
Defined.

Lemma session_belongs_to_requester_witness :
  exists s, GetSession (run 100 up) "s" = Some s /\ AccountID s = "acc"%string /\ OwnerClientID s = "client"%string /\
    exists ep tr, LCreate ep (AccountID s) tr "s" ∈ up /\ ep_AccountID ep = AccountID s.
Proof.
  eexists. edestruct (session_belongs_to_requester 100 up "s") as (_ & ep & tr & Hin & He & _);
    [vm_compute; reflexivity|].
  split; [vm_compute; reflexivity|]. split; [reflexivity|]. split; [reflexivity|]. exists ep, tr. by split.
Defined.

Lemma open_session_has_transport_witness :
  exists g, heap (run 100 up) !! 0%nat = Some g /\ status_of g = StatusOpen /\ transport g = true.
Proof.
  eexists. split; [vm_compute; reflexivity|]. split; [reflexivity|].
  apply (open_session_has_transport 100 up 0%nat); vm_compute; reflexivity.
Defined.

Lemma removed_exactly_once_witness :
  (count_creates "s" refilling <= 1)%nat /\
  (count_log (is_removed "s") (log (run 100 refilling)) + in_registry "s" (run 100 refilling)
   <= count_log (is_registered "s") (log (run 100 refilling)) <= 1)%nat /\
  count_log (is_removed "s") (log (run 100 refilling)) = 1%nat.
Proof.
  assert (H : (count_creates "s" refilling <= 1)%nat) by (vm_compute; lia).
  split; [exact H|]. split; [exact (proj1 (removed_exactly_once 100 refilling "s" H))|vm_compute; reflexivity].
Defined.

Definition closing_up : list label := up ++ [LClose "s" CloseClientUI].

Lemma close_completes_witness :
  threads (run 100 closing_up) !! 2%nat = Some (CloseStart "s" CloseClientUI) /\
  let m' := solo (run 100 closing_up) 2 close_schedule in
  threads m' !! 2%nat = Some Done /\ GetSession m' "s" = None.
Proof.
  split; [vm_compute; reflexivity|].
  edestruct (close_completes 100 closing_up 2 "s" CloseClientUI 0%nat) as (H1 & H2 & _);
    [vm_compute; reflexivity|vm_compute; reflexivity|vm_compute; reflexivity|reflexivity|done|done|by split].
Defined.

(** The close arrives while the factory waits. *)
Definition closed_while_connecting : list label :=
  [LCreate ex_ep "acc" ex_tr "s"; LRun 0 (Now 5); LClose "s" CloseAgentDisconnect; LRun 1 NoEnv; LRun 1 NoEnv].

Lemma aborted_setup_is_finalised_witness :
  let m' := solo (run 100 closed_while_connecting) 0 (abort_schedule true) in
  threads m' !! 0%nat = Some Done /\ GetSession m' "s" = None /\ TransportClose 0 ∈ log m'.
Proof.
  edestruct (aborted_setup_is_finalised 100 closed_while_connecting 0 "s" 0%nat) with (ok := true)
    as (H1 & H2 & _ & ev & _ & _ & H3);
    [vm_compute; reflexivity|vm_compute; reflexivity|vm_compute; reflexivity|reflexivity|].
  split; [exact H1|]. split; [exact H2|]. rewrite H3. apply elem_of_app. right. by left.
Defined.
