(* ===== verification/AuditLog.v ===== *)
(** * The audit log's writers (internal/audit/writer.go)

    The writer is a subscriber: the session registry calls it on every status
    change, the approval registry when an action is created or resolved. Its
    bodies run on the caller's goroutine, so a log is modelled next to the
    registry that feeds it: a goroutine of the registry that has made the call
    waits until its write is done, while the others go on. *)
From S2P Require Import Prelude Clock Tokens Approval Buffer Terminal.
#[local] Open Scope Z_scope.

(** ** Columns *)

(** An empty text is NULL. *)
Definition nz (s : string) : option string := if bool_decide (s = EmptyString) then None else Some s.

Definition source_text (s : Source) : string :=
  match s with SourceUI => "ui" | SourceMCP => "mcp" | SourceSSH => "ssh" end.

Definition status_text (s : Terminal.Status) : string :=
  match s with
  | StatusOpening => "opening" | StatusOpen => "open" | StatusClosing => "closing" | StatusClosed => "closed" | StatusError => "error"
  end.

Definition reason_text (r : CloseReason) : string :=
  match r with
  | NoReason => "" | CloseClientUI => "client.ui" | CloseClientMCP => "client.mcp" | CloseClientWS => "client.ws"
  | CloseAgentDisconnect => "agent-disconnect" | CloseIdleTimeout => "idle-timeout" | CloseAccountDeleted => "account-deleted"
  | CloseServerHangup => "server-hangup" | CloseTransportError => "transport-error" | CloseShutdown => "shutdown"
  end.

(** One row of audit_session_lifecycle. *)
Record SessionRow := mkSessionRow {
  l_SessionID : string; l_AccountID : string; l_EndpointID : string; l_Source : string; l_Status : string; l_CreatedAt : string;
  l_ClosedAt : option string; l_DurationMs : option Z; l_SourceIP : option string; l_MCPReason : option string;
  l_MCPClientName : option string; l_MCPClientVersion : option string; l_ClientHostname : option string; l_ClientOS : option string;
  l_ClientVersion : option string; l_CloseReason : option string }.

(** One row of audit_signing_requests. *)
Record SigningRow := mkSigningRow {
  g_ID : string; g_AccountID : string; g_Type : string; g_Source : string; g_CreatedAt : string; g_ResolvedAt : option string;
  g_Outcome : option string; g_LatencyMs : option Z; g_SourceIP : option string; g_EndpointLabel : option string;
  g_EndpointAddress : option string; g_SessionID : option string; g_MCPReason : option string; g_MCPClientName : option string;
  g_MCPClientVersion : option string; g_ClientHostname : option string; g_ClientOS : option string; g_ClientVersion : option string;
  g_CredentialID : option string; g_PasskeyLabel : option string; g_UserVerification : option string; g_KeyLabel : option string;
  g_KeyFingerprint : option string; g_CancelReason : option string; g_EndpointID : option string; g_HostKeyFingerprint : option string;
  g_HostKeyPriorFingerprint : option string; g_HostKeyPinned : option bool }.

(** The two tables, by primary key, and the accounts their foreign keys point
    to. *)
Record AuditDB := mkAuditDB { accounts : gset string; lifecycle : gmap string SessionRow; signings : gmap string SigningRow }.

Definition with_lifecycle (db : AuditDB) (t : gmap string SessionRow) : AuditDB := mkAuditDB (accounts db) t (signings db).
Definition with_signings (db : AuditDB) (t : gmap string SigningRow) : AuditDB := mkAuditDB (accounts db) (lifecycle db) t.

(** INSERT: refused when the key is taken or the account unknown. *)
Definition insert_session (db : AuditDB) (r : SessionRow) : AuditDB * bool :=
  if bool_decide (l_AccountID r ∈ accounts db) && bool_decide (lifecycle db !! l_SessionID r = None)
  then (with_lifecycle db (<[l_SessionID r := r]> (lifecycle db)), true) else (db, false).

Definition type_values : list string := ["webauthn-sign"; "key-approve"; "host-key-mismatch"; "host-key-cleared"]%string.
Definition source_values : list string := ["endpoint-auth"; "agent-forwarding"; "agent-proxy"; "endpoint-admin"]%string.

(** INSERT: also refused by the table's CHECK constraints. *)
Definition insert_signing (db : AuditDB) (r : SigningRow) : AuditDB * bool :=
  if bool_decide (g_AccountID r ∈ accounts db) && bool_decide (signings db !! g_ID r = None)
     && bool_decide (g_Type r ∈ type_values) && bool_decide (g_Source r ∈ source_values)
  then (with_signings db (<[g_ID r := r]> (signings db)), true) else (db, false).

(** ON DELETE cascade. *)
Definition drop_account (db : AuditDB) (acc : string) : AuditDB :=
  mkAuditDB (accounts db ∖ {[acc]}) (filter (fun x => l_AccountID (snd x) <> acc) (lifecycle db))
    (filter (fun x => g_AccountID (snd x) <> acc) (signings db)).

(** ** Session lifecycle *)

(** What the subscriber does with a status event; the snapshot is that of the
    session registry. *)
Inductive Write := InsertOpen (s : Session) | RecordClose (e : StatusEvent).

Definition handleSessionStatus (e : StatusEvent) (snapshot : string -> option Session) : option Write :=
  let insert := if bool_decide (ev_Previous e = StatusOpening) then InsertOpen <$> snapshot (ev_SessionID e) else None in
  match ev_Status e with
  | StatusOpen => insert
  | StatusClosing => insert
  | StatusClosed | StatusError => Some (RecordClose e)
  | StatusOpening => None
  end.

Definition insertOpen (db : AuditDB) (s : Session) : AuditDB :=
  fst (insert_session db (mkSessionRow (SessionID s) (AccountID s) (EndpointID s) (source_text (s_Source s)) "open" (ISO (CreatedAt s))
    None None (nz (SourceIP s)) (nz (MCPReason s)) (nz (MCPClientName s)) (nz (MCPClientVer s)) None None None None)).

Definition close_row (now : Z) (e : StatusEvent) (r : SessionRow) : SessionRow :=
  mkSessionRow (l_SessionID r) (l_AccountID r) (l_EndpointID r) (l_Source r) (status_text (ev_Status e)) (l_CreatedAt r)
    (Some (ISO now)) (Some (Milliseconds (Sub now (ev_CreatedAt e)))) (l_SourceIP r) (l_MCPReason r) (l_MCPClientName r)
    (l_MCPClientVersion r) (l_ClientHostname r) (l_ClientOS r) (l_ClientVersion r) (nz (reason_text (ev_Reason e))).

(** UPDATE ... WHERE session_id = ? AND closed_at IS NULL *)
Definition recordClose (db : AuditDB) (now : Z) (e : StatusEvent) : AuditDB :=
  with_lifecycle db (alter (fun r => if l_ClosedAt r then r else close_row now e r) (ev_SessionID e) (lifecycle db)).

(** A write that fails is logged and forgotten. *)
Definition perform (db : AuditDB) (now : Z) (ok : bool) (w : Write) : AuditDB :=
  if ok then match w with InsertOpen s => insertOpen db s | RecordClose e => recordClose db now e end else db.

(** *** Next to the session registry (AttachManager) *)

Record World := mkWorld { w_mgr : Manager; w_writes : gmap nat Write; w_db : AuditDB }.

Inductive wlabel :=
  | WMgr (l : Terminal.label)
  | WWrite (tid : nat) (now : Z) (ok : bool)
  | WDropAccount (acc : string).

(** The call a step of goroutine [tid] makes. *)
Definition call_of (m : Manager) (l : Terminal.label) : option (nat * StatusEvent) :=
  match l with
  | Terminal.LRun tid _ =>
      match Terminal.threads m !! tid with Some (Emit (StatusHook ev) _) => Some (tid, ev) | _ => None end
  | _ => None
  end.

Definition busy (w : World) (l : Terminal.label) : bool :=
  match l with Terminal.LRun tid _ => bool_decide (is_Some (w_writes w !! tid)) | _ => false end.

Definition wstep (w : World) (l : wlabel) : World :=
  match l with
  | WMgr l =>
      if busy w l then w
      else
        let m := Terminal.step (w_mgr w) l in
        let writes := match call_of (w_mgr w) l with
          | Some (tid, ev) => match handleSessionStatus ev (GetSession m) with Some wr => <[tid := wr]> (w_writes w) | None => w_writes w end
          | None => w_writes w
          end in
        mkWorld m writes (w_db w)
  | WWrite tid now ok =>
      match w_writes w !! tid with
      | Some wr => mkWorld (w_mgr w) (delete tid (w_writes w)) (perform (w_db w) now ok wr)
      | None => w
      end
  | WDropAccount acc => mkWorld (w_mgr w) (w_writes w) (drop_account (w_db w) acc)
  end.

Definition world0 (max : Z) (accs : gset string) : World := mkWorld (NewManager max) ∅ (mkAuditDB accs ∅ ∅).

Definition wrun (max : Z) (accs : gset string) (ls : list wlabel) : World := fold_left wstep ls (world0 max accs).

(** *** Where the rows come from *)

Definition row_from (ls : list Terminal.label) (r : SessionRow) : Prop :=
  exists ep tr, LCreate ep (ep_AccountID ep) tr (l_SessionID r) ∈ ls /\ l_AccountID r = ep_AccountID ep /\ l_EndpointID r = ep_ID ep /\
    l_Source r = source_text (tr_Kind tr).

(** Open, or closed with everything a close records. *)
Definition row_shape (r : SessionRow) : Prop :=
  l_Status r = "open"%string /\ l_ClosedAt r = None /\ l_DurationMs r = None /\ l_CloseReason r = None \/
  (l_Status r = "closed"%string \/ l_Status r = "error"%string) /\ is_Some (l_ClosedAt r) /\ is_Some (l_DurationMs r).

Definition write_from (ls : list Terminal.label) (w : Write) : Prop :=
  match w with
  | InsertOpen s => exists g, session g = s /\ registered_by ls g
  | RecordClose e => ev_Status e = StatusClosed \/ ev_Status e = StatusError
  end.

Definition log_inv (max : Z) (ls : list Terminal.label) (w : World) : Prop :=
  w_mgr w = Terminal.run max ls /\
  (forall tid wr, w_writes w !! tid = Some wr -> write_from ls wr) /\
  (forall sid r, lifecycle (w_db w) !! sid = Some r -> l_SessionID r = sid /\ row_from ls r /\ row_shape r).

Lemma row_from_more ls l r : row_from ls r -> row_from (ls ++ [l]) r.
Proof. intros (ep & tr & Hin & H). exists ep, tr. rewrite elem_of_app. auto. Qed.

Lemma write_from_more ls l w : write_from ls w -> write_from (ls ++ [l]) w.
Proof. destruct w; [|done]. intros (g & Hg & Hr). exists g. split; [done|]. by apply registered_by_more. Qed.

Lemma snapshot_registered max ls sid s : GetSession (Terminal.run max ls) sid = Some s -> exists g, session g = s /\ registered_by ls g.
Proof.
  unfold GetSession, lookup_session, get. intros (g & Hg & ->)%fmap_Some.
  destruct (terminals _ !! sid) as [r|]; [|done]. exists g. split; [done|]. destruct (run_origins max ls) as (_ & Hh & _). by eapply Hh.
Qed.

Lemma handle_from max ls ev wr :
  handleSessionStatus ev (GetSession (Terminal.run max ls)) = Some wr -> write_from ls wr.
Proof.
  unfold handleSessionStatus. case_bool_decide; destruct (ev_Status ev) eqn:E; intros Hw; try done;
    try (apply fmap_Some in Hw as (s & Hs & ->); by eapply snapshot_registered); simplify_eq; cbn; rewrite E; auto.
Qed.

Lemma close_row_shape now e r :
  ev_Status e = StatusClosed \/ ev_Status e = StatusError -> row_shape (close_row now e r).
Proof. intros [H|H]; right; unfold close_row; rewrite H; cbn; eauto. Qed.

Lemma perform_rows ls db now ok wr : write_from ls wr ->
  (forall sid r, lifecycle db !! sid = Some r -> l_SessionID r = sid /\ row_from ls r /\ row_shape r) ->
  (forall sid r, lifecycle (perform db now ok wr) !! sid = Some r -> l_SessionID r = sid /\ row_from ls r /\ row_shape r).
Proof.
  intros Hwr Hrows sid r. destruct ok; [|apply Hrows]. destruct wr as [s|e]; cbn [perform].
  - unfold insertOpen, insert_session. case_match; [|apply Hrows]. cbn. intros [[<- <-]|[_ Hr]]%lookup_insert_Some; [|by apply Hrows].
    destruct Hwr as (g & <- & (ep & ex & tr & Hin & He & Ha & Hep & Hs & _)). split; [done|]. split; [|by left]. exists ep, tr. cbn. subst ex.
    by rewrite Hs.
  - unfold recordClose. cbn. rewrite lookup_alter_Some. intros [(<- & r0 & Hr0 & ->)|[_ Hr]]; [|by apply Hrows].
    destruct (Hrows _ _ Hr0) as (Hid & Hfrom & Hshape). destruct (l_ClosedAt r0); [done|]. split; [done|]. split; [done|]. by apply close_row_shape.
Qed.

Lemma wstep_inv max ls w l : log_inv max ls w ->
  exists ls', log_inv max ls' (wstep w l) /\ (ls' = ls \/ exists l', l = WMgr l' /\ ls' = ls ++ [l']).
Proof.
  intros (Hm & Hw & Hr). destruct l as [l|tid now ok|acc]; cbn [wstep].
  - destruct (busy w l); [exists ls; by split; [|left]|]. exists (ls ++ [l]). split; [|by right; exists l].
    assert (Terminal.step (w_mgr w) l = Terminal.run max (ls ++ [l])) as Hs by (by rewrite run_snoc, Hm). rewrite Hs. split; [done|]. split.
    + intros tid wr. cbn. destruct (call_of (w_mgr w) l) as [[tid' ev]|]; [|intros H; by eapply write_from_more, Hw].
      destruct (handleSessionStatus ev _) as [wr'|] eqn:E; [|intros H; by eapply write_from_more, Hw].
      intros [[<- <-]|[_ H]]%lookup_insert_Some; [by eapply handle_from|by eapply write_from_more, Hw].
    + cbn. intros sid r (Hid & Hfrom & Hshape)%Hr. split; [done|]. split; [by apply row_from_more|done].
  - exists ls. split; [|by left]. destruct (w_writes w !! tid) as [wr|] eqn:E; [|done]. split; [done|]. cbn. split.
    + intros tid' wr' [_ H]%lookup_delete_Some. by eapply Hw.
    + apply perform_rows; [by eapply Hw|done].
  - exists ls. split; [|by left]. split; [done|]. split; [done|]. cbn. intros sid r [Hl _]%map_lookup_filter_Some. by apply Hr.
Qed.

Lemma wrun_snoc max accs ls l : wrun max accs (ls ++ [l]) = wstep (wrun max accs ls) l.
Proof. unfold wrun. by rewrite fold_left_app. Qed.

Lemma wrun_inv max accs ls : exists ls', log_inv max ls' (wrun max accs ls) /\ forall l, l ∈ ls' -> WMgr l ∈ ls.
Proof.
  induction ls as [|l ls (ls' & Hinv & Hin)] using rev_ind.
  - exists []. split; [|set_solver]. split; [done|]. split; intros ? ? H; cbn in H; by rewrite lookup_empty in H.
  - rewrite wrun_snoc. destruct (wstep_inv max ls' (wrun max accs ls) l Hinv) as (ls'' & Hinv' & [-> | (l' & -> & ->)]).
    + exists ls'. split; [done|]. intros l' Hl'. apply elem_of_app. left. by apply Hin.
    + exists (ls' ++ [l']). split; [done|]. intros x. rewrite !elem_of_app, !list_elem_of_singleton. intros [H| ->]; [left; by apply Hin|by right].
Qed.

(** What a step may do to a row: nothing, close it once, or drop it with its
    account. *)
Lemma perform_keeps db now ok wr sid r : lifecycle db !! sid = Some r ->
  exists r', lifecycle (perform db now ok wr) !! sid = Some r' /\ l_AccountID r' = l_AccountID r /\ l_EndpointID r' = l_EndpointID r /\
    l_Source r' = l_Source r /\ l_CreatedAt r' = l_CreatedAt r /\ (is_Some (l_ClosedAt r) -> r' = r).
Proof.
  intros Hr. destruct ok; [|by exists r]. destruct wr as [s|e]; cbn [perform].
  - unfold insertOpen, insert_session. case_match eqn:E; [|by exists r]. exists r. split; [|done]. cbn.
    rewrite andb_true_iff, !bool_decide_eq_true in E. destruct E as [_ E]. cbn in E. rewrite lookup_insert_ne; [done|]. intros <-. congruence.
  - unfold recordClose. cbn. destruct (decide (ev_SessionID e = sid)) as [->|]; [rewrite lookup_alter_eq|rewrite lookup_alter_ne by done; by exists r].
    rewrite Hr. cbn. eexists. split; [done|]. by destruct (l_ClosedAt r) eqn:E; [|split_and!; try done; intros [? ?]].
Qed.

Lemma wstep_keeps w l sid r : lifecycle (w_db w) !! sid = Some r -> l <> WDropAccount (l_AccountID r) ->
  exists r', lifecycle (w_db (wstep w l)) !! sid = Some r' /\ l_AccountID r' = l_AccountID r /\ l_EndpointID r' = l_EndpointID r /\
    l_Source r' = l_Source r /\ l_CreatedAt r' = l_CreatedAt r /\ (is_Some (l_ClosedAt r) -> r' = r).
Proof.
  intros Hr Hne. destruct l as [l|tid now ok|acc]; cbn [wstep].
  - exists r. by destruct (busy w l).
  - destruct (w_writes w !! tid) as [wr|]; [by apply perform_keeps|by exists r].
  - exists r. split; [|done]. cbn. apply map_lookup_filter_Some. split; [done|]. cbn. congruence.
Qed.

(** Whatever the interleaving of the session registry's goroutines with
    the writes they wait for, a row of the session log tells of a session that
    was created: for the account the row names, on an endpoint of that account,
    from that source; and it is either open or has everything a close records. *)
Theorem session_log_sound max accs ls sid r : lifecycle (w_db (wrun max accs ls)) !! sid = Some r ->
  l_SessionID r = sid /\ row_shape r /\
  exists ep tr, WMgr (LCreate ep (ep_AccountID ep) tr sid) ∈ ls /\ l_AccountID r = ep_AccountID ep /\ l_EndpointID r = ep_ID ep /\
    l_Source r = source_text (tr_Kind tr).
Proof.
  intros Hr. destruct (wrun_inv max accs ls) as (ls' & (_ & _ & Hrows) & Hin). destruct (Hrows sid r Hr) as (Hid & (ep & tr & Hl & H) & Hs).
  split_and!; [done|done|]. exists ep, tr. subst sid. split; [by apply Hin|done].
Qed.

(** The session log is append-only: a row keeps its account, endpoint,
    source and creation time, and once closed it never changes, until its
    account is deleted. *)
Theorem session_log_append_only max accs ls ls' sid r :
  lifecycle (w_db (wrun max accs ls)) !! sid = Some r -> WDropAccount (l_AccountID r) ∉ ls' ->
  exists r', lifecycle (w_db (wrun max accs (ls ++ ls'))) !! sid = Some r' /\ l_AccountID r' = l_AccountID r /\ l_EndpointID r' = l_EndpointID r /\
    l_Source r' = l_Source r /\ l_CreatedAt r' = l_CreatedAt r /\ (is_Some (l_ClosedAt r) -> r' = r).
Proof.
  intros Hr. induction ls' as [|l ls' IH] using rev_ind; intros Hnd; [rewrite app_nil_r; by exists r|].
  rewrite elem_of_app, list_elem_of_singleton in Hnd. destruct IH as (r1 & H1 & Ha & He & Hs & Hc & Hk); [tauto|].
  rewrite app_assoc, wrun_snoc. destruct (wstep_keeps (wrun max accs (ls ++ ls')) l sid r1 H1) as (r2 & H2 & Ha' & He' & Hs' & Hc' & Hk').
  { rewrite Ha. intros ->. tauto. }
  exists r2. split_and!; try congruence. intros H. specialize (Hk H). subst. by apply Hk'.
Qed.

(** *** Order matters *)

Definition opening_up : list wlabel := map WMgr (take 5 Terminal.up).
Definition closing_down : list wlabel :=
  WMgr (LClose "s" CloseClientUI) :: map (fun e => WMgr (Terminal.LRun 1 e)) [NoEnv; NoEnv; NoEnv; NoEnv; NoEnv; JoinTimeout true; NoEnv; NoEnv].

(** The row of a session whose calls are made in the order of its transitions. *)
Example session_logged :
  (fun r => (l_Status r, l_ClosedAt r, l_CloseReason r)) <$>
    lifecycle (w_db (wrun 100 {["acc"%string]} (opening_up ++ [WMgr (Terminal.LRun 0 NoEnv); WWrite 0 6 true] ++ closing_down ++ [WWrite 1 7000000 true]))) !! "s"%string
  = Some ("closed"%string, Some "1970-01-01T00:00:00.007Z"%string, Some "client.ui"%string).
Proof. by vm_compute. Qed.

(** A session can stay open in the log for ever although it is closed and gone:
    the insertion that Create waits for may reach the database after the update
    of a close; and it can be missing from the log altogether, when the close
    is over before the registry calls the writer for the opening. *)
Theorem session_log_races :
  (let w := wrun 100 {["acc"%string]} (opening_up ++ [WMgr (Terminal.LRun 0 NoEnv)] ++ closing_down ++
       [WWrite 1 7 true; WMgr (Terminal.LRun 1 NoEnv); WMgr (Terminal.LRun 1 NoEnv); WWrite 0 8 true]) in
   GetSession (w_mgr w) "s" = None /\ l_Status <$> lifecycle (w_db w) !! "s"%string = Some "open"%string) /\
  (let w := wrun 100 {["acc"%string]} (opening_up ++ closing_down ++ [WWrite 1 7 true; WMgr (Terminal.LRun 1 NoEnv); WMgr (Terminal.LRun 1 NoEnv);
       WMgr (Terminal.LRun 0 NoEnv)]) in
   GetSession (w_mgr w) "s" = None /\ w_writes w = ∅ /\ lifecycle (w_db w) = ∅ /\ length (Terminal.log (w_mgr w)) = 6%nat).
Proof. split; vm_compute; auto. Qed.

Lemma session_log_sound_witness :
  let w := wrun 100 {["acc"%string]} (opening_up ++ [WMgr (Terminal.LRun 0 NoEnv); WWrite 0 6 true]) in
  exists r, lifecycle (w_db w) !! "s"%string = Some r /\ l_AccountID r = "acc"%string /\ row_shape r.
Proof.
  eexists. split; [by vm_compute|]. split; [done|].
  eapply (session_log_sound 100 {["acc"%string]} (opening_up ++ [WMgr (Terminal.LRun 0 NoEnv); WWrite 0 6 true]) "s"). by vm_compute.
Defined.

Lemma session_log_append_only_witness :
  let ls := opening_up ++ [WMgr (Terminal.LRun 0 NoEnv); WWrite 0 6 true] ++ closing_down ++ [WWrite 1 7000000 true] in
  exists r, lifecycle (w_db (wrun 100 {["acc"%string]} ls)) !! "s"%string = Some r /\ is_Some (l_ClosedAt r) /\
    lifecycle (w_db (wrun 100 {["acc"%string]} (ls ++ [WDropAccount "other"]))) !! "s"%string = Some r.
Proof.
  cbv zeta. set (ls := opening_up ++ _). eexists. split; [by vm_compute|]. split; [by eexists|].
  destruct (session_log_append_only 100 {["acc"%string]} ls [WDropAccount "other"] "s" _ ltac:(by vm_compute)) as (r' & Hr' & _ & _ & _ & _ & Hk).
  - cbn. set_solver.
  - rewrite Hr'. f_equal. apply Hk. by eexists.
Defined.

(** ** Signing requests *)

Definition type_text (t : ActionType) : string := match t with TypeWebAuthnSign => "webauthn-sign" | TypeKeyApprove => "key-approve" end.

Definition outcome_text (o : Outcome) : string :=
  match o with OutcomeApproved => "approved" | OutcomeDenied => "denied" | OutcomeExpired => "expired" | OutcomeCancelled => "cancelled" end.

(** insertSigning's row. *)
Definition signing_row (a : Action) : SigningRow :=
  let p := a_Params a in let c := cp_Context p in
  mkSigningRow (a_ID a) (cp_AccountID p) (type_text (cp_Type p)) (cx_Source c) (ISO (a_CreatedAt a)) None None None
    (nz (cx_SourceIP c)) (nz (cx_EndpointLabel c)) (nz (cx_EndpointAddress c)) (nz (cx_SessionID c))
    (nz (cx_MCPReason c)) (nz (cx_MCPClientName c)) (nz (cx_MCPClientVer c)) (nz (cx_ClientHostname c)) (nz (cx_ClientOS c)) (nz (cx_ClientVersion c))
    (nz (cp_CredentialID p)) (nz (cp_PasskeyLabel p)) (nz (cp_UserVerification p)) (nz (cp_KeyLabel p)) (nz (cp_KeyFingerprint p)) None
    None (nz (match cx_HostKey c with Some hk => hki_Fingerprint hk | None => EmptyString end)) None None.

Definition insertSigning (db : AuditDB) (a : Action) : AuditDB := fst (insert_signing db (signing_row a)).

Definition resolve_row (ev : ResolvedEvent) (r : SigningRow) : SigningRow :=
  mkSigningRow (g_ID r) (g_AccountID r) (g_Type r) (g_Source r) (g_CreatedAt r) (Some (ISO (re_ResolvedAt ev)))
    (Some (outcome_text (re_Outcome ev))) (Some (Milliseconds (Sub (re_ResolvedAt ev) (a_CreatedAt (re_Action ev)))))
    (g_SourceIP r) (g_EndpointLabel r) (g_EndpointAddress r) (g_SessionID r) (g_MCPReason r) (g_MCPClientName r) (g_MCPClientVersion r)
    (g_ClientHostname r) (g_ClientOS r) (g_ClientVersion r) (g_CredentialID r) (g_PasskeyLabel r) (g_UserVerification r) (g_KeyLabel r)
    (g_KeyFingerprint r) (nz (re_CancelReason ev)) (g_EndpointID r) (g_HostKeyFingerprint r) (g_HostKeyPriorFingerprint r) (g_HostKeyPinned r).

(** UPDATE ... WHERE id = ? AND resolved_at IS NULL *)
Definition recordResolution (db : AuditDB) (ev : ResolvedEvent) : AuditDB :=
  with_signings db (alter (fun r => if g_ResolvedAt r then r else resolve_row ev r) (a_ID (re_Action ev)) (signings db)).

Definition pin_row (r : SigningRow) : SigningRow :=
  mkSigningRow (g_ID r) (g_AccountID r) (g_Type r) (g_Source r) (g_CreatedAt r) (g_ResolvedAt r) (g_Outcome r) (g_LatencyMs r)
    (g_SourceIP r) (g_EndpointLabel r) (g_EndpointAddress r) (g_SessionID r) (g_MCPReason r) (g_MCPClientName r) (g_MCPClientVersion r)
    (g_ClientHostname r) (g_ClientOS r) (g_ClientVersion r) (g_CredentialID r) (g_PasskeyLabel r) (g_UserVerification r) (g_KeyLabel r)
    (g_KeyFingerprint r) (g_CancelReason r) (g_EndpointID r) (g_HostKeyFingerprint r) (g_HostKeyPriorFingerprint r) (Some true).

Definition MarkHostKeyPinned (db : AuditDB) (actionID : string) (ok : bool) : AuditDB :=
  if bool_decide (actionID = EmptyString) then db
  else if ok then with_signings db (alter pin_row actionID (signings db)) else db.

(** A host-key audit record. *)
Record HostKeyEvent := mkHKEvent {
  he_Type : string; he_AccountID : string; he_EndpointID : string; he_EndpointLabel : string; he_EndpointAddress : string;
  he_Source : string; he_Fingerprint : string; he_PriorFingerprint : string; he_Reason : string; he_SourceIP : string;
  he_MCPReason : string; he_MCPClientName : string; he_MCPClientVersion : string }.

Definition host_key_row (ev : HostKeyEvent) (id now : string) : SigningRow :=
  mkSigningRow id (he_AccountID ev) (he_Type ev) (he_Source ev) now (Some now)
    (if bool_decide (he_Type ev = "host-key-mismatch"%string) then Some "denied"%string else None) (Some 0)
    (nz (he_SourceIP ev)) (nz (he_EndpointLabel ev)) (nz (he_EndpointAddress ev)) None (nz (he_MCPReason ev)) (nz (he_MCPClientName ev))
    (nz (he_MCPClientVersion ev)) None None None None None None None None (nz (he_Reason ev)) (nz (he_EndpointID ev))
    (nz (he_Fingerprint ev)) (nz (he_PriorFingerprint ev)) None.

(** [id] is what the id generator returns; the answer is "" when the insert
    failed. *)
Definition RecordHostKeyEvent (db : AuditDB) (now : Z) (id : string) (ok : bool) (ev : HostKeyEvent) : AuditDB * string :=
  if ok then let '(db', done) := insert_signing db (host_key_row ev id (ISO now)) in (db', if done then id else EmptyString)
  else (db, EmptyString).

(** *** Next to the approval registry (AttachStore) *)

Definition subscriber (db : AuditDB) (ok : bool) (e : effect) : AuditDB :=
  if ok then match e with CreatedHook a => insertSigning db a | ResolvedHook ev => recordResolution db ev | _ => db end else db.

(** An operation leaves its calls to be made, in their order, after its
    critical section; the calls of different operations interleave freely. *)
Record SWorld := mkSWorld { s_reg : Registry; s_calls : list (list effect); s_db : AuditDB }.

Inductive slabel :=
  | SOp (o : op)
  | SCall (i : nat) (ok : bool)
  | SPinned (actionID : string) (ok : bool)
  | SHostKey (now : Z) (id : string) (ok : bool) (ev : HostKeyEvent)
  | SDropAccount (acc : string).

Definition sstep (w : SWorld) (l : slabel) : SWorld :=
  match l with
  | SOp o => let '(reg, es) := exec (s_reg w) o in mkSWorld reg (s_calls w ++ [es]) (s_db w)
  | SCall i ok =>
      match s_calls w !! i with
      | Some (e :: rest) => mkSWorld (s_reg w) (<[i := rest]> (s_calls w)) (subscriber (s_db w) ok e)
      | _ => w
      end
  | SPinned id ok => mkSWorld (s_reg w) (s_calls w) (MarkHostKeyPinned (s_db w) id ok)
  | SHostKey now id ok ev => mkSWorld (s_reg w) (s_calls w) (fst (RecordHostKeyEvent (s_db w) now id ok ev))
  | SDropAccount acc => mkSWorld (s_reg w) (s_calls w) (drop_account (s_db w) acc)
  end.

Definition srun (accs : gset string) (ls : list slabel) : SWorld := fold_left sstep ls (mkSWorld ∅ [] (mkAuditDB accs ∅ ∅)).

Definition ops_of (ls : list slabel) : list op := omap (fun l => match l with SOp o => Some o | _ => None end) ls.

(** What the approval registry has called so far, and will have to. *)
Definition emitted (ls : list slabel) : list effect := snd (Approval.run ∅ (ops_of ls)).

(** A row tells of an action that was created, or of a host-key event. *)
Definition row_of (ls : list slabel) (id : string) (r : SigningRow) : Prop :=
  g_ID r = id /\
  ((exists a, CreatedHook a ∈ emitted ls /\ a_ID a = id /\
      ((exists base, (base = signing_row a \/ base = pin_row (signing_row a)) /\
         (r = base \/ exists ev, ResolvedHook ev ∈ emitted ls /\ a_ID (re_Action ev) = id /\ r = resolve_row ev base))) ) \/
   (exists now ok ev, SHostKey now id ok ev ∈ ls /\ (r = host_key_row ev id (ISO now) \/ r = pin_row (host_key_row ev id (ISO now))))).

Definition sinv (ls : list slabel) (w : SWorld) : Prop :=
  s_reg w = fst (Approval.run ∅ (ops_of ls)) /\
  (forall es e, es ∈ s_calls w -> e ∈ es -> e ∈ emitted ls) /\
  (forall id r, signings (s_db w) !! id = Some r -> row_of ls id r).

Lemma ops_of_app ls ls' : ops_of (ls ++ ls') = ops_of ls ++ ops_of ls'.
Proof. unfold ops_of. induction ls as [|l ls IH]; [done|]. cbn. destruct l; cbn; by rewrite IH. Qed.

Lemma emitted_snoc ls l : emitted (ls ++ [l]) =
  emitted ls ++ match l with SOp o => snd (exec (fst (Approval.run ∅ (ops_of ls))) o) | _ => [] end.
Proof.
  unfold emitted. rewrite ops_of_app, Approval.run_app. destruct (Approval.run ∅ (ops_of ls)) as [s1 es1]. cbn.
  destruct l; cbn; rewrite ?app_nil_r; try done. destruct (exec s1 o) as [s2 es2]. cbn. by rewrite app_nil_r.
Qed.

Lemma row_of_more ls l id r : row_of ls id r -> row_of (ls ++ [l]) id r.
Proof.
  assert (forall e, e ∈ emitted ls -> e ∈ emitted (ls ++ [l])) as Hin by (intros e He; rewrite emitted_snoc; apply elem_of_app; by left).
  intros [Hid [(a & Ha & Hia & base & Hb & Hr)|(now & ok & ev & Hl & Hr)]]; split; try done.
  - left. exists a. split; [by apply Hin|]. split; [done|]. exists base. split; [done|]. destruct Hr as [->|(ev & Hev & H)]; [by left|right].
    exists ev. split; [by apply Hin|done].
  - right. exists now, ok, ev. split; [|done]. apply elem_of_app. by left.
Qed.

Lemma insert_signing_lookup db r0 id r : signings (fst (insert_signing db r0)) !! id = Some r ->
  signings db !! id = Some r \/ id = g_ID r0 /\ r = r0.
Proof. unfold insert_signing. case_match; [|by left]. cbn. intros [[<- <-]|[_ Hr]]%lookup_insert_Some; auto. Qed.

Lemma resolve_pin ev r : resolve_row ev (pin_row r) = pin_row (resolve_row ev r).
Proof. done. Qed.

Lemma pin_row_of ls id r : row_of ls id r -> row_of ls id (pin_row r).
Proof.
  assert (forall r0, pin_row (pin_row r0) = pin_row r0) as Hpp by done.
  intros [Hid [(a & Ha & Hia & base & Hb & Hr)|(now & ok & ev & Hl & Hr)]]; (split; [done|]).
  - left. exists a. split; [done|]. split; [done|]. exists (pin_row base). split; [right; by destruct Hb as [->| ->]|].
    destruct Hr as [->|(ev & Hev & He & ->)]; [by left|right; by exists ev].
  - right. exists now, ok, ev. split; [done|]. right. by destruct Hr as [->| ->].
Qed.

Lemma subscriber_rows ls db ok e : e ∈ emitted ls ->
  (forall id r, signings db !! id = Some r -> row_of ls id r) ->
  forall id r, signings (subscriber db ok e) !! id = Some r -> row_of ls id r.
Proof.
  intros He Hrows id r. unfold subscriber. destruct ok; [|apply Hrows]. destruct e as [a| | | |ev]; try apply Hrows.
  - intros [H|[-> ->]]%insert_signing_lookup; [by apply Hrows|]. split; [done|]. left. exists a. split; [done|]. split; [done|].
    exists (signing_row a). auto.
  - unfold recordResolution. cbn. rewrite lookup_alter_Some. intros [(<- & r0 & Hr0 & ->)|[_ Hr]]; [|by apply Hrows].
    pose proof (Hrows _ _ Hr0) as [Hid Hrow]. destruct (g_ResolvedAt r0) eqn:E; [by split|]. split; [done|]. left.
    destruct Hrow as [(a & Ha & Hia & base & Hb & Hr)|(now & ok & hev & Hl & Hr)].
    + exists a. split; [done|]. split; [done|]. exists base. split; [done|]. right. exists ev. split; [done|]. split; [done|].
      destruct Hr as [->|(ev' & _ & _ & ->)]; [done|]. done.
    + destruct Hr as [->| ->]; done.
Qed.

Lemma sstep_inv ls w l : sinv ls w -> sinv (ls ++ [l]) (sstep w l).
Proof.
  intros (Hreg & Hcalls & Hrows).
  assert (forall e, e ∈ emitted ls -> e ∈ emitted (ls ++ [l])) as Hin by (intros e He; rewrite emitted_snoc; apply elem_of_app; by left).
  assert (forall id r, signings (s_db w) !! id = Some r -> row_of (ls ++ [l]) id r) as Hrows' by (intros; by apply row_of_more, Hrows).
  assert (forall es e, es ∈ s_calls w -> e ∈ es -> e ∈ emitted (ls ++ [l])) as Hcalls' by (intros; by eapply Hin, Hcalls).
  unfold sinv. rewrite ops_of_app, Approval.run_app.
  destruct l as [o|i ok|aid ok|now id ok ev|acc]; cbn [sstep ops_of omap list_omap].
  - pose proof (emitted_snoc ls (SOp o)) as Hem. rewrite <- Hreg in Hem. unfold emitted in Hem.
    destruct (Approval.run ∅ (ops_of ls)) as [s1 es1] eqn:E1. cbn in Hreg. subst s1. cbn. destruct (exec (s_reg w) o) as [s2 es2] eqn:E2. cbn in *.
    split; [done|]. split; [|done]. intros es e. rewrite elem_of_app, list_elem_of_singleton. intros [Hes| ->] He; [by eapply Hcalls'|].
    unfold emitted. rewrite Hem. apply elem_of_app. by right.
  - destruct (Approval.run ∅ (ops_of ls)) as [s1 es1] eqn:E1. cbn in Hreg |- *.
    destruct (s_calls w !! i) as [[|e rest]|] eqn:Ei; try by split_and!.
    assert (e :: rest ∈ s_calls w) as Hel by (by eapply list_elem_of_lookup_2). split; [done|]. split; cbn.
    + intros es e' Hes He'. apply list_elem_of_lookup in Hes as [j Hj]. apply list_lookup_insert_Some in Hj as [(_ & <- & _)|[_ Hj]].
      * eapply Hcalls'; [exact Hel|]. by right.
      * eapply Hcalls'; [by eapply list_elem_of_lookup_2|done].
    + apply subscriber_rows; [|done]. eapply Hcalls'; [exact Hel|by left].
  - destruct (Approval.run ∅ (ops_of ls)) as [s1 es1] eqn:E1. cbn in Hreg |- *. split; [done|]. split; [done|]. unfold MarkHostKeyPinned.
    case_bool_decide; [done|]. destruct ok; [|done]. cbn. intros id r. rewrite lookup_alter_Some.
    intros [(<- & r0 & Hr0 & ->)|[_ Hr]]; [|by apply Hrows']. by apply pin_row_of, Hrows'.
  - destruct (Approval.run ∅ (ops_of ls)) as [s1 es1] eqn:E1. cbn in Hreg |- *. split; [done|]. split; [done|]. unfold RecordHostKeyEvent.
    destruct ok; [|done]. destruct (insert_signing _ _) as [db' dn] eqn:Ei. cbn. intros id' r Hr.
    pose proof (insert_signing_lookup (s_db w) (host_key_row ev id (ISO now)) id' r) as Hl. rewrite Ei in Hl. cbn in Hl.
    destruct (Hl Hr) as [H|[-> ->]]; [by apply Hrows'|]. split; [done|]. right. exists now, true, ev. split; [|by left].
    apply elem_of_app. right. by left.
  - destruct (Approval.run ∅ (ops_of ls)) as [s1 es1] eqn:E1. cbn in Hreg |- *. split; [done|]. split; [done|]. cbn.
    intros id r [Hr _]%map_lookup_filter_Some. by apply Hrows'.
Qed.

Lemma srun_snoc accs ls l : srun accs (ls ++ [l]) = sstep (srun accs ls) l.
Proof. unfold srun. by rewrite fold_left_app. Qed.

Lemma srun_inv accs ls : sinv ls (srun accs ls).
Proof.
  induction ls as [|l ls IH] using rev_ind; [|rewrite srun_snoc; by apply sstep_inv].
  split; [done|]. split; [intros es e H; by apply not_elem_of_nil in H|]. intros id r H. cbn in H. by rewrite lookup_empty in H.
Qed.

(** Only Create makes the created calls. *)
Lemma not_created_call_if a b e : (forall x, e <> CreatedHook x) -> CreatedHook a ∉ call_if b e.
Proof. intros He. destruct b; cbn; [|apply not_elem_of_nil]. rewrite list_elem_of_singleton. intros H. by apply (He a). Qed.

Lemma not_created_settled a x err out now reason : CreatedHook a ∉ rejectAction x err ++ emitResolved x out now reason.
Proof.
  rewrite elem_of_app. intros [H|H]; [by eapply not_created_call_if in H|]. unfold emitResolved in H. by apply list_elem_of_singleton in H.
Qed.

Lemma takePending_not_created a s now id typ to r res s' es : takePending s now id typ to = (r, res, s', es) -> CreatedHook a ∉ es.
Proof.
  unfold takePending. destruct (s !! id) as [x|]; [|intros; simplify_eq; apply not_elem_of_nil].
  destruct (match typ with Some t => _ | None => _ end); [intros; simplify_eq; apply not_elem_of_nil|].
  destruct (_ && _); [intros; simplify_eq; apply not_created_settled|]. destruct (negb _); intros; simplify_eq; apply not_elem_of_nil.
Qed.

Lemma not_created_concat a (f : Action -> list effect) l : (forall x, CreatedHook a ∉ f x) -> CreatedHook a ∉ concat (map f l).
Proof. intros Hf. induction l as [|x l IH]; cbn; [apply not_elem_of_nil|]. rewrite elem_of_app. intros [H|H]; [by apply (Hf x)|done]. Qed.

Lemma exec_created s o a : CreatedHook a ∈ snd (exec s o) ->
  exists now p, o = OpCreate now (a_ID a) p /\ a = mkAction (a_ID a) p StatusPending now (now + ActionTTL).
Proof.
  destruct o as [now id p|now id resp|now id|now id|now order c r|now order]; cbn.
  - intros [= ->]%list_elem_of_singleton. by exists now, p.
  - unfold ResolveSign. destruct (takePending _ _ _ _ _) as [[[[x|] res] s1] es1] eqn:E; cbn; intros H; exfalso; revert H;
      pose proof (takePending_not_created a _ _ _ _ _ _ _ _ _ E); rewrite ?elem_of_app; [|done].
    intros [|[H1|H1]]; [done|by eapply not_created_call_if in H1|by apply list_elem_of_singleton in H1].
  - unfold ResolveKey. destruct (takePending _ _ _ _ _) as [[[[x|] res] s1] es1] eqn:E; cbn; intros H; exfalso; revert H;
      pose proof (takePending_not_created a _ _ _ _ _ _ _ _ _ E); rewrite ?elem_of_app; [|done].
    intros [|[H1|H1]]; [done|by eapply not_created_call_if in H1|by apply list_elem_of_singleton in H1].
  - unfold Deny. destruct (takePending _ _ _ _ _) as [[[[x|] res] s1] es1] eqn:E; cbn; intros H; exfalso; revert H;
      pose proof (takePending_not_created a _ _ _ _ _ _ _ _ _ E); rewrite ?elem_of_app; [|done].
    intros [|H1]; [done|]. apply (not_created_settled a x ErrDenied OutcomeDenied now EmptyString). by rewrite elem_of_app.
  - unfold CancelForConnection. destruct (cancel_loop order s c) as [s1 l]. cbn. intros H. exfalso. revert H.
    apply not_created_concat. intros x. apply not_created_settled.
  - unfold Sweep. destruct (sweep_loop order s now) as [s1 l]. cbn. intros H. exfalso. revert H.
    apply not_created_concat. intros x. apply not_created_settled.
Qed.

Lemma run_created s ops a : CreatedHook a ∈ snd (Approval.run s ops) ->
  exists now p, OpCreate now (a_ID a) p ∈ ops /\ a = mkAction (a_ID a) p StatusPending now (now + ActionTTL).
Proof.
  revert s. induction ops as [|o ops IH]; intros s; cbn; [intros H; by apply not_elem_of_nil in H|].
  destruct (exec s o) as [s1 es1] eqn:E. specialize (IH s1). destruct (Approval.run s1 ops) as [s2 es2]. cbn in *. rewrite elem_of_app. intros [H|H].
  - pose proof (exec_created s o a) as He. rewrite E in He. destruct (He H) as (now & p & -> & Ha). exists now, p. split; [by left|done].
  - destruct (IH H) as (now & p & Hin & Ha). exists now, p. split; [by right|done].
Qed.

Lemma count_unique f id es e e' : (count_id f id es <= 1)%nat -> e ∈ es -> e' ∈ es -> f e = Some id -> f e' = Some id -> e = e'.
Proof.
  unfold count_id. intros Hc He He' Hf Hf'.
  assert (e ∈ filter (fun e => f e = Some id) es) as H by (by apply list_elem_of_filter).
  assert (e' ∈ filter (fun e => f e = Some id) es) as H' by (by apply list_elem_of_filter).
  destruct (filter _ es) as [|x [|y l]]; [by apply not_elem_of_nil in H| |cbn in Hc; lia].
  apply list_elem_of_singleton in H, H'. congruence.
Qed.

Lemma count_pos f id es e : e ∈ es -> f e = Some id -> (1 <= count_id f id es)%nat.
Proof.
  unfold count_id. intros He Hf. assert (e ∈ filter (fun e => f e = Some id) es) as H by (by apply list_elem_of_filter).
  destruct (filter _ es); [by apply not_elem_of_nil in H|cbn; lia].
Qed.

(** Whatever the interleaving of requests, resolutions and the writes they
    wait for, a row of the signing log of a created action names the account,
    type, source and time of its creation; and an outcome it shows is that of
    the one resolution the approval registry ever made of that action: never of
    an action that is still pending (C16). *)
Theorem signing_log_truthful accs ls id r :
  NoDup (created_ids (ops_of ls)) -> (forall now ok ev, SHostKey now id ok ev ∉ ls) ->
  signings (s_db (srun accs ls)) !! id = Some r ->
  (exists now p, SOp (OpCreate now id p) ∈ ls /\ g_AccountID r = cp_AccountID p /\ g_Type r = type_text (cp_Type p) /\
     g_Source r = cx_Source (cp_Context p) /\ g_CreatedAt r = ISO now) /\
  (phase (s_reg (srun accs ls)) id = Some true -> g_Outcome r = None) /\
  (forall o, g_Outcome r = Some o -> exists ev, ResolvedHook ev ∈ emitted ls /\ a_ID (re_Action ev) = id /\ o = outcome_text (re_Outcome ev) /\
     forall ev', ResolvedHook ev' ∈ emitted ls -> a_ID (re_Action ev') = id -> ev' = ev).
Proof.
  intros Hnd Hhk Hr. destruct (srun_inv accs ls) as (Hreg & _ & Hrows). destruct (Hrows id r Hr) as [Hid [Hrow|(now & ok & ev & Hl & _)]];
    [|by apply Hhk in Hl]. clear Hid. destruct Hrow as (a & Ha & Hia & base & Hb & Hbr).
  pose proof (run_counts (ops_of ls) ∅ id wf_empty) as Hc. rewrite Hreg. unfold emitted in *.
  destruct (run_created ∅ (ops_of ls) a Ha) as (now & p & Hop & Hae). rewrite Hia in Hop.
  pose proof (f_equal a_Params Hae) as Hap. pose proof (f_equal a_CreatedAt Hae) as Hac. cbn in Hap, Hac. clear Hae.
  destruct (Approval.run ∅ (ops_of ls)) as [s es]. cbn in *.
  destruct Hc as (Hle & _ & Hpend & _); [split; [done|]; intros i _; unfold phase; by rewrite registry_empty|].
  split; [|split].
  - exists now, p. split.
    + unfold ops_of in Hop. apply list_elem_of_omap in Hop as (l & Hl & El). destruct l; simplify_eq. done.
    + destruct Hb as [->| ->], Hbr as [->|(ev & _ & _ & ->)]; cbn; rewrite Hap, Hac; done.
  - intros Hp. specialize (Hpend Hp). destruct Hbr as [->|(ev & Hev & Hid' & ->)]; [by destruct Hb as [->| ->]|].
    pose proof (count_pos resolved_of id es (ResolvedHook ev) Hev). cbn in *. rewrite Hid' in *. specialize (H eq_refl). lia.
  - intros o Ho. destruct Hbr as [->|(ev & Hev & Hid' & ->)]; [by destruct Hb as [->| ->]|]. exists ev. cbn in Ho. injection Ho as <-.
    split_and!; try done. intros ev' Hev' Hid''.
    pose proof (count_unique resolved_of id es (ResolvedHook ev') (ResolvedHook ev)) as Hu. cbn in Hu.
    assert (ResolvedHook ev' = ResolvedHook ev) by (apply Hu; try done; [lia|congruence..]). congruence.
Qed.

(** The log of a history whose calls are all made, in order. *)
Definition apply_effects (db : AuditDB) (es : list effect) : AuditDB := fold_left (fun db e => subscriber db true e) es db.

Definition is_created (id : string) (e : effect) : bool := match e with CreatedHook a => bool_decide (a_ID a = id) | _ => false end.

Lemma subscriber_accounts db e : accounts (subscriber db true e) = accounts db.
Proof. destruct e; try done. cbn. unfold insertSigning, insert_signing. by case_match. Qed.

Lemma apply_accounts db es : accounts (apply_effects db es) = accounts db.
Proof. revert db. induction es as [|e es IH]; intros db; [done|]. change (apply_effects db (e :: es)) with (apply_effects (subscriber db true e) es).
  by rewrite IH, subscriber_accounts.
Qed.

(** A row stays, and is resolved by the first resolution. *)
Lemma apply_row db es id r : signings db !! id = Some r ->
  exists r', signings (apply_effects db es) !! id = Some r' /\
    (is_Some (g_ResolvedAt r') <-> is_Some (g_ResolvedAt r) \/ (1 <= count_id resolved_of id es)%nat).
Proof.
  revert db r. induction es as [|e es IH]; intros db r Hr.
  - exists r. split; [done|]. unfold count_id. cbn. split; [by left|]. intros [|]; [done|lia].
  - assert (exists r1, signings (subscriber db true e) !! id = Some r1 /\
      (is_Some (g_ResolvedAt r1) <-> is_Some (g_ResolvedAt r) \/ resolved_of e = Some id)) as (r1 & H1 & Hi1).
    { destruct e as [a| | | |ev]; try (exists r; split; [done|]; split; [by left|intros [|]; done]); cbn.
      - exists r. split; [|split; [by left|by intros [|]]]. unfold insertSigning, insert_signing. case_match eqn:E; [|done]. cbn.
        rewrite !andb_true_iff, !bool_decide_eq_true in E. destruct E as [[[_ E] _] _]. cbn in E. rewrite lookup_insert_ne; [done|]. intros <-. congruence.
      - destruct (decide (a_ID (re_Action ev) = id)) as [->|Hne]; [rewrite lookup_alter_eq, Hr|rewrite lookup_alter_ne by done].
        + eexists. split; [done|]. destruct (g_ResolvedAt r) eqn:E; cbn; rewrite ?E; split; eauto.
        + exists r. split; [done|]. split; [by left|]. intros [|]; congruence. }
    destruct (IH _ _ H1) as (r' & H' & Hi'). exists r'. split; [done|]. rewrite Hi', Hi1.
    change (e :: es) with ([e] ++ es). rewrite count_id_app, count_id_one. destruct (decide (resolved_of e = Some id)); intuition lia.
Qed.

Lemma apply_absent db es id : signings db !! id = None -> Forall (fun e => is_created id e = false) es -> signings (apply_effects db es) !! id = None.
Proof.
  revert db. induction es as [|e es IH]; intros db Hr Hf; [done|]. apply Forall_cons in Hf as [He Hf]. cbn. apply IH; [|done].
  destruct e as [a| | | |ev]; try done; cbn in He |- *.
  - apply bool_decide_eq_false in He. unfold insertSigning, insert_signing. case_match; [|done]. cbn. by rewrite lookup_insert_ne.
  - destruct (decide (a_ID (re_Action ev) = id)) as [->|Hne]; [rewrite lookup_alter_eq, Hr|rewrite lookup_alter_ne by done]; done.
Qed.

(** A created action that is not pending any more has been resolved. *)
Lemma run_settled ops s id : wf s -> fresh_ids s ops -> budget s ops id ->
  let '(s', es) := Approval.run s ops in phase s' id <> Some true -> (1 <= count_id resolved_of id es)%nat.
Proof.
  revert s. induction ops as [|o ops IH]; intros s Hwf Hfresh Hb; cbn.
  - destruct Hb as [Hb|Hb]; [done|by apply not_elem_of_nil in Hb].
  - destruct (exec s o) as [s1 es1] eqn:E. destruct (exec_delta _ _ _ _ Hwf E) as [Hwf1 Hd]. specialize (Hd id).
    specialize (IH s1 Hwf1 (fresh_ids_step _ _ _ _ _ Hwf Hfresh E)). destruct (Approval.run s1 ops) as [s' es2]. rewrite count_id_app.
    unfold budget in *. rewrite created_cons in Hb.
    inversion Hd as [p Hc Hp Hp1 Hr Hcb|n Hn Hc Hp Hp1 Hr Hcb|n Hn Hc Hp Hp1 Hr Hcb|Hc Hp Hp1 Hr Hcb|p Hc Hp Hp1 Hr Hcb]; try lia;
      intros Hns; [| |].
    + assert (1 <= count_id resolved_of id es2)%nat; [|lia]. apply IH; [|done]. destruct Hb as [Hb|Hb]; [left; congruence|].
      destruct o; auto. cbn in Hc. symmetry in Hc. apply bool_decide_eq_false in Hc. apply elem_of_cons in Hb as [->|]; [done|auto].
    + exfalso. destruct Hb as [Hb|Hb]; [congruence|]. destruct Hfresh as [_ Hf]. rewrite created_cons in Hf. specialize (Hf id Hb). congruence.
    + assert (1 <= count_id resolved_of id es2)%nat; [|lia]. apply IH; [by left|done].
Qed.

(** What the approval registry promises of its requests, and the database of
    its accounts. *)
Definition admissible (db : AuditDB) (o : op) : Prop :=
  match o with OpCreate _ _ p => cp_AccountID p ∈ accounts db /\ cx_Source (cp_Context p) ∈ source_values | _ => True end.

(** The row of an action that a history creates. *)
Lemma admissible_accounts db db' o : accounts db = accounts db' -> admissible db o -> admissible db' o.
Proof. intros He. destruct o; try done. cbn. by rewrite He. Qed.

Lemma apply_app db es1 es2 : apply_effects db (es1 ++ es2) = apply_effects (apply_effects db es1) es2.
Proof. apply fold_left_app. Qed.

Lemma insert_row db now id p : admissible db (OpCreate now id p) -> signings db !! id = None ->
  exists r, signings (insertSigning db (mkAction id p StatusPending now (now + ActionTTL))) !! id = Some r /\ g_ResolvedAt r = None.
Proof.
  intros [Ha Hs] Hn. unfold insertSigning, insert_signing. cbn [signing_row g_AccountID g_ID g_Type g_Source a_ID a_Params].
  rewrite !bool_decide_eq_true_2; [|done|destruct (cp_Type p); set_solver|done|done]. cbn. rewrite lookup_insert_eq. by eexists.
Qed.

Lemma run_rows ops s db : wf s -> fresh_ids s ops -> Forall (admissible db) ops ->
  let '(s', es) := Approval.run s ops in
  forall id, id ∈ created_ids ops -> signings db !! id = None ->
    exists r, signings (apply_effects db es) !! id = Some r /\ (is_Some (g_ResolvedAt r) <-> (1 <= count_id resolved_of id es)%nat).
Proof.
  revert s db. induction ops as [|o ops IH]; intros s db Hwf Hfresh Hadm; cbn [Approval.run]; [intros id Hid; by apply not_elem_of_nil in Hid|].
  apply Forall_cons in Hadm as [Ho Hadm]. pose proof (fun a => exec_created s o a) as Hec. destruct (exec s o) as [s1 es1] eqn:E. cbn in Hec.
  destruct (exec_delta _ _ _ _ Hwf E) as [Hwf1 Hd]. pose proof (fresh_ids_step _ _ _ _ _ Hwf Hfresh E) as Hfresh1.
  assert (Forall (admissible (apply_effects db es1)) ops) as Hadm1
    by (eapply Forall_impl; [exact Hadm|]; intros o' Ho'; eapply admissible_accounts; [|exact Ho']; by rewrite apply_accounts).
  specialize (IH s1 (apply_effects db es1) Hwf1 Hfresh1 Hadm1). destruct (Approval.run s1 ops) as [s' es2]. intros id Hid Hn.
  rewrite apply_app, count_id_app. destruct (decide (Approval.creates o id = true)) as [Hcr|Hcr].
  - destruct o as [now id' p| | | | |]; try done. cbn in Hcr. apply bool_decide_eq_true in Hcr as ->. cbn in E. simplify_eq.
    destruct (insert_row db now id p Ho Hn) as (r & Hr & Hres). destruct (apply_row (apply_effects db [CreatedHook (mkAction id p StatusPending now (now + ActionTTL))]) es2 id r Hr) as (r' & Hr' & Hi).
    exists r'. split; [done|]. rewrite Hi, Hres, count_id_one, decide_False by done. cbn. split; [intros [[? ?]|]; [done|lia]|intros; right; lia].
  - apply not_true_is_false in Hcr. specialize (Hd id). rewrite Hcr in Hd.
    assert (phase s id = None) as Hp by (by apply Hfresh). rewrite Hp in Hd. inversion Hd as [p Hc Hp0 Hp1 Hr Hcb| | | |]. cbn [Nat.add].
    apply IH.
    + rewrite created_cons in Hid. destruct o; auto. cbn in Hcr. apply bool_decide_eq_false in Hcr. apply elem_of_cons in Hid as [->|]; [done|auto].
    + apply apply_absent; [done|]. apply Forall_forall. intros e He. destruct e as [a| | | |ev]; try done. cbn.
      destruct (Hec a He) as (now & pr & -> & _). done.
Qed.

(** When every call is made, in the order of the operations, the signing
    log mirrors the approval registry: every action ever created has a row,
    unresolved exactly while the action is pending, also after the registry has
    forgotten the action. *)
Theorem signing_log_complete accs ops :
  NoDup (created_ids ops) -> Forall (admissible (mkAuditDB accs ∅ ∅)) ops ->
  let '(s, es) := Approval.run ∅ ops in
  forall id, id ∈ created_ids ops ->
    exists r, signings (apply_effects (mkAuditDB accs ∅ ∅) es) !! id = Some r /\ (g_ResolvedAt r = None <-> phase s id = Some true).
Proof.
  intros Hnd Hadm. pose proof (run_counts ops ∅) as Hc. pose proof (run_settled ops ∅) as Hs. 
  assert (fresh_ids ∅ ops) as Hfresh by (split; [done|]; intros i _; unfold phase; by rewrite registry_empty).
  pose proof (run_rows ops ∅ (mkAuditDB accs ∅ ∅) wf_empty Hfresh Hadm) as Hrow.
  destruct (Approval.run ∅ ops) as [s es]. intros id Hid. destruct (Hrow id Hid) as (r & Hr & Hres); [apply lookup_empty|].
  exists r. split; [done|]. specialize (Hc id wf_empty Hfresh) as (_ & _ & Hpend & _). specialize (Hs id wf_empty Hfresh (or_intror Hid)).
  rewrite <- not_eq_None_Some in Hres. split.
  - intros Hn. destruct (decide (phase s id = Some true)) as [|Hne]; [done|]. specialize (Hs Hne). exfalso. by apply (proj2 Hres Hs).
  - intros Hp. specialize (Hpend Hp). destruct (g_ResolvedAt r); [|done]. exfalso. assert (1 <= count_id resolved_of id es)%nat by (by apply Hres). lia.
Qed.

Lemma signing_log_complete_witness :
  let ops := [OpCreate 0 "a" (sample_params TypeWebAuthnSign "c"); OpCreate 1 "b" (sample_params TypeKeyApprove "c"); OpDeny 6 "a"] in
  let '(s, es) := Approval.run ∅ ops in
  forall id, id ∈ created_ids ops ->
    exists r, signings (apply_effects (mkAuditDB {["alice"%string]} ∅ ∅) es) !! id = Some r /\ (g_ResolvedAt r = None <-> phase s id = Some true).
Proof.
  apply (signing_log_complete {["alice"%string]}
    [OpCreate 0 "a" (sample_params TypeWebAuthnSign "c"); OpCreate 1 "b" (sample_params TypeKeyApprove "c"); OpDeny 6 "a"]).
  - repeat constructor; set_solver.
  - repeat constructor; cbn; set_solver.
Defined.

Definition sample_log : list slabel :=
  [SOp (OpCreate 0 "a" (sample_params TypeWebAuthnSign "c")); SCall 0 true; SOp (OpDeny 6 "a"); SCall 1 true; SCall 1 true].

Lemma signing_log_truthful_witness :
  exists r, signings (s_db (srun {["alice"%string]} sample_log)) !! "a"%string = Some r /\ g_Outcome r = Some "denied"%string /\
    exists ev, ResolvedHook ev ∈ emitted sample_log /\ "denied"%string = outcome_text (re_Outcome ev).
Proof.
  eexists. split; [by vm_compute|]. split; [done|].
  destruct (signing_log_truthful {["alice"%string]} sample_log "a" _ ltac:(repeat constructor; set_solver) ltac:(intros; unfold sample_log; set_solver) ltac:(by vm_compute)) as (_ & _ & H).
  destruct (H "denied"%string eq_refl) as (ev & Hev & _ & Ho & _). by exists ev.
Defined.

(** A request can stay unresolved in the log although it was settled: a
    connection that dies while Create is on its way to the writer cancels the
    action, and the update that records it finds no row. *)
Theorem signing_log_race :
  let w := srun {["alice"%string]} [SOp (OpCreate 0 "a" (sample_params TypeWebAuthnSign "c")); SOp (OpCancel 1 ["a"%string] "c" "gone");
    SCall 1 true; SCall 1 true; SCall 0 true] in
  phase (s_reg w) "a" = Some false /\ s_calls w = [[]; []] /\
  (fun r => (g_ResolvedAt r, g_Outcome r)) <$> signings (s_db w) !! "a"%string = Some (None, None).
Proof. by vm_compute. Qed.
