(* ===== verification/AuditRead.v ===== *)
(** * Reading the logs (internal/audit/sessions.go, signings.go, oauthclients.go,
      internal/notify/notify.go, internal/rest/audit.go)

    The four logs that the web UI shows: the sessions and the signing requests
    of [AuditLog], the registrations of OAuth clients, which belong to no account,
    and the notifications. All four pages are [Keyset.ListPage]s. *)
From S2P Require Import Prelude GoStrings Clock Keyset AuditLog.
From Stdlib Require Import Ascii Sorting.Sorted.
#[local] Open Scope Z_scope.

(** [map[string]bool] of a list of values. *)
Definition oneof (values : list string) (v : string) : bool := bool_decide (v ∈ values).

(** A condition that is only there when its value is not empty. *)
Definition when (v : string) (cond : bool) : bool := bool_decide (v = EmptyString) || cond.

(** created_at >= ? and created_at <= ? *)
Definition from_to (from to createdAt : string) : bool := when from (negb (text_lt createdAt from)) && when to (negb (text_lt to createdAt)).

(** The rows of a table, in some order. *)
Definition table_rows {R} (t : gmap string R) : list R := map snd (map_to_list t).

(** ** The OAuth client registration log *)

Record OAuthClientRegistration := mkRegistration {
  oc_ID : string; oc_ClientID : string; oc_Origin : string; oc_Event : string; oc_ClientName : option string; oc_MetadataHost : option string;
  oc_AuthMethod : option string; oc_RedirectURIs : list string; oc_Scope : option string; oc_Reason : option string;
  oc_SourceIP : option string; oc_CreatedAt : string }.

Record OAuthClientEvent := mkClientEvent {
  oe_ClientID : string; oe_Origin : string; oe_Event : string; oe_ClientName : string; oe_MetadataHost : string; oe_AuthMethod : string;
  oe_RedirectURIs : list string; oe_Scope : string; oe_Reason : string; oe_SourceIP : string }.

(** One row of oauth_client_registrations. The redirect URIs are kept as JSON
    text; NULL when there is none. *)
Record RegistrationRow := mkRegRow { rr_fields : OAuthClientRegistration; rr_redirects : option string }.

Abbreviation Registrations := (gmap string RegistrationRow).

Record OAuthClientFilter := mkOAuthFilter { of_ClientID : string; of_Origin : string; of_Event : string; of_Cursor : string; of_Limit : Z }.

(** ** The notification log *)

Section Logs.
(** encoding/json on the cursors (of the session log and of the others), on
    lists of texts, and on payloads; the stored text of a payload. *)
Context (marshal_session marshal_cursor : cursor -> list byte) (unmarshal_session unmarshal_cursor : list byte -> option cursor).
Context (marshal_strings : list string -> option string) (unmarshal_strings : string -> option (list string)).
Context {Payload : Type} (marshal_payload : Payload -> option string) (unmarshal_payload : string -> option Payload).

Record Notification := mkNotification {
  n_ID : string; n_AccountID : string; n_Type : string; n_Severity : string; n_Title : string; n_Detail : option string;
  n_Payload : option Payload; n_CreatedAt : string }.

Record PublishParams := mkPublish {
  pp_AccountID : string; pp_Type : string; pp_Severity : string; pp_Title : string; pp_Detail : string; pp_Payload : option Payload }.

(** One row of the notifications table. *)
Record NotificationRow := mkNotRow {
  nr_ID : string; nr_AccountID : string; nr_Type : string; nr_Severity : string; nr_Title : string; nr_Detail : option string;
  nr_Payload : option string; nr_CreatedAt : string }.

Record NotifyDB := mkNotifyDB { nd_accounts : gset string; nd_rows : gmap string NotificationRow }.

Definition severity_values : list string := ["info"; "warning"; "error"]%string.

Definition insert_notification (db : NotifyDB) (r : NotificationRow) : NotifyDB * bool :=
  if bool_decide (nr_AccountID r ∈ nd_accounts db) && bool_decide (nd_rows db !! nr_ID r = None) && oneof severity_values (nr_Severity r)
  then (mkNotifyDB (nd_accounts db) (<[nr_ID r := r]> (nd_rows db)), true) else (db, false).

(** Publish: persist first, then push to the account's tabs; the push is in the
    answer. [id] is what the id generator returns. *)
Definition Publish (db : NotifyDB) (now : Z) (id : string) (ok hub : bool) (p : PublishParams) : NotifyDB * Notification * option (string * Notification) :=
  let detail := nz (pp_Detail p) in
  let createdAt := ISO now in
  let payload := pl ← pp_Payload p; marshal_payload pl in
  let '(db', stored) :=
    if ok then insert_notification db (mkNotRow id (pp_AccountID p) (pp_Type p) (pp_Severity p) (pp_Title p) detail payload createdAt)
    else (db, false) in
  let n := mkNotification (if stored then id else EmptyString) (pp_AccountID p) (pp_Type p) (pp_Severity p) (pp_Title p) detail (pp_Payload p) createdAt in
  (db', n, if hub then Some (pp_AccountID p, n) else None).

Definition scan_notification (r : NotificationRow) : Notification :=
  mkNotification (nr_ID r) (nr_AccountID r) (nr_Type r) (nr_Severity r) (nr_Title r) (nr_Detail r)
    (pl ← nr_Payload r; unmarshal_payload pl) (nr_CreatedAt r).

Definition notification_key (r : NotificationRow) : cursor := mkCursor (nr_CreatedAt r) (nr_ID r).

Definition Notify_List (db : NotifyDB) (accountID cursorStr : string) (limit : Z) : list Notification * option string :=
  let '(rows, next) := ListPage marshal_cursor unmarshal_cursor notification_key (table_rows (nd_rows db))
    (fun r => bool_decide (nr_AccountID r = accountID)) cursorStr limit in
  (map scan_notification rows, next).

(** ** The registration log, continued *)

(** Record: failures are logged, never returned. *)
Definition Record_ (t : Registrations) (now : Z) (id : string) (ok : bool) (ev : OAuthClientEvent) : Registrations :=
  let redirects := match oe_RedirectURIs ev with [] => None | uris => marshal_strings uris end in
  let row := mkRegRow (mkRegistration id (oe_ClientID ev) (oe_Origin ev) (oe_Event ev) (nz (oe_ClientName ev)) (nz (oe_MetadataHost ev))
    (nz (oe_AuthMethod ev)) [] (nz (oe_Scope ev)) (nz (oe_Reason ev)) (nz (oe_SourceIP ev)) (ISO now)) redirects in
  if ok && bool_decide (t !! id = None) then <[id := row]> t else t.

Definition scan_registration (r : RegistrationRow) : OAuthClientRegistration :=
  let f := rr_fields r in
  mkRegistration (oc_ID f) (oc_ClientID f) (oc_Origin f) (oc_Event f) (oc_ClientName f) (oc_MetadataHost f) (oc_AuthMethod f)
    (match rr_redirects r with Some text => default [] (unmarshal_strings text) | None => [] end)
    (oc_Scope f) (oc_Reason f) (oc_SourceIP f) (oc_CreatedAt f).

Definition OAuthClients_List (t : Registrations) (f : OAuthClientFilter) : list OAuthClientRegistration * option string :=
  let '(rows, next) := ListPage marshal_cursor unmarshal_cursor (fun r => mkCursor (oc_CreatedAt (rr_fields r)) (oc_ID (rr_fields r))) (table_rows t)
    (fun r => when (of_ClientID f) (bool_decide (oc_ClientID (rr_fields r) = of_ClientID f)) &&
              when (of_Origin f) (bool_decide (oc_Origin (rr_fields r) = of_Origin f)) &&
              when (of_Event f) (bool_decide (oc_Event (rr_fields r) = of_Event f))) (of_Cursor f) (of_Limit f) in
  (map scan_registration rows, next).

(** ** Sessions and signing requests *)

Record SessionFilters := mkSessionFilters { sf_EndpointID : string; sf_From : string; sf_To : string }.
Record SigningFilters := mkSigningFilters { gf_Source : string; gf_Outcome : string; gf_From : string; gf_To : string }.

Definition Sessions_List (db : AuditDB) (accountID : string) (f : SessionFilters) (cursorStr : string) (limit : Z) : list SessionRow * option string :=
  ListPage marshal_session unmarshal_session (fun r => mkCursor (l_CreatedAt r) (l_SessionID r)) (table_rows (lifecycle db))
    (fun r => bool_decide (l_AccountID r = accountID) && when (sf_EndpointID f) (bool_decide (l_EndpointID r = sf_EndpointID f))
      && from_to (sf_From f) (sf_To f) (l_CreatedAt r)) cursorStr limit.

Definition Signings_List (db : AuditDB) (accountID : string) (f : SigningFilters) (cursorStr : string) (limit : Z) : list SigningRow * option string :=
  ListPage marshal_cursor unmarshal_cursor (fun r => mkCursor (g_CreatedAt r) (g_ID r)) (table_rows (signings db))
    (fun r => bool_decide (g_AccountID r = accountID) && when (gf_Source f) (bool_decide (g_Source r = gf_Source f))
      && when (gf_Outcome f) (bool_decide (g_Outcome r = Some (gf_Outcome f))) && from_to (gf_From f) (gf_To f) (g_CreatedAt r)) cursorStr limit.

Definition Signings_GetByID (db : AuditDB) (accountID id : string) : option SigningRow :=
  r ← signings db !! id; if bool_decide (g_AccountID r = accountID) then Some r else None.

(** ** The routes *)

Definition outcome_values : list string := ["approved"; "denied"; "expired"; "cancelled"]%string.
Definition oauthOriginValues : list string := ["dcr"; "cimd"]%string.
Definition oauthEventValues : list string := ["registered"; "refreshed"; "rejected"]%string.

Definition parseLimit (raw : string) : Z := if bool_decide (raw = EmptyString) then 0 else default 0 (Atoi64 raw).

(** The parameters of a request; a missing one is empty. *)
Abbreviation query := (string -> string).

(** [ok] says whether the query reaches the database. *)
Definition listSessions (db : AuditDB) (accountID : string) (q : query) (ok : bool) : Z + (list SessionRow * option string) :=
  if ok then inr (Sessions_List db accountID (mkSessionFilters (q "endpointId") (q "from") (q "to")) (q "cursor") (parseLimit (q "limit")))%string
  else inl 500.

Definition listSignings (db : AuditDB) (accountID : string) (q : query) (ok : bool) : Z + (list SigningRow * option string) :=
  if negb (when (q "source") (oneof source_values (q "source")))%string then inl 400
  else if negb (when (q "outcome") (oneof outcome_values (q "outcome")))%string then inl 400
  else if ok then inr (Signings_List db accountID (mkSigningFilters (q "source") (q "outcome") (q "from") (q "to")) (q "cursor") (parseLimit (q "limit")))%string
  else inl 500.

Definition getSigning (db : AuditDB) (accountID id : string) (ok : bool) : Z + SigningRow :=
  if ok then match Signings_GetByID db accountID id with Some r => inr r | None => inl 404 end else inl 500.

Definition listNotifications (db : NotifyDB) (accountID : string) (q : query) (ok : bool) : Z + (list Notification * option string) :=
  if ok then inr (Notify_List db accountID (q "cursor") (parseLimit (q "limit")))%string else inl 500.

Definition listOAuthClients (t : Registrations) (admin : bool) (q : query) (ok : bool) : Z + (list OAuthClientRegistration * option string) :=
  if negb admin then inl 403
  else if negb (when (q "origin") (oneof oauthOriginValues (q "origin")))%string then inl 400
  else if negb (when (q "event") (oneof oauthEventValues (q "event")))%string then inl 400
  else if ok then inr (OAuthClients_List t (mkOAuthFilter (q "clientId") (q "origin") (q "event") (q "cursor") (parseLimit (q "limit"))))%string
  else inl 500.

(** ** Isolation *)

Lemma table_rows_elem {R} (t : gmap string R) r : r ∈ table_rows t <-> exists id, t !! id = Some r.
Proof.
  unfold table_rows. rewrite list_elem_of_fmap. split.
  - intros ([id r'] & -> & H%elem_of_map_to_list). by exists id.
  - intros (id & H). exists (id, r). split; [done|]. by apply elem_of_map_to_list.
Qed.

(** Whatever the filters, the cursor and the page size of a request, the
    session, signing and notification routes show rows of the caller's account
    only, at most 500 of them; the registration log, which belongs to no
    account, is shown to admins only. *)
Theorem audit_reads_isolated db ndb regs acc admin q id ok :
  (forall rows next, listSessions db acc q ok = inr (rows, next) ->
     zlen rows <= 500 /\ forall r, r ∈ rows -> l_AccountID r = acc /\ exists sid, lifecycle db !! sid = Some r) /\
  (forall rows next, listSignings db acc q ok = inr (rows, next) ->
     zlen rows <= 500 /\ forall r, r ∈ rows -> g_AccountID r = acc /\ exists i, signings db !! i = Some r) /\
  (forall r, getSigning db acc id ok = inr r -> g_AccountID r = acc /\ signings db !! id = Some r) /\
  (forall rows next, listNotifications ndb acc q ok = inr (rows, next) ->
     zlen rows <= 500 /\ forall n, n ∈ rows -> n_AccountID n = acc) /\
  (admin = false -> listOAuthClients regs admin q ok = inl 403).
Proof using.
  split_and!.
  - unfold listSessions, Sessions_List. intros rows next H. destruct ok; [|done]. injection H as H. apply (f_equal fst) in H. cbn in H. subst rows.
    split; [apply ListPage_length|]. intros r [Hr Hm]%ListPage_rows. rewrite !andb_true_iff, bool_decide_eq_true in Hm.
    split; [tauto|by apply table_rows_elem].
  - unfold listSignings, Signings_List. intros rows next H. destruct (negb _); [done|]. destruct (negb _); [done|]. destruct ok; [|done].
    injection H as H. apply (f_equal fst) in H. cbn in H. subst rows. split; [apply ListPage_length|].
    intros r [Hr Hm]%ListPage_rows. rewrite !andb_true_iff, bool_decide_eq_true in Hm. split; [tauto|by apply table_rows_elem].
  - unfold getSigning, Signings_GetByID. intros r H. destruct ok; [|done]. destruct (signings db !! id) as [r'|] eqn:E; [|done]. cbn in H.
    case_bool_decide; [|done]. by simplify_eq.
  - unfold listNotifications, Notify_List. intros rows next H. destruct ok; [|done].
    pose proof (ListPage_length notification_key marshal_cursor unmarshal_cursor (table_rows (nd_rows ndb))
      (fun r => bool_decide (nr_AccountID r = acc)) (q "cursor"%string) (parseLimit (q "limit"%string))) as Hl.
    pose proof (fun x => ListPage_rows notification_key marshal_cursor unmarshal_cursor (table_rows (nd_rows ndb))
      (fun r => bool_decide (nr_AccountID r = acc)) (q "cursor"%string) (parseLimit (q "limit"%string)) x) as Hr.
    destruct (ListPage _ _ _ _ _ _ _) as [rows' next']. injection H as <- <-. rewrite length_map. split; [exact Hl|].
    intros n (r & -> & Hin)%list_elem_of_fmap. cbn. destruct (Hr r Hin) as [_ Hm]. by apply bool_decide_eq_true in Hm.
  - unfold listOAuthClients. by intros ->.
Qed.

(** ** All notifications *)

Record publication := mkPublication { pb_now : Z; pb_id : string; pb_ok : bool; pb_hub : bool; pb_params : PublishParams }.

Definition publish (db : NotifyDB) (p : publication) : NotifyDB := fst (fst (Publish db (pb_now p) (pb_id p) (pb_ok p) (pb_hub p) (pb_params p))).

Definition published (accs : gset string) (ps : list publication) : NotifyDB := fold_left publish ps (mkNotifyDB accs ∅).

(** What Publish may do to the table: a row with the time of the call, or
    nothing. *)
Lemma publish_cases db p : publish db p = db \/
  exists r, publish db p = mkNotifyDB (nd_accounts db) (<[pb_id p := r]> (nd_rows db)) /\ nd_rows db !! pb_id p = None /\
    nr_ID r = pb_id p /\ nr_CreatedAt r = ISO (pb_now p).
Proof using.
  unfold publish, Publish. destruct (pb_ok p); [|by left]. unfold insert_notification. match goal with |- context [if ?b then _ else _] => destruct b eqn:E end; [|by left]. right. cbn.
  rewrite !andb_true_iff, !bool_decide_eq_true in E. destruct E as [[_ E] _]. cbn in E. eexists. split; [done|]. done.
Qed.

(** Every row is that of a publication. *)
Lemma published_rows accs ps id r : nd_rows (published accs ps) !! id = Some r ->
  nr_ID r = id /\ exists p, p ∈ ps /\ pb_id p = id /\ nr_CreatedAt r = ISO (pb_now p).
Proof using.
  unfold published. induction ps as [|p ps IH] using rev_ind; [cbn; by rewrite lookup_empty|]. rewrite fold_left_app. cbn.
  destruct (publish_cases (fold_left publish ps (mkNotifyDB accs ∅)) p) as [->|(r0 & -> & _ & Hid & Hc)].
  - intros (Hid & p' & Hp & H)%IH. split; [done|]. exists p'. rewrite elem_of_app. auto.
  - cbn. intros [[<- <-]|[_ (Hid' & p' & Hp & H)%IH]]%lookup_insert_Some.
    + split; [done|]. exists p. rewrite elem_of_app, list_elem_of_singleton. auto.
    + split; [done|]. exists p'. rewrite elem_of_app. auto.
Qed.

Lemma published_keeps accs ps ps' : nd_rows (published accs ps) ⊆ nd_rows (published accs (ps ++ ps')).
Proof using.
  induction ps' as [|p ps' IH] using rev_ind; [by rewrite app_nil_r|]. rewrite app_assoc. unfold published in *. rewrite (fold_left_app _ (ps ++ ps')). cbn.
  etransitivity; [exact IH|]. destruct (publish_cases (fold_left publish (ps ++ ps') (mkNotifyDB accs ∅)) p) as [->|(r & -> & Hn & _)]; [done|].
  cbn. by apply insert_subseteq.
Qed.

(** The rows that a later publication adds. *)
Lemma published_new accs ps ps' id r : nd_rows (published accs (ps ++ ps')) !! id = Some r ->
  nd_rows (published accs ps) !! id = Some r \/ exists p, p ∈ ps' /\ pb_id p = id /\ nr_CreatedAt r = ISO (pb_now p).
Proof using.
  induction ps' as [|p ps' IH] using rev_ind; [rewrite app_nil_r; by left|]. rewrite app_assoc. unfold published in *. rewrite (fold_left_app _ (ps ++ ps')). cbn.
  destruct (publish_cases (fold_left publish (ps ++ ps') (mkNotifyDB accs ∅)) p) as [->|(r0 & -> & _ & Hid & Hc)].
  - intros [H|(p' & Hp & H)]%IH; [by left|right]. exists p'. rewrite elem_of_app. auto.
  - cbn. intros [[<- <-]|[_ [H|(p' & Hp & H)]%IH]]%lookup_insert_Some; [right|by left|right].
    + exists p. rewrite elem_of_app, list_elem_of_singleton. auto.
    + exists p'. rewrite elem_of_app. auto.
Qed.

(** Keys are distinct where they hold the primary key. *)
Lemma table_keys {R} (key : R -> cursor) (t : gmap string R) : (forall id r, t !! id = Some r -> c_ID (key r) = id) -> NoDup (map key (table_rows t)).
Proof using.
  intros H. apply (NoDup_fmap_1 c_ID). change (c_ID <$> map key (table_rows t)) with (map c_ID (map key (table_rows t))).
  unfold table_rows. rewrite !map_map.
  assert (map (fun x => c_ID (key (snd x))) (map_to_list t) = map fst (map_to_list t)) as ->.
  { apply map_ext_in. intros [id r] Hin. apply list_elem_of_In, elem_of_map_to_list in Hin. cbn. by apply H. }
  apply NoDup_fst_map_to_list.
Qed.

(** A client that follows the cursors of the notification log gets every
    notification of its account that was published by its first request, once,
    newest first, and comes to an end, whatever its page size, while
    publications of later milliseconds go on. *)
Theorem notification_pages accs ps later acc limit :
  later 0%nat = [] ->
  (forall k p, p ∈ ps ++ later k -> representable (pb_now p) /\ pb_id p <> EmptyString) ->
  (forall k p p0, p ∈ later k -> p0 ∈ ps -> pb_now p0 / millisecond < pb_now p / millisecond) ->
  (forall p, p ∈ ps -> let c := mkCursor (ISO (pb_now p)) (pb_id p) in marshal_cursor c <> [] /\ unmarshal_cursor (marshal_cursor c) = Some c) ->
  exists l,
    all_pages marshal_cursor unmarshal_cursor notification_key (S (length (table_rows (nd_rows (published accs ps)))))
      (fun k => table_rows (nd_rows (published accs (ps ++ later k)))) 0 (fun r => bool_decide (nr_AccountID r = acc)) EmptyString limit = Some l /\
    (forall r, r ∈ l <-> nr_AccountID r = acc /\ nd_rows (published accs ps) !! nr_ID r = Some r) /\
    NoDup l /\ StronglySorted (fun a b => text_lt (nr_CreatedAt a) (nr_CreatedAt b) = false) l.
Proof using.
  intros H0 Hrep Hnew Hjson. set (table := fun k => table_rows (nd_rows (published accs (ps ++ later k)))).
  set (m := fun r => bool_decide (nr_AccountID r = acc)).
  assert (table 0%nat = table_rows (nd_rows (published accs ps))) as Ht0 by (unfold table; by rewrite H0, app_nil_r).
  assert (forall k, NoDup (map notification_key (table k))) as Hnd.
  { intros k. apply table_keys. intros id r Hr. cbn. by apply published_rows in Hr as [Hid _]. }
  assert (forall r, r ∈ table 0%nat -> exists p, p ∈ ps /\ nr_ID r = pb_id p /\ nr_CreatedAt r = ISO (pb_now p)) as Horig.
  { intros r Hr. rewrite Ht0 in Hr. apply table_rows_elem in Hr as (id & Hr). apply published_rows in Hr as (Hid & p & Hp & Hpid & Hc). exists p. subst. auto. }
  exists (order_desc notification_key (List.filter m (table 0%nat))). rewrite <- Ht0. split_and!.
  - apply pages_cover.
    + intros k. split; [apply Hnd|]. split.
      * intros r Hr. rewrite Ht0 in Hr. apply table_rows_elem in Hr as (id & Hr). apply table_rows_elem. exists id.
        eapply lookup_weaken; [exact Hr|]. apply published_keeps.
      * intros r Hr. apply table_rows_elem in Hr as (id & Hr). apply published_new in Hr as [Hr|(p & Hp & Hid & Hc)].
        { left. rewrite Ht0. apply table_rows_elem. by exists id. }
        right. intros r0 (p0 & Hp0 & _ & Hc0)%Horig. apply key_lt_spec. left. cbn. rewrite Hc, Hc0, ISO_chronological.
        -- apply Z.ltb_lt. by eapply Hnew.
        -- apply (Hrep k). apply elem_of_app. by left.
        -- apply (Hrep k). apply elem_of_app. by right.
    + intros r (p & Hp & Hid & Hc)%Horig. destruct (Hjson p Hp) as [Hne Hju]. unfold notification_key. cbn. rewrite Hid, Hc.
      split_and!; try done; [apply ISO_nonempty|]. apply (Hrep 0%nat p). apply elem_of_app. by left.
  - intros r. rewrite order_desc_elem, filter_elem. unfold m. rewrite bool_decide_eq_true, Ht0, table_rows_elem. split.
    + intros [[id Hr] Hacc]. split; [done|]. destruct (published_rows _ _ _ _ Hr) as [-> _]. done.
    + intros [Hacc Hr]. split; [by exists (nr_ID r)|done].
  - apply (NoDup_fmap_1 notification_key). apply (desc_NoDup notification_key). apply order_desc_sorted, NoDup_map_filter, Hnd.
  - pose proof (order_desc_sorted notification_key _ (NoDup_map_filter notification_key m _ (Hnd 0%nat))) as Hs. unfold desc in Hs.
    eapply StronglySorted_weaken; [|exact Hs]. cbn. intros a b Hlt. apply key_lt_spec in Hlt. cbn in Hlt.
    destruct (text_lt (nr_CreatedAt a) (nr_CreatedAt b)) eqn:E; [|done]. destruct Hlt as [Hlt|[Heq _]].
    + pose proof (text_lt_trans _ _ _ E Hlt) as Hc. by rewrite text_lt_irrefl in Hc.
    + rewrite Heq, text_lt_irrefl in E. done.
Qed.

End Logs.

(** ** Witnesses *)

(** A plain encoding of cursors. *)
Definition plain_marshal (c : cursor) : list byte := bytes_of_string (c_CreatedAt c ++ "|" ++ c_ID c)%string.
Definition plain_unmarshal (l : list byte) : option cursor :=
  let s := String.string_of_list_byte l in
  n ← IndexByte_str s "|"%char; Some (mkCursor (take_str n s) (drop_str (S n) s)).

Definition sample_publication (now : Z) (id acc : string) : publication :=
  mkPublication (Payload := string) now id true false (mkPublish acc "host-key-mismatch" "error" "title" "" (Some "{}"%string)).

Definition sample_publications : list publication := [sample_publication 5000000 "n1" "alice"; sample_publication 9000000 "n2" "alice"; sample_publication 9500000 "n3" "bob"].
Definition sample_later (k : nat) : list publication := match k with O => [] | S _ => [sample_publication 77000000 "n4" "alice"] end.

Lemma notification_pages_witness :
  exists l, all_pages plain_marshal plain_unmarshal notification_key 4
      (fun k => table_rows (nd_rows (published Some {["alice"%string]} (sample_publications ++ sample_later k)))) 0
      (fun r => bool_decide (nr_AccountID r = "alice"%string)) EmptyString 1 = Some l /\
    map nr_ID l = ["n2"; "n1"]%string.
Proof.
  destruct (notification_pages plain_marshal plain_unmarshal (Payload := string) Some {["alice"%string]} sample_publications sample_later "alice" 1) as (l & Hl & Hel & Hnd & Hs).
  - done.
  - intros k p Hp. assert (p ∈ sample_publications ++ sample_later 1) as Hp'.
    { rewrite elem_of_app in Hp |- *. destruct Hp as [|Hp]; [by left|right]. destruct k; [by apply not_elem_of_nil in Hp|done]. }
    clear Hp. revert p Hp'. apply Forall_forall. repeat constructor; cbn; unfold representable; try lia; done.
  - intros k p p0 Hp Hp0. destruct k as [|k]; [by apply not_elem_of_nil in Hp|]. apply list_elem_of_singleton in Hp as ->.
    revert p0 Hp0. apply Forall_forall. repeat constructor.
  - apply Forall_forall. repeat constructor; try (by vm_compute); intros H; by vm_compute in H.
  - exists l. split; [|clear Hel Hnd Hs; assert (Some (map nr_ID l) = Some ["n2"; "n1"]%string) as E; [|by injection E]].
    + rewrite <- Hl. f_equal.
    + change (Some (map nr_ID l)) with (map nr_ID <$> Some l). rewrite <- Hl. by vm_compute.
Defined.

Lemma audit_reads_isolated_witness :
  let db := apply_effects (mkAuditDB {["alice"%string]} ∅ ∅)
    (snd (Approval.run ∅ [Approval.OpCreate 0 "a" (Approval.sample_params Approval.TypeWebAuthnSign "c")])) in
  exists rows, listSignings plain_marshal plain_unmarshal db "alice" (fun _ => EmptyString) true = inr (rows, None) /\
    zlen rows = 1 /\ forall r, r ∈ rows -> g_AccountID r = "alice"%string.
Proof.
  intros db. eexists. split; [by vm_compute|]. split; [by vm_compute|]. intros r Hr.
  destruct (audit_reads_isolated plain_marshal plain_marshal plain_unmarshal plain_unmarshal (fun _ => None) (Payload := string) (fun _ => None)
    db (mkNotifyDB ∅ ∅) ∅ "alice" false (fun _ => EmptyString) "a" true) as (_ & H & _).
  eapply H; [|exact Hr]. by vm_compute.
Defined.
