(* ===== verification/SshAuth.v ===== *)
(** * Authenticating an SSH connection (internal/sshx/auth.go,
      internal/sshx/passkey_factory.go, the set-up of internal/sshx/transport.go)

    A connection offers its keys one after the other: file keys first, then
    passkeys, each as a method of its own, so that a human may deny one without
    losing the others. While the set-up lasts, cancelling it closes the socket;
    afterwards it must not. *)
From Stdlib Require Import Ascii.
From stdpp Require Import pretty.
From S2P Require Import Prelude GoStrings SSHWire Approval Broker Passkeys HostKeys AuditLog Terminal PinStore SignAgent KeyDir.
#[local] Open Scope Z_scope.

(** ** One method per key (auth.go) *)

Definition connectionTimeout : Z := 90 * 1000000000.
Definition authFailedMessage : string := "All configured authentication methods failed".

Section KeyAuth.
(** The signers, and the errors they report. *)
Context {S E : Type}.

(** [ka_deadline] is the deadline set on the socket. *)
Record keyAuth := mkKeyAuth { ka_signers : list S; ka_next : nat; ka_lastErr : option E; ka_deadline : Z }.

(** The deadline of the handshake is set when the socket is there. *)
Definition newKeyAuth (signers : list S) (now : Z) : keyAuth := mkKeyAuth signers 0 None (now + connectionTimeout).

Inductive next_method := AbortAuth | NoMethod | Method (s : S).

(** The callback after the "none" attempt and after every failed method:
    [ctxErr] says whether the dial's context is dead, [allowed] is what the
    server takes. *)
Definition callback (k : keyAuth) (now : Z) (ctxErr : bool) (allowed : list string) : keyAuth * next_method :=
  if ctxErr then (k, AbortAuth)
  else
    let k := mkKeyAuth (ka_signers k) (ka_next k) (ka_lastErr k) (now + connectionTimeout) in
    if (0 <? zlen allowed) && negb (bool_decide ("publickey"%string ∈ allowed)) then (k, NoMethod)
    else
      match ka_signers k !! ka_next k with
      | None => (k, NoMethod)
      | Some s => (mkKeyAuth (ka_signers k) (1 + ka_next k) (ka_lastErr k) (ka_deadline k), Method s)
      end.

Definition record (k : keyAuth) (err : E) : keyAuth := mkKeyAuth (ka_signers k) (ka_next k) (Some err) (ka_deadline k).

(** What the user is told: the last rejection, the summary alone, or the error
    of the handshake. *)
Inductive auth_error := AuthRejected (err : E) | AuthFailed | OtherError (text : string).

Definition authError (k : keyAuth) (handshakeErr : string) : auth_error :=
  match ka_lastErr k with
  | Some err => AuthRejected err
  | None => if Contains_str handshakeErr "unable to authenticate" then AuthFailed else OtherError handshakeErr
  end.

(** *** The handshake's authentication

    x/crypto asks the callback, queries the server for the key and lets the
    signer sign only when the server would take the key; a signer's error or a
    refused signature ends the method. [rd_done] is when the peer's part of the
    round arrives: past the deadline the socket has failed. *)
Record auth_round := mkRound {
  rd_now : Z; rd_done : Z; rd_ctxErr : bool; rd_allowed : list string; rd_query : bool; rd_sign : option E; rd_verdict : bool }.

Inductive auth_outcome := Authenticated (s : S) | Cancelled_ | OutOfKeys | TimedOut | Unfinished.

(** The outcome, and the keys a signature was asked for. *)
Fixpoint auth_run (k : keyAuth) (rounds : list auth_round) : keyAuth * auth_outcome * list S :=
  match rounds with
  | [] => (k, Unfinished, [])
  | r :: rounds =>
      match callback k (rd_now r) (rd_ctxErr r) (rd_allowed r) with
      | (k, AbortAuth) => (k, Cancelled_, [])
      | (k, NoMethod) => (k, OutOfKeys, [])
      | (k, Method s) =>
          if ka_deadline k <? rd_done r then (k, TimedOut, [])
          else if negb (rd_query r) then auth_run k rounds
          else
            match rd_sign r with
            | Some err => let '(k, o, asked) := auth_run (record k err) rounds in (k, o, s :: asked)
            | None =>
                if rd_verdict r then (k, Authenticated s, [s])
                else let '(k, o, asked) := auth_run k rounds in (k, o, s :: asked)
            end
      end
  end.

(** *** What it amounts to *)

(** The first key that the server takes, and the keys asked on the way. *)
Fixpoint first_accepted (signers : list S) (rounds : list auth_round) : option S * list S :=
  match signers, rounds with
  | s :: signers, r :: rounds =>
      if negb (rd_query r) then first_accepted signers rounds
      else match rd_sign r, rd_verdict r with
           | None, true => (Some s, [s])
           | _, _ => let '(o, asked) := first_accepted signers rounds in (o, s :: asked)
           end
  | _, _ => (None, [])
  end.

(** The server takes public keys, nobody cancels, and the peer answers every
    round in time. *)
Definition prompt_round (r : auth_round) : Prop :=
  rd_ctxErr r = false /\ (rd_allowed r = [] \/ "publickey"%string ∈ rd_allowed r) /\ rd_done r <= rd_now r + connectionTimeout.

Lemma callback_prompt k r : prompt_round r ->
  callback k (rd_now r) (rd_ctxErr r) (rd_allowed r) =
    match ka_signers k !! ka_next k with
    | None => (mkKeyAuth (ka_signers k) (ka_next k) (ka_lastErr k) (rd_now r + connectionTimeout), NoMethod)
    | Some s => (mkKeyAuth (ka_signers k) (1 + ka_next k) (ka_lastErr k) (rd_now r + connectionTimeout), Method s)
    end.
Proof using.
  intros (-> & Ha & _). unfold callback.
  assert ((0 <? zlen (rd_allowed r)) && negb (bool_decide ("publickey"%string ∈ rd_allowed r)) = false) as ->.
  { destruct Ha as [->|Ha]; [done|]. rewrite bool_decide_eq_true_2 by done. apply andb_false_r. }
  done.
Qed.

Lemma auth_run_from rounds k : Forall prompt_round rounds -> (length (ka_signers k) < length rounds + ka_next k)%nat -> (ka_next k <= length (ka_signers k))%nat ->
  let '(k', o, asked) := auth_run k rounds in
  (o, asked) = match first_accepted (drop (ka_next k) (ka_signers k)) rounds with (Some s, l) => (Authenticated s, l) | (None, l) => (OutOfKeys, l) end.
Proof using.
  revert k. induction rounds as [|r rounds IH]; intros k Hf Hl Hn; [cbn in Hl; lia|]. apply Forall_cons in Hf as [Hr Hf].
  cbn [auth_run]. rewrite (callback_prompt k r Hr). destruct (ka_signers k !! ka_next k) as [s|] eqn:Es.
  - rewrite (drop_S _ _ _ Es). cbn [first_accepted ka_deadline]. destruct Hr as (_ & _ & Hd). rewrite (proj2 (Z.ltb_ge _ _)) by lia.
    pose proof (lookup_lt_Some _ _ _ Es) as Hlt. cbn [length] in Hl.
    assert (forall e, let '(k', o, asked) := auth_run (mkKeyAuth (ka_signers k) (1 + ka_next k) e (rd_now r + connectionTimeout)) rounds in
      (o, asked) = match first_accepted (drop (Datatypes.S (ka_next k)) (ka_signers k)) rounds with (Some s, l) => (Authenticated s, l) | (None, l) => (OutOfKeys, l) end) as Hnext.
    { intros e. apply (IH (mkKeyAuth (ka_signers k) (1 + ka_next k) e (rd_now r + connectionTimeout))); cbn; [done|lia|lia]. }
    destruct (rd_query r); cbn [negb]; [|apply Hnext].
    destruct (rd_sign r) as [err|].
    + specialize (Hnext (Some err)). unfold record. cbn. destruct (auth_run _ rounds) as [[k' o] asked].
      destruct (first_accepted _ rounds) as [[s'|] l]; by simplify_eq.
    + destruct (rd_verdict r); [done|]. specialize (Hnext (ka_lastErr k)). destruct (auth_run _ rounds) as [[k' o] asked].
      destruct (first_accepted _ rounds) as [[s'|] l]; by simplify_eq.
  - apply lookup_ge_None in Es. rewrite drop_ge by lia. by cbn.
Qed.

(** The keys asked for come in the order of the offer, each at most once. *)
Lemma auth_run_asked rounds k : let '(k', o, asked) := auth_run k rounds in sublist asked (drop (ka_next k) (ka_signers k)) /\
  (forall s, o = Authenticated s -> last asked = Some s).
Proof using.
  revert k. induction rounds as [|r rounds IH]; intros k; cbn [auth_run]; [split; [apply sublist_nil_l|done]|].
  unfold callback. destruct (rd_ctxErr r); [split; [apply sublist_nil_l|done]|]. destruct (_ && _); [split; [apply sublist_nil_l|done]|]. cbn [ka_signers ka_next].
  destruct (ka_signers k !! ka_next k) as [s|] eqn:Es; [|split; [apply sublist_nil_l|done]]. cbn [ka_deadline ka_lastErr].
  destruct (_ <? _); [split; [apply sublist_nil_l|done]|]. rewrite (drop_S _ _ _ Es).
  assert (forall e d, let '(k', o, asked) := auth_run (mkKeyAuth (ka_signers k) (1 + ka_next k) e d) rounds in
    sublist asked (drop (Datatypes.S (ka_next k)) (ka_signers k)) /\ (forall s, o = Authenticated s -> last asked = Some s)) as Hnext
    by (intros e d; exact (IH (mkKeyAuth (ka_signers k) (1 + ka_next k) e d))).
  destruct (rd_query r); cbn [negb].
  - destruct (rd_sign r) as [err|].
    + unfold record. cbn. specialize (Hnext (Some err) (rd_now r + connectionTimeout)). destruct (auth_run _ rounds) as [[k' o] asked]. destruct Hnext as [Hs Ho].
      split; [by apply sublist_skip|]. intros s' Hs'. specialize (Ho s' Hs'). destruct asked; [done|]. exact Ho.
    + destruct (rd_verdict r); [split; [apply sublist_skip, sublist_nil_l|by intros ? [= ->]]|].
      specialize (Hnext (ka_lastErr k) (rd_now r + connectionTimeout)). destruct (auth_run _ rounds) as [[k' o] asked]. destruct Hnext as [Hs Ho].
      split; [by apply sublist_skip|]. intros s' Hs'. specialize (Ho s' Hs'). destruct asked; [done|]. exact Ho.
  - specialize (Hnext (ka_lastErr k) (rd_now r + connectionTimeout)). destruct (auth_run _ rounds) as [[k' o] asked]. destruct Hnext as [Hs Ho].
    split; [by apply sublist_cons|done].
Qed.

(** A connection authenticates with the first of its keys that the server takes
    and its signer signs for: a denied, expired or refused key only costs its
    own method, every key is asked for at most once and in order, none that the
    server would not take, and one more round than there are keys ends it (C20). *)
Theorem key_auth_spec signers now rounds : Forall prompt_round rounds -> (length signers < length rounds)%nat ->
  let '(k, o, asked) := auth_run (newKeyAuth signers now) rounds in
  (o, asked) = match first_accepted signers rounds with (Some s, l) => (Authenticated s, l) | (None, l) => (OutOfKeys, l) end /\
  sublist asked signers.
Proof using.
  intros Hf Hl. pose proof (auth_run_from rounds (newKeyAuth signers now) Hf) as H1. pose proof (auth_run_asked rounds (newKeyAuth signers now)) as H2.
  destruct (auth_run _ rounds) as [[k o] asked]. cbn in H1, H2. split; [apply H1; lia|apply H2].
Qed.

End KeyAuth.

(** ** The factory (passkey_factory.go) *)

Record FactoryParams := mkFactoryParams { fp_Endpoint : EndpointRef; fp_SessionID : string; fp_Trigger : Trigger }.

(** A key of a connection, with what its signer asks the broker for. *)
Inductive offered :=
  | OfferFileKey (key : Signer) (label : string)
  | OfferPasskey (blob : list byte) (credentialID label : string).

(** What all signers of a connection share. *)
Record signing_setup := mkSetup { ss_account : string; ss_connection : string; ss_context : Context_; ss_redirect : string; ss_uv : string; ss_endpoint : string }.

Definition endpoint_address (e : EndpointRef) : string := (ref_Username e ++ "@" ++ ref_Host e ++ ":" ++ pretty (ref_Port e))%string.

(** sessionRedirect *)
Definition sessionRedirect (sessionID : string) : string :=
  if bool_decide (sessionID = EmptyString) then EmptyString else String.append "/session/" sessionID.

Definition connection_context (fp : FactoryParams) : Context_ :=
  let e := fp_Endpoint fp in let tr := fp_Trigger fp in
  mkContext "endpoint-auth" (ref_Label e) (endpoint_address e) EmptyString (tr_SourceIP tr) EmptyString EmptyString EmptyString None
    (source_text (tr_Kind tr)) (tr_Reason tr) (tr_MCPClientName tr) (tr_MCPClientVer tr).

Definition connection_setup (fp : FactoryParams) (connID : string) : signing_setup :=
  mkSetup (ref_AccountID (fp_Endpoint fp)) connID (connection_context fp) (sessionRedirect (fp_SessionID fp))
    (ref_UserVerification (fp_Endpoint fp)) (ref_ID (fp_Endpoint fp)).

(** buildSigners: [creds] is the listing of the account's passkeys, [None] a
    failed query. *)
Definition buildSigners (creds : option (list AuthCredential)) (fileKeys : list (Signer * string)) : option (list offered) :=
  creds ← creds;
  Some (map (fun x => OfferFileKey (fst x) (snd x)) fileKeys ++
        omap (fun c => (fun blob => OfferPasskey blob (au_CredentialID c) (au_Label c)) <$> parseWebauthnPublicKey (bytes_of_string (au_PublicKeyOpenSSH c))) creds).

(** The broker call of one signer (its context is annotated with the host key
    by [withHostKeyContext] first). *)
Definition request_of (FingerprintSHA256 : list byte -> string) (rpID : string) (st : signing_setup) (ctx : Context_) (data : list byte) (o : offered) : broker_call :=
  match o with
  | OfferFileKey key label =>
      CallRequestKeyApproval (mkKeyApproval (ss_account st) label (FingerprintSHA256 (pk_Marshal (sg_PublicKey key))) (ss_connection st) ctx (ss_redirect st))
  | OfferPasskey _ cred label =>
      CallRequestSign (ss_account st) (mkSignRequest cred data rpID (ss_uv st) label (ss_connection st)) ctx (ss_redirect st)
  end.

Definition forwarding_context (fp : FactoryParams) : Context_ :=
  let e := fp_Endpoint fp in
  mkContext "agent-forwarding" (ref_Label e) (endpoint_address e) (fp_SessionID fp) EmptyString EmptyString EmptyString EmptyString None EmptyString EmptyString EmptyString EmptyString.

(** buildForwardingAgent; [None] is no agent. *)
Definition buildForwardingAgent (fp : FactoryParams) (connID rpID : string) (creds : option (list AuthCredential)) (fileKeys : list (Signer * string)) : option SignAgent.Agent :=
  let identities :=
    map (fun x => SignAgent.mkIdentity (Some (fst x)) None false EmptyString (snd x) EmptyString) fileKeys ++
    match creds with
    | Some creds => omap (fun c => PasskeyIdentity (bytes_of_string (au_PublicKeyOpenSSH c)) (au_CredentialID c) (au_Label c) rpID) creds
    | None => []
    end in
  match identities with
  | [] => None
  | _ => Some (SignAgent.mkAgent identities (ref_AccountID (fp_Endpoint fp)) connID (forwarding_context fp) (sessionRedirect (fp_SessionID fp)))
  end.

Record HostKeyMismatchEvent := mkMismatchEvent {
  me_AccountID : string; me_EndpointID : string; me_EndpointLabel : string; me_EndpointAddress : string; me_ObservedKeyType : string;
  me_ObservedFingerprint : string; me_PinnedFingerprint : string; me_Trigger : Trigger }.

(** A failed dial, as errors.As sees it, and whether a notification was
    published for it. *)
Inductive dial_error := DialMismatch (m : HostKeyMismatchError) | DialOther.
Inductive factory_error := CredentialQuery | NoCredentials | DialFailed (e : dial_error) (notification : option string).

(** What the factory calls. *)
Inductive factory_call := CallConnect (offer : list offered) (forwarding : option SignAgent.Agent) | CallMismatch (ev : HostKeyMismatchEvent) | CallEnded (connID : string).

Section Factory.
(** The dial, by its keys and its forwarding agent: the transport or an error;
    and the two callbacks: whether they are set, and the notification's id. *)
Context {T : Type} (dial : list offered -> option SignAgent.Agent -> dial_error + T).
Context (onMismatch : option (HostKeyMismatchEvent -> string)) (onEnded : bool).

Definition mismatch_event (fp : FactoryParams) (m : HostKeyMismatchError) : HostKeyMismatchEvent :=
  let e := fp_Endpoint fp in
  mkMismatchEvent (ref_AccountID e) (ref_ID e) (ref_Label e) (endpoint_address e) (mm_ObservedKeyType m) (mm_ObservedFingerprint m) (mm_PinnedFingerprint m) (fp_Trigger fp).

(** NewPasskeyFactory's function: [creds1] and [creds2] are the listings of the
    passkeys for the connection and for the forwarding agent. On success the
    transport is watched when [onEnded]. *)
Definition open_connection (fp : FactoryParams) (connID rpID : string) (fileKeys : list (Signer * string)) (creds1 creds2 : option (list AuthCredential))
  : list factory_call * (factory_error + T) :=
  match buildSigners creds1 fileKeys with
  | None => ([], inl CredentialQuery)
  | Some [] => ([], inl NoCredentials)
  | Some signers =>
      let fwd := if ref_AgentForward (fp_Endpoint fp) then buildForwardingAgent fp connID rpID creds2 fileKeys else None in
      let ended := if onEnded then [CallEnded connID] else [] in
      match dial signers fwd with
      | inr t => ([CallConnect signers fwd], inr t)
      | inl (DialMismatch m) =>
          match onMismatch with
          | Some f =>
              let ev := mismatch_event fp m in
              let id := f ev in
              ([CallConnect signers fwd; CallMismatch ev] ++ ended,
               inl (DialFailed (DialMismatch m) (if bool_decide (id = EmptyString) then None else Some id)))
          | None => (CallConnect signers fwd :: ended, inl (DialFailed (DialMismatch m) None))
          end
      | inl DialOther => (CallConnect signers fwd :: ended, inl (DialFailed DialOther None))
      end
  end.

End Factory.

(** ** Offers are entitled *)

Lemma ActiveCredentials_from db acc c : c ∈ ActiveCredentialsForAuth db acc ->
  exists r, r ∈ creds db /\ Passkeys.AccountID r = acc /\ active r = true /\ au_CredentialID c = CredentialID r /\ au_Label c = Label r /\ PublicKeyOpenSSH r = Some (au_PublicKeyOpenSSH c).
Proof.
  unfold ActiveCredentialsForAuth. intros (r & Hr & Hc)%list_elem_of_omap. apply list_elem_of_In, filter_In in Hr as [Hr Hp].
  apply andb_true_iff in Hp as [Ha Hact]. apply bool_decide_eq_true in Ha. destruct (PublicKeyOpenSSH r) as [line|] eqn:El; [|done]. cbn in Hc. simplify_eq.
  exists r. split_and!; try done. by apply list_elem_of_In.
Qed.

(** A passkey that may be used for an account now. *)
Definition active_passkey (db : DB) (acc cred label : string) : Prop :=
  exists r, r ∈ creds db /\ Passkeys.AccountID r = acc /\ active r = true /\ CredentialID r = cred /\ Label r = label.

Definition offer_ok (db : DB) (acc : string) (fileKeys : list (Signer * string)) (o : offered) : Prop :=
  match o with
  | OfferFileKey key label => (key, label) ∈ fileKeys
  | OfferPasskey _ cred label => active_passkey db acc cred label
  end.

Definition identity_ok (db : DB) (acc : string) (fileKeys : list (Signer * string)) (id : SignAgent.Identity) : Prop :=
  if id_IsPasskey id then active_passkey db acc (id_CredentialID id) (id_Label id)
  else exists key, id_Signer id = Some key /\ (key, id_Label id) ∈ fileKeys.

Lemma buildSigners_ok db acc fileKeys l : buildSigners (Some (ActiveCredentialsForAuth db acc)) fileKeys = Some l -> Forall (offer_ok db acc fileKeys) l.
Proof.
  cbn. intros [= <-]. apply Forall_app. split; apply Forall_forall; intros o Ho.
  - apply list_elem_of_fmap in Ho as ([key label] & -> & Hin). done.
  - apply list_elem_of_omap in Ho as (c & Hc & E). apply ActiveCredentials_from in Hc as (r & Hr & Ha & Hact & Hcid & Hl & _).
    destruct (parseWebauthnPublicKey _) as [blob|]; [|done]. cbn in E. simplify_eq. exists r. by split_and!.
Qed.

Lemma buildForwardingAgent_ok db acc fp connID rpID fileKeys ag :
  buildForwardingAgent fp connID rpID (Some (ActiveCredentialsForAuth db acc)) fileKeys = Some ag ->
  SignAgent.ag_accountID ag = ref_AccountID (fp_Endpoint fp) /\ SignAgent.ag_connectionID ag = connID /\ Forall (identity_ok db acc fileKeys) (ag_identities ag).
Proof.
  unfold buildForwardingAgent. set (ids := _ ++ _). assert (Forall (identity_ok db acc fileKeys) ids) as Hids.
  { apply Forall_app. split; apply Forall_forall; intros id Hid.
    - apply list_elem_of_fmap in Hid as ([key label] & -> & Hin). exists key. done.
    - apply list_elem_of_omap in Hid as (c & Hc & E). apply ActiveCredentials_from in Hc as (r & Hr & Ha & Hact & Hcid & Hl & _).
      unfold PasskeyIdentity in E. destruct (parseWebauthnPublicKey _) as [blob|]; [|done]. simplify_eq. exists r. cbn. by split_and!. }
  destruct ids; [done|]. intros [= <-]. done.
Qed.

(** How often the end of a connection is reported. *)
Definition ended_calls (connID : string) (l : list factory_call) : nat :=
  length (List.filter (fun c => match c with CallEnded id => bool_decide (id = connID) | _ => false end) l).

Lemma open_connection_cases {T} (dial : list offered -> option SignAgent.Agent -> dial_error + T) onMismatch onEnded fp connID rpID fileKeys creds1 creds2 calls r :
  open_connection dial onMismatch onEnded fp connID rpID fileKeys creds1 creds2 = (calls, r) ->
  (calls = [] /\ (r = inl CredentialQuery \/ r = inl NoCredentials)) \/
  exists signers fwd l, let ended := if onEnded : bool then [CallEnded connID] else [] in
    buildSigners creds1 fileKeys = Some signers /\
    fwd = (if ref_AgentForward (fp_Endpoint fp) then buildForwardingAgent fp connID rpID creds2 fileKeys else None) /\
    calls = CallConnect signers fwd :: l /\
    ((exists t, r = inr t /\ l = []) \/
     (exists e n, r = inl (DialFailed e n) /\ l = ended) \/
     (exists m n, r = inl (DialFailed (DialMismatch m) n) /\ l = CallMismatch (mismatch_event fp m) :: ended)).
Proof.
  unfold open_connection. destruct (buildSigners creds1 fileKeys) as [[|o signers]|]; [intros [= <- <-]; left; auto| |intros [= <- <-]; left; auto].
  set (fwd := if ref_AgentForward _ then _ else None). intros H. right. exists (o :: signers), fwd. destruct (dial (o :: signers) fwd) as [[m|]|t].
  - destruct onMismatch as [f|]; injection H as <- <-; eexists; (split_and!; [done..|]); [right; right|right; left]; by eauto.
  - injection H as <- <-. eexists. split_and!; [done..|]. right; left. by eauto.
  - injection H as <- <-. eexists. split_and!; [done..|]. left. by eauto.
Qed.

(** A connection to an endpoint offers active passkeys of the endpoint's own
    account, and file keys only when that account is the admin's, for enabled
    rows whose private key is on disk; its forwarding agent has no other
    identity. A failed dial reports the connection's end exactly once; a
    mismatch is reported for that endpoint and account only when the dial found
    one (C14). *)
Theorem connection_offers_entitled {T} (dial : list offered -> option SignAgent.Agent -> dial_error + T) onMismatch fp connID rpID
  (ParsePrivateKey : list byte -> option Signer) FingerprintSHA256 MarshalAuthorizedKey admin d tbl db calls r :
  let acc := ref_AccountID (fp_Endpoint fp) in
  let k := scanLocked ParsePrivateKey FingerprintSHA256 MarshalAuthorizedKey d in
  let fileKeys := fileKeysFor ParsePrivateKey FingerprintSHA256 MarshalAuthorizedKey admin k d (Some (ListFull tbl)) in
  let listing := Some (ActiveCredentialsForAuth db acc) in
  open_connection dial onMismatch true fp connID rpID fileKeys listing listing = (calls, r) ->
  (forall signers fwd, CallConnect signers fwd ∈ calls ->
     Forall (offer_ok db acc fileKeys) signers /\
     forall ag, fwd = Some ag -> SignAgent.ag_accountID ag = acc /\ Forall (identity_ok db acc fileKeys) (ag_identities ag)) /\
  (forall key label, (key, label) ∈ fileKeys -> admin = true /\
     exists id row, tbl !! id = Some row /\ k_Type row = "file"%string /\ k_Enabled row = true /\ k_Label row = label /\
       exists sk, read_from ParsePrivateKey FingerprintSHA256 d (k_Fingerprint row) sk /\ sk_signer sk = key) /\
  (forall e n, r = inl (DialFailed e n) -> ended_calls connID calls = 1%nat) /\
  (forall t, r = inr t -> ended_calls connID calls = 0%nat) /\
  (forall ev, CallMismatch ev ∈ calls -> me_AccountID ev = acc /\ me_EndpointID ev = ref_ID (fp_Endpoint fp) /\
     exists m n, r = inl (DialFailed (DialMismatch m) n) /\ me_PinnedFingerprint ev = mm_PinnedFingerprint m).
Proof.
  intros acc k fileKeys lst Hopen.
  assert (Hfk : forall key label, (key, label) ∈ fileKeys -> admin = true /\
     exists id row, tbl !! id = Some row /\ k_Type row = "file"%string /\ k_Enabled row = true /\ k_Label row = label /\
       exists sk, read_from ParsePrivateKey FingerprintSHA256 d (k_Fingerprint row) sk /\ sk_signer sk = key).
  { intros key label Hin.
    destruct (fileKeysFor_entitled ParsePrivateKey FingerprintSHA256 MarshalAuthorizedKey ∅ d (fun _ => EmptyString) [] [] [] admin d tbl key label Hin)
      as (Ha & id & row & Hr & Ht & He & Hl & _ & d' & sk & [->|(? & ? & ? & H)] & Hrd & Hs); [|by apply not_elem_of_nil in H].
    split; [done|]. exists id, row. split_and!; try done. by exists sk. }
  assert (Hended : ended_calls connID [CallEnded connID] = 1%nat) by (unfold ended_calls; cbn; by rewrite bool_decide_eq_true_2).
  destruct (open_connection_cases _ _ _ _ _ _ _ _ _ _ _ Hopen) as [[-> Hr]|(signers & fwd & l & Eb & -> & -> & Hcase)].
  { split_and!; try done; try (intros; by eapply not_elem_of_nil in H); destruct Hr as [-> | ->]; done. }
  assert (Hl : forall s f, CallConnect s f ∉ l).
  { intros s f H. destruct Hcase as [(t & _ & ->)|[(e & n & _ & ->)|(m & n & _ & ->)]]; set_solver. }
  split_and!; [|done| | |].
  - intros s f [[= -> ->]|H]%elem_of_cons; [|by apply Hl in H]. split; [by apply buildSigners_ok|].
    destruct (ref_AgentForward _); [|done]. intros ag (H1 & _ & H2)%(buildForwardingAgent_ok db acc). done.
  - intros e n ->. destruct Hcase as [(t & [=] & _)|[(e' & n' & _ & ->)|(m & n' & _ & ->)]]; exact Hended.
  - intros t ->. destruct Hcase as [(t' & _ & ->)|[(e' & n' & [=] & _)|(m & n' & [=] & _)]]. done.
  - intros ev [H|H]%elem_of_cons; [done|]. destruct Hcase as [(t & _ & ->)|[(e & n & _ & ->)|(m & n & -> & ->)]]; [set_solver|set_solver|].
    apply elem_of_cons in H as [[= ->]|H]; [|set_solver]. split_and!; [done|done|]. by exists m, n.
Qed.

(** ** The set-up and its watcher (Connect in transport.go) *)

(** Connect: in the handshake, in the rest of the set-up, in its deferred
    function, before and after signalling, and returned; with its result. *)
Inductive setup_pc := SetupHandshake | SetupRest | SetupDefer (ok : bool) | SetupSignal (ok : bool) | SetupReturned (ok : bool).
(** The watcher: before its select, in the branch of the cancellation, done. *)
Inductive watcher_pc := WatcherSelect | WatcherCancelled | WatcherExit.

Record setup := mkSetupState {
  su_ctxDone : bool; su_setupDone : bool; su_handshakeDone : bool; su_connClosed : bool; su_main : setup_pc; su_watcher : watcher_pc }.

Definition setup0 : setup := mkSetupState false false false false SetupHandshake WatcherSelect.

(** [Main ok]: the next step of Connect, [ok] the outcome of the handshake or
    of the rest; [Select cancelled]: the branch the watcher's select takes. *)
Inductive setup_label := Cancel | Main (ok : bool) | Select (cancelled : bool) | WatcherLock.

Definition setup_step (s : setup) (l : setup_label) : setup :=
  let with_main pc := mkSetupState (su_ctxDone s) (su_setupDone s) (su_handshakeDone s) (su_connClosed s) pc (su_watcher s) in
  let with_watcher pc := mkSetupState (su_ctxDone s) (su_setupDone s) (su_handshakeDone s) (su_connClosed s) (su_main s) pc in
  match l with
  | Cancel => mkSetupState true (su_setupDone s) (su_handshakeDone s) (su_connClosed s) (su_main s) (su_watcher s)
  | Main ok =>
      match su_main s with
      | SetupHandshake => with_main (if ok then SetupRest else SetupDefer false)
      | SetupRest => with_main (SetupDefer ok)
      | SetupDefer r => mkSetupState (su_ctxDone s) true (su_handshakeDone s) (su_connClosed s) (SetupSignal r) (su_watcher s)
      | SetupSignal r => mkSetupState (su_ctxDone s) (su_setupDone s) true (su_connClosed s) (SetupReturned r) (su_watcher s)
      | SetupReturned _ => s
      end
  | Select cancelled =>
      match su_watcher s with
      | WatcherSelect =>
          if cancelled then (if su_ctxDone s then with_watcher WatcherCancelled else s)
          else if su_handshakeDone s then with_watcher WatcherExit else s
      | _ => s
      end
  | WatcherLock =>
      match su_watcher s with
      | WatcherCancelled =>
          mkSetupState (su_ctxDone s) (su_setupDone s) (su_handshakeDone s) (if su_setupDone s then su_connClosed s else true) (su_main s) WatcherExit
      | _ => s
      end
  end.

Definition setup_run (s : setup) (ls : list setup_label) : setup := fold_left setup_step ls s.

Definition setup_inv (s : setup) : Prop :=
  match su_main s with
  | SetupHandshake | SetupRest | SetupDefer _ => su_setupDone s = false /\ su_handshakeDone s = false
  | SetupSignal _ => su_setupDone s = true /\ su_handshakeDone s = false
  | SetupReturned _ => su_setupDone s = true /\ su_handshakeDone s = true
  end /\ (su_watcher s = WatcherExit -> su_connClosed s = true \/ su_setupDone s = true).

Lemma setup_step_inv s l : setup_inv s -> setup_inv (setup_step s l).
Proof.
  unfold setup_inv. destruct s as [c d h x m w]. destruct l as [|ok|b|]; cbn; [done| | |].
  - intros [Hm Hw]. destruct m as [| |r|r|r]; cbn; [destruct ok|..]; cbn; naive_solver.
  - intros [Hm Hw]. destruct w; cbn; [|done..]. destruct b; [by destruct c|]. destruct h; [|done]. cbn. split; [done|]. intros _. right.
    destruct m; naive_solver.
  - intros [Hm Hw]. destruct w; cbn; [done| |done]. split; [done|]. intros _. destruct d; auto.
Qed.

Lemma setup_run_inv s ls : setup_inv s -> setup_inv (setup_run s ls).
Proof. revert s. induction ls as [|l ls IH]; intros s H; [done|]. cbn. by apply IH, setup_step_inv. Qed.

Lemma setup_step_done s l : su_setupDone s = true -> su_setupDone (setup_step s l) = true /\ su_connClosed (setup_step s l) = su_connClosed s.
Proof.
  destruct s as [c d h x m w]. cbn. intros ->. destruct l as [|ok|b|]; [done|by destruct m|destruct w; try done; destruct b; [by destruct c|by destruct h]|by destruct w].
Qed.

Lemma setup_done_stays s ls : su_setupDone s = true ->
  su_setupDone (fold_left setup_step ls s) = true /\ su_connClosed (fold_left setup_step ls s) = su_connClosed s.
Proof.
  revert s. induction ls as [|l ls IH]; intros s H; [done|]. cbn [fold_left]. destruct (setup_step_done s l H) as [H1 H2].
  rewrite <- H2. by apply IH.
Qed.

(** Cancelling a set-up closes its socket while it lasts, and never afterwards:
    once Connect has returned, no schedule of the watcher touches the
    connection it handed over, although the cancellation that follows every set-up
    races with the watcher's select; and until its deferred function runs a
    cancellation reaches the socket in two steps of the watcher. *)
Theorem setup_never_torn_down ls :
  (forall r ls', su_main (setup_run setup0 ls) = SetupReturned r ->
     su_connClosed (setup_run setup0 (ls ++ ls')) = su_connClosed (setup_run setup0 ls)) /\
  (su_setupDone (setup_run setup0 ls) = false ->
     su_connClosed (setup_run setup0 (ls ++ [Cancel; Select true; WatcherLock])) = true).
Proof.
  assert (setup_inv (setup_run setup0 ls)) as [Hi Hw] by (by apply setup_run_inv). unfold setup_run in *. setoid_rewrite fold_left_app. split.
  - intros r ls' Hm. rewrite Hm in Hi. apply (setup_done_stays _ ls' (proj1 Hi)).
  - destruct (fold_left setup_step ls setup0) as [c d h x m w]. cbn in *. intros ->. destruct w; cbn; [done|done|]. by destruct Hw.
Qed.

(** ** Witnesses *)

Definition sample_rounds : list (auth_round (E := RejectError)) :=
  [mkRound 0 1 false [] false None false; mkRound 2 3 false ["publickey"%string] true (Some ErrDenied) false; mkRound 4 5 false [] true None true;
   mkRound 6 7 false [] true None true; mkRound 8 9 false [] true None true].

Lemma key_auth_spec_witness :
  let '(k, o, asked) := auth_run (newKeyAuth ["k1"; "k2"; "k3"; "k4"]%string 0) sample_rounds in
  (o, asked) = (Authenticated "k3"%string, ["k2"; "k3"]%string).
Proof.
  pose proof (key_auth_spec ["k1"; "k2"; "k3"; "k4"]%string 0 sample_rounds) as H. destruct (auth_run _ _) as [[k o] asked].
  destruct H as [H _]; [|cbn; lia|exact H].
  unfold sample_rounds. rewrite !Forall_cons, Forall_nil. unfold prompt_round, connectionTimeout. cbn. split_and!; try done; try lia; first [by left|right; set_solver].
Defined.

Definition sample_endpoint : EndpointRef := PinStore.mkRef "e1" "box" "alice" "box.example" 22 "root" "preferred" true.
Definition sample_factory_params : FactoryParams := mkFactoryParams sample_endpoint "s1" (mkTrigger SourceUI "" "" "" "" "").

Definition sample_mismatch : HostKeyMismatchError := mkMismatch "e1" "ssh-ed25519" "SHA256:x" "SHA256:y".
Definition sample_table : KeyTable := snd (sync toy_parse toy_fingerprint toy_marshal ∅ (deploy_key [x41]) (fun _ => "t1"%string) ["SHA256:A"%string] []).
Definition sample_opened : list factory_call * (factory_error + unit) :=
  open_connection (fun _ _ => inl (DialMismatch sample_mismatch)) (Some (fun _ => "n1"%string)) true sample_factory_params "c1" "rp"
    (fileKeysFor toy_parse toy_fingerprint toy_marshal true (scanLocked toy_parse toy_fingerprint toy_marshal (deploy_key [x41])) (deploy_key [x41]) (Some (ListFull sample_table)))
    (Some (ActiveCredentialsForAuth (mkDB [] [] None) "alice")) (Some (ActiveCredentialsForAuth (mkDB [] [] None) "alice")).

Lemma connection_offers_entitled_witness :
  snd sample_opened = inl (DialFailed (DialMismatch sample_mismatch) (Some "n1"%string)) /\ ended_calls "c1" (fst sample_opened) = 1%nat.
Proof.
  assert (snd sample_opened = inl (DialFailed (DialMismatch sample_mismatch) (Some "n1"%string))) as Hr by (by vm_compute). split; [exact Hr|].
  destruct (connection_offers_entitled (T := unit) (fun _ _ => inl (DialMismatch sample_mismatch)) (Some (fun _ => "n1"%string)) sample_factory_params "c1" "rp"
    toy_parse toy_fingerprint toy_marshal true (deploy_key [x41]) sample_table (mkDB [] [] None) (fst sample_opened) (snd sample_opened)) as (_ & _ & H & _).
  - apply surjective_pairing.
  - exact (H _ _ Hr).
Defined.

Lemma setup_never_torn_down_witness :
  let ls := [Main true; Main true; Main true; Main true] in
  su_connClosed (setup_run setup0 (ls ++ [Cancel; Select true; WatcherLock])) = false.
Proof. destruct (setup_never_torn_down [Main true; Main true; Main true; Main true]) as [H _]. cbv zeta. by rewrite (H true). Defined.
