(* ===== verification/SshTransport.v ===== *)
(** * The SSH transport's goroutines (internal/sshx/transport.go and
      watchTransportEnd of internal/sshx/passkey_factory.go)

    Two goroutines copy the remote's streams to one channel, a third waits for
    both, reports how the session ended and closes the channel, a fourth copies
    that channel to another one and reports the end; the session's pump reads
    the second channel until it has seen an ending. Closing comes from anywhere.
    Every step is the code between two points where a goroutine can be
    interrupted or blocked. *)
From S2P Require Import Prelude Terminal.
#[local] Open Scope Z_scope.

(** ** Channels *)

Record chan := mkChan { ch_buf : list Event; ch_closed : bool }.

(** What a step comes to: it cannot run, it panics, or it is done. *)
Inductive outcome (A : Type) := Blocked | Panic | Ok (a : A).
Arguments Blocked {A}. Arguments Panic {A}. Arguments Ok {A} a.

Definition obind {A B} (o : outcome A) (f : A -> outcome B) : outcome B :=
  match o with Blocked => Blocked | Panic => Panic | Ok a => f a end.

Definition make : chan := mkChan [] false.

Definition send (cap : nat) (c : chan) (ev : Event) : outcome chan :=
  if ch_closed c then Panic
  else if decide (length (ch_buf c) < cap)%nat then Ok (mkChan (ch_buf c ++ [ev]) false) else Blocked.

(** [None] is the end of a closed channel. *)
Definition receive (c : chan) : outcome (option Event * chan) :=
  match ch_buf c with
  | ev :: buf => Ok (Some ev, mkChan buf (ch_closed c))
  | [] => if ch_closed c then Ok (None, c) else Blocked
  end.

Definition close_chan (c : chan) : outcome chan := if ch_closed c then Panic else Ok (mkChan (ch_buf c) true).

(** ** The end of a remote session *)

Inductive wait_error := WaitEOF | WaitExit (status : Z) | WaitExitMissing | WaitOther (text : string).

Definition isNormalSessionEnd (err : option wait_error) : bool :=
  match err with None | Some WaitEOF | Some (WaitExit _) | Some WaitExitMissing => true | Some (WaitOther _) => false end.

Definition ending (werr : option wait_error) : Event := if isNormalSessionEnd werr then EvClosed else EvErr.

(** ** The goroutines *)

Inductive stream := Stdout | Stderr.

(** pipe: in Read, in emit before its lock, in emit's send, returned; with
    whether the read reported an error too. *)
Inductive pipe_pc := PipeRead | PipeEmit (data : list byte) (eof : bool) | PipeSend (data : list byte) (eof : bool) | PipeDone.

(** The waiter: in wg.Wait, at its send, before close(t.events), before
    client.Close, returned. *)
Inductive waiter_pc := WaitPipes | WaitSend (ev : Event) | WaitClose | WaitClient | WaitDone.

(** Close past its guard: before session.Close, before client.Close, returned. *)
Inductive closer_pc := CloserIdle | CloserSession | CloserClient | CloserDone.

#[export] Instance closer_pc_eq_dec : EqDecision closer_pc.
Proof. solve_decision. Defined.

Record transport := mkTransport {
  t_closed : bool; t_events : chan; t_out : pipe_pc; t_err : pipe_pc; t_waiter : waiter_pc; t_closer : closer_pc;
  t_sessionClosed : bool; t_clientClosed : bool }.

Definition events_cap : nat := 64.
Definition watch_cap : nat := 16.

Definition start : transport := mkTransport false make PipeRead PipeRead WaitPipes CloserIdle false false.

Definition pipe_of (t : transport) (s : stream) : pipe_pc := match s with Stdout => t_out t | Stderr => t_err t end.

Definition set_pipe (t : transport) (s : stream) (pc : pipe_pc) : transport :=
  match s with
  | Stdout => mkTransport (t_closed t) (t_events t) pc (t_err t) (t_waiter t) (t_closer t) (t_sessionClosed t) (t_clientClosed t)
  | Stderr => mkTransport (t_closed t) (t_events t) (t_out t) pc (t_waiter t) (t_closer t) (t_sessionClosed t) (t_clientClosed t)
  end.

Definition set_events (t : transport) (c : chan) : transport :=
  mkTransport (t_closed t) c (t_out t) (t_err t) (t_waiter t) (t_closer t) (t_sessionClosed t) (t_clientClosed t).

Definition set_waiter (t : transport) (pc : waiter_pc) : transport :=
  mkTransport (t_closed t) (t_events t) (t_out t) (t_err t) pc (t_closer t) (t_sessionClosed t) (t_clientClosed t).

(** The loop goes on unless the read reported an error. *)
Definition pipe_next (eof : bool) : pipe_pc := if eof then PipeDone else PipeRead.

Inductive label :=
  | LRead (s : stream) (data : list byte) (eof : bool) | LEmit (s : stream) | LSend (s : stream)
  | LReap (werr : option wait_error) | LEnding | LCloseEvents | LWaiterClient
  | LClose | LCloserSession | LCloserClient
  | LForward | LForwardSend | LForwardClose | LOnEnd | LConsume.

(** pipe and emit *)
Definition pipe_step (t : transport) (l : label) : outcome transport :=
  match l with
  | LRead s data eof =>
      match pipe_of t s with
      | PipeRead => Ok (set_pipe t s (match data with [] => pipe_next eof | _ => PipeEmit data eof end))
      | _ => Blocked
      end
  | LEmit s =>
      match pipe_of t s with
      | PipeEmit data eof => Ok (set_pipe t s (if t_closed t then pipe_next eof else PipeSend data eof))
      | _ => Blocked
      end
  | LSend s =>
      match pipe_of t s with
      | PipeSend data eof => obind (send events_cap (t_events t) (EvData data)) (fun c => Ok (set_pipe (set_events t c) s (pipe_next eof)))
      | _ => Blocked
      end
  | _ => Blocked
  end.

(** The last goroutine of Connect; the lock is taken when session.Wait has
    returned [werr]. *)
Definition waiter_step (t : transport) (l : label) : outcome transport :=
  match l, t_waiter t with
  | LReap werr, WaitPipes =>
      match t_out t, t_err t with
      | PipeDone, PipeDone =>
          Ok (mkTransport true (t_events t) (t_out t) (t_err t) (if t_closed t then WaitClose else WaitSend (ending werr)) (t_closer t)
                (t_sessionClosed t) (t_clientClosed t))
      | _, _ => Blocked
      end
  | LEnding, WaitSend ev => obind (send events_cap (t_events t) ev) (fun c => Ok (set_waiter (set_events t c) WaitClose))
  | LCloseEvents, WaitClose => obind (close_chan (t_events t)) (fun c => Ok (set_waiter (set_events t c) WaitClient))
  | LWaiterClient, WaitClient =>
      Ok (mkTransport (t_closed t) (t_events t) (t_out t) (t_err t) WaitDone (t_closer t) (t_sessionClosed t) true)
  | _, _ => Blocked
  end.

(** Close: only one call gets past the guard. *)
Definition closer_step (t : transport) (l : label) : outcome transport :=
  match l with
  | LClose =>
      if t_closed t then Ok t
      else Ok (mkTransport true (t_events t) (t_out t) (t_err t) (t_waiter t) CloserSession (t_sessionClosed t) (t_clientClosed t))
  | LCloserSession =>
      match t_closer t with
      | CloserSession => Ok (mkTransport (t_closed t) (t_events t) (t_out t) (t_err t) (t_waiter t) CloserClient true (t_clientClosed t))
      | _ => Blocked
      end
  | LCloserClient =>
      match t_closer t with
      | CloserClient => Ok (mkTransport (t_closed t) (t_events t) (t_out t) (t_err t) (t_waiter t) CloserDone (t_sessionClosed t) true)
      | _ => Blocked
      end
  | _ => Blocked
  end.

(** Write, up to the stream's own result. *)
Definition Write (t : transport) : bool := negb (t_closed t).

(** ** The end's watcher, and the session's pump *)

Inductive watch_pc := WatchRecv | WatchSend (ev : Event) | WatchClose | WatchOnEnd | WatchDone.

Record endWatchTransport := mkWatch { w_transport : transport; w_events : chan; w_pc : watch_pc; w_ended : nat }.

(** [c_received] is what the pump has read, [c_done] whether it has returned. *)
Record world := mkWorld { wd_watch : endWatchTransport; c_received : list Event; c_done : bool }.

Definition watchTransportEnd (t : transport) : world := mkWorld (mkWatch t make WatchRecv 0) [] false.

Definition watch_step (w : endWatchTransport) (l : label) : outcome endWatchTransport :=
  match l, w_pc w with
  | LForward, WatchRecv =>
      obind (receive (t_events (w_transport w))) (fun '(ev, c) =>
        Ok (mkWatch (set_events (w_transport w) c) (w_events w) (match ev with Some ev => WatchSend ev | None => WatchClose end) (w_ended w)))
  | LForwardSend, WatchSend ev => obind (send watch_cap (w_events w) ev) (fun c => Ok (mkWatch (w_transport w) c WatchRecv (w_ended w)))
  | LForwardClose, WatchClose => obind (close_chan (w_events w)) (fun c => Ok (mkWatch (w_transport w) c WatchOnEnd (w_ended w)))
  | LOnEnd, WatchOnEnd => Ok (mkWatch (w_transport w) (w_events w) WatchDone (1 + w_ended w))
  | _, _ => Blocked
  end.

Definition terminal_event (ev : Event) : bool := match ev with EvData _ => false | _ => true end.

(** The pump reads until an ending or the end of the channel. *)
Definition consume (w : world) : outcome world :=
  if c_done w then Blocked
  else
    obind (receive (w_events (wd_watch w))) (fun '(ev, c) =>
      let watch := mkWatch (w_transport (wd_watch w)) c (w_pc (wd_watch w)) (w_ended (wd_watch w)) in
      Ok (match ev with
          | Some ev => mkWorld watch (c_received w ++ [ev]) (terminal_event ev)
          | None => mkWorld watch (c_received w) true
          end)).

Definition with_transport (w : world) (t : transport) : world :=
  mkWorld (mkWatch t (w_events (wd_watch w)) (w_pc (wd_watch w)) (w_ended (wd_watch w))) (c_received w) (c_done w).

Definition step (w : world) (l : label) : outcome world :=
  let t := w_transport (wd_watch w) in
  match l with
  | LRead _ _ _ | LEmit _ | LSend _ => obind (pipe_step t l) (fun t => Ok (with_transport w t))
  | LReap _ | LEnding | LCloseEvents | LWaiterClient => obind (waiter_step t l) (fun t => Ok (with_transport w t))
  | LClose | LCloserSession | LCloserClient => obind (closer_step t l) (fun t => Ok (with_transport w t))
  | LForward | LForwardSend | LForwardClose | LOnEnd =>
      obind (watch_step (wd_watch w) l) (fun x => Ok (mkWorld x (c_received w) (c_done w)))
  | LConsume => consume w
  end.

(** Every label of a run is taken. *)
Fixpoint run (w : world) (ls : list label) : outcome world :=
  match ls with
  | [] => Ok w
  | l :: ls => obind (step w l) (fun w => run w ls)
  end.

Definition world0 : world := watchTransportEnd start.

(** ** What a run has read *)

Definition stream_eqb (a b : stream) : bool := match a, b with Stdout, Stdout | Stderr, Stderr => true | _, _ => false end.

Definition reads (s : stream) (ls : list label) : list (list byte) :=
  omap (fun l => match l with LRead s' data _ => if stream_eqb s s' && negb (bool_decide (data = [])) then Some data else None | _ => None end) ls.

(** Everything between the streams and the pump, in order. *)
Definition in_hand (pc : watch_pc) : list Event := match pc with WatchSend ev => [ev] | _ => [] end.

Definition flow (w : world) : list Event :=
  c_received w ++ ch_buf (w_events (wd_watch w)) ++ in_hand (w_pc (wd_watch w)) ++ ch_buf (t_events (w_transport (wd_watch w))).

Inductive interleaving {A} : list A -> list A -> list A -> Prop :=
  | int_nil : interleaving [] [] []
  | int_left x l1 l2 l : interleaving l1 l2 l -> interleaving (l1 ++ [x]) l2 (l ++ [x])
  | int_right x l1 l2 l : interleaving l1 l2 l -> interleaving l1 (l2 ++ [x]) (l ++ [x]).

(** Close got past its guard. *)
Definition locally_closed (t : transport) : Prop := t_closer t <> CloserIdle.

Definition pipe_ok (loc : Prop) (pc : pipe_pc) (sent read : list (list byte)) : Prop :=
  match pc with
  | PipeSend data _ => sent ++ [data] = read
  | PipeEmit data _ => loc /\ sent `prefix_of` read \/ sent ++ [data] = read
  | _ => loc /\ sent `prefix_of` read \/ sent = read
  end.

(** What the waiter has put on the channel, and what it relies on. *)
Definition waiter_ok (t : transport) (term : list Event) : Prop :=
  let both := t_out t = PipeDone /\ t_err t = PipeDone in
  let over := (locally_closed t -> term = []) /\ (~ locally_closed t -> exists werr, term = [ending werr]) in
  match t_waiter t with
  | WaitPipes => term = [] /\ ch_closed (t_events t) = false /\ (t_closed t = true <-> locally_closed t)
  | WaitSend ev => term = [] /\ ch_closed (t_events t) = false /\ both /\ t_closed t = true /\ ~ locally_closed t /\ exists werr, ev = ending werr
  | WaitClose => over /\ ch_closed (t_events t) = false /\ both /\ t_closed t = true
  | WaitClient | WaitDone => over /\ ch_closed (t_events t) = true /\ both /\ t_closed t = true
  end.

Definition watch_ok (w : world) : Prop :=
  match w_pc (wd_watch w) with
  | WatchRecv | WatchSend _ => ch_closed (w_events (wd_watch w)) = false /\ w_ended (wd_watch w) = 0%nat
  | WatchClose => ch_closed (w_events (wd_watch w)) = false /\ w_ended (wd_watch w) = 0%nat /\
      t_events (w_transport (wd_watch w)) = mkChan [] true
  | WatchOnEnd => ch_closed (w_events (wd_watch w)) = true /\ w_ended (wd_watch w) = 0%nat /\ t_events (w_transport (wd_watch w)) = mkChan [] true
  | WatchDone => ch_closed (w_events (wd_watch w)) = true /\ w_ended (wd_watch w) = 1%nat /\ t_events (w_transport (wd_watch w)) = mkChan [] true
  end.

Definition consumer_ok (w : world) : Prop :=
  if c_done w then (exists ev, last (c_received w) = Some ev /\ terminal_event ev = true) \/ w_events (wd_watch w) = mkChan [] true
  else Forall (fun ev => terminal_event ev = false) (c_received w).

Definition stream_inv (ls : list label) (w : world) : Prop :=
  let t := w_transport (wd_watch w) in
  exists out err data term,
    flow w = map EvData data ++ term /\ interleaving out err data /\
    pipe_ok (locally_closed t) (t_out t) out (reads Stdout ls) /\ pipe_ok (locally_closed t) (t_err t) err (reads Stderr ls) /\
    waiter_ok t term /\ watch_ok w /\ consumer_ok w.

(** ** Preservation *)

Lemma reads_snoc s ls l : reads s (ls ++ [l]) = reads s ls ++ reads s [l].
Proof. unfold reads. apply omap_app. Qed.

Lemma reads_one s s' data eof : reads s [LRead s' data eof] = if stream_eqb s s' && negb (bool_decide (data = [])) then [data] else [].
Proof. unfold reads. cbn. by destruct (stream_eqb s s' && _). Qed.

Lemma obind_Ok {A B} (o : outcome A) (f : A -> outcome B) b : obind o f = Ok b -> exists a, o = Ok a /\ f a = Ok b.
Proof. destruct o; cbn; try done. eauto. Qed.

Lemma send_Ok cap c ev c' : send cap c ev = Ok c' -> ch_closed c = false /\ (length (ch_buf c) < cap)%nat /\ c' = mkChan (ch_buf c ++ [ev]) false.
Proof. unfold send. destruct (ch_closed c); [done|]. destruct (decide _); [|done]. intros [= <-]. done. Qed.

Lemma receive_Ok c ev c' : receive c = Ok (ev, c') ->
  (exists e, ev = Some e /\ ch_buf c = e :: ch_buf c' /\ ch_closed c' = ch_closed c) \/ (ev = None /\ c' = c /\ c = mkChan [] true).
Proof.
  unfold receive. destruct c as [[|e buf] cl]; cbn; [destruct cl; [|done]|]; intros [= <- <-]; [by right|left]. eauto.
Qed.

Lemma close_Ok c c' : close_chan c = Ok c' -> ch_closed c = false /\ c' = mkChan (ch_buf c) true.
Proof. unfold close_chan. destruct (ch_closed c); [done|]. intros [= <-]. done. Qed.

Ltac outcomes :=
  repeat match goal with
    | H : obind _ _ = Ok _ |- _ => apply obind_Ok in H as (? & ? & ?)
    | H : send _ _ _ = Ok _ |- _ => apply send_Ok in H as (? & ? & ->)
    | H : close_chan _ = Ok _ |- _ => apply close_Ok in H as [? ->]
    | H : Ok _ = Ok _ |- _ => injection H as <-
    | H : Ok _ = Ok _ |- _ => injection H as H
    | H : Blocked = Ok _ |- _ => discriminate
    | H : Panic = Ok _ |- _ => discriminate
    end.

Lemma stream_inv0 : stream_inv [] world0.
Proof.
  exists [], [], [], []. split_and!; cbn; try done; try (by right); try constructor.
Qed.

Lemma pipe_ok_next loc eof sent read : (loc /\ sent `prefix_of` read \/ sent = read) -> pipe_ok loc (pipe_next eof) sent read.
Proof. by destruct eof. Qed.

(** One read of a stream. *)
Lemma pipe_ok_read loc sent read data eof : pipe_ok loc PipeRead sent read ->
  pipe_ok loc (match data with [] => pipe_next eof | _ => PipeEmit data eof end) sent
    (read ++ (if negb (bool_decide (data = [])) then [data] else [])).
Proof.
  intros H. destruct data as [|b data].
  - rewrite bool_decide_eq_true_2, app_nil_r by done. by apply pipe_ok_next.
  - rewrite bool_decide_eq_false_2 by done. cbn [negb pipe_ok]. destruct H as [[Hl Hp]| ->]; [left|by right]. split; [done|]. by apply prefix_app_r.
Qed.

Lemma pipe_ok_emit t read sent data eof : (t_closed t = true <-> locally_closed t) -> pipe_ok (locally_closed t) (PipeEmit data eof) sent read ->
  pipe_ok (locally_closed t) (if t_closed t then pipe_next eof else PipeSend data eof) sent read.
Proof.
  intros Hc H. destruct (t_closed t) eqn:E.
  - apply pipe_ok_next. destruct H as [H| <-]; [by left|]. left. split; [by apply Hc|]. by apply prefix_app_r.
  - destruct H as [[Hl _]|H]; [by apply Hc in Hl|done].
Qed.

(** While a stream is open the flag says whether Close was called. *)
Lemma waiter_open t term s : waiter_ok t term -> pipe_of t s <> PipeDone ->
  t_waiter t = WaitPipes /\ term = [] /\ ch_closed (t_events t) = false /\ (t_closed t = true <-> locally_closed t).
Proof.
  unfold waiter_ok. intros H Hs. assert (~ (t_out t = PipeDone /\ t_err t = PipeDone)) as Hn by (intros [? ?]; by destruct s).
  destruct (t_waiter t); naive_solver.
Qed.

(** The waiter's view does not change with the streams' while one is open. *)
Lemma waiter_ok_pipe t term t' : t_waiter t = WaitPipes -> waiter_ok t term -> t_waiter t' = WaitPipes -> t_closed t' = t_closed t ->
  t_closer t' = t_closer t -> ch_closed (t_events t') = ch_closed (t_events t) -> waiter_ok t' term.
Proof. unfold waiter_ok, locally_closed. intros -> H -> -> -> ->. done. Qed.

(** The transport's own steps leave the watcher's view alone. *)
Lemma watch_ok_transport w t' : watch_ok w ->
  (t_events t' = t_events (w_transport (wd_watch w)) \/ ch_closed (t_events (w_transport (wd_watch w))) = false) -> watch_ok (with_transport w t').
Proof.
  unfold watch_ok. destruct w as [[t we pc n] rec dn]. cbn. intros H [->|Hc]; [done|]. destruct pc; cbn in *; try done;
    destruct H as (_ & _ & He); rewrite He in Hc; done.
Qed.

Lemma stream_inv_pipe ls w l t' : stream_inv ls w -> pipe_step (w_transport (wd_watch w)) l = Ok t' -> stream_inv (ls ++ [l]) (with_transport w t').
Proof.
  destruct w as [[t we pc n] rec dn]. unfold stream_inv, flow. cbn [wd_watch w_transport w_events w_pc w_ended c_received c_done with_transport].
  intros (out & err & data & term & Hf & Hi & Ho & He & Hw & Hwt & Hc) E.
  destruct l as [s d eof|s|s| | | | | | | | | | | | ]; try discriminate; cbn in E.
  - destruct (pipe_of t s) eqn:Ep; try discriminate. outcomes. destruct (waiter_open _ _ s Hw) as (Hwp & -> & _); [by rewrite Ep|].
    exists out, err, data, []. split_and!; [by destruct s|done| | | |by destruct s|done].
    + rewrite reads_snoc, reads_one. destruct s; cbn [stream_eqb andb]; [|by rewrite app_nil_r]. cbn in Ep. rewrite Ep in Ho. by apply (pipe_ok_read _ _ _ d eof) in Ho.
    + rewrite reads_snoc, reads_one. destruct s; cbn [stream_eqb andb]; [by rewrite app_nil_r|]. cbn in Ep. rewrite Ep in He. by apply (pipe_ok_read _ _ _ d eof) in He.
    + eapply waiter_ok_pipe; [exact Hwp|exact Hw|..]; destruct s; (exact Hwp || done).
  - destruct (pipe_of t s) eqn:Ep; try discriminate. outcomes. destruct (waiter_open _ _ s Hw) as (Hwp & -> & _ & Hcl); [by rewrite Ep|].
    exists out, err, data, []. rewrite !reads_snoc, !(app_nil_r (reads _ _)). split_and!; [by destruct s|done| | | |by destruct s|done].
    + destruct s; [|done]. cbn in Ep. rewrite Ep in Ho. by apply pipe_ok_emit in Ho.
    + destruct s; [done|]. cbn in Ep. rewrite Ep in He. by apply pipe_ok_emit in He.
    + eapply waiter_ok_pipe; [exact Hwp|exact Hw|..]; destruct s; (exact Hwp || done).
  - destruct (pipe_of t s) as [|d eof|d eof|] eqn:Ep; try discriminate. outcomes. destruct (waiter_open _ _ s Hw) as (Hwp & -> & Hch & Hcl); [by rewrite Ep|].
    rewrite !reads_snoc, !(app_nil_r (reads _ _)).
    exists (match s with Stdout => out ++ [d] | Stderr => out end), (match s with Stdout => err | Stderr => err ++ [d] end), (data ++ [d]), [].
    rewrite app_nil_r in Hf.
    split_and!; [|destruct s; by constructor| | | |apply (watch_ok_transport _ _ Hwt); by right|done].
    + rewrite app_nil_r, map_app, <- Hf. destruct s; cbn; by rewrite <- !app_assoc.
    + destruct s; [|done]. cbn in Ep. rewrite Ep in Ho. cbn in Ho. apply pipe_ok_next. by right.
    + destruct s; [done|]. cbn in Ep. rewrite Ep in He. cbn in He. apply pipe_ok_next. by right.
    + eapply waiter_ok_pipe; [exact Hwp|exact Hw|..]; destruct s; (exact Hwp || by symmetry).
Qed.

Ltac open_world w :=
  destruct w as [[t we pc n] rec dn]; unfold stream_inv, flow; cbn [wd_watch w_transport w_events w_pc w_ended c_received c_done with_transport];
  intros (out & err & data & term & Hf & Hi & Ho & He & Hw & Hwt & Hc) E; rewrite ?reads_snoc, ?(app_nil_r (reads _ _)).

Lemma stream_inv_waiter ls w l t' : stream_inv ls w -> waiter_step (w_transport (wd_watch w)) l = Ok t' ->
  reads Stdout [l] = [] -> reads Stderr [l] = [] -> stream_inv (ls ++ [l]) (with_transport w t').
Proof.
  intros H E HrO HrE. revert H E. open_world w. rewrite HrO, HrE, !(app_nil_r (reads _ _)). unfold waiter_step in E. unfold waiter_ok in Hw.
  destruct l as [| | |werr| | | | | | | | | | | ]; try discriminate; destruct (t_waiter t) as [|ev| | |] eqn:Ew; try discriminate; outcomes.
  - destruct (t_out t) eqn:Epo; try discriminate. destruct (t_err t) eqn:Epe; try discriminate. outcomes. destruct Hw as (-> & Hch & Hcl).
    exists out, err, data, []. split_and!; try done.
    unfold waiter_ok. cbn. destruct (t_closed t).
    + split_and!; try done. intros Hn. exfalso. apply Hn. by apply Hcl.
    + split_and!; try done; [|by exists werr]. intros Hl. by apply Hcl in Hl.
  - destruct Hw as (-> & Hch & Hb & Hcl & Hn & Hev). exists out, err, data, [ev]. split_and!; try done.
    + rewrite app_nil_r in Hf. rewrite <- Hf. cbn. by rewrite <- !app_assoc.
    + unfold waiter_ok. cbn. split_and!; try done; [|apply Hb|apply Hb]. destruct Hev as [werr ->]. intros _. by exists werr.
    + apply (watch_ok_transport _ _ Hwt). by right.
  - destruct Hw as (Hov & Hch & Hb & Hcl). exists out, err, data, term. split_and!; try done.
    apply (watch_ok_transport _ _ Hwt). by right.
  - exists out, err, data, term. by split_and!.
Qed.

Lemma stream_inv_closer ls w l t' : stream_inv ls w -> closer_step (w_transport (wd_watch w)) l = Ok t' ->
  reads Stdout [l] = [] -> reads Stderr [l] = [] -> stream_inv (ls ++ [l]) (with_transport w t').
Proof.
  intros H E HrO HrE. revert H E. open_world w. rewrite HrO, HrE, !(app_nil_r (reads _ _)). unfold closer_step in E. exists out, err, data, term.
  assert (Hweak : forall pc sent read, pipe_ok (locally_closed t) pc sent read -> pipe_ok True pc sent read).
  { intros [] sent read; cbn; naive_solver. }
  assert (Hsame : forall t'', t_events t'' = t_events t -> t_out t'' = t_out t -> t_err t'' = t_err t -> t_waiter t'' = t_waiter t -> t_closed t'' = t_closed t ->
    locally_closed t -> locally_closed t'' -> pipe_ok (locally_closed t'') (t_out t'') out (reads Stdout ls) /\
    pipe_ok (locally_closed t'') (t_err t'') err (reads Stderr ls) /\ waiter_ok t'' term).
  { intros t'' He' Ho' Hr' Hw' Hc' Hl Hl'. rewrite Ho', Hr'. split_and!.
    - destruct (t_out t); cbn in *; naive_solver.
    - destruct (t_err t); cbn in *; naive_solver.
    - revert Hw. unfold waiter_ok. rewrite Hw', He', Hc', Ho', Hr'. destruct (t_waiter t); naive_solver. }
  destruct l; try discriminate.
  - destruct (t_closed t) eqn:Ecl; outcomes; [by split_and!|].
    assert (t_waiter t = WaitPipes) as Ew by (revert Hw; unfold waiter_ok; destruct (t_waiter t); rewrite ?Ecl; naive_solver).
    split_and!; try done.
    + cbn. apply Hweak in Ho. destruct (t_out t); cbn in *; unfold locally_closed; cbn; naive_solver.
    + cbn. apply Hweak in He. destruct (t_err t); cbn in *; unfold locally_closed; cbn; naive_solver.
    + revert Hw. unfold waiter_ok, locally_closed. cbn. rewrite Ew. intros (? & ? & ?). by split_and!.
  - destruct (t_closer t) eqn:Ec; try discriminate. outcomes. assert (locally_closed t) as Hl by (unfold locally_closed; by rewrite Ec).
    destruct (Hsame (mkTransport (t_closed t) (t_events t) (t_out t) (t_err t) (t_waiter t) CloserClient true (t_clientClosed t))) as (? & ? & ?); try done.
  - destruct (t_closer t) eqn:Ec; try discriminate. outcomes. assert (locally_closed t) as Hl by (unfold locally_closed; by rewrite Ec).
    destruct (Hsame (mkTransport (t_closed t) (t_events t) (t_out t) (t_err t) (t_waiter t) CloserDone (t_sessionClosed t) true)) as (? & ? & ?); try done.
Qed.

Lemma in_map_data l ev : ev ∈ map EvData l -> terminal_event ev = false.
Proof. by intros (d & -> & _)%list_elem_of_fmap. Qed.

Lemma waiter_ok_events t c term : ch_closed c = ch_closed (t_events t) -> waiter_ok t term -> waiter_ok (set_events t c) term.
Proof. unfold waiter_ok. cbn. intros ->. done. Qed.

Lemma stream_inv_watch ls w l x : stream_inv ls w -> watch_step (wd_watch w) l = Ok x ->
  reads Stdout [l] = [] -> reads Stderr [l] = [] -> stream_inv (ls ++ [l]) (mkWorld x (c_received w) (c_done w)).
Proof.
  intros H E HrO HrE. revert H E. open_world w. rewrite HrO, HrE, !(app_nil_r (reads _ _)). unfold watch_step in E. cbn in E. unfold watch_ok in Hwt. cbn in Hwt.
  exists out, err, data, term. destruct l; try discriminate; destruct pc as [|ev| | |]; try discriminate; outcomes.
  - destruct x0 as [ev c]. match goal with H : receive _ = Ok _ |- _ => apply receive_Ok in H as [(e & -> & Hbuf & Hcc)|(-> & -> & Hcc)] end; outcomes; cbn [w_transport w_events w_pc in_hand w_ended].
    + split_and!; try done; [|by apply waiter_ok_events]. rewrite <- Hf, Hbuf. done.
    + split_and!; try done. by destruct Hwt.
  - cbn [w_transport w_events w_pc in_hand w_ended]. split_and!; try done; [|split; [done|apply Hwt]|].
    + rewrite <- Hf. cbn. by rewrite <- !app_assoc.
    + unfold consumer_ok in *. cbn in *. destruct dn; [|done]. destruct Hc as [Hc|Hc]; [by left|]. subst we. done.
  - destruct Hwt as (_ & Hn & Ht). cbn [w_transport w_events w_pc in_hand w_ended]. split_and!; try done.
    unfold consumer_ok in *. cbn in *. destruct dn; [|done]. destruct Hc as [Hc|Hc]; [by left|]. subst we. done.
  - destruct Hwt as (Hc1 & -> & Ht). cbn [w_transport w_events w_pc in_hand w_ended]. by split_and!.
Qed.

Lemma stream_inv_consume ls w w' : stream_inv ls w -> consume w = Ok w' -> stream_inv (ls ++ [LConsume]) w'.
Proof.
  open_world w. unfold consume in E. cbn in E. destruct dn; [done|]. outcomes. destruct x as [ev c]. outcomes.
  unfold consumer_ok in Hc. cbn in Hc. unfold watch_ok in Hwt. cbn in Hwt. exists out, err, data, term.
  match goal with H : receive _ = Ok _ |- _ => apply receive_Ok in H as [(e & -> & Hbuf & Hcc)|(-> & -> & Hcc)] end;
    cbn [wd_watch w_transport w_events w_pc in_hand w_ended c_received c_done].
  - split_and!; try done.
    + rewrite <- Hf, Hbuf. by rewrite <- !app_assoc.
    + unfold watch_ok. cbn. rewrite Hcc. done.
    + unfold consumer_ok. cbn. destruct (terminal_event e) eqn:Et; [left; exists e; by rewrite last_snoc|]. apply Forall_app. by split; [|constructor].
  - split_and!; try done. unfold consumer_ok. cbn. by right.
Qed.

Lemma stream_inv_step ls w l w' : stream_inv ls w -> step w l = Ok w' -> stream_inv (ls ++ [l]) w'.
Proof.
  intros H E. destruct l; cbn [step] in E; outcomes.
  1-3: by eapply stream_inv_pipe.
  1-4: by eapply stream_inv_waiter.
  1-3: by eapply stream_inv_closer.
  1-4: by eapply stream_inv_watch.
  by eapply stream_inv_consume.
Qed.

Lemma transport_run_app w ls ls' : run w (ls ++ ls') = obind (run w ls) (fun w => run w ls').
Proof. revert w. induction ls as [|l ls IH]; intros w; [done|]. cbn. destruct (step w l); cbn; [done|done|apply IH]. Qed.

Lemma stream_inv_run ls w : run world0 ls = Ok w -> stream_inv ls w.
Proof.
  revert w. induction ls as [|l ls IH] using rev_ind; intros w; [intros [= <-]; apply stream_inv0|].
  rewrite transport_run_app. intros (w1 & H1 & H2)%obind_Ok. cbn in H2. apply obind_Ok in H2 as (w2 & H2 & [= <-]). eapply stream_inv_step; [by apply IH|done].
Qed.

(** ** Panics, and where endings come from *)

Lemma step_no_panic ls w l : stream_inv ls w -> step w l <> Panic.
Proof.
  destruct w as [[t we pc n] rec dn]. unfold stream_inv. cbn [wd_watch w_transport]. intros (out & err & data & term & _ & _ & _ & _ & Hw & Hwt & _).
  unfold watch_ok in Hwt. cbn in Hwt. destruct l as [s d eof|s|s|werr| | | | | | | | | | | ]; cbn.
  - by destruct (pipe_of t s).
  - by destruct (pipe_of t s).
  - destruct (pipe_of t s) as [|d eof|d eof|] eqn:Ep; try done. destruct (waiter_open _ _ s Hw) as (_ & _ & Hch & _); [by rewrite Ep|].
    unfold send. rewrite Hch. by destruct (decide _).
  - destruct (t_waiter t); try done. by destruct (t_out t), (t_err t).
  - unfold waiter_ok in Hw. destruct (t_waiter t); try done. destruct Hw as (_ & Hch & _). unfold send. rewrite Hch. by destruct (decide _).
  - unfold waiter_ok in Hw. destruct (t_waiter t); try done. destruct Hw as (_ & Hch & _). unfold close_chan. by rewrite Hch.
  - by destruct (t_waiter t).
  - by destruct (t_closed t).
  - by destruct (t_closer t).
  - by destruct (t_closer t).
  - destruct pc; try done. unfold receive. destruct (t_events t) as [[|? ?] []]; done.
  - destruct pc; try done. unfold send. destruct Hwt as [-> _]. by destruct (decide _).
  - destruct pc; try done. unfold close_chan. destruct Hwt as [-> _]. done.
  - by destruct pc.
  - unfold consume. cbn. destruct dn; [done|]. unfold receive. destruct we as [[|? ?] []]; done.
Qed.

Definition reaped (ls : list label) (ev : Event) : Prop := exists werr, LReap werr ∈ ls /\ ev = ending werr.

Definition endings_ok (ls : list label) (w : world) : Prop :=
  forall ev, terminal_event ev = true -> t_waiter (w_transport (wd_watch w)) = WaitSend ev \/ ev ∈ flow w -> reaped ls ev.

Lemma reaped_snoc ls l ev : reaped ls ev -> reaped (ls ++ [l]) ev.
Proof. intros (werr & H & ->). exists werr. split; [|done]. apply elem_of_app. by left. Qed.

Lemma endings_step ls w l w' : endings_ok ls w -> step w l = Ok w' -> endings_ok (ls ++ [l]) w'.
Proof.
  destruct w as [[t we pc n] rec dn]. unfold endings_ok, flow. cbn [wd_watch w_transport w_events w_pc c_received]. intros H E ev Ht Hev.
  destruct l as [s d eof|s|s|werr| | | | | | | | | | | ]; cbn in E; outcomes.
  - destruct (pipe_of t s); try discriminate. outcomes. apply reaped_snoc, H; [done|]. by destruct s.
  - destruct (pipe_of t s); try discriminate. outcomes. apply reaped_snoc, H; [done|]. by destruct s.
  - destruct (pipe_of t s); try discriminate. outcomes. apply reaped_snoc, H; [done|]. destruct s; cbn in Hev; destruct Hev as [?|Hev]; try (by left); right;
      rewrite !elem_of_app in *; rewrite list_elem_of_singleton in Hev; destruct Hev as [?|[?|[?|[?| ->]]]]; try done; auto.
  - destruct (t_waiter t); try discriminate. destruct (t_out t); try discriminate. destruct (t_err t); try discriminate. outcomes. cbn in Hev.
    destruct Hev as [Hev|Hev]; [|apply reaped_snoc, H; auto]. destruct (t_closed t); [done|]. simplify_eq. exists werr. split; [|done]. apply elem_of_app. right. by left.
  - destruct (t_waiter t) as [|ev'| | |] eqn:Ew; try discriminate. outcomes. cbn in Hev. apply reaped_snoc, H; [done|]. destruct Hev as [?|Hev]; [done|].
    rewrite !elem_of_app in *. rewrite list_elem_of_singleton in Hev. destruct Hev as [?|[?|[?|[?| ->]]]]; auto.
  - destruct (t_waiter t); try discriminate. outcomes. apply reaped_snoc, H; [done|]. destruct Hev as [?|Hev]; [done|by right].
  - destruct (t_waiter t); try discriminate. outcomes. apply reaped_snoc, H; [done|]. destruct Hev as [?|Hev]; [done|by right].
  - destruct (t_closed t); outcomes; by apply reaped_snoc, H.
  - destruct (t_closer t); try discriminate. outcomes. by apply reaped_snoc, H.
  - destruct (t_closer t); try discriminate. outcomes. by apply reaped_snoc, H.
  - destruct pc; try discriminate. outcomes. match goal with x : option Event * chan |- _ => destruct x as [e c] end. outcomes. cbn in Hev. apply reaped_snoc, H; [done|].
    match goal with H : receive _ = Ok _ |- _ => apply receive_Ok in H as [(e' & -> & Hbuf & _)|(-> & -> & Hcc)] end; destruct Hev as [?|Hev]; try (by left); right; [|done].
    rewrite Hbuf. cbn in *. done.
  - destruct pc as [|ev'| | |]; try discriminate. outcomes. apply reaped_snoc, H; [done|]. destruct Hev as [?|Hev]; [by left|]. right. cbn in Hev.
    by rewrite <- app_assoc in Hev.
  - destruct pc; try discriminate. outcomes. by apply reaped_snoc, H.
  - destruct pc; try discriminate. outcomes. by apply reaped_snoc, H.
  - unfold consume in E. cbn in E. destruct dn; [done|]. outcomes. match goal with x : option Event * chan |- _ => destruct x as [e c] end. outcomes. apply reaped_snoc, H; [done|].
    match goal with H : receive _ = Ok _ |- _ => apply receive_Ok in H as [(e' & -> & Hbuf & _)|(-> & -> & Hcc)] end; destruct Hev as [?|Hev]; try (by left); right; [|done].
    rewrite Hbuf. cbn in *. by rewrite <- app_assoc in Hev.
Qed.

Lemma endings_run ls w : run world0 ls = Ok w -> endings_ok ls w.
Proof.
  revert w. induction ls as [|l ls IH] using rev_ind; intros w; [intros [= <-]|].
  - intros ev Ht [?|Hin]; [done|]. by apply not_elem_of_nil in Hin.
  - rewrite transport_run_app. intros (w1 & H1 & H2)%obind_Ok. cbn in H2. apply obind_Ok in H2 as (w2 & H2 & [= <-]). eapply endings_step; [by apply IH|done].
Qed.

(** ** Claims *)

Lemma pipe_prefix loc pc sent read : pipe_ok loc pc sent read -> sent `prefix_of` read.
Proof. destruct pc; cbn; intros H; [..|by destruct H as [[_ H]| ->]]; [by destruct H as [[_ H]| ->]| |]; [destruct H as [[_ H]| <-]; [done|]|rewrite <- H]; by apply prefix_app_r. Qed.

Lemma pipe_complete loc sent read : ~ loc -> pipe_ok loc PipeDone sent read -> sent = read.
Proof. cbn. naive_solver. Qed.

Lemma waiter_term t term : waiter_ok t term ->
  (locally_closed t -> term = []) /\ (term = [] \/ exists werr, term = [ending werr]) /\
  (~ locally_closed t -> ch_closed (t_events t) = true -> t_out t = PipeDone /\ t_err t = PipeDone /\ length term = 1%nat).
Proof.
  unfold waiter_ok. intros Hw.
  assert (H : ((locally_closed t -> term = []) /\ (~ locally_closed t -> exists werr, term = [ending werr])) ->
    (locally_closed t -> term = []) /\ (term = [] \/ exists werr, term = [ending werr]) /\ (~ locally_closed t -> length term = 1%nat)).
  { intros [H1 H2]. split; [exact H1|]. split; [|by intros (werr & ->)%H2].
    destruct (decide (t_closer t = CloserIdle)) as [Hd|Hd]; [right; apply H2; by intros []|left; by apply H1]. }
  destruct (t_waiter t).
  - destruct Hw as (-> & -> & _). split_and!; [done|by left|done].
  - destruct Hw as (-> & -> & _). split_and!; [done|by left|done].
  - destruct Hw as (Hov & -> & _). destruct (H Hov) as (H1 & H2 & _). split_and!; [exact H1|exact H2|done].
  - destruct Hw as (Hov & _ & [Ho He] & _). destruct (H Hov) as (H1 & H2 & H3). split_and!; [exact H1|exact H2|]. intros Hn _. auto.
  - destruct Hw as (Hov & _ & [Ho He] & _). destruct (H Hov) as (H1 & H2 & H3). split_and!; [exact H1|exact H2|]. intros Hn _. auto.
Qed.

(** No interleaving sends on a closed channel or closes one twice. What
    the pump sees, now or later, is an interleaving of two prefixes of what the streams
    delivered, in order, with at most one ending, which is the last event and
    tells how the remote session ended. Nothing is lost unless the session was
    closed from here, and then there is no ending. The end is reported at most once,
    when everything has been passed on (C24). *)
Theorem transport_stream ls :
  run world0 ls <> Panic /\
  forall w, run world0 ls = Ok w ->
    let t := w_transport (wd_watch w) in
    exists out err data term, flow w = map EvData data ++ term /\ interleaving out err data /\
      out `prefix_of` reads Stdout ls /\ err `prefix_of` reads Stderr ls /\ (length term <= 1)%nat /\ Forall (reaped ls) term /\
      (locally_closed t -> term = []) /\
      (~ locally_closed t -> ch_closed (t_events t) = true -> out = reads Stdout ls /\ err = reads Stderr ls /\ length term = 1%nat) /\
      (w_ended (wd_watch w) <= 1)%nat /\
      (w_ended (wd_watch w) = 1%nat -> ch_closed (w_events (wd_watch w)) = true /\ flow w = c_received w ++ ch_buf (w_events (wd_watch w))).
Proof.
  split.
  - induction ls as [|l ls IH] using rev_ind; [done|]. rewrite transport_run_app. destruct (run world0 ls) as [| |w] eqn:E; [done|done|]. cbn.
    pose proof (step_no_panic ls w l (stream_inv_run _ _ E)) as Hp. by destruct (step w l).
  - intros w E. pose proof (stream_inv_run _ _ E) as (out & err & data & term & Hf & Hi & Ho & He & Hw & Hwt & _). pose proof (endings_run _ _ E) as Hend.
    exists out, err, data, term.
    destruct (waiter_term _ _ Hw) as (Hl & Hterm & Hdone). unfold watch_ok in Hwt. split_and!; try done; try (by eapply pipe_prefix).
    + destruct Hterm as [->|[werr ->]]; cbn; lia.
    + apply Forall_forall. intros ev Hin. apply Hend; [|right; rewrite Hf; apply elem_of_app; by right].
      destruct Hterm as [->|[werr ->]]; [by apply not_elem_of_nil in Hin|]. apply list_elem_of_singleton in Hin as ->. unfold ending. by destruct (isNormalSessionEnd werr).
    + intros Hn Hch. destruct (Hdone Hn Hch) as (Hpo & Hpe & Hlen). rewrite Hpo in Ho. rewrite Hpe in He. split_and!; [by eapply pipe_complete..|done].
    + destruct (w_pc _); lia.
    + intros Hended. unfold flow. destruct (w_pc (wd_watch w)); try lia. destruct Hwt as (Hc1 & _ & ->). cbn. by rewrite !app_nil_r.
Qed.

(** ** Endings are reached *)

(** The remote ends a stream when a read reports an error. *)
Definition ended (pc : pipe_pc) : bool := match pc with PipeDone => true | PipeRead => false | PipeEmit _ eof | PipeSend _ eof => eof end.

Definition streams_ended (w : world) : Prop := let t := w_transport (wd_watch w) in ended (t_out t) = true /\ ended (t_err t) = true.

Definition pipe_cost (pc : pipe_pc) : nat := match pc with PipeEmit _ _ => 6 | PipeSend _ _ => 5 | _ => 0 end.
Definition waiter_cost (pc : waiter_pc) : nat := match pc with WaitPipes => 10 | WaitSend _ => 8 | WaitClose => 4 | WaitClient => 3 | WaitDone => 0 end.
Definition closer_cost (pc : closer_pc) : nat := match pc with CloserSession => 2 | CloserClient => 1 | _ => 0 end.
Definition watch_cost (pc : watch_pc) : nat := match pc with WatchRecv => 4 | WatchSend _ => 6 | WatchClose => 3 | WatchOnEnd => 2 | WatchDone => 0 end.

(** The steps an event still needs, and those of the goroutines. *)
Definition cost (w : world) : nat :=
  let x := wd_watch w in let t := w_transport x in
  pipe_cost (t_out t) + pipe_cost (t_err t) + waiter_cost (t_waiter t) + closer_cost (t_closer t) + watch_cost (w_pc x) +
  3 * length (ch_buf (t_events t)) + length (ch_buf (w_events x)) + (if c_done w then 0 else 1).

(** Calls of Close come from outside. *)
Definition internal (l : label) : Prop := l <> LClose.

Lemma cost_step w l w' : streams_ended w -> internal l -> step w l = Ok w' -> streams_ended w' /\ (cost w' < cost w)%nat.
Proof.
  destruct w as [[t we pc n] rec dn]. unfold streams_ended, cost. cbn [wd_watch w_transport w_events w_pc c_done]. intros [Ho He] Hl E.
  destruct l as [s d eof|s|s|werr| | | | | | | | | | | ]; cbn [step wd_watch w_transport] in E; outcomes; try (by destruct Hl).
  - exfalso. cbn in *. destruct (pipe_of t s) eqn:Ep; try discriminate. destruct s; cbn in Ep; rewrite Ep in *; discriminate.
  - cbn in *. destruct (pipe_of t s) eqn:Ep; try discriminate. outcomes.
    destruct s; cbn in Ep |- *; rewrite Ep in *; cbn in *; subst; destruct (t_closed t); cbn; (split; [done|lia]).
  - cbn in *. destruct (pipe_of t s) eqn:Ep; try discriminate. outcomes.
    destruct s; cbn in Ep |- *; rewrite Ep in *; cbn in *; subst; cbn; rewrite ?length_app; cbn; (split; [done|lia]).
  - cbn in *. destruct (t_waiter t) eqn:Ew; try discriminate. destruct (t_out t), (t_err t); try discriminate. outcomes. cbn. split; [done|]. destruct (t_closed t); cbn; lia.
  - cbn in *. destruct (t_waiter t) eqn:Ew; try discriminate. outcomes. cbn. rewrite length_app. cbn. split; [done|lia].
  - cbn in *. destruct (t_waiter t) eqn:Ew; try discriminate. outcomes. cbn. split; [done|lia].
  - cbn in *. destruct (t_waiter t) eqn:Ew; try discriminate. outcomes. cbn. split; [done|lia].
  - cbn in *. destruct (t_closer t) eqn:Ew; try discriminate. outcomes. cbn. split; [done|lia].
  - cbn in *. destruct (t_closer t) eqn:Ew; try discriminate. outcomes. cbn. split; [done|lia].
  - cbn in *. destruct pc; try discriminate. outcomes. match goal with x : option Event * chan |- _ => destruct x as [e c] end. outcomes. cbn.
    match goal with H : receive _ = Ok _ |- _ => apply receive_Ok in H as [(e' & -> & Hbuf & _)|(-> & -> & Hcc)] end; [rewrite Hbuf|]; cbn; (split; [done|lia]).
  - cbn in *. destruct pc; try discriminate. outcomes. cbn. rewrite length_app. cbn. split; [done|lia].
  - cbn in *. destruct pc; try discriminate. outcomes. cbn. split; [done|lia].
  - cbn in *. destruct pc; try discriminate. outcomes. cbn. split; [done|lia].
  - unfold consume in E. cbn in E. destruct dn; [done|]. outcomes. match goal with x : option Event * chan |- _ => destruct x as [e c] end. outcomes. cbn.
    match goal with H : receive _ = Ok _ |- _ => apply receive_Ok in H as [(e' & -> & Hbuf & _)|(-> & -> & Hcc)] end; [rewrite Hbuf|]; cbn; (split; [done|]);
      [destruct (terminal_event e')|]; lia.
Qed.

Definition stuck (w : world) : Prop := forall l, internal l -> step w l = Blocked.

(** What is left when nothing can move. *)
Definition finished (w : world) : Prop :=
  t_waiter (w_transport (wd_watch w)) = WaitDone /\ w_pc (wd_watch w) = WatchDone /\ c_done w = true.

(** Events beyond an ending that was read do not exist. *)
Lemma consumer_drains ls w : stream_inv ls w -> c_done w = true -> ch_buf (w_events (wd_watch w)) = [] /\ in_hand (w_pc (wd_watch w)) = [] /\ ch_buf (t_events (w_transport (wd_watch w))) = [].
Proof.
  intros (out & err & data & term & Hf & _ & _ & _ & Hw & Hwt & Hc) Hd. unfold consumer_ok in Hc. rewrite Hd in Hc. destruct Hc as [(ev & Hlast & Ht)|Hcl].
  - destruct (waiter_term _ _ Hw) as (_ & Hterm & _). apply last_Some in Hlast as [l Hrec]. unfold flow in Hf. rewrite Hrec, <- !app_assoc in Hf. cbn in Hf.
    destruct (ch_buf (w_events _) ++ _) as [|x rest] eqn:Er; [by apply app_eq_nil in Er as [? [? ?]%app_eq_nil]|]. exfalso.
    assert (ev ∈ map EvData data) as Hin%in_map_data; [|congruence].
    destruct Hterm as [->|[werr ->]].
    + rewrite app_nil_r in Hf. rewrite <- Hf. apply elem_of_app. right. by left.
    + destruct (exists_last (l := x :: rest)) as (r & y & Hr); [done|]. rewrite Hr, app_comm_cons, app_assoc in Hf. apply app_inj_tail in Hf as [Hf _].
      rewrite <- Hf. apply elem_of_app. right. by left.
  - unfold watch_ok in Hwt. rewrite Hcl in Hwt. cbn in Hwt. rewrite Hcl. destruct (w_pc _); try (by destruct Hwt); destruct Hwt as (_ & _ & ->); done.
Qed.

Lemma can_send cap c ev : ch_closed c = false -> (exists c', send cap c ev = Ok c') \/ (cap <= length (ch_buf c))%nat.
Proof. unfold send. intros ->. destruct (decide _); [left; eauto|right; lia]. Qed.

(** An event, or the end, moves on while the pump reads. *)
Lemma flow_moves ls w : stream_inv ls w -> stuck w ->
  (ch_buf (t_events (w_transport (wd_watch w))) <> [] \/ ch_closed (t_events (w_transport (wd_watch w))) = true) -> w_pc (wd_watch w) = WatchDone.
Proof.
  intros Hinv Hst Hev. pose proof (consumer_drains ls w Hinv) as Hdr. destruct Hinv as (_ & _ & _ & _ & _ & _ & _ & _ & _ & Hwt & _).
  destruct w as [[t we pc n] rec dn]. unfold stuck in Hst. unfold watch_ok in Hwt. cbn in *. destruct pc as [|ev| | |]; [| | | |done].
  - specialize (Hst LForward). cbn in Hst. unfold receive in Hst. destruct (t_events t) as [[|? ?] cl]; cbn in *.
    + destruct Hev as [Hev| ->]; [done|]. by discriminate Hst.
    + by discriminate Hst.
  - destruct Hwt as [Hcl _]. destruct (can_send watch_cap we ev Hcl) as [[c' E]|Hfull].
    + specialize (Hst LForwardSend). cbn in Hst. rewrite E in Hst. by discriminate Hst.
    + specialize (Hst LConsume). cbn in Hst. unfold consume in Hst. cbn in Hst. destruct dn; [by destruct (Hdr eq_refl) as (_ & [=] & _)|].
      unfold receive in Hst. destruct (ch_buf we); [cbn in Hfull; unfold watch_cap in Hfull; lia|]. by discriminate Hst.
  - specialize (Hst LForwardClose). cbn in Hst. unfold close_chan in Hst. destruct Hwt as [Hcl _]. rewrite Hcl in Hst. by discriminate Hst.
  - by discriminate (Hst LOnEnd).
Qed.

Lemma full_moves ls w : stream_inv ls w -> stuck w -> ~ (events_cap <= length (ch_buf (t_events (w_transport (wd_watch w)))))%nat.
Proof.
  intros Hinv Hst Hfull. assert (ch_buf (t_events (w_transport (wd_watch w))) <> []) as Hne by (intros E; rewrite E in Hfull; cbn in Hfull; unfold events_cap in Hfull; lia).
  pose proof (flow_moves ls w Hinv Hst (or_introl Hne)) as Hd. destruct Hinv as (_ & _ & _ & _ & _ & _ & _ & _ & _ & Hwt & _).
  unfold watch_ok in Hwt. rewrite Hd in Hwt. destruct Hwt as (_ & _ & Hc). by rewrite Hc in Hne.
Qed.

Lemma stuck_pipe ls w s : stream_inv ls w -> stuck w -> ended (pipe_of (w_transport (wd_watch w)) s) = true -> pipe_of (w_transport (wd_watch w)) s = PipeDone.
Proof.
  intros Hinv Hst Hend. destruct (pipe_of _ s) as [|d eof|d eof|] eqn:Ep; [done| | |done]; exfalso.
  - specialize (Hst (LEmit s)). cbn in Hst. rewrite Ep in Hst. by discriminate Hst.
  - pose proof Hinv as (_ & _ & _ & term & _ & _ & _ & _ & Hw & _ & _). destruct (waiter_open _ _ s Hw) as (_ & _ & Hch & _); [by rewrite Ep|].
    destruct (can_send events_cap (t_events (w_transport (wd_watch w))) (EvData d) Hch) as [[c' E]|Hfull]; [|by eapply full_moves].
    specialize (Hst (LSend s)). cbn in Hst. rewrite Ep, E in Hst. by discriminate Hst.
Qed.

Lemma stuck_finished ls w : stream_inv ls w -> streams_ended w -> stuck w -> finished w.
Proof.
  intros Hinv [Ho He] Hst. pose proof (stuck_pipe ls w Stdout Hinv Hst Ho) as Eo. pose proof (stuck_pipe ls w Stderr Hinv Hst He) as Ee. cbn in Eo, Ee.
  assert (Ew : t_waiter (w_transport (wd_watch w)) = WaitDone).
  { pose proof Hinv as (_ & _ & _ & term & _ & _ & _ & _ & Hw & _ & _). unfold waiter_ok in Hw. destruct (t_waiter _) as [|ev| | |] eqn:Ew; [..|done]; exfalso.
    - specialize (Hst (LReap None)). cbn in Hst. rewrite Ew, Eo, Ee in Hst. by discriminate Hst.
    - destruct Hw as (_ & Hch & _). destruct (can_send events_cap (t_events (w_transport (wd_watch w))) ev Hch) as [[c' E]|Hfull]; [|by eapply full_moves].
      specialize (Hst LEnding). cbn in Hst. rewrite Ew, E in Hst. by discriminate Hst.
    - destruct Hw as (_ & Hch & _). specialize (Hst LCloseEvents). cbn in Hst. rewrite Ew in Hst. unfold close_chan in Hst. rewrite Hch in Hst. by discriminate Hst.
    - specialize (Hst LWaiterClient). cbn in Hst. rewrite Ew in Hst. by discriminate Hst. }
  assert (Hch : ch_closed (t_events (w_transport (wd_watch w))) = true).
  { pose proof Hinv as (_ & _ & _ & term & _ & _ & _ & _ & Hw & _ & _). unfold waiter_ok in Hw. rewrite Ew in Hw. apply Hw. }
  pose proof (flow_moves ls w Hinv Hst (or_intror Hch)) as Ed. split_and!; [done|done|].
  destruct (c_done w) eqn:Edn; [done|]. exfalso. destruct Hinv as (_ & _ & _ & _ & _ & _ & _ & _ & _ & Hwt & _). unfold watch_ok in Hwt. rewrite Ed in Hwt.
  destruct Hwt as (Hc & _ & _). specialize (Hst LConsume). cbn in Hst. unfold consume in Hst. rewrite Edn in Hst. unfold receive in Hst. rewrite Hc in Hst.
  destruct (ch_buf _); by discriminate Hst.
Qed.

Lemma done_client w l w' : step w l = Ok w' ->
  let ok w := t_waiter (w_transport (wd_watch w)) = WaitDone -> t_clientClosed (w_transport (wd_watch w)) = true in ok w -> ok w'.
Proof.
  destruct w as [[t we pc n] rec dn]. cbn. intros E H.
  destruct l as [s d eof|s|s|werr| | | | | | | | | | | ]; cbn in E; outcomes; try (destruct (pipe_of t s); try discriminate; outcomes; by destruct s);
    try (destruct (t_waiter t); try discriminate; outcomes; done); try (destruct (t_closer t); try discriminate; outcomes; done);
    try (destruct pc; try discriminate; outcomes; done).
  - destruct (t_waiter t); try discriminate. destruct (t_out t), (t_err t); try discriminate. outcomes. cbn. by destruct (t_closed t).
  - by destruct (t_closed t); outcomes.
  - destruct pc; try discriminate. outcomes. match goal with x : option Event * chan |- _ => destruct x as [e c] end. by outcomes.
  - unfold consume in E. cbn in E. destruct dn; [done|]. outcomes. match goal with x : option Event * chan |- _ => destruct x as [e c] end. outcomes. by destruct e.
Qed.

Lemma run_client ls w : run world0 ls = Ok w -> t_waiter (w_transport (wd_watch w)) = WaitDone -> t_clientClosed (w_transport (wd_watch w)) = true.
Proof.
  revert w. induction ls as [|l ls IH] using rev_ind; intros w; [by intros [= <-]|].
  rewrite transport_run_app. intros (w1 & H1 & H2)%obind_Ok. cbn in H2. apply obind_Ok in H2 as (w2 & H2 & [= <-]). apply (done_client _ _ _ H2). by apply IH.
Qed.

Lemma run_cost ls' w w' : streams_ended w -> Forall internal ls' -> run w ls' = Ok w' -> streams_ended w' /\ (length ls' + cost w' <= cost w)%nat.
Proof.
  revert w. induction ls' as [|l ls' IH]; intros w He Hf; [intros [= <-]; cbn; by split; [|lia]|]. apply Forall_cons in Hf as [Hl Hf].
  cbn. intros (w1 & H1 & H2)%obind_Ok. destruct (cost_step _ _ _ He Hl H1) as [He1 Hc]. destruct (IH w1 He1 Hf H2) as [He2 Hc2]. split; [done|lia].
Qed.

(** An event that is on its way stays on it. *)
Lemma flow_step w l w' : step w l = Ok w' -> flow w `prefix_of` flow w'.
Proof.
  destruct w as [[t we pc n] rec dn]. unfold flow. cbn [wd_watch w_transport w_events w_pc c_received]. intros E.
  destruct l as [s d eof|s|s|werr| | | | | | | | | | | ]; cbn in E; outcomes;
    try (destruct (pipe_of t s); try discriminate; outcomes; destruct s; cbn; rewrite !app_assoc; (reflexivity || by apply prefix_app_r));
    try (destruct (t_closer t); try discriminate; outcomes; reflexivity).
  - destruct (t_waiter t); try discriminate. destruct (t_out t); try discriminate. destruct (t_err t); try discriminate. by outcomes.
  - destruct (t_waiter t); try discriminate. outcomes. cbn. rewrite !app_assoc. by apply prefix_app_r.
  - destruct (t_waiter t); try discriminate. by outcomes.
  - destruct (t_waiter t); try discriminate. by outcomes.
  - destruct (t_closed t); by outcomes.
  - destruct pc; try discriminate. outcomes. match goal with x : option Event * chan |- _ => destruct x as [e c] end. outcomes. cbn.
    match goal with H : receive _ = Ok _ |- _ => apply receive_Ok in H as [(e' & -> & Hbuf & _)|(-> & -> & Hcc)] end; [by rewrite Hbuf|done].
  - destruct pc; try discriminate. outcomes. cbn. by rewrite <- !app_assoc.
  - destruct pc; try discriminate. by outcomes.
  - destruct pc; try discriminate. by outcomes.
  - unfold consume in E. cbn in E. destruct dn; [done|]. outcomes. match goal with x : option Event * chan |- _ => destruct x as [e c] end. outcomes. cbn.
    match goal with H : receive _ = Ok _ |- _ => apply receive_Ok in H as [(e' & -> & Hbuf & _)|(-> & -> & Hcc)] end; cbn; [|done].
    rewrite Hbuf. by rewrite <- !app_assoc.
Qed.

Lemma flow_run ls w w' : run w ls = Ok w' -> flow w `prefix_of` flow w'.
Proof.
  revert w. induction ls as [|l ls IH]; intros w; [by intros [= <-]|]. cbn. intros (w1 & H1 & H2)%obind_Ok.
  etransitivity; [by eapply flow_step|by apply IH].
Qed.

(** Only a call of Close gets past its guard. *)
Lemma closer_idle w l w' : internal l -> step w l = Ok w' -> locally_closed (w_transport (wd_watch w')) -> locally_closed (w_transport (wd_watch w)).
Proof.
  destruct w as [[t we pc n] rec dn]. unfold locally_closed. cbn [wd_watch w_transport]. intros Hl E.
  destruct l as [s d eof|s|s|werr| | | | | | | | | | | ]; cbn in E; outcomes; try (by destruct Hl);
    try (destruct (pipe_of t s); try discriminate; outcomes; by destruct s); try (by destruct (t_closer t));
    try (destruct (t_waiter t); try discriminate; outcomes; done).
  - destruct (t_waiter t); try discriminate. destruct (t_out t); try discriminate. destruct (t_err t); try discriminate. by outcomes.
  - destruct pc; try discriminate. outcomes. match goal with x : option Event * chan |- _ => destruct x as [e c] end. by outcomes.
  - destruct pc; try discriminate. by outcomes.
  - destruct pc; try discriminate. by outcomes.
  - destruct pc; try discriminate. by outcomes.
  - unfold consume in E. cbn in E. destruct dn; [done|]. outcomes. match goal with x : option Event * chan |- _ => destruct x as [e c] end. outcomes. by destruct e.
Qed.

Lemma closed_by_Close ls w : run world0 ls = Ok w -> locally_closed (w_transport (wd_watch w)) -> LClose ∈ ls.
Proof.
  revert w. induction ls as [|l ls IH] using rev_ind; intros w; [intros [= <-] H; by destruct H|].
  rewrite transport_run_app. intros (w1 & H1 & H2)%obind_Ok Hw. cbn in H2. apply obind_Ok in H2 as (w2 & H2 & [= <-]). rewrite elem_of_app, list_elem_of_singleton.
  assert (l = LClose \/ internal l) as [->|Hl] by (unfold internal; destruct l; auto); [by right|left].
  apply (IH w1 H1). by eapply closer_idle.
Qed.

(** What the pump has seen at the end of a run [ls]: the data that was sent, and
    how the session ended. *)
Definition delivered (ls : list label) (w : world) : Prop :=
  exists out err data term, c_received w = map EvData data ++ term /\ interleaving out err data /\
    out `prefix_of` reads Stdout ls /\ err `prefix_of` reads Stderr ls /\
    (~ locally_closed (w_transport (wd_watch w)) ->
       out = reads Stdout ls /\ err = reads Stderr ls /\ exists werr, LReap werr ∈ ls /\ term = [ending werr]) /\
    (locally_closed (w_transport (wd_watch w)) -> LClose ∈ ls /\ term = []).

Lemma finished_delivered ls w : run world0 ls = Ok w -> finished w -> flow w = c_received w -> delivered ls w.
Proof.
  intros E (Hw & _ & _) Hfl. pose proof (stream_inv_run _ _ E) as (out & err & data & term & Hflow & Hi & Ho & Hr & Hwa & _ & _).
  pose proof (endings_run _ _ E) as Hend. exists out, err, data, term. rewrite Hfl in Hflow.
  pose proof Hwa as Hov. unfold waiter_ok in Hov. rewrite Hw in Hov. destruct Hov as ([Hcl Hop] & _ & [Hpo Hpe] & _).
  split_and!; try done; [by eapply pipe_prefix..| |].
  - intros Hn. destruct (Hop Hn) as [werr Hterm]. rewrite Hpo in Ho. rewrite Hpe in Hr. split_and!; [by eapply pipe_complete..|].
    destruct (Hend (ending werr)) as (werr' & Hin & He); [unfold ending; by destruct (isNormalSessionEnd werr)| |].
    + right. rewrite Hfl, Hflow, Hterm. apply elem_of_app. right. by left.
    + exists werr'. by rewrite Hterm, He.
  - intros Hl. split; [by eapply closed_by_Close|by apply Hcl].
Qed.

(** Once the remote has ended both streams and the pump reads, every schedule comes to an
    end after a bounded number of steps. There the pump has returned, the client
    is closed, the end has been reported exactly once, and the pump has seen all
    that was on its way; unless the session was closed from here it has seen
    every chunk that either stream delivered, in the order of its stream, and then how the
    session ended. If it was, it has seen an interleaving of two prefixes and
    no ending (C23). *)
Theorem transport_ends ls w : run world0 ls = Ok w -> streams_ended w ->
  forall ls' w', Forall internal ls' -> run w ls' = Ok w' ->
    (length ls' <= cost w)%nat /\
    (stuck w' -> finished w' /\ w_ended (wd_watch w') = 1%nat /\ t_clientClosed (w_transport (wd_watch w')) = true /\
       flow w `prefix_of` c_received w' /\ delivered (ls ++ ls') w').
Proof.
  intros E He ls' w' Hf E'. destruct (run_cost ls' w w' He Hf E') as [He' Hc]. split; [lia|]. intros Hst.
  assert (Er : run world0 (ls ++ ls') = Ok w') by (rewrite transport_run_app, E; exact E').
  pose proof (stream_inv_run _ _ Er) as Hinv. pose proof (stuck_finished _ _ Hinv He' Hst) as Hfin. destruct Hfin as (Hw & Hpc & Hd).
  destruct (consumer_drains _ _ Hinv Hd) as (Hb1 & Hb2 & Hb3). pose proof (run_client _ _ Er Hw) as Hcc.
  assert (flow w' = c_received w') as Hfl by (unfold flow; by rewrite Hb1, Hb2, Hb3, !app_nil_r).
  destruct Hinv as (_ & _ & _ & _ & _ & _ & _ & _ & _ & Hwt & _). unfold watch_ok in Hwt. rewrite Hpc in Hwt.
  split_and!; try done; [by destruct Hwt as (_ & ? & _)|rewrite <- Hfl; by eapply flow_run|]. by apply finished_delivered.
Qed.

(** ** Findings *)

(** A transport that Create closes because its session was closed meanwhile
    (manager.go:262) has no reader: seventeen chunks are enough to leave the end
    unreported for good, and the prompts of the connection uncancelled. *)
Definition chunk : list label := [LRead Stdout [x41] false; LEmit Stdout; LSend Stdout; LForward; LForwardSend].
Definition unread : list label :=
  concat (repeat chunk 16) ++ take 4 chunk ++
  [LClose; LCloserSession; LCloserClient; LRead Stdout [] true; LRead Stderr [] true; LReap (Some (WaitOther "closed")); LCloseEvents; LWaiterClient].

Definition unread_end : world := Eval vm_compute in match run world0 unread with Ok w => w | _ => world0 end.

Lemma unread_stays l w : l <> LConsume -> step unread_end l = Ok w -> w = unread_end.
Proof. intros Hl. destruct l as [[]|[]|[]| | | | | | | | | | | | ]; try discriminate; [by intros [= <-]|done]. Qed.

Theorem unread_transport_never_ends :
  exists w, run world0 unread = Ok w /\ t_clientClosed (w_transport (wd_watch w)) = true /\ w_ended (wd_watch w) = 0%nat /\
    forall ls w', ~ In LConsume ls -> run w ls = Ok w' -> w' = w.
Proof.
  exists unread_end. split; [by vm_compute|]. split; [done|]. split; [done|]. intros ls. induction ls as [|l ls IH]; intros w' Hn; [by intros [= <-]|].
  cbn [run]. intros (w1 & H1 & H2)%obind_Ok. apply unread_stays in H1 as ->; [|intros ->; apply Hn; by left]. apply IH; [|exact H2].
  intros H. apply Hn. by right.
Qed.

(** ** Witnesses *)

Definition sample_session : list label := chunk ++ [LConsume; LRead Stderr [x42] true; LEmit Stderr; LRead Stdout [] true].

Lemma transport_stream_witness :
  exists w, run world0 sample_session = Ok w /\ (w_ended (wd_watch w) <= 1)%nat.
Proof.
  destruct (transport_stream sample_session) as [_ H]. eexists. split; [by vm_compute|]. edestruct H as (? & ? & ? & ? & Hs); [by vm_compute|]. apply Hs.
Defined.

Definition sample_end : list label :=
  [LSend Stderr; LReap (Some (WaitExit 1)); LEnding; LCloseEvents; LWaiterClient; LForward; LForwardSend; LForward; LForwardSend; LConsume; LConsume; LForward; LForwardClose; LOnEnd].

Definition sample_mid : world := Eval vm_compute in match run world0 sample_session with Ok w => w | _ => world0 end.
Definition sample_final : world := Eval vm_compute in match run sample_mid sample_end with Ok w => w | _ => world0 end.

Lemma transport_ends_witness : stuck sample_final /\ finished sample_final /\ w_ended (wd_watch sample_final) = 1%nat /\
  delivered (sample_session ++ sample_end) sample_final /\ c_received sample_final = [EvData [x41]; EvData [x42]; EvClosed].
Proof.
  assert (stuck sample_final) as Hs by (intros [[]|[]|[]| | | | | | | | | | | | ] Hi; try reflexivity; by destruct Hi).
  split; [exact Hs|]. destruct (transport_ends sample_session sample_mid) with (ls' := sample_end) (w' := sample_final) as [_ H].
  - by vm_compute.
  - by vm_compute.
  - unfold sample_end. repeat constructor; unfold internal; discriminate.
  - by vm_compute.
  - destruct (H Hs) as (Hf & He & _ & _ & Hdel). by split_and!.
Defined.
