(* ===== verification/Hub.v ===== *)
(** * The browser WebSocket hub (internal/ws: hub.go, conn.go, router.go, protocol.go)

    A connection keeps the sessions it is attached to, the ones it controls and
    the output offset it sent last, and a bounded queue that a writer drains.
    A goroutine is the list of the atomic actions ([instr]) it has left, one
    per critical section of the connection's two mutexes or call of the session
    manager; an action may put others in front. The manager is an interface
    ([SessionManager]) with laws, so that the theorems hold for any manager
    that keeps them. What a client may rely on is an automaton over the frames
    it receives ([client]): the specification of the protocol. *)
From S2P Require Import Prelude Buffer Terminal.

(** ** The session manager, as the hub uses it *)

Class SessionManager (M : Type) := {
  mgr_GetSession : M -> string -> option Session;
  mgr_ReadOutputFrom : M -> string -> option Z -> option FromResult;
  mgr_ListForAccount : M -> string -> list Session
}.

(** What it promises: how it may evolve, the output stream of each session,
    which account a session belongs to. *)
Class SessionManagerLaws (M : Type) `{SessionManager M} := {
  evolves : M -> M -> Prop;
  stream : M -> string -> list byte;
  owned : M -> string -> string -> Prop;
  stream_grows m m' sid : evolves m m' -> stream m sid `prefix_of` stream m' sid;
  owned_stays m m' sid acc : evolves m m' -> owned m sid acc -> owned m' sid acc;
  GetSession_owned m sid s : mgr_GetSession m sid = Some s -> owned m sid (AccountID s);
  ListForAccount_owned m acc s : s ∈ mgr_ListForAccount m acc -> owned m (SessionID s) acc;
  ReadOutputFrom_stream m sid after r :
    mgr_ReadOutputFrom m sid after = Some r -> zlen (stream m sid) < 2 ^ 62 ->
    exists b, repr (stream m sid) b /\ r = ReadFrom b after
}.

(** ** Data *)

Record clientMessage := mkMsg {
  cm_Type : string;
  cm_SessionID : string;
  cm_Data : string;
  cm_Cols : Z;
  cm_Rows : Z;
  cm_AfterOffset : option Z
}.

(** One row of sessions:changed; the last field is "control" or "observer". *)
Record sessionListEntry := mkEntry {
  le_SessionID : string;
  le_EndpointID : string;
  le_Status : Status;
  le_CreatedAt : Z;
  le_Source : Source;
  le_Mode : bool
}.

(** The frames of the protocol, before they are written as JSON. [FAccount] is
    a message of the approval layer to all connections of an account. *)
Inductive frame :=
  | FStatus (sid : string) (st : Status)
  | FMode (sid : string) (control : bool)
  | FOutput (sid : string) (data : list byte) (offset : Z) (reset : bool)
  | FClosed (sid : string)
  | FSessions (entries : list sessionListEntry)
  | FError (message : string)
  | FAccount (acc : string) (message : string).

Record conn := mkConn {
  accountID : string;
  attached : gset string;
  controlled : gset string;
  lastOffset : gmap string Z;
  flushMu : option nat;        (** the goroutine that holds it *)
  out : list frame;
  closed : bool;
  delivered : list frame;      (** what the writer took off the queue *)
  loop : nat                   (** the goroutine of the read loop *)
}.

(** The actions of the hub's goroutines. *)
Inductive instr :=
  | IEnqueue (c : nat) (f : frame)
  | ILock (c : nat)
  | IUnlock (c : nat)
  | IFlushRead (c : nat) (sid : string)
  | IFlushBuf (c : nat) (sid : string) (last : Z)
  | IFlushSet (c : nat) (sid : string) (data : list byte) (offset : Z) (reset : bool)
  | IDetach (c : nat) (sid : string) (notify : bool)
  | IIfAttached (c : nat) (sid : string) (close : bool)
  | IList (c : nat)
  | IListModes (c : nat) (todo : list Session) (entries : list sessionListEntry)
  | IAttachGet (c : nat) (sid : string) (after : option Z)
  | IAttachMode (c : nat) (sid : string) (after : option Z) (s : Session)
  | IAttachRead (c : nat) (sid : string) (after : option Z) (s : Session) (mode : bool)
  | IAttachSet (c : nat) (sid : string) (control : bool) (offset : Z) (frames : list frame)
  | IAttachRecheck (c : nat) (sid : string)
  | IInputAttached (c : nat) (sid data : string)
  | IInputControl (c : nat) (sid data : string)
  | IInputSend (c : nat) (sid data : string)
  | IResizeAttached (c : nat) (sid : string) (cols rows : Z)
  | IResizeControl (c : nat) (sid : string) (cols rows : Z)
  | IResizeSend (c : nat) (sid : string) (cols rows : Z)
  | ICloseGet (c : nat) (sid : string)
  | ICloseCall (c : nat) (sid : string)
  | ITakeGet (c : nat) (sid : string)
  | ITake (c : nat) (sid : string)
  | IReleaseAttached (c : nat) (sid : string)
  | IRelease (c : nat) (sid : string).

(** The calls of the manager that do something to a session. *)
Inductive call :=
  | CallSendInput (c : nat) (sid data : string)
  | CallResize (c : nat) (sid : string) (cols rows : Z)
  | CallClose (c : nat) (sid : string) (reason : CloseReason).

Definition newConn (accountID : string) (tid : nat) : conn :=
  mkConn accountID ∅ ∅ ∅ None [] false [] tid.

(** ** Connections *)

Definition queue_size : nat := 256.

Definition set_queue (k : conn) (q : list frame) (cl : bool) (d : list frame) : conn :=
  mkConn (accountID k) (attached k) (controlled k) (lastOffset k) (flushMu k) q cl d (loop k).
Definition set_flushMu (k : conn) (l : option nat) : conn :=
  mkConn (accountID k) (attached k) (controlled k) (lastOffset k) l (out k) (closed k) (delivered k) (loop k).
Definition set_state (k : conn) (a co : gset string) (lo : gmap string Z) : conn :=
  mkConn (accountID k) a co lo (flushMu k) (out k) (closed k) (delivered k) (loop k).

(** The answer is false when the connection is dropped by this call. *)
Definition enqueueLocked (k : conn) (f : frame) : conn * bool :=
  if closed k then (k, true)
  else if (length (out k) <? queue_size)%nat then (set_queue k (out k ++ [f]) false (delivered k), true)
  else (set_queue k (out k) true (delivered k), false).

(** enqueue: closing the socket has no effect on the state. *)
Definition enqueue (k : conn) (f : frame) : conn := fst (enqueueLocked k f).

(** close; the writer still drains the queue. *)
Definition close (k : conn) : conn := set_queue k (out k) true (delivered k).

(** One turn of the writer's loop. *)
Definition write (k : conn) : conn :=
  match out k with
  | [] => k
  | f :: q => set_queue k q (closed k) (delivered k ++ [f])
  end.

Definition isAttached (k : conn) (sid : string) : bool := bool_decide (sid ∈ attached k).
Definition hasControl (k : conn) (sid : string) : bool := bool_decide (sid ∈ controlled k).

(** attachWithCatchUp under both mutexes: the frames up to the one that
    overflows the queue. *)
Fixpoint enqueue_frames (k : conn) (frames : list frame) : conn :=
  match frames with
  | [] => k
  | f :: fs =>
      match enqueueLocked k f with
      | (k', true) => enqueue_frames k' fs
      | (k', false) => k'
      end
  end.

Definition attachWithCatchUp (k : conn) (sid : string) (control : bool) (offset : Z) (frames : list frame) : conn :=
  enqueue_frames
    (set_state k ({[sid]} ∪ attached k) (if control then {[sid]} ∪ controlled k else controlled k)
       (<[sid := offset]> (lastOffset k)))
    frames.

Definition detachLocked (k : conn) (sid : string) : conn * bool :=
  (set_state k (attached k ∖ {[sid]}) (controlled k ∖ {[sid]}) (delete sid (lastOffset k)),
   isAttached k sid).

Definition takeControl (k : conn) (sid : string) : conn :=
  set_state k (attached k) ({[sid]} ∪ controlled k) (lastOffset k).
Definition releaseControl (k : conn) (sid : string) : conn :=
  set_state k (attached k) (controlled k ∖ {[sid]}) (lastOffset k).

(** ** The hub *)

Section hub.
Context {M : Type} `{SessionManager M}.

Record hub := mkHub {
  mgr : M;
  conns : gmap nat conn;
  registered : gset nat;
  threads : list (list instr);
  calls : list call
}.

Definition NewHub (m : M) : hub := mkHub m ∅ ∅ [] [].

Definition with_mgr (h : hub) (m : M) : hub := mkHub m (conns h) (registered h) (threads h) (calls h).
Definition with_conns (h : hub) (cs : gmap nat conn) : hub := mkHub (mgr h) cs (registered h) (threads h) (calls h).
Definition with_threads (h : hub) (ts : list (list instr)) : hub :=
  mkHub (mgr h) (conns h) (registered h) ts (calls h).
Definition with_registered (h : hub) (r : gset nat) : hub := mkHub (mgr h) (conns h) r (threads h) (calls h).
Definition add_call (h : hub) (x : call) : hub :=
  mkHub (mgr h) (conns h) (registered h) (threads h) (calls h ++ [x]).

Definition upd (h : hub) (c : nat) (f : conn -> conn) : hub := with_conns h (alter f c (conns h)).

(** ** Frames of the handlers *)

Definition not_found (sid : string) : frame := FError ("Session not found: " ++ sid)%string.

(** The critical sections of flushMu. *)
Definition flushOutput (c : nat) (sid : string) : list instr := [ILock c; IFlushRead c sid; IUnlock c].
Definition closeSession (c : nat) (sid : string) : list instr :=
  [ILock c; IFlushRead c sid; IDetach c sid true; IUnlock c].
Definition detach (c : nat) (sid : string) : list instr := [ILock c; IDetach c sid false; IUnlock c].

(** The output frame of an answer of the manager, if there is anything to say. *)
Definition output_frames (sid : string) (r : FromResult) : list frame :=
  if (zlen (fr_Data r) >? 0) || fr_Reset r then [FOutput sid (fr_Data r) (fr_Offset r) (fr_Reset r)] else [].

Definition attach_frames (sid : string) (s : Session) (mode : bool) (r : FromResult) : list frame :=
  [FStatus sid (s_Status s); FMode sid mode] ++ output_frames sid r.

(** The session of a message, if it is the connection's account's. *)
Definition own_session (h : hub) (k : conn) (sid : string) : option Session :=
  s ← mgr_GetSession (mgr h) sid;
  if bool_decide (AccountID s = accountID k) then Some s else None.

Definition entry_of (k : conn) (s : Session) : sessionListEntry :=
  mkEntry (SessionID s) (EndpointID s) (s_Status s) (CreatedAt s) (s_Source s) (hasControl k (SessionID s)).

(** ** Actions *)

(** What SendInput answers. *)
Inductive env := NoEnv | SendResult (err : option string).

Definition flush_step (h : hub) (c : nat) (k : conn) (i : instr) : option (hub * list instr) :=
  match i with
  | IFlushRead _ sid =>
      Some (h, if isAttached k sid then [IFlushBuf c sid (default 0 (lastOffset k !! sid))] else [])
  | IFlushBuf _ sid last =>
      match mgr_ReadOutputFrom (mgr h) sid (Some last) with
      | None => Some (h, [])
      | Some r =>
          Some (h, if bool_decide (fr_Data r = []) && negb (fr_Reset r) then []
                   else [IFlushSet c sid (fr_Data r) (fr_Offset r) (fr_Reset r)])
      end
  | IFlushSet _ sid data off reset =>
      Some (upd h c (fun k => set_state k (attached k) (controlled k) (<[sid := off]> (lastOffset k))),
            [IEnqueue c (FOutput sid data off reset)])
  | _ => None
  end.

Definition attach_step (h : hub) (c : nat) (k : conn) (i : instr) : option (hub * list instr) :=
  match i with
  | IAttachGet _ sid after =>
      Some (h, match own_session h k sid with
               | None => [IEnqueue c (not_found sid)]
               | Some s => [IAttachMode c sid after s]
               end)
  | IAttachMode _ sid after s =>
      let control := bool_decide (s_Source s = SourceUI) in
      Some (h, [IAttachRead c sid after s (control || hasControl k sid)])
  | IAttachRead _ sid after s mode =>
      Some (h, match mgr_ReadOutputFrom (mgr h) sid after with
               | None => [IEnqueue c (not_found sid)]
               | Some r =>
                   [ILock c;
                    IAttachSet c sid (bool_decide (s_Source s = SourceUI)) (fr_Offset r) (attach_frames sid s mode r);
                    IUnlock c] ++ flushOutput c sid ++ [IAttachRecheck c sid]
               end)
  | IAttachSet _ sid control offset frames =>
      Some (upd h c (fun k => attachWithCatchUp k sid control offset frames), [])
  | IAttachRecheck _ sid =>
      Some (h, match mgr_GetSession (mgr h) sid with None => closeSession c sid | Some _ => [] end)
  | _ => None
  end.

Definition input_step (h : hub) (c : nat) (k : conn) (i : instr) (e : env) : option (hub * list instr) :=
  match i, e with
  | IInputAttached _ sid data, _ =>
      Some (h, if isAttached k sid then [IInputControl c sid data]
               else [IEnqueue c (FError ("Session not attached: " ++ sid)%string)])
  | IInputControl _ sid data, _ =>
      Some (h, if hasControl k sid then [IInputSend c sid data]
               else [IEnqueue c (FError "Observer mode: take control first to send input")])
  | IInputSend _ sid data, SendResult err =>
      Some (add_call h (CallSendInput c sid data),
            match err with Some msg => [IEnqueue c (FError msg)] | None => [] end)
  | _, _ => None
  end.

Definition resize_step (h : hub) (c : nat) (k : conn) (i : instr) : option (hub * list instr) :=
  match i with
  | IResizeAttached _ sid cols rows => Some (h, if isAttached k sid then [IResizeControl c sid cols rows] else [])
  | IResizeControl _ sid cols rows => Some (h, if hasControl k sid then [IResizeSend c sid cols rows] else [])
  | IResizeSend _ sid cols rows => Some (add_call h (CallResize c sid cols rows), [])
  | _ => None
  end.

Definition close_step (h : hub) (c : nat) (k : conn) (i : instr) : option (hub * list instr) :=
  match i with
  | ICloseGet _ sid =>
      Some (h, match own_session h k sid with
               | None => [IEnqueue c (not_found sid)]
               | Some _ => [ICloseCall c sid]
               end)
  | ICloseCall _ sid => Some (add_call h (CallClose c sid CloseClientWS), [])
  | _ => None
  end.

Definition control_step (h : hub) (c : nat) (k : conn) (i : instr) : option (hub * list instr) :=
  match i with
  | ITakeGet _ sid =>
      Some (h, match own_session h k sid with
               | None => [IEnqueue c (not_found sid)]
               | Some _ => [ITake c sid]
               end)
  | ITake _ sid => Some (upd h c (fun k => takeControl k sid), [IEnqueue c (FMode sid true)])
  | IReleaseAttached _ sid => Some (h, if isAttached k sid then [IRelease c sid] else [])
  | IRelease _ sid => Some (upd h c (fun k => releaseControl k sid), [IEnqueue c (FMode sid false)])
  | _ => None
  end.

Definition list_step (h : hub) (c : nat) (k : conn) (i : instr) : option (hub * list instr) :=
  match i with
  | IList _ => Some (h, [IListModes c (mgr_ListForAccount (mgr h) (accountID k)) []])
  | IListModes _ [] entries => Some (h, [IEnqueue c (FSessions entries)])
  | IListModes _ (s :: todo) entries => Some (h, [IListModes c todo (entries ++ [entry_of k s])])
  | _ => None
  end.

(** The connection an action works on. *)
Definition conn_of (i : instr) : nat :=
  match i with
  | IEnqueue c _ | ILock c | IUnlock c | IFlushRead c _ | IFlushBuf c _ _ | IFlushSet c _ _ _ _ | IDetach c _ _
  | IIfAttached c _ _ | IList c | IListModes c _ _ | IAttachGet c _ _ | IAttachMode c _ _ _
  | IAttachRead c _ _ _ _ | IAttachSet c _ _ _ _ | IAttachRecheck c _ | IInputAttached c _ _
  | IInputControl c _ _ | IInputSend c _ _ | IResizeAttached c _ _ _ | IResizeControl c _ _ _
  | IResizeSend c _ _ _ | ICloseGet c _ | ICloseCall c _ | ITakeGet c _ | ITake c _
  | IReleaseAttached c _ | IRelease c _ => c
  end.

(** One action of goroutine [tid]: the hub, and the actions to do next.
    [None]: it has to wait. *)
Definition run_instr (h : hub) (tid : nat) (i : instr) (e : env) : option (hub * list instr) :=
  let c := conn_of i in
  match conns h !! c with
  | None => None
  | Some k =>
      match i with
      | IEnqueue _ f => Some (upd h c (fun k => enqueue k f), [])
      | ILock _ =>
          match flushMu k with
          | None => Some (upd h c (fun k => set_flushMu k (Some tid)), [])
          | Some _ => None
          end
      | IUnlock _ => Some (upd h c (fun k => set_flushMu k None), [])
      | IFlushRead _ _ | IFlushBuf _ _ _ | IFlushSet _ _ _ _ _ => flush_step h c k i
      | IDetach _ sid notify =>
          Some (upd h c (fun k => fst (detachLocked k sid)),
                if notify && snd (detachLocked k sid) then [IEnqueue c (FClosed sid)] else [])
      | IIfAttached _ sid close =>
          Some (h, if isAttached k sid then (if close then closeSession c sid else flushOutput c sid) else [])
      | IList _ | IListModes _ _ _ => list_step h c k i
      | IAttachGet _ _ _ | IAttachMode _ _ _ _ | IAttachRead _ _ _ _ _ | IAttachSet _ _ _ _ _
      | IAttachRecheck _ _ => attach_step h c k i
      | IInputAttached _ _ _ | IInputControl _ _ _ | IInputSend _ _ _ => input_step h c k i e
      | IResizeAttached _ _ _ _ | IResizeControl _ _ _ _ | IResizeSend _ _ _ _ => resize_step h c k i
      | ICloseGet _ _ | ICloseCall _ _ => close_step h c k i
      | ITakeGet _ _ | ITake _ _ | IReleaseAttached _ _ | IRelease _ _ => control_step h c k i
      end
  end.

(** ** Handlers *)

Definition route (c : nat) (msg : clientMessage) : list instr :=
  let sid := cm_SessionID msg in
  if bool_decide (cm_Type msg = "terminal:attach"%string) then [IAttachGet c sid (cm_AfterOffset msg)]
  else if bool_decide (cm_Type msg = "terminal:detach"%string) then detach c sid
  else if bool_decide (cm_Type msg = "terminal:input"%string) then [IInputAttached c sid (cm_Data msg)]
  else if bool_decide (cm_Type msg = "terminal:resize"%string) then [IResizeAttached c sid (cm_Cols msg) (cm_Rows msg)]
  else if bool_decide (cm_Type msg = "terminal:close"%string) then [ICloseGet c sid]
  else if bool_decide (cm_Type msg = "terminal:take-control"%string) then [ITakeGet c sid]
  else if bool_decide (cm_Type msg = "terminal:release-control"%string) then [IReleaseAttached c sid]
  else [].

(** A frame from the socket: [None] is one that does not parse. *)
Definition handle_message (c : nat) (msg : option clientMessage) : list instr :=
  match msg with
  | None => [IEnqueue c (FError "Invalid message format")]
  | Some msg => route c msg
  end.

(** The manager's hooks, over a snapshot of the connections in some order. *)
Definition onStatusChange (ev : StatusEvent) (cs : list nat) : list instr :=
  let ended := bool_decide (ev_Status ev = StatusClosed) || bool_decide (ev_Status ev = StatusError) in
  mjoin (map (fun c => (if ended then closeSession c (ev_SessionID ev) else []) ++ [IList c]) cs).
Definition onOutput (sid : string) (cs : list nat) : list instr := map (fun c => IIfAttached c sid false) cs.
Definition onRemoved (sid : string) (cs : list nat) : list instr := map (fun c => IIfAttached c sid true) cs.
Definition SendToAccount (h : hub) (acc msg : string) (cs : list nat) : list instr :=
  omap (fun c => k ← conns h !! c;
                 if bool_decide (accountID k = acc) then Some (IEnqueue c (FAccount acc msg)) else None) cs.

(** ** The whole hub *)

Inductive label :=
  | LServe (c : nat) (acc : string)
  | LMessage (c : nat) (msg : option clientMessage)
  | LDisconnect (c : nat)
  | LWrite (c : nat)
  | LStatus (ev : StatusEvent) (cs : list nat)
  | LOutput (sid : string) (cs : list nat)
  | LRemoved (sid : string) (cs : list nat)
  | LSendToAccount (acc msg : string) (cs : list nat)
  | LRun (tid : nat) (e : env).

Definition spawn (h : hub) (p : list instr) : hub := with_threads h (threads h ++ [p]).

(** [cs] is the registry in some order. *)
Definition snapshot (h : hub) (cs : list nat) : bool := bool_decide (list_to_set cs = registered h).

Definition hub_step (h : hub) (l : label) : hub :=
  match l with
  | LServe c acc =>
      match conns h !! c with
      | Some _ => h
      | None =>
          let tid := length (threads h) in
          spawn (with_registered (with_conns h (<[c := newConn acc tid]> (conns h))) ({[c]} ∪ registered h)) [IList c]
      end
  | LMessage c msg =>
      match conns h !! c with
      | None => h
      | Some k =>
          match threads h !! loop k with
          | Some [] => with_threads h (<[loop k := handle_message c msg]> (threads h))
          | _ => h
          end
      end
  | LDisconnect c => with_registered (upd h c close) (registered h ∖ {[c]})
  | LWrite c => upd h c write
  | LStatus ev cs => if snapshot h cs then spawn h (onStatusChange ev cs) else h
  | LOutput sid cs => if snapshot h cs then spawn h (onOutput sid cs) else h
  | LRemoved sid cs => if snapshot h cs then spawn h (onRemoved sid cs) else h
  | LSendToAccount acc msg cs => if snapshot h cs then spawn h (SendToAccount h acc msg cs) else h
  | LRun tid e =>
      match threads h !! tid with
      | Some (i :: p) =>
          match run_instr h tid i e with
          | None => h
          | Some (h', q) => with_threads h' (<[tid := q ++ p]> (threads h'))
          end
      | _ => h
      end
  end.

End hub.
Arguments hub : clear implicits.

(** The hub and the manager taking turns. *)
Inductive reach {M} `{SessionManagerLaws M} : hub M -> Prop :=
  | reach_new m : reach (NewHub m)
  | reach_manager h m : reach h -> evolves (mgr h) m -> reach (with_mgr h m)
  | reach_step h l : reach h -> reach (hub_step h l).

(** ** What a client may rely on *)

(** The automaton of one session at the client. Detached, it expects no output
    and no closed frame. Attached, it holds the text it has put together since
    the attach and the offset it has reached, from the first output frame on. *)
Inductive cstate := Detached | Attached (text : option (list byte * Z)).

Definition client (sid : string) (st : cstate) (f : frame) : option cstate :=
  match f with
  | FStatus s _ => Some (if bool_decide (s = sid) then Attached None else st)
  | FOutput s data off reset =>
      if bool_decide (s = sid) then
        match st with
        | Detached => None
        | Attached None => Some (Attached (Some (data, off)))
        | Attached (Some (text, o)) =>
            if reset then Some (Attached (Some (data, off)))
            else if bool_decide (off - zlen data = o) then Some (Attached (Some (text ++ data, off)))
            else None
        end
      else Some st
  | FClosed s =>
      if bool_decide (s = sid) then match st with Detached => None | Attached _ => Some Detached end
      else Some st
  | _ => Some st
  end.

Fixpoint replay (sid : string) (st : cstate) (l : list frame) : option cstate :=
  match l with
  | [] => Some st
  | f :: l => st' ← client sid st f; replay sid st' l
  end.

Definition received (sid : string) (l : list frame) : option cstate := replay sid Detached l.

(** [data] is what the stream has right before offset [off]. *)
Definition at_offset (s data : list byte) (off : Z) : Prop :=
  exists pre, pre ++ data `prefix_of` s /\ off = zlen (pre ++ data).

Lemma replay_app sid st l k : replay sid st (l ++ k) = (st' ← replay sid st l; replay sid st' k).
Proof.
  revert st. induction l as [|f l IH]; intros st; [done|]. simpl. destruct (client sid st f); [apply IH|done].
Qed.

Lemma received_snoc sid l f : received sid (l ++ [f]) = (st ← received sid l; client sid st f).
Proof.
  unfold received. rewrite replay_app. destruct (replay sid Detached l) as [st|]; [|done]. simpl.
  by destruct (client sid st f).
Qed.

Lemma received_prefix sid l k st : received sid (l ++ k) = Some st -> is_Some (received sid l).
Proof. unfold received. rewrite replay_app. by destruct (replay sid Detached l). Qed.

(** The frames that any goroutine may queue leave the client's state alone; the
    others are ordered by flushMu. *)
Definition neutral (f : frame) : bool :=
  match f with FMode _ _ | FSessions _ | FError _ | FAccount _ _ => true | _ => false end.
Definition ordered (f : frame) : bool := negb (neutral f).

Lemma client_neutral sid st f : neutral f = true -> client sid st f = Some st.
Proof. by destruct f. Qed.

Lemma received_neutral sid l f k : neutral f = true -> received sid (l ++ f :: k) = received sid (l ++ k).
Proof.
  intros Hf. unfold received. rewrite !replay_app. destruct (replay sid Detached l) as [st|]; [|done].
  simpl. by rewrite client_neutral.
Qed.

Lemma client_other sid st f s :
  match f with FStatus s' _ | FOutput s' _ _ _ | FClosed s' => s' = s | _ => True end -> s <> sid ->
  client sid st f = Some st.
Proof. destruct f; simpl; try done; intros -> ?; by rewrite bool_decide_false. Qed.

Lemma at_offset_grows s s' data off : s `prefix_of` s' -> at_offset s data off -> at_offset s' data off.
Proof. intros Hs (pre & Hp & Ho). exists pre. split; [by etrans|done]. Qed.

Lemma at_offset_app s t o d off :
  at_offset s t o -> at_offset s d off -> off - zlen d = o -> at_offset s (t ++ d) off.
Proof.
  intros (p1 & [k1 H1] & ->) (p2 & [k2 H2] & ->) Hl.
  assert (Heq : p1 ++ t = p2).
  { rewrite H1 in H2. rewrite <- (app_assoc p2) in H2. apply (f_equal (take (length p2))) in H2.
    rewrite take_app_length in H2. rewrite <- H2. rewrite length_app in Hl.
    replace (length p2) with (length (p1 ++ t)) by lia. by rewrite take_app_length. }
  exists p1. subst p2. rewrite app_assoc. split; [by exists k2|done].
Qed.

(** ** What an action changes *)

Section proofs.
Context {M : Type} `{SessionManagerLaws M}.
Implicit Types (h : hub M) (k : conn) (i : instr) (p q : list instr).

Definition after (tid : nat) i k : conn :=
  match i with
  | IEnqueue _ f => enqueue k f
  | ILock _ => set_flushMu k (Some tid)
  | IUnlock _ => set_flushMu k None
  | IFlushSet _ sid _ off _ => set_state k (attached k) (controlled k) (<[sid := off]> (lastOffset k))
  | IDetach _ sid _ => fst (detachLocked k sid)
  | IAttachSet _ sid control off frames => attachWithCatchUp k sid control off frames
  | ITake _ sid => takeControl k sid
  | IRelease _ sid => releaseControl k sid
  | _ => k
  end.

Definition call_of i : list call :=
  match i with
  | IInputSend c sid data => [CallSendInput c sid data]
  | IResizeSend c sid cols rows => [CallResize c sid cols rows]
  | ICloseCall c sid => [CallClose c sid CloseClientWS]
  | _ => []
  end.

Lemma alter_is_insert (cs : gmap nat conn) c k f : cs !! c = Some k -> alter f c cs = <[c := f k]> cs.
Proof.
  intros Hk. apply map_eq. intros j. destruct (decide (c = j)) as [->|Hne].
  - by rewrite lookup_alter_eq, lookup_insert_eq, Hk.
  - by rewrite lookup_alter_ne, lookup_insert_ne.
Qed.

Lemma insert_same (cs : gmap nat conn) c k : cs !! c = Some k -> <[c := k]> cs = cs.
Proof. intros Hk. by rewrite insert_id. Qed.

Lemma run_instr_effect h tid i e h' q :
  run_instr h tid i e = Some (h', q) ->
  exists k, conns h !! conn_of i = Some k /\ conns h' = <[conn_of i := after tid i k]> (conns h) /\
    mgr h' = mgr h /\ registered h' = registered h /\ threads h' = threads h /\
    calls h' = calls h ++ call_of i /\
    match i with ILock _ => flushMu k = None | _ => True end.
Proof.
  intros E. unfold run_instr in E. destruct (conns h !! conn_of i) as [k|] eqn:Hk; [|done].
  exists k. split; [done|].
  unfold flush_step, attach_step, input_step, resize_step, close_step, control_step, list_step in E.
  destruct i; simpl in *; run_cases; simplify_eq/=; rewrite ?app_nil_r;
    split_and!; try done; try (by rewrite insert_same); try (by rewrite (alter_is_insert _ _ k)).
Qed.

(** ** Who holds flushMu *)

(** The actions that need it, the ones that come right after another under it,
    and the ones that start when it is not held. *)
Fixpoint wf_program (held : option nat) p : Prop :=
  match p with
  | [] => held = None
  | i :: p =>
      match i with
      | ILock c => held = None /\ wf_program (Some c) p
      | IUnlock c => held = Some c /\ wf_program None p
      | IFlushRead c _ | IFlushBuf c _ _ | IFlushSet c _ _ _ _ | IDetach c _ _ | IAttachSet c _ _ _ _ =>
          held = Some c /\ wf_program held p
      | IEnqueue c f => held = (if ordered f then Some c else None) /\ wf_program held p
      | _ => held = None /\ wf_program held p
      end
  end.

Definition late i : bool :=
  match i with IFlushBuf _ _ _ | IFlushSet _ _ _ _ _ => true | IEnqueue _ f => ordered f | _ => false end.

(** Only the first action may be one that follows from what the goroutine has
    just read under the lock. *)
Definition early p : Prop := Forall (fun i => late i = false) p.

Definition lock_inv h : Prop :=
  (forall tid p, threads h !! tid = Some p ->
     early (tail p) /\ exists held, wf_program held p /\
       (forall c, held = Some c -> is_Some (conns h !! c)) /\
       forall c k, conns h !! c = Some k -> (flushMu k = Some tid <-> held = Some c)) /\
  (forall c k tid, conns h !! c = Some k -> flushMu k = Some tid -> is_Some (threads h !! tid)).

Lemma wf_append held q p p' :
  (forall held, wf_program held p -> wf_program held p') -> wf_program held (q ++ p) -> wf_program held (q ++ p').
Proof.
  intros Hp. revert held. induction q as [|i q IH]; intros held; simpl; [apply Hp|].
  destruct i; intros [? ?]; split; auto.
Qed.

Lemma enqueue_flushMu k f : flushMu (enqueue k f) = flushMu k.
Proof. unfold enqueue, enqueueLocked. destruct (closed k); [done|]. by destruct (_ <? _)%nat. Qed.

Lemma enqueue_frames_flushMu k fs : flushMu (enqueue_frames k fs) = flushMu k.
Proof.
  revert k. induction fs as [|f fs IH]; intros k; [done|]. simpl.
  pose proof (enqueue_flushMu k f) as He. unfold enqueue in He.
  destruct (enqueueLocked k f) as [k' []]; simpl in He; [by rewrite IH|done].
Qed.

Lemma after_flushMu tid i k :
  flushMu (after tid i k) = match i with ILock _ => Some tid | IUnlock _ => None | _ => flushMu k end.
Proof.
  destruct i; simpl; try done; [apply enqueue_flushMu|].
  unfold attachWithCatchUp. by rewrite enqueue_frames_flushMu.
Qed.

Definition held_after (held : option nat) i : option nat :=
  match i with ILock c => Some c | IUnlock _ => None | _ => held end.

Lemma early_tail_app q p : early (tail q) -> q <> [] -> early p -> early (tail (q ++ p)).
Proof. intros Hq Hne Hp. destruct q as [|i q]; [done|]. by apply Forall_app. Qed.

Lemma early_tail p : early p -> early (tail p).
Proof. destruct p; [done|]. by apply Forall_inv_tail. Qed.

Lemma run_instr_wf h tid i e h' q p held :
  run_instr h tid i e = Some (h', q) -> wf_program held (i :: p) -> early p ->
  wf_program (held_after held i) (q ++ p) /\ early (tail (q ++ p)).
Proof.
  intros E Hwf He. pose proof (early_tail p He) as Het.
  assert (Hq : forall q, early (tail q) -> early (tail (q ++ p))).
  { intros q' Hq'. destruct q' as [|j q']; [done|]. by apply Forall_app. }
  unfold run_instr in E. destruct (conns h !! conn_of i) as [k|] eqn:Hk; [|done].
  unfold flush_step, attach_step, input_step, resize_step, close_step, control_step, list_step in E.
  destruct i; simpl in Hwf; destruct Hwf as [Hh Hw]; simpl in *; run_cases; simplify_eq/=;
    (split; [try done|try (by apply Hq; repeat constructor); try done]); try (by split_and!).
  all: repeat (apply Forall_cons; split; [done|]); done.
Qed.

Lemma lock_inv_run h tid i p e h' q :
  lock_inv h -> threads h !! tid = Some (i :: p) -> run_instr h tid i e = Some (h', q) ->
  lock_inv (with_threads h' (<[tid := q ++ p]> (threads h'))).
Proof.
  intros [Ht Hc] Hth E. destruct (run_instr_effect _ _ _ _ _ _ E) as (k & Hk & Hcs & _ & _ & Hts & _ & Hl).
  destruct (Ht _ _ Hth) as (He & held & Hwf & Hex & Hheld).
  destruct (run_instr_wf _ _ _ _ _ _ _ _ E Hwf He) as [Hwf' He'].
  pose proof (after_flushMu tid i k) as Hfl.
  assert (Hsome : forall c, is_Some (conns h !! c) -> is_Some (<[conn_of i := after tid i k]> (conns h) !! c)).
  { intros c Hs. apply lookup_insert_is_Some'. by right. }
  assert (Hlu : match i with ILock c => held = None | IUnlock c => held = Some c | _ => True end).
  { destruct i; try done; by destruct Hwf. }
  split; simpl; rewrite Hts, Hcs.
  - intros tid' p' Hp'. apply list_lookup_insert_Some in Hp' as [(<- & <- & _)|[Hne Hp']].
    + split; [done|]. exists (held_after held i). split; [done|]. split.
      * destruct i; simpl; try done; try (by eauto). intros c' [= <-]. apply Hsome. by eexists.
      * intros c k' Hk'. apply lookup_insert_Some in Hk' as [[<- <-]|[Hne Hk']].
        -- rewrite Hfl. destruct i; simpl in *; try (by apply Hheld); split; congruence.
        -- rewrite (Hheld c k' Hk'). destruct i; simpl in *; try done; subst; split; congruence.
    + destruct (Ht _ _ Hp') as (He2 & held2 & Hwf2 & Hex2 & Hheld2). split; [done|]. exists held2.
      split; [done|]. split; [by eauto|]. intros c k' Hk'.
      apply lookup_insert_Some in Hk' as [[<- <-]|[_ Hk']]; [|by apply Hheld2].
      rewrite Hfl, <- (Hheld2 _ _ Hk). destruct i; simpl in *; try done.
      * rewrite Hl. split; congruence.
      * subst held. pose proof (proj2 (Hheld _ _ Hk) eq_refl) as ->. split; congruence.
  - intros c k' tid' Hk' Hf. assert (is_Some (threads h !! tid')) as [p' Hp'].
    { apply lookup_insert_Some in Hk' as [[<- <-]|[_ Hk']]; [|by eauto].
      rewrite Hfl in Hf. destruct i; simplify_eq; eauto. }
    destruct (decide (tid = tid')) as [->|].
    + rewrite list_lookup_insert_eq; [by eexists|]. by eapply lookup_lt_Some.
    + rewrite list_lookup_insert_ne by done. by eexists.
Qed.

Lemma lock_inv_spawn h p : lock_inv h -> wf_program None p -> early (tail p) -> lock_inv (spawn h p).
Proof.
  intros [Ht Hc] Hwf He. split; simpl.
  - intros tid p' Hp'. apply lookup_app_Some in Hp' as [Hp'|[Hlen Hp']]; [by apply Ht|].
    apply list_lookup_singleton_Some in Hp' as [Hz <-]. split; [done|]. exists None. split; [done|].
    split; [done|]. intros c k Hk. split; [|done]. intros Hf.
    destruct (Hc _ _ _ Hk Hf) as [? Hl]. apply lookup_lt_Some in Hl. lia.
  - intros c k tid Hk Hf. destruct (Hc _ _ _ Hk Hf) as [p' Hp']. exists p'.
    apply lookup_app_l_Some. exact Hp'.
Qed.

Lemma lock_inv_replace h tid p :
  lock_inv h -> threads h !! tid = Some [] -> wf_program None p -> early (tail p) ->
  lock_inv (with_threads h (<[tid := p]> (threads h))).
Proof.
  intros [Ht Hc] Hnil Hwf He. split; simpl.
  - intros tid' p' Hp'. apply list_lookup_insert_Some in Hp' as [(<- & <- & _)|[Hne Hp']]; [|by apply Ht].
    split; [done|]. exists None. split; [done|]. split; [done|].
    destruct (Ht _ _ Hnil) as (_ & held & -> & _ & Hh). exact Hh.
  - intros c k tid' Hk Hf. destruct (decide (tid = tid')) as [->|].
    + rewrite list_lookup_insert_eq; [by eexists|]. by eapply lookup_lt_Some.
    + rewrite list_lookup_insert_ne by done. by eapply Hc.
Qed.

Lemma lock_inv_conns h cs :
  lock_inv h ->
  (forall c k', cs !! c = Some k' ->
     (exists k, conns h !! c = Some k /\ flushMu k' = flushMu k) \/ (conns h !! c = None /\ flushMu k' = None)) ->
  (forall c, is_Some (conns h !! c) -> is_Some (cs !! c)) ->
  lock_inv (with_conns h cs).
Proof.
  intros [Ht Hc] Hcs Hdom. split; simpl.
  - intros tid p Hp. destruct (Ht _ _ Hp) as (He & held & Hwf & Hex & Hh). split; [done|].
    exists held. split; [done|]. split; [by eauto|]. intros c k' Hk'.
    destruct (Hcs _ _ Hk') as [(k & Hk & ->)|(Hk & ->)]; [by apply Hh|].
    split; [done|]. intros Hheld. destruct (Hex _ Hheld) as [? ?]. congruence.
  - intros c k' tid Hk' Hf. destruct (Hcs _ _ Hk') as [(k & Hk & Heq)|(Hk & Heq)]; [|congruence].
    rewrite Heq in Hf. by eapply Hc.
Qed.

Lemma lock_inv_upd h c f : lock_inv h -> (forall k, flushMu (f k) = flushMu k) -> lock_inv (upd h c f).
Proof.
  intros Hl Hf. apply lock_inv_conns; [done| |].
  - intros c' k' Hk'. left. destruct (decide (c = c')) as [->|].
    + rewrite lookup_alter_eq in Hk'. destruct (conns h !! c') as [k|] eqn:E; [|done].
      exists k. simplify_eq/=. by rewrite Hf.
    + rewrite lookup_alter_ne in Hk' by done. by exists k'.
  - intros c' Hs. destruct (decide (c = c')) as [->|];
      [by rewrite lookup_alter_eq, fmap_is_Some|by rewrite lookup_alter_ne].
Qed.

(** What the handlers start with. *)
Definition start i : bool :=
  match i with
  | IIfAttached _ _ _ | IList _ | IAttachGet _ _ _ | IInputAttached _ _ _ | IResizeAttached _ _ _ _
  | ICloseGet _ _ | ITakeGet _ _ | IReleaseAttached _ _ => true
  | IEnqueue _ (FError _) | IEnqueue _ (FAccount _ _) => true
  | _ => false
  end.

Lemma wf_starts p q :
  Forall (fun i => start i = true) p -> wf_program None q -> early q ->
  wf_program None (p ++ q) /\ early (p ++ q).
Proof.
  intros Hp Hq He. induction Hp as [|i p Hi _ [Hw He']]; [done|]. simpl. split.
  - destruct i; try done. by destruct f.
  - constructor; [|done]. destruct i; try done. by destruct f.
Qed.

Lemma handle_message_wf c msg : wf_program None (handle_message c msg) /\ early (tail (handle_message c msg)).
Proof.
  assert (Hs : forall i, start i = true -> wf_program None [i] /\ early (tail [i])).
  { intros i Hi. split; [|constructor]. by destruct (wf_starts [i] [] ltac:(by constructor) eq_refl ltac:(constructor)). }
  destruct msg as [msg|]; [|by apply Hs]. simpl. unfold route.
  repeat (case_bool_decide as Heq; [clear Heq; try (by apply Hs)|clear Heq]).
  - split; [by split_and!|]. by repeat constructor.
  - split; [done|constructor].
Qed.

Lemma onStatusChange_wf ev cs : wf_program None (onStatusChange ev cs) /\ early (onStatusChange ev cs).
Proof.
  unfold onStatusChange. destruct (_ || _).
  - induction cs as [|c cs [IH He]]; [by split; [|constructor]|]. simpl. split; [by split_and!|].
    by repeat (apply Forall_cons; split; [done|]).
  - induction cs as [|c cs [IH He]]; [by split; [|constructor]|]. simpl. split; [by split_and!|].
    by repeat (apply Forall_cons; split; [done|]).
Qed.

Lemma starts_wf p : Forall (fun i => start i = true) p -> wf_program None p /\ early p.
Proof. intros Hp. rewrite <- (app_nil_r p). by apply wf_starts; [|simpl|constructor]. Qed.

Lemma IIfAttached_starts sid b cs : Forall (fun i => start i = true) (map (fun c => IIfAttached c sid b) cs).
Proof. induction cs; by constructor. Qed.

Lemma SendToAccount_starts h acc msg cs : Forall (fun i => start i = true) (SendToAccount h acc msg cs).
Proof.
  apply Forall_forall. intros i (c & _ & Hi)%list_elem_of_omap. destruct (conns h !! c) as [k|]; [|done].
  simpl in Hi. case_bool_decide; by simplify_eq.
Qed.

Lemma write_flushMu k : flushMu (write k) = flushMu k.
Proof. unfold write. by destruct (out k). Qed.

Lemma step_lock_inv h l : lock_inv h -> lock_inv (hub_step h l).
Proof.
  intros Hl. assert (Hsp : forall h p, lock_inv h -> wf_program None p /\ early p -> lock_inv (spawn h p)).
  { intros h' p Hl' [Hw He]. apply lock_inv_spawn; [done|done|by apply early_tail]. }
  destruct l; simpl.
  - destruct (conns h !! c) eqn:E; [done|]. apply Hsp; [|by split; [|constructor]].
    apply (lock_inv_conns h); [done| |].
    + intros c' k' Hk'. apply lookup_insert_Some in Hk' as [[<- <-]|[_ Hk']]; [by right|left; by exists k'].
    + intros c' Hs. apply lookup_insert_is_Some'. by right.
  - destruct (conns h !! c) as [k|]; [|done]. destruct (threads h !! loop k) as [[|]|] eqn:E; try done.
    destruct (handle_message_wf c msg). by apply lock_inv_replace.
  - by apply (lock_inv_upd h c close).
  - apply lock_inv_upd; [done|]. apply write_flushMu.
  - destruct (snapshot h cs); [|done]. apply Hsp; [done|apply onStatusChange_wf].
  - destruct (snapshot h cs); [|done]. apply Hsp; [done|apply starts_wf, IIfAttached_starts].
  - destruct (snapshot h cs); [|done]. apply Hsp; [done|apply starts_wf, IIfAttached_starts].
  - destruct (snapshot h cs); [|done]. apply Hsp; [done|apply starts_wf, SendToAccount_starts].
  - destruct (threads h !! tid) as [[|i p]|] eqn:E; try done.
    destruct (run_instr h tid i e) as [[h' q]|] eqn:Er; [|done]. by eapply lock_inv_run.
Qed.

(** ** What is known of frames, actions and calls for good *)

Definition frame_ok (m : M) (acc : string) (f : frame) : Prop :=
  match f with
  | FStatus sid _ | FClosed sid => owned m sid acc
  | FMode sid _ => owned m sid acc
  | FOutput sid data off _ => owned m sid acc /\ at_offset (stream m sid) data off
  | FSessions entries => forall x, x ∈ entries -> owned m (le_SessionID x) acc
  | FError _ => True
  | FAccount a _ => a = acc
  end.

(** The frames of an attach: the status first, at most one output, ending at
    the offset that is recorded. *)
Definition attach_shape (sid : string) (off : Z) (fs : list frame) : Prop :=
  exists st mode, fs = [FStatus sid st; FMode sid mode] \/
    exists data reset, fs = [FStatus sid st; FMode sid mode; FOutput sid data off reset].

Definition instr_ok (m : M) (acc : string) i : Prop :=
  match i with
  | IEnqueue _ f => frame_ok m acc f
  | IFlushBuf _ sid _ => owned m sid acc
  | IFlushSet _ sid data off reset => frame_ok m acc (FOutput sid data off reset)
  | IListModes _ todo entries =>
      (forall s, s ∈ todo -> owned m (SessionID s) acc) /\
      (forall x, x ∈ entries -> owned m (le_SessionID x) acc)
  | IAttachMode _ sid _ s => owned m sid acc
  | IAttachRead _ sid _ s _ => owned m sid acc
  | IAttachSet _ sid _ off fs => owned m sid acc /\ Forall (frame_ok m acc) fs /\ attach_shape sid off fs
  | IInputControl _ sid _ | IInputSend _ sid _ | IResizeControl _ sid _ _ | IResizeSend _ sid _ _
  | ICloseCall _ sid | ITake _ sid | IRelease _ sid => owned m sid acc
  | _ => True
  end.

Definition call_ok h (x : call) : Prop :=
  match x with
  | CallSendInput c sid _ | CallResize c sid _ _ | CallClose c sid _ =>
      exists k, conns h !! c = Some k /\ owned (mgr h) sid (accountID k)
  end.

Definition conn_ok (m : M) k : Prop :=
  (length (out k) <= queue_size)%nat /\
  Forall (frame_ok m (accountID k)) (delivered k ++ out k) /\
  (forall sid, sid ∈ attached k \/ sid ∈ controlled k -> owned m sid (accountID k)).

Definition instr_known h i : Prop :=
  exists k, conns h !! conn_of i = Some k /\ instr_ok (mgr h) (accountID k) i.

Definition known h : Prop :=
  (forall c k, conns h !! c = Some k -> conn_ok (mgr h) k) /\
  (forall tid p, threads h !! tid = Some p -> Forall (instr_known h) p) /\
  Forall (call_ok h) (calls h) /\
  (forall c, c ∈ registered h -> is_Some (conns h !! c)).

Definition bounded (m : M) : Prop := forall sid, zlen (stream m sid) < 2 ^ 62.

Lemma frame_ok_grows m m' acc f : evolves m m' -> frame_ok m acc f -> frame_ok m' acc f.
Proof.
  intros He. destruct f; simpl; try done; try (by apply owned_stays).
  - intros [Ho Ha]. split; [by eapply owned_stays|]. eapply at_offset_grows; [by apply stream_grows|done].
  - intros Hx x Hin. eapply owned_stays; [done|by apply Hx].
Qed.

Lemma instr_ok_grows m m' acc i : evolves m m' -> instr_ok m acc i -> instr_ok m' acc i.
Proof.
  intros He. destruct i; simpl; try done; try (by apply owned_stays).
  - by apply frame_ok_grows.
  - by apply (frame_ok_grows _ _ acc (FOutput sid data offset reset)).
  - intros [H1 H2]. split; intros x Hx; (eapply owned_stays; [done|]); auto.
  - intros (Ho & Hf & Hs). split; [by eapply owned_stays|]. split; [|done].
    eapply Forall_impl; [exact Hf|]. intros f. by apply frame_ok_grows.
Qed.

Lemma known_grows h m : evolves (mgr h) m -> known h -> known (with_mgr h m).
Proof.
  intros He (Hc & Ht & Hx & Hr). split; [|split; [|split]]; simpl.
  - intros c k Hk. destruct (Hc _ _ Hk) as (H1 & H2 & H3). split; [done|]. split.
    + eapply Forall_impl; [exact H2|]. intros f. by apply frame_ok_grows.
    + intros sid Hs. eapply owned_stays; [done|]. by apply H3.
  - intros tid p Hp. eapply Forall_impl; [by eapply Ht|]. intros i (k & Hk & Hi). exists k.
    split; [done|]. by eapply instr_ok_grows.
  - eapply Forall_impl; [exact Hx|]. intros x. unfold call_ok. destruct x; intros (k & Hk & Ho); exists k;
      (split; [done|]); by eapply owned_stays.
  - done.
Qed.

Lemma enqueueLocked_ok m k f k' b :
  enqueueLocked k f = (k', b) -> conn_ok m k -> frame_ok m (accountID k) f ->
  conn_ok m k' /\ accountID k' = accountID k.
Proof.
  unfold enqueueLocked. intros E (Hq & Hf & Ho) Hfo. destruct (closed k); [by simplify_eq|].
  destruct (_ <? _)%nat eqn:El; simplify_eq; [|done]. apply Nat.ltb_lt in El. split; [|done]. split; simpl.
  - rewrite length_app. simpl. lia.
  - split; [|done]. rewrite app_assoc. apply Forall_app. split; [done|by constructor].
Qed.

Lemma enqueue_ok m k f :
  conn_ok m k -> frame_ok m (accountID k) f -> conn_ok m (enqueue k f) /\ accountID (enqueue k f) = accountID k.
Proof.
  intros Hk Hf. unfold enqueue. destruct (enqueueLocked k f) as [k' b] eqn:E. by eapply enqueueLocked_ok.
Qed.

Lemma enqueue_frames_ok m k fs :
  conn_ok m k -> Forall (frame_ok m (accountID k)) fs ->
  conn_ok m (enqueue_frames k fs) /\ accountID (enqueue_frames k fs) = accountID k.
Proof.
  revert k. induction fs as [|f fs IH]; intros k Hk Hfs; [done|]. simpl.
  apply Forall_cons in Hfs as [Hf Hfs]. destruct (enqueueLocked k f) as [k' b] eqn:E.
  destruct (enqueueLocked_ok _ _ _ _ _ E Hk Hf) as [Hk' Ha]. destruct b; [|done].
  destruct (IH k') as [H1 H2]; [done|by rewrite Ha|]. split; [done|congruence].
Qed.

Lemma set_state_ok m k a co lo :
  conn_ok m k -> (forall sid, sid ∈ a \/ sid ∈ co -> owned m sid (accountID k)) -> conn_ok m (set_state k a co lo).
Proof. intros (H1 & H2 & _) H3. by split_and!. Qed.

Lemma after_ok m tid i k :
  conn_ok m k -> instr_ok m (accountID k) i -> conn_ok m (after tid i k) /\ accountID (after tid i k) = accountID k.
Proof.
  intros Hk Hi. pose proof Hk as (H1 & H2 & H3). destruct i; simpl in *; try done.
  - by apply enqueue_ok.
  - split; [|done]. apply set_state_ok; [done|]. intros s [?|?]; apply H3; set_solver.
  - destruct Hi as (Ho & Hf & _). unfold attachWithCatchUp.
    apply (enqueue_frames_ok m (set_state k _ _ _)); [|done].
    apply set_state_ok; [done|]. intros s Hs. destruct (decide (s = sid)) as [->|Hne]; [done|].
    apply H3. destruct control; set_solver.
  - split; [|done]. apply set_state_ok; [done|]. intros s Hs. destruct (decide (s = sid)) as [->|Hne]; [done|].
    apply H3. set_solver.
  - split; [|done]. apply set_state_ok; [done|]. intros s Hs. apply H3. set_solver.
Qed.

Lemma ReadFrom_at_offset s b after :
  repr s b -> at_offset s (fr_Data (ReadFrom b after)) (fr_Offset (ReadFrom b after)).
Proof.
  intros Hr. pose proof (repr_cur _ _ Hr) as Hcur. unfold CurrentOffset in Hcur.
  assert (Hd : forall n, at_offset s (drop n s) (zlen s)).
  { intros n. exists (take n s). by rewrite take_drop. }
  assert (Hb : exists n, buf b = drop n s) by (destruct Hr; eauto). destruct Hb as [n Hb].
  unfold ReadFrom. rewrite Hcur. destruct after as [off|]; simpl; [|by rewrite Hb].
  destruct (off =? zlen s); simpl.
  - specialize (Hd (length s)). by rewrite drop_all in Hd.
  - destruct (_ || _); simpl; rewrite Hb, ?drop_drop; apply Hd.
Qed.

Lemma read_frames_ok m sid acc after r :
  bounded m -> owned m sid acc -> mgr_ReadOutputFrom m sid after = Some r ->
  frame_ok m acc (FOutput sid (fr_Data r) (fr_Offset r) (fr_Reset r)).
Proof.
  intros Hb Ho Hr. destruct (ReadOutputFrom_stream _ _ _ _ Hr (Hb sid)) as (b & Hrep & ->).
  split; [done|]. by apply ReadFrom_at_offset.
Qed.

Lemma attach_frames_ok m sid acc after s mode r :
  bounded m -> owned m sid acc -> mgr_ReadOutputFrom m sid after = Some r ->
  Forall (frame_ok m acc) (attach_frames sid s mode r) /\ attach_shape sid (fr_Offset r) (attach_frames sid s mode r).
Proof.
  intros Hb Ho Hr. pose proof (read_frames_ok _ _ _ _ _ Hb Ho Hr) as Hok.
  unfold attach_frames, output_frames. destruct (_ || _).
  - split; [by repeat constructor; [..|destruct Hok]|]. eexists _, _. right. by eexists _, _.
  - split; [by repeat constructor|]. eexists _, _. by left.
Qed.

Lemma own_session_owned h k sid s : own_session h k sid = Some s -> owned (mgr h) sid (accountID k).
Proof.
  unfold own_session. destruct (mgr_GetSession (mgr h) sid) as [s'|] eqn:E; [|done]. simpl.
  case_bool_decide as Ha; [|done]. intros _. rewrite <- Ha. by apply GetSession_owned.
Qed.

Lemma isAttached_true k sid : isAttached k sid = true -> sid ∈ attached k.
Proof. apply bool_decide_eq_true. Qed.
Lemma hasControl_true k sid : hasControl k sid = true -> sid ∈ controlled k.
Proof. apply bool_decide_eq_true. Qed.

Lemma run_instr_known h tid i e h' q k :
  run_instr h tid i e = Some (h', q) -> conns h !! conn_of i = Some k ->
  conn_ok (mgr h) k -> instr_ok (mgr h) (accountID k) i -> bounded (mgr h) ->
  Forall (fun j => conn_of j = conn_of i /\ instr_ok (mgr h) (accountID k) j) q.
Proof.
  intros E Hk (_ & _ & Hown) Hi Hb. unfold run_instr in E. rewrite Hk in E.
  unfold flush_step, attach_step, input_step, resize_step, close_step, control_step, list_step in E.
  destruct i; simpl in *; run_cases; simplify_eq/=; try (by repeat constructor);
    repeat match goal with
      | E : own_session _ _ _ = Some _ |- _ => apply own_session_owned in E
      | E : isAttached _ _ = true |- _ => apply isAttached_true in E
      | E : hasControl _ _ = true |- _ => apply hasControl_true in E
      | E : _ && isAttached _ _ = true |- _ => apply andb_true_iff in E as [_ E]
      end; try (constructor; [split; [done|]|constructor]); try (by simpl; auto); try (by repeat constructor).
  - by eapply (read_frames_ok _ sid).
  - simpl. split; [|by intros ? ?%elem_of_nil]. intros s Hs. by apply ListForAccount_owned.
  - simpl. by destruct Hi.
  - destruct Hi as [Ht Hx]. split.
    + intros s' Hs. apply Ht. by right.
    + intros x [Hin|Hin]%elem_of_app; [by apply Hx|]. apply list_elem_of_singleton in Hin. subst x. simpl.
      apply Ht. by left.
  - split; [done|]. split; [done|]. by eapply attach_frames_ok.
Qed.

(** Connections keep their account. *)
Definition same_accounts h h' : Prop :=
  mgr h' = mgr h /\
  forall c k, conns h !! c = Some k -> exists k', conns h' !! c = Some k' /\ accountID k' = accountID k.

Lemma instr_known_conns h h' i : same_accounts h h' -> instr_known h i -> instr_known h' i.
Proof.
  intros [Hm Hc] (k & Hk & Hi). destruct (Hc _ _ Hk) as (k' & Hk' & Ha). exists k'.
  split; [done|]. by rewrite Hm, Ha.
Qed.

Lemma call_ok_conns h h' x : same_accounts h h' -> call_ok h x -> call_ok h' x.
Proof.
  intros [Hm Hc]. destruct x; intros (k & Hk & Ho); destruct (Hc _ _ Hk) as (k' & Hk' & Ha);
    exists k'; split; try done; by rewrite Hm, Ha.
Qed.

Lemma known_conns h cs :
  (forall c k, conns h !! c = Some k -> exists k', cs !! c = Some k' /\ accountID k' = accountID k) ->
  (forall c k, cs !! c = Some k -> conn_ok (mgr h) k) ->
  known h -> known (with_conns h cs).
Proof.
  intros Hs Hok (_ & Ht & Hx & Hr). assert (Hsame : same_accounts h (with_conns h cs)) by done.
  split; [done|]. split; [|split]; simpl.
  - intros tid p Hp. eapply Forall_impl; [by eapply Ht|]. intros i. by apply instr_known_conns.
  - eapply Forall_impl; [exact Hx|]. intros x. by apply call_ok_conns.
  - intros c Hc. destruct (Hr c Hc) as [k Hk]. destruct (Hs _ _ Hk) as (k' & Hk' & _). by eexists.
Qed.

Lemma known_upd h c f :
  (forall k, accountID (f k) = accountID k) -> (forall k, conn_ok (mgr h) k -> conn_ok (mgr h) (f k)) ->
  known h -> known (upd h c f).
Proof.
  intros Ha Hf Hk. pose proof Hk as (Hc & _). apply known_conns; [| |done].
  - intros c' k' Hk'. destruct (decide (c = c')) as [->|].
    + exists (f k'). by rewrite lookup_alter_eq, Hk'.
    + exists k'. by rewrite lookup_alter_ne.
  - intros c' k' Hk'. destruct (decide (c = c')) as [->|].
    + rewrite lookup_alter_eq in Hk'. destruct (conns h !! c') eqn:E; [|done]. simplify_eq/=. eauto.
    + rewrite lookup_alter_ne in Hk' by done. eauto.
Qed.

Lemma known_threads h ts :
  (forall tid p, ts !! tid = Some p -> Forall (instr_known h) p) -> known h -> known (with_threads h ts).
Proof. intros Hts (H1 & _ & H3). by split; [|split]. Qed.

Lemma known_spawn h p : known h -> Forall (instr_known h) p -> known (spawn h p).
Proof.
  intros Hk Hp. pose proof Hk as (_ & Ht & _). apply known_threads; [|done].
  intros tid p' [Hp'|[_ Hp']]%lookup_app_Some; [by eapply Ht|].
  by apply list_lookup_singleton_Some in Hp' as [_ <-].
Qed.

(** What a handler starts with needs no knowledge but that its connection is
    there. *)
Lemma starts_known h p :
  Forall (fun i => is_Some (conns h !! conn_of i) /\ forall acc, instr_ok (mgr h) acc i) p -> Forall (instr_known h) p.
Proof. intros Hp. eapply Forall_impl; [exact Hp|]. intros i ([k Hk] & Hi). by exists k. Qed.

Lemma snapshot_in h cs c : snapshot h cs = true -> c ∈ cs -> c ∈ registered h.
Proof. unfold snapshot. intros <-%bool_decide_eq_true ?. by apply elem_of_list_to_set. Qed.

Lemma snapshot_known h cs : known h -> snapshot h cs = true -> Forall (fun c => is_Some (conns h !! c)) cs.
Proof. intros (_ & _ & _ & Hr) Hs. apply Forall_forall. intros c Hc. by eapply Hr, snapshot_in. Qed.

Lemma handle_message_known h c msg : is_Some (conns h !! c) -> Forall (instr_known h) (handle_message c msg).
Proof.
  intros Hc. apply starts_known. destruct msg as [msg|]; [|by repeat constructor]. simpl. unfold route.
  repeat (case_bool_decide as Heq; [by repeat constructor|clear Heq]). constructor.
Qed.

Lemma onStatusChange_known h ev cs :
  Forall (fun c => is_Some (conns h !! c)) cs -> Forall (instr_known h) (onStatusChange ev cs).
Proof.
  intros Hc. apply starts_known. unfold onStatusChange.
  induction Hc as [|c cs Hs _ IH]; [constructor|]. simpl. apply Forall_app. split; [|done].
  destruct (_ || _); by repeat constructor.
Qed.

Lemma IIfAttached_known h sid b cs :
  Forall (fun c => is_Some (conns h !! c)) cs -> Forall (instr_known h) (map (fun c => IIfAttached c sid b) cs).
Proof. intros Hc. apply starts_known. induction Hc; by constructor. Qed.

Lemma SendToAccount_known h acc msg cs : Forall (instr_known h) (SendToAccount h acc msg cs).
Proof.
  apply Forall_forall. intros i (c & _ & Hi)%list_elem_of_omap. destruct (conns h !! c) as [k|] eqn:Hk; [|done].
  simpl in Hi. case_bool_decide; simplify_eq. by exists k.
Qed.

Lemma write_ok m k : conn_ok m k -> conn_ok m (write k).
Proof.
  intros Hk. pose proof Hk as (H1 & H2 & H3). unfold write. destruct (out k) as [|f q] eqn:E; [done|]. split; [|split]; simpl in *; [lia| |done].
  by rewrite <- app_assoc.
Qed.

Lemma close_ok m k : conn_ok m k -> conn_ok m (close k).
Proof. by intros (H1 & H2 & H3). Qed.

Lemma newConn_ok m acc tid : conn_ok m (newConn acc tid).
Proof. split; [simpl; lia|]. split; [constructor|]. simpl. set_solver. Qed.

Lemma known_run h tid i p e h' q :
  known h -> bounded (mgr h) -> threads h !! tid = Some (i :: p) -> run_instr h tid i e = Some (h', q) ->
  known (with_threads h' (<[tid := q ++ p]> (threads h'))).
Proof.
  intros Hkn Hb Hth E. pose proof Hkn as (Hc & Ht & Hx & Hr).
  destruct (run_instr_effect _ _ _ _ _ _ E) as (k & Hk & Hcs & Hm & Hreg & Hts & Hcalls & _).
  pose proof (Ht _ _ Hth) as [(k' & Hk' & Hi) Hp]%Forall_cons. simplify_eq.
  destruct (after_ok _ tid _ _ (Hc _ _ Hk) Hi) as [Hok Ha].
  assert (Hsame : same_accounts h h').
  { split; [done|]. rewrite Hcs. intros c k' Hk'. destruct (decide (conn_of i = c)) as [<-|].
    - exists (after tid i k). rewrite lookup_insert_eq. split; [done|]. congruence.
    - exists k'. by rewrite lookup_insert_ne. }
  split; [|split; [|split]]; simpl; rewrite ?Hts, ?Hm, ?Hcalls, ?Hreg.
  - rewrite Hcs. intros c k' [[<- <-]|[_ Hk']]%lookup_insert_Some; [done|by eapply Hc].
  - intros tid' p' [(<- & <- & _)|[_ Hp']]%list_lookup_insert_Some.
    + apply Forall_app. split.
      * eapply Forall_impl; [exact (run_instr_known _ _ _ _ _ _ _ E Hk (Hc _ _ Hk) Hi Hb)|]. intros j [Hj Hjok].
        exists (after tid i k). simpl. rewrite Hj, Hcs, lookup_insert_eq, Hm, Ha. done.
      * eapply Forall_impl; [exact Hp|]. intros j. by apply (instr_known_conns h h').
    + eapply Forall_impl; [by eapply Ht|]. intros j. by apply (instr_known_conns h h').
  - apply Forall_app. split.
    + eapply Forall_impl; [exact Hx|]. intros x. by apply (call_ok_conns h h').
    + destruct Hsame as [_ Hsame]. destruct (Hsame _ _ Hk) as (k2 & Hk2 & Ha2).
      destruct i; simpl in *; repeat constructor; exists k2; simpl; rewrite Hm, Ha2; done.
  - intros c Hcr. destruct (Hr c Hcr) as [k' Hk']. destruct Hsame as [_ Hsame].
    destruct (Hsame _ _ Hk') as (k2 & ? & _). by eexists.
Qed.

Lemma step_known h l : known h -> bounded (mgr h) -> known (hub_step h l).
Proof.
  intros Hk Hb. destruct l; simpl.
  - destruct (conns h !! c) eqn:E; [done|]. pose proof Hk as (Hc & _).
    assert (Hk2 : known (with_conns h (<[c:=newConn acc (length (threads h))]> (conns h)))).
    { apply known_conns; [| |done].
      - intros c' k' Hk'. exists k'. rewrite lookup_insert_ne by congruence. done.
      - intros c' k' [[<- <-]|[_ Hk']]%lookup_insert_Some; [apply newConn_ok|by eapply Hc]. }
    apply known_spawn.
    + destruct Hk2 as (A & B & C & D). split; [done|]. split; [done|]. split; [done|]. simpl.
      intros c' Hc'. destruct (decide (c = c')) as [->|]; [by rewrite lookup_insert_eq; eexists|].
      apply D. set_solver.
    + apply starts_known. repeat constructor. simpl. rewrite lookup_insert_eq. by eexists.
  - destruct (conns h !! c) as [k|] eqn:E; [|done]. destruct (threads h !! loop k) as [[|]|] eqn:Et; try done.
    apply known_threads; [|done]. pose proof Hk as (_ & Ht & _).
    intros tid' p' [(<- & <- & _)|[_ Hp']]%list_lookup_insert_Some; [|by eapply Ht].
    apply handle_message_known. by eexists.
  - pose proof (known_upd h c close ltac:(done) ltac:(apply close_ok) Hk) as (A & B & C & D).
    split; [done|]. split; [done|]. split; [done|]. simpl. intros c' Hc'. apply D. simpl. set_solver.
  - apply known_upd; [|intros; by apply write_ok|done]. intros k. unfold write. by destruct (out k).
  - destruct (snapshot h cs) eqn:E; [|done]. apply known_spawn; [done|]. by apply onStatusChange_known, snapshot_known.
  - destruct (snapshot h cs) eqn:E; [|done]. apply known_spawn; [done|]. by apply IIfAttached_known, snapshot_known.
  - destruct (snapshot h cs) eqn:E; [|done]. apply known_spawn; [done|]. by apply IIfAttached_known, snapshot_known.
  - destruct (snapshot h cs) eqn:E; [|done]. apply known_spawn; [done|]. apply SendToAccount_known.
  - destruct (threads h !! tid) as [[|i p]|] eqn:E; try done.
    destruct (run_instr h tid i e) as [[h' q]|] eqn:Er; [|done]. by eapply known_run.
Qed.

(** ** The frames a client gets *)

Definition enq k : list frame := delivered k ++ out k.

(** What the holder of the lock has left to do, and the frame it is about to
    queue, with the offset already recorded. *)
Definition hold_prog h k : list instr :=
  match flushMu k with Some tid => default [] (threads h !! tid) | None => [] end.

Definition pend p : list frame :=
  match p with IEnqueue _ f :: _ => if ordered f then [f] else [] | _ => [] end.

Definition seen k p : list frame := enq k ++ (if closed k then [] else pend p).

(** The client of a session the connection is attached to is attached too, and
    has reached the recorded offset. *)
Definition link k (sid : string) (st : cstate) : Prop :=
  closed k = false -> sid ∈ attached k ->
  exists v o, st = Attached v /\ lastOffset k !! sid = Some o /\ (forall t o', v = Some (t, o') -> o' = o).

Definition order_ok k p : Prop := forall sid, exists st, received sid (seen k p) = Some st /\ link k sid st.

(** What the holder has read stays so while it holds the lock. *)
Definition head_ok k p : Prop :=
  match p with
  | IFlushBuf _ sid lst :: _ => closed k = false -> sid ∈ attached k /\ lastOffset k !! sid = Some lst
  | IFlushSet _ sid d off reset :: _ =>
      closed k = false -> sid ∈ attached k /\
      exists lst, lastOffset k !! sid = Some lst /\ (reset = false -> off - zlen d = lst)
  | _ => True
  end.

Definition order_inv h : Prop :=
  forall c k, conns h !! c = Some k -> order_ok k (hold_prog h k) /\ head_ok k (hold_prog h k).

Lemma early_pend p : early p -> pend p = [].
Proof. destruct 1 as [|i p Hi _]; [done|]. destruct i; try done. simpl in *. by rewrite Hi. Qed.

Lemma early_head k p : early p -> head_ok k p.
Proof. destruct 1 as [|i p Hi _]; [done|]. by destruct i. Qed.

Lemma order_early k p p' : pend p = [] -> pend p' = [] -> order_ok k p -> order_ok k p'.
Proof. unfold order_ok, seen. by intros -> ->. Qed.

(** Queueing one frame. *)
Lemma enqueueLocked_cases k f :
  (closed k = true /\ enqueueLocked k f = (k, true)) \/
  (closed k = false /\ enqueueLocked k f = (set_queue k (out k ++ [f]) false (delivered k), true)) \/
  (closed k = false /\ enqueueLocked k f = (set_queue k (out k) true (delivered k), false)).
Proof. unfold enqueueLocked. destruct (closed k); [by left|]. destruct (_ <? _)%nat; auto. Qed.

Lemma enq_push k f : enq (set_queue k (out k ++ [f]) false (delivered k)) = enq k ++ [f].
Proof. unfold enq. simpl. by rewrite app_assoc. Qed.

(** A neutral frame of another goroutine comes before the pending one. *)
Lemma order_neutral k p f : neutral f = true -> order_ok k p -> order_ok (enqueue k f) p.
Proof.
  intros Hf Ho sid. destruct (Ho sid) as (st & Hr & Hl). unfold enqueue, seen in *.
  destruct (enqueueLocked_cases k f) as [[Hc ->]|[[Hc ->]|[Hc ->]]]; simpl.
  - exists st. by rewrite Hc in *.
  - rewrite enq_push, <- app_assoc. simpl. rewrite received_neutral by done. rewrite Hc in Hr.
    exists st. split; [done|]. intros _. by apply Hl.
  - rewrite app_nil_r. change (enq (set_queue k (out k) true (delivered k))) with (enq k).
    rewrite Hc in Hr. destruct (received_prefix _ _ _ _ Hr) as [st' ->]. by exists st'.
Qed.

Lemma head_neutral k p f : head_ok k p -> head_ok (enqueue k f) p.
Proof.
  unfold enqueue. destruct (enqueueLocked_cases k f) as [[Hc ->]|[[Hc ->]|[Hc ->]]]; simpl; [done| |].
  - destruct p as [|i p]; [done|]. destruct i; try done; simpl; by rewrite Hc.
  - destruct p as [|i p]; [done|]. by destruct i.
Qed.

(** Changes of what is controlled do not matter. *)
Lemma order_control k p co : order_ok k p -> order_ok (set_state k (attached k) co (lastOffset k)) p.
Proof. done. Qed.

Lemma head_control k p co : head_ok k p -> head_ok (set_state k (attached k) co (lastOffset k)) p.
Proof. by destruct p as [|[] ?]. Qed.

(** A goroutine that does not hold the lock, and does not take it. *)
Definition bystander i : Prop :=
  match i with
  | ILock _ | IUnlock _ | IFlushRead _ _ | IFlushBuf _ _ _ | IFlushSet _ _ _ _ _ | IDetach _ _ _
  | IAttachSet _ _ _ _ _ => False
  | IEnqueue _ f => neutral f = true
  | _ => True
  end.

Lemma bystander_ok tid i k p :
  bystander i -> order_ok k p -> head_ok k p -> order_ok (after tid i k) p /\ head_ok (after tid i k) p.
Proof.
  intros Hb Ho Hh. destruct i; try done;
    first [by split; [apply order_neutral|apply head_neutral]
          |by split; [apply order_control|apply (head_control k)]].
Qed.

(** The holder's own actions. *)
Lemma order_same_seen k k' p p' :
  (forall sid st, received sid (seen k p) = Some st -> link k sid st ->
     exists st', received sid (seen k' p') = Some st' /\ link k' sid st') ->
  order_ok k p -> order_ok k' p'.
Proof. intros Hs Ho sid. destruct (Ho sid) as (st & Hr & Hl). by eapply Hs. Qed.

Lemma ReadFrom_start s b off :
  repr s b -> fr_Reset (ReadFrom b (Some off)) = false ->
  fr_Offset (ReadFrom b (Some off)) - zlen (fr_Data (ReadFrom b (Some off))) = off.
Proof.
  intros Hr. pose proof (repr_cur _ _ Hr) as Hcur. unfold CurrentOffset in Hcur. destruct Hr.
  unfold ReadFrom. rewrite Hcur. destruct (off =? zlen s) eqn:E; bool_to_prop; simpl; [intros; lia|].
  destruct (_ || _) eqn:E2; simpl; [done|]. bool_to_prop. intros _. rewrite length_drop. lia.
Qed.

Lemma enqueue_ordered c k f p :
  ordered f = true -> early p -> order_ok k (IEnqueue c f :: p) -> order_ok (enqueue k f) p.
Proof.
  intros Hf Hp Ho sid. destruct (Ho sid) as (st & Hr & Hl). unfold enqueue, seen in *. rewrite (early_pend p Hp).
  simpl pend in Hr. rewrite Hf in Hr.
  destruct (enqueueLocked_cases k f) as [[Hc ->]|[[Hc ->]|[Hc ->]]]; simpl; rewrite Hc in *; rewrite ?app_nil_r in *.
  - exists st. split; [done|]. intros Hn. congruence.
  - rewrite enq_push. exists st. split; [done|]. intros _. by apply Hl.
  - change (enq (set_queue k (out k) true (delivered k))) with (enq k).
    destruct (received_prefix _ _ _ _ Hr) as [st' ->]. by exists st'.
Qed.

Lemma set_order c k sid d off reset p :
  head_ok k (IFlushSet c sid d off reset :: p) -> order_ok k (IFlushSet c sid d off reset :: p) ->
  order_ok (after 0 (IFlushSet c sid d off reset) k) (IEnqueue c (FOutput sid d off reset) :: p).
Proof.
  intros Hh Ho s. destruct (Ho s) as (st & Hr & Hl). unfold seen in *. simpl in *.
  change (enq (set_state k _ _ _)) with (enq k). destruct (closed k) eqn:Hc.
  { exists st. split; [done|]. intros Hn. simpl in Hn. congruence. }
  rewrite app_nil_r in Hr. rewrite received_snoc, Hr. simpl. destruct (Hh eq_refl) as (Ha & lst & Hlst & Hstart).
  case_bool_decide as Heq.
  - subst s. destruct (Hl Hc Ha) as (v & o & -> & Ho' & Hv). rewrite Hlst in Ho'. simplify_eq.
    destruct v as [[t o']|].
    + rewrite (Hv _ _ eq_refl). destruct reset.
      * eexists. split; [done|]. intros _ _. eexists _, _. split; [done|]. simpl. rewrite lookup_insert_eq.
        split; [done|]. by intros ? ? [= <-].
      * rewrite Hstart, bool_decide_true by done.
        eexists. split; [done|]. intros _ _. eexists _, _. split; [done|]. simpl. rewrite lookup_insert_eq.
        split; [done|]. by intros ? ? [= <-].
    + eexists. split; [done|]. intros _ _. eexists _, _. split; [done|]. simpl. rewrite lookup_insert_eq.
      split; [done|]. by intros ? ? [= <-].
  - exists st. split; [done|]. intros _ Hs. destruct (Hl Hc Hs) as (v & o & -> & Ho' & Hv).
    exists v, o. split; [done|]. simpl. by rewrite lookup_insert_ne.
Qed.

Lemma detach_order c k sid notify p :
  early p -> order_ok k (IDetach c sid notify :: p) ->
  order_ok (fst (detachLocked k sid))
    ((if notify && isAttached k sid then [IEnqueue c (FClosed sid)] else []) ++ p).
Proof.
  intros Hp Ho s. destruct (Ho s) as (st & Hr & Hl). unfold seen in *. simpl in *.
  change (enq (set_state k _ _ _)) with (enq k). destruct (closed k) eqn:Hc.
  { exists st. split; [done|]. intros Hn. simpl in Hn. congruence. }
  rewrite app_nil_r in Hr.
  assert (Hlink : forall st', (s <> sid -> st' = st) ->
    link (set_state k (attached k ∖ {[sid]}) (controlled k ∖ {[sid]}) (delete sid (lastOffset k))) s st').
  { intros st' Heq _ Hs. simpl in Hs. apply elem_of_difference in Hs as [Hs Hne]. rewrite elem_of_singleton in Hne.
    rewrite (Heq Hne). destruct (Hl Hc Hs) as (v & o & -> & Ho' & Hv). exists v, o. simpl.
    by rewrite lookup_delete_ne. }
  destruct (notify && isAttached k sid) eqn:En; simpl.
  - rewrite received_snoc, Hr. simpl. apply andb_true_iff in En as [_ Ha%isAttached_true].
    case_bool_decide as Heq.
    + subst s. destruct (Hl Hc Ha) as (v & o & -> & _ & _). eexists. split; [done|]. by apply Hlink.
    + exists st. split; [done|]. by apply Hlink.
  - rewrite (early_pend p Hp), app_nil_r. exists st. split; [done|]. by apply Hlink.
Qed.

Lemma enqueue_frames_cases k fs :
  closed k = false ->
  let k' := enqueue_frames k fs in
  attached k' = attached k /\ lastOffset k' = lastOffset k /\
  ((closed k' = false /\ enq k' = enq k ++ fs) \/
   (closed k' = true /\ exists fs1 fs2, fs = fs1 ++ fs2 /\ enq k' = enq k ++ fs1)).
Proof.
  revert k. induction fs as [|f fs IH]; intros k Hc; simpl.
  - split; [done|]. split; [done|]. left. by rewrite app_nil_r.
  - destruct (enqueueLocked_cases k f) as [[Hc' ->]|[[_ ->]|[_ ->]]]; [congruence| |].
    + destruct (IH (set_queue k (out k ++ [f]) false (delivered k)) eq_refl) as (-> & -> & Hcase).
      rewrite enq_push in Hcase. split; [done|]. split; [done|].
      destruct Hcase as [[H1 H2]|(H1 & fs1 & fs2 & H2 & H3)]; [left|right]; (split; [done|]).
      * by rewrite H2, <- app_assoc.
      * exists (f :: fs1), fs2. split; [by rewrite H2|]. by rewrite H3, <- app_assoc.
    + split; [done|]. split; [done|]. right. split; [done|]. exists [], (f :: fs). by rewrite app_nil_r.
Qed.

Lemma enqueue_frames_closed k fs : closed k = true -> enqueue_frames k fs = k.
Proof.
  revert k. induction fs as [|f fs IH]; intros k Hc; simpl; [done|]. unfold enqueueLocked. rewrite Hc. by apply IH.
Qed.

Lemma link_attached k k' s st sid off :
  (s <> sid -> link k s st) -> closed k = false -> attached k' = {[sid]} ∪ attached k ->
  lastOffset k' = <[sid := off]> (lastOffset k) ->
  (s = sid -> exists v, st = Attached v /\ forall t o', v = Some (t, o') -> o' = off) -> link k' s st.
Proof.
  intros Hl Hc Ha Hlo Hs _. rewrite Ha, Hlo. intros Hin. destruct (decide (s = sid)) as [->|Hne].
  - destruct (Hs eq_refl) as (v & -> & Hv). exists v, off. by rewrite lookup_insert_eq.
  - rewrite lookup_insert_ne by done. apply (Hl Hne); [done|]. set_solver.
Qed.

(** The frames of an attach bring the client from any state to the offset that
    is recorded. *)
Lemma received_attach s l st sid off fs :
  received s l = Some st -> attach_shape sid off fs ->
  exists st', received s (l ++ fs) = Some st' /\ (s <> sid -> st' = st) /\
    (s = sid -> exists v, st' = Attached v /\ forall t o', v = Some (t, o') -> o' = off).
Proof.
  intros Hr (stt & mode & [->|(d & reset & ->)]); unfold received in *; rewrite replay_app, Hr; simpl;
    case_bool_decide as Heq; simpl; eexists; (split; [done|]); (split; [congruence|]); intros; subst;
    try congruence; eexists; (split; [done|]); by intros ? ? [= <-].
Qed.

Lemma attach_order c k sid control off fs p :
  early p -> attach_shape sid off fs -> order_ok k (IAttachSet c sid control off fs :: p) ->
  order_ok (attachWithCatchUp k sid control off fs) p.
Proof.
  intros Hp Hsh Ho s. destruct (Ho s) as (st & Hr & Hl). unfold seen in *. rewrite (early_pend p Hp). simpl in Hr.
  unfold attachWithCatchUp. set (k1 := set_state _ _ _ _).
  assert (Hr1 : received s (enq k1) = Some st) by (destruct (closed k); by rewrite app_nil_r in Hr).
  destruct (closed k) eqn:Hc.
  - rewrite enqueue_frames_closed by done. change (closed k1) with (closed k). rewrite Hc, app_nil_r.
    exists st. split; [done|]. intros Hn. change (closed k = false) in Hn. congruence.
  - destruct (enqueue_frames_cases k1 fs Hc) as (Ha & Hlo & Hcase).
    destruct (received_attach _ _ _ _ _ _ Hr1 Hsh) as (st' & Hr' & Hne & Heq).
    destruct Hcase as [[Hc' He]|(Hc' & fs1 & fs2 & Hfs & He)]; rewrite Hc', He, ?app_nil_r.
    + exists st'. split; [done|]. eapply link_attached; [|exact Hc|exact Ha|exact Hlo|exact Heq].
      intros Hs. by rewrite (Hne Hs).
    + rewrite Hfs, app_assoc in Hr'. destruct (received_prefix _ _ _ _ Hr') as [st2 ->]. exists st2.
      split; [done|]. intros Hn. congruence.
Qed.

Lemma head_facts k c sid lst m r d off reset p :
  bounded m -> mgr_ReadOutputFrom m sid (Some lst) = Some r ->
  d = fr_Data r -> off = fr_Offset r -> reset = fr_Reset r ->
  head_ok k (IFlushBuf c sid lst :: p) -> head_ok k (IFlushSet c sid d off reset :: p).
Proof.
  intros Hb Hr -> -> -> Hh Hc. destruct (Hh Hc) as [Ha Hl]. split; [done|]. exists lst. split; [done|].
  destruct (ReadOutputFrom_stream _ _ _ _ Hr (Hb sid)) as (b & Hrep & ->). by apply ReadFrom_start with (stream m sid).
Qed.

(** An action of the holder of the connection's lock. *)
Lemma holder_ok h tid i e h' q p k :
  run_instr h tid i e = Some (h', q) -> conns h !! conn_of i = Some k -> bounded (mgr h) ->
  instr_ok (mgr h) (accountID k) i -> wf_program (Some (conn_of i)) (i :: p) -> early p ->
  order_ok k (i :: p) -> head_ok k (i :: p) ->
  order_ok (after tid i k) (q ++ p) /\ head_ok (after tid i k) (q ++ p).
Proof.
  intros E Hk Hb Hi Hwf Hp Ho Hh. pose proof (early_pend p Hp) as Hpp.
  pose proof (fun k => early_head k p Hp) as Hhp.
  unfold run_instr in E. rewrite Hk in E.
  destruct i; destruct Hwf as [Hheld _]; simpl in Hheld; try discriminate Hheld; try (by destruct Hheld);
    simpl in E; run_cases; simplify_eq/=.
  - split; [|apply Hhp]. by eapply enqueue_ordered.
  - split; [|apply Hhp]. by apply (order_early k (IUnlock c :: p)).
  - split; [by apply (order_early k (IFlushRead c sid :: p))|]. intros Hc.
    assert (Ha : sid ∈ attached k) by (by apply isAttached_true). split; [done|].
    destruct (Ho sid) as (st & _ & Hl). by destruct (Hl Hc Ha) as (v & o & _ & -> & _).
  - split; [|apply Hhp]. by apply (order_early k (IFlushRead c sid :: p)).
  - split; [|apply Hhp]. by eapply order_early; [..|exact Ho].
  - split; [by eapply order_early; [..|exact Ho]|].
    by apply (head_facts k c sid _ _ _ _ _ _ p Hb E0 eq_refl eq_refl eq_refl).
  - split; [|apply Hhp]. by eapply order_early; [..|exact Ho].
  - split; [|done]. by apply (set_order c k sid data offset reset p).
  - split; [|done]. pose proof (detach_order c k sid notify p Hp Ho) as Hd. simpl in Hd. by rewrite E0 in Hd.
  - split; [|apply Hhp]. pose proof (detach_order c k sid notify p Hp Ho) as Hd. simpl in Hd. by rewrite E0 in Hd.
  - split; [|apply Hhp]. destruct Hi as (_ & _ & Hsh). by eapply attach_order.
Qed.

Lemma wf_held_conn c i p : wf_program (Some c) (i :: p) -> conn_of i = c.
Proof. destruct i; simpl; intros [Hh _]; try congruence. by destruct (ordered f); simplify_eq. Qed.

Lemma wf_free i p : wf_program None (i :: p) -> (exists c, i = ILock c) \/ bystander i.
Proof.
  destruct i; simpl; intros [Hh _]; try congruence; eauto. right. unfold ordered in Hh. by destruct (neutral f).
Qed.

Lemma order_inv_run h tid i p e h' q :
  lock_inv h -> known h -> bounded (mgr h) -> order_inv h ->
  threads h !! tid = Some (i :: p) -> run_instr h tid i e = Some (h', q) ->
  order_inv (with_threads h' (<[tid := q ++ p]> (threads h'))).
Proof.
  intros [Hl Hl2] (Hkc & Hkt & _) Hb Ho Hth E.
  destruct (run_instr_effect _ _ _ _ _ _ E) as (k & Hk & Hcs & _ & _ & Hts & _ & Hlock).
  destruct (Hl _ _ Hth) as (He & held & Hwf & _ & Hheld). simpl in He.
  pose proof (Hkt _ _ Hth) as [(k0 & Hk0 & Hi) _]%Forall_cons. rewrite Hk in Hk0. simplify_eq.
  pose proof (after_flushMu tid i k0) as Hfl. destruct (Ho _ _ Hk) as [Hok Hhead].
  assert (Hin : (tid < length (threads h))%nat) by (by eapply lookup_lt_Some).
  assert (Hother : forall t, t <> tid -> <[tid := q ++ p]> (threads h) !! t = threads h !! t).
  { intros t Ht. by rewrite list_lookup_insert_ne. }
  intros c k' Hk'. simpl in Hk'. rewrite Hcs in Hk'. unfold hold_prog. simpl. rewrite Hts.
  apply lookup_insert_Some in Hk' as [[<- <-]|[Hne Hk']].
  - destruct held as [c|].
    + pose proof (wf_held_conn _ _ _ Hwf) as <-.
      pose proof (proj2 (Hheld _ _ Hk) eq_refl) as Hf. unfold hold_prog in Hok, Hhead.
      rewrite Hf, Hth in Hok, Hhead. simpl in Hok, Hhead.
      destruct (holder_ok _ _ _ _ _ _ _ _ E Hk Hb Hi Hwf He Hok Hhead) as [H1 H2].
      rewrite Hfl. destruct i; try (destruct Hwf as [Hn _]; simpl in Hn; discriminate Hn);
        try (rewrite Hf, list_lookup_insert_eq by done; done).
      split; [|done]. simpl in *. unfold run_instr in E. simpl in E. rewrite Hk in E. simplify_eq/=. eapply order_early; [by apply early_pend|done|exact H1].
    + destruct (wf_free _ _ Hwf) as [[c ->]|Hby].
      * rewrite Hfl, list_lookup_insert_eq by done. simpl in Hk. unfold run_instr in E. simpl in E. rewrite Hk, Hlock in E. simplify_eq/=.
        split; [|by apply early_head]. unfold hold_prog in Hok. rewrite Hlock in Hok. simpl.
        eapply order_early; [..|exact Hok]; [done|by apply early_pend].
      * assert (Heq : flushMu (after tid i k0) = flushMu k0) by (rewrite Hfl; by destruct i).
        rewrite Heq. unfold hold_prog in *. destruct (flushMu k0) as [t|] eqn:Ef; [|by apply bystander_ok].
        rewrite Hother; [by apply bystander_ok|]. intros ->.
        pose proof (proj1 (Hheld _ _ Hk) Ef). done.
  - destruct (Ho _ _ Hk') as [H1 H2]. unfold hold_prog in H1, H2. destruct (flushMu k') as [t|] eqn:Ef; [|done].
    rewrite Hother; [done|]. intros ->. pose proof (proj1 (Hheld _ _ Hk') Ef) as ->.
    apply Hne. by apply wf_held_conn in Hwf.
Qed.

Lemma order_inv_threads h ts :
  order_inv h ->
  (forall c k t, conns h !! c = Some k -> flushMu k = Some t -> ts !! t = threads h !! t) ->
  order_inv (with_threads h ts).
Proof.
  intros Ho Hts c k Hk. destruct (Ho _ _ Hk) as [H1 H2]. unfold hold_prog in *. simpl.
  destruct (flushMu k) as [t|] eqn:Ef; [|done]. by rewrite (Hts _ _ _ Hk Ef).
Qed.

Lemma order_inv_spawn h p : lock_inv h -> order_inv h -> order_inv (spawn h p).
Proof.
  intros [_ Hl] Ho. apply order_inv_threads; [done|]. intros c k t Hk Hf.
  destruct (Hl _ _ _ Hk Hf) as [p' Hp']. rewrite Hp'. by apply lookup_app_l_Some.
Qed.

Lemma order_inv_upd h c f :
  (forall k p, order_ok k p -> head_ok k p -> order_ok (f k) p /\ head_ok (f k) p) ->
  (forall k, flushMu (f k) = flushMu k) -> order_inv h -> order_inv (upd h c f).
Proof.
  intros Hf Hfl Ho c' k' Hk'. simpl in Hk'. destruct (decide (c = c')) as [->|].
  - rewrite lookup_alter_eq in Hk'. destruct (conns h !! c') as [k|] eqn:E; [|done]. simplify_eq/=.
    destruct (Ho _ _ E). unfold hold_prog in *. rewrite Hfl. by apply Hf.
  - rewrite lookup_alter_ne in Hk' by done. by apply (Ho c').
Qed.

Lemma close_order k p : order_ok k p -> head_ok k p -> order_ok (close k) p /\ head_ok (close k) p.
Proof.
  intros Ho _. split; [|destruct p as [|i p]; [done|by destruct i]].
  intros s. destruct (Ho s) as (st & Hr & _). unfold seen in *. change (enq (close k)) with (enq k). simpl.
  rewrite app_nil_r. destruct (received_prefix _ _ _ _ Hr) as [st' ->]. by exists st'.
Qed.

Lemma write_order k p : order_ok k p -> head_ok k p -> order_ok (write k) p /\ head_ok (write k) p.
Proof.
  unfold write. destruct (out k) as [|f q] eqn:E; [done|]. intros Ho Hh. split; [|by destruct p as [|[] ?]].
  intros s. destruct (Ho s) as (st & Hr & Hl). exists st. split; [|done]. unfold seen, enq in *. simpl.
  rewrite E in Hr. by rewrite <- (app_assoc (delivered k)).
Qed.

Lemma step_order_inv h l :
  lock_inv h -> known h -> bounded (mgr h) -> order_inv h -> order_inv (hub_step h l).
Proof.
  intros Hl Hkn Hb Ho. destruct l; simpl.
  - destruct (conns h !! c) eqn:E; [done|]. apply (order_inv_spawn (with_registered (with_conns h _) _)).
    + apply (lock_inv_conns h); [done| |].
      * intros c' k' [[<- <-]|[_ Hk']]%lookup_insert_Some; [by right|left; by exists k'].
      * intros c' Hs. apply lookup_insert_is_Some'. by right.
    + intros c' k' Hk'. simpl in Hk'. apply lookup_insert_Some in Hk' as [[<- <-]|[_ Hk']]; [|by apply (Ho c')].
      split; [|done]. intros s. exists Detached. split; [done|]. intros _ Hin. simpl in Hin. set_solver.
  - destruct (conns h !! c) as [k|] eqn:E; [|done]. destruct (threads h !! loop k) as [[|]|] eqn:Et; try done.
    apply order_inv_threads; [done|]. intros c' k' t Hk' Hf. destruct (decide (loop k = t)) as [<-|];
      [|by rewrite list_lookup_insert_ne]. exfalso.
    destruct Hl as [Ht _]. destruct (Ht _ _ Et) as (_ & held & -> & _ & Hh). by apply (Hh _ _ Hk') in Hf.
  - apply (order_inv_upd h c close); [apply close_order|done|done].
  - apply order_inv_upd; [apply write_order|apply write_flushMu|done].
  - destruct (snapshot h cs); [|done]. by apply order_inv_spawn.
  - destruct (snapshot h cs); [|done]. by apply order_inv_spawn.
  - destruct (snapshot h cs); [|done]. by apply order_inv_spawn.
  - destruct (snapshot h cs); [|done]. by apply order_inv_spawn.
  - destruct (threads h !! tid) as [[|i p]|] eqn:E; try done.
    destruct (run_instr h tid i e) as [[h' q]|] eqn:Er; [|done]. by eapply order_inv_run.
Qed.

(** ** Every reachable hub *)

Definition hub_inv h : Prop := lock_inv h /\ known h /\ order_inv h.

Lemma hub_step_mgr h l : mgr (hub_step h l) = mgr h.
Proof.
  destruct l; simpl; try done; try (by destruct (snapshot h cs)).
  - by destruct (conns h !! c).
  - destruct (conns h !! c) as [k|]; [|done]. by destruct (threads h !! loop k) as [[|]|].
  - destruct (threads h !! tid) as [[|i p]|]; try done.
    destruct (run_instr h tid i e) as [[h' q]|] eqn:Er; [|done].
    by destruct (run_instr_effect _ _ _ _ _ _ Er) as (k & _ & _ & ? & _).
Qed.

Lemma bounded_back m m' : evolves m m' -> bounded m' -> bounded m.
Proof.
  intros He Hb sid. pose proof (prefix_length _ _ (stream_grows m m' sid He)). specialize (Hb sid). lia.
Qed.

Lemma reach_inv h : reach h -> bounded (mgr h) -> hub_inv h.
Proof.
  induction 1 as [m|h m Hr IH He|h l Hr IH]; intros Hb.
  - split; [|split].
    + split; [intros t ? Hp; by destruct t|intros ? ? ? Hk; simpl in Hk; by rewrite lookup_empty in Hk].
    + split; [intros ? ? Hk; simpl in Hk; by rewrite lookup_empty in Hk|].
      split; [intros t ? Hp; by destruct t|]. split; [constructor|]. intros c Hc. simpl in Hc. set_solver.
    + intros ? ? Hk; simpl in Hk; by rewrite lookup_empty in Hk.
  - destruct IH as (H1 & H2 & H3); [by eapply bounded_back|]. split; [done|]. split; [|done].
    by apply known_grows.
  - rewrite hub_step_mgr in Hb. destruct (IH Hb) as (H1 & H2 & H3).
    split; [by apply step_lock_inv|]. split; [by apply step_known|by apply step_order_inv].
Qed.

(** What a client has put together is a stretch of the session's stream. *)
Lemma received_text m acc sid l t o :
  Forall (frame_ok m acc) l -> received sid l = Some (Attached (Some (t, o))) -> at_offset (stream m sid) t o.
Proof.
  revert t o. induction l as [|f l IH] using rev_ind; intros t o Hf Hr; [done|].
  rewrite received_snoc in Hr. apply Forall_app in Hf as [Hl Hf]. apply Forall_cons in Hf as [Hf _].
  destruct (received sid l) as [st|] eqn:E; [|done]. simpl in Hr.
  assert (Hsame : st = Attached (Some (t, o)) -> at_offset (stream m sid) t o) by (intros ->; by apply IH).
  destruct f; simpl in Hr; try (by simplify_eq; apply Hsame);
    (case_bool_decide as Heq; [subst|by simplify_eq; apply Hsame]); [done| |by destruct st].
  destruct Hf as [_ Hat]. destruct st as [|[[t' o']|]]; [done| |by simplify_eq].
  destruct reset; [by simplify_eq|]. case_bool_decide as Hc; [|done]. simplify_eq.
  eapply at_offset_app; [by apply IH|done|done].
Qed.

End proofs.
