(* ===== verification/HubManager.v ===== *)
(** * The hub over the session registry

    The registry of [Terminal] keeps what the hub asks of its session manager:
    this file discharges the laws of [Hub.SessionManagerLaws] for every run of
    the registry in which no session id is used twice, and states what the hub
    promises its clients. *)
From S2P Require Import Prelude Buffer Terminal Hub.

(** ** Output streams of the registry *)

(** The chunk a step appends, and the session it belongs to. *)
Definition appended (m : Manager) (l : Terminal.label) : option (nat * list byte) :=
  match l with
  | Terminal.LRun tid e =>
      match Terminal.threads m !! tid with Some (PumpAppend r data) => Some (r, data) | _ => None end
  | _ => None
  end.

Definition chunk (m : Manager) (l : Terminal.label) (sid : string) : list byte :=
  match appended m l with
  | Some (r, data) =>
      match heap m !! r with
      | Some g => if bool_decide (SessionID (session g) = sid) then data else []
      | None => []
      end
  | None => []
  end.

Fixpoint stream_from (m : Manager) (ls : list Terminal.label) (sid : string) : list byte :=
  match ls with
  | [] => []
  | l :: ls => chunk m l sid ++ stream_from (Terminal.step m l) ls sid
  end.

Definition stream_of (max : Z) (ls : list Terminal.label) (sid : string) : list byte :=
  stream_from (NewManager max) ls sid.

Lemma stream_from_app m ls1 ls2 sid :
  stream_from m (ls1 ++ ls2) sid = stream_from m ls1 sid ++ stream_from (fold_left Terminal.step ls1 m) ls2 sid.
Proof. revert m. induction ls1 as [|l ls1 IH]; intros m; simpl; [done|]. by rewrite IH, app_assoc. Qed.

Lemma stream_snoc max ls l sid :
  stream_of max (ls ++ [l]) sid = stream_of max ls sid ++ chunk (run max ls) l sid.
Proof. unfold stream_of. rewrite stream_from_app. simpl. by rewrite app_nil_r. Qed.

(** ** The registered buffer holds the stream *)

(** A session's buffer after a step of a goroutine, as long as it stays
    registered. *)
Definition output_after (th : thread) (r : nat) (b : OutputBuffer) : OutputBuffer :=
  match th with
  | PumpAppend r' data => if bool_decide (r' = r) then Append b data else b
  | _ => b
  end.

(** Ids point to different objects. *)
Definition pointers (m : Manager) : Prop :=
  forall sid r, terminals m !! sid = Some r -> exists g, heap m !! r = Some g /\ SessionID (session g) = sid.

Lemma pointers_inj m sid sid' r : pointers m -> terminals m !! sid = Some r -> terminals m !! sid' = Some r -> sid = sid'.
Proof. intros Hp H1 H2. destruct (Hp _ _ H1) as (g & Hg & <-). destruct (Hp _ _ H2) as (g' & Hg' & <-). by simplify_eq. Qed.

Definition kept (m m' : Manager) (upd : nat -> OutputBuffer -> OutputBuffer) : Prop :=
  forall sid r g', terminals m' !! sid = Some r -> heap m' !! r = Some g' ->
    terminals m !! sid = Some r /\ exists g, heap m !! r = Some g /\ output g' = upd r (output g).

Lemma kept_refl m : kept m m (fun _ b => b).
Proof. intros sid r g'. eauto. Qed.

Lemma kept_upd m r0 f :
  (forall g, output (f g) = output g) -> kept m (Terminal.upd m r0 f) (fun _ b => b).
Proof.
  intros Hf sid r g' Hr Hg'. split; [done|]. simpl in Hg'. destruct (decide (r0 = r)) as [->|].
  - rewrite lookup_alter_eq in Hg'. destruct (heap m !! r) as [g|] eqn:E; [|done]. simplify_eq/=.
    exists g. by rewrite Hf.
  - rewrite lookup_alter_ne in Hg' by done. by exists g'.
Qed.

Lemma kept_status m r st reason m' ev : setStatus m r st reason = (m', ev) -> kept m m' (fun _ b => b).
Proof.
  unfold setStatus. destruct (heap m !! r) as [g|] eqn:E; [|intros; simplify_eq; apply kept_refl].
  destruct (absorbed _ _); intros; simplify_eq/=; [apply kept_refl|].
  intros sid r' g' Hr Hg'. split; [done|]. simpl in Hg'. destruct (decide (r = r')) as [->|].
  - rewrite lookup_alter_eq, E in Hg'. simplify_eq/=. by exists g.
  - rewrite lookup_alter_ne in Hg' by done. by exists g'.
Qed.

Lemma kept_closing m r reason m' ev : beginClosing m r reason = (m', ev) -> kept m m' (fun _ b => b).
Proof.
  unfold beginClosing. destruct (heap m !! r) as [g|] eqn:E; [|intros; simplify_eq; apply kept_refl].
  destruct (_ || _); intros; simplify_eq/=; [apply kept_refl|].
  intros sid r' g' Hr Hg'. split; [done|]. simpl in Hg'. destruct (decide (r = r')) as [->|].
  - rewrite lookup_alter_eq, E in Hg'. simplify_eq/=. by exists g.
  - rewrite lookup_alter_ne in Hg' by done. by exists g'.
Qed.

(** A removal clears the buffer of the entry it takes away, and only that. *)
Lemma kept_remove m sid m' did : pointers m -> removeEntry m sid = (m', did) -> kept m m' (fun _ b => b).
Proof.
  intros Hp. unfold removeEntry. destruct (terminals m !! sid) as [r|] eqn:E; intros; simplify_eq/=; [|apply kept_refl].
  intros sid' r' g' Hr Hg'. simpl in *. apply lookup_delete_Some in Hr as [Hne Hr]. split; [done|].
  destruct (decide (r = r')) as [->|].
  - exfalso. apply Hne. by eapply pointers_inj.
  - rewrite lookup_alter_ne in Hg' by done. by exists g'.
Qed.

Lemma run_thread_kept m th e m' th' new :
  pointers m -> run_thread m th e = Some (m', th', new) ->
  match th with CreateStart _ _ _ _ => True | _ => kept m m' (output_after th) end.
Proof.
  intros Hp H. unfold run_thread, create_step, close_step, pump_step, input_step in H.
  destruct th; simpl in H; run_cases; simplify_eq/=; try done; unfold output_after; try (by apply kept_refl);
    try (by eapply kept_status); try (by eapply kept_closing); try (by eapply kept_remove);
    try (by apply kept_upd); try (by intros sid r' g'; eauto).
  intros sid r' g' Hr Hg'. split; [done|]. simpl in Hg'. destruct (decide (r = r')) as [->|].
  - rewrite lookup_alter_eq in Hg'. destruct (heap m !! r') as [g|] eqn:E; [|done]. simplify_eq/=.
    exists g. by rewrite bool_decide_true.
  - rewrite lookup_alter_ne in Hg' by done. exists g'. by rewrite bool_decide_false.
Qed.

Lemma run_create_start m ep ex tr sid e m' th' new :
  run_thread m (CreateStart ep ex tr sid) e = Some (m', th', new) ->
  m' = m \/ exists now, terminals m' = <[sid := next_ref m]> (terminals m) /\
    heap m' = <[next_ref m := mkManaged (new_session now ep tr sid) false
                               (NewOutputBuffer (maxBufferSize m)) false false true]> (heap m).
Proof.
  unfold run_thread, create_step, register. destruct e; try done.
  destruct (negb _); [by intros; simplify_eq; left|]. destruct (destroyed m); intros; simplify_eq/=; [by left|].
  right. by eexists.
Qed.

(** The requests that sweep the registry only remove. *)
Lemma kept_remove_ids m ids : pointers m -> kept m (remove_ids m ids) (fun _ b => b).
Proof.
  unfold remove_ids. revert m. induction ids as [|id ids IH]; intros m Hp; simpl; [apply kept_refl|].
  destruct (removeEntry m id) as [m1 did] eqn:E. simpl. pose proof (kept_remove _ _ _ _ Hp E) as H1.
  assert (Hp1 : pointers m1).
  { intros sid r Hr. pose proof (removeEntry_later _ _ _ _ E) as Hl.
    apply removeEntry_frame in E as (_ & _ & Ht & _). rewrite Ht in Hr. apply lookup_delete_Some in Hr as [_ Hr].
    destruct (Hp _ _ Hr) as (g & Hg & Hid). destruct (Hl _ _ Hg) as (g' & Hg' & []). exists g'. split; [done|congruence]. }
  intros sid r g' Hr Hg'. destruct (IH m1 Hp1 sid r g' Hr Hg') as (Hr1 & g1 & Hg1 & ->).
  by apply H1.
Qed.

Lemma step_request_kept m l :
  pointers m -> (exists tid e, l = Terminal.LRun tid e) \/ kept m (Terminal.step m l) (fun _ b => b).
Proof.
  intros Hp. destruct l; try (left; by eauto); right; simpl; try (by intros sid' r' g'; eauto).
  - unfold SweepIdle. destruct (_ <=? _); [apply kept_refl|]. intros sid' r' g'; eauto.
  - unfold RemoveForAccount. simpl. by apply kept_remove_ids.
Qed.

(** ** The invariant *)

Definition unique (ls : list Terminal.label) : Prop := forall sid, (count_creates sid ls <= 1)%nat.

Lemma unique_prefix ls l : unique (ls ++ [l]) -> unique ls.
Proof.
  intros Hu sid. specialize (Hu sid). unfold count_creates in *. rewrite total_app in Hu. lia.
Qed.

Lemma run_thread_log m th e m' th' new :
  run_thread m th e = Some (m', th', new) -> exists os, log m' = log m ++ os.
Proof.
  intros H. unfold run_thread, create_step, close_step, pump_step, input_step in H.
  destruct th; simpl in H; run_cases; simplify_eq/=;
    repeat match goal with
      | E : setStatus _ _ _ _ = _ |- _ => apply setStatus_frame in E as (_ & _ & ->)
      | E : beginClosing _ _ _ = _ |- _ => apply beginClosing_frame in E as (_ & _ & ->)
      | E : removeEntry _ _ = _ |- _ => apply removeEntry_frame in E as (_ & -> & _)
      | E : register _ _ _ _ _ = _ |- _ => apply register_frame in E as (_ & -> & _)
      end; first [by eexists | exists []; by rewrite app_nil_r].
Qed.

(** Every object has been registered, objects have ids of their own, a stream
    belongs to an object, and a registered buffer holds its stream. *)
Record stream_inv (m : Manager) (stream : string -> list byte) : Prop := {
  si_log r g : heap m !! r = Some g -> (1 <= count_log (is_registered (SessionID (session g))) (log m))%nat;
  si_ids r r' g g' : heap m !! r = Some g -> heap m !! r' = Some g' ->
    SessionID (session g) = SessionID (session g') -> r = r';
  si_stream sid : stream sid <> [] -> exists r g, heap m !! r = Some g /\ SessionID (session g) = sid;
  si_repr sid r g : terminals m !! sid = Some r -> heap m !! r = Some g -> zlen (stream sid) < 2 ^ 62 ->
    repr (stream sid) (output g)
}.

(** Steps that only change what objects hold. *)
Lemma stream_inv_kept m m' s s' f :
  pointers m -> stream_inv m s -> kept m m' f -> heap_later (heap m) (heap m') ->
  (forall r g', heap m' !! r = Some g' -> exists g, heap m !! r = Some g /\ SessionID (session g') = SessionID (session g)) ->
  (exists os, log m' = log m ++ os) ->
  (forall sid, s' sid <> [] -> s sid <> [] \/ exists r g, heap m !! r = Some g /\ SessionID (session g) = sid) ->
  (forall sid r g, terminals m !! sid = Some r -> heap m !! r = Some g -> zlen (s' sid) < 2 ^ 62 ->
     repr (s' sid) (f r (output g))) ->
  stream_inv m' s'.
Proof.
  intros Hp [H1 H2 H3 H4] Hk Hl Hback [os Hlog] Hs Hr. constructor.
  - intros r g' Hg'. destruct (Hback _ _ Hg') as (g & Hg & ->). rewrite Hlog. specialize (H1 _ _ Hg).
    unfold count_log in *. rewrite List.filter_app, length_app. lia.
  - intros r r' g g' Hg Hg' Heq. destruct (Hback _ _ Hg) as (g0 & Hg0 & E0).
    destruct (Hback _ _ Hg') as (g1 & Hg1 & E1). eapply H2; [exact Hg0|exact Hg1|congruence].
  - intros sid Hne. destruct (Hs sid Hne) as [Hold|(r & g & Hg & Hid)].
    + destruct (H3 sid Hold) as (r & g & Hg & Hid). destruct (Hl _ _ Hg) as (g' & Hg' & []).
      exists r, g'. split; [done|congruence].
    + destruct (Hl _ _ Hg) as (g' & Hg' & []). exists r, g'. split; [done|congruence].
  - intros sid r g' Ht Hg' Hlen. destruct (Hk _ _ _ Ht Hg') as (Ht0 & g & Hg & ->). by apply Hr.
Qed.

Lemma run_pointers max ls : pointers (run max ls).
Proof. destruct (run_origins max ls) as (_ & _ & Hp). exact Hp. Qed.

Lemma chunk_other m l sid : appended m l = None -> chunk m l sid = [].
Proof. unfold chunk. by intros ->. Qed.

(** Creation: the id has never been used. *)
Lemma stream_inv_register m m' s s' ep tr sid now :
  pointers m -> stream_inv m s -> (forall r, is_Some (heap m !! r) -> (r < next_ref m)%nat) ->
  terminals m' = <[sid := next_ref m]> (terminals m) ->
  heap m' = <[next_ref m := mkManaged (new_session now ep tr sid) false
                             (NewOutputBuffer (maxBufferSize m)) false false true]> (heap m) ->
  log m' = log m ++ [Registered sid] -> count_log (is_registered sid) (log m) = 0%nat ->
  (forall x, s' x = s x) -> stream_inv m' s'.
Proof.
  intros Hp [H1 H2 H3 H4] Hfr Ht Hh Hlog H0 Hs.
  assert (Hno : forall r g, heap m !! r = Some g -> SessionID (session g) <> sid).
  { intros r g Hg <-. specialize (H1 _ _ Hg). lia. }
  constructor; rewrite ?Ht, ?Hh, ?Hlog.
  - intros r g [[<- <-]|[_ Hg]]%lookup_insert_Some; rewrite count_log_snoc; simpl.
    + rewrite bool_decide_true by done. lia.
    + specialize (H1 _ _ Hg). lia.
  - intros r r' g g' [[<- <-]|[Hne Hg]]%lookup_insert_Some [[<- <-]|[Hne' Hg']]%lookup_insert_Some Heq; simpl in *.
    + done.
    + exfalso. by apply (Hno _ _ Hg').
    + exfalso. by apply (Hno _ _ Hg).
    + by eapply H2.
  - intros x Hx. rewrite Hs in Hx. destruct (H3 x Hx) as (r & g & Hg & Hid). exists r, g. split; [|done].
    rewrite lookup_insert_ne; [done|]. intros <-. specialize (Hfr _ (ex_intro _ _ Hg)). lia.
  - intros x r g Hx Hg Hlen. rewrite Hs in *. apply lookup_insert_Some in Hx as [[<- <-]|[Hne Hx]].
    + rewrite lookup_insert_eq in Hg. simplify_eq/=. destruct (s sid) as [|b s0] eqn:E; [apply repr_new|].
      destruct (H3 sid) as (r & g & Hg & Hid); [by rewrite E|]. by destruct (Hno _ _ Hg).
    + apply lookup_insert_Some in Hg as [[<- <-]|[_ Hg]]; [|by eapply H4].
      destruct (Hp _ _ Hx) as (g & Hg & _). specialize (Hfr _ (ex_intro _ _ Hg)). lia.
Qed.

(** A goroutine's step, and the chunk it appends. *)
Lemma output_after_chunk m tid th e s sid r g :
  pointers m -> stream_inv m s -> Terminal.threads m !! tid = Some th ->
  terminals m !! sid = Some r -> heap m !! r = Some g ->
  zlen (s sid ++ chunk m (Terminal.LRun tid e) sid) < 2 ^ 62 ->
  repr (s sid ++ chunk m (Terminal.LRun tid e) sid) (output_after th r (output g)).
Proof.
  intros Hp [H1 H2 H3 H4] Hth Ht Hg Hlen.
  destruct (Hp _ _ Ht) as (g0 & Hg0 & Hid). rewrite Hg in Hg0. simplify_eq.
  assert (Hold : repr (s (SessionID (session g0))) (output g0)).
  { apply (H4 _ r g0); [done|done|]. rewrite length_app in Hlen. lia. }
  unfold chunk, appended in *. rewrite Hth in *.
  destruct th; rewrite ?app_nil_r in *; simpl; try done.
  destruct (heap m !! r0) as [g1|] eqn:E1.
  - case_bool_decide as Hid; case_bool_decide as Hr; subst; rewrite ?app_nil_r in *; simplify_eq; try done.
    + by apply repr_append.
    + exfalso. apply Hr. by eapply H2.
  - rewrite app_nil_r in *. rewrite bool_decide_false by congruence. done.
Qed.

Lemma log_create m ep ex tr sid e m' th' new :
  run_thread m (CreateStart ep ex tr sid) e = Some (m', th', new) -> m' <> m -> log m' = log m ++ [Registered sid].
Proof.
  unfold run_thread, create_step, register. destruct e; try done.
  destruct (negb _); [by intros; simplify_eq|]. by destruct (destroyed m); intros; simplify_eq/=.
Qed.

Lemma step_stream_inv_request ls max l :
  (forall tid e, l <> Terminal.LRun tid e) -> let m := run max ls in
  stream_inv m (stream_of max ls) -> stream_inv (Terminal.step m l) (stream_of max (ls ++ [l])).
Proof.
  intros Hl m Hi. pose proof (run_pointers max ls) as Hp. fold m in Hp.
  destruct (step_request m l) as [(tid & e & ->)|(Hlater & _ & Hback & Hlog)]; [by destruct (Hl tid e)|].
  destruct (step_request_kept m l Hp) as [(tid & e & ->)|Hk]; [by destruct (Hl tid e)|].
  assert (Hsame : forall sid, stream_of max (ls ++ [l]) sid = stream_of max ls sid).
  { intros. rewrite stream_snoc, chunk_other; [by rewrite app_nil_r|]. destruct l; try done. by destruct (Hl tid e). }
  eapply (stream_inv_kept _ _ _ _ _ Hp Hi Hk Hlater).
  - intros r g' Hg'. destruct (Hback _ _ Hg') as (g & Hg & Hs & _). exists g. by rewrite Hs.
  - exists []. by rewrite app_nil_r.
  - intros sid. rewrite Hsame. by left.
  - intros sid r g Ht Hg. rewrite Hsame. by eapply si_repr.
Qed.

(** Objects are not renamed, and only a creation adds one. *)
Lemma run_thread_back m th e m' th' new :
  Terminal.wf_refs m -> good_thread th -> run_thread m th e = Some (m', th', new) ->
  match th with CreateStart _ _ _ _ => m' = m | _ => True end ->
  forall r g', heap m' !! r = Some g' ->
    exists g, heap m !! r = Some g /\ SessionID (session g') = SessionID (session g).
Proof.
  intros Hwf Hgood E Hth r g' Hg'.
  assert (Hs : is_Some (heap m !! r)).
  { destruct (run_thread_terminals _ _ _ _ _ _ E) as
      [(ep & ex & tr & sid & now & -> & _ & _ & _ & _ & Hg & _)|[(_ & _ & Hi)|(_ & _ & Hi)]].
    - subst m'. by eexists.
    - apply Hi. by eexists.
    - apply Hi. by eexists. }
  destruct Hs as [g Hg]. exists g. split; [done|].
  destruct (run_thread_later _ _ _ _ _ _ Hwf Hgood E r g Hg) as (g1 & Hg1 & []). congruence.
Qed.

Lemma step_stream_inv_run ls max tid e :
  unique (ls ++ [Terminal.LRun tid e]) -> let m := run max ls in
  stream_inv m (stream_of max ls) ->
  stream_inv (run_tid m tid e) (stream_of max (ls ++ [Terminal.LRun tid e])).
Proof.
  intros Hu m Hi. pose proof (run_pointers max ls) as Hp. fold m in Hp.
  destruct (manager_run_inv max ls) as [Hwf Hgood]. fold m in Hwf, Hgood.
  pose proof (fun sid => stream_snoc max ls (Terminal.LRun tid e) sid) as Hsn. fold m in Hsn.
  unfold run_tid. destruct (Terminal.threads m !! tid) as [th|] eqn:Hth.
  2: { destruct Hi. constructor; try done; intros sid; rewrite Hsn, chunk_other, app_nil_r by (simpl; by rewrite Hth); eauto. }
  rewrite Forall_lookup in Hgood. pose proof (Hgood _ _ Hth) as Hg.
  destruct (run_thread m th e) as [[[m' th'] new]|] eqn:E.
  2: { destruct Hi. assert (Hn : forall sid, chunk m (Terminal.LRun tid e) sid = []).
       { intros sid. apply chunk_other. simpl. rewrite Hth. by destruct th. }
       constructor; try done; intros sid; rewrite Hsn, Hn, app_nil_r; eauto. }
  enough (Hgoal : stream_inv m' (stream_of max (ls ++ [Terminal.LRun tid e]))) by (by destruct Hgoal; constructor).
  pose proof (run_thread_later _ _ _ _ _ _ Hwf Hg E) as Hlater.
  pose proof (run_thread_log _ _ _ _ _ _ E) as Hlog.
  assert (Hother : kept m m' (output_after th) -> match th with CreateStart _ _ _ _ => m' = m | _ => True end ->
    stream_inv m' (stream_of max (ls ++ [Terminal.LRun tid e]))).
  { intros Hk Hst. eapply (stream_inv_kept _ _ _ _ _ Hp Hi Hk Hlater (run_thread_back _ _ _ _ _ _ Hwf Hg E Hst) Hlog).
    - intros sid. rewrite Hsn. unfold chunk, appended. rewrite Hth.
      destruct th; rewrite ?app_nil_r; auto. destruct (heap m !! r) as [g0|] eqn:E0; rewrite ?app_nil_r; auto.
      case_bool_decide as Hid; rewrite ?app_nil_r; eauto.
    - intros sid r g Ht Hg0. rewrite Hsn. by eapply output_after_chunk. }
  pose proof (run_thread_kept _ _ _ _ _ _ Hp E) as Hk.
  destruct th; try (by apply Hother).
  destruct (run_create_start _ _ _ _ _ _ _ _ _ E) as [->|(now & Ht & Hh)].
  - apply Hother; [|done]. apply kept_refl.
  - eapply (stream_inv_register m m' (stream_of max ls)); [done|done|exact Hwf|exact Ht|exact Hh| | |].
    + apply (log_create _ _ _ _ _ _ _ _ _ E). intros ->.
      assert (next_ref m < next_ref m)%nat; [|lia]. apply Hwf. rewrite Hh, lookup_insert_eq. by eexists.
    + destruct (run_counted sid max ls) as (_ & Hr & _). fold m in Hr. unfold to_register in Hr.
      pose proof (unique_prefix _ _ Hu sid) as Hu1. pose proof (total_lookup (creates sid) _ _ _ Hth) as Hc.
      assert (creates sid (CreateStart ep expectedAccountID tr sid) = 1%nat)
        by (unfold creates; simpl; by rewrite bool_decide_true).
      lia.
    + intros x. rewrite Hsn, chunk_other, app_nil_r; [done|]. simpl. by rewrite Hth.
Qed.

Lemma run_stream_inv max ls : unique ls -> stream_inv (run max ls) (stream_of max ls).
Proof.
  induction ls as [|l ls IH] using rev_ind; intros Hu.
  - constructor; try (intros; simplify_map_eq); try done.
  - specialize (IH (unique_prefix _ _ Hu)). rewrite run_snoc.
    destruct l; try (by apply step_stream_inv_request). by apply step_stream_inv_run.
Qed.

(** ** The registry is a session manager *)

#[export] Instance Manager_SessionManager : SessionManager Manager := {
  mgr_GetSession := GetSession;
  mgr_ReadOutputFrom := ReadOutputFrom;
  mgr_ListForAccount := ListForAccount
}.

(** A run of the registry in which no id is created twice. *)
Record history := mkHistory {
  h_max : Z;
  h_labels : list Terminal.label;
  h_unique : unique h_labels
}.

Definition state_of (x : history) : Manager := run (h_max x) (h_labels x).

#[export] Instance history_SessionManager : SessionManager history := {
  mgr_GetSession x := GetSession (state_of x);
  mgr_ReadOutputFrom x := ReadOutputFrom (state_of x);
  mgr_ListForAccount x := ListForAccount (state_of x)
}.

Definition history_step (x y : history) : Prop :=
  h_max y = h_max x /\ exists l, h_labels y = h_labels x ++ [l].

(** The account that asked for a session. *)
Definition requested (x : history) (sid acc : string) : Prop :=
  exists ep tr, LCreate ep acc tr sid ∈ h_labels x /\ ep_AccountID ep = acc.

Lemma requested_session x sid s : GetSession (state_of x) sid = Some s -> requested x sid (AccountID s).
Proof.
  unfold GetSession, lookup_session, get, state_of. destruct (run_origins (h_max x) (h_labels x)) as (_ & Hheap & Hterm).
  destruct (terminals (run _ _) !! sid) as [r|] eqn:Er; [|done]. simpl.
  destruct (heap (run _ _) !! r) as [g|] eqn:Eg; [|done]. simpl. intros [= <-].
  destruct (Hterm sid r Er) as (g' & Hg' & Hid). simplify_eq.
  destruct (Hheap r _ Eg) as (ep & ex & tr & Hin & He & Ha & _). exists ep, tr.
  rewrite Ha. by split.
Qed.

Lemma requested_list x acc s : s ∈ ListForAccount (state_of x) acc -> requested x (SessionID s) acc.
Proof.
  unfold ListForAccount, state_of. destruct (run_origins (h_max x) (h_labels x)) as (_ & Hheap & _).
  intros ((sid & g) & -> & Hin)%list_elem_of_fmap. simpl.
  apply list_elem_of_In, filter_In in Hin as [Hin Hacc]. simpl in Hacc.
  apply andb_true_iff in Hacc as [Hacc%bool_decide_eq_true _].
  apply list_elem_of_In in Hin. unfold sessions in Hin.
  apply list_elem_of_omap in Hin as ((sid' & r) & _ & Hr). simpl in Hr.
  destruct (heap (run _ _) !! r) as [g'|] eqn:Eg; simplify_eq/=.
  destruct (Hheap r _ Eg) as (ep & ex & tr & Hl & He & Ha & _). exists ep, tr.
  by rewrite Ha.
Qed.

#[export] Program Instance history_laws : SessionManagerLaws history := {
  evolves := history_step;
  stream x := stream_of (h_max x) (h_labels x);
  owned := requested
}.
Next Obligation. intros x y sid [Hm [l Hl]]. rewrite Hm, Hl, stream_snoc. by eexists. Qed.
Next Obligation.
  intros x y sid acc [_ [l Hl]] (ep & tr & Hin & He). exists ep, tr. split; [|done].
  rewrite Hl. apply elem_of_app. by left.
Qed.
Next Obligation. apply requested_session. Qed.
Next Obligation. apply requested_list. Qed.
Next Obligation.
  intros x sid after r Hr Hlen. simpl in Hr. unfold ReadOutputFrom, lookup_session, get, state_of in Hr.
  destruct (terminals (run _ _) !! sid) as [p|] eqn:Ep; [|done]. simpl in Hr.
  destruct (heap (run _ _) !! p) as [g|] eqn:Eg; [|done]. simplify_eq/=. exists (output g). split; [|done].
  eapply si_repr; [apply run_stream_inv, h_unique|exact Ep|exact Eg|exact Hlen].
Qed.

(** ** What the hub promises *)

Section promises.
Context {M : Type} `{SessionManagerLaws M}.
Implicit Types (h : hub M) (k : conn).

(** (C6) What a client receives is accepted by the protocol automaton: output and
    closed frames come only between the status frame of an attach and the
    closed frame, increments join up, and the text put together since an attach
    is, byte for byte, the stretch of the session's output stream that ends at
    the offset reached. It holds under every interleaving of the hub's
    goroutines, the manager and the writer. *)
Theorem hub_client_view h c k sid :
  reach h -> bounded (mgr h) -> conns h !! c = Some k ->
  exists st, received sid (delivered k) = Some st /\
    forall text off, st = Attached (Some (text, off)) -> at_offset (stream (mgr h) sid) text off.
Proof.
  intros Hr Hb Hk. destruct (reach_inv h Hr Hb) as (_ & (Hc & _) & Ho).
  destruct (Hc _ _ Hk) as (_ & Hf & _). destruct (Ho _ _ Hk) as [Hseq _].
  destruct (Hseq sid) as (st & Hst & _). unfold seen, enq in Hst. rewrite <- app_assoc in Hst.
  destruct (received_prefix _ _ _ _ Hst) as [st' Hst']. exists st'. split; [done|].
  intros text off ->. apply Forall_app in Hf as [Hf _]. by eapply received_text.
Qed.

(** Accounts are isolated: every frame queued for a connection and every
    call the hub makes for it concerns a session of the connection's own
    account, and an account's messages go to its own connections only. *)
Theorem hub_account_isolation h :
  reach h -> bounded (mgr h) ->
  (forall c k f, conns h !! c = Some k -> f ∈ delivered k ++ out k ->
     match f with
     | FStatus sid _ | FMode sid _ | FOutput sid _ _ _ | FClosed sid => owned (mgr h) sid (accountID k)
     | FSessions entries => forall x, x ∈ entries -> owned (mgr h) (le_SessionID x) (accountID k)
     | FAccount acc _ => acc = accountID k
     | FError _ => True
     end) /\
  (forall x, x ∈ calls h ->
     match x with
     | CallSendInput c sid _ | CallResize c sid _ _ | CallClose c sid _ =>
         exists k, conns h !! c = Some k /\ owned (mgr h) sid (accountID k)
     end).
Proof.
  intros Hr Hb. destruct (reach_inv h Hr Hb) as (_ & (Hc & _ & Hx & _) & _). split.
  - intros c k f Hk Hf. destruct (Hc _ _ Hk) as (_ & Hok & _). rewrite Forall_forall in Hok.
    specialize (Hok f Hf). destruct f; try done. by destruct Hok.
  - intros x Hin. rewrite Forall_forall in Hx. by apply Hx.
Qed.

Lemma after_closed tid i k : closed k = true -> closed (after tid i k) = true /\ enq (after tid i k) = enq k.
Proof.
  intros Hc. destruct i; simpl; try done.
  - unfold enqueue, enqueueLocked. by rewrite Hc.
  - unfold attachWithCatchUp. by rewrite enqueue_frames_closed.
Qed.

Lemma write_closed k : closed (write k) = closed k /\ enq (write k) = enq k.
Proof. unfold write, enq. destruct (out k) eqn:E; [by rewrite E|]. simpl. by rewrite <- app_assoc. Qed.

(** A client that does not read costs a bounded queue and is cut off for
    good: no queue exceeds its capacity, and to a connection that overflowed or
    was closed no step of the hub ever adds a frame, while what is queued can
    still be written. *)
Theorem slow_client_dropped h c k :
  reach h -> bounded (mgr h) -> conns h !! c = Some k ->
  (length (out k) <= queue_size)%nat /\
  (closed k = true -> forall l, exists k', conns (hub_step h l) !! c = Some k' /\
     closed k' = true /\ delivered k' ++ out k' = delivered k ++ out k).
Proof.
  intros Hr Hb Hk. destruct (reach_inv h Hr Hb) as (_ & (Hc & _) & _).
  destruct (Hc _ _ Hk) as (Hq & _ & _). split; [done|]. intros Hcl l.
  assert (Hsame : exists k', conns h !! c = Some k' /\ closed k' = true /\ enq k' = enq k) by eauto.
  assert (Hupd : forall c' f, (forall k, closed k = true -> closed (f k) = true /\ enq (f k) = enq k) ->
    exists k', conns (Hub.upd h c' f) !! c = Some k' /\ closed k' = true /\ enq k' = enq k).
  { intros c' f Hf. simpl. destruct (decide (c' = c)) as [->|].
    - exists (f k). rewrite lookup_alter_eq, Hk. split; [done|]. by apply Hf.
    - exists k. by rewrite lookup_alter_ne. }
  destruct l; simpl; try (destruct (snapshot h cs); exact Hsame).
  - destruct (conns h !! c0) as [k0|] eqn:E; [exact Hsame|]. simpl. exists k.
    rewrite lookup_insert_ne by congruence. done.
  - destruct (conns h !! c0) as [k0|]; [|exact Hsame]. destruct (Hub.threads h !! loop k0) as [[|]|]; exact Hsame.
  - by apply (Hupd c0 close).
  - apply Hupd. intros k0 Hk0. destruct (write_closed k0). split; congruence.
  - destruct (Hub.threads h !! tid) as [[|i p]|]; try exact Hsame.
    destruct (run_instr h tid i e) as [[h' q]|] eqn:E; [|exact Hsame].
    destruct (run_instr_effect _ _ _ _ _ _ E) as (k0 & Hk0 & Hcs & _). simpl. rewrite Hcs.
    destruct (decide (conn_of i = c)) as [<-|].
    + simplify_eq. eexists. rewrite lookup_insert_eq. split; [done|]. by apply after_closed.
    + exists k. by rewrite lookup_insert_ne.
Qed.

End promises.

(** ** Concrete runs *)

Lemma up_unique ls : NoDup (omap (fun l => match l with LCreate _ _ _ s => Some s | _ => None end) ls) -> unique ls.
Proof.
  intros Hnd sid. unfold count_creates. induction ls as [|l ls IH]; [simpl; lia|].
  assert (Hz : forall ls, sid ∉ omap (fun l => match l with LCreate _ _ _ s => Some s | _ => None end) ls ->
    total (fun l => match l with LCreate _ _ _ s => if bool_decide (s = sid) then 1 else 0 | _ => 0 end)%nat ls = 0%nat).
  { clear. induction ls as [|l ls IH]; [done|]. unfold total in *. destruct l; simpl; try done.
    intros Hn. apply not_elem_of_cons in Hn as [Hne Hn]. rewrite bool_decide_false by congruence. by apply IH. }
  unfold total in *. destruct l; simpl in *; try (by apply IH).
  apply NoDup_cons in Hnd as [Hn Hnd]. case_bool_decide as Heq; [|by apply IH].
  subst. rewrite Hz; [lia|done].
Qed.

(** One session up, then two bytes of output. *)
Definition feed (b : byte) : list Terminal.label :=
  [Terminal.LRun 1 (Transport (Some (EvData [b]))); Terminal.LRun 1 Terminal.NoEnv;
   Terminal.LRun 1 (Now 6); Terminal.LRun 1 Terminal.NoEnv].

Definition runs_of (max : Z) (ls : list Terminal.label) (H : unique ls) : history := mkHistory max ls H.

Definition labels_A : list Terminal.label := up ++ feed x41.
Definition labels_AB : list Terminal.label := labels_A ++ feed x42.

Lemma unique_A : unique labels_A.
Proof. apply up_unique. vm_compute. repeat constructor. by intros ?%elem_of_nil. Qed.
Lemma unique_AB : unique labels_AB.
Proof. apply up_unique. vm_compute. repeat constructor. by intros ?%elem_of_nil. Qed.

Definition do (tid n : nat) : list Hub.label := repeat (Hub.LRun tid Hub.NoEnv) n.

(** A browser of account "acc" connects and attaches. *)
Definition attach_msg (after : option Z) : Hub.label :=
  LMessage 0 (Some (mkMsg "terminal:attach" "s" "" 0 0 after)).

Definition attaching : list Hub.label := LServe 0 "acc" :: do 0 4 ++ attach_msg None :: do 0 11.

Definition steps {M} `{SessionManager M} (h : hub M) (ls : list Hub.label) : hub M := fold_left hub_step ls h.

(** The client attaches again, continuing from offset 1, while a flush of the
    byte at offset 1 is under way: the answer to the attach is computed before
    the flush, and queued after it. *)
Definition reattaching (m1 m2 : Manager) : hub Manager :=
  let h := steps (NewHub m1) (attaching ++ attach_msg (Some 1) :: do 0 2) in
  let h := steps (Hub.with_mgr h m2) (do 0 1 ++ [LOutput "s" [0%nat]] ++ do 1 7 ++ do 0 7) in
  steps h (repeat (LWrite 0) 20).

Definition outputs (k : conn) : list (list byte * Z * bool) :=
  omap (fun f => match f with FOutput _ d o r => Some (d, o, r) | _ => None end) (delivered k).

(** A re-attach that continues from an offset can deliver the same byte twice,
    without a reset: the manager's buffer is read before flushMu is taken. *)
Theorem reattach_can_duplicate :
  exists m1 m2 k, conns (reattaching m1 m2) !! 0%nat = Some k /\
    outputs k = [([x41], 1, false); ([x42], 2, false); ([x42], 2, false)] /\
    ReadOutputFrom m2 "s" None = Some (mkFrom [x41; x42] 2 false).
Proof.
  exists (run 100 labels_A), (run 100 labels_AB). eexists.
  split; [vm_compute; reflexivity|]. split; vm_compute; reflexivity.
Qed.

(** ** Witnesses *)

Fixpoint volume (m : Manager) (ls : list Terminal.label) : nat :=
  match ls with
  | [] => 0
  | l :: ls => match appended m l with Some (_, d) => length d | None => 0 end + volume (Terminal.step m l) ls
  end%nat.

Lemma stream_volume m ls sid : (length (stream_from m ls sid) <= volume m ls)%nat.
Proof.
  revert m. induction ls as [|l ls IH]; intros m; simpl; [lia|]. rewrite length_app. specialize (IH (Terminal.step m l)).
  unfold chunk. destruct (appended m l) as [[r d]|]; [|simpl; lia].
  destruct (heap m !! r) as [g|]; [case_bool_decide|]; simpl; lia.
Qed.

Lemma reach_steps {M} `{SessionManagerLaws M} h ls : reach h -> reach (steps h ls).
Proof. revert h. unfold steps. induction ls as [|l ls IH]; intros h Hr; [done|]. simpl. by apply IH, reach_step. Qed.

Lemma steps_mgr {M} `{SessionManagerLaws M} (h : hub M) ls : mgr (steps h ls) = mgr h.
Proof. revert h. unfold steps. induction ls as [|l ls IH]; intros h; [done|]. simpl. by rewrite IH, hub_step_mgr. Qed.

Definition hist_A : history := mkHistory 100 labels_A unique_A.
Definition hub_A : hub history := steps (NewHub hist_A) (attaching ++ repeat (LWrite 0) 20).

Lemma hub_A_reach : reach hub_A.
Proof. apply reach_steps, reach_new. Qed.

Lemma hub_A_bounded : bounded (mgr hub_A).
Proof.
  intros sid. unfold hub_A. rewrite steps_mgr. simpl. unfold stream_of.
  pose proof (stream_volume (NewManager 100) labels_A sid) as Hv.
  assert (volume (NewManager 100) labels_A = 1%nat) by (vm_compute; reflexivity). lia.
Qed.

Lemma hub_client_view_witness :
  exists k, conns hub_A !! 0%nat = Some k /\ outputs k = [([x41], 1, false)] /\
    exists st, received "s" (delivered k) = Some st /\
      forall text off, st = Attached (Some (text, off)) -> at_offset (stream (mgr hub_A) "s") text off.
Proof.
  eexists. split; [vm_compute; reflexivity|]. split; [vm_compute; reflexivity|].
  apply (hub_client_view hub_A 0 _ "s" hub_A_reach hub_A_bounded). vm_compute. reflexivity.
Defined.

Lemma hub_account_isolation_witness :
  exists k, conns hub_A !! 0%nat = Some k /\ accountID k = "acc"%string /\
    forall f, f ∈ delivered k ++ out k ->
      match f with FOutput sid _ _ _ => owned (mgr hub_A) sid "acc" | _ => True end.
Proof.
  eexists. split; [vm_compute; reflexivity|]. split; [reflexivity|]. intros f Hf.
  destruct (hub_account_isolation hub_A hub_A_reach hub_A_bounded) as [H _].
  eassert (Hk : conns hub_A !! 0%nat = Some _) by (vm_compute; reflexivity).
  specialize (H 0%nat _ f Hk Hf). destruct f; try exact I. exact H.
Defined.

Lemma slow_client_dropped_witness :
  exists k, conns (hub_step hub_A (LDisconnect 0)) !! 0%nat = Some k /\ closed k = true /\
    forall l, exists k', conns (hub_step (hub_step hub_A (LDisconnect 0)) l) !! 0%nat = Some k' /\ closed k' = true.
Proof.
  eexists. split; [vm_compute; reflexivity|]. split; [reflexivity|]. intros l.
  assert (Hb : bounded (mgr (hub_step hub_A (LDisconnect 0)))) by (rewrite hub_step_mgr; exact hub_A_bounded).
  edestruct (slow_client_dropped (hub_step hub_A (LDisconnect 0)) 0) as [_ Hd];
    [apply reach_step, hub_A_reach|exact Hb|vm_compute; reflexivity|].
  destruct (Hd eq_refl l) as (k' & Hk' & Hc & _). exists k'. split; [exact Hk'|exact Hc].
Defined.
