(* ===== verification/Keys.v ===== *)
(** * Named keys and client-reported names (internal/terminal/keys.go, internal/util/sanitize.go)

    The keys an agent may name, resolved to what is written to the terminal,
    and the cleaning of names that clients report about themselves, with the
    UTF-8 decoding of Go's range loops. *)
From S2P Require Import Prelude GoStrings.
From Stdlib Require Import Ascii.

(** ** UTF-8, as Go decodes and encodes it *)

Definition byte_at (s : string) (n : nat) : Z :=
  match String.get n s with Some a => Z.of_N (N_of_ascii a) | None => -1 end.

Definition RuneError : Z := 0xfffd.

Definition cont (b : Z) : bool := (0x80 <=? b) && (b <=? 0xbf).
Definition between (lo hi b : Z) : bool := (lo <=? b) && (b <=? hi).

(** The second bytes a leading byte of three or four accepts. *)
Definition accept3 (b0 b1 : Z) : bool :=
  if b0 =? 0xe0 then between 0xa0 0xbf b1 else if b0 =? 0xed then between 0x80 0x9f b1 else cont b1.
Definition accept4 (b0 b1 : Z) : bool :=
  if b0 =? 0xf0 then between 0x90 0xbf b1 else if b0 =? 0xf4 then between 0x80 0x8f b1 else cont b1.

(** utf8.DecodeRuneInString on a string that is not empty: the rune and its
    width. *)
Definition decode_rune (s : string) : Z * nat :=
  let b0 := byte_at s 0 in let b1 := byte_at s 1 in let b2 := byte_at s 2 in let b3 := byte_at s 3 in
  if b0 <? 0x80 then (b0, 1%nat)
  else if between 0xc2 0xdf b0 && cont b1 then ((b0 - 0xc0) * 64 + (b1 - 0x80), 2%nat)
  else if between 0xe0 0xef b0 && accept3 b0 b1 && cont b2 then
    ((b0 - 0xe0) * 4096 + (b1 - 0x80) * 64 + (b2 - 0x80), 3%nat)
  else if between 0xf0 0xf4 b0 && accept4 b0 b1 && cont b2 && cont b3 then
    ((b0 - 0xf0) * 262144 + (b1 - 0x80) * 4096 + (b2 - 0x80) * 64 + (b3 - 0x80), 4%nat)
  else (RuneError, 1%nat).

(** The runes of [for _, r := range s]; [skip] bytes belong to the last one. *)
Fixpoint runes_from (skip : nat) (s : string) : list Z :=
  match s with
  | EmptyString => []
  | String a s' =>
      match skip with
      | S skip => runes_from skip s'
      | O => let '(r, n) := decode_rune (String a s') in r :: runes_from (n - 1) s'
      end
  end.

Definition runes (s : string) : list Z := runes_from 0 s.

Definition chr (n : Z) : ascii := ascii_of_N (Z.to_N n).

Definition valid_rune (r : Z) : bool := between 0 0xd7ff r || between 0xe000 0x10ffff r.

(** strings.Builder.WriteRune. *)
Definition encode_rune (r : Z) : string :=
  let r := if valid_rune r then r else RuneError in
  if r <? 0x80 then String (chr r) ""
  else if r <? 0x800 then String (chr (0xc0 + r / 64)) (String (chr (0x80 + r mod 64)) "")
  else if r <? 0x10000 then
    String (chr (0xe0 + r / 4096)) (String (chr (0x80 + r / 64 mod 64)) (String (chr (0x80 + r mod 64)) ""))
  else
    String (chr (0xf0 + r / 262144)) (String (chr (0x80 + r / 4096 mod 64))
      (String (chr (0x80 + r / 64 mod 64)) (String (chr (0x80 + r mod 64)) ""))).

Definition encode_runes (l : list Z) : string := foldr (fun r s => (encode_rune r ++ s)%string) EmptyString l.

(** ** SanitizeClientReported *)

Definition ClientHeaderMaxLen : Z := 128.

Definition control_rune (r : Z) : bool := (r <=? 0x1f) || (r =? 0x7f).

Fixpoint sanitize_loop (rs : list Z) (b : string) : string :=
  match rs with
  | [] => b
  | r :: rs =>
      if control_rune r then sanitize_loop rs b
      else
        let b := (b ++ encode_rune r)%string in
        if strlen b >=? ClientHeaderMaxLen then b else sanitize_loop rs b
  end.

Definition SanitizeClientReported (raw : string) : string :=
  let out := sanitize_loop (runes raw) EmptyString in
  if strlen out >? ClientHeaderMaxLen then take_str (Z.to_nat ClientHeaderMaxLen) out else out.

(** ** Keys *)

Definition seq1 (n : Z) : string := String (chr n) "".
Definition csi (s : string) : string := String (chr 27) s.

Definition keyMap : list (string * string) :=
  [ ("ctrl+c", seq1 3); ("ctrl+d", seq1 4); ("ctrl+z", seq1 26); ("ctrl+l", seq1 12); ("ctrl+a", seq1 1);
    ("ctrl+e", seq1 5); ("ctrl+u", seq1 21); ("ctrl+k", seq1 11); ("ctrl+w", seq1 23); ("tab", seq1 9);
    ("enter", seq1 13); ("escape", seq1 27); ("up", csi "[A"); ("down", csi "[B"); ("right", csi "[C");
    ("left", csi "[D"); ("home", csi "[H"); ("end", csi "[F"); ("backspace", seq1 127); ("delete", csi "[3~") ]%string.

(** What lower-casing makes of the runes that become ASCII: the letters, the
    Kelvin sign and the dotted capital I. Of strings.ToLower only this matters
    for the comparison with the names, which are ASCII. *)
Definition lower_rune (r : Z) : Z :=
  if between 65 90 r then r + 32 else if r =? 0x212a then 107 else if r =? 0x130 then 105 else r.

Definition lower_name (s : string) : string := encode_runes (map lower_rune (runes s)).

Fixpoint lookup_key (l : list (string * string)) (k : string) : option string :=
  match l with
  | [] => None
  | (name, sequence) :: l => if bool_decide (name = k) then Some sequence else lookup_key l k
  end.

(** The replacements of "text:" keys, left to right. *)
Definition escape_of (a : ascii) : option ascii :=
  if bool_decide (a = "n"%char) then Some (chr 10) else if bool_decide (a = "r"%char) then Some (chr 13)
  else if bool_decide (a = "t"%char) then Some (chr 9) else None.

Fixpoint replace_escapes (s : string) : string :=
  match s with
  | EmptyString => EmptyString
  | String a s' =>
      match s' with
      | String b s'' =>
          match (if bool_decide (a = "\"%char) then escape_of b else None) with
          | Some c => String c (replace_escapes s'')
          | None => String a (replace_escapes s')
          end
      | EmptyString => String a EmptyString
      end
  end.

(** [None] is the error "unknown key". *)
Definition ResolveKey (key : string) : option string :=
  match lookup_key keyMap (lower_name key) with
  | Some mapped => Some mapped
  | None => if HasPrefix key "text:" then Some (replace_escapes (drop_str 5 key)) else None
  end.

Fixpoint ResolveKeys (keys : list string) : option string :=
  match keys with
  | [] => Some EmptyString
  | k :: keys =>
      match ResolveKey k with
      | None => None
      | Some r => match ResolveKeys keys with None => None | Some rest => Some (r ++ rest)%string end
      end
  end.

Example key_ex1 : ResolveKeys ["text:ls\n"; "Ctrl+C"; "UP"]%string =
  Some (String "l" (String "s" (String (chr 10) (String (chr 3) (csi "[A"))))).
Proof. vm_compute. reflexivity. Qed.
Example key_ex2 : ResolveKeys ["up"; "hyper+x"]%string = None.
Proof. vm_compute. reflexivity. Qed.
(* U+212A, the Kelvin sign, lower-cases to k *)
Example key_ex3 : ResolveKey ("ctrl+" ++ encode_rune 0x212a)%string = Some (seq1 11).
Proof. vm_compute. reflexivity. Qed.
Example key_ex4 : ResolveKey "text:a\\n\q" = Some (String "a" (String "\" (String (chr 10) (String "\" (String "q" ""))))).
Proof. vm_compute. reflexivity. Qed.

(** ** Decoding what was encoded *)

Lemma byte_at_chr n s : 0 <= n < 256 -> byte_at (String (chr n) s) 0 = n.
Proof.
  intros Hn. unfold byte_at, chr. cbn [String.get]. rewrite N_ascii_embedding by lia. lia.
Qed.

Lemma byte_at_S a s k : byte_at (String a s) (S k) = byte_at s k.
Proof. reflexivity. Qed.

Lemma div_mod_64 r : 0 <= r -> 0 <= r mod 64 < 64 /\ r = r / 64 * 64 + r mod 64 /\ 0 <= r / 64.
Proof. intros Hr. pose proof (Z.div_mod r 64). pose proof (Z.mod_pos_bound r 64). pose proof (Z.div_pos r 64). lia. Qed.

(** The digits of a rune in base 64. *)
Lemma digits r :
  0 <= r -> r / 4096 = r / 64 / 64 /\ r / 262144 = r / 64 / 64 / 64.
Proof. intros Hr. rewrite !Z.div_div by lia. done. Qed.

Ltac bytes_of := rewrite ?byte_at_S, ?byte_at_chr by lia.

(** Decide the tests of the decoder on bytes whose ranges are known. *)
Ltac decide_bytes :=
  unfold accept3, accept4; unfold between, cont;
  repeat match goal with
  | |- context [?a <? ?b] => destruct (Z.ltb_spec a b); [try (exfalso; lia)|try (exfalso; lia)]
  | |- context [?a <=? ?b] => destruct (Z.leb_spec a b); [try (exfalso; lia)|try (exfalso; lia)]
  | |- context [?a =? ?b] => destruct (Z.eqb_spec a b); [try (exfalso; lia)|try (exfalso; lia)]
  end; cbn [andb]; try (exfalso; lia).

Lemma decode_encode r rest :
  valid_rune r = true -> decode_rune (encode_rune r ++ rest) = (r, String.length (encode_rune r)).
Proof.
  intros Hv. unfold encode_rune. rewrite Hv. unfold valid_rune, between in Hv.
  assert (0 <= r <= 0xd7ff \/ 0xe000 <= r <= 0x10ffff) as Hr.
  { apply orb_true_iff in Hv as [Hv|Hv]; apply andb_true_iff in Hv; bool_to_prop; lia. }
  pose proof (div_mod_64 r ltac:(lia)) as (M0 & E0 & P0).
  pose proof (div_mod_64 (r / 64) P0) as (M1 & E1 & P1). pose proof (div_mod_64 (r / 64 / 64) P1) as (M2 & E2 & P2).
  destruct (digits r ltac:(lia)) as [D1 D2]. rewrite D1, D2. clear D1 D2 Hv.
  set (d0 := r mod 64) in *. set (d1 := r / 64 mod 64) in *. set (d2 := r / 64 / 64 mod 64) in *.
  set (q1 := r / 64) in *. set (q2 := q1 / 64) in *. set (q3 := q2 / 64) in *. clearbody d0 d1 d2 q1 q2 q3.
  destruct (Z.ltb_spec r 0x80); [|destruct (Z.ltb_spec r 0x800); [|destruct (Z.ltb_spec r 0x10000)]];
    rewrite ?app_str_cons, ?app_str_nil; unfold decode_rune; cbv zeta; bytes_of; cbn [String.length].
  - decide_bytes. done.
  - decide_bytes; f_equal; lia.
  - decide_bytes; f_equal; lia.
  - decide_bytes; f_equal; lia.
Qed.

Lemma runes_from_drop k s : runes_from k s = runes (drop_str k s).
Proof.
  revert s. induction k as [|k IH]; intros s; [by destruct s|]. destruct s as [|a s]; [done|]. cbn [runes_from drop_str]. apply IH.
Qed.

Lemma encode_rune_cons r : exists a s, encode_rune r = String a s.
Proof.
  unfold encode_rune. destruct (valid_rune r); repeat match goal with |- context [if ?b then _ else _] => destruct b end; eauto.
Qed.

Lemma drop_str_length s t : drop_str (String.length s) (s ++ t) = t.
Proof. induction s as [|a s IH]; [by destruct t|]. rewrite app_str_cons. exact IH. Qed.

Lemma runes_encode r rest : valid_rune r = true -> runes (encode_rune r ++ rest) = r :: runes rest.
Proof.
  intros Hv. pose proof (decode_encode r rest Hv) as Hd. destruct (encode_rune_cons r) as (a & s & E). rewrite E in *.
  rewrite app_str_cons in *. unfold runes. cbn [runes_from]. rewrite Hd. f_equal.
  rewrite runes_from_drop. cbn [String.length]. replace (S (String.length s) - 1)%nat with (String.length s) by lia.
  by rewrite drop_str_length.
Qed.

(** Decoding undoes encoding. *)
Lemma utf8_roundtrip l : forallb valid_rune l = true -> runes (encode_runes l) = l.
Proof.
  induction l as [|r l IH]; [done|]. cbn [forallb encode_runes foldr]. intros [Hr Hl]%andb_true_iff.
  rewrite runes_encode by done. f_equal. by apply IH.
Qed.

Lemma byte_at_range s n : byte_at s n = -1 \/ 0 <= byte_at s n < 256.
Proof.
  unfold byte_at. destruct (String.get n s) as [a|]; [|by left]. right. pose proof (N_ascii_bounded a). lia.
Qed.

(** What the decoder produces is a rune. *)
Lemma decode_valid s : s <> EmptyString -> valid_rune (fst (decode_rune s)) = true.
Proof.
  intros Hs. unfold decode_rune. cbv zeta.
  assert (0 <= byte_at s 0) as H0.
  { destruct s as [|a s]; [done|]. unfold byte_at. cbn [String.get]. lia. }
  destruct (Z.ltb_spec (byte_at s 0) 0x80).
  { unfold valid_rune. apply orb_true_iff. left. unfold between. cbn [fst]. apply andb_true_iff. split; apply Z.leb_le; lia. }
  generalize dependent (byte_at s 0). generalize (byte_at s 1), (byte_at s 2), (byte_at s 3). intros b1 b2 b3 b0 _ Hb.
  destruct (between 0xc2 0xdf b0 && cont b1) eqn:E2; [|destruct (between 0xe0 0xef b0 && accept3 b0 b1 && cont b2) eqn:E3;
    [|destruct (between 0xf0 0xf4 b0 && accept4 b0 b1 && cont b2 && cont b3) eqn:E4; [|done]]]; cbn [fst];
    unfold valid_rune, accept3, accept4 in *; unfold between, cont in *;
    repeat match goal with
      | H : _ && _ = true |- _ => apply andb_true_iff in H as [? ?]
      | H : context [if ?a =? ?b then _ else _] |- _ => destruct (Z.eqb_spec a b)
      end; bool_to_prop; apply orb_true_iff; rewrite !andb_true_iff, !Z.leb_le; lia.
Qed.

Lemma runes_valid s : forallb valid_rune (runes s) = true.
Proof.
  unfold runes. generalize O. induction s as [|a s IH]; intros k; [done|]. cbn [runes_from]. destruct k as [|k]; [|apply IH].
  pose proof (decode_valid (String a s) ltac:(done)) as Hd. destruct (decode_rune (String a s)) as [r n]. cbn [forallb].
  apply andb_true_iff. split; [exact Hd|apply IH].
Qed.

(** ** Sanitized names *)

Lemma sanitize_loop_spec rs b :
  forallb valid_rune rs = true ->
  exists kept, sanitize_loop rs b = (b ++ encode_runes kept)%string /\
    forallb valid_rune kept = true /\ forallb (fun r => negb (control_rune r)) kept = true /\
    (forall pre x post, kept = pre ++ x :: post -> post <> [] -> strlen (b ++ encode_runes (pre ++ [x])) < ClientHeaderMaxLen).
Proof.
  revert b. induction rs as [|r rs IH]; intros b Hv.
  { exists []. cbn. rewrite app_str_nil_r. split_and!; try done. by intros []. }
  cbn [forallb] in Hv. apply andb_true_iff in Hv as [Hr Hv]. cbn [sanitize_loop]. destruct (control_rune r) eqn:Hc; [by apply IH|].
  destruct (strlen (b ++ encode_rune r) >=? ClientHeaderMaxLen) eqn:Hlen.
  - exists [r]. cbn [encode_runes foldr forallb]. rewrite app_str_nil_r, Hr, Hc. split_and!; try done.
    intros pre x post Heq Hpost. destruct pre as [|? [|]], post; simplify_list_eq.
  - destruct (IH (b ++ encode_rune r)%string Hv) as (kept & -> & Hk & Hn & Hpre). exists (r :: kept).
    cbn [encode_runes foldr forallb]. rewrite app_str_assoc, Hr, Hc, Hk, Hn. split_and!; try done.
    intros pre x post Heq Hpost. destruct pre as [|y pre]; simplify_list_eq.
    + cbn. rewrite app_str_nil_r. bool_to_prop. unfold ClientHeaderMaxLen in *. lia.
    + pose proof (Hpre pre x post eq_refl Hpost) as H. rewrite app_str_assoc in H. exact H.
Qed.

(** Going over runes that are kept, and fit, changes nothing. *)
Lemma sanitize_loop_kept kept b :
  forallb (fun r => negb (control_rune r)) kept = true ->
  (forall pre x post, kept = pre ++ x :: post -> post <> [] -> strlen (b ++ encode_runes (pre ++ [x])) < ClientHeaderMaxLen) ->
  sanitize_loop kept b = (b ++ encode_runes kept)%string.
Proof.
  revert b. induction kept as [|r kept IH]; intros b Hn Hpre; [by rewrite app_str_nil_r|].
  cbn [forallb] in Hn. apply andb_true_iff in Hn as [Hr Hn]. apply negb_true_iff in Hr. cbn [sanitize_loop]. rewrite Hr.
  destruct kept as [|y kept].
  - cbn. rewrite app_str_nil_r. by destruct (_ >=? _).
  - pose proof (Hpre [] r (y :: kept) eq_refl ltac:(done)) as Hlt. cbn [app encode_runes foldr] in Hlt. rewrite app_str_nil_r in Hlt.
    destruct (_ >=? _) eqn:Hlen; [bool_to_prop; unfold ClientHeaderMaxLen in *; lia|].
    rewrite IH; [by rewrite app_str_assoc|done|]. intros pre x post Heq Hpost.
    rewrite app_str_assoc. apply (Hpre (r :: pre) x post); [by rewrite Heq|done].
Qed.

(** Cleaning a name a second time changes nothing, as long as the first
    time did not have to cut a character in two. *)
Theorem sanitize_idempotent raw
  (Hwhole : strlen (sanitize_loop (runes raw) EmptyString) <= ClientHeaderMaxLen) :
  SanitizeClientReported (SanitizeClientReported raw) = SanitizeClientReported raw.
Proof.
  destruct (sanitize_loop_spec (runes raw) EmptyString (runes_valid raw)) as (kept & Hk & Hv & Hn & Hpre).
  rewrite app_str_nil in Hk. unfold SanitizeClientReported. rewrite Hk in *.
  destruct (strlen (encode_runes kept) >? ClientHeaderMaxLen) eqn:E; [bool_to_prop; lia|].
  rewrite utf8_roundtrip, sanitize_loop_kept by done. by rewrite app_str_nil, E.
Qed.

(** ASCII of a given length. *)
Fixpoint filler (n : nat) : string := match n with O => EmptyString | S n => String "a" (filler n) end.

(** Otherwise it can: a two-byte character over the limit leaves half of
    it behind, which the next cleaning takes for garbage. *)
Theorem sanitize_not_idempotent :
  let raw := (filler 127 ++ encode_rune 0xe9)%string in
  SanitizeClientReported (SanitizeClientReported raw) <> SanitizeClientReported raw.
Proof. vm_compute. discriminate. Qed.

Definition clean_byte (a : ascii) : bool := (0x20 <=? Z.of_N (N_of_ascii a)) && negb (Z.of_N (N_of_ascii a) =? 0x7f).

Lemma clean_chr n : 0x20 <= n < 256 -> n <> 0x7f -> clean_byte (chr n) = true.
Proof.
  intros Hn Hd. unfold clean_byte, chr. rewrite N_ascii_embedding by lia. rewrite Z2N.id by lia.
  apply andb_true_iff. split; [apply Z.leb_le; lia|]. apply negb_true_iff, Z.eqb_neq. lia.
Qed.

Lemma clean_encode r : valid_rune r = true -> control_rune r = false -> forall_str clean_byte (encode_rune r) = true.
Proof.
  intros Hv Hc. unfold encode_rune. rewrite Hv. unfold control_rune in Hc. apply orb_false_iff in Hc as [H1 H2].
  bool_to_prop. assert (r <= 0x10ffff) as Hr.
  { unfold valid_rune, between in Hv. apply orb_true_iff in Hv as [Hv|Hv]; apply andb_true_iff in Hv; bool_to_prop; lia. }
  pose proof (div_mod_64 r ltac:(lia)) as (M0 & E0 & P0).
  pose proof (div_mod_64 (r / 64) P0) as (M1 & E1 & P1). pose proof (div_mod_64 (r / 64 / 64) P1) as (M2 & E2 & P2).
  destruct (digits r ltac:(lia)) as [-> ->].
  destruct (Z.ltb_spec r 0x80); [|destruct (Z.ltb_spec r 0x800); [|destruct (Z.ltb_spec r 0x10000)]];
    cbn [forall_str]; rewrite !clean_chr by lia; done.
Qed.

Lemma clean_take n s : forall_str clean_byte s = true -> forall_str clean_byte (take_str n s) = true.
Proof.
  revert s. induction n as [|n IH]; intros [|a s]; try done. cbn [forall_str take_str]. intros [Ha Hs]%andb_true_iff.
  by rewrite Ha, IH.
Qed.

Lemma length_take n s : (String.length (take_str n s) <= n)%nat.
Proof. revert s. induction n as [|n IH]; intros [|a s]; cbn; try lia. specialize (IH s). lia. Qed.

(** Whatever a client reports, what reaches an approval is at most 128
    bytes long and holds no ASCII control character. *)
Theorem sanitize_safe raw :
  strlen (SanitizeClientReported raw) <= 128 /\ forall_str clean_byte (SanitizeClientReported raw) = true.
Proof.
  destruct (sanitize_loop_spec (runes raw) EmptyString (runes_valid raw)) as (kept & Hk & Hv & Hn & _).
  rewrite app_str_nil in Hk. unfold SanitizeClientReported. rewrite Hk.
  assert (forall_str clean_byte (encode_runes kept) = true) as Hclean.
  { clear Hk. induction kept as [|r kept IH]; [done|]. cbn [forallb] in Hv, Hn. apply andb_true_iff in Hv as [Hv1 Hv2], Hn as [Hn1 Hn2].
    cbn [encode_runes foldr]. rewrite forall_app_str, clean_encode by (done || by apply negb_true_iff). by apply IH. }
  destruct (_ >? _) eqn:E; bool_to_prop; unfold ClientHeaderMaxLen in *; [|by split].
  split; [|by apply clean_take]. unfold strlen. pose proof (length_take (Z.to_nat 128) (encode_runes kept)). lia.
Qed.

Lemma sanitize_idempotent_witness :
  SanitizeClientReported (SanitizeClientReported (String (chr 10) ("Claude" ++ encode_rune 0xe9))) = ("Claude" ++ encode_rune 0xe9)%string.
Proof.
  rewrite (sanitize_idempotent (String (chr 10) ("Claude" ++ encode_rune 0xe9))); [vm_compute; reflexivity|].
  vm_compute. discriminate.
Defined.
