(* ===== verification/AgentProxy.v ===== *)
(** * The agent proxy's route (internal/agentproxy/route.go)

    A WebSocket behind the bearer gate speaks the SSH agent protocol with an
    agent of its own; when the connection ends its stranded prompts are
    cancelled. The protocol's server is x/crypto's: it answers one request after
    the other. *)
From Stdlib Require Import Ascii.
From S2P Require Import Prelude GoStrings SSHWire Tokens Approval Broker Passkeys HostKeys SignAgent KeyDir SshAuth Keys.
#[local] Open Scope Z_scope.

(** ** The route *)

(** What the handler takes from the request's headers and its address. *)
Record proxy_request := mkProxyRequest { px_hostname : string; px_os : string; px_version : string; px_sourceIP : string }.

Definition proxy_context (r : proxy_request) : Context_ :=
  mkContext "agent-proxy" EmptyString EmptyString EmptyString (px_sourceIP r)
    (SanitizeClientReported (px_hostname r)) (SanitizeClientReported (px_os r)) (SanitizeClientReported (px_version r))
    None EmptyString EmptyString EmptyString EmptyString.

(** A signature request of the protocol, with the answers the broker will give. *)
Record agent_request := mkAgentRequest {
  ar_key : PublicKey; ar_data : list byte; ar_flags : Z;
  ar_sign : SignRequest -> RejectError + SignResponse; ar_approve : KeyApproval -> RejectError + string }.

Inductive proxy_event :=
  | ProxyError (status : Z)
  | ProxyClosed (code : Z) (reason : string)
  | ProxyBroker (c : broker_call)
  | ProxyReply (r : AgentError + Signature)
  | ProxyCancel (connID reason : string).

Definition StatusNormalClosure : Z := 1000.
Definition StatusInternalError : Z := 1011.

Section Proxy.
Context (build : SignResponse -> SignatureError + Signature).
Context (FingerprintSHA256 : list byte -> string).
Context (signer_Sign : Signer -> list byte -> option string -> option Signature).

(** agent.ServeAgent, until the client goes away. *)
Definition ServeAgent (ba : Agent) (reqs : list agent_request) : list proxy_event :=
  List.concat (List.map (fun q =>
    let '(calls, r) := SignWithFlags (ar_sign q) (ar_approve q) build FingerprintSHA256 signer_Sign ba (ar_key q) (ar_data q) (ar_flags q) in
    List.map ProxyBroker calls ++ [ProxyReply r]) reqs).

Definition proxy_agent (identities : list Identity) (accountID connID : string) (r : proxy_request) : Agent :=
  mkAgent identities accountID connID (proxy_context r) EmptyString.

(** Handler: [identities] is what buildIdentities returns, [NewConnectionID]
    the minted id, if one is minted. *)
Definition Handler (principal : option string) (accepted : bool) (NewConnectionID : option string) (identities : option (list Identity))
  (r : proxy_request) (reqs : list agent_request) : list proxy_event :=
  match principal with
  | None => [ProxyError 401]
  | Some accountID =>
      if negb accepted then []
      else
        let connID := default "conn"%string NewConnectionID in
        match identities with
        | None => [ProxyClosed StatusInternalError "identity lookup failed"]
        | Some identities =>
            ServeAgent (proxy_agent identities accountID connID r) reqs ++
            [ProxyClosed StatusNormalClosure ""; ProxyCancel connID "agent-proxy connection closed"]
        end
  end.

(** ** Its prompts *)

(** A prompt of this agent, for one of its identities. *)
Definition prompt_of (a : Agent) (c : broker_call) : Prop :=
  exists id, id ∈ ag_identities a /\
    match c with
    | CallRequestSign acc req ctx _ => id_IsPasskey id = true /\ acc = ag_accountID a /\ ctx = ag_actionCtx a /\
        rq_CredentialID req = id_CredentialID id /\ rq_ConnectionID req = ag_connectionID a
    | CallRequestKeyApproval p => id_IsPasskey id = false /\ ka_AccountID p = ag_accountID a /\ ka_Context p = ag_actionCtx a /\
        ka_ConnectionID p = ag_connectionID a /\ exists s, id_Signer id = Some s /\ ka_KeyFingerprint p = FingerprintSHA256 (pk_Marshal (sg_PublicKey s))
    end.

(** The answer that let a signature out. *)
Definition approved_by (q : agent_request) (c : broker_call) : Prop :=
  match c with
  | CallRequestSign _ req _ _ => exists resp, ar_sign q req = inr resp
  | CallRequestKeyApproval p => exists actionID, ar_approve q p = inr actionID
  end.

Lemma sign_prompts a q calls r :
  SignWithFlags (ar_sign q) (ar_approve q) build FingerprintSHA256 signer_Sign a (ar_key q) (ar_data q) (ar_flags q) = (calls, r) ->
  Forall (prompt_of a) calls /\ (forall sig, r = inr sig -> exists c, calls = [c] /\ approved_by q c).
Proof using.
  unfold SignWithFlags, sign, match_. destruct (List.find _ _) as [id|] eqn:Em; [|intros [= <- <-]; by split].
  apply List.find_some in Em as [Hin%list_elem_of_In _]. destruct (id_IsPasskey id) eqn:Epk.
  - intros [= <- <-]. split.
    + apply Forall_singleton. exists id. by split_and!.
    + intros sig H. eexists. split; [done|]. cbn. destruct (ar_sign q _) as [err|resp]; [done|by eexists].
  - destruct (id_Signer id) as [s|] eqn:Es; [|intros [= <- <-]; by split]. destruct (_ && negb (sg_AlgorithmSigner s)); [intros [= <- <-]; by split|].
    intros [= <- <-]. split.
    + apply Forall_singleton. exists id. cbn. split_and!; try done. by exists s.
    + intros sig H. eexists. split; [done|]. cbn. destruct (ar_approve q _) as [err|act]; [done|by eexists].
Qed.

Lemma serve_elem a reqs e : e ∈ ServeAgent a reqs <-> exists q, q ∈ reqs /\ e ∈ ServeAgent a [q].
Proof using.
  unfold ServeAgent. cbn. setoid_rewrite app_nil_r. rewrite list_elem_of_In, List.in_concat. split.
  - intros (l & (q & <- & Hq)%List.in_map_iff & He). exists q. by rewrite !list_elem_of_In.
  - intros (q & Hq & He). eexists. split; [apply List.in_map_iff; exists q; split; [done|by apply list_elem_of_In]|by apply list_elem_of_In].
Qed.

Lemma serve_one a q : exists calls r, ServeAgent a [q] = map ProxyBroker calls ++ [ProxyReply r] /\ Forall (prompt_of a) calls /\
  (forall sig, r = inr sig -> exists c, calls = [c] /\ approved_by q c).
Proof using.
  unfold ServeAgent. cbn. rewrite app_nil_r. destruct (SignWithFlags _ _ _ _ _ _ _ _ _) as [calls r] eqn:E. exists calls, r. split; [done|]. by eapply sign_prompts.
Qed.

Lemma serve_prompts a reqs c : ProxyBroker c ∈ ServeAgent a reqs -> prompt_of a c.
Proof using.
  intros (q & _ & Hc)%serve_elem. destruct (serve_one a q) as (calls & r & E & Hf & _). rewrite E in Hc. rewrite Forall_forall in Hf.
  apply elem_of_app in Hc as [(c' & [= ->] & H)%list_elem_of_fmap|Hc]; [by apply Hf|]. by apply list_elem_of_singleton in Hc.
Qed.

(** A signature follows the prompt that was approved for it. *)
Lemma serve_signed a reqs sig : ProxyReply (inr sig) ∈ ServeAgent a reqs ->
  exists q c pre post, q ∈ reqs /\ approved_by q c /\ ServeAgent a reqs = pre ++ [ProxyBroker c; ProxyReply (inr sig)] ++ post.
Proof using.
  intros (q & Hq & Hs)%serve_elem. destruct (serve_one a q) as (calls & r & E & _ & Hr). rewrite E in Hs.
  apply elem_of_app in Hs as [(c' & [=] & _)%list_elem_of_fmap|Hs]. apply list_elem_of_singleton in Hs as [= <-]. destruct (Hr _ eq_refl) as (c & -> & Ha).
  apply list_elem_of_split in Hq as (l1 & l2 & ->). exists q, c, (ServeAgent a l1), (ServeAgent a l2).
  split; [apply elem_of_app; right; by left|]. split; [done|]. unfold ServeAgent in *. cbn in E. rewrite app_nil_r in E. rewrite map_app, List.concat_app. cbn.
  by rewrite E.
Qed.

End Proxy.

(** ** Claims *)

(** A header's text as the prompts show it. *)
Definition shown_cleanly (s : string) : Prop := strlen s <= 128 /\ forall_str clean_byte s = true.

(** A key in the directory of file keys. *)
Definition on_disk (k : KeyDir) (s : Signer) : Prop := exists fp sk, kd_available k !! fp = Some sk /\ sk_signer sk = s.

Lemma buildIdentities_from P F M fileKeys k d order db acc rpID ids :
  buildIdentities P F M fileKeys k d order (Some (ActiveCredentialsForAuth db acc)) rpID = Some ids ->
  forall id, id ∈ ids ->
    if id_IsPasskey id then active_passkey db acc (id_CredentialID id) (id_Label id)
    else fileKeys = true /\ exists s, id_Signer id = Some s /\ on_disk (loaded P F M k d) s.
Proof.
  unfold buildIdentities. intros [= <-] id [Hid|Hid]%elem_of_app.
  - destruct fileKeys; [|by apply not_elem_of_nil in Hid]. apply list_elem_of_fmap in Hid as (s & -> & Hs). cbn. split; [done|]. exists s. split; [done|].
    unfold Signers in Hs. cbn in Hs. apply list_elem_of_omap in Hs as (fp & _ & Hfp). apply fmap_Some in Hfp as (sk & Hsk & ->). by exists fp, sk.
  - apply list_elem_of_omap in Hid as (c & Hc & E). apply ActiveCredentials_from in Hc as (r & Hr & Ha & Hact & Hcid & Hl & _).
    unfold PasskeyIdentity in E. destruct (parseWebauthnPublicKey _) as [blob|]; [|done]. simplify_eq. cbn. exists r. by split_and!.
Qed.

(** The agent proxy prompts the connecting account only, for its own active
    passkeys or for a key file, with client headers that are short and without
    control bytes; it hands out a signature only right after a prompt was
    approved; and every connection it serves ends by cancelling its prompts (C30). *)
Theorem proxy_prompts build FP signer_Sign P F M fileKeys k d order db acc rpID ids newID r reqs :
  buildIdentities P F M fileKeys k d order (Some (ActiveCredentialsForAuth db acc)) rpID = Some ids ->
  let events := Handler build FP signer_Sign (Some acc) true newID (Some ids) r reqs in
  let conn := default "conn"%string newID in
  (forall c, ProxyBroker c ∈ events ->
     let '(account, ctx) := match c with CallRequestSign account _ ctx _ => (account, ctx) | CallRequestKeyApproval p => (ka_AccountID p, ka_Context p) end in
     account = acc /\ cx_SourceIP ctx = px_sourceIP r /\
     shown_cleanly (cx_ClientHostname ctx) /\ shown_cleanly (cx_ClientOS ctx) /\ shown_cleanly (cx_ClientVersion ctx) /\
     match c with
     | CallRequestSign _ req _ _ => rq_ConnectionID req = conn /\ exists label, active_passkey db acc (rq_CredentialID req) label
     | CallRequestKeyApproval p => ka_ConnectionID p = conn /\ fileKeys = true /\
         exists s, ka_KeyFingerprint p = FP (pk_Marshal (sg_PublicKey s)) /\ on_disk (loaded P F M k d) s
     end) /\
  (forall sig, ProxyReply (inr sig) ∈ events -> exists q c pre post, q ∈ reqs /\ approved_by q c /\ events = pre ++ [ProxyBroker c; ProxyReply (inr sig)] ++ post) /\
  last events = Some (ProxyCancel conn "agent-proxy connection closed").
Proof.
  intros Hids events conn. subst events. cbn [Handler negb]. fold conn. clearbody conn.
  assert (Hserve : forall e, e ∈ ServeAgent build FP signer_Sign (proxy_agent ids acc conn r) reqs ++
    [ProxyClosed StatusNormalClosure ""; ProxyCancel conn "agent-proxy connection closed"] ->
    match e with ProxyClosed _ _ | ProxyCancel _ _ => True | _ => e ∈ ServeAgent build FP signer_Sign (proxy_agent ids acc conn r) reqs end).
  { intros e [H|H]%elem_of_app; [by destruct e|]. apply elem_of_cons in H as [->|H]; [done|]. by apply list_elem_of_singleton in H as ->. }
  split_and!.
  - intros c Hc%Hserve. apply serve_prompts in Hc as (id & Hid & Hc). pose proof (buildIdentities_from _ _ _ _ _ _ _ _ _ _ _ Hids id Hid) as Hf.
    destruct c as [account req ctx rd|p]; cbn in Hc.
    + destruct Hc as (Hpk & -> & -> & Hcid & Hconn). rewrite Hpk in Hf. rewrite Hcid. split_and!; try done; try apply sanitize_safe. by eexists.
    + destruct Hc as (Hpk & -> & -> & Hconn & s & Hs & Hfp). rewrite Hpk in Hf. destruct Hf as (Hfk & s' & Hs' & Hd). simplify_eq.
      split_and!; try done; try apply sanitize_safe. by exists s.
  - intros sig Hs%Hserve. apply serve_signed in Hs as (q & c & pre & post & Hq & Ha & E). rewrite E. exists q, c, pre. eexists. split_and!; [done|done|].
    by rewrite <- !app_assoc.
  - by rewrite last_app_cons.
Qed.

(** ** Witnesses *)

Lemma proxy_prompts_witness :
  let r := mkProxyRequest "host" "linux" "1.0" "192.0.2.1" in
  let q := mkAgentRequest (mkKey "ssh-ed25519" [x41]) [x42] 0 (fun _ => inl ErrDenied) (fun _ => inr "action"%string) in
  last (Handler (fun _ => inl InvalidASN1) (fun _ => "fp"%string) (fun _ data _ => Some (mkSignature [] data [])) (Some "alice"%string) true (Some "c1"%string)
    (buildIdentities toy_parse toy_fingerprint toy_marshal true NewKeyDir (deploy_key [x41]) ["SHA256:A"%string] (Some (ActiveCredentialsForAuth (mkDB [] [] None) "alice")) "rp") r [q; q])
  = Some (ProxyCancel "c1" "agent-proxy connection closed").
Proof.
  cbv zeta. destruct (buildIdentities _ _ _ _ _ _ _ _ _) as [ids|] eqn:E; [|discriminate].
  exact (proj2 (proj2 (proxy_prompts (fun _ => inl InvalidASN1) (fun _ => "fp"%string) (fun _ data _ => Some (mkSignature [] data [])) _ _ _ _ _ _ _ _ _ _ _
    (Some "c1"%string) (mkProxyRequest "host" "linux" "1.0" "192.0.2.1") _ E))).
Defined.
