(* ===== verification/AgentSession.v ===== *)
(** * What an agent may do with terminals (internal/agent/session.go)

    One request of an OAuth client: sessions are visible to the client that
    opened them, endpoints to its account. The requests become labels of the
    session registry; a long-polling read is a goroutine next to the registry's
    own, with its subscriptions and its wake channel. *)
From stdpp Require Import pretty.
From S2P Require Import Prelude GoStrings AuditLog Buffer Terminal Hub HubManager PinStore Keys.
From Stdlib Require Import Ascii.

(** ** The session of a request *)

Record Agent := mkAgent {
  ag_accountID : string; ag_clientID : string; ag_sourceIP : string; ag_maxOwned : Z; ag_clientName : string; ag_clientVer : string }.

(** A negative cap is the default. *)
Definition NewAgent (accountID clientID sourceIP : string) (maxOwned : Z) : Agent :=
  mkAgent accountID clientID sourceIP (if maxOwned <? 0 then 5 else maxOwned) "" "".

Definition SetClientInfo (s : Agent) (name version : string) : Agent :=
  mkAgent (ag_accountID s) (ag_clientID s) (ag_sourceIP s) (ag_maxOwned s)
    (SanitizeClientReported name) (SanitizeClientReported version).

Definition owned_by (s : Agent) (sess : Session) : bool :=
  bool_decide (s_Source sess = SourceMCP) && bool_decide (AccountID sess = ag_accountID s)
  && bool_decide (OwnerClientID sess = ag_clientID s).

Definition ownsSession (s : Agent) (sess : option Session) : bool :=
  match sess with None => false | Some sess => owned_by s sess end.

Definition Owns (s : Agent) (m : Manager) (sid : string) : bool := ownsSession s (GetSession m sid).

(** ** Terminal sessions *)

Inductive agent_error := UnknownEndpoint (id : string) | TooManySessions (max : Z) | SessionNotFound (sid : string) | UnknownKey | DatabaseError.

Definition live_owned (s : Agent) (m : Manager) : Z :=
  zlen (List.filter (fun sess => owned_by s sess && negb (bool_decide (s_Status sess = StatusClosed))
    && negb (bool_decide (s_Status sess = StatusError))) (ListSessions m)).

Definition trigger_of (s : Agent) (reason : string) : Trigger :=
  mkTrigger SourceMCP (ag_sourceIP s) reason (ag_clientID s) (ag_clientName s) (ag_clientVer s).

Section Endpoints.
Context (sha256 : list byte -> list byte).
Variables (t : Table) (demo : option DemoService).

(** CreateSession up to the manager's Create: the label it becomes. [sid] is
    what the manager's id generator returns. *)
Definition CreateSession (s : Agent) (m : Manager) (io : list bool) (endpointID reason sid : string) : agent_error + Terminal.label :=
  match RefForAccount sha256 t demo io endpointID (ag_accountID s) with
  | None => inl DatabaseError
  | Some None => inl (UnknownEndpoint endpointID)
  | Some (Some ep) =>
      if live_owned s m >=? ag_maxOwned s then inl (TooManySessions (ag_maxOwned s))
      else inr (LCreate (Terminal.mkRef (ref_ID ep) (ref_AccountID ep)) (ag_accountID s) (trigger_of s reason) sid)
  end.

Definition ListSessions (s : Agent) (m : Manager) : list Session :=
  List.filter (owned_by s) (Terminal.ListSessions m).

Definition SendKeys (s : Agent) (m : Manager) (sid : string) (keys : list string) : agent_error + Terminal.label :=
  if negb (Owns s m sid) then inl (SessionNotFound sid)
  else
    match ResolveKeys keys with
    | None => inl UnknownKey
    | Some data => inr (LInput sid (bytes_of_string data))
    end.

Definition CloseSession (s : Agent) (m : Manager) (sid : string) : agent_error + Terminal.label :=
  if negb (Owns s m sid) then inl (SessionNotFound sid) else inr (LClose sid CloseClientMCP).

(** ** Endpoints *)

Record EndpointInfo := mkInfo {
  ei_ID : string; ei_Label : string; ei_Host : string; ei_Port : Z; ei_Username : string; ei_Description : option string }.

Definition ListEndpoints (s : Agent) (show : bool) (io : list bool) : option (list EndpointInfo) :=
  map (fun x => let e := fst x in mkInfo (ep_ID e) (ep_Label e) (ep_Host e) (ep_Port e) (ep_Username e) (ep_Description e))
    <$> Svc_ListForAccount sha256 t demo show io (ag_accountID s).

Definition GetEndpoint (s : Agent) (io : list bool) (id : string) : option (option Endpoint) :=
  match Svc_GetForAccount sha256 t demo io id (ag_accountID s) with
  | None => None
  | Some None => Some None
  | Some (Some x) => Some (Some (fst x))
  end.

End Endpoints.

Definition with_account (acc : string) (ep : Endpoint) : Endpoint :=
  mkEndpoint (ep_ID ep) acc (ep_Label ep) (ep_Host ep) (ep_Port ep) (ep_Username ep) (ep_UserVerification ep)
    (ep_Description ep) (ep_AgentForward ep) (ep_HostKey ep).

Definition CreateEndpoint (t : Table) (s : Agent) (io : list bool) (now : string) (ep : Endpoint) : Table * bool :=
  PinStore.Create t io now (with_account (ag_accountID s) ep).

(** [None] keeps the stored value; the description has a flag of its own. *)
Record EndpointPatch := mkPatch {
  pt_Label : option string; pt_Host : option string; pt_Port : option Z; pt_Username : option string;
  pt_UserVerification : option string; pt_AgentForward : option bool; pt_Description : option string; pt_DescriptionSet : bool }.

Definition merge (e : Endpoint) (p : EndpointPatch) : Endpoint :=
  mkEndpoint (ep_ID e) (ep_AccountID e) (default (ep_Label e) (pt_Label p)) (default (ep_Host e) (pt_Host p))
    (default (ep_Port e) (pt_Port p)) (default (ep_Username e) (pt_Username p))
    (default (ep_UserVerification e) (pt_UserVerification p))
    (if pt_DescriptionSet p then pt_Description p else ep_Description e)
    (default (ep_AgentForward e) (pt_AgentForward p)) (ep_HostKey e).

Definition endpointAddress (ep : Endpoint) : string :=
  (ep_Username ep ++ "@" ++ ep_Host ep ++ ":" ++ pretty (ep_Port ep))%string.

Definition cleared_event (s : Agent) (existing : Endpoint) (pin : HostKeyPin) : HostKeyEvent :=
  mkHKEvent "host-key-cleared" (ep_AccountID existing) (ep_ID existing) (ep_Label existing) (endpointAddress existing) "endpoint-admin"
    (hp_Fingerprint pin) "" "endpoint host/port updated via MCP" (ag_sourceIP s) "" (ag_clientName s) (ag_clientVer s).

Definition address_changed (a b : Endpoint) : bool :=
  negb (bool_decide (ep_Host a = ep_Host b)) || negb (ep_Port a =? ep_Port b).

(** The write that follows the read of [existing]; the table may have moved on
    between the two. [audit] says whether there is an auditor. *)
Definition update_write (t : Table) (s : Agent) (io : list bool) (now : string) (audit : bool) (existing : Endpoint) (patch : EndpointPatch)
  : Table * option bool * list HostKeyEvent :=
  let merged := merge existing patch in
  let '(t', ok) := PinStore.Update t io now merged in
  (t', ok,
   match ok, ep_HostKey existing with
   | Some true, Some pin => if audit && address_changed existing merged then [cleared_event s existing pin] else []
   | _, _ => []
   end).

(** [io1], [io2] answer the two queries. *)
Definition UpdateEndpoint (t : Table) (s : Agent) (io1 io2 : list bool) (now : string) (audit : bool) (id : string) (patch : EndpointPatch)
  : Table * option bool * list HostKeyEvent :=
  match PinStore.GetForAccount t io1 id (ag_accountID s) with
  | None => (t, None, [])
  | Some None => (t, Some false, [])
  | Some (Some existing) => update_write t s io2 now audit existing patch
  end.

Definition DeleteEndpoint (t : Table) (s : Agent) (io : list bool) (now id : string) : Table * option bool :=
  PinStore.Delete t io now id (ag_accountID s).

(** ** Reading, with a long poll *)

Inductive pstate :=
  | PRead | PCheck (res : ReadResult) | PSubOut | PSubStatus | PLoopRead | PLoopCheck (res : ReadResult) | PSelect | PFinal
  | PDone (res : option ReadResult).   (* [None] is an error *)

(** The subscriptions, and the wake channel of one slot. *)
Record poller := mkPoller { p_state : pstate; p_out : bool; p_status : bool; p_wake : bool }.

Definition start_poll : poller := mkPoller PRead false false false.

(** An agent's read starts polling only on a session of its own. *)
Definition ReadOutput (s : Agent) (m : Manager) (sid : string) : agent_error + poller :=
  if negb (Owns s m sid) then inl (SessionNotFound sid) else inr start_poll.

Section Poll.
Variables (sid : string) (afterOffset limit : Z) (wait : bool).

Definition poll_read (m : Manager) : option ReadResult :=
  match Terminal.ReadOutput m sid afterOffset limit with Some (Some r) => Some r | _ => None end.

Definition no_data (r : ReadResult) : bool := match rr_Data r with [] => true | _ => false end.

Definition terminal_state (st : Status) : bool := bool_decide (st = StatusClosed) || bool_decide (st = StatusError).

Definition over (m : Manager) : bool :=
  match GetSession m sid with None => true | Some s => terminal_state (s_Status s) end.

(** The ready case of the select; [Go] is also the next instruction elsewhere. *)
Inductive choice := Go | Timer | Cancel.

Definition poll_done (r : option ReadResult) : poller := mkPoller (PDone r) false false false.
Definition at_ (p : poller) (st : pstate) : poller := mkPoller st (p_out p) (p_status p) (p_wake p).

Definition poll_step (m : Manager) (p : poller) (c : choice) : poller :=
  match p_state p with
  | PRead =>
      match poll_read m with
      | None => poll_done None
      | Some r => if negb wait || negb (no_data r) then poll_done (Some r) else at_ p (PCheck r)
      end
  | PCheck r => if over m then poll_done (Some r) else at_ p PSubOut
  | PSubOut => mkPoller PSubStatus true (p_status p) (p_wake p)
  | PSubStatus => mkPoller PLoopRead (p_out p) true (p_wake p)
  | PLoopRead =>
      match poll_read m with
      | None => poll_done None
      | Some r => if negb (no_data r) then poll_done (Some r) else at_ p (PLoopCheck r)
      end
  | PLoopCheck r => if over m then poll_done (Some r) else at_ p PSelect
  | PSelect =>
      match c with
      | Go => if p_wake p then mkPoller PLoopRead (p_out p) (p_status p) false else p
      | Timer => at_ p PFinal
      | Cancel => poll_done None
      end
  | PFinal => poll_done (poll_read m)
  | PDone _ => p
  end.

(** What the subscribed callbacks make of the hook calls of a step. *)
Definition pokes (p : poller) (o : obs) : bool :=
  match o with
  | OutputHook id _ => p_out p && bool_decide (id = sid)
  | StatusHook ev => p_status p && bool_decide (ev_SessionID ev = sid) && terminal_state (ev_Status ev)
  | _ => false
  end.

Definition poked (p : poller) (new : list obs) : poller :=
  mkPoller (p_state p) (p_out p) (p_status p) (p_wake p || existsb (pokes p) new).

(** The registry and the reader, interleaved. *)
Definition poll_sys_step (w : Manager * poller) (l : Terminal.label + choice) : Manager * poller :=
  match l with
  | inl l => let m' := Terminal.step (fst w) l in (m', poked (snd w) (drop (length (log (fst w))) (log m')))
  | inr c => (fst w, poll_step (fst w) (snd w) c)
  end.

End Poll.

(** ** Confinement *)

Inductive agent_request :=
  | RqCreate (io : list bool) (endpointID reason sid : string)
  | RqSend (sid : string) (keys : list string)
  | RqClose (sid : string).

Definition request_label (sha256 : list byte -> list byte) (t : Table) (demo : option DemoService) (s : Agent) (m : Manager)
  (rq : agent_request) : agent_error + Terminal.label :=
  match rq with
  | RqCreate io ep reason sid => CreateSession sha256 t demo s m io ep reason sid
  | RqSend sid keys => SendKeys s m sid keys
  | RqClose sid => CloseSession s m sid
  end.

(** A session of the client, opened by a request of that client for an endpoint
    of the account. *)
Definition own_terminal (ls : list Terminal.label) (s : Agent) (sid : string) : Prop :=
  exists ep tr, LCreate ep (ag_accountID s) tr sid ∈ ls /\ Terminal.ep_AccountID ep = ag_accountID s /\
    tr_Kind tr = SourceMCP /\ tr_OwnerClientID tr = ag_clientID s.

Lemma owned_session max ls s sid : Owns s (run max ls) sid = true -> own_terminal ls s sid.
Proof.
  unfold Owns, ownsSession, GetSession, lookup_session, get. destruct (run_origins max ls) as (_ & Hheap & Hterm).
  destruct (terminals (run max ls) !! sid) as [r|] eqn:Er; [|done]. simpl.
  destruct (heap (run max ls) !! r) as [g|] eqn:Eg; [|done]. simpl. unfold owned_by. intros Ho.
  apply andb_true_iff in Ho as [Ho Hc]. apply andb_true_iff in Ho as [Hs Ha].
  apply bool_decide_eq_true in Hs, Ha, Hc.
  destruct (Hterm sid r Er) as (g' & Hg' & Hid). rewrite Eg in Hg'. simplify_eq.
  destruct (Hheap r g' Eg) as (ep & ex & tr & Hin & He & Hacc & _ & Hsrc & Hown). exists ep, tr.
  assert (tr_Kind tr = SourceMCP) as Hk by congruence. rewrite decide_True in Hown by done.
  subst ex. rewrite <- Ha. split_and!; [by rewrite Hacc|congruence|done|congruence].
Qed.

Lemma ref_account sha256 t demo io id acc ep : RefForAccount sha256 t demo io id acc = Some (Some ep) -> ref_AccountID ep = acc.
Proof.
  unfold RefForAccount, Svc_GetForAccount. destruct (IsID id).
  - destruct demo as [d|]; [|done]. destruct (List.find _ _) as [e|] eqn:E; [|done]. intros [= <-]. cbn.
    apply find_some in E as [Hin _]. unfold List_ in Hin. apply in_map_iff in Hin as (x & <- & _). done.
  - unfold GetForAccount. destruct (answers io 0); [|done]. destruct (t !! id) as [r|]; [|done].
    case_bool_decide as Ha; [|done]. intros [= <-]. cbn. exact Ha.
Qed.

(** (C10) An agent's request reaches nothing but its client's own sessions: keys
    and closing go to a session that this client opened over MCP, for its
    account; a new session is for an endpoint of the account and belongs to
    this client. *)
Theorem agent_confined sha256 t demo (max : Z) (ls : list Terminal.label) (s : Agent) (rq : agent_request) (l : Terminal.label)
  (Hl : request_label sha256 t demo s (run max ls) rq = inr l) :
  match l with
  | LInput sid _ | LClose sid _ => own_terminal ls s sid
  | LCreate ep ex tr _ => Terminal.ep_AccountID ep = ag_accountID s /\ ex = ag_accountID s /\ tr_Kind tr = SourceMCP /\ tr_OwnerClientID tr = ag_clientID s
  | _ => False
  end.
Proof.
  destruct rq as [io epid reason sid|sid keys|sid]; cbn [request_label] in Hl.
  - unfold CreateSession in Hl. destruct (RefForAccount _ _ _ _ _ _) as [[ep|]|] eqn:Er; try done.
    destruct (_ >=? _); [done|]. injection Hl as <-. cbn. by rewrite (ref_account _ _ _ _ _ _ _ Er).
  - unfold SendKeys in Hl. destruct (Owns s _ sid) eqn:Ho; [|done]. cbn [negb] in Hl. destruct (ResolveKeys keys); [|done].
    injection Hl as <-. by apply (owned_session max).
  - unfold CloseSession in Hl. destruct (Owns s _ sid) eqn:Ho; [|done]. injection Hl as <-. by apply (owned_session max).
Qed.

(** ** The cap *)

Definition counts (s : Agent) (g : managed) : nat :=
  if owned_by s (session g) && negb (bool_decide (status_of g = StatusClosed)) && negb (bool_decide (status_of g = StatusError))
  then 1 else 0.

Lemma live_owned_total s m : live_owned s m = Z.of_nat (total (fun x => counts s (snd x)) (sessions m)).
Proof.
  unfold live_owned, Terminal.ListSessions. f_equal. induction (sessions m) as [|x l IH]; [done|]. cbn [List.filter].
  unfold total in *. cbn [sum_list_with]. unfold counts at 1. unfold not_closed at 1.
  destruct (bool_decide (status_of (snd x) = StatusClosed)) eqn:Ec; cbn [negb map].
  - by rewrite andb_false_r, IH.
  - cbn [List.filter]. unfold status_of in *. rewrite Ec. cbn [negb]. destruct (owned_by s (session (snd x)) && true && _); cbn [length]; by rewrite IH.
Qed.

Lemma total_perm {A} (w : A -> nat) l l' : l ≡ₚ l' -> total w l = total w l'.
Proof. unfold total. induction 1; cbn; lia. Qed.

(** The registered objects along a list of entries. *)
Definition entries_of (h : gmap nat managed) (l : list (string * nat)) : list (string * managed) :=
  omap (fun x => g ← h !! snd x; Some (fst x, g)) l.

Lemma entries_of_insert h r g l : (forall x, x ∈ l -> snd x <> r) -> entries_of (<[r := g]> h) l = entries_of h l.
Proof.
  intros Hl. unfold entries_of. induction l as [|x l IH]; [done|]. cbn [omap list_omap].
  rewrite lookup_insert_ne by (intros Heq; apply (Hl x); [set_solver|done]).
  rewrite IH; [done|]. intros y Hy. apply Hl. set_solver.
Qed.

Lemma sessions_register m now ep tr sid :
  wf_refs m -> pointers m -> terminals m !! sid = None -> destroyed m = false ->
  sessions (fst (register m now ep tr sid)) ≡ₚ
    (sid, mkManaged (new_session now ep tr sid) false (NewOutputBuffer (maxBufferSize m)) false false true) :: sessions m.
Proof.
  intros Hwf Hp Hs Hd. unfold register. rewrite Hd. cbn [fst]. unfold sessions. cbn [terminals heap].
  set (g := mkManaged _ _ _ _ _ _).
  change (entries_of (<[next_ref m := g]> (heap m)) (map_to_list (<[sid := next_ref m]> (terminals m))) ≡ₚ
    (sid, g) :: entries_of (heap m) (map_to_list (terminals m))).
  assert (forall x, x ∈ map_to_list (terminals m) -> snd x <> next_ref m) as Hne.
  { intros [k r] Hin Heq. apply elem_of_map_to_list in Hin. destruct (Hp k r Hin) as (g' & Hg & _). cbn in Heq. subst r.
    pose proof (Hwf _ (ex_intro _ _ Hg)). lia. }
  rewrite <- (entries_of_insert (heap m) (next_ref m) g) by exact Hne.
  transitivity (entries_of (<[next_ref m := g]> (heap m)) ((sid, next_ref m) :: map_to_list (terminals m))).
  - unfold entries_of. apply omap_Permutation. by apply map_to_list_insert.
  - unfold entries_of at 1. cbn [omap list_omap fst snd]. by rewrite lookup_insert_eq.
Qed.

(** One creation at a time keeps to the cap: when the check lets a request
    through and its session is registered before anything else happens, the
    client has at most its allowance of live sessions. *)
Theorem cap_respected sha256 t demo (max : Z) (ls : list Terminal.label) (s : Agent) (io : list bool) (epid reason sid : string)
  (now : Z) (l : Terminal.label)
  (Hok : CreateSession sha256 t demo s (run max ls) io epid reason sid = inr l)
  (Hfresh : terminals (run max ls) !! sid = None) (Hup : destroyed (run max ls) = false) :
  let m := run max (ls ++ [l; Terminal.LRun (length (Terminal.threads (run max ls))) (Now now)]) in
  is_Some (terminals m !! sid) /\ live_owned s m <= ag_maxOwned s.
Proof.
  unfold CreateSession in Hok. destruct (RefForAccount _ _ _ _ _ _) as [[ep|]|] eqn:Er; try done.
  destruct (live_owned s (run max ls) >=? ag_maxOwned s) eqn:Hcap; [done|]. injection Hok as <-.
  cbv zeta. set (m := run max ls) in *. destruct (manager_run_inv max ls) as [Hwf _]. fold m in Hwf.
  pose proof (run_pointers max ls) as Hp. fold m in Hp.
  unfold run. rewrite fold_left_app. fold (run max ls). fold m. cbn [fold_left Terminal.step].
  set (ref := Terminal.mkRef (ref_ID ep) (ref_AccountID ep)). set (tr := trigger_of s reason).
  assert (Terminal.ep_AccountID ref = ag_accountID s) as Hacc by (unfold ref; cbn; by eapply ref_account).
  set (m0 := Terminal.spawn m _). assert (Terminal.threads m0 !! length (Terminal.threads m) = Some (CreateStart ref (ag_accountID s) tr sid)) as Hth.
  { unfold m0, Terminal.spawn. cbn [Terminal.threads Terminal.with_threads]. rewrite lookup_app_r by lia. by rewrite Nat.sub_diag. }
  unfold run_tid. rewrite Hth. cbn [run_thread create_step]. rewrite (bool_decide_true (Terminal.ep_AccountID ref = _)) by done. cbn [negb].
  pose proof (sessions_register m0 now ref tr sid Hwf Hp Hfresh Hup) as Hperm.
  destruct (register m0 now ref tr sid) as [m1 o] eqn:Hreg. unfold register in Hreg. unfold m0 in Hreg at 1. cbn in Hreg.
  fold m in Hup. rewrite Hup in Hreg. injection Hreg as <- <-. cbn [fst] in Hperm.
  split; [cbn; rewrite lookup_insert_eq; by eexists|].
  rewrite live_owned_total. erewrite total_perm; [|exact Hperm]. unfold total. cbn [sum_list_with].
  change (sum_list_with (fun x => counts s (snd x)) (sessions m0)) with (total (fun x => counts s (snd x)) (sessions m)).
  pose proof (live_owned_total s m) as Ht. bool_to_prop.
  match goal with |- context [counts s ?g] => assert (counts s g <= 1)%nat by (unfold counts; destruct (_ && _); lia) end.
  cbn [snd] in *. lia.
Qed.

(** ** The reader never sleeps through what it waits for *)

(** Objects of the registry after a step: unchanged in status, or their change
    is about to be announced. *)
Definition announces (sid : string) (th : thread) : Prop :=
  exists ev k, th = Emit (StatusHook ev) k /\ ev_SessionID ev = sid /\ terminal_state (ev_Status ev) = true.

Definition status_kept (m m' : Manager) (th' : thread) : Prop :=
  forall sid r g', terminals m' !! sid = Some r -> heap m' !! r = Some g' -> terminal_state (status_of g') = true ->
    (terminals m !! sid = Some r /\ exists g, heap m !! r = Some g /\ status_of g = status_of g') \/ announces sid th'.

Lemma status_kept_same m m' th' :
  (forall sid r, terminals m' !! sid = Some r -> terminals m !! sid = Some r) ->
  (forall r g', heap m' !! r = Some g' -> exists g, heap m !! r = Some g /\ status_of g = status_of g') ->
  status_kept m m' th'.
Proof. intros Ht Hh sid r g' Hr Hg _. left. split; [by apply Ht|by apply Hh]. Qed.

Lemma upd_status m r0 f r g' :
  (forall g, status_of (f g) = status_of g) -> heap (Terminal.upd m r0 f) !! r = Some g' ->
  exists g, heap m !! r = Some g /\ status_of g = status_of g'.
Proof.
  intros Hf Hg. cbn in Hg. destruct (decide (r0 = r)) as [->|].
  - rewrite lookup_alter_eq in Hg. destruct (heap m !! r) as [g|]; [|done]. injection Hg as <-. exists g. by rewrite Hf.
  - rewrite lookup_alter_ne in Hg by done. by exists g'.
Qed.

Lemma setStatus_kept m r st reason m' ev k :
  pointers m -> setStatus m r st reason = (m', ev) -> status_kept m m' (emit_status ev k).
Proof.
  intros Hp. unfold setStatus. destruct (heap m !! r) as [g|] eqn:E.
  2: { intros [= <- <-]. apply status_kept_same; [done|]. eauto. }
  destruct (absorbed _ _); [intros [= <- <-]; apply status_kept_same; [done|]; eauto|].
  cbn [transition]. intros [= <- <-] sid r' g' Hr Hg Hterm. cbn in Hr, Hg. destruct (decide (r = r')) as [<-|Hne].
  - rewrite lookup_alter_eq, E in Hg. injection Hg as <-. right. eexists _, k. split; [reflexivity|].
    destruct (Hp _ _ Hr) as (g1 & Hg1 & <-). rewrite E in Hg1. injection Hg1 as <-. split; [done|exact Hterm].
  - rewrite lookup_alter_ne in Hg by done. left. eauto.
Qed.

Lemma beginClosing_kept m r reason m' ev th :
  beginClosing m r reason = (m', ev) -> status_kept m m' th.
Proof.
  unfold beginClosing. destruct (heap m !! r) as [g|] eqn:E; [|intros [= <- <-]; apply status_kept_same; [done|]; eauto].
  destruct (_ || _); [intros [= <- <-]; apply status_kept_same; [done|]; eauto|].
  cbn [transition]. intros [= <- <-] sid r' g' Hr Hg Hterm. cbn in Hr, Hg. destruct (decide (r = r')) as [<-|Hne].
  - rewrite lookup_alter_eq, E in Hg. injection Hg as <-. cbn in Hterm. done.
  - rewrite lookup_alter_ne in Hg by done. left. eauto.
Qed.

Lemma removeEntry_kept m sid m' did th : removeEntry m sid = (m', did) -> status_kept m m' th.
Proof.
  unfold removeEntry. destruct (terminals m !! sid) as [r|] eqn:E; intros [= <- <-]; apply status_kept_same; try done; eauto.
  - intros sid' r' Hr. cbn in Hr. by apply lookup_delete_Some in Hr as [_ Hr].
  - intros r' g' Hg. cbn in Hg. eapply upd_status in Hg; [exact Hg|]. done.
Qed.

Lemma run_thread_status m th e m' th' new :
  wf_refs m -> pointers m -> run_thread m th e = Some (m', th', new) -> status_kept m m' th'.
Proof.
  intros Hwf Hp H. destruct th; try (unfold run_thread, create_step, close_step, pump_step, input_step in H; simpl in H; run_cases; simplify_eq/=;
    first [ by eapply setStatus_kept | by eapply beginClosing_kept | by eapply removeEntry_kept
          | by apply status_kept_same; eauto
          | by apply status_kept_same; [done|]; intros r' g' Hg; eapply upd_status in Hg; [exact Hg|] ]).
  apply run_create_start in H as [->|(now & Ht & Hh)]; [apply status_kept_same; eauto|].
  intros sid' r g' Hr Hg Hterm. rewrite Ht in Hr. rewrite Hh in Hg.
  apply lookup_insert_Some in Hr as [[<- <-]|[Hne Hr]].
  - rewrite lookup_insert_eq in Hg. injection Hg as <-. cbn in Hterm. done.
  - left. split; [done|]. rewrite lookup_insert_ne in Hg; [eauto|]. intros <-.
    destruct (Hp _ _ Hr) as (g & Hg0 & _). pose proof (Hwf _ (ex_intro _ _ Hg0)). lia.
Qed.

(** Output likewise. *)
Definition will_output (m : Manager) (sid : string) (th : thread) : Prop :=
  (exists r, th = PumpActivity r /\ terminals m !! sid = Some r) \/ (exists off k, th = Emit (OutputHook sid off) k).

Definition output_kept (sid : string) (m m' : Manager) (th' : thread) : Prop :=
  forall r g', terminals m' !! sid = Some r -> heap m' !! r = Some g' ->
    buf (output g') = [] \/
    (terminals m !! sid = Some r /\ exists g, heap m !! r = Some g /\ output g' = output g) \/ will_output m' sid th'.

Lemma run_thread_output sid m th e m' th' new :
  wf_refs m -> pointers m -> run_thread m th e = Some (m', th', new) -> output_kept sid m m' th'.
Proof.
  intros Hwf Hp H r g' Hr Hg. pose proof (run_thread_kept _ _ _ _ _ _ Hp H) as Hk.
  destruct (match th with CreateStart _ _ _ _ => true | _ => false end) eqn:Ec.
  2: { destruct th; try discriminate Ec; destruct (Hk _ _ _ Hr Hg) as (Hr0 & g & Hg0 & Ho); cbn [output_after] in Ho;
       try (right; left; eauto; fail).
       case_bool_decide as Hrr; [|right; left; eauto]. subst r0. right. right. left. exists r. split; [|done].
       cbn in H. by injection H as <- <- <-. }
  destruct th; try discriminate Ec. apply run_create_start in H as [->|(now & Ht & Hh)]; [right; left; eauto|].
  rewrite Ht in Hr. rewrite Hh in Hg. apply lookup_insert_Some in Hr as [[<- <-]|[Hne Hr]].
  - rewrite lookup_insert_eq in Hg. injection Hg as <-. by left.
  - right. left. split; [done|]. rewrite lookup_insert_ne in Hg; [eauto|]. intros <-.
    destruct (Hp _ _ Hr) as (g & Hg0 & _). pose proof (Hwf _ (ex_intro _ _ Hg0)). lia.
Qed.

Section Wakeup.
Variables (sid : string) (afterOffset limit : Z) (wait : bool).

Abbreviation read := (poll_read sid afterOffset limit).
Abbreviation sys_step := (poll_sys_step sid afterOffset limit wait).

Definition has_data (m : Manager) : Prop := exists r, read m = Some r /\ no_data r = false.
Definition is_over (m : Manager) : Prop := exists s, GetSession m sid = Some s /\ terminal_state (s_Status s) = true.

(** What the reader waits for. *)
Definition due (m : Manager) : Prop := has_data m \/ is_over m.

(** A hook call about the session is under way. *)
Definition hook_pending (m : Manager) : Prop :=
  exists i th, Terminal.threads m !! i = Some th /\ (will_output m sid th \/ announces sid th).

Lemma empty_buffer_read b r : buf b = [] -> Buffer.Read b afterOffset limit = Some r -> no_data r = true.
Proof.
  unfold Buffer.Read, slice. intros ->. cbn [length]. destruct (_ && _); [|done]. cbn. intros [= <-]. cbn.
  by rewrite drop_nil, take_nil.
Qed.

Lemma registered m : due m -> exists r g, terminals m !! sid = Some r /\ heap m !! r = Some g /\
  (has_data m -> exists x, Buffer.Read (output g) afterOffset limit = Some x /\ no_data x = false) /\
  (is_over m -> terminal_state (status_of g) = true).
Proof.
  intros Hd. assert (exists g, lookup_session m sid = Some g) as [g Hg].
  { destruct Hd as [(r & Hr & _)|(s & Hs & _)].
    - unfold poll_read, Terminal.ReadOutput in Hr. destruct (lookup_session m sid) as [g|]; [by exists g|done].
    - unfold GetSession in Hs. destruct (lookup_session m sid) as [g|]; [by exists g|done]. }
  unfold lookup_session, get in Hg. destruct (terminals m !! sid) as [r|] eqn:Et; [|done]. cbn in Hg. exists r, g.
  split; [done|]. split; [done|]. split.
  - intros (x & Hx & Hn). unfold poll_read, Terminal.ReadOutput, lookup_session, get in Hx. rewrite Et in Hx. cbn in Hx. rewrite Hg in Hx. cbn in Hx.
    destruct (Buffer.Read _ _ _) as [y|]; [|done]. injection Hx as ->. by exists x.
  - intros (s & Hs & Hn). unfold GetSession, lookup_session, get in Hs. rewrite Et in Hs. cbn in Hs. rewrite Hg in Hs. cbn in Hs.
    by injection Hs as <-.
Qed.

Lemma registered_data m r g x : terminals m !! sid = Some r -> heap m !! r = Some g ->
  Buffer.Read (output g) afterOffset limit = Some x -> no_data x = false -> has_data m.
Proof.
  intros Ht Hg Hx Hn. exists x. split; [|done]. unfold poll_read, Terminal.ReadOutput, lookup_session, get. rewrite Ht. cbn. rewrite Hg. cbn. by rewrite Hx.
Qed.

Lemma registered_over m r g : terminals m !! sid = Some r -> heap m !! r = Some g -> terminal_state (status_of g) = true -> is_over m.
Proof.
  intros Ht Hg Hs. exists (session g). split; [|exact Hs]. unfold GetSession, lookup_session, get. rewrite Ht. cbn. by rewrite Hg.
Qed.

(** A goroutine that was about to call a hook calls it, or is still about to. *)
Lemma hook_runs m th e m' th' new r :
  pointers m -> run_thread m th e = Some (m', th', new) -> terminals m !! sid = Some r ->
  will_output m sid th \/ announces sid th ->
  will_output m' sid th' \/
  (exists o, log m' = log m ++ [o] /\ forall p, p_out p = true -> p_status p = true -> pokes sid p o = true).
Proof.
  intros Hp H Ht [[(r' & -> & Hr)|(off & k & ->)]|(ev & k & -> & Hid & Hst)]; cbn in H.
  - destruct (heap m !! r') as [g|] eqn:Eg; [|done]. destruct e; try done. injection H as <- <- <-. left. right.
    destruct (Hp _ _ Hr) as (g0 & Hg0 & Hid). rewrite Eg in Hg0. injection Hg0 as <-. eexists _, _. by rewrite Hid.
  - injection H as <- <- <-. right. eexists. split; [reflexivity|]. intros p Ho _. cbn. rewrite Ho. by apply bool_decide_eq_true.
  - injection H as <- <- <-. right. eexists. split; [reflexivity|]. intros p _ Hs. cbn. rewrite Hs, Hst. cbn. by rewrite bool_decide_true.
Qed.

(** What a step of the registry does to the reader's situation. *)
Definition covered (m : Manager) (p : poller) : Prop := p_wake p = true \/ hook_pending m.

Lemma will_output_same m m' th r :
  terminals m !! sid = Some r -> terminals m' !! sid = Some r -> will_output m sid th -> will_output m' sid th.
Proof.
  intros H H' [(r' & -> & Hr)|(off & k & ->)]; [|right; eauto]. left. exists r'. split; [done|]. congruence.
Qed.

(** Nothing that was there is lost: if the entry is the same, a covered reader
    stays covered. *)
Lemma covered_run m p tid e th m1 th' new r :
  pointers m -> Terminal.threads m !! tid = Some th -> run_thread m th e = Some (m1, th', new) ->
  Terminal.threads m1 = Terminal.threads m -> p_out p = true -> p_status p = true ->
  terminals m !! sid = Some r -> terminals m1 !! sid = Some r -> covered m p ->
  covered (Terminal.with_threads m1 (<[tid := th']> (Terminal.threads m1) ++ match new with Some t => [t] | None => [] end))
    (poked sid p (drop (length (log m)) (log m1))).
Proof.
  intros Hp Hth Hrun Hts Ho Hs Ht Ht1 Hc. assert (tid < length (Terminal.threads m))%nat as Hlt by (by eapply lookup_lt_Some).
  destruct Hc as [Hw|(i & t0 & Hi & Hpend)]; [left; cbn; by rewrite Hw|].
  destruct (decide (i = tid)) as [->|Hne].
  - rewrite Hth in Hi. injection Hi as <-. destruct (hook_runs _ _ _ _ _ _ _ Hp Hrun Ht Hpend) as [Hw|(o & Hlog & Hpoke)].
    + right. exists tid, th'. split; [|by left]. cbn. rewrite Hts. rewrite lookup_app_l by (rewrite length_insert; lia).
      by rewrite list_lookup_insert_eq.
    + left. cbn. rewrite Hlog, drop_app_length. cbn. rewrite Hpoke by done. by rewrite orb_true_r.
  - right. exists i, t0. split.
    + cbn. rewrite Hts, lookup_app_l by (rewrite length_insert; by eapply lookup_lt_Some).
      by rewrite list_lookup_insert_ne.
    + destruct Hpend as [Hw|Ha]; [left|by right]. eapply will_output_same; [exact Ht|exact Ht1|exact Hw].
Qed.

(** A request adds goroutines and changes no status and no output. *)
Lemma due_request m l :
  pointers m -> (forall tid e, l <> Terminal.LRun tid e) ->
  log (Terminal.step m l) = log m /\
  (forall r, terminals (Terminal.step m l) !! sid = Some r -> terminals m !! sid = Some r) /\
  (has_data (Terminal.step m l) -> has_data m) /\ (is_over (Terminal.step m l) -> is_over m).
Proof.
  intros Hp Hl. destruct (Terminal.step_request m l) as [(tid & e & ->)|(_ & Ht & Hb & Hlog)]; [by destruct (Hl tid e)|].
  destruct (step_request_kept m l Hp) as [(tid & e & ->)|Hk]; [by destruct (Hl tid e)|].
  assert (forall r, terminals (Terminal.step m l) !! sid = Some r -> terminals m !! sid = Some r) as Hterm.
  { intros r Hr. by eapply lookup_weaken. }
  split; [done|]. split; [done|]. split; intros Hd.
  - destruct (registered _ (or_introl Hd)) as (r & g & Hr & Hg & Hdat & _). destruct (Hdat Hd) as (x & Hx & Hn).
    destruct (Hk _ _ _ Hr Hg) as (Hr0 & g0 & Hg0 & Ho). rewrite Ho in Hx. by eapply registered_data.
  - destruct (registered _ (or_intror Hd)) as (r & g & Hr & Hg & _ & Hov). destruct (Hb _ _ Hg) as (g0 & Hg0 & Hs & _).
    eapply registered_over; [by apply Hterm|exact Hg0|]. unfold status_of in *. rewrite <- Hs. by apply Hov.
Qed.

(** The reader's invariant: it has subscribed before it looks, and once it has
    looked, what it waits for has woken it up or is about to. *)
Definition looked (st : pstate) : bool := match st with PLoopCheck _ | PSelect => true | _ => false end.
Definition subscribed (st : pstate) : bool := match st with PLoopRead | PLoopCheck _ | PSelect => true | _ => false end.

Record poll_inv (m : Manager) (p : poller) : Prop := {
  pi_out : subscribed (p_state p) = true -> p_out p = true /\ p_status p = true;
  pi_sub : p_state p = PSubStatus -> p_out p = true;
  pi_data : looked (p_state p) = true -> has_data m -> covered m p;
  pi_over : p_state p = PSelect -> is_over m -> covered m p
}.

Lemma covered_request m p l :
  pointers m -> (forall tid e, l <> Terminal.LRun tid e) -> covered m p -> due (Terminal.step m l) ->
  covered (Terminal.step m l) (poked sid p (drop (length (log m)) (log (Terminal.step m l)))).
Proof.
  intros Hp Hl Hc Hd. destruct (due_request m l Hp Hl) as (Hlog & Hterm & _).
  destruct Hc as [Hw|(i & th & Hi & Hpend)]; [left; cbn; by rewrite Hw|]. right. exists i, th.
  destruct (Terminal.step_threads m l) as [(tid & e & ->)|(ts & Hts & _)]; [by destruct (Hl tid e)|]. rewrite Hts.
  split; [rewrite lookup_app_l; [done|by eapply lookup_lt_Some]|].
  destruct Hpend as [Hw|Ha]; [left|by right]. destruct (registered _ Hd) as (r & g & Hr & _).
  eapply will_output_same; [by apply Hterm|exact Hr|exact Hw].
Qed.

Lemma covered_step max ls p l :
  let m := run max ls in let m' := Terminal.step m l in
  p_out p = true -> p_status p = true ->
  (has_data m' -> (has_data m -> covered m p) -> covered m' (poked sid p (drop (length (log m)) (log m')))) /\
  (is_over m' -> (is_over m -> covered m p) -> covered m' (poked sid p (drop (length (log m)) (log m')))).
Proof.
  intros m m' Ho Hs. pose proof (run_pointers max ls) as Hp. fold m in Hp. destruct (manager_run_inv max ls) as [Hwf Hgood]. fold m in Hwf, Hgood.
  destruct (match l with Terminal.LRun _ _ => true | _ => false end) eqn:Er.
  2: { assert (forall tid e, l <> Terminal.LRun tid e) as Hl by (intros tid e ->; discriminate Er).
       destruct (due_request m l Hp Hl) as (_ & _ & H1 & H2).
       split; intros Hd Hc; apply covered_request; try done; try (by apply Hc, H1); try (by apply Hc, H2); [by left|by right]. }
  destruct l as [| | | | | | | | |tid e]; try discriminate Er. subst m'. cbn [Terminal.step]. unfold run_tid.
  assert (forall x : list obs, drop (length x) x = []) as Hnil by (intros x; apply drop_ge; lia).
  assert (forall q, p_wake q = p_wake (poked sid q []) ) as Hpk by (intros q; cbn; by rewrite orb_false_r).
  assert ((has_data m -> covered m p) -> has_data m -> covered m (poked sid p [])) as Hstay1.
  { intros Hc Hd. destruct (Hc Hd) as [Hw|Hw]; [left; by rewrite <- Hpk|by right]. }
  assert ((is_over m -> covered m p) -> is_over m -> covered m (poked sid p [])) as Hstay2.
  { intros Hc Hd. destruct (Hc Hd) as [Hw|Hw]; [left; by rewrite <- Hpk|by right]. }
  destruct (Terminal.threads m !! tid) as [th|] eqn:Hth; [|rewrite Hnil; split; auto].
  destruct (run_thread m th e) as [[[m1 th'] new]|] eqn:Hrun; [|rewrite Hnil; split; auto].
  rewrite Forall_lookup in Hgood. pose proof (run_thread_threads _ _ _ _ _ _ (Hgood _ _ Hth) Hrun) as Hts.
  assert (tid < length (Terminal.threads m))%nat as Hlt by (by eapply lookup_lt_Some).
  set (m2 := Terminal.with_threads m1 _). assert (log m2 = log m1) as Hlog by done. rewrite Hlog.
  assert (forall Q : thread -> Prop, Q th' -> exists i t0, Terminal.threads m2 !! i = Some t0 /\ Q t0) as Hnow.
  { intros Q HQ. exists tid, th'. split; [|done]. cbn. rewrite Hts, lookup_app_l by (rewrite length_insert; lia). by rewrite list_lookup_insert_eq. }
  split; intros Hd Hc.
  - destruct (registered _ (or_introl Hd)) as (r & g & Hr & Hg & Hdat & _). destruct (Hdat Hd) as (x & Hx & Hn).
    destruct (run_thread_output sid _ _ _ _ _ _ Hwf Hp Hrun r g Hr Hg) as [Hb|[(Hr0 & g0 & Hg0 & Hout)|Hw]].
    + by rewrite (empty_buffer_read _ _ Hb Hx) in Hn.
    + eapply covered_run; try done. apply Hc. rewrite Hout in Hx. by eapply registered_data.
    + right. unfold hook_pending. apply (Hnow (fun t => will_output m2 sid t \/ announces sid t)). by left.
  - destruct (registered _ (or_intror Hd)) as (r & g & Hr & Hg & _ & Hov).
    destruct (run_thread_status _ _ _ _ _ _ Hwf Hp Hrun sid r g Hr Hg (Hov Hd)) as [(Hr0 & g0 & Hg0 & Hst)|Ha].
    + eapply covered_run; try done. apply Hc. eapply registered_over; [done|done|]. rewrite Hst. by apply Hov.
    + right. unfold hook_pending. apply (Hnow (fun t => will_output m2 sid t \/ announces sid t)). by right.
Qed.

Lemma poll_step_inv m p c : poll_inv m p -> poll_inv m (poll_step sid afterOffset limit wait m p c).
Proof.
  intros [Ho Hs Hd Hov]. unfold poll_step. destruct (p_state p) as [|r| | | |r| | |r] eqn:Es; cbn in Ho, Hs, Hd, Hov.
  - destruct (read m) as [r|]; [|by split]. destruct (_ || _); by split.
  - destruct (over sid m); by split.
  - by split.
  - split; cbn; try done. intros _. split; [by apply Hs|done].
  - destruct (read m) as [r|] eqn:Er; [|by split]. destruct (no_data r) eqn:En; cbn [negb]; [|by split].
    split; cbn; try done; try (intros; by apply Ho). intros _ (x & Hx & Hn). rewrite Er in Hx. injection Hx as <-. congruence.
  - destruct (over sid m) eqn:Eo; [by split|]. split; cbn; try done; try (intros; by apply Ho); try (intros; by apply Hd).
    intros _ (x & Hx & Hn). unfold over in Eo. rewrite Hx in Eo. congruence.
  - destruct c; [|by split|by split]. destruct (p_wake p); split; cbn; rewrite ?Es; try done; try (intros; by apply Ho); try (intros; by apply Hd);
      try (intros; by apply Hov).
  - by split.
  - split; cbn; rewrite ?Es; done.
Qed.

Definition poll_run (max : Z) (ls : list Terminal.label) (ws : list (Terminal.label + choice)) : Manager * poller :=
  foldl sys_step (run max ls, start_poll) ws.

Lemma poll_run_inv max ls ws :
  (exists ls', fst (poll_run max ls ws) = run max ls') /\ poll_inv (fst (poll_run max ls ws)) (snd (poll_run max ls ws)).
Proof.
  unfold poll_run. induction ws as [|l ws IH] using rev_ind; [split; [by exists ls|by split]|].
  rewrite foldl_app. cbn [foldl]. destruct (foldl sys_step (run max ls, start_poll) ws) as [m p]. cbn [fst snd] in IH.
  destruct IH as ((ls' & Hm) & Hinv). destruct l as [l|c]; cbn [poll_sys_step fst snd].
  - split; [exists (ls' ++ [l]); rewrite Hm; unfold run; by rewrite fold_left_app|].
    destruct Hinv as [Ho Hs Hd Hov]. split; cbn [poked p_state p_out p_status]; [exact Ho|exact Hs| |].
    + intros Hl Hdat. assert (subscribed (p_state p) = true) as Hsub by (by destruct (p_state p)). destruct (Ho Hsub) as [H1 H2].
      pose proof (covered_step max ls' p l H1 H2) as [H _]. rewrite <- Hm in H. apply H; [exact Hdat|]. by apply Hd.
    + intros Hl Hdat. assert (subscribed (p_state p) = true) as Hsub by (by rewrite Hl). destruct (Ho Hsub) as [H1 H2].
      pose proof (covered_step max ls' p l H1 H2) as [_ H]. rewrite <- Hm in H. apply H; [exact Hdat|]. by apply Hov.
  - split; [by exists ls'|]. by apply poll_step_inv.
Qed.

End Wakeup.

(** (C21) A long-polling read misses nothing, whatever the interleaving with the
    session's goroutines: while it waits, if there is output for it or the
    session has ended, and no notification about the session is still under
    way, then its wake channel is full, and three steps of its own take it to
    its answer. *)
Theorem poll_never_missed (sid : string) (afterOffset limit : Z) (wait : bool) (max : Z) (ls : list Terminal.label)
  (ws : list (Terminal.label + choice)) (m : Manager) (p : poller)
  (Hrun : poll_run sid afterOffset limit wait max ls ws = (m, p)) (Hwait : p_state p = PSelect)
  (Hquiet : ~ hook_pending sid m) (Hdue : due sid afterOffset limit m) :
  p_wake p = true /\
  exists r, p_state (foldl (poll_step sid afterOffset limit wait m) p [Go; Go; Go]) = PDone r.
Proof.
  destruct (poll_run_inv sid afterOffset limit wait max ls ws) as [_ [Ho Hs Hd Hov]]. rewrite Hrun in Ho, Hs, Hd, Hov. cbn [fst snd] in *.
  assert (p_wake p = true) as Hw.
  { rewrite Hwait in Hd, Hov. destruct Hdue as [H|H]; [destruct (Hd eq_refl H)|destruct (Hov eq_refl H)]; done. }
  split; [done|]. cbn [foldl]. unfold poll_step at 3. rewrite Hwait, Hw. unfold poll_step at 2. cbn [p_state].
  destruct (poll_read sid afterOffset limit m) as [r|] eqn:Er; [|by eexists].
  destruct (no_data r) eqn:En; cbn [negb]; [|by eexists]. unfold poll_step. cbn [at_ p_state].
  assert (over sid m = true) as ->; [|by eexists].
  destruct Hdue as [(x & Hx & Hn)|(s & Hx & Hn)]; [rewrite Er in Hx; injection Hx as <-; congruence|].
  unfold over. by rewrite Hx.
Qed.

(** ** Concrete runs *)

Definition no_hook (th : thread) : bool :=
  match th with PumpActivity _ | Emit (OutputHook _ _) _ | Emit (StatusHook _) _ => false | _ => true end.

Lemma no_hook_quiet sid m : forallb no_hook (Terminal.threads m) = true -> ~ hook_pending sid m.
Proof.
  intros Hq (i & th & Hi & Hp). assert (no_hook th = true) as Hn.
  { rewrite forallb_forall in Hq. apply Hq, list_elem_of_In. by eapply list_elem_of_lookup_2. }
  destruct Hp as [[(r & -> & _)|(off & k & ->)]|(ev & k & -> & _)]; done.
Qed.

Definition ex_agent : Agent := NewAgent "acc" "client" "10.0.0.1" 1.
Definition ex_sha (l : list byte) : list byte := l.
Definition ex_endpoints : Table :=
  {[ "ep"%string := mkRow "acc" "box" "host" 22 "root" "required" None true true "t0" "t0" None [] None None None ]}.

(** The cap is checked before the session exists: two requests that are
    both checked before either is registered both go through, and leave the
    client with more live sessions than its allowance. *)
Theorem cap_race :
  let check sid := CreateSession ex_sha ex_endpoints None ex_agent (run 100 []) [] "ep" "why" sid in
  exists l1 l2, check "s1"%string = inr l1 /\ check "s2"%string = inr l2 /\
    live_owned ex_agent (run 100 [l1; l2; Terminal.LRun 0 (Now 1); Terminal.LRun 1 (Now 2)]) = 2 /\ ag_maxOwned ex_agent = 1.
Proof. eexists _, _. split; [vm_compute; reflexivity|]. split; [vm_compute; reflexivity|]. split; [vm_compute; reflexivity|reflexivity]. Qed.

Lemma agent_confined_witness : own_terminal up ex_agent "s".
Proof.
  apply (agent_confined ex_sha ex_endpoints None 100 up ex_agent (RqSend "s" ["enter"%string]) (LInput "s" [x0d])).
  vm_compute. reflexivity.
Defined.

Lemma cap_respected_witness :
  live_owned ex_agent (run 100 ([] ++ [LCreate (Terminal.mkRef "ep" "acc") "acc" (trigger_of ex_agent "why") "s"; Terminal.LRun 0 (Now 7)])) <= 1.
Proof.
  apply (cap_respected ex_sha ex_endpoints None 100 [] ex_agent [] "ep" "why" "s" 7
    (LCreate (Terminal.mkRef "ep" "acc") "acc" (trigger_of ex_agent "why") "s")); [vm_compute; reflexivity|reflexivity|reflexivity].
Defined.

Definition ex_wait : list (Terminal.label + choice) :=
  map inr [Go; Go; Go; Go; Go; Go] ++
  map inl [Terminal.LRun 1 (Transport (Some (EvData (bytes_of_string "hi")))); Terminal.LRun 1 Terminal.NoEnv; Terminal.LRun 1 (Now 9); Terminal.LRun 1 Terminal.NoEnv].

Lemma poll_never_missed_witness :
  let w := poll_run "s" 0 100 true 100 up ex_wait in
  p_state (snd w) = PSelect /\ p_wake (snd w) = true /\
  exists r, p_state (foldl (poll_step "s" 0 100 true (fst w)) (snd w) [Go; Go; Go]) = PDone r.
Proof.
  split; [vm_compute; reflexivity|].
  apply (poll_never_missed "s" 0 100 true 100 up ex_wait _ _ (surjective_pairing _)); [vm_compute; reflexivity| |].
  - apply no_hook_quiet. vm_compute. reflexivity.
  - left. eexists. split; [vm_compute; reflexivity|reflexivity].
Defined.
