(* ===== verification/RestEndpoints.v ===== *)
(** * The endpoint routes (internal/rest/endpoints.go, internal/rest/rest.go)

    The handlers behind /api/endpoints: listing, creating, editing and deleting
    endpoints, and the two step-up gated decisions about a host key. A request
    body is a finite map from field names to raw JSON values, so that an absent
    field and a null one differ. The state is the endpoints table, the step-up
    tokens and the audit log. *)
From stdpp Require Import pretty.
From S2P Require Import Prelude GoStrings AuditLog Ephemeral Tokens HostKeys Terminal PinStore AgentSession.
From Stdlib Require Import Ascii.
#[local] Open Scope Z_scope.

(** ** Request bodies (rest.go) *)

(** A raw JSON value. [RInt] is a number literal without fraction or exponent,
    [ROther] any other number, an array or an object. *)
Inductive raw := RNull | RBool (b : bool) | RString (s : string) | RInt (n : Z) | ROther.

Abbreviation body := (gmap string raw).

(** An undecodable body leaves the map empty. *)
Definition readRawBody (decoded : option body) : body := default ∅ decoded.

Definition jsonString (r : raw) : string := match r with RString s => s | _ => EmptyString end.

Definition stringField (m : body) (key : string) : string :=
  match m !! key with Some r => jsonString r | None => EmptyString end.

Definition isJSONBool (r : raw) : bool := match r with RBool _ => true | _ => false end.

(** json.Unmarshal into an int64 and into a bool that hold [old]: a value of
    another type or out of range leaves them as they are. *)
Definition unmarshal_int64 (r : raw) (old : Z) : Z :=
  match r with RInt n => if (-9223372036854775808 <=? n) && (n <=? 9223372036854775807) then n else old | _ => old end.

Definition unmarshal_bool (r : raw) (old : bool) : bool := match r with RBool b => b | _ => old end.

(** [None] is a value that is refused. *)
Definition normalizeDescription (r : option raw) : option (option string) :=
  match r with
  | None | Some RNull => Some None
  | Some (RString s) =>
      if strlen s >? DescriptionMaxLen then None
      else
        let trimmed := TrimSpace s in
        if bool_decide (trimmed = EmptyString) then Some None else Some (Some trimmed)
  | Some _ => None
  end.

(** ** Responses *)

Record endpoint_dto := mkDTO { dto_endpoint : Endpoint; dto_IsDemo : bool }.

Inductive reply :=
  | Fail (status : Z) (msg : string)
  | FailDatabase (status : Z)             (* the text of a database error *)
  | FailPin (err : PinError)              (* 400 with the text of a pin error *)
  | Denied (status : Z) (code : string)   (* refused by the step-up gate *)
  | Endpoints (l : list endpoint_dto)
  | Created (id : string)
  | Updated
  | Deleted.

Definition demo_read_only : reply := Fail 400 "Demo endpoints are read-only — toggle visibility instead".
Definition userVerificationErr : reply := Fail 400 "userVerification must be one of: required, preferred, discouraged".
Definition descriptionErr : reply := Fail 400 "description must be a string up to 1000 characters".
Definition agentForwardErr : reply := Fail 400 "agentForward must be a boolean".
Definition endpointNotFound : reply := Fail 400 "Endpoint not found".

(** ** The handlers *)

(** The endpoints table, the step-up tokens, and the audit log, oldest first. *)
Record EW := mkEW { ew_table : Table; ew_stepups : Store string stepUpEntry; ew_audit : list HostKeyEvent }.

Definition set_table (w : EW) (t : Table) : EW := mkEW t (ew_stepups w) (ew_audit w).
Definition set_stepups (w : EW) (s : Store string stepUpEntry) : EW := mkEW (ew_table w) s (ew_audit w).

(** One request's surroundings: the instant, the clock's text, the answers of
    its first and of its second query, and whether there is an auditor. *)
Record renv := mkREnv { re_now : Z; re_iso : string; re_io1 : list bool; re_io2 : list bool; re_audit : bool }.

Definition uv_field (b : body) : option (option string) :=
  match b !! "userVerification"%string with
  | None => Some None
  | Some r => if IsUserVerification (jsonString r) then Some (Some (jsonString r)) else None
  end.

Definition bad_agentForward (b : body) : bool :=
  match b !! "agentForward"%string with Some r => negb (isJSONBool r) | None => false end.

Section Handlers.
Context (sha256 : list byte -> list byte).
(** x/crypto's ssh.ParseAuthorizedKey: type, blob and fingerprint of a line. *)
Context (ParseAuthorizedKey : string -> option HostKeyRecord).

Definition list_ (t : Table) (demo : option DemoService) (show : bool) (e : renv) (acc : string) : reply :=
  match Svc_ListForAccount sha256 t demo show (re_io1 e) acc with
  | None => Fail 500 "internal error"
  | Some eps => Endpoints (map (fun x => mkDTO (fst x) (snd x)) eps)
  end.

(** [id] is the generated id. *)
Definition create (w : EW) (e : renv) (acc id : string) (b : body) : reply * EW :=
  let label := TrimSpace (stringField b "label") in
  let host := TrimSpace (stringField b "host") in
  if bool_decide (label = EmptyString) || bool_decide (host = EmptyString) then (Fail 400 "label and host are required", w)
  else
    match uv_field b with
    | None => (userVerificationErr, w)
    | Some uv =>
        if bad_agentForward b then (agentForwardErr, w)
        else
          match normalizeDescription (b !! "description"%string) with
          | None => (descriptionErr, w)
          | Some desc =>
              let port := match b !! "port"%string with Some r => unmarshal_int64 r 22 | None => 22 end in
              let username := match b !! "username"%string with Some r => jsonString r | None => "shellwatch"%string end in
              let agentForward := match b !! "agentForward"%string with Some r => unmarshal_bool r true | None => true end in
              let '(t', ok) := PinStore.Create (ew_table w) (re_io1 e) (re_iso e)
                (mkEndpoint id acc label host port username (default "required"%string uv) desc agentForward None) in
              if ok then (Created id, set_table w t') else (FailDatabase 400, set_table w t')
          end
    end.

(** The record a body makes of the stored one. *)
Definition merged (existing : Endpoint) (b : body) (desc : option (option string)) : Endpoint :=
  let text_field key old := match b !! key with Some r => jsonString r | None => old end in
  mkEndpoint (ep_ID existing) (ep_AccountID existing) (text_field "label"%string (ep_Label existing))
    (text_field "host"%string (ep_Host existing))
    (match b !! "port"%string with Some r => unmarshal_int64 r (ep_Port existing) | None => ep_Port existing end)
    (text_field "username"%string (ep_Username existing)) (text_field "userVerification"%string (ep_UserVerification existing))
    (default (ep_Description existing) desc)
    (match b !! "agentForward"%string with Some r => unmarshal_bool r (ep_AgentForward existing) | None => ep_AgentForward existing end)
    (ep_HostKey existing).

Definition auditHostKeyCleared (w : EW) (e : renv) (ep : Endpoint) (reason : string) : EW :=
  match ep_HostKey ep with
  | Some pin =>
      if re_audit e then
        mkEW (ew_table w) (ew_stepups w)
          (ew_audit w ++ [mkHKEvent "host-key-cleared" (ep_AccountID ep) (ep_ID ep) (ep_Label ep) (endpointAddress ep) "endpoint-admin"
             (hp_Fingerprint pin) "" reason "" "" "" ""])
      else w
  | None => w
  end.

(** The absent description is kept, null clears it. *)
Definition description_field (b : body) : option (option (option string)) :=
  match b !! "description"%string with
  | None => Some None
  | Some r => Some <$> normalizeDescription (Some r)
  end.

(** After the read of [existing]. *)
Definition update_existing (w : EW) (e : renv) (existing : Endpoint) (b : body) (desc : option (option string)) : reply * EW :=
  let m := merged existing b desc in
  let '(t', ok) := PinStore.Update (ew_table w) (re_io2 e) (re_iso e) m in
  match ok with
  | None => (FailDatabase 400, set_table w t')
  | Some _ =>
      (Updated, if bool_decide (is_Some (ep_HostKey existing)) && address_changed existing m
                then auditHostKeyCleared (set_table w t') e existing "endpoint host/port updated via REST" else set_table w t')
  end.

Definition update (w : EW) (e : renv) (acc id : string) (b : body) : reply * EW :=
  if IsID id then (demo_read_only, w)
  else
    match uv_field b with
    | None => (userVerificationErr, w)
    | Some _ =>
        if bad_agentForward b then (agentForwardErr, w)
        else
          match description_field b with
          | None => (descriptionErr, w)
          | Some desc =>
              match PinStore.GetForAccount (ew_table w) (re_io1 e) id acc with
              | None => (FailDatabase 400, w)
              | Some None => (endpointNotFound, w)
              | Some (Some existing) => update_existing w e existing b desc
              end
          end
    end.

(** [m] is the session registry, when there is one. *)
Definition delete_ (w : EW) (e : renv) (acc id : string) (m : option Manager) : reply * EW :=
  if IsID id then (demo_read_only, w)
  else if match m with Some m => existsb (fun epID => bool_decide (epID = id)) (EndpointIDsForAccount m acc) | None => false end
  then (Fail 409 "Cannot delete endpoint with active sessions", w)
  else
    match PinStore.Delete (ew_table w) (re_io1 e) (re_iso e) id acc with
    | (t', None) => (FailDatabase 400, set_table w t')
    | (t', Some _) => (Deleted, set_table w t')
    end.

(** config.ParseHostKey: a SHA256 fingerprint or an OpenSSH line. *)
Definition ParseHostKey (s : string) : option HostKeyRecord :=
  let s := TrimSpace s in
  if bool_decide (s = EmptyString) then None
  else if HasPrefix s "SHA256:" then Some (mkRecord "" [] s)
  else ParseAuthorizedKey s.

Definition quote : string := String (ascii_of_nat 34) EmptyString.
Definition bad_public_key : reply :=
  Fail 400 ("publicKey must be an OpenSSH public-key line (e.g. " ++ quote ++ "ssh-ed25519 AAAA..." ++ quote ++ ")").

(** What the body says to pin: a key line or a fingerprint, not both. *)
Definition pin_record (b : body) : reply + HostKeyRecord :=
  let publicKey := TrimSpace (stringField b "publicKey") in
  let fingerprint := TrimSpace (stringField b "fingerprint") in
  if Bool.eqb (bool_decide (publicKey = EmptyString)) (bool_decide (fingerprint = EmptyString))
  then inl (Fail 400 "Provide exactly one of publicKey (OpenSSH public-key line) or fingerprint (SHA256:...)")
  else if negb (bool_decide (publicKey = EmptyString)) then
    match ParseHostKey publicKey with
    | Some hk =>
        match kr_Key hk with
        | [] => inl bad_public_key
        | _ => inr (mkRecord (kr_Type hk) (kr_Key hk) (kr_Fingerprint hk))
        end
    | None => inl bad_public_key
    end
  else if negb (HasPrefix fingerprint "SHA256:") then inl (Fail 400 "fingerprint must start with SHA256:")
  else inr (mkRecord "" [] fingerprint).

Definition pinHostKey (w : EW) (e : renv) (acc id : string) (b : body) : reply * EW :=
  if IsID id then (demo_read_only, w)
  else
    match pin_record b with
    | inl r => (r, w)
    | inr rec =>
        match PinStore.GetForAccount (ew_table w) (re_io1 e) id acc with
        | None => (FailDatabase 400, w)
        | Some None => (endpointNotFound, w)
        | Some (Some existing) =>
            match PinStore.PinHostKey (ew_table w) (re_io2 e) (re_iso e)
                    (mkPinParams id (ep_Host existing) (ep_Port existing) rec "manual") with
            | (t', Some ErrHostKeyPinned) => (Fail 409 "A host key is already pinned for this endpoint — delete it first", set_table w t')
            | (t', Some err) => (FailPin err, set_table w t')
            | (t', None) => (Updated, set_table w t')
            end
        end
    end.

Definition deleteHostKey (w : EW) (e : renv) (acc id : string) : reply * EW :=
  if IsID id then (demo_read_only, w)
  else
    match PinStore.GetForAccount (ew_table w) (re_io1 e) id acc with
    | None => (FailDatabase 400, w)
    | Some None => (endpointNotFound, w)
    | Some (Some existing) =>
        match PinStore.ClearHostKey (ew_table w) (re_io2 e) (re_iso e) id acc with
        | (t', None) => (FailDatabase 400, set_table w t')
        | (t', Some cleared) =>
            (Deleted, if cleared then auditHostKeyCleared (set_table w t') e existing "host key forgotten via settings" else set_table w t')
        end
    end.

(** The step-up middleware in front of the two host-key routes. *)
Definition gated (action : string) (w : EW) (e : renv) (acc token : string) (next : EW -> reply * EW) : reply * EW :=
  match RequireStepUp (ew_stepups w) (re_now e) action (Some acc) token with
  | (Tokens.Forwarded, s) => next (set_stepups w s)
  | (Tokens.Rejected status _ code, s) => (Denied status code, set_stepups w s)
  end.

(** ** The routes *)

Inductive request :=
  | RqList (demo : option DemoService) (show : bool)
  | RqCreate (id : string) (b : option body)
  | RqUpdate (id : string) (b : option body)
  | RqDelete (id : string) (m : option Manager)
  | RqPin (id token : string) (b : option body)
  | RqUnpin (id token : string).

(** [acc] is the authenticated account. *)
Definition handle (w : EW) (e : renv) (acc : string) (rq : request) : reply * EW :=
  match rq with
  | RqList demo show => (list_ (ew_table w) demo show e acc, w)
  | RqCreate id b => create w e acc id (readRawBody b)
  | RqUpdate id b => update w e acc id (readRawBody b)
  | RqDelete id m => delete_ w e acc id m
  | RqPin id token b => gated ActionPinHostKey w e acc token (fun w => pinHostKey w e acc id (readRawBody b))
  | RqUnpin id token => gated ActionResetHostKey w e acc token (fun w => deleteHostKey w e acc id)
  end.

End Handlers.

(** ** Which operation of the store a request makes *)

Section Properties.
Context (sha256 : list byte -> list byte) (ParseAuthorizedKey : string -> option HostKeyRecord).

Abbreviation serve_rest := (handle sha256 ParseAuthorizedKey).
Abbreviation pinned_by := (pin_record ParseAuthorizedKey).

(** The presented token was minted for this account and this action and is
    still good. *)
Definition stepped_up (w : EW) (e : renv) (acc action token : string) : Prop :=
  exists exp, fst (ts_consume (ew_stepups w) (re_now e) token) = Some (mkStepUp acc action exp).

Definition makes (w : EW) (e : renv) (acc : string) (rq : request) (o : store_op) : Prop :=
  match rq, o with
  | RqCreate id _, OpCreate _ _ ep => ep_ID ep = id /\ ep_AccountID ep = acc
  | RqUpdate id b, OpUpdate _ _ ep =>
      exists existing desc, PinStore.GetForAccount (ew_table w) (re_io1 e) id acc = Some (Some existing) /\
        ep = merged existing (readRawBody b) desc
  | RqDelete id _, OpDelete _ _ i a => i = id /\ a = acc
  | RqPin id token b, OpPin _ _ p =>
      stepped_up w e acc ActionPinHostKey token /\ pinned_by (readRawBody b) = inr (pk_Record p) /\ pk_ID p = id /\
      exists existing, PinStore.GetForAccount (ew_table w) (re_io1 e) id acc = Some (Some existing) /\
        pk_Host p = ep_Host existing /\ pk_Port p = ep_Port existing
  | RqUnpin id token, OpClear _ _ i a => stepped_up w e acc ActionResetHostKey token /\ i = id /\ a = acc
  | _, _ => False
  end.

Lemma gated_cases action w e acc token next rep w' :
  gated action w e acc token next = (rep, w') ->
  (ew_table w' = ew_table w /\ ew_audit w' = ew_audit w) \/
  (stepped_up w e acc action token /\ exists s, next (set_stepups w s) = (rep, w')).
Proof.
  unfold gated. destruct (RequireStepUp _ _ _ _ _) as [[|status msg code] s] eqn:E.
  - intros H. right. apply RequireStepUp_forwarded in E as (a & exp & [= <-] & _ & Hc). split; [by exists exp|by exists s].
  - intros [= <- <-]. by left.
Qed.

Lemma audit_table w e ep reason : ew_table (auditHostKeyCleared w e ep reason) = ew_table w.
Proof. unfold auditHostKeyCleared. destruct (ep_HostKey ep), (re_audit e); done. Qed.

(** Every request is at most one operation of the store. *)
Lemma handle_op w e acc rq rep w' :
  serve_rest w e acc rq = (rep, w') ->
  ew_table w' = ew_table w \/ exists o, ew_table w' = exec_store (ew_table w) o /\ makes w e acc rq o.
Proof.
  destruct rq as [demo show|id b|id b|id m|id token b|id token]; cbn [RestEndpoints.handle].
  - intros [= <- <-]. by left.
  - unfold create. destruct (_ || _); [intros [= <- <-]; by left|]. destruct (uv_field _); [|intros [= <- <-]; by left].
    destruct (bad_agentForward _); [intros [= <- <-]; by left|]. destruct (normalizeDescription _); [|intros [= <- <-]; by left].
    match goal with |- context [PinStore.Create ?t ?io ?now ?ep] => destruct (PinStore.Create t io now ep) as [t' ok] eqn:E;
      intros H; right; exists (OpCreate io now ep); cbn [exec_store]; rewrite E end.
    destruct ok; injection H as <- <-; done.
  - unfold update. destruct (IsID id); [intros [= <- <-]; by left|]. destruct (uv_field _); [|intros [= <- <-]; by left].
    destruct (bad_agentForward _); [intros [= <- <-]; by left|]. destruct (description_field _) as [desc|]; [|intros [= <- <-]; by left].
    destruct (PinStore.GetForAccount _ _ _ _) as [[existing|]|] eqn:Eg; [|intros [= <- <-]; by left|intros [= <- <-]; by left].
    unfold update_existing. destruct (PinStore.Update _ _ _ _) as [t' ok] eqn:E. intros H. right.
    exists (OpUpdate (re_io2 e) (re_iso e) (merged existing (readRawBody b) desc)). cbn [exec_store]. rewrite E.
    split; [|by exists existing, desc]. destruct ok; injection H as <- <-; [|done]. destruct (_ && _); [by rewrite audit_table|done].
  - unfold delete_. destruct (IsID id); [intros [= <- <-]; by left|]. destruct (match m with Some _ => _ | None => _ end); [intros [= <- <-]; by left|].
    destruct (PinStore.Delete _ _ _ _ _) as [t' ok] eqn:E. intros H. right. exists (OpDelete (re_io1 e) (re_iso e) id acc). cbn [exec_store].
    rewrite E. destruct ok; injection H as <- <-; done.
  - intros H. apply gated_cases in H as [[H _]|(Hs & s & H)]; [by left|]. revert H. unfold pinHostKey.
    destruct (IsID id); [intros [= <- <-]; by left|]. destruct (RestEndpoints.pin_record _ _) as [r|rec] eqn:Ep; [intros [= <- <-]; by left|]. cbn [ew_table set_stepups].
    destruct (PinStore.GetForAccount _ _ _ _) as [[existing|]|] eqn:Eg; [|intros [= <- <-]; by left|intros [= <- <-]; by left].
    match goal with |- context [PinStore.PinHostKey ?t ?io ?now ?p] => destruct (PinStore.PinHostKey t io now p) as [t' err] eqn:E;
      intros H; right; exists (OpPin io now p); cbn [exec_store]; rewrite E end.
    split; [|split; [done|]; split; [done|]; split; [done|]; by exists existing].
    destruct err as [[]|]; injection H as <- <-; done.
  - intros H. apply gated_cases in H as [[H _]|(Hs & s & H)]; [by left|]. revert H. unfold deleteHostKey.
    destruct (IsID id); [intros [= <- <-]; by left|]. cbn [ew_table set_stepups].
    destruct (PinStore.GetForAccount _ _ _ _) as [[existing|]|] eqn:Eg; [|intros [= <- <-]; by left|intros [= <- <-]; by left].
    destruct (PinStore.ClearHostKey _ _ _ _ _) as [t' ok] eqn:E. intros H. right. exists (OpClear (re_io2 e) (re_iso e) id acc). cbn [exec_store].
    rewrite E. split; [|done]. destruct ok as [[]|]; injection H as <- <-; [by rewrite audit_table|done|done].
Qed.

Lemma get_row t io id acc ep :
  PinStore.GetForAccount t io id acc = Some (Some ep) -> exists r, t !! id = Some r /\ r_account r = acc /\ ep = fromRow id r.
Proof.
  unfold GetForAccount. destruct (answers io 0); [|done]. destruct (t !! id) as [r|]; [|done]. case_bool_decide; [|done].
  intros [= <-]. by exists r.
Qed.

(** An operation of the store that takes a pin away. *)
Definition clears (o : store_op) (t : Table) (id : string) (r : row) : Prop :=
  match o with
  | OpUpdate _ now ep => ep_ID ep = id /\ ep_AccountID ep = r_account r /\ (ep_Host ep <> r_host r \/ ep_Port ep <> r_port r) /\
      exec_store t o !! id = Some (update_row r now ep)
  | OpClear _ _ i acc => i = id /\ acc = r_account r
  | _ => False
  end.

Lemma exec_store_lost t o id r fp :
  t !! id = Some r -> r_hk_fp r = Some fp ->
  exists r', exec_store t o !! id = Some r' /\
    (r_hk_fp r' = Some fp \/ r_hk_fp r' = None /\ clears o t id r).
Proof.
  intros Hr Hfp. assert (forall t' : Table, t' !! id = Some r -> exists r', t' !! id = Some r' /\ (r_hk_fp r' = Some fp \/ r_hk_fp r' = None /\ clears o t id r)) as Hsame by (intros t' ?; exists r; auto).
  destruct o as [io now ep|io now ep|io now i acc|io now p|io now i acc]; cbn [exec_store].
  - apply Hsame. unfold Create. destruct (answers io 0 && _) eqn:E; [|done]. bool_to_prop. cbn. rewrite lookup_insert_ne; [done|]. intros <-. congruence.
  - unfold Update. destruct (answers io 0) eqn:Ea; [|by apply Hsame]. destruct (t !! ep_ID ep) as [r0|] eqn:E; [|by apply Hsame]. case_bool_decide as Hacc; [|by apply Hsame].
    destruct (decide (ep_ID ep = id)) as [Hid|]; [|apply Hsame; cbn; by rewrite lookup_insert_ne]. rewrite Hid in *. assert (r0 = r) as -> by congruence. cbn.
    rewrite lookup_insert_eq. eexists. split; [reflexivity|]. unfold update_row at 1. destruct (bool_decide (r_host r = ep_Host ep) && (r_port r =? ep_Port ep)) eqn:Ek; cbn; [by left|]. right.
    unfold update_row at 1. rewrite Ek. split; [done|]. split; [done|]. split; [done|]. split.
    + apply andb_false_iff in Ek as [Ek|Ek]; [left; apply bool_decide_eq_false in Ek|right; apply Z.eqb_neq in Ek]; congruence.
    + unfold Update. rewrite Ea, Hid, E, (bool_decide_true (r_account r = ep_AccountID ep)) by done. cbn. rewrite lookup_insert_eq. unfold update_row. by rewrite Ek.
  - unfold Delete. destruct (answers io 0); [|by apply Hsame]. destruct (t !! i) as [r0|] eqn:E; [|by apply Hsame]. case_bool_decide; [|by apply Hsame].
    destruct (decide (i = id)) as [->|]; [|apply Hsame; cbn; by rewrite lookup_insert_ne]. simplify_eq. cbn. rewrite lookup_insert_eq. eexists. split; [reflexivity|by left].
  - pose proof (PinHostKey_cases t io now p) as Hc. cbv zeta in Hc. destruct (PinHostKey t io now p) as [t' [err|]]; cbn [fst].
    + destruct Hc as [-> _]. by apply Hsame.
    + destruct Hc as (r0 & Hr0 & _ & _ & [[Hn ->]|[_ ->]]); [|by apply Hsame]. apply Hsame. rewrite lookup_insert_ne; [done|]. intros <-. congruence.
  - unfold ClearHostKey. destruct (answers io 0); [|by apply Hsame]. destruct (t !! i) as [r0|] eqn:E; [|by apply Hsame]. destruct (_ && _) eqn:Eb; [|by apply Hsame].
    destruct (decide (i = id)) as [->|]; [|apply Hsame; cbn; by rewrite lookup_insert_ne]. simplify_eq. bool_to_prop. cbn. rewrite lookup_insert_eq.
    eexists. split; [reflexivity|]. right. split; [done|]. by split.
Qed.

(** The event a lost pin leaves in the log. *)
Definition logged (w w' : EW) (id fp : string) : Prop :=
  exists ev, ew_audit w' = ew_audit w ++ [ev] /\ he_EndpointID ev = id /\ he_Fingerprint ev = fp.

Lemma audit_logged w e id r fp reason :
  re_audit e = true -> r_hk_fp r = Some fp -> logged w (auditHostKeyCleared w e (fromRow id r) reason) id fp.
Proof. intros Ha Hf. unfold auditHostKeyCleared. cbn. rewrite Hf, Ha. eexists. split; [reflexivity|]. by split. Qed.

Lemma update_logged w e acc id b rep w' r r' fp :
  serve_rest w e acc (RqUpdate id b) = (rep, w') -> re_audit e = true ->
  ew_table w !! id = Some r -> r_hk_fp r = Some fp -> ew_table w' !! id = Some r' -> r_hk_fp r' = None -> logged w w' id fp.
Proof.
  intros H Ha Hr Hf Hr' Hf'. cbn [RestEndpoints.handle] in H. unfold update in H.
  assert (w = w' -> logged w w' id fp) as Hsame by (intros ->; congruence).
  destruct (IsID id); [apply Hsame; congruence|]. destruct (uv_field _); [|apply Hsame; congruence].
  destruct (bad_agentForward _); [apply Hsame; congruence|]. destruct (description_field _) as [desc|]; [|apply Hsame; congruence].
  destruct (PinStore.GetForAccount _ _ _ _) as [[existing|]|] eqn:Eg; [|apply Hsame; congruence|apply Hsame; congruence].
  apply get_row in Eg as (r0 & Hr0 & Hacc & ->). assert (r0 = r) as -> by congruence. unfold update_existing in H.
  set (m := merged (fromRow id r) _ _) in *. assert (ep_ID m = id /\ ep_AccountID m = r_account r) as [Hid Hma] by done. clearbody m.
  unfold Update in H. rewrite Hid, Hma, Hr in H. rewrite bool_decide_true in H by done. destruct (answers _ 0).
  2: { injection H as <- <-. cbn in Hr'. congruence. }
  injection H as <- <-. rewrite bool_decide_true in Hr' |- * by (cbn; rewrite Hf; by eexists). cbn [andb] in *. destruct (address_changed (fromRow id r) m) eqn:Ec; cycle 1.
  - cbn in Hr'. rewrite lookup_insert_eq in Hr'. injection Hr' as <-. unfold address_changed in Ec. cbn in Ec, Hf'.
    apply orb_false_iff in Ec as [E1 E2]. apply negb_false_iff in E1, E2. rewrite E1, E2 in Hf'. cbn in Hf'. congruence.
  - destruct (audit_logged (set_table w (<[id := update_row r (re_iso e) m]> (ew_table w))) e id r fp "endpoint host/port updated via REST" Ha Hf) as (ev & He & ?).
    exists ev. by split.
Qed.

Lemma unpin_logged w e acc id token rep w' r r' fp :
  serve_rest w e acc (RqUnpin id token) = (rep, w') -> re_audit e = true ->
  ew_table w !! id = Some r -> r_hk_fp r = Some fp -> ew_table w' !! id = Some r' -> r_hk_fp r' = None -> logged w w' id fp.
Proof.
  intros H Ha Hr Hf Hr' Hf'. cbn [RestEndpoints.handle] in H.
  apply gated_cases in H as [[H _]|(_ & s & H)]; [congruence|]. unfold deleteHostKey in H.
  assert (ew_table w = ew_table w' -> logged w w' id fp) as Hsame by congruence.
  destruct (IsID id); [injection H as _ <-; by apply Hsame|]. cbn [ew_table set_stepups] in H.
  destruct (PinStore.GetForAccount _ _ _ _) as [[existing|]|] eqn:Eg; try (injection H as _ <-; by apply Hsame).
  apply get_row in Eg as (r0 & Hr0 & Hacc & ->). assert (r0 = r) as -> by congruence. unfold ClearHostKey in H. rewrite Hr in H. destruct (answers _ 0).
  2: { injection H as <- <-. cbn in Hr'. congruence. }
  rewrite bool_decide_true in H by done. rewrite bool_decide_false in H by congruence. cbn [andb negb] in H. injection H as <- <-.
  match goal with |- logged _ (auditHostKeyCleared ?w2 _ _ ?reason) _ _ => destruct (audit_logged w2 e id r fp reason Ha Hf) as (ev & He & ?) end.
  exists ev. by split.
Qed.

End Properties.

(** What a REST request does to host-key pins. A pin that is new was
    given in the body of a step-up gated pin request, for an endpoint of the
    account that had none. A pin that is gone was forgotten by a step-up gated
    request of the owner, or by the owner's change of the address; and it has
    left a trace in the audit log. *)
Theorem rest_pins_explained sha256 ParseAuthorizedKey (w : EW) (e : renv) (acc : string) (rq : request) (rep : reply) (w' : EW)
  (H : handle sha256 ParseAuthorizedKey w e acc rq = (rep, w')) (id : string) :
  (forall r' fp, ew_table w' !! id = Some r' -> r_hk_fp r' = Some fp ->
     (exists r, ew_table w !! id = Some r /\ r_hk_fp r = Some fp /\ r_hk r = r_hk r' /\ r_host r = r_host r' /\ r_port r = r_port r') \/
     (exists token b rec r, rq = RqPin id token b /\ stepped_up w e acc ActionPinHostKey token /\
        pin_record ParseAuthorizedKey (readRawBody b) = inr rec /\ kr_Fingerprint rec = fp /\ kr_Key rec = r_hk r' /\
        ew_table w !! id = Some r /\ r_account r = acc /\ r_host r = r_host r' /\ r_port r = r_port r')) /\
  (forall r fp, ew_table w !! id = Some r -> r_hk_fp r = Some fp ->
     exists r', ew_table w' !! id = Some r' /\
       (r_hk_fp r' = Some fp \/
        r_hk_fp r' = None /\ r_account r = acc /\
        ((exists token, rq = RqUnpin id token /\ stepped_up w e acc ActionResetHostKey token) \/
         (exists b, rq = RqUpdate id b /\ (r_host r' <> r_host r \/ r_port r' <> r_port r))) /\
        (re_audit e = true -> logged w w' id fp))).
Proof.
  pose proof (handle_op _ _ _ _ _ _ _ _ H) as [Ht|(o & Ht & Hm)].
  { rewrite Ht. split; intros r0 fp Hr Hf; [left; by exists r0|exists r0; auto]. }
  split.
  - intros r' fp Hr' Hf. rewrite Ht in Hr'. destruct (exec_store_pin _ _ _ _ _ Hr' Hf) as [(r & Hr & Hf0 & Hh & Hp & Hk)|(io & now & p & -> & <- & Hh & Hp & Hfp & Hk)]; [left; by exists r|].
    right. destruct rq as [| | | |i token b|]; try done. destruct Hm as (Hs & Hrec & Hid & existing & Hg & Hh' & Hp'). subst i.
    apply get_row in Hg as (r & Hr & Hacc & ->). exists token, b, (pk_Record p), r. cbn in Hh', Hp'. split_and!; congruence.
  - intros r fp Hr Hf. destruct (exec_store_lost (ew_table w) o id r fp Hr Hf) as (r' & Hr' & Hc). rewrite <- Ht in Hr'. exists r'. split; [done|].
    destruct Hc as [Hc|[Hnone Hc]]; [by left|]. right. split; [done|]. destruct o as [| io now ep| | |io now i a]; try done; cbn in Hc; destruct rq as [| |i' b| | |i' token]; try done.
    + destruct Hc as (Hid & Hacc & Hne & Hrow). cbn in Hm. destruct Hm as (existing & desc & Hg & ->). apply get_row in Hg as (r0 & Hr0 & Ha & ->).
      cbn in Hid, Hacc. subst i'. split; [congruence|]. split.
      * right. exists b. split; [done|]. rewrite Ht in Hr'. cbn [exec_store] in Hr'. rewrite Hr' in Hrow. injection Hrow as ->. exact Hne.
      * intros Hau. by eapply update_logged.
    + destruct Hc as [-> ->]. cbn in Hm. destruct Hm as (Hs & <- & <-). split; [done|]. split; [left; by exists token|]. intros Hau. by eapply unpin_logged.
Qed.

(** ** Concrete requests *)

Definition ex_env (now : Z) (iso : string) : renv := mkREnv now iso [] [] true.
Definition ex_row (host : string) (fp : option string) : row :=
  mkRow "acc" "box" host 22 "root" "required" None true true "t0" "t0" None [] fp None None.
Definition ex_world (fp : option string) (action : string) : EW :=
  mkEW {[ "ep"%string := ex_row "host" fp ]} (snd (StepUpStore_Mint NewStepUpStore 0 "tok" "acc" action)) [].
Definition ex_sha (l : list byte) : list byte := l.
Definition ex_parse (s : string) : option HostKeyRecord := None.
Definition ex_pin_body : body := {[ "fingerprint"%string := RString " SHA256:abc " ]}.

Example ex_pin :
  fst (handle ex_sha ex_parse (ex_world None ActionPinHostKey) (ex_env 5 "t1") "acc" (RqPin "ep" "tok" (Some ex_pin_body))) = Updated.
Proof. vm_compute. reflexivity. Qed.

Example ex_pin_again :
  let w := snd (handle ex_sha ex_parse (ex_world None ActionPinHostKey) (ex_env 5 "t1") "acc" (RqPin "ep" "tok" (Some ex_pin_body))) in
  fst (handle ex_sha ex_parse w (ex_env 6 "t1") "acc" (RqPin "ep" "tok" (Some ex_pin_body))) = Denied 401 "stepup_required".
Proof. vm_compute. reflexivity. Qed.

Example ex_port :
  let b : body := {[ "label"%string := RString "x"; "host"%string := RString "h"; "port"%string := ROther ]} in
  fmap r_port (ew_table (snd (create (ex_world None "") (ex_env 0 "t") "acc" "new" b)) !! "new"%string) = Some 22.
Proof. vm_compute. reflexivity. Qed.

Lemma rest_pins_explained_witness :
  let w := ex_world (Some "SHA256:abc"%string) ActionResetHostKey in
  let w' := snd (handle ex_sha ex_parse w (ex_env 5 "t1") "acc" (RqUnpin "ep" "tok")) in
  exists r', ew_table w' !! "ep"%string = Some r' /\
    (r_hk_fp r' = Some "SHA256:abc"%string \/
     r_hk_fp r' = None /\ r_account (ex_row "host" (Some "SHA256:abc"%string)) = "acc"%string /\
     ((exists token, RqUnpin "ep" "tok" = RqUnpin "ep" token /\ stepped_up w (ex_env 5 "t1") "acc" ActionResetHostKey token) \/
      (exists b, RqUnpin "ep" "tok" = RqUpdate "ep" b /\ (r_host r' <> "host"%string \/ r_port r' <> 22))) /\
     (true = true -> logged w w' "ep" "SHA256:abc")).
Proof.
  intros w w'. destruct (rest_pins_explained ex_sha ex_parse w (ex_env 5 "t1") "acc" (RqUnpin "ep" "tok") _ w' (surjective_pairing _) "ep") as [_ H].
  apply (H (ex_row "host" (Some "SHA256:abc"%string)) "SHA256:abc"%string); reflexivity.
Defined.
