(* ===== verification/McpTools.v ===== *)
(** * The tools an agent calls (internal/mcp/tools_endpoints.go,
      tools_sessions.go and the per-request set-up of server.go)

    A tool call carries a JSON object. A call on terminal sessions becomes a
    label of the session registry or starts a poll; a call on endpoints acts on
    the endpoints table and the audit log that the REST routes act on too, and
    the last theorem is about the two together. *)
From stdpp Require Import pretty.
From Stdlib Require Import SpecFloat.
From S2P Require Import Prelude GoStrings AuditLog Ephemeral Tokens HostKeys Terminal PinStore AgentSession RestEndpoints.
#[local] Open Scope Z_scope.

(** ** The request (server.go) *)

(** The agent of a request: its cap when the account's is known, and its OAuth
    client id as the client's name. *)
Definition buildServer (accountID clientID sourceIP : string) (maxOwned : option Z) : Agent :=
  SetClientInfo (NewAgent accountID clientID sourceIP (default (-1) maxOwned)) clientID "".

(** The name and version a modern client reports with the call. *)
Definition captureClientInfo (s : Agent) (ci : option (string * string)) : Agent :=
  match ci with Some (name, version) => SetClientInfo s name version | None => s end.

(** ** The endpoint tool *)

(** A decoded JSON value: numbers are float64. *)
Inductive wire := WNull | WBool (b : bool) | WNum (f : spec_float) | WString (s : string) | WOther.

Abbreviation data := (gmap string wire).

(** The integer part of a finite float. *)
Definition trunc (f : spec_float) : Z :=
  match f with
  | S754_finite s m e =>
      let a := if 0 <=? e then Z.pos m * 2 ^ e else Z.pos m / 2 ^ (- e) in
      if s then - a else a
  | _ => 0
  end.

Inductive tool_result :=
  | ErrResult (msg : string)
  | ErrText (err : agent_error)               (* the text of an error below *)
  | ResEndpoints (l : list EndpointInfo)
  | ResEndpoint (ep : Endpoint)
  | ResDone (status id : string).

Definition bad_uv : string := "data.userVerification must be one of: required, preferred, discouraged".
Definition bad_description : string := "data.description must be a string up to 1000 characters (pass null to clear)".
Definition demoReadOnlyErr : string := "Demo endpoints are read-only".

Section Tool.
Context (sha256 : list byte -> list byte).
(** What a conversion of a float to int64 gives when it does not fit, which the
    Go language leaves to the implementation. *)
Context (float_overflow : spec_float -> Z).

Definition int64_of_float (f : spec_float) : Z :=
  if (-9223372036854775808 <=? trunc f) && (trunc f <=? 9223372036854775807) then trunc f else float_overflow f.

Definition strField (d : data) (key : string) : option string + string :=
  match d !! key with
  | None => inl None
  | Some (WString s) => inl (Some s)
  | Some _ => inr ("data." ++ key ++ " must be a string")%string
  end.

(** A patch, or the message about the first field that is wrong. *)
Definition endpointPatchFromWire (d : data) : EndpointPatch + string :=
  match strField d "label" with
  | inr msg => inr msg
  | inl label =>
  match strField d "host" with
  | inr msg => inr msg
  | inl host =>
  match strField d "username" with
  | inr msg => inr msg
  | inl username =>
  match d !! "port"%string with
  | Some (WNull | WBool _ | WString _ | WOther) => inr "data.port must be a number"%string
  | port =>
  let port := match port with Some (WNum f) => Some (int64_of_float f) | _ => None end in
  match match d !! "userVerification"%string with
        | None => inl None
        | Some (WString s) => if IsUserVerification s then inl (Some s) else inr bad_uv
        | Some _ => inr bad_uv
        end with
  | inr msg => inr msg
  | inl uv =>
  match d !! "agentForward"%string with
  | Some (WNull | WNum _ | WString _ | WOther) => inr "data.agentForward must be a boolean"%string
  | forward =>
  let forward := match forward with Some (WBool b) => Some b | _ => None end in
  match d !! "description"%string with
  | None => inl (mkPatch label host port username uv forward None false)
  | Some WNull => inl (mkPatch label host port username uv forward None true)
  | Some (WString s) =>
      if strlen s >? DescriptionMaxLen then inr bad_description
      else inl (mkPatch label host port username uv forward (Some s) true)
  | Some _ => inr bad_description
  end end end end end end end.

Definition strOrEmpty (p : option string) : string := default EmptyString p.

Record endpoint_args := mkEArgs { ea_Action : string; ea_ID : string; ea_Data : option data }.

(** The endpoint of a create call: the defaults of the store where the patch
    says nothing. *)
Definition created_endpoint (id : string) (p : EndpointPatch) : Endpoint :=
  mkEndpoint id "" (strOrEmpty (pt_Label p)) (strOrEmpty (pt_Host p)) (default 22 (pt_Port p)) (strOrEmpty (pt_Username p))
    (default "required"%string (pt_UserVerification p)) (pt_Description p) (default true (pt_AgentForward p)) None.

Definition log_events (w : EW) (t : Table) (evs : list HostKeyEvent) : EW := mkEW t (ew_stepups w) (ew_audit w ++ evs).

Definition manage_create (w : EW) (e : renv) (s : Agent) (args : endpoint_args) : tool_result * EW :=
  if IsID (ea_ID args) then (ErrResult demoReadOnlyErr, w)
  else
    match endpointPatchFromWire (default ∅ (ea_Data args)) with
    | inr msg => (ErrResult msg, w)
    | inl patch =>
        if bool_decide (ea_ID args = EmptyString) || bool_decide (strOrEmpty (pt_Label patch) = EmptyString)
           || bool_decide (strOrEmpty (pt_Host patch) = EmptyString) || bool_decide (strOrEmpty (pt_Username patch) = EmptyString)
        then (ErrResult "id, data.label, data.host, data.username are required", w)
        else
          let '(t', ok) := CreateEndpoint (ew_table w) s (re_io1 e) (re_iso e) (created_endpoint (ea_ID args) patch) in
          if ok then (ResDone "created" (ea_ID args), set_table w t') else (ErrText DatabaseError, set_table w t')
    end.

Definition not_found (id : string) : tool_result := ErrResult ("Endpoint not found: " ++ id).

Definition manage_update (w : EW) (e : renv) (s : Agent) (args : endpoint_args) : tool_result * EW :=
  if IsID (ea_ID args) then (ErrResult demoReadOnlyErr, w)
  else
    match ea_Data args with
    | None => (ErrResult "id and data are required", w)
    | Some d =>
        if bool_decide (ea_ID args = EmptyString) then (ErrResult "id and data are required", w)
        else
          match endpointPatchFromWire d with
          | inr msg => (ErrResult msg, w)
          | inl patch =>
              let '(t', ok, evs) := UpdateEndpoint (ew_table w) s (re_io1 e) (re_io2 e) (re_iso e) (re_audit e) (ea_ID args) patch in
              (match ok with
               | None => ErrText DatabaseError
               | Some false => not_found (ea_ID args)
               | Some true => ResDone "updated" (ea_ID args)
               end, log_events w t' evs)
          end
    end.

Definition manage_delete (w : EW) (e : renv) (s : Agent) (args : endpoint_args) : tool_result * EW :=
  if IsID (ea_ID args) then (ErrResult demoReadOnlyErr, w)
  else if bool_decide (ea_ID args = EmptyString) then (ErrResult "id is required", w)
  else
    let '(t', ok) := DeleteEndpoint (ew_table w) s (re_io1 e) (re_iso e) (ea_ID args) in
    (match ok with
     | None => ErrText DatabaseError
     | Some false => not_found (ea_ID args)
     | Some true => ResDone "deleted" (ea_ID args)
     end, set_table w t').

(** shellwatch_manage_endpoints. [ci] is the reported client, [demo] and [show]
    the demo endpoints and the account's toggle. *)
Definition manage_endpoints (w : EW) (e : renv) (s : Agent) (ci : option (string * string)) (demo : option DemoService) (show : bool)
  (args : endpoint_args) : tool_result * EW :=
  let s := captureClientInfo s ci in
  if bool_decide (ea_Action args = "list"%string) then
    (match ListEndpoints sha256 (ew_table w) demo s show (re_io1 e) with
     | None => ErrText DatabaseError
     | Some l => ResEndpoints l
     end, w)
  else if bool_decide (ea_Action args = "read"%string) then
    (if bool_decide (ea_ID args = EmptyString) then ErrResult "id is required"
     else match GetEndpoint sha256 (ew_table w) demo s (re_io1 e) (ea_ID args) with
          | None => ErrText DatabaseError
          | Some None => not_found (ea_ID args)
          | Some (Some ep) => ResEndpoint ep
          end, w)
  else if bool_decide (ea_Action args = "create"%string) then manage_create w e s args
  else if bool_decide (ea_Action args = "update"%string) then manage_update w e s args
  else if bool_decide (ea_Action args = "delete"%string) then manage_delete w e s args
  else (ErrResult ("unknown action: " ++ ea_Action args), w).

(** ** The session tools *)

Inductive session_call :=
  | ToolCreate (ci : option (string * string)) (io : list bool) (endpointID reason sid : string)
  | ToolSend (sessionID : string) (keys : list string)
  | ToolClose (sessionID : string)
  | ToolRead (sessionID : string) (afterOffset limit waitMs : Z).

(** What a call does next: an error, a request of the registry, or a poll from
    an offset, with a limit and a wait. *)
Inductive session_next :=
  | Refused (msg : string) | RefusedBy (err : agent_error) | Requests (l : Terminal.label)
  | Polls (sessionID : string) (afterOffset limit : Z) (wait : bool) (p : poller).

Definition next_of (r : agent_error + Terminal.label) : session_next :=
  match r with inl err => RefusedBy err | inr l => Requests l end.

Definition session_tool (t : Table) (demo : option DemoService) (s : Agent) (m : Manager) (c : session_call) : session_next :=
  match c with
  | ToolCreate ci io endpointID reason sid =>
      let s := captureClientInfo s ci in
      let reason := TrimSpace reason in
      if bool_decide (reason = EmptyString) then Refused "reason must not be empty"
      else next_of (AgentSession.CreateSession sha256 t demo s m io endpointID reason sid)
  | ToolSend sid keys => next_of (SendKeys s m sid keys)
  | ToolClose sid => next_of (CloseSession s m sid)
  | ToolRead sid afterOffset limit waitMs =>
      if (waitMs <? 0) || (waitMs >? 30000) then Refused "waitMs must be between 0 and 30000"
      else
        match AgentSession.ReadOutput s m sid with
        | inl err => RefusedBy err
        | inr p => Polls sid afterOffset limit (0 <? waitMs) p
        end
  end.

End Tool.

(** ** What a tool call does to the store *)

Section Store.
Context (sha256 : list byte -> list byte) (float_overflow : spec_float -> Z).

Abbreviation manage := (manage_endpoints sha256 float_overflow).

Lemma capture_account s ci : ag_accountID (captureClientInfo s ci) = ag_accountID s.
Proof. by destruct ci as [[name version]|]. Qed.

Definition tool_makes (s : Agent) (args : endpoint_args) (o : store_op) : Prop :=
  op_account o = Some (ag_accountID s) /\
  match o with
  | OpCreate _ _ ep => ea_Action args = "create"%string
  | OpUpdate _ _ ep => ea_Action args = "update"%string
  | OpDelete _ _ i _ => ea_Action args = "delete"%string
  | _ => False
  end.

(** What an update of the agent loses it logs. *)
Lemma update_write_logged t s io now existing r patch id t' ok evs fp :
  t !! id = Some r -> existing = fromRow id r -> r_account r = ag_accountID s -> r_hk_fp r = Some fp ->
  update_write t s io now true existing patch = (t', ok, evs) ->
  (exists r', t' !! id = Some r' /\ r_hk_fp r' = Some fp) \/
  (exists ev, evs = [ev] /\ he_EndpointID ev = id /\ he_Fingerprint ev = fp).
Proof.
  intros Hr -> Hacc Hfp. unfold update_write, Update. cbn [ep_ID merge fromRow ep_AccountID]. rewrite Hr, bool_decide_true by done.
  cbn [ep_HostKey fromRow]. rewrite Hfp. cbn [andb]. destruct (answers io 0); intros [= <- <- <-]; [|left; by exists r].
  destruct (address_changed _ _) eqn:Ec; [right; eexists; split; [reflexivity|by split]|]. left.
  rewrite lookup_insert_eq. eexists. split; [reflexivity|]. unfold address_changed in Ec. apply orb_false_iff in Ec as [E1 E2].
  apply negb_false_iff in E1, E2. unfold update_row. unfold merge, fromRow in *. cbn in *. by rewrite E1, E2.
Qed.

Lemma manage_endpoints_op w e s ci demo show args res w' :
  manage w e s ci demo show args = (res, w') ->
  ew_stepups w' = ew_stepups w /\
  ((ew_table w' = ew_table w /\ ew_audit w' = ew_audit w) \/
   exists o, ew_table w' = exec_store (ew_table w) o /\ tool_makes s args o /\
     forall id r fp, ew_table w !! id = Some r -> r_hk_fp r = Some fp -> re_audit e = true ->
       (exists r', ew_table w' !! id = Some r' /\ r_hk_fp r' = Some fp) \/ logged w w' id fp).
Proof.
  assert (forall id r fp o, ew_table w !! id = Some r -> r_hk_fp r = Some fp -> ~ clears o (ew_table w) id r ->
    exists r', exec_store (ew_table w) o !! id = Some r' /\ r_hk_fp r' = Some fp) as Hkeep.
  { intros id r fp o Hr Hf Hn. destruct (exec_store_lost _ o _ _ _ Hr Hf) as (r' & Hr' & [?|[_ ?]]); [by exists r'|done]. }
  unfold McpTools.manage_endpoints. repeat case_bool_decide; try (intros [= <- <-]; split; [done|by left]).
  - unfold manage_create. destruct (IsID _); [intros [= <- <-]; split; [done|by left]|].
    destruct (endpointPatchFromWire _ _) as [patch|msg]; [|intros [= <- <-]; split; [done|by left]].
    destruct (_ || _); [intros [= <- <-]; split; [done|by left]|]. unfold CreateEndpoint.
    match goal with |- context [PinStore.Create ?t ?io ?now ?ep] => destruct (PinStore.Create t io now ep) as [t' ok] eqn:E;
      intros Hres; assert (w' = set_table w t') as -> by (destruct ok; by injection Hres); clear Hres; split; [done|]; right;
      exists (OpCreate io now ep); cbn [exec_store ew_table set_table]; rewrite E; split; [done|]; split;
      [split; [cbn; by rewrite capture_account|done]|]; intros id r fp Hr Hf _; left; pose proof (Hkeep id r fp (OpCreate io now ep) Hr Hf) as Hk end.
    cbn [exec_store] in Hk. rewrite E in Hk. apply Hk. by intros [].
  - unfold manage_update. destruct (IsID _); [intros [= <- <-]; split; [done|by left]|].
    destruct (ea_Data args) as [d|]; [|intros [= <- <-]; split; [done|by left]]. case_bool_decide; [intros [= <- <-]; split; [done|by left]|].
    destruct (endpointPatchFromWire _ _) as [patch|msg]; [|intros [= <- <-]; split; [done|by left]]. unfold UpdateEndpoint.
    destruct (PinStore.GetForAccount _ _ _ _) as [[existing|]|] eqn:Eg;
      [|intros [= <- <-]; unfold log_events; cbn; rewrite app_nil_r; split; [done|by left]..].
    apply get_row in Eg as (r0 & Hr0 & Hacc & ->).
    destruct (update_write _ _ _ _ _ _ _) as [[t' ok] evs] eqn:E. intros [= <- <-]. split; [done|]. right.
    pose proof E as Hw. unfold update_write in E. destruct (PinStore.Update _ _ _ _) as [t1 ok1] eqn:Eu. injection E as <- <- _.
    exists (OpUpdate (re_io2 e) (re_iso e) (merge (fromRow (ea_ID args) r0) patch)). cbn [exec_store log_events ew_table ew_audit]. rewrite Eu. split; [done|].
    split; [split; [cbn; rewrite Hacc, capture_account; reflexivity|done]|]. intros id r fp Hr Hf Ha.
    destruct (decide (id = ea_ID args)) as [->|Hne].
    + assert (r0 = r) as -> by congruence. rewrite Ha in Hw.
      eapply update_write_logged in Hw as [Hk|(ev & -> & ? & ?)]; [by left| |exact Hr|done|exact Hacc|exact Hf]. right. by exists ev.
    + left. pose proof (Hkeep id r fp (OpUpdate (re_io2 e) (re_iso e) (merge (fromRow (ea_ID args) r0) patch)) Hr Hf) as Hk.
      cbn [exec_store] in Hk. rewrite Eu in Hk. apply Hk. cbn. intros (? & _). congruence.
  - unfold manage_delete. destruct (IsID _); [intros [= <- <-]; split; [done|by left]|]. case_bool_decide; [intros [= <- <-]; split; [done|by left]|].
    unfold DeleteEndpoint. destruct (PinStore.Delete _ _ _ _ _) as [t' ok] eqn:E. intros [= <- <-]. split; [done|]. right.
    exists (OpDelete (re_io1 e) (re_iso e) (ea_ID args) (ag_accountID (captureClientInfo s ci))). cbn [exec_store set_table ew_table]. rewrite E. split; [done|].
    split; [split; [cbn; by rewrite capture_account|done]|]. intros id r fp Hr Hf _. left.
    pose proof (Hkeep id r fp (OpDelete (re_io1 e) (re_iso e) (ea_ID args) (ag_accountID (captureClientInfo s ci))) Hr Hf) as Hk.
    cbn [exec_store] in Hk. rewrite E in Hk. apply Hk. by intros [].
Qed.

End Store.

(** ** Everything that writes to the table *)

(** The events that reach the table and the step-up tokens: REST requests,
    verified step-up ceremonies, tool calls of agents, and pins written when an
    approval let a connection accept its host key. *)
Inductive event :=
  | EvRest (e : renv) (acc : string) (rq : request)
  | EvStepUp (now : Z) (token acc action : string)
  | EvTool (e : renv) (s : Agent) (ci : option (string * string)) (demo : option DemoService) (show : bool) (args : endpoint_args)
  | EvApproved (io : list bool) (now : string) (p : PinHostKeyParams).

Section History.
Context (sha256 : list byte -> list byte) (ParseAuthorizedKey : string -> option HostKeyRecord) (float_overflow : spec_float -> Z).

Definition exec_event (w : EW) (ev : event) : EW :=
  match ev with
  | EvRest e acc rq => snd (handle sha256 ParseAuthorizedKey w e acc rq)
  | EvStepUp now token acc action => set_stepups w (snd (StepUpStore_Mint (ew_stepups w) now token acc action))
  | EvTool e s ci demo show args => snd (manage_endpoints sha256 float_overflow w e s ci demo show args)
  | EvApproved io now p => set_table w (fst (PinHostKey (ew_table w) io now p))
  end.

Definition init : EW := mkEW ∅ NewStepUpStore [].
Definition history (evs : list event) : EW := foldl exec_event init evs.

(** The history as the step-up store sees it. *)
Definition stepup_of (ev : event) : list stepup_event :=
  match ev with
  | EvStepUp now token acc action => [EvMint now token acc action]
  | EvRest e acc (RqPin _ token _) => [EvRequest (re_now e) ActionPinHostKey (Some acc) token]
  | EvRest e acc (RqUnpin _ token) => [EvRequest (re_now e) ActionResetHostKey (Some acc) token]
  | _ => []
  end.

Lemma audit_stepups w e ep reason : ew_stepups (auditHostKeyCleared w e ep reason) = ew_stepups w.
Proof. unfold auditHostKeyCleared. destruct (ep_HostKey ep), (re_audit e); done. Qed.

Ltac step_cases :=
  repeat match goal with
  | |- context [match ?x with _ => _ end] => lazymatch x with context [match _ with _ => _ end] => fail | _ => destruct x end
  end; cbn [snd ew_stepups set_table set_stepups]; rewrite ?audit_stepups; try done.

Lemma rest_gated_stepups action w e acc token next :
  (forall w, ew_stepups (snd (next w)) = ew_stepups w) ->
  ew_stepups (snd (gated action w e acc token next)) = snd (RequireStepUp (ew_stepups w) (re_now e) action (Some acc) token).
Proof. intros Hn. unfold gated. destruct (RequireStepUp _ _ _ _ _) as [[|? ? ?] s]; [by rewrite Hn|done]. Qed.

Lemma pinHostKey_stepups w e acc id b : ew_stepups (snd (pinHostKey ParseAuthorizedKey w e acc id b)) = ew_stepups w.
Proof. unfold pinHostKey. step_cases. Qed.
Lemma deleteHostKey_stepups w e acc id : ew_stepups (snd (deleteHostKey w e acc id)) = ew_stepups w.
Proof. unfold deleteHostKey. step_cases. Qed.
Lemma create_stepups w e acc id b : ew_stepups (snd (create w e acc id b)) = ew_stepups w.
Proof. unfold create. step_cases. Qed.
Lemma update_stepups w e acc id b : ew_stepups (snd (update w e acc id b)) = ew_stepups w.
Proof. unfold update, update_existing. step_cases. Qed.
Lemma delete_stepups w e acc id m : ew_stepups (snd (delete_ w e acc id m)) = ew_stepups w.
Proof. unfold delete_. step_cases. Qed.

Lemma exec_stepups w ev : ew_stepups (exec_event w ev) = foldl stepup_exec (ew_stepups w) (stepup_of ev).
Proof.
  destruct ev as [e acc rq|now token acc action|e s ci demo show args|io now p]; [|done| |done].
  - destruct rq; cbn [exec_event handle stepup_of foldl stepup_exec].
    + done.
    + apply create_stepups.
    + apply update_stepups.
    + apply delete_stepups.
    + apply rest_gated_stepups. intros. apply pinHostKey_stepups.
    + apply rest_gated_stepups. intros. apply deleteHostKey_stepups.
  - cbn [exec_event stepup_of foldl]. destruct (manage_endpoints _ _ _ _ _ _ _ _ _) as [res w'] eqn:E. by apply manage_endpoints_op in E as [Hs _].
Qed.

Lemma history_stepups evs : ew_stepups (history evs) = foldl stepup_exec NewStepUpStore (concat (map stepup_of evs)).
Proof.
  unfold history. induction evs as [|ev evs IH] using rev_ind; [done|].
  rewrite foldl_app, map_app, concat_app, foldl_app. cbn [foldl map concat]. by rewrite exec_stepups, IH, app_nil_r.
Qed.

Lemma exec_store_account t o id r : t !! id = Some r -> exists r', exec_store t o !! id = Some r' /\ r_account r' = r_account r.
Proof.
  intros Hr. assert (forall t' : Table, t' !! id = Some r -> exists r', t' !! id = Some r' /\ r_account r' = r_account r) as Hsame by eauto.
  assert (forall k r1 r2, t !! k = Some r1 -> r_account r2 = r_account r1 -> exists r', <[k := r2]> t !! id = Some r' /\ r_account r' = r_account r) as Hins.
  { intros k r1 r2 H1 H2. destruct (decide (k = id)) as [->|]; [|apply Hsame; by rewrite lookup_insert_ne].
    exists r2. rewrite lookup_insert_eq. split; [done|congruence]. }
  destruct o as [io now ep|io now ep|io now i acc|io now p|io now i acc]; cbn [exec_store].
  - unfold Create. destruct (answers io 0 && _) eqn:E; [|by apply Hsame]. bool_to_prop. apply Hsame. cbn. rewrite lookup_insert_ne; [done|]. intros <-. congruence.
  - unfold Update. destruct (answers io 0); [|by apply Hsame]. destruct (t !! ep_ID ep) as [r0|] eqn:E; [|by apply Hsame]. case_bool_decide; [|by apply Hsame]. by eapply Hins.
  - unfold Delete. destruct (answers io 0); [|by apply Hsame]. destruct (t !! i) as [r0|] eqn:E; [|by apply Hsame]. case_bool_decide; [|by apply Hsame]. by eapply Hins.
  - pose proof (PinHostKey_cases t io now p) as Hc. cbv zeta in Hc. destruct (PinHostKey t io now p) as [t' [err|]]; cbn [fst].
    + destruct Hc as [-> _]. by apply Hsame.
    + destruct Hc as (r0 & Hr0 & _ & _ & [[Hn ->]|[_ ->]]); [by eapply Hins|by apply Hsame].
  - unfold ClearHostKey. destruct (answers io 0); [|by apply Hsame]. destruct (t !! i) as [r0|] eqn:E; [|by apply Hsame]. destruct (_ && _); [|by apply Hsame]. by eapply Hins.
Qed.

(** Each event is at most one operation of the store. *)
Definition op_of (w : EW) (ev : event) (o : store_op) : Prop :=
  match ev with
  | EvRest e acc rq => makes ParseAuthorizedKey w e acc rq o
  | EvTool e s ci demo show args => tool_makes s args o
  | EvApproved io now p => o = OpPin io now p
  | EvStepUp _ _ _ _ => False
  end.

Lemma exec_event_op w ev :
  ew_table (exec_event w ev) = ew_table w \/ exists o, ew_table (exec_event w ev) = exec_store (ew_table w) o /\ op_of w ev o.
Proof.
  destruct ev as [e acc rq|now token acc action|e s ci demo show args|io now p]; cbn [exec_event op_of].
  - destruct (handle _ _ _ _ _ _) as [rep w'] eqn:E. by apply handle_op in E.
  - by left.
  - destruct (manage_endpoints _ _ _ _ _ _ _ _ _) as [res w'] eqn:E. cbn [snd]. apply manage_endpoints_op in E as [_ [[Ht _]|(o & Ht & Hm & _)]]; [by left|].
    right. by exists o.
  - right. by exists (OpPin io now p).
Qed.

Lemma stepped_up_minted evs e acc action token :
  stepped_up (history evs) e acc action token ->
  exists t, EvStepUp t token acc action ∈ evs /\ re_now e < t + 90 * second.
Proof.
  intros [exp Hc]. rewrite history_stepups, stepup_run_calls in Hc.
  apply trun_consume in Hc as (x & Hlt & Hex); [|apply New_wf|reflexivity].
  apply explained_mint in Hex as (pre & t & acc' & act & post & Heq & Hv & Hx & _). injection Hv as <- <- _. subst x.
  exists t. split; [|exact Hlt]. assert (EvMint t token acc action ∈ concat (map stepup_of evs)) as Hin by (rewrite Heq; set_solver).
  apply list_elem_of_In, in_concat in Hin as (l & Hl & Hin). apply in_map_iff in Hl as (ev & <- & Hev). apply list_elem_of_In.
  destruct ev as [? ? []| | |]; cbn in Hin; try done; destruct Hin as [Hin|[]]; try discriminate Hin. by injection Hin as <- <- <- <-.
Qed.

(** Where the pin of a row comes from: a connection that was approved for the
    row's address, or a pin request of the row's account with a step-up token
    minted for it less than 90 seconds before. *)
Definition from_approval (evs : list event) (id : string) (r : row) (fp : string) : Prop :=
  exists io now p, EvApproved io now p ∈ evs /\ pk_ID p = id /\ pk_Host p = r_host r /\ pk_Port p = r_port r /\
    kr_Fingerprint (pk_Record p) = fp /\ kr_Key (pk_Record p) = r_hk r.

Definition from_owner (evs : list event) (id : string) (r : row) (fp : string) : Prop :=
  exists pre e token b post rec t,
    evs = pre ++ EvRest e (r_account r) (RqPin id token b) :: post /\
    pin_record ParseAuthorizedKey (readRawBody b) = inr rec /\ kr_Fingerprint rec = fp /\ kr_Key rec = r_hk r /\
    EvStepUp t token (r_account r) ActionPinHostKey ∈ pre /\ re_now e < t + 90 * second.

Definition vouched evs id r fp : Prop := from_approval evs id r fp \/ from_owner evs id r fp.

Lemma pin_vouched_snoc evs ev id r r' fp :
  vouched evs id r fp -> r_host r = r_host r' -> r_port r = r_port r' -> r_hk r = r_hk r' -> r_account r = r_account r' ->
  vouched (evs ++ [ev]) id r' fp.
Proof.
  unfold vouched, from_approval, from_owner. intros [(io & now & p & Hin & H)|(pre & e & token & b & post & rec & t & -> & H)] Hh Hp Hk Ha;
    rewrite Hk in H; [left|right].
  - exists io, now, p. rewrite <- Hh, <- Hp. split; [set_solver|exact H].
  - exists pre, e, token, b, (post ++ [ev]), rec, t. rewrite <- Ha. split; [by rewrite <- app_assoc|exact H].
Qed.

Lemma history_vouched evs id r fp :
  ew_table (history evs) !! id = Some r -> r_hk_fp r = Some fp -> vouched evs id r fp.
Proof.
  revert r. induction evs as [|ev evs IH] using rev_ind; intros r Hrow Hpin; [unfold history in Hrow; cbn in Hrow; by rewrite lookup_empty in Hrow|].
  unfold history in Hrow. rewrite foldl_app in Hrow. cbn [foldl] in Hrow. fold (history evs) in Hrow.
  assert (forall r0, ew_table (history evs) !! id = Some r0 -> r_hk_fp r0 = Some fp -> r_hk r0 = r_hk r -> r_host r0 = r_host r ->
    r_port r0 = r_port r -> r_account r0 = r_account r -> vouched (evs ++ [ev]) id r fp) as Hkept.
  { intros r0 H0 Hf Hk Hh Hp Ha. eapply pin_vouched_snoc; eauto. }
  destruct (exec_event_op (history evs) ev) as [Ht|(o & Ht & Hop)]; rewrite Ht in Hrow; [by eapply Hkept|].
  destruct (exec_store_pin _ _ _ _ _ Hrow Hpin) as [(r0 & H0 & Hf & Hh & Hp & Hk)|(io & now & p & -> & Hid & Hh & Hp & Hfp & Hk)].
  { destruct (exec_store_account _ o _ _ H0) as (r1 & H1 & Ha). rewrite Hrow in H1. injection H1 as <-. eapply Hkept; eauto. }
  destruct ev as [e acc rq|? ? ? ?|e s ci demo show args|io' now' p']; cbn in Hop; [|done|by destruct Hop|].
  - destruct rq as [| | | |i token b|]; try done. destruct Hop as (Hs & Hrec & Hi & existing & Hg & _). subst i.
    apply get_row in Hg as (r0 & H0 & Hacc & _). rewrite Hid in H0. destruct (exec_store_account _ (OpPin io now p) _ _ H0) as (r1 & H1 & Ha).
    rewrite Hrow in H1. injection H1 as <-. apply stepped_up_minted in Hs as (t & Hin & Hlt). right.
    assert (acc = r_account r) as -> by congruence. rewrite Hid in *. exists evs, e, token, b, [], (pk_Record p), t. by split_and!.
  - injection Hop as -> -> ->. left. exists io', now', p'. split_and!; try done. set_solver.
Qed.

End History.

(** Every host-key pin at rest was vouched for by a human, over any history
    of REST requests, tool calls of agents, step-up ceremonies and approved
    connections: it is the key of a connection that was approved for the
    endpoint's present address, or it was given in a pin request of the
    endpoint's own account that presented a step-up token minted for that
    purpose less than 90 seconds before. No tool call ever writes one. *)
Theorem pins_are_vouched sha256 ParseAuthorizedKey float_overflow (evs : list event) (id : string) (r : row) (fp : string)
  (Hrow : ew_table (history sha256 ParseAuthorizedKey float_overflow evs) !! id = Some r) (Hpin : r_hk_fp r = Some fp) :
  vouched ParseAuthorizedKey evs id r fp.
Proof. by eapply history_vouched. Qed.

(** An agent can take a host-key pin away only by moving its own account's
    endpoint to another address, and never without a trace: with an auditor,
    each pin that a tool call removes is the fingerprint of a new entry of the
    log. No tool call adds or replaces a pin. *)
Theorem tool_pins_explained sha256 float_overflow (w : EW) (e : renv) (s : Agent) ci demo show (args : endpoint_args) res w'
  (Hcall : manage_endpoints sha256 float_overflow w e s ci demo show args = (res, w')) (id : string) :
  (forall r' fp, ew_table w' !! id = Some r' -> r_hk_fp r' = Some fp ->
     exists r, ew_table w !! id = Some r /\ r_hk_fp r = Some fp /\ r_host r = r_host r' /\ r_port r = r_port r' /\ r_hk r = r_hk r') /\
  (forall r fp, ew_table w !! id = Some r -> r_hk_fp r = Some fp ->
     exists r', ew_table w' !! id = Some r' /\
       (r_hk_fp r' = Some fp \/
        r_hk_fp r' = None /\ r_account r = ag_accountID s /\ ea_Action args = "update"%string /\
        (r_host r' <> r_host r \/ r_port r' <> r_port r) /\ (re_audit e = true -> logged w w' id fp))).
Proof.
  apply manage_endpoints_op in Hcall as [_ [[Ht _]|(o & Ht & [Hacc Hm] & Hlog)]].
  { rewrite Ht. split; intros r0 fp Hr Hf; [by exists r0|exists r0; auto]. }
  split; intros r fp Hr Hf.
  - rewrite Ht in Hr. destruct (exec_store_pin _ _ _ _ _ Hr Hf) as [?|(io & now & p & -> & _)]; [done|by destruct Hm].
  - destruct (exec_store_lost _ o _ _ _ Hr Hf) as (r' & Hr' & Hc). rewrite <- Ht in Hr'. exists r'. split; [done|].
    destruct Hc as [?|[Hn Hc]]; [by left|]. right. destruct o as [|io now ep| | |]; try done. cbn in Hc, Hacc. destruct Hc as (Hid & Ha & Hne & Hrow).
    rewrite Ht in Hr'. cbn [exec_store] in Hr'. rewrite Hrow in Hr'. injection Hr' as <-. split; [done|]. split; [congruence|]. split; [done|]. split; [done|].
    intros Hau. destruct (Hlog id r fp Hr Hf Hau) as [(r1 & H1 & Hf1)|]; [|done]. rewrite Ht in H1. cbn [exec_store] in H1. rewrite Hrow in H1. congruence.
Qed.

(** What the tool creates is what it reads back: after a successful create
    call of an account, a read of that id by any agent of the account answers
    the endpoint of the patch, with the store's defaults for the fields left
    out, no host key, and the agent's account whatever the call said. *)
Theorem tool_create_read sha256 float_overflow (w : EW) (e e' : renv) (s s' : Agent) ci ci' demo show show' d id st w' patch
  (Hdata : endpointPatchFromWire float_overflow d = inl patch)
  (Hcreate : manage_endpoints sha256 float_overflow w e s ci demo show (mkEArgs "create" id (Some d)) = (ResDone st id, w'))
  (Hacc : ag_accountID s' = ag_accountID s) (Hio : answers (re_io1 e') 0 = true) :
  manage_endpoints sha256 float_overflow w' e' s' ci' demo show' (mkEArgs "read" id None) =
    (ResEndpoint (with_account (ag_accountID s) (created_endpoint id patch)), w') /\
  IsID id = false /\ ew_table w !! id = None.
Proof.
  unfold manage_endpoints, manage_create in Hcreate. cbn [ea_Action ea_ID ea_Data] in Hcreate.
  repeat (rewrite bool_decide_false in Hcreate by done). rewrite (bool_decide_true ("create"%string = _)) in Hcreate by done.
  destruct (IsID id) eqn:Hid; [done|]. change (default ∅ (Some d)) with d in Hcreate. rewrite Hdata in Hcreate. destruct (_ || _) eqn:Hreq; [done|].
  assert (id <> EmptyString) as Hne by (intros ->; done).
  unfold CreateEndpoint, Create in Hcreate. cbn [ep_ID with_account created_endpoint] in Hcreate.
  destruct (answers (re_io1 e) 0 && _) eqn:Ha; [|done]. injection Hcreate as _ <-. apply andb_true_iff in Ha as [_ Hn].
  apply bool_decide_eq_true in Hn. split; [|done].
  unfold manage_endpoints, GetEndpoint, Svc_GetForAccount. cbn [ea_Action ea_ID]. rewrite (bool_decide_false ("read"%string = "list"%string)) by done.
  rewrite (bool_decide_true ("read"%string = _)) by done. rewrite (bool_decide_false (id = _)) by done. rewrite Hid.
  unfold GetForAccount. rewrite Hio. cbn [ew_table set_table]. rewrite lookup_insert_eq. cbn [r_account with_account ep_AccountID].
  rewrite bool_decide_true by (by rewrite !capture_account). cbn. by rewrite capture_account.
Qed.

(** ** Concrete calls *)

Definition ex_overflow (f : spec_float) : Z := -9223372036854775808.
Definition ex_agent : Agent := buildServer "acc" "client" "10.0.0.1" (Some 3).

(* -2222.5, and 2^63 *)
Example ex_float1 : int64_of_float ex_overflow (S754_finite true 4445 (-1)) = -2222.
Proof. reflexivity. Qed.
Example ex_float2 : int64_of_float ex_overflow (S754_finite false 1 63) = -9223372036854775808.
Proof. reflexivity. Qed.

Definition ex_data : data :=
  {[ "label"%string := WString "box"; "host"%string := WString "h"; "username"%string := WString "u"; "port"%string := WNum (S754_finite false 2222 0) ]}.

(** Reading and writing back are two steps. An agent that renames an
    endpoint while the owner moves it to another host, where a key is then
    approved, puts the old host back, drops the new pin, and leaves no entry in
    the audit log, although the call asked for nothing but a new label. *)
Theorem stale_update_drops_pin :
  let t0 : Table := {[ "ep"%string := ex_row "old" None ]} in
  let rename := mkPatch (Some "renamed"%string) None None None None None None false in
  let moved := mkEndpoint "ep" "acc" "box" "new" 22 "root" "required" None true None in
  let t1 := fold_left exec_store [OpUpdate [] "t1" moved; OpPin [] "t2" (mkPinParams "ep" "new" 22 (mkRecord "" [] "SHA256:new") "approval")] t0 in
  exists existing t2,
    PinStore.GetForAccount t0 [] "ep" "acc" = Some (Some existing) /\
    update_write t1 ex_agent [] "t3" true existing rename = (t2, Some true, []) /\
    fmap r_hk_fp (t1 !! "ep"%string) = Some (Some "SHA256:new"%string) /\ fmap r_host (t1 !! "ep"%string) = Some "new"%string /\
    fmap r_hk_fp (t2 !! "ep"%string) = Some None /\ fmap r_host (t2 !! "ep"%string) = Some "old"%string.
Proof. eexists _, _. split; [vm_compute; reflexivity|]. split; [vm_compute; reflexivity|]. repeat split; vm_compute; reflexivity. Qed.

Definition ex_events : list event :=
  [EvTool (ex_env 0 "t0") ex_agent None None false (mkEArgs "create" "ep" (Some ex_data)); EvStepUp 1 "tok" "acc" ActionPinHostKey;
   EvRest (ex_env 5 "t1") "acc" (RqPin "ep" "tok" (Some ex_pin_body))].

Lemma pins_are_vouched_witness :
  exists r, ew_table (history ex_sha ex_parse ex_overflow ex_events) !! "ep"%string = Some r /\ r_hk_fp r = Some "SHA256:abc"%string /\
    vouched ex_parse ex_events "ep" r "SHA256:abc".
Proof.
  assert (exists r, ew_table (history ex_sha ex_parse ex_overflow ex_events) !! "ep"%string = Some r /\ r_hk_fp r = Some "SHA256:abc"%string) as (r & Hr & Hf)
    by (eexists; split; [vm_compute; reflexivity|reflexivity]).
  exists r. split; [exact Hr|]. split; [exact Hf|]. apply (pins_are_vouched ex_sha ex_parse ex_overflow ex_events "ep" r _ Hr Hf).
Defined.

Definition ex_move : endpoint_args := mkEArgs "update" "ep" (Some {[ "host"%string := WString "elsewhere" ]}).

Lemma tool_pins_explained_witness :
  let w := ex_world (Some "SHA256:abc"%string) "" in
  let w' := snd (manage_endpoints ex_sha ex_overflow w (ex_env 5 "t1") ex_agent None None false ex_move) in
  exists r', ew_table w' !! "ep"%string = Some r' /\
    (r_hk_fp r' = Some "SHA256:abc"%string \/
     r_hk_fp r' = None /\ "acc"%string = "acc"%string /\ "update"%string = "update"%string /\
     (r_host r' <> "host"%string \/ r_port r' <> 22) /\ (true = true -> logged w w' "ep" "SHA256:abc")).
Proof.
  intros w w'. destruct (tool_pins_explained ex_sha ex_overflow w (ex_env 5 "t1") ex_agent None None false ex_move _ w' (surjective_pairing _) "ep") as [_ H].
  apply (H (ex_row "host" (Some "SHA256:abc"%string)) "SHA256:abc"%string); reflexivity.
Defined.

Lemma tool_create_read_witness :
  let w' := snd (manage_endpoints ex_sha ex_overflow init (ex_env 0 "t0") ex_agent None None false (mkEArgs "create" "ep" (Some ex_data))) in
  manage_endpoints ex_sha ex_overflow w' (ex_env 9 "t9") ex_agent None None false (mkEArgs "read" "ep" None) =
    (ResEndpoint (mkEndpoint "ep" "acc" "box" "h" 2222 "u" "required" None true None), w') /\
  IsID "ep" = false /\ ew_table init !! "ep"%string = None.
Proof.
  intros w'. apply (tool_create_read ex_sha ex_overflow init (ex_env 0 "t0") (ex_env 9 "t9") ex_agent ex_agent None None None false false ex_data "ep" "created" w'
    (mkPatch (Some "box"%string) (Some "h"%string) (Some 2222) (Some "u"%string) None None None false)); [vm_compute; reflexivity|vm_compute; reflexivity|reflexivity|reflexivity].
Defined.
