(* ===== verification/McpWatcher.v ===== *)
(** * Resource subscriptions of agents (internal/mcp/resources.go)

    The watcher turns the session registry's hook calls into
    resources/updated notifications for the URIs a client subscribed to. A
    label is a critical section of the watcher's mutex together with the calls
    made after it; timers that expired but have not run yet are part of the
    state, so that stopping one may come too late. *)
From S2P Require Import Prelude GoStrings Terminal AgentSession.

Definition sessionsResourceURI : string := "shellwatch://sessions".
Definition sessionResourcePrefix : string := "shellwatch://sessions/".
Definition protocolVersion20260728 : string := "2026-07-28".

(** ** Resources *)

Record sessionDoc := mkDoc { sd_SessionID : string; sd_EndpointID : string; sd_Status : Status; sd_CreatedAt : Z; sd_Offset : Z }.

Definition toSessionDoc (s : Session) (m : Manager) : sessionDoc :=
  mkDoc (SessionID s) (EndpointID s) (s_Status s) (CreatedAt s) (default 0 (OutputOffset m (SessionID s))).

Definition CutPrefix (s prefix : string) : option string :=
  if HasPrefix s prefix then Some (drop_str (String.length prefix) s) else None.

Definition read_list (s : Agent) (m : Manager) : list sessionDoc := map (fun x => toSessionDoc x m) (AgentSession.ListSessions s m).

(** [None] is the resource-not-found error. *)
Definition read_session (s : Agent) (m : Manager) (uri : string) : option sessionDoc :=
  match CutPrefix uri sessionResourcePrefix with
  | None => None
  | Some id =>
      if negb (Owns s m id) then None
      else match GetSession m id with None => None | Some sess => Some (toSessionDoc sess m) end
  end.

(** ** The watcher *)

(** [timers] are the debounce timers that run or have expired without having
    run their function, by URI; [attached] counts the subscriptions held with
    the registry; [updates] is what the client was sent. *)
Record watcher := mkWatcher {
  subscribed : gmap string nat;
  pending : gset string;
  timers : list string;
  attached : nat;
  updates : list string
}.

Definition newWatcher : watcher := mkWatcher ∅ ∅ [] 0 [].

Definition refs (w : watcher) (uri : string) : nat := default 0%nat (subscribed w !! uri).

Definition acquire (w : watcher) (uri : string) : watcher :=
  mkWatcher (<[uri := S (refs w uri)]> (subscribed w)) (pending w) (timers w)
    (if decide (subscribed w = ∅) then attached w + 2 else attached w)%nat (updates w).

(** The check of the subscribe handler: the protocol version and the owner. *)
Definition may_subscribe (version : option string) (owns : string -> bool) (uri : string) : bool :=
  match version with
  | None => false
  | Some v =>
      match String.compare v protocolVersion20260728 with
      | Lt => false
      | _ =>
          bool_decide (uri = sessionsResourceURI)
          || match CutPrefix uri sessionResourcePrefix with Some id => owns id | None => false end
      end
  end.

Definition subscribe (w : watcher) (version : option string) (owns : string -> bool) (uri : string) : watcher :=
  if may_subscribe version owns uri then acquire w uri else w.

Fixpoint remove1 (uri : string) (l : list string) : list string :=
  match l with
  | [] => []
  | x :: l => if bool_decide (x = uri) then l else x :: remove1 uri l
  end.

(** Stopping a timer: [late] says that it had expired already. *)
Definition stop (late : bool) (uri : string) (l : list string) : list string := if late then l else remove1 uri l.

Definition release (w : watcher) (late : bool) (uri : string) : watcher :=
  let w1 :=
    match refs w uri with
    | O => w
    | S n =>
        if bool_decide (n = O) then
          mkWatcher (delete uri (subscribed w)) (pending w ∖ {[uri]})
            (if decide (uri ∈ pending w) then stop late uri (timers w) else timers w) (attached w) (updates w)
        else mkWatcher (<[uri := n]> (subscribed w)) (pending w) (timers w) (attached w) (updates w)
    end in
  if decide (subscribed w1 = ∅) then
    mkWatcher ∅ ∅ (foldr (fun u l => stop late u l) (timers w1) (elements (pending w1))) 0 (updates w1)
  else w1.

Definition onOutput (w : watcher) (owns : string -> bool) (sessionID : string) : watcher :=
  let uri := (sessionResourcePrefix ++ sessionID)%string in
  if bool_decide (refs w uri = O) || negb (owns sessionID) then w
  else if decide (uri ∈ pending w) then w
  else mkWatcher (subscribed w) ({[uri]} ∪ pending w) (timers w ++ [uri]) (attached w) (updates w).

Definition fire (w : watcher) (uri : string) : watcher :=
  let ok := bool_decide (uri ∈ pending w) in
  let stillSubscribed := negb (bool_decide (refs w uri = O)) in
  mkWatcher (subscribed w) (pending w ∖ {[uri]}) (timers w) (attached w)
    (updates w ++ if ok && stillSubscribed then [uri] else []).

Definition onStatus (w : watcher) (owns : string -> bool) (sessionID : string) : watcher :=
  if negb (owns sessionID) then w
  else
    let uri := (sessionResourcePrefix ++ sessionID)%string in
    mkWatcher (subscribed w) (pending w) (timers w) (attached w)
      (updates w ++ (if bool_decide (refs w uri = O) then [] else [uri])
                 ++ (if bool_decide (refs w sessionsResourceURI = O) then [] else [sessionsResourceURI])).

Inductive label :=
  | LSubscribe (version : option string) (owns : string -> bool) (uri : string)
  | LEnd (late : bool) (uri : string)               (* a subscription's request context ends *)
  | LOutput (owns : string -> bool) (sessionID : string)
  | LStatus (owns : string -> bool) (sessionID : string)
  | LTimer (uri : string).                          (* a timer's function runs *)

Definition step (w : watcher) (l : label) : watcher :=
  match l with
  | LSubscribe version owns uri => subscribe w version owns uri
  | LEnd late uri => release w late uri
  | LOutput owns sid => if bool_decide (attached w = O) then w else onOutput w owns sid
  | LStatus owns sid => if bool_decide (attached w = O) then w else onStatus w owns sid
  | LTimer uri =>
      if decide (uri ∈ timers w)
      then fire (mkWatcher (subscribed w) (pending w) (remove1 uri (timers w)) (attached w) (updates w)) uri
      else w
  end.

Definition run (ls : list label) : watcher := foldl step newWatcher ls.

(** ** The shape of the state *)

Lemma elem_of_remove1 uri x l : x ∈ remove1 uri l -> x ∈ l.
Proof. induction l as [|y l IH]; cbn; [done|]. case_bool_decide; set_solver. Qed.

Lemma remove1_other uri x l : x <> uri -> x ∈ l -> x ∈ remove1 uri l.
Proof. intros Hne. induction l as [|y l IH]; cbn; [done|]. case_bool_decide; set_solver. Qed.

Lemma stop_other late uri x l : x <> uri -> x ∈ l -> x ∈ stop late uri l.
Proof. destruct late; [done|]. apply remove1_other. Qed.

(** Attached to the registry exactly while there are subscriptions, no count of
    zero is stored, and whatever is scheduled has a timer and a subscriber. *)
Record watching (w : watcher) : Prop := {
  wi_attached : attached w = if decide (subscribed w = ∅) then 0%nat else 2%nat;
  wi_counts : forall uri n, subscribed w !! uri = Some n -> n <> O;
  wi_pending : forall uri, uri ∈ pending w -> uri ∈ timers w /\ refs w uri <> O
}.

Lemma refs_insert w uri n uri' p t a u :
  refs (mkWatcher (<[uri := n]> (subscribed w)) p t a u) uri' = if decide (uri' = uri) then n else refs w uri'.
Proof.
  unfold refs. cbn. destruct (decide (uri' = uri)) as [->|]; [by rewrite lookup_insert_eq|by rewrite lookup_insert_ne].
Qed.

Lemma refs_delete w uri uri' p t a u :
  refs (mkWatcher (delete uri (subscribed w)) p t a u) uri' = if decide (uri' = uri) then O else refs w uri'.
Proof.
  unfold refs. cbn. destruct (decide (uri' = uri)) as [->|]; [by rewrite lookup_delete_eq|by rewrite lookup_delete_ne].
Qed.

Lemma acquire_watching w uri : watching w -> watching (acquire w uri).
Proof.
  intros [Ha Hc Hp]. split; cbn [acquire attached subscribed pending timers].
  - rewrite Ha. destruct (decide (<[uri:=_]> _ = ∅)) as [E|]; [by apply insert_non_empty in E|]. by destruct (decide _).
  - intros u n. destruct (decide (uri = u)) as [->|]; [rewrite lookup_insert_eq; by intros [= <-]|].
    rewrite lookup_insert_ne by done. apply Hc.
  - intros u Hu. destruct (Hp u Hu) as [Ht Hr]. split; [done|]. unfold acquire. rewrite refs_insert. by destruct (decide (u = uri)).
Qed.

Lemma release_watching w late uri : watching w -> watching (release w late uri).
Proof.
  intros [Ha Hc Hp]. unfold release.
  set (w1 := match refs w uri with O => _ | S _ => _ end).
  assert ((forall u n, subscribed w1 !! u = Some n -> n <> O) /\ (forall u, u ∈ pending w1 -> u ∈ timers w1 /\ refs w1 u <> O) /\
    (subscribed w1 <> ∅ -> attached w1 = 2%nat)) as (Hc1 & Hp1 & Ha1).
  { subst w1. destruct (refs w uri) as [|n] eqn:Er.
    - split_and!; [exact Hc|exact Hp|]. intros Hne. by rewrite Ha, decide_False.
    - assert (subscribed w <> ∅) as Hne by (intros E; unfold refs in Er; rewrite E, lookup_empty in Er; done).
      rewrite decide_False in Ha by done. case_bool_decide as Hn; cbn [subscribed pending timers attached]; split_and!; try done.
      + intros u m Hu. apply lookup_delete_Some in Hu as [_ Hu]. by eapply Hc.
      + intros u Hu. apply elem_of_difference in Hu as [Hu Hne']. apply not_elem_of_singleton in Hne'. destruct (Hp u Hu) as [Ht Hr].
        rewrite refs_delete, (decide_False (P := u = uri)) by done. split; [|done]. destruct (decide (uri ∈ pending w)); [by apply stop_other|done].
      + intros u m. destruct (decide (uri = u)) as [->|]; [rewrite lookup_insert_eq; by intros [= <-]|]. rewrite lookup_insert_ne by done. apply Hc.
      + intros u Hu. destruct (Hp u Hu) as [Ht Hr]. split; [done|]. rewrite refs_insert. by destruct (decide _). }
  clearbody w1. destruct (decide (subscribed w1 = ∅)) as [E|E].
  - split; cbn; [done|intros u n; by rewrite lookup_empty|set_solver].
  - split; [by rewrite decide_False, Ha1|exact Hc1|exact Hp1].
Qed.

Lemma step_watching w l : watching w -> watching (step w l).
Proof.
  intros Hw. destruct l as [version owns uri|late uri|owns sid|owns sid|uri]; cbn [step].
  - unfold subscribe. destruct (may_subscribe _ _ _); [by apply acquire_watching|done].
  - by apply release_watching.
  - case_bool_decide; [done|]. unfold onOutput. destruct (_ || _) eqn:E; [done|]. destruct (decide _); [done|].
    apply orb_false_iff in E as [Er _]. apply bool_decide_eq_false in Er. destruct Hw as [Ha Hc Hp]. split; [exact Ha|exact Hc|].
    cbn. intros u Hu. apply elem_of_union in Hu as [Hu|Hu].
    + apply elem_of_singleton in Hu as ->. split; [set_solver|exact Er].
    + destruct (Hp u Hu) as [Ht Hr]. split; [set_solver|exact Hr].
  - case_bool_decide; [done|]. unfold onStatus. destruct (negb _); [done|]. destruct Hw as [Ha Hc Hp]. by split.
  - destruct (decide _); [|done]. destruct Hw as [Ha Hc Hp]. split; [exact Ha|exact Hc|]. cbn. intros u Hu.
    apply elem_of_difference in Hu as [Hu Hne]. apply not_elem_of_singleton in Hne. destruct (Hp u Hu) as [Ht Hr].
    split; [by apply remove1_other|exact Hr].
Qed.

Lemma run_watching ls : watching (run ls).
Proof.
  unfold run. induction ls as [|l ls IH] using rev_ind; [split; cbn; [done|intros u n; by rewrite lookup_empty|set_solver]|].
  rewrite foldl_app. by apply step_watching.
Qed.

(** ** Notifications *)

(** The notifications of a URI. *)
Definition sent (uri : string) (w : watcher) : nat := length (List.filter (fun x => bool_decide (x = uri)) (updates w)).

Lemma sent_app uri w l : sent uri (mkWatcher (subscribed w) (pending w) (timers w) (attached w) (updates w ++ l)) =
  (sent uri w + length (List.filter (fun x => bool_decide (x = uri)) l))%nat.
Proof. unfold sent. cbn. by rewrite List.filter_app, length_app. Qed.

(** What a step may send: the list or the session of an event that the client
    owns and has subscribed to, or what is scheduled. *)
Lemma step_updates w l :
  exists new, updates (step w l) = updates w ++ new /\
    forall uri, uri ∈ new -> refs w uri <> O /\
      match l with
      | LStatus owns sid => owns sid = true /\ (uri = sessionsResourceURI \/ uri = (sessionResourcePrefix ++ sid)%string)
      | LTimer u => uri = u /\ uri ∈ pending w
      | _ => False
      end.
Proof.
  destruct l as [version owns uri|late uri|owns sid|owns sid|uri]; cbn [step].
  - exists []. rewrite app_nil_r. split; [|set_solver]. unfold subscribe. by destruct (may_subscribe _ _ _).
  - exists []. rewrite app_nil_r. split; [|set_solver]. unfold release. destruct (refs w uri); [by destruct (decide _)|].
    case_bool_decide; by destruct (decide (_ = ∅)).
  - exists []. rewrite app_nil_r. split; [|set_solver]. case_bool_decide; [done|]. unfold onOutput. destruct (_ || _); [done|]. by destruct (decide _).
  - case_bool_decide; [exists []; rewrite app_nil_r; split; [done|set_solver]|]. unfold onStatus. destruct (owns sid) eqn:Eo; cbn [negb].
    2: { exists []. rewrite app_nil_r. split; [done|set_solver]. }
    eexists. split; [reflexivity|]. intros uri Hu. apply elem_of_app in Hu as [Hu|Hu]; case_bool_decide; try (by apply elem_of_nil in Hu);
      apply list_elem_of_singleton in Hu as ->; auto.
  - destruct (decide (uri ∈ timers w)); [|exists []; rewrite app_nil_r; split; [done|set_solver]]. cbn [fire updates].
    eexists. split; [reflexivity|]. intros u Hu. destruct (bool_decide (uri ∈ pending _) && negb (bool_decide _)) eqn:E; [|by apply elem_of_nil in Hu].
    apply list_elem_of_singleton in Hu as ->. apply andb_true_iff in E as [E1 E2]. apply bool_decide_eq_true in E1.
    apply negb_true_iff, bool_decide_eq_false in E2. done.
Qed.

(** Whatever is scheduled was scheduled by output of a session the client owned. *)
Lemma pending_owned ls uri :
  uri ∈ pending (run ls) -> exists owns sid, LOutput owns sid ∈ ls /\ owns sid = true /\ uri = (sessionResourcePrefix ++ sid)%string.
Proof.
  unfold run. induction ls as [|l ls IH] using rev_ind; [set_solver|]. rewrite foldl_app. cbn [foldl]. fold (run ls) in *. intros Hu.
  assert (uri ∈ pending (run ls) \/ exists owns sid, l = LOutput owns sid /\ owns sid = true /\ uri = (sessionResourcePrefix ++ sid)%string) as
    [Hin|(owns & sid & -> & H)]; [|destruct (IH Hin) as (o & s & ? & ?); exists o, s; set_solver|exists owns, sid; set_solver].
  revert Hu. destruct l as [version owns u|late u|owns sid|owns sid|u]; cbn [step].
  - unfold subscribe. destruct (may_subscribe _ _ _); by left.
  - unfold release. destruct (refs (run ls) u); [destruct (decide _); set_solver|]. case_bool_decide; destruct (decide (_ = ∅)); set_solver.
  - case_bool_decide; [by left|]. unfold onOutput. destruct (_ || _) eqn:E; [by left|]. destruct (decide _); [by left|]. cbn.
    intros Hu. apply elem_of_union in Hu as [Hu|Hu]; [|by left]. apply elem_of_singleton in Hu. right. exists owns, sid.
    apply orb_false_iff in E as [_ E]. by apply negb_false_iff in E.
  - case_bool_decide; [by left|]. unfold onStatus. destruct (negb _); by left.
  - destruct (decide _); [|by left]. cbn. set_solver.
Qed.

(** A URI with a subscription was let in by the subscribe handler. *)
Lemma refs_allowed ls uri :
  refs (run ls) uri <> O -> exists version owns, LSubscribe version owns uri ∈ ls /\ may_subscribe version owns uri = true.
Proof.
  unfold run. induction ls as [|l ls IH] using rev_ind; [done|]. rewrite foldl_app. cbn [foldl]. fold (run ls) in *. intros Hr.
  assert (refs (run ls) uri <> O \/ exists version owns, l = LSubscribe version owns uri /\ may_subscribe version owns uri = true) as
    [Hin|(v & owns & -> & H)]; [|destruct (IH Hin) as (v & o & ? & ?); exists v, o; set_solver|exists v, owns; set_solver].
  revert Hr. destruct l as [version owns u|late u|owns sid|owns sid|u]; cbn [step].
  - unfold subscribe. destruct (may_subscribe version owns u) eqn:E; [|by left]. unfold acquire. rewrite refs_insert.
    destruct (decide (uri = u)) as [->|]; [|by left]. intros _. right. by exists version, owns.
  - unfold release. destruct (refs (run ls) u) as [|n] eqn:Eu; [destruct (decide _); by left|].
    intros Hr. left. intros Hz. apply Hr. clear Hr. assert (uri <> u) by (intros ->; congruence).
    case_bool_decide; destruct (decide _); try done; [by rewrite refs_delete, decide_False|by rewrite refs_insert, decide_False].
  - case_bool_decide; [by left|]. unfold onOutput. destruct (_ || _); [by left|]. destruct (decide _); by left.
  - case_bool_decide; [by left|]. unfold onStatus. destruct (negb _); by left.
  - destruct (decide _); by left.
Qed.

(** An agent is notified only about what it may see: every notification is
    for a URI whose subscription passed the ownership check, and it is for the
    session list or for a session that its client owned when the output or the
    status change came in. *)
Theorem updates_confined (ls : list label) (uri : string) (Hsent : uri ∈ updates (run ls)) :
  (exists version owns, LSubscribe version owns uri ∈ ls /\ may_subscribe version owns uri = true) /\
  (uri = sessionsResourceURI \/
   exists owns sid, (LOutput owns sid ∈ ls \/ LStatus owns sid ∈ ls) /\ owns sid = true /\ uri = (sessionResourcePrefix ++ sid)%string).
Proof.
  induction ls as [|l ls IH] using rev_ind; [by apply elem_of_nil in Hsent|].
  unfold run in Hsent. rewrite foldl_app in Hsent. cbn [foldl] in Hsent. fold (run ls) in Hsent.
  destruct (step_updates (run ls) l) as (new & Hu & Hnew). rewrite Hu in Hsent. apply elem_of_app in Hsent as [Hin|Hin].
  - destruct (IH Hin) as [(v & o & H1 & H2) H]. split; [exists v, o; set_solver|].
    destruct H as [?|(o' & sid & H3 & H4)]; [by left|]. right. exists o', sid. set_solver.
  - destruct (Hnew uri Hin) as [Hr Hl]. destruct (refs_allowed ls uri Hr) as (v & o & H1 & H2).
    split; [exists v, o; set_solver|]. destruct l as [| | |owns sid|u]; try done.
    + destruct Hl as [Ho [->| ->]]; [by left|]. right. exists owns, sid. set_solver.
    + destruct Hl as [-> Hp]. destruct (pending_owned ls u Hp) as (owns & sid & Hin' & Ho & ->). right. exists owns, sid. set_solver.
Qed.

(** Scheduled, or sent since. *)
Lemma refs_empty p t a u uri : refs (mkWatcher ∅ p t a u) uri = O.
Proof. unfold refs. cbn. by rewrite lookup_empty. Qed.

Lemma step_scheduled w l uri c :
  refs (step w l) uri <> O -> refs w uri <> O -> (c <= sent uri w)%nat -> uri ∈ pending w \/ (c < sent uri w)%nat ->
  (c <= sent uri (step w l))%nat /\ (uri ∈ pending (step w l) \/ (c < sent uri (step w l))%nat).
Proof.
  intros Hr' Hr Hle0 Hs. destruct (step_updates w l) as (new & Hn & _).
  assert (sent uri w <= sent uri (step w l))%nat as Hle by (unfold sent; rewrite Hn, List.filter_app, length_app; lia).
  split; [lia|]. destruct Hs as [Hp|Hc]; [|right; lia]. clear Hn Hle.
  destruct l as [version owns u|late u|owns sid|owns sid|u]; cbn [step] in *.
  - left. unfold subscribe. by destruct (may_subscribe _ _ _).
  - left. unfold release in *. destruct (refs w u) as [|n] eqn:Eu.
    { destruct (decide (subscribed w = ∅)); [by rewrite refs_empty in Hr'|done]. }
    case_bool_decide as Hn.
    + destruct (decide (_ = ∅)) as [E|E]; [by rewrite refs_empty in Hr'|]. cbn. apply elem_of_difference. split; [done|].
      apply not_elem_of_singleton. intros ->. by rewrite refs_delete, decide_True in Hr'.
    + destruct (decide (_ = ∅)) as [E|E]; [by rewrite refs_empty in Hr'|done].
  - left. case_bool_decide; [done|]. unfold onOutput. destruct (_ || _); [done|]. destruct (decide _); [done|]. set_solver.
  - left. case_bool_decide; [done|]. unfold onStatus. by destruct (negb _).
  - destruct (decide (u ∈ timers w)); [|by left]. destruct (decide (u = uri)) as [->|]; [|left; set_solver]. right.
    unfold fire, sent. cbn [updates pending]. rewrite bool_decide_true by done. rewrite bool_decide_false by done. cbn [andb negb].
    rewrite List.filter_app, length_app. cbn [List.filter]. rewrite bool_decide_true by done. cbn [length]. unfold sent in Hle0. lia.
Qed.

(** Output is never lost on a subscriber: when output of a session comes in
    that the client owns and is subscribed to, and the subscription lasts, then
    once no debounce timer of the session is left, its notification has been
    sent, after the output, whatever else happened in between. *)
Theorem output_is_announced (ls1 ls2 : list label) (owns : string -> bool) (sid : string)
  (Hown : owns sid = true)
  (Hbefore : refs (run ls1) (sessionResourcePrefix ++ sid) <> O)
  (Hsub : forall p q, ls2 = p ++ q -> refs (run (ls1 ++ LOutput owns sid :: p)) (sessionResourcePrefix ++ sid) <> O)
  (Hdone : (sessionResourcePrefix ++ sid)%string ∉ timers (run (ls1 ++ LOutput owns sid :: ls2))) :
  (sent (sessionResourcePrefix ++ sid) (run ls1) < sent (sessionResourcePrefix ++ sid) (run (ls1 ++ LOutput owns sid :: ls2)))%nat.
Proof.
  set (uri := (sessionResourcePrefix ++ sid)%string) in *. set (c := sent uri (run ls1)).
  assert (forall p q, ls2 = p ++ q -> (c <= sent uri (run (ls1 ++ LOutput owns sid :: p)))%nat /\
    (uri ∈ pending (run (ls1 ++ LOutput owns sid :: p)) \/ (c < sent uri (run (ls1 ++ LOutput owns sid :: p)))%nat)) as Hinv.
  { induction p as [|l p IH] using rev_ind; intros q Hq.
    - unfold run. rewrite foldl_app. cbn [foldl]. fold (run ls1). cbn [step]. destruct (run_watching ls1) as [Ha _ _].
      assert (subscribed (run ls1) <> ∅) as Hne by (intros E; apply Hbefore; unfold refs; by rewrite E, lookup_empty).
      rewrite Ha, decide_False by done. rewrite bool_decide_false by done. unfold onOutput. fold uri. rewrite Hown, (bool_decide_false (refs _ _ = O)) by done.
      cbn [orb negb]. destruct (decide (uri ∈ pending (run ls1))); cbn; (split; [done|left; set_solver]).
    - rewrite <- app_assoc in Hq. destruct (IH _ Hq) as [Hle Hs]. pose proof (Hsub p _ Hq) as Hr. pose proof (Hsub (p ++ [l]) q) as Hr'.
      rewrite <- app_assoc in Hr'. specialize (Hr' Hq). revert Hr'. rewrite (app_comm_cons p [l]), (app_assoc ls1). unfold run. rewrite foldl_app. cbn [foldl].
      fold (run (ls1 ++ LOutput owns sid :: p)). intros Hr'. by apply step_scheduled. }
  destruct (Hinv ls2 []) as [_ [Hp|Hc]]; [by rewrite app_nil_r| |exact Hc].
  destruct (run_watching (ls1 ++ LOutput owns sid :: ls2)) as [_ _ Hpend]. by destruct (Hpend uri Hp).
Qed.

(** The watcher holds its two registry subscriptions exactly while some
    resource subscription lasts, so a client that went away leaks none; what is
    scheduled always has a timer to send it and a subscriber to receive it; and
    further output of a scheduled session starts no second timer. *)
Theorem watcher_attached_iff_subscribed (ls : list label) :
  attached (run ls) = (if decide (subscribed (run ls) = ∅) then 0%nat else 2%nat) /\
  (forall uri, uri ∈ pending (run ls) -> uri ∈ timers (run ls) /\ refs (run ls) uri <> O) /\
  (forall owns sid, (sessionResourcePrefix ++ sid)%string ∈ pending (run ls) -> step (run ls) (LOutput owns sid) = run ls).
Proof.
  destruct (run_watching ls) as [Ha _ Hp]. split; [exact Ha|]. split; [exact Hp|]. intros owns sid Hin. cbn [step]. case_bool_decide; [done|].
  unfold onOutput. destruct (_ || _); [done|]. by rewrite decide_True.
Qed.

(** ** Concrete runs *)

Definition ex_owns (sid : string) : bool := bool_decide (sid = "s"%string).
Definition ex_uri : string := "shellwatch://sessions/s".
Definition ex_listen : list label := [LSubscribe (Some protocolVersion20260728) ex_owns ex_uri].
Definition ex_burst : list label := [LOutput ex_owns "s"; LOutput ex_owns "s"; LOutput ex_owns "other"; LTimer ex_uri].

Example ex_notified : updates (run (ex_listen ++ ex_burst)) = [ex_uri].
Proof. vm_compute. reflexivity. Qed.
Example ex_gone : attached (run (ex_listen ++ [LOutput ex_owns "s"; LEnd true ex_uri; LTimer ex_uri])) = 0%nat
  /\ updates (run (ex_listen ++ [LOutput ex_owns "s"; LEnd true ex_uri; LTimer ex_uri])) = [].
Proof. by vm_compute. Qed.
Example ex_foreign : run [LSubscribe (Some "2026-07-28"%string) ex_owns "shellwatch://sessions/other"; LSubscribe (Some "2025-11-25"%string) ex_owns ex_uri] = newWatcher.
Proof. vm_compute. reflexivity. Qed.

Lemma updates_confined_witness :
  (exists version owns, LSubscribe version owns ex_uri ∈ ex_listen ++ ex_burst /\ may_subscribe version owns ex_uri = true) /\
  (ex_uri = sessionsResourceURI \/
   exists owns sid, (LOutput owns sid ∈ ex_listen ++ ex_burst \/ LStatus owns sid ∈ ex_listen ++ ex_burst) /\ owns sid = true /\
     ex_uri = (sessionResourcePrefix ++ sid)%string).
Proof.
  apply (updates_confined (ex_listen ++ ex_burst) ex_uri).
  assert (updates (run (ex_listen ++ ex_burst)) = [ex_uri]) as -> by (vm_compute; reflexivity). by apply list_elem_of_singleton.
Defined.

Lemma output_is_announced_witness :
  (sent ex_uri (run ex_listen) < sent ex_uri (run (ex_listen ++ LOutput ex_owns "s" :: [LTimer ex_uri])))%nat.
Proof.
  apply (output_is_announced ex_listen [LTimer ex_uri] ex_owns "s").
  - reflexivity.
  - vm_compute. discriminate.
  - intros [|l [|l' p]] q Hq; [vm_compute; discriminate| |discriminate Hq]. injection Hq as <- _. vm_compute. discriminate.
  - assert (timers (run (ex_listen ++ LOutput ex_owns "s" :: [LTimer ex_uri])) = []) as -> by (vm_compute; reflexivity). by apply not_elem_of_nil.
Defined.
