(* ===== verification/RestActions.v ===== *)
(** * The action, session and revocation routes (internal/rest/actions.go,
      sessions.go, authsessions.go and the account deletion of accounts.go)

    Where the browser meets the approval registry and the session registry. An
    action is looked up first and claimed afterwards; other operations of the
    registry may run in between, so the two steps have a registry each. Requests
    on terminal sessions become labels of the session registry. *)
From stdpp Require Import pretty.
From S2P Require Import Prelude GoStrings Url Base64 SSHWire Approval Buffer Terminal AgentSession RestEndpoints.
#[local] Open Scope Z_scope.

(** ** Pending actions *)

Definition status_text (st : Approval.Status) : string :=
  match st with
  | StatusPending => "pending" | StatusCompleted => "completed" | StatusExpired => "expired" | StatusDenied => "denied"
  end.

Inductive action_reply :=
  | AFail (status : Z) (msg : string)
  | ARedirect (to : string)                (* 200 with redirectTo *)
  | AStatus (st : Approval.Status)         (* 200 with the status *)
  | AView (a : Action).                    (* 200 with the client-safe projection *)

(** The action, or the refusal. *)
Definition lookup_action (s : Registry) (acc id : string) : action_reply + Action :=
  match Approval.Get s id with
  | None => inl (AFail 404 "Action not found")
  | Some a => if bool_decide (cp_AccountID (a_Params a) = acc) then inr a else inl (AFail 403 "Access denied")
  end.

Definition get_action (s : Registry) (acc id : string) : action_reply :=
  match lookup_action s acc id with inl r => r | inr a => AView a end.

Definition b64urlField (b : body) (key : string) : option (list byte) :=
  match b !! key with
  | None => None
  | Some r =>
      let s := jsonString r in
      if bool_decide (s = EmptyString) then None else b64_decode true false (bytes_of_string s)
  end.

Definition rawStringField (b : body) (key : string) : option (list byte) :=
  match b !! key with
  | None => None
  | Some r =>
      let s := jsonString r in
      if bool_decide (s = EmptyString) then None else Some (bytes_of_string s)
  end.

Definition writeClaimConflict (res : ClaimResult) : action_reply :=
  if negb (cr_Found res) then AFail 404 "Action not found"
  else AFail 409 ("Action is already " ++ match cr_Status res with Some st => status_text st | None => "" end).

(** The answer of a claim: the redirect when it won. *)
Definition claimed (a : Action) (r : ClaimResult * Registry * list effect) : action_reply * Registry * list effect :=
  let '(res, s, es) := r in
  (if cr_Won res then ARedirect (cp_RedirectTo (a_Params a)) else writeClaimConflict res, s, es).

(** [s0] is the registry at the lookup, [s] at the claim. *)
Definition resolve_action (s0 s : Registry) (now : Z) (acc id : string) (b : body) : action_reply * Registry * list effect :=
  match lookup_action s0 acc id with
  | inl r => (r, s, [])
  | inr a =>
      if negb (bool_decide (a_Status a = StatusPending)) then (AFail 409 ("Action is already " ++ status_text (a_Status a)), s, [])
      else
        match cp_Type (a_Params a) with
        | TypeWebAuthnSign =>
            match b64urlField b "authenticatorData", b64urlField b "signature", rawStringField b "clientDataJSON" with
            | Some authData, Some sig, Some cdj =>
                if bool_decide (cp_UserVerification (a_Params a) = "required"%string) && negb (IsUserVerified authData)
                then (AFail 400 "User verification required", s, [])
                else claimed a (ResolveSign s now (a_ID a) (mkResponse authData sig cdj ""))
            | _, _, _ => (AFail 400 "Missing required fields: authenticatorData, signature, clientDataJSON", s, [])
            end
        | TypeKeyApprove => claimed a (ResolveKey s now (a_ID a))
        end
  end.

Definition deny_action (s0 s : Registry) (now : Z) (acc id : string) : action_reply * Registry * list effect :=
  match lookup_action s0 acc id with
  | inl r => (r, s, [])
  | inr a =>
      let '(res, s', es) := Deny s now (a_ID a) in
      (match cr_Status res with
       | Some st =>
           if cr_Won res || (cr_Found res && (bool_decide (st = StatusDenied) || bool_decide (st = StatusExpired)))
           then AStatus st else writeClaimConflict res
       | None => writeClaimConflict res
       end, s', es)
  end.

(** ** Terminal sessions *)

(** The sessions cap of the account, if known, and the endpoint's resolution,
    [None] for an error; [sid] is the generated id. *)
Definition create_session (m : Manager) (max : option Z) (ref : option (option EndpointRef)) (acc sourceIP sid : string)
  : (Z * string) + Terminal.label :=
  let next :=
    match ref with
    | Some (Some ep) => inr (LCreate ep acc (mkTrigger SourceUI sourceIP "" "" "" "") sid)
    | _ => inl (404, "Endpoint not found"%string)
    end in
  match max with
  | Some max =>
      if CountOpenForAccount m acc >=? max
      then inl (429, ("Maximum concurrent sessions (" ++ pretty max ++ ") reached")%string) else next
  | None => next
  end.

Definition own_session_of (m : Manager) (acc sid : string) : bool :=
  match GetSession m sid with Some sess => bool_decide (AccountID sess = acc) | None => false end.

(** The limit of the query, at most 8000. *)
Definition tail_limit (q : string) : Z :=
  if bool_decide (q = EmptyString) then 2000
  else
    match Atoi64 q with
    | Some n => if 0 <? n then (if n >? 8000 then 8000 else n) else 2000
    | None => 2000
    end.

Definition tail_session (m : Manager) (acc sid q : string) : (Z * string) + list byte :=
  if own_session_of m acc sid then inr (ReadOutputTail m sid (tail_limit q)) else inl (404, "Session not found"%string).

Definition close_session (m : Manager) (acc sid : string) : (Z * string) + Terminal.label :=
  if own_session_of m acc sid then inr (LClose sid CloseClientUI) else inl (404, "Session not found"%string).

(** ** Authorized clients *)

(** What Hydra answers: whether the consent and the login revocations went
    through. *)
Record hydra_answers := mkAnswers { ok_consent : bool; ok_login : bool }.
Inductive revocation := RevokedConsent (subject client : string) | RevokedLogins (subject : string).

(** The reply, the revocations Hydra made, and the label of the registry. *)
Definition revoke_client (h : hydra_answers) (acc clientId : string) : Z * list revocation * option Terminal.label :=
  match unescape clientId encodePathSegment with
  | None => (400, [], None)
  | Some clientID =>
      if negb (ok_consent h) then (500, [], None)
      else (200, [RevokedConsent acc clientID], Some (LCloseAllForClient acc clientID CloseAgentDisconnect))
  end.

Definition revoke_all (h : hydra_answers) (acc : string) : Z * list revocation * option Terminal.label :=
  if negb (ok_consent h) then (500, [], None)
  else if negb (ok_login h) then (500, [RevokedConsent acc ""], None)
  else (200, [RevokedConsent acc ""; RevokedLogins acc], Some (LCloseAllForClient acc "" CloseAgentDisconnect)).

(** ** Deleting an account *)

(** [admin] is the admin account, [None] when it is not known at that query;
    [gone] says whether the transaction committed. The labels are those of the
    wired teardown. *)
Definition IsAdmin (admin : option string) (accountID : string) : bool :=
  negb (bool_decide (accountID = EmptyString)) && bool_decide (default EmptyString admin = accountID).

Definition delete_account (admin1 admin2 : option string) (gone : bool) (caller target : string) : Z * string * list Terminal.label :=
  if negb (IsAdmin admin1 caller) then (403, "Admin access required"%string, [])
  else if bool_decide (target = caller) then (400, "Cannot delete your own account"%string, [])
  else if IsAdmin admin2 target then (400, "Cannot delete the admin account"%string, [])
  else if negb gone then (500, "internal error"%string, [])
  else (200, "deleted"%string, [LCloseAllForAccount target CloseAccountDeleted; LRemoveForAccount target]).

(** ** Claims *)

(** An effect that lets something be signed. *)
Definition approves (e : effect) : bool :=
  match e with
  | CallResolveSign _ _ | CallResolveKey _ => true
  | ResolvedHook ev => match re_Outcome ev with OutcomeApproved => true | _ => false end
  | _ => false
  end.

Lemma lookup_action_ok s acc id a :
  lookup_action s acc id = inr a -> s !! id = Some a /\ cp_AccountID (a_Params a) = acc.
Proof. unfold lookup_action, Approval.Get. destruct (s !! id); [|done]. case_bool_decide; [|done]. by intros [= ->]. Qed.

Lemma expiry_no_approval a now : forallb (fun e => negb (approves e)) (rejectAction a ErrExpired ++ emitResolved a OutcomeExpired now "") = true.
Proof. unfold rejectAction, emitResolved, call_if. by destruct (cp_Reject _). Qed.

Lemma denial_no_approval a now : forallb (fun e => negb (approves e)) (rejectAction a ErrDenied ++ emitResolved a OutcomeDenied now "") = true.
Proof. unfold rejectAction, emitResolved, call_if. by destruct (cp_Reject _). Qed.

(** A lost claim approves nothing. *)
Lemma claim_lost s now id typ to res s' es :
  takePending s now id typ to = (None, res, s', es) -> cr_Won res = false /\ forallb (fun e => negb (approves e)) es = true.
Proof.
  intros H. pose proof (takePending_cases s now id typ to) as Hc. rewrite H in Hc.
  destruct Hc as [Hw [(-> & _)|(a & _ & _ & _ & _ & _ & ->)]]; (split; [done|]); [done|apply expiry_no_approval].
Qed.

Section Later.
Variables (s0 s : Registry).
Hypothesis Hwf : wf s0.
(** Between the lookup and the claim the registry may change, but an action
    that is still there is the same request. *)
Hypothesis Hlater : forall id a0 a, s0 !! id = Some a0 -> s !! id = Some a -> same_request a0 a.

Lemma resolved_sign now acc id a resp rep s' es :
  lookup_action s0 acc id = inr a -> claimed a (ResolveSign s now (a_ID a) resp) = (rep, s', es) ->
  match rep with
  | ARedirect to => exists a', s !! id = Some a' /\ same_request a a' /\ a_Status a' = StatusPending /\ now < a_ExpiresAt a' /\
      cp_Type (a_Params a') = TypeWebAuthnSign /\ to = cp_RedirectTo (a_Params a') /\ s' = <[id := Approval.set_status a' StatusCompleted]> s /\
      es = call_if (cp_ResolveSign (a_Params a')) (CallResolveSign id (mkResponse (sr_AuthenticatorData resp) (sr_Signature resp) (sr_ClientDataJSON resp) id))
           ++ emitResolved (Approval.set_status a' StatusCompleted) OutcomeApproved now ""
  | _ => forallb (fun e => negb (approves e)) es = true
  end.
Proof.
  intros Hl. apply lookup_action_ok in Hl as [Ha0 _]. destruct (Hwf _ _ Ha0) as [Hid _]. rewrite Hid. unfold ResolveSign.
  pose proof (takePending_cases s now id (Some TypeWebAuthnSign) StatusCompleted) as Hc.
  destruct (takePending _ _ _ _ _) as [[[oa res] s1] es1] eqn:E. destruct oa as [a'|].
  - destruct Hc as (b & Hb & Hp & Hlt & Ht & -> & -> & -> & ->). cbn. intros [= <- <- <-]. destruct (Hlater _ _ _ Ha0 Hb) as (Hi & Hparams & Hrest).
    assert (a_ID b = id) as Hbid by congruence. exists b. rewrite Hbid, Hparams. split_and!; auto. by split.
  - apply claim_lost in E as [Hw He]. cbn. rewrite Hw. unfold writeClaimConflict. intros [= <- <- <-]. by destruct (negb _).
Qed.

Lemma resolved_key now acc id a rep s' es :
  lookup_action s0 acc id = inr a -> claimed a (ResolveKey s now (a_ID a)) = (rep, s', es) ->
  match rep with
  | ARedirect to => exists a', s !! id = Some a' /\ same_request a a' /\ a_Status a' = StatusPending /\ now < a_ExpiresAt a' /\
      cp_Type (a_Params a') = TypeKeyApprove /\ to = cp_RedirectTo (a_Params a') /\ s' = <[id := Approval.set_status a' StatusCompleted]> s /\
      es = call_if (cp_ResolveKey (a_Params a')) (CallResolveKey id) ++ emitResolved (Approval.set_status a' StatusCompleted) OutcomeApproved now ""
  | _ => forallb (fun e => negb (approves e)) es = true
  end.
Proof.
  intros Hl. apply lookup_action_ok in Hl as [Ha0 _]. destruct (Hwf _ _ Ha0) as [Hid _]. rewrite Hid. unfold ResolveKey.
  pose proof (takePending_cases s now id (Some TypeKeyApprove) StatusCompleted) as Hc.
  destruct (takePending _ _ _ _ _) as [[[oa res] s1] es1] eqn:E. destruct oa as [a'|].
  - destruct Hc as (b & Hb & Hp & Hlt & Ht & -> & -> & -> & ->). cbn. intros [= <- <- <-]. destruct (Hlater _ _ _ Ha0 Hb) as (Hi & Hparams & Hrest).
    assert (a_ID b = id) as Hbid by congruence. exists b. rewrite Hbid, Hparams. split_and!; auto. by split.
  - apply claim_lost in E as [Hw He]. cbn. rewrite Hw. unfold writeClaimConflict. intros [= <- <- <-]. by destruct (negb _).
Qed.
End Later.

(** (C4) An approval through the web takes the owner and a full assertion. A
    resolve request is redirected exactly when it claimed the action, which was
    then pending, in time and of the caller's account; a signing action also
    had all three parts of the assertion in the body, with the user-verified
    flag where the endpoint demands it, and the waiting signer gets just those.
    Every other answer approves nothing, whatever happened between lookup and
    claim. *)
Theorem resolve_needs_owner (s0 s : Registry) (now : Z) (acc id : string) (b : body) (rep : action_reply) (s' : Registry) (es : list effect)
  (Hwf : wf s0) (Hlater : forall id a0 a, s0 !! id = Some a0 -> s !! id = Some a -> same_request a0 a)
  (H : resolve_action s0 s now acc id b = (rep, s', es)) :
  match rep with
  | ARedirect to => exists a, s !! id = Some a /\ cp_AccountID (a_Params a) = acc /\ a_Status a = StatusPending /\ now < a_ExpiresAt a /\
      to = cp_RedirectTo (a_Params a) /\ s' = <[id := Approval.set_status a StatusCompleted]> s /\
      match cp_Type (a_Params a) with
      | TypeWebAuthnSign => exists authData sig cdj,
          b64urlField b "authenticatorData" = Some authData /\ b64urlField b "signature" = Some sig /\ rawStringField b "clientDataJSON" = Some cdj /\
          (cp_UserVerification (a_Params a) = "required"%string -> IsUserVerified authData = true) /\
          es = call_if (cp_ResolveSign (a_Params a)) (CallResolveSign id (mkResponse authData sig cdj id))
               ++ emitResolved (Approval.set_status a StatusCompleted) OutcomeApproved now ""
      | TypeKeyApprove => es = call_if (cp_ResolveKey (a_Params a)) (CallResolveKey id) ++ emitResolved (Approval.set_status a StatusCompleted) OutcomeApproved now ""
      end
  | _ => forallb (fun e => negb (approves e)) es = true
  end.
Proof.
  unfold resolve_action in H. destruct (lookup_action s0 acc id) as [r|a] eqn:El.
  { injection H as <- <- <-. revert El. unfold lookup_action. destruct (Approval.Get s0 id); [case_bool_decide|]; by intros [= <-]. }
  destruct (negb _); [by injection H as <- <- <-|]. pose proof (lookup_action_ok _ _ _ _ El) as [_ Hacc].
  destruct (cp_Type (a_Params a)) eqn:Et.
  - destruct (b64urlField b "authenticatorData") as [authData|]; [|by injection H as <- <- <-].
    destruct (b64urlField b "signature") as [sig|]; [|by injection H as <- <- <-].
    destruct (rawStringField b "clientDataJSON") as [cdj|]; [|by injection H as <- <- <-].
    destruct (bool_decide _ && _) eqn:Euv; [by injection H as <- <- <-|].
    eapply (resolved_sign s0 s Hwf Hlater) in H; [|exact El]. destruct rep as [| to | |]; try exact H.
    destruct H as (a' & Ha' & (Hi & Hpar & _) & Hp & Hlt & Hty & -> & -> & ->). exists a'. rewrite Hty. rewrite Hpar in *. split_and!; try done.
    exists authData, sig, cdj. split_and!; try done. intros Hreq. rewrite bool_decide_true in Euv by done. by apply negb_false_iff in Euv.
  - eapply (resolved_key s0 s Hwf Hlater) in H; [|exact El]. destruct rep as [| to | |]; try exact H.
    destruct H as (a' & Ha' & (Hi & Hpar & _) & Hp & Hlt & Hty & -> & -> & ->). exists a'. rewrite Hty. rewrite Hpar in *. by split_and!.
Qed.

(** A denial is answered with what the registry asserts. A 200 names the
    status the action has from then on, denied or expired, and neither it nor
    any other answer lets anything be signed; a 409 is given only for an action
    that had been approved before; and a request for another account's action
    changes nothing. *)
Theorem deny_truthful (s0 s : Registry) (now : Z) (acc id : string) (rep : action_reply) (s' : Registry) (es : list effect)
  (Hwf : wf s0) (H : deny_action s0 s now acc id = (rep, s', es)) :
  forallb (fun e => negb (approves e)) es = true /\
  match rep with
  | AStatus st => (st = StatusDenied \/ st = StatusExpired) /\ exists a, s' !! id = Some a /\ a_Status a = st
  | AFail code _ => s' = s /\ es = [] /\ (code = 409 -> exists a, s !! id = Some a /\ a_Status a = StatusCompleted)
  | _ => False
  end /\
  ((exists a0, s0 !! id = Some a0 /\ cp_AccountID (a_Params a0) = acc) \/ (s' = s /\ es = [])).
Proof.
  unfold deny_action in H. destruct (lookup_action s0 acc id) as [r|a] eqn:El.
  { injection H as <- <- <-. unfold lookup_action in El. destruct (Approval.Get s0 id); [case_bool_decide; [done|]|]; injection El as <-;
      (split; [done|]; split; [done|by right]). }
  apply lookup_action_ok in El as [Ha0 Hacc]. destruct (Hwf _ _ Ha0) as [Hid _]. rewrite Hid in H. unfold Deny in H.
  pose proof (takePending_cases s now id None StatusDenied) as Hc.
  destruct (takePending _ _ _ _ _) as [[[oa res] s1] es1] eqn:E. destruct oa as [a'|].
  - destruct Hc as (b & Hb & Hp & Hlt & _ & -> & -> & -> & ->). cbn [cr_Status cr_Won orb] in H. injection H as <- <- <-.
    split; [apply denial_no_approval|]. split; [|left; by exists a]. split; [by left|]. eexists. by rewrite registry_insert_eq.
  - destruct Hc as [Hw [(-> & -> & Hres)|(b & Hb & Hp & Hle & -> & -> & ->)]].
    + rewrite Hw in H. destruct Hres as [->|(b & Hb & Hp & ->)]; cbn [cr_Status cr_Found orb andb] in H.
      * injection H as <- <- <-. split; [done|]. split; [done|]. left. by exists a.
      * destruct (bool_decide (a_Status b = StatusDenied) || bool_decide (a_Status b = StatusExpired)) eqn:Es; injection H as <- <- <-.
        -- split; [done|]. split; [|left; by exists a]. split; [|by exists b]. apply orb_true_iff in Es as [Es|Es]; apply bool_decide_eq_true in Es; auto.
        -- split; [done|]. split; [|left; by exists a]. cbn. split; [done|]. split; [done|]. intros _. exists b. split; [done|].
           apply orb_false_iff in Es as [E1 E2]. apply bool_decide_eq_false in E1, E2. by destruct (a_Status b).
    + cbn [cr_Status cr_Won cr_Found orb andb] in H. rewrite (bool_decide_true (StatusExpired = StatusExpired)), orb_true_r in H by done.
      injection H as <- <- <-. split; [apply expiry_no_approval|]. split; [|left; by exists a]. split; [by right|]. eexists. by rewrite registry_insert_eq.
Qed.

(** ** Sessions *)

(** A registered session. *)
Definition registered_session (m : Manager) (sid : string) (g : managed) : Prop :=
  exists r, terminals m !! sid = Some r /\ heap m !! r = Some g.

Lemma in_ids_where m p sid : sid ∈ ids_where m p <-> exists g, registered_session m sid g /\ p g = true.
Proof.
  unfold ids_where. rewrite list_elem_of_fmap. split.
  - intros ([k g] & -> & Hin). apply list_elem_of_In, filter_In in Hin as [Hin Hp]. apply list_elem_of_In in Hin. unfold sessions in Hin.
    apply list_elem_of_omap in Hin as ([k' r] & Hin & Hr). apply elem_of_map_to_list in Hin. cbn in Hr. destruct (heap m !! r) as [g'|] eqn:Eg; [|done].
    injection Hr as <- <-. exists g'. split; [by exists r|done].
  - intros (g & (r & Ht & Hh) & Hp). exists (sid, g). split; [done|]. apply list_elem_of_In, filter_In. split; [|done].
    apply list_elem_of_In, list_elem_of_omap. exists (sid, r). split; [by apply elem_of_map_to_list|]. cbn. by rewrite Hh.
Qed.

Lemma closeAll_threads m ids reason th :
  th ∈ Terminal.threads (closeAll m ids reason) <-> th ∈ Terminal.threads m \/ exists sid, th = CloseStart sid reason /\ sid ∈ ids.
Proof. unfold closeAll, Terminal.spawn. cbn. rewrite elem_of_app, list_elem_of_fmap. naive_solver. Qed.

(** Revoking a client's grant takes its terminals. When the route answers
    200 the consents are gone at Hydra, and every terminal session that the
    client has open over MCP in this account has a closer at work; no other
    session has got one. When it answers anything else nothing was revoked and
    nothing is closed. *)
Theorem revocation_closes_terminals (h : hydra_answers) (acc clientId : string) (m : Manager) code revs l
  (H : revoke_client h acc clientId = (code, revs, l)) :
  match l with
  | Some l => code = 200 /\ exists clientID, unescape clientId encodePathSegment = Some clientID /\ revs = [RevokedConsent acc clientID] /\
      (forall sid g, registered_session m sid g -> AccountID (session g) = acc -> s_Source (session g) = SourceMCP ->
         OwnerClientID (session g) = clientID -> status_of g <> StatusClosed ->
         CloseStart sid CloseAgentDisconnect ∈ Terminal.threads (Terminal.step m l)) /\
      (forall th, th ∈ Terminal.threads (Terminal.step m l) -> th ∈ Terminal.threads m \/
         exists sid g, th = CloseStart sid CloseAgentDisconnect /\ registered_session m sid g /\ AccountID (session g) = acc /\
           s_Source (session g) = SourceMCP /\ (clientID = EmptyString \/ OwnerClientID (session g) = clientID))
  | None => code <> 200 /\ revs = []
  end.
Proof.
  unfold revoke_client in H. destruct (unescape clientId encodePathSegment) as [clientID|]; [|by injection H as <- <- <-].
  destruct (ok_consent h); cbn [negb] in H; [|by injection H as <- <- <-]. injection H as <- <- <-. split; [done|]. exists clientID. split; [done|]. split; [done|].
  cbn [Terminal.step]. unfold CloseAllForClient. cbn [fst]. split.
  - intros sid g Hreg Ha Hsrc Hown Hst. apply closeAll_threads. right. exists sid. split; [done|]. apply in_ids_where. exists g. split; [done|].
    unfold of_account, not_closed. rewrite (bool_decide_true (AccountID _ = acc)), (bool_decide_true (s_Source _ = _)), (bool_decide_true (OwnerClientID _ = _)), (bool_decide_false (status_of g = _)) by done.
    by rewrite orb_true_r.
  - intros th Hth. apply closeAll_threads in Hth as [?|(sid & -> & Hin)]; [by left|]. right. apply in_ids_where in Hin as (g & Hreg & Hp).
    apply andb_true_iff in Hp as [Hp Hc]. apply andb_true_iff in Hp as [Hp _]. apply andb_true_iff in Hp as [Ha Hs].
    apply bool_decide_eq_true in Ha, Hs. apply orb_true_iff in Hc. rewrite !bool_decide_eq_true in Hc. exists sid, g. by split_and!.
Qed.

(** ** Deleting an account *)

Lemma removeEntry_registered m id sid g :
  registered_session (fst (removeEntry m id)) sid g -> sid <> id /\ exists g0, registered_session m sid g0 /\ session g0 = session g.
Proof.
  unfold removeEntry. intros (r & Ht & Hh). destruct (terminals m !! id) as [r0|] eqn:E.
  - cbn in Ht, Hh. apply lookup_delete_Some in Ht as [Hne Ht]. split; [congruence|]. destruct (decide (r0 = r)) as [->|].
    + rewrite lookup_alter_eq in Hh. destruct (heap m !! r) as [g0|] eqn:Eg; [|done]. injection Hh as <-. exists g0. split; [by exists r|done].
    + rewrite lookup_alter_ne in Hh by done. exists g. split; [by exists r|done].
  - cbn in Ht, Hh. split; [congruence|]. exists g. split; [by exists r|done].
Qed.

Lemma remove_ids_registered ids : forall m sid g,
  registered_session (remove_ids m ids) sid g -> sid ∉ ids /\ exists g0, registered_session m sid g0 /\ session g0 = session g.
Proof.
  unfold remove_ids. induction ids as [|id ids IH]; intros m sid g H; [split; [set_solver|by exists g]|]. cbn [fold_left] in H.
  destruct (IH _ _ _ H) as (Hn & g1 & H1 & Hs). destruct (removeEntry_registered _ _ _ _ H1) as (Hne & g0 & H0 & Hs0).
  split; [set_solver|]. exists g0. split; [done|congruence].
Qed.

Lemma remove_ids_threads ids : forall m, Terminal.threads (remove_ids m ids) = Terminal.threads m.
Proof.
  unfold remove_ids. induction ids as [|id ids IH]; intros m; [done|]. cbn [fold_left]. rewrite IH. unfold removeEntry.
  by destruct (terminals m !! id).
Qed.

(** Only the admin deletes an account, never its own and never the admin
    account; and when the deletion answers 200, none of the account's terminal
    sessions stays behind: the finished ones are out of the registry and every
    other one has a closer at work. *)
Theorem account_deletion_clears (admin1 admin2 : option string) (gone : bool) (caller target : string) (m : Manager) code msg labels
  (H : delete_account admin1 admin2 gone caller target = (code, msg, labels)) :
  (labels = [] /\ code <> 200) \/
  (code = 200 /\ gone = true /\ admin1 = Some caller /\ target <> caller /\ (target = EmptyString \/ admin2 <> Some target) /\
   let m' := fold_left Terminal.step labels m in
   forall sid g, registered_session m' sid g -> AccountID (session g) = target ->
     status_of g <> StatusClosed /\ status_of g <> StatusError /\ CloseStart sid CloseAccountDeleted ∈ Terminal.threads m').
Proof.
  unfold delete_account in H. destruct (IsAdmin admin1 caller) eqn:E1; cbn [negb] in H; [|left; by injection H as <- <- <-].
  case_bool_decide as Hne; [left; by injection H as <- <- <-|]. destruct (IsAdmin admin2 target) eqn:E2; [left; by injection H as <- <- <-|].
  destruct gone; cbn [negb] in H; [|left; by injection H as <- <- <-]. injection H as <- <- <-. right. split; [done|]. split; [done|].
  apply andb_true_iff in E1 as [Hn E1]. apply negb_true_iff, bool_decide_eq_false in Hn. apply bool_decide_eq_true in E1.
  split; [destruct admin1; cbn in E1; congruence|]. split; [done|].
  split. { apply andb_false_iff in E2 as [E2|E2]; [left; apply negb_false_iff, bool_decide_eq_true in E2; done|right]. apply bool_decide_eq_false in E2. by intros ->. }
  cbv zeta. cbn [fold_left Terminal.step]. unfold CloseAllForAccount, RemoveForAccount. cbn [fst].
  set (m1 := closeAll m _ _). set (ids := ids_where m1 _). intros sid g (r & Ht & Hh) Ha.
  assert (registered_session (remove_ids m1 ids) sid g) as Hreg by (exists r; split; [exact Ht|exact Hh]).
  apply remove_ids_registered in Hreg as (Hnot & g0 & Hg0 & Hs). unfold status_of. rewrite <- Hs in *.
  assert (dead g0 = false) as Hdead.
  { destruct (dead g0) eqn:Ed; [|done]. destruct Hnot. apply in_ids_where. exists g0. split; [done|]. unfold of_account. by rewrite bool_decide_true, Ed. }
  unfold dead, status_of in Hdead. apply orb_false_iff in Hdead as [D1 D2]. apply bool_decide_eq_false in D1, D2. split; [done|]. split; [done|].
  cbn. rewrite remove_ids_threads. apply elem_of_app. left. apply closeAll_threads. right. exists sid. split; [done|].
  apply in_ids_where. exists g0. split; [exact Hg0|]. unfold of_account, not_closed, status_of. rewrite bool_decide_true by done. by rewrite bool_decide_false.
Qed.

(** ** Concrete runs *)

(** A revocation only closes what is registered: a session whose creation
    was let in before the revocation but registers after it stays, live, with
    its grant gone and no closer at work. *)
Theorem revocation_misses_opening :
  let '(code, _, l) := revoke_client (mkAnswers true true) "acc" "client" in
  code = 200 /\
  match l with
  | Some l =>
      let m := Terminal.run 100 [LCreate ex_ep "acc" ex_tr "s"; l; Terminal.LRun 0 (Now 1)] in
      (exists sess, GetSession m "s" = Some sess /\ s_Status sess = StatusOpening /\ OwnerClientID sess = "client"%string) /\
      forallb (fun th => match th with CloseStart _ _ => false | _ => true end) (Terminal.threads m) = true
  | None => False
  end.
Proof. vm_compute. split; [reflexivity|]. split; [|reflexivity]. eexists. by split_and!. Qed.

(** The session cap of the REST route counts open sessions only: while one
    waits for its approval, any number of further ones is let in. *)
Theorem ui_cap_ignores_opening :
  let m := Terminal.run 100 [LCreate ex_ep "acc" ex_tr "s1"; LCreate ex_ep "acc" ex_tr "s2"; Terminal.LRun 0 (Now 1); Terminal.LRun 1 (Now 2)] in
  zlen (Terminal.ListForAccount m "acc") = 2 /\
  exists l, create_session m (Some 1) (Some (Some ex_ep)) "acc" "ip" "s3" = inr l.
Proof. split; [by vm_compute|]. eexists. vm_compute. reflexivity. Qed.

Example ex_tail_limit : map tail_limit [""; "100"; "0"; "-5"; "9000"; "x"]%string = [2000; 100; 2000; 2000; 8000; 2000].
Proof. vm_compute. reflexivity. Qed.

Example ex_revoke_escaped : snd (fst (revoke_client (mkAnswers true true) "acc" "https%3A%2F%2Fapp")) = [RevokedConsent "acc" "https://app"].
Proof. vm_compute. reflexivity. Qed.

Definition ex_registry : Registry := {[ "a"%string := mkAction "a" (sample_params TypeWebAuthnSign "") StatusPending 0 60000000000 ]}.
Definition ex_b64 (l : list byte) : raw := RString (String.string_of_list_byte (b64_encode true false l)).
Definition ex_assertion (flags : byte) : body :=
  {[ "authenticatorData"%string := ex_b64 (repeat x00 32 ++ [flags]); "signature"%string := ex_b64 [x01]; "clientDataJSON"%string := RString "{}" ]}.

Example ex_resolved : fst (fst (resolve_action ex_registry ex_registry 5 "alice" "a" (ex_assertion x05))) = ARedirect "".
Proof. vm_compute. reflexivity. Qed.
Example ex_no_uv : fst (fst (resolve_action ex_registry ex_registry 5 "alice" "a" (ex_assertion x01))) = AFail 400 "User verification required".
Proof. vm_compute. reflexivity. Qed.
Example ex_foreign_action : fst (fst (resolve_action ex_registry ex_registry 5 "bob" "a" (ex_assertion x05))) = AFail 403 "Access denied".
Proof. vm_compute. reflexivity. Qed.
Example ex_late : fst (fst (resolve_action ex_registry ex_registry 60000000000 "alice" "a" (ex_assertion x05))) = AFail 409 "Action is already expired".
Proof. vm_compute. reflexivity. Qed.

Lemma ex_registry_wf : wf ex_registry.
Proof. intros id a Ha. unfold ex_registry in Ha. apply lookup_singleton_Some in Ha as [<- <-]. done. Qed.

Lemma same_registry (s : Registry) id a0 a : s !! id = Some a0 -> s !! id = Some a -> same_request a0 a.
Proof. intros H0 H1. rewrite H0 in H1. injection H1 as <-. apply same_request_refl. Qed.

Lemma resolve_needs_owner_witness :
  exists a, ex_registry !! "a"%string = Some a /\ cp_AccountID (a_Params a) = "alice"%string /\ a_Status a = StatusPending.
Proof.
  pose (r := resolve_action ex_registry ex_registry 5 "alice" "a" (ex_assertion x05)).
  destruct (resolve_needs_owner ex_registry ex_registry 5 "alice" "a" (ex_assertion x05) (ARedirect "") (snd (fst r)) (snd r)
    ex_registry_wf (same_registry ex_registry)) as (a & Ha & Hacc & Hp & _); [vm_compute; reflexivity|]. by exists a.
Defined.

Lemma deny_truthful_witness :
  let s := snd (fst (deny_action ex_registry ex_registry 5 "alice" "a")) in
  exists a, s !! "a"%string = Some a /\ a_Status a = StatusDenied.
Proof.
  intros s. pose (r := deny_action ex_registry ex_registry 5 "alice" "a").
  destruct (deny_truthful ex_registry ex_registry 5 "alice" "a" (AStatus StatusDenied) (snd (fst r)) (snd r) ex_registry_wf) as (_ & [_ Ha] & _);
    [vm_compute; reflexivity|exact Ha].
Defined.

Definition ex_up : Manager := Terminal.run 100 Terminal.up.

Lemma revocation_closes_terminals_witness :
  CloseStart "s" CloseAgentDisconnect ∈ Terminal.threads (Terminal.step ex_up (LCloseAllForClient "acc" "client" CloseAgentDisconnect)).
Proof.
  destruct (revocation_closes_terminals (mkAnswers true true) "acc" "client" ex_up 200 _ (Some (LCloseAllForClient "acc" "client" CloseAgentDisconnect)) eq_refl)
    as (_ & clientID & Hid & _ & Hclose & _). injection Hid as <-.
  eapply Hclose; [eexists; split; vm_compute; reflexivity|reflexivity..|vm_compute; discriminate].
Defined.

Lemma account_deletion_clears_witness :
  let labels := [LCloseAllForAccount "acc" CloseAccountDeleted; LRemoveForAccount "acc"] in
  (labels = [] /\ 200 <> 200) \/
  (200 = 200 /\ true = true /\ Some "root"%string = Some "root"%string /\ "acc"%string <> "root"%string /\ ("acc"%string = EmptyString \/ Some "root"%string <> Some "acc"%string) /\
   let m' := fold_left Terminal.step labels ex_up in
   forall sid g, registered_session m' sid g -> AccountID (session g) = "acc"%string ->
     status_of g <> StatusClosed /\ status_of g <> StatusError /\ CloseStart sid CloseAccountDeleted ∈ Terminal.threads m').
Proof. intros labels. apply (account_deletion_clears (Some "root"%string) (Some "root"%string) true "root" "acc" ex_up 200 "deleted"). reflexivity. Defined.
