(* ===== verification/Migrate.v ===== *)
(** * Opening the database (internal/store/store.go)

    At startup the schema is brought up to date. A database the earlier, Node
    backend created is adopted: it is checked to be complete, and the migration
    tool's table is stamped as if the tool had created it. The reverse is stamped
    too, so that the Node backend can be pointed at the same data again. The
    migration tool, goose, is a parameter. *)
From stdpp Require Import list.
From S2P Require Import Prelude GoStrings.
#[local] Open Scope Z_scope.

(** ** State *)

(** The names of the tables, the rows of Node's journal, and the versions the
    tool's table records. *)
Record schema := mkSchema { s_tables : gset string; s_journal : list Z; s_versions : list Z }.

Definition drizzleHeadMillis : Z := 1781446167747.
Definition drizzleMigrationCount : Z := 11.

Definition goose_table : string := "goose_db_version".
Definition drizzle_table : string := "__drizzle_migrations".

Definition node_tables : list string :=
  ["admin_account"; "endpoints"; "webauthn_credentials"; "ssh_keys"; "audit_session_lifecycle"; "audit_signing_requests"; "push_subscriptions"]%string.

Inductive migrate_error := DatabaseError | MissingTable (name : string) | HalfMigrated (applied : Z) | GooseError.

(** ** Statements *)

(** What each statement meets; a failure is also what a crash leaves. *)
Abbreviation outcomes := (list bool).

Definition M (A : Type) : Type := schema * outcomes -> (schema * outcomes) * (migrate_error + A).
Definition ret {A} (a : A) : M A := fun s => (s, inr a).
Definition fail {A} (e : migrate_error) : M A := fun s => (s, inl e).
Definition bind {A B} (m : M A) (f : A -> M B) : M B := fun s => match m s with (s, inr a) => f a s | (s, inl e) => (s, inl e) end.
Definition stmt {A} (f : schema -> option (A * schema)) : M A := fun '(d, io) =>
  if List.hd true io then match f d with Some (a, d) => ((d, List.tl io), inr a) | None => ((d, List.tl io), inl DatabaseError) end
  else ((d, List.tl io), inl DatabaseError).

#[local] Notation "x <-- m ;; k" := (bind m (fun x => k)) (at level 62, m at next level, right associativity).

Definition tableExists (name : string) : M bool := stmt (fun d => Some (bool_decide (name ∈ s_tables d), d)).

Definition create_table (name : string) : M unit :=
  stmt (fun d => if bool_decide (name ∈ s_tables d) then None else Some (tt, mkSchema (s_tables d ∪ {[name]}) (s_journal d) (s_versions d))).

(** CREATE TABLE IF NOT EXISTS. *)
Definition ensure_table (name : string) : M unit := stmt (fun d => Some (tt, mkSchema (s_tables d ∪ {[name]}) (s_journal d) (s_versions d))).

Definition insert_version (v : Z) : M unit := stmt (fun d => Some (tt, mkSchema (s_tables d) (s_journal d) (s_versions d ++ [v]))).
Definition insert_journal (t : Z) : M unit := stmt (fun d => Some (tt, mkSchema (s_tables d) (s_journal d ++ [t]) (s_versions d))).
Definition count_journal : M Z := stmt (fun d => Some (zlen (s_journal d), d)).

(** ** adoptNodeDatabase, stampDrizzleJournal, Migrate *)

Fixpoint check_tables (l : list string) : M unit :=
  match l with
  | [] => ret tt
  | name :: l => ok <-- tableExists name ;; if ok : bool then check_tables l else fail (MissingTable name)
  end.

Definition check_journal : M unit :=
  hasJournal <-- tableExists drizzle_table ;;
  if hasJournal : bool
  then applied <-- count_journal ;; if applied <? drizzleMigrationCount then fail (HalfMigrated applied) else ret tt
  else ret tt.

Definition adoptNodeDatabase : M unit :=
  gooseManaged <-- tableExists goose_table ;;
  if gooseManaged : bool then ret tt
  else
    nodeSchema <-- tableExists "accounts" ;;
    if negb nodeSchema then ret tt
    else _ <-- check_tables node_tables ;; _ <-- check_journal ;; _ <-- create_table goose_table ;; _ <-- insert_version 0 ;; insert_version 1.

Definition stampDrizzleJournal : M unit :=
  _ <-- ensure_table drizzle_table ;; rows <-- count_journal ;; if rows >? 0 then ret tt else insert_journal drizzleHeadMillis.

(** ** Lemmas *)

Lemma set_schema_id d : mkSchema (s_tables d) (s_journal d) (s_versions d) = d.
Proof. by destruct d. Qed.

Lemma union_singleton_id (x : string) (s : gset string) : x ∈ s -> s ∪ {[x]} = s.
Proof. intros H. apply set_eq. intros y. rewrite elem_of_union, elem_of_singleton. split; [intros [?| ->]; done|by left]. Qed.

Lemma adopt_managed d : goose_table ∈ s_tables d -> adoptNodeDatabase (d, []) = ((d, []), inr tt).
Proof. intros H. unfold adoptNodeDatabase, bind, tableExists, stmt. cbn. by rewrite bool_decide_eq_true_2. Qed.

Lemma stamp_stamped d : drizzle_table ∈ s_tables d -> s_journal d <> [] -> stampDrizzleJournal (d, []) = ((d, []), inr tt).
Proof.
  intros Ht Hj. unfold stampDrizzleJournal, bind, ensure_table, count_journal, stmt. cbn. replace (s_tables d ∪ {[drizzle_table]}) with (s_tables d) by (symmetry; apply union_singleton_id; done).
  rewrite set_schema_id. destruct (s_journal d) as [|x l] eqn:E; [done|]. rewrite <- E in *. assert (zlen (s_journal d) >? 0 = true) as ->; [|done].
  rewrite E. cbn [length]. rewrite Z.gtb_ltb. apply Z.ltb_lt. lia.
Qed.

(** Stamping never goes wrong by itself, and leaves a stamped journal. *)
Lemma stamp_result d io d' io' r : stampDrizzleJournal (d, io) = ((d', io'), inr r) ->
  drizzle_table ∈ s_tables d' /\ s_journal d' <> [] /\ s_versions d' = s_versions d /\ s_tables d ⊆ s_tables d' /\
  (s_journal d = [] -> s_journal d' = [drizzleHeadMillis]) /\ (s_journal d <> [] -> s_journal d' = s_journal d).
Proof.
  unfold stampDrizzleJournal, bind, ensure_table, count_journal, insert_journal, stmt. destruct (List.hd true io); [|done]. cbn.
  destruct (List.hd true (List.tl io)); [|done]. destruct (s_journal d) as [|x l] eqn:E; cbn.
  - change (Z.of_nat 0 >? 0) with false. cbn. destruct (List.hd true (List.tl (List.tl io))); [|done]. intros [= <- _ _]. cbn. split_and!; (done || set_solver).
  - intros [= <- _ _]. cbn. split_and!; (done || set_solver).
Qed.

Lemma stamp_errors s s' e : stampDrizzleJournal s = (s', inl e) -> e = DatabaseError.
Proof.
  destruct s as [d io]. unfold stampDrizzleJournal, bind, ensure_table, count_journal, insert_journal, stmt. destruct (List.hd true io); [|congruence].
  cbn [fst snd]. destruct (List.hd true (List.tl io)); [|congruence]. case_match; [done|]. destruct (List.hd true _); congruence.
Qed.

(** A check changes nothing. *)
Lemma check_tables_same l s s' r : check_tables l s = (s', r) -> fst s' = fst s.
Proof.
  revert s. induction l as [|name l IH]; intros [d io]; cbn [check_tables]; [by intros [= <- _]|]. unfold bind, tableExists, stmt. destruct (List.hd true io); [|by intros [= <- _]].
  cbn. destruct (bool_decide _); [|by intros [= <- _]]. intros H. by apply IH in H.
Qed.

Lemma check_journal_same s s' r : check_journal s = (s', r) -> fst s' = fst s.
Proof.
  destruct s as [d io]. unfold check_journal, bind, tableExists, count_journal, stmt. destruct (List.hd true io); [|by intros [= <- _]]. cbn.
  destruct (bool_decide _); [|by intros [= <- _]]. destruct (List.hd true (List.tl io)); [|by intros [= <- _]]. destruct (_ <? _); by intros [= <- _].
Qed.

Lemma check_tables_ok l s s' : check_tables l s = (s', inr tt) -> forall name, name ∈ l -> name ∈ s_tables (fst s).
Proof.
  revert s. induction l as [|x l IH]; intros [d io] H name Hin; [by apply not_elem_of_nil in Hin|]. cbn [check_tables] in H. unfold bind, tableExists, stmt in H.
  destruct (List.hd true io); [|done]. cbn in H. destruct (bool_decide (x ∈ s_tables d)) eqn:E; [|done]. apply bool_decide_eq_true in E.
  apply elem_of_cons in Hin as [->|Hin]; [done|]. by apply (IH _ H name Hin).
Qed.

Lemma check_journal_ok s s' : check_journal s = (s', inr tt) -> drizzle_table ∈ s_tables (fst s) -> drizzleMigrationCount <= zlen (s_journal (fst s)).
Proof.
  destruct s as [d io]. unfold check_journal, bind, tableExists, count_journal, stmt. destruct (List.hd true io); [|done]. cbn. intros H Ht. rewrite bool_decide_eq_true_2 in H by done.
  destruct (List.hd true (List.tl io)); [|done]. destruct (zlen (s_journal d) <? drizzleMigrationCount) eqn:E; [done|]. by apply Z.ltb_ge in E.
Qed.

#[local] Arguments check_tables : simpl never.
#[local] Arguments check_journal : simpl never.

#[local] Ltac finish_adopt := split_and!; first [done | by left | by intros _; left | by intros _; right | intros _; left; cbn; set_solver].

(** The adoption touches only its own table, after all the checks. *)
Lemma adopt_result d io d' io' r : adoptNodeDatabase (d, io) = ((d', io'), r) ->
  s_journal d' = s_journal d /\
  (d' = d \/ goose_table ∉ s_tables d /\ s_tables d' = s_tables d ∪ {[goose_table]} /\ "accounts"%string ∈ s_tables d /\ (forall name, name ∈ node_tables -> name ∈ s_tables d) /\
     (drizzle_table ∈ s_tables d -> drizzleMigrationCount <= zlen (s_journal d)) /\ (r = inr tt -> s_versions d' = s_versions d ++ [0; 1])) /\
  (forall name, r = inl (MissingTable name) -> d' = d) /\ (forall n, r = inl (HalfMigrated n) -> d' = d) /\
  (r = inr tt -> goose_table ∈ s_tables d' \/ "accounts"%string ∉ s_tables d').
Proof.
  unfold adoptNodeDatabase, bind at 1, tableExists, stmt at 1. destruct (List.hd true io); [|intros [= <- _ <-]; finish_adopt]. cbn.
  destruct (bool_decide (goose_table ∈ s_tables d)) eqn:Eg; [apply bool_decide_eq_true in Eg; intros [= <- _ <-]; finish_adopt|]. apply bool_decide_eq_false in Eg.
  unfold bind at 1, stmt at 1. destruct (List.hd true (List.tl io)); [|intros [= <- _ <-]; finish_adopt]. cbn.
  destruct (bool_decide ("accounts"%string ∈ s_tables d)) eqn:Ea; cbn [negb]; [|apply bool_decide_eq_false in Ea; intros [= <- _ <-]; finish_adopt]. apply bool_decide_eq_true in Ea.
  set (io1 := List.tl (List.tl io)). unfold bind at 1. destruct (check_tables node_tables (d, io1)) as [[d1 io2] [e|[]]] eqn:Ec; pose proof (check_tables_same _ _ _ _ Ec) as Hs; cbn in Hs; subst d1;
    [intros [= <- _ <-]; finish_adopt|]. pose proof (check_tables_ok _ _ _ Ec) as Hok. cbn in Hok.
  unfold bind at 1. destruct (check_journal (d, io2)) as [[d1 io3] [e|[]]] eqn:Ej; pose proof (check_journal_same _ _ _ Ej) as Hs; cbn in Hs; subst d1;
    [intros [= <- _ <-]; finish_adopt|]. pose proof (check_journal_ok _ _ Ej) as Hjok. cbn in Hjok.
  unfold bind at 1, create_table, stmt at 1. destruct (List.hd true io3); [|intros [= <- _ <-]; finish_adopt]. rewrite bool_decide_eq_false_2 by done.
  unfold bind, insert_version, stmt. destruct (List.hd true (List.tl io3)); cbn; [destruct (List.hd true (List.tl (List.tl io3))); cbn|];
    (intros [= <- _ <-]; cbn; split_and!; [done|right; split_and!; (done || by (intros _; rewrite <- app_assoc))|done|done|intros _; left; cbn; set_solver]).
Qed.

Section Migrate.
(** goose.Up, on the embedded migrations: the schema it leaves, and whether it succeeded. *)
Context (goose_up : schema -> schema * bool).

Definition run_goose : M unit := fun '(d, io) => match goose_up d with (d, true) => ((d, io), inr tt) | (d, false) => ((d, io), inl GooseError) end.

Definition Migrate : M unit := _ <-- adoptNodeDatabase ;; _ <-- run_goose ;; stampDrizzleJournal.

(** The versions of the embedded migrations, the baseline being 1. *)
Context (migrations : list Z).

(** What goose documents: Up leaves every migration recorded, and does nothing
    when they are; it keeps its table, and the tables the migrations know nothing of. *)
Definition applied (d : schema) : Prop := goose_table ∈ s_tables d /\ forall v, v ∈ migrations -> v ∈ s_versions d.
Context (up_applies : forall d d', goose_up d = (d', true) -> applied d' /\ s_journal d' = s_journal d /\ (drizzle_table ∈ s_tables d <-> drizzle_table ∈ s_tables d')).
Context (up_idle : forall d, applied d -> goose_up d = (d, true)).

(** What a migration that succeeds leaves. *)
Lemma Migrate_ready d io d' io' : Migrate (d, io) = ((d', io'), inr tt) -> applied d' /\ s_journal d' <> [].
Proof using up_applies.
  unfold Migrate, bind. destruct (adoptNodeDatabase (d, io)) as [[d1 io1] [e|[]]]; [done|]. unfold run_goose. destruct (goose_up d1) as [d2 []] eqn:Eg; [|done].
  destruct (up_applies _ _ Eg) as ([Ht Hv] & _ & _). intros Hs. destruct (stamp_result _ _ _ _ _ Hs) as (_ & S2 & S3 & S4 & _). split; [|done].
  split; [by apply S4|]. by rewrite S3.
Qed.

(** ** Claims *)

(** A migration that succeeds leaves every migration applied and Node's journal
    stamped, without changing a journal that has rows, and a second one changes
    nothing; a Node database is adopted only with all its tables and a full
    journal, is then never given the baseline again, and is left as it is when
    it is refused (C36). *)
Theorem migrate_settles d io d' io' r : Migrate (d, io) = ((d', io'), r) ->
  (r = inr tt ->
     applied d' /\ s_journal d' <> [] /\ (s_journal d <> [] -> s_journal d' = s_journal d) /\ Migrate (d', []) = ((d', []), inr tt) /\
     (goose_table ∉ s_tables d -> "accounts"%string ∈ s_tables d ->
        (forall name, name ∈ node_tables -> name ∈ s_tables d) /\ (drizzle_table ∈ s_tables d -> drizzleMigrationCount <= zlen (s_journal d)) /\
        exists mid after, goose_up mid = (after, true) /\ s_versions mid = s_versions d ++ [0; 1] /\ s_tables mid = s_tables d ∪ {[goose_table]})) /\
  (forall name, r = inl (MissingTable name) -> d' = d) /\ (forall n, r = inl (HalfMigrated n) -> d' = d).
Proof using up_applies up_idle.
  unfold Migrate, bind. destruct (adoptNodeDatabase (d, io)) as [[d1 io1] [e|[]]] eqn:Ea; destruct (adopt_result _ _ _ _ _ Ea) as (Hj & Hcase & Hm & Hh & Hset).
  { intros [= <- _ <-]. split_and!; [done|intros name [= ->]; by eapply Hm|intros n [= ->]; by eapply Hh]. }
  unfold run_goose. destruct (goose_up d1) as [d2 []] eqn:Eg; [|by intros [= <- _ <-]]. destruct (up_applies _ _ Eg) as (Hap & Hj2 & Ht2). destruct (stampDrizzleJournal (d2, io1)) as [[d3 io3] r3] eqn:Es.
  intros [= <- _ <-]. split_and!.
  - intros ->. destruct (stamp_result _ _ _ _ _ Es) as (S1 & S2 & S3 & S4 & S5 & S6). assert (applied d3) as Hap3 by (destruct Hap as [? Hv]; split; [set_solver|by rewrite S3]). split_and!; try done.
    + intros Hne. rewrite S6; [congruence|congruence].
    + unfold Migrate, bind. rewrite adopt_managed by apply Hap3. unfold run_goose. rewrite (up_idle d3 Hap3). by apply stamp_stamped.
    + intros Hng Hacc. destruct Hcase as [->|(_ & C1 & _ & C2 & C3 & C4)].
      * by destruct (Hset eq_refl).
      * split_and!; try done. exists d1, d2. split_and!; [done|by apply C4|done].
  - intros name ->. by apply stamp_errors in Es.
  - intros n ->. by apply stamp_errors in Es.
Qed.

End Migrate.

(** ** Witnesses *)

(** A tool whose migrations are 1 and 2. *)
Definition up_two (d : schema) : schema * bool :=
  (mkSchema (s_tables d ∪ {[goose_table]}) (s_journal d) (s_versions d ++ filter (fun v => v ∉ s_versions d) [1; 2]), true).

Lemma up_two_applies d d' : up_two d = (d', true) ->
  applied [1; 2] d' /\ s_journal d' = s_journal d /\ (drizzle_table ∈ s_tables d <-> drizzle_table ∈ s_tables d').
Proof.
  intros [= <-]. unfold applied, up_two. cbn [s_tables s_journal s_versions]. split_and!; [set_solver| |done|].
  - intros v Hv. apply elem_of_app. destruct (decide (v ∈ s_versions d)); [by left|right]. by apply list_elem_of_filter.
  - rewrite elem_of_union, elem_of_singleton. split; [by left|by intros [?|?]].
Qed.

Lemma up_two_idle d : applied [1; 2] d -> up_two d = (d, true).
Proof.
  intros [Ht Hv]. unfold up_two. rewrite union_singleton_id by done. rewrite !filter_cons_False, filter_nil, app_nil_r by (intros H; apply H; apply Hv; set_solver).
  by rewrite set_schema_id.
Qed.

(** A database the Node backend left complete. *)
Definition node_db : schema := mkSchema (list_to_set ("accounts"%string :: drizzle_table :: node_tables)) (replicate 11 7) [].

Lemma migrate_settles_witness :
  let '(d', _) := fst (Migrate up_two (node_db, [])) in applied [1; 2] d' /\ s_journal d' = replicate 11 7 /\ s_versions d' = [0; 1; 2].
Proof.
  pose proof (migrate_settles up_two [1; 2] up_two_applies up_two_idle node_db []) as H. destruct (Migrate up_two (node_db, [])) as [[d' io'] r] eqn:E.
  specialize (H _ _ _ eq_refl) as [H _]. assert (r = inr tt) as -> by (apply (f_equal snd) in E; vm_compute in E; by rewrite <- E).
  destruct (H eq_refl) as (Ha & _ & Hj & _). cbn [fst]. assert (s_versions d' = [0; 1; 2]) by (change d' with (fst (fst ((d', io', inr tt) : schema * outcomes * (migrate_error + ())))); rewrite <- E; by vm_compute). split_and!; [done|by rewrite Hj|done].
Defined.

(** Adoption is not atomic: when it is cut between creating the tool's table and
    recording the baseline, the next start takes the database for managed, and
    gives the tool a schema with no version recorded. *)
Theorem adoption_can_stick : exists io d',
  adoptNodeDatabase (node_db, io) = ((d', []), inl DatabaseError) /\ s_versions d' = [] /\ adoptNodeDatabase (d', []) = ((d', []), inr tt).
Proof.
  exists (replicate 12 true ++ [false]), (mkSchema (s_tables node_db ∪ {[goose_table]}) (s_journal node_db) []). split_and!; [|done|].
  - by vm_compute.
  - apply adopt_managed. cbn [s_tables]. apply elem_of_union_r, elem_of_singleton. done.
Qed.
