(* ===== verification/Profile.v ===== *)
(** * Accounts and the seed export (internal/rest/accounts.go, internal/store/account_admin.go)

    An account's own profile, the administrator's list of accounts, and the
    export of the administrator's passkeys and endpoints in the form the
    configuration file takes them back. *)
From Stdlib Require Import Ascii.
From S2P Require Import Prelude GoStrings Net SSHWire Address Config Passkeys PinStore Seed RestActions.
#[local] Open Scope Z_scope.

(** ** The table of accounts *)

(** A row of accounts, with the columns the profile routes read. *)
Record AccountRow := mkAccountRow {
  ar_ID : string; ar_Name : string; ar_Enabled : bool; ar_MaxSessions : Z; ar_LastUsedAt : option string; ar_CreatedAt : string; ar_UpdatedAt : string;
  ar_ShowDemo : bool }.

Definition set_name (name now : string) (a : AccountRow) : AccountRow :=
  mkAccountRow (ar_ID a) name (ar_Enabled a) (ar_MaxSessions a) (ar_LastUsedAt a) (ar_CreatedAt a) now (ar_ShowDemo a).
Definition set_show (show : bool) (now : string) (a : AccountRow) : AccountRow :=
  mkAccountRow (ar_ID a) (ar_Name a) (ar_Enabled a) (ar_MaxSessions a) (ar_LastUsedAt a) (ar_CreatedAt a) now show.

(** UPDATE accounts SET ... WHERE id = ?, which may fail. *)
Definition update_account (ok : bool) (f : AccountRow -> AccountRow) (acc : string) (t : list AccountRow) : list AccountRow * bool :=
  if ok then (map (fun a => if bool_decide (ar_ID a = acc) then f a else a) t, true) else (t, false).

(** The error of a second statement comes after the first one took effect. *)
Definition UpdateSelf (io : list bool) (t : list AccountRow) (acc : string) (name : option string) (showDemo : option bool) (now : string)
  : list AccountRow * bool :=
  let '(t, ok) := match name with Some name => update_account (answers io 0) (set_name name now) acc t | None => (t, true) end in
  if negb ok then (t, false)
  else match showDemo with Some show => update_account (answers io 1) (set_show show now) acc t | None => (t, true) end.

(** The row with the admin flag: outside, an error of the query. *)
Definition GetAccount (ok : bool) (t : list AccountRow) (admin : option string) (acc : string) : option (option (AccountRow * bool)) :=
  if ok then Some ((fun a => (a, bool_decide (ar_ID a = default EmptyString admin))) <$> List.find (fun a => bool_decide (ar_ID a = acc)) t) else None.

(** ** Routes *)

Record me_view := mkMe { me_ID : string; me_Name : string; me_IsAdmin : bool; me_ShowDemo : bool; me_DemoAvailable : bool }.

Definition me (ok : bool) (t : list AccountRow) (admin : option string) (demoEmpty : bool) (acc : string) : Z * option me_view :=
  match GetAccount ok t admin acc with
  | None => (500, None)
  | Some None => (401, None)
  | Some (Some (a, isAdmin)) => (200, Some (mkMe (ar_ID a) (ar_Name a) isAdmin (ar_ShowDemo a) (negb demoEmpty)))
  end.

(** The body is what its JSON decoded to; a body that is not JSON is empty. *)
Definition updateMe (io : list bool) (t : list AccountRow) (acc : string) (name : option string) (showDemo : option bool) (now : string)
  : Z * list AccountRow :=
  let trimmed := TrimSpace <$> name in
  if bool_decide (trimmed = Some EmptyString) then (400, t)
  else let '(t, ok) := UpdateSelf io t acc trimmed showDemo now in (if ok then 200 else 500, t).

(** ORDER BY created_at, id. *)
Definition account_leb (a b : AccountRow) : bool :=
  match String.compare (ar_CreatedAt a) (ar_CreatedAt b) with
  | Lt => true | Gt => false | Eq => match String.compare (ar_ID a) (ar_ID b) with Gt => false | _ => true end
  end.

Fixpoint insert_account (x : AccountRow) (l : list AccountRow) : list AccountRow :=
  match l with [] => [x] | y :: l' => if account_leb x y then x :: l else y :: insert_account x l' end.

Definition ListAllAccounts (t : list AccountRow) : list AccountRow := foldr insert_account [] t.

Definition list_accounts (ok : bool) (t : list AccountRow) (admin : option string) (caller : string) : Z * list (AccountRow * bool) :=
  if negb (IsAdmin admin caller) then (403, [])
  else if negb ok then (500, [])
  else (200, map (fun a => (a, bool_decide (ar_ID a = default EmptyString admin))) (ListAllAccounts t)).

(** ** The seed export *)

Definition hex_digit (n : N) : ascii := ascii_of_N (if (n <? 10)%N then 48 + n else 87 + n).

(** hex.EncodeToString. *)
Fixpoint hex_encode (s : string) : string :=
  match s with
  | EmptyString => EmptyString
  | String a s => String (hex_digit (N_of_ascii a / 16)) (String (hex_digit (N_of_ascii a mod 16)) (hex_encode s))
  end.

Record ExportedEndpoint := mkExported { xe_Label : string; xe_Address : string; xe_AgentForward : bool }.

Record SeedExport := mkSeedExport { sx_Passkeys : list SeedAdminPasskey; sx_Endpoints : list ExportedEndpoint }.

Definition export_passkey (x : string * string * Z * list string * string) : SeedAdminPasskey :=
  let '(cid, key, counter, transports, label) := x in mkSeedPasskey cid (hex_encode key) counter (Some transports) label.

Definition export_endpoint (e : Endpoint) : ExportedEndpoint :=
  mkExported (ep_Label e) (FormatEndpointAddress (Address.mkAddress (ep_Username e) (ep_Host e) (ep_Port e))) (ep_AgentForward e).

Definition exportSeed (b : boot) (ok : bool) (io : list bool) (caller : string) : Z * option SeedExport :=
  if negb (IsAdmin (admin_account (b_db b)) caller) then (403, None)
  else if negb ok then (500, None)
  else match ListForAccount (b_endpoints b) io caller with
       | None => (500, None)
       | Some eps => (200, Some (mkSeedExport (map export_passkey (ExportSeed (b_db b) caller)) (map export_endpoint eps)))
       end.

(** ** The configuration an export is pasted into *)

Definition seed_entry (e : ExportedEndpoint) : Config.SeedEndpoint :=
  mkSeedEndpoint (xe_Label e) (xe_Address e) (Some (xe_AgentForward e)) None None (Address.mkAddress "" "" 0) None.

(** What an export keeps of an endpoint. *)
Definition ep_key (e : Endpoint) : string * string * Z * string * bool := (ep_Label e, ep_Host e, ep_Port e, ep_Username e, ep_AgentForward e).
Definition row_key (r : PinStore.row) : string * string * Z * string * bool := (r_label r, r_host r, r_port r, r_username r, r_agent_forward r).

(** An address that its text gives back. *)
Definition addressable (e : Endpoint) : Prop :=
  ep_Username e <> EmptyString /\ without "@" (ep_Username e) = true /\ forall_str graphic (ep_Username e) = true /\
  ep_Host e <> EmptyString /\ HasPrefix (ep_Host e) "[" = false /\ forall_str graphic (ep_Host e) = true /\
  1 <= ep_Port e <= 65535 /\ (ep_Port e <> defaultPort \/ without ":" (ep_Host e) = true).

(** ** Lemmas *)

Lemma hex_digit_value a :
  hex_value (hex_digit (N_of_ascii a / 16)) = Some (Z.of_N (N_of_ascii a / 16)) /\ hex_value (hex_digit (N_of_ascii a mod 16)) = Some (Z.of_N (N_of_ascii a mod 16)).
Proof. destruct a as [[] [] [] [] [] [] [] []]; split; vm_compute; reflexivity. Qed.

Lemma hex_roundtrip s : hex_decode (hex_encode s) = Some s.
Proof.
  induction s as [|a s IH]; [done|]. cbn [hex_encode hex_decode]. destruct (hex_digit_value a) as [-> ->]. cbn [mbind option_bind]. rewrite IH. cbn [mbind option_bind].
  f_equal. f_equal. rewrite <- (ascii_N_embedding a) at 3. f_equal. rewrite <- (N2Z.id (N_of_ascii a)) at 3. f_equal.
  rewrite N2Z.inj_div, N2Z.inj_mod. rewrite <- Z.div_mod; [done|]. done.
Qed.

Lemma order_rows_perm l : order_rows l ≡ₚ l.
Proof.
  induction l as [|x l IH]; [done|]. cbn [order_rows foldr]. fold (order_rows l). rewrite <- IH at 2. generalize (order_rows l). clear.
  intros l. induction l as [|y l IH]; [done|]. cbn [PinStore.insert_row]. destruct (row_leb x y); [done|]. by rewrite IH, Permutation_swap.
Qed.

(** The list of an account, but for its order. *)
Lemma list_keys t acc eps : ListForAccount t [] acc = Some eps ->
  map ep_key eps ≡ₚ map row_key (List.filter (fun r => bool_decide (r_account r = acc) && r_enabled r) (map_to_list t).*2).
Proof.
  unfold ListForAccount. cbn [answers nth]. intros [= <-]. rewrite map_map. erewrite (map_ext _ (fun x => row_key (snd x))) by done.
  change (map (fun x : string * PinStore.row => row_key x.2) ?l) with ((fun x : string * PinStore.row => row_key x.2) <$> l). rewrite order_rows_perm. clear. induction (map_to_list t) as [|[id r] l IH]; [done|].
  cbn [List.filter fmap list_fmap snd]. destruct (_ && _); cbn [map fmap list_fmap snd]; by rewrite IH.
Qed.

Section Restore.
Context (ParsePublicKey : list byte -> option ParsedKey) (newID : nat -> string) (ts : string).
Context (newID_inj : forall m n, newID m = newID n -> m = n).

(** Nothing is in the way of the ids from [n] on. *)
Definition free_from (n : nat) (b : boot) : Prop :=
  forall k, (n <= k)%nat -> b_endpoints b !! newID k = None /\ newID k ∉ map ID (creds (b_db b)).

Lemma seed_endpoints_go adminID l n b : free_from n b ->
  exists b', goes (for_each l n (seed_endpoint newID ts adminID)) b (n + length l)%nat b' /\ b_db b' = b_db b /\
    (map_to_list (b_endpoints b')).*2 ≡ₚ map (endpoint_row ts adminID) l ++ (map_to_list (b_endpoints b)).*2.
Proof using newID_inj.
  revert n b. induction l as [|e l IH]; intros n b Hfree; [exists b; cbn; rewrite Nat.add_0_r; done|].
  destruct (Hfree n (le_n n)) as [Hn _]. set (b1 := mkBoot (b_db b) (<[newID n := endpoint_row ts adminID e]> (b_endpoints b))).
  destruct (IH (S n) b1) as (b' & Hgo & Hdb & Hp).
  { intros k Hk. destruct (Hfree k ltac:(clear - Hk; lia)) as [H1 H2]. split; [|done]. cbn [b1 b_endpoints]. rewrite lookup_insert_ne; [done|]. intros He%newID_inj. clear - He Hk. lia. }
  exists b'. split_and!; [|done|].
  - cbn [for_each length]. rewrite <- Nat.add_succ_comm. eapply goes_bind; [|exact Hgo]. unfold seed_endpoint. eapply goes_bind; [|done]. apply goes_stmt. by rewrite Hn.
  - rewrite Hp. cbn [b1 b_endpoints]. rewrite map_to_list_insert by done. cbn [map fmap list_fmap snd]. by rewrite <- Permutation_middle.
Qed.

(** A passkey is exported, and restored, as these columns. *)
Definition seedable (r : CredentialRow) : SeedAdminPasskey := export_passkey (Passkeys.CredentialID r, PublicKeyCOSE r, Counter r, Transports r, Label r).

Lemma seed_passkeys_go rpID adminID rows n sd b : free_from n b -> is_Some (find_account (b_db b) adminID) ->
  NoDup (map Passkeys.CredentialID (creds (b_db b)) ++ map Passkeys.CredentialID rows) ->
  exists sd' b' new, goes (for_each (map seedable rows) (sd, n) (seed_passkey ParsePublicKey newID rpID ts adminID)) b (sd', (n + length rows)%nat) b' /\
    b_db b' = set_creds (b_db b) (creds (b_db b) ++ new) /\ b_endpoints b' = b_endpoints b /\ free_from (n + length rows) b' /\
    map seedable new = map seedable rows /\ Forall (fun r => of_account adminID r && active r = true) new.
Proof using newID_inj.
  revert n sd b. induction rows as [|r rows IH]; intros n sd b Hfree Hacc Hnd.
  { exists sd, b, []. cbn [map length for_each]. rewrite Nat.add_0_r, app_nil_r. split_and!; try done. by destruct b as [[] ?]. }
  set (row := passkey_row ParsePublicKey rpID ts adminID (newID n) (seedable r) (PublicKeyCOSE r)).
  assert (forall x, x ∈ creds (b_db b) -> ID x <> newID n /\ Passkeys.CredentialID x <> Passkeys.CredentialID r) as Hnew.
  { intros x Hx. destruct (Hfree n (le_n n)) as [_ Hid]. split; [intros He; apply Hid; rewrite <- He; by apply (list_elem_of_fmap_2 ID)|].
    intros He. apply NoDup_app in Hnd as (_ & Hnd & _). apply (Hnd (Passkeys.CredentialID x)); [by apply (list_elem_of_fmap_2 Passkeys.CredentialID)|]. rewrite He. left. }
  assert (has_credential (b_db b) (Passkeys.CredentialID r) = false) as Hhas.
  { apply not_true_is_false. unfold has_credential. intros (x & Hx & He)%existsb_exists. apply bool_decide_eq_true in He. by destruct (Hnew x) as [_ []]; [apply list_elem_of_In|]. }
  assert (Passkeys.insert_row (b_db b) row = Some (set_creds (b_db b) (creds (b_db b) ++ [row]))) as Hins.
  { unfold Passkeys.insert_row. destruct (existsb _ _) eqn:E.
    - exfalso. apply existsb_exists in E as (x & Hx & H). destruct (Hnew x) as [H1 H2]; [by apply list_elem_of_In|].
      apply orb_true_iff in H as [H|H]; apply bool_decide_eq_true in H; [by apply H1|by apply H2].
    - cbn [row passkey_row Passkeys.AccountID]. by destruct Hacc as [a ->]. }
  set (b1 := mkBoot (set_creds (b_db b) (creds (b_db b) ++ [row])) (b_endpoints b)).
  destruct (IH (S n) true b1) as (sd' & b' & new & Hgo & Hdb & Hep & Hfr & Hm & Hall).
  { intros k Hk. destruct (Hfree k ltac:(clear - Hk; lia)) as [H1 H2]. split; [done|]. cbn [b1 b_db set_creds creds]. rewrite map_app. intros [H|H]%elem_of_app; [done|].
    apply list_elem_of_singleton, newID_inj in H. clear - H Hk. lia. }
  { done. }
  { cbn [b1 b_db set_creds creds]. rewrite map_app, <- app_assoc. exact Hnd. }
  exists sd', b', (row :: new). split_and!.
  - cbn [for_each map length]. rewrite <- Nat.add_succ_comm. eapply goes_bind; [|exact Hgo]. unfold seed_passkey. eapply goes_bind; [by apply goes_stmt|].
    change (sp_CredentialID (seedable r)) with (Passkeys.CredentialID r). rewrite Hhas. change (sp_PublicKeyHex (seedable r)) with (hex_encode (PublicKeyCOSE r)).
    rewrite hex_roundtrip. eapply goes_bind; [|done]. apply goes_stmt. fold row. by rewrite Hins.
  - rewrite Hdb. cbn [b1 b_db set_creds creds accounts admin_account]. by rewrite <- app_assoc.
  - done.
  - cbn [length]. by rewrite <- Nat.add_succ_comm.
  - cbn [map]. by rewrite Hm.
  - constructor; [|done]. cbn. unfold of_account, active. cbn. by rewrite !bool_decide_true.
Qed.

End Restore.

(** What an entry of the export is read as. *)
Definition entry_of (e : Endpoint) : Config.SeedEndpoint :=
  mkSeedEndpoint (ep_Label e) (xe_Address (export_endpoint e)) (Some (ep_AgentForward e)) None None (Address.mkAddress (ep_Username e) (ep_Host e) (ep_Port e)) None.

Lemma parse_entries ParseAuthorizedKey i eps : Forall addressable eps ->
  parse_all ParseAuthorizedKey i (map seed_entry (map export_endpoint eps)) = inl (map entry_of eps).
Proof.
  intros H. revert i. induction H as [|e l (H1 & H2 & H3 & H4 & H5 & H6 & H7 & H8) _ IH]; intros i; [done|].
  cbn [map parse_all]. unfold parseAddress at 1. cbn [seed_entry export_endpoint xe_Address Config.se_Address Config.se_HostKey].
  rewrite address_roundtrip by done. by rewrite IH.
Qed.

Definition fresh : boot := mkBoot (mkDB [] [] None) ∅.

(** Seeding an empty database, when nothing fails. *)
Lemma seed_fresh ParsePublicKey newID ts cfg rows :
  (forall m n, newID m = newID n -> m = n) -> NoDup (map Passkeys.CredentialID rows) -> c_SeedAdminPasskeys cfg = map seedable rows ->
  exists r b', goes (FromConfig ParsePublicKey newID cfg ts) fresh r b' /\ sr_Account r = true /\ sr_AdminID r = newID 0%nat /\
    admin_account (b_db b') = Some (newID 0%nat) /\ map export_passkey (ExportSeed (b_db b') (newID 0%nat)) = map seedable rows /\
    (map_to_list (b_endpoints b')).*2 ≡ₚ map (endpoint_row ts (newID 0%nat)) (c_SeedAdminEndpoints cfg).
Proof.
  intros Hinj Hnd Hpk. set (b1 := mkBoot (mkDB [] [mkAccount (newID 0%nat) "admin" 5] (Some (newID 0%nat))) ∅).
  assert (goes (seed_account newID) fresh (newID 0%nat, true, 1%nat) b1) as Hacc.
  { unfold goes, seed_account, bind, query, stmt, insert_first_account, insert_admin. cbn. by rewrite bool_decide_true. }
  destruct (seed_passkeys_go ParsePublicKey newID ts Hinj (c_RpID cfg) (newID 0%nat) rows 1 false b1) as (sd & b2 & new & Hgo & Hdb & Hep & Hfree & Hm & Hall).
  { intros k _. split; [done|]. intros H. by apply not_elem_of_nil in H. }
  { cbn. rewrite bool_decide_true by done. by eexists. }
  { exact Hnd. }
  destruct (seed_endpoints_go newID ts Hinj (newID 0%nat) (c_SeedAdminEndpoints cfg) (1 + length rows) b2 Hfree) as (b3 & Hgo3 & Hdb3 & Hp3).
  exists (mkSeedResult true sd (newID 0%nat)), b3. split_and!; try done.
  - unfold FromConfig. eapply goes_bind; [exact Hacc|]. cbn beta iota. rewrite Hpk. eapply goes_bind; [exact Hgo|]. cbn beta iota.
    eapply goes_bind; [by apply goes_stmt|]. rewrite Hep. cbn [b1 b_endpoints]. rewrite map_size_empty. cbn [Nat.eqb]. eapply goes_bind; [exact Hgo3|]. done.
  - by rewrite Hdb3, Hdb.
  - rewrite Hdb3, Hdb. cbn [b1 b_db creds set_creds app ExportSeed]. unfold ExportSeed. cbn [creds set_creds]. rewrite filter_all by done. rewrite map_map. exact Hm.
  - rewrite Hp3, Hep. cbn [b1 b_endpoints]. by rewrite map_to_list_empty, app_nil_r.
Qed.

Definition find_row (acc : string) (t : list AccountRow) : option AccountRow := List.find (fun a => bool_decide (ar_ID a = acc)) t.

(** [t'] is [t] with [f] on the rows of [acc]. *)
Definition own_row (f : AccountRow -> AccountRow) (acc : string) (t t' : list AccountRow) : Prop :=
  (forall i a, t !! i = Some a -> ar_ID a <> acc -> t' !! i = Some a) /\ length t' = length t /\ find_row acc t' = f <$> find_row acc t.

Lemma own_row_id acc t : own_row (@id AccountRow) acc t t.
Proof. split_and!; try done. by destruct (find_row acc t). Qed.

Lemma own_row_trans f g acc t1 t2 t3 : own_row f acc t1 t2 -> own_row g acc t2 t3 -> own_row (g ∘ f) acc t1 t3.
Proof.
  intros (A1 & A2 & A3) (B1 & B2 & B3). split_and!; [eauto|congruence|]. rewrite B3, A3. by destruct (find_row acc t1).
Qed.

Lemma update_account_own (ok : bool) f acc t : (forall a, ar_ID (f a) = ar_ID a) ->
  own_row (if ok then f else @id AccountRow) acc t (fst (update_account ok f acc t)) /\ snd (update_account ok f acc t) = ok.
Proof.
  intros Hf. split; [|by destruct ok]. destruct ok; [|apply own_row_id]. cbn [update_account fst]. split_and!; [|by rewrite length_map|].
  - intros i a Hi Ha. change (map ?g t) with (g <$> t). rewrite list_lookup_fmap, Hi. cbn. by rewrite bool_decide_false.
  - unfold find_row. induction t as [|a t IH]; [done|]. cbn [map List.find]. destruct (decide (ar_ID a = acc)) as [E|E].
    + rewrite (bool_decide_true (ar_ID a = acc)) by done. by rewrite Hf, bool_decide_true.
    + by rewrite !(bool_decide_false (ar_ID a = acc)).
Qed.

(** What the two statements did: with an error, the first may stand. *)
Lemma UpdateSelf_own io t acc name show now t' ok : UpdateSelf io t acc name show now = (t', ok) ->
  exists f, own_row f acc t t' /\
    (ok = true -> forall a, ar_ID (f a) = ar_ID a /\ ar_Name (f a) = default (ar_Name a) name /\ ar_ShowDemo (f a) = default (ar_ShowDemo a) show).
Proof.
  unfold UpdateSelf. intros H.
  assert (exists f1 t1 ok1, match name with Some name => update_account (answers io 0) (set_name name now) acc t | None => (t, true) end = (t1, ok1) /\
            own_row f1 acc t t1 /\ (ok1 = true -> forall a, ar_ID (f1 a) = ar_ID a /\ ar_Name (f1 a) = default (ar_Name a) name /\ ar_ShowDemo (f1 a) = ar_ShowDemo a))
    as (f1 & t1 & ok1 & E1 & Hown1 & Hf1).
  { destruct name as [n|]; [|exists (@id AccountRow), t, true; split_and!; [done|apply own_row_id|done]].
    destruct (update_account_own (answers io 0) (set_name n now) acc t (fun _ => eq_refl)) as [Ho Hs]. eexists _, _, _. split; [apply surjective_pairing|].
    split; [exact Ho|]. rewrite Hs. by intros ->. }
  rewrite E1 in H. destruct ok1; cbn [negb] in H; [|injection H as <- <-; exists f1; split; [done|done]]. specialize (Hf1 eq_refl).
  destruct show as [s|]; [|injection H as <- <-; exists f1; split; [done|done]].
  destruct (update_account_own (answers io 1) (set_show s now) acc t1 (fun _ => eq_refl)) as [Ho Hs]. rewrite H in Ho, Hs. cbn [fst snd] in Ho, Hs.
  eexists. split; [eapply own_row_trans; [exact Hown1|exact Ho]|]. intros ->. rewrite <- Hs. intros a. cbn. by destruct (Hf1 a) as (-> & -> & _).
Qed.

(** ** Claims *)

(** An account's own update touches no other account; refused, it changes
    nothing; accepted, the profile shows the trimmed name and the new choice, and
    keeps what was not given. *)
Theorem profile_update io t acc name show now admin demo :
  let '(status, t') := updateMe io t acc name show now in
  (forall i a, t !! i = Some a -> ar_ID a <> acc -> t' !! i = Some a) /\ length t' = length t /\
  (status = 400 <-> TrimSpace <$> name = Some EmptyString) /\ (status = 400 -> t' = t) /\
  (status = 200 -> forall v, me true t admin demo acc = (200, Some v) ->
     me true t' admin demo acc = (200, Some (mkMe (me_ID v) (default (me_Name v) (TrimSpace <$> name)) (me_IsAdmin v) (default (me_ShowDemo v) show) (me_DemoAvailable v)))).
Proof.
  unfold updateMe. case_bool_decide as Hb.
  { split_and!; try done. }
  destruct (UpdateSelf io t acc (TrimSpace <$> name) show now) as [t' ok] eqn:E. destruct (UpdateSelf_own _ _ _ _ _ _ _ _ E) as (f & (H1 & H2 & H3) & Hf).
  split_and!; [done|done|by destruct ok|by destruct ok|]. destruct ok; [|done]. specialize (Hf eq_refl). intros _ v. unfold me, GetAccount. fold (find_row acc t) (find_row acc t').
  rewrite H3. destruct (find_row acc t) as [a|]; [|done]. cbn. intros [= <-]. destruct (Hf a) as (-> & -> & ->). cbn. done.
Qed.

(** An export restores: a fresh database seeded from a configuration with the
    exported entries exports the same passkeys again, in their order, and lists
    endpoints of the same labels, hosts, ports, users and agent forwarding,
    provided every label is set and every address can be written (C28). *)
Theorem export_roundtrip ParsePublicKey ParseAuthorizedKey newID ts cfg b caller x eps :
  (forall m n, newID m = newID n -> m = n) -> newID 0%nat <> EmptyString ->
  exportSeed b true [] caller = (200, Some x) -> ListForAccount (b_endpoints b) [] caller = Some eps ->
  NoDup (map Passkeys.CredentialID (creds (b_db b))) -> (forall r, r ∈ creds (b_db b) -> Label r <> EmptyString) -> Forall addressable eps ->
  c_SeedAdminPasskeys cfg = map default_passkey (sx_Passkeys x) ->
  parse_all ParseAuthorizedKey 0 (map seed_entry (sx_Endpoints x)) = inl (c_SeedAdminEndpoints cfg) ->
  exists r b' x' eps', goes (FromConfig ParsePublicKey newID cfg ts) fresh r b' /\ sr_Account r = true /\
    exportSeed b' true [] (sr_AdminID r) = (200, Some x') /\ sx_Passkeys x' = sx_Passkeys x /\
    ListForAccount (b_endpoints b') [] (sr_AdminID r) = Some eps' /\ map ep_key eps' ≡ₚ map ep_key eps.
Proof.
  intros Hinj H0 Hx Heps Hnd Hlab Hadr Hpk Hse. unfold exportSeed in Hx. destruct (negb _); [done|]. cbn [negb] in Hx. rewrite Heps in Hx. injection Hx as <-.
  cbn [sx_Passkeys sx_Endpoints] in *. rewrite parse_entries in Hse by done. injection Hse as Hse.
  set (rows := List.filter (fun r => of_account caller r && active r) (creds (b_db b))).
  assert (map export_passkey (ExportSeed (b_db b) caller) = map seedable rows) as Hexp by (unfold ExportSeed; by rewrite map_map).
  assert (map default_passkey (map seedable rows) = map seedable rows) as Hdef.
  { rewrite map_map. apply map_ext_in. intros r [Hr _]%filter_In. unfold default_passkey, seedable, export_passkey. cbn. unfold or_str.
    rewrite bool_decide_false; [done|]. apply Hlab. by apply list_elem_of_In. }
  assert (NoDup (map Passkeys.CredentialID rows)) as Hnd' .
  { by apply NoDup_map_filter. }
  destruct (seed_fresh ParsePublicKey newID ts cfg rows) as (r & b' & Hgo & Hr1 & Hr2 & Hadm & Hk & Hp); [done..|by rewrite Hpk, Hexp, Hdef|].
  destruct (ListForAccount (b_endpoints b') [] (newID 0%nat)) as [eps'|] eqn:Eeps'; [|done].
  eexists r, b', _, eps'. rewrite Hr2. split_and!; [done|done| | |done|].
  - unfold exportSeed, IsAdmin. rewrite Hadm, bool_decide_false by done. cbn [default negb]. rewrite bool_decide_true by done. cbn [negb andb]. by rewrite Eeps'.
  - cbn [sx_Passkeys]. by rewrite Hk, Hexp.
  - rewrite (list_keys _ _ _ Eeps'). etransitivity; [apply (Permutation_map row_key), filter_perm, Hp|]. rewrite <- Hse, filter_all, !map_map; [done|]. apply Forall_forall. intros x (e & <- & _)%list_elem_of_In%in_map_iff. cbn. by rewrite bool_decide_true.
Qed.

(** ** Witnesses *)

Definition demo_accounts : list AccountRow := [mkAccountRow "adm" "admin" true 5 None "t0" "t0" true; mkAccountRow "bob" "Bob" true 5 None "t1" "t1" true]%string.

Example profile_runs : updateMe [] demo_accounts "bob" (Some " Robert ") (Some false) "t2" =
  (200, [mkAccountRow "adm" "admin" true 5 None "t0" "t0" true; mkAccountRow "bob" "Robert" true 5 None "t1" "t2" false]%string).
Proof. by vm_compute. Qed.

Definition demo_boot : boot :=
  mkBoot (mkDB [Passkeys.mkRow "p1" "adm" "cred" "key" 3 ["usb"] "YubiKey" None CredentialStateActive false "t0" None;
                Passkeys.mkRow "p2" "adm" "lost" "yek" 0 [] "Lost" None CredentialStateActive true "t0" None]%string [mkAccount "adm" "admin" 5] (Some "adm"%string))
    (<["e1"%string := PinStore.mkRow "adm" "box" "box.example" 22 "root" "required" None true true "t0" "t0" None [] None None None]>
     (<["e2"%string := PinStore.mkRow "adm" "six" "fe80::1" 2222 "bob" "required" None false true "t1" "t1" None [] None None None]> ∅)).

Definition demo_eps : list Endpoint := Eval vm_compute in default [] (ListForAccount (b_endpoints demo_boot) [] "adm").
Definition demo_export : SeedExport := Eval vm_compute in default (mkSeedExport [] []) (snd (exportSeed demo_boot true [] "adm")).

Definition demo_cfg : Config :=
  mkConfig "" (map entry_of demo_eps) (map default_passkey (sx_Passkeys demo_export)) [] 0 "" TrustNil "localhost" None false
    (mkRateLimits (mkRateLimitRule 0 0) (mkRateLimitRule 0 0) (mkRateLimitRule 0 0) (mkRateLimitRule 0 0)) [] 0 None true
    (SpecFloat.S754_zero false) (SpecFloat.S754_zero false) "" "" "" "" None None None None [] [] 0 0 "" false "" None.

Lemma sample_ids_inj prefix m n : sample_ids prefix m = sample_ids prefix n -> m = n.
Proof. intros H. apply app_str_inj_l, decimal_inj in H; lia. Qed.

Lemma export_roundtrip_witness :
  map ep_key demo_eps = [("box", "box.example", 22, "root", true); ("six", "fe80::1", 2222, "bob", false)]%string /\
  map sp_PublicKeyHex (sx_Passkeys demo_export) = ["6b6579"]%string /\
  exists r b' x' eps', goes (FromConfig sample_parse (sample_ids "new") demo_cfg "t9") fresh r b' /\ sr_Account r = true /\
    exportSeed b' true [] (sr_AdminID r) = (200, Some x') /\ sx_Passkeys x' = sx_Passkeys demo_export /\
    ListForAccount (b_endpoints b') [] (sr_AdminID r) = Some eps' /\ map ep_key eps' ≡ₚ map ep_key demo_eps.
Proof.
  split; [by vm_compute|]. split; [by vm_compute|].
  apply (export_roundtrip sample_parse (fun _ => None) (sample_ids "new") "t9" demo_cfg demo_boot "adm" demo_export demo_eps).
  - apply sample_ids_inj.
  - done.
  - by vm_compute.
  - by vm_compute.
  - apply (bool_decide_unpack _). by vm_compute.
  - cbn [demo_boot b_db creds]. intros r [->|[->|Hr%not_elem_of_nil]%elem_of_cons]%elem_of_cons; done.
  - repeat (constructor; [split_and!; first [by vm_compute | done | cbn; lia | right; by vm_compute | left; by vm_compute]|]). constructor.
  - done.
  - by vm_compute.
Defined.
