(* ===== verification/Boot.v ===== *)
(** * From start to exit (cmd/shellwatch/main.go: run, probeHealth)

    The steps of the server's life in their order, with the deferred calls that
    every way out runs: the configuration, the database and its migration, the
    provisioning of the web client, the seeding, the server, and the ordered
    shutdown. *)
From S2P Require Import Prelude GoStrings Address Config Passkeys PinStore Migrate Seed.
#[local] Open Scope Z_scope.

(** ** Actions *)

Inductive action :=
  | AOpenDB | AMigrate | AProvisionSpa | AStartFlusher | ASeed | APinHostKeys | AListen
  | AShutdown | AHardClose | ADestroyTerminals | AJoinFlusher | AFlush | ACloseHub | AStop | ACloseDB.

#[export] Instance action_eq_decision : EqDecision action.
Proof. solve_decision. Defined.

Inductive stage := SLogging | SConfig (e : load_error) | SOpen | SMigrate (e : migrate_error) | SStatic | SSpa | SSeed | SExtraCa | SServe | SDrain.

(** What the database holds: the schema with its versions, and the rows. *)
Record database := mkDatabase { db_schema : schema; db_rows : boot }.

(** How the server's life ends: the listener fails, or a signal comes, and then
    the open requests are drained in time or not. *)
Inductive life := ServeFails | Signalled (drained : bool).

(** What each step meets. *)
Record start_io := mkStart {
  st_logging : bool; st_open : bool; st_migrate : list bool; st_static : bool; st_spa : bool; st_seed : list bool; st_pins : Config.SeedEndpoint -> pin_io; st_ca : bool; st_life : life }.

Section Boot.
Context (load : string -> Config + load_error).
Context (goose_up : schema -> schema * bool).
Context (ParsePublicKey : list byte -> option SSHWire.ParsedKey) (newID : nat -> string).

(** ** run, after its flags *)

(** The end of the server, from the select on. *)
Definition shutdown (l : life) : list action * option stage :=
  match l with
  | ServeFails => ([AStop; AHardClose; ADestroyTerminals; AJoinFlusher; AFlush], Some SServe)
  | Signalled drained =>
      ([AShutdown] ++ (if drained then [] else [AHardClose]) ++ [ADestroyTerminals; AJoinFlusher; AFlush], if drained then None else Some SDrain)
  end.

(** The deferred calls, the last first. *)
Definition deferred (hub stop : bool) : list action := (if hub then [ACloseHub] else []) ++ (if stop then [AStop] else []) ++ [ACloseDB].

(** The actions, the error, the configuration that was served and the database. *)
Definition run (configPath : string) (now : string) (io : start_io) (db : database) : list action * option stage * option Config * database :=
  if negb (st_logging io) then ([], Some SLogging, None, db) else
  match load configPath with
  | inr e => ([], Some (SConfig e), None, db)
  | inl cfg =>
      if negb (st_open io) then ([], Some SOpen, None, db) else
      match Migrate goose_up (db_schema db, st_migrate io) with
      | ((d, _), inl e) => ([AOpenDB; AMigrate] ++ deferred false false, Some (SMigrate e), None, mkDatabase d (db_rows db))
      | ((d, _), inr _) =>
          let db := mkDatabase d (db_rows db) in
          if negb (st_static io) then ([AOpenDB; AMigrate] ++ deferred false false, Some SStatic, None, db) else
          if negb (st_spa io) then ([AOpenDB; AMigrate; AProvisionSpa] ++ deferred false true, Some SSpa, None, db) else
          match FromConfig ParsePublicKey newID cfg now (db_rows db, st_seed io) with
          | ((b, _), None) => ([AOpenDB; AMigrate; AProvisionSpa; AStartFlusher; ASeed] ++ deferred false true, Some SSeed, None, mkDatabase d b)
          | ((b, _), Some _) =>
              let db := mkDatabase d (mkBoot (b_db b) (ApplyHostKeyPins now cfg (st_pins io) b)) in
              let acts := [AOpenDB; AMigrate; AProvisionSpa; AStartFlusher; ASeed; APinHostKeys] in
              if negb (bool_decide (c_ExtraCaBundlePath cfg = EmptyString)) && negb (st_ca io) then (acts ++ deferred false true, Some SExtraCa, None, db)
              else let '(ending, err) := shutdown (st_life io) in (acts ++ [AListen] ++ ending ++ deferred true true, err, Some cfg, db)
          end
      end
  end.

(** ** The health probe *)

(** [answer] is the status of /health on the port, if it answers. *)
Definition probeHealth (configPath : string) (answer : Z -> option Z) : bool :=
  let port := match load configPath with inl cfg => c_Port cfg | inr _ => 3000 end in
  match answer port with Some status => (200 <=? status) && (status <=? 299) | None => false end.

(** The path of the configuration: a positional argument wins over the flag. *)
Definition config_path (flag : string) (args : list string) : string := match args with a :: _ => a | [] => flag end.

(** ** Small helpers *)

Definition bindHost (HOST : string) : string := if bool_decide (HOST = EmptyString) then "0.0.0.0" else HOST.

Definition firstOrigin (origins : list string) : string := match origins with o :: _ => o | [] => EmptyString end.

(** ** Lemmas *)

(** The database is opened first and closed last, both once. *)
Definition closes (acts : list action) : Prop := acts = [] \/ exists l, acts = AOpenDB :: l ++ [ACloseDB] /\ ACloseDB ∉ l /\ AOpenDB ∉ l.

(** The same, as it is computed. *)
Definition closesb (acts : list action) : bool :=
  let l := removelast (tail acts) in
  bool_decide (acts = []) || bool_decide (acts = AOpenDB :: l ++ [ACloseDB]) && bool_decide (ACloseDB ∉ l) && bool_decide (AOpenDB ∉ l).

Lemma closesb_closes acts : closesb acts = true -> closes acts.
Proof using.
  unfold closesb, closes. intros [H|[[H1 H2]%andb_true_iff H3]%andb_true_iff]%orb_true_iff; [left; by apply bool_decide_eq_true in H|right].
  apply bool_decide_eq_true in H1, H2, H3. eauto.
Qed.

(** The server's end, after it listened. *)
Lemma shutdown_ordered l : exists mid, fst (shutdown l) ++ deferred true true = mid ++ [ADestroyTerminals; AJoinFlusher; AFlush; ACloseHub; AStop; ACloseDB] /\ AListen ∉ mid.
Proof using. destruct l as [|[]]; [exists [AStop; AHardClose]|exists [AShutdown]|exists [AShutdown; AHardClose]]; (split; [done|]); set_solver. Qed.

Definition failed (r : list action * option stage * option Config * database) : Prop :=
  let '(acts, err, served, _) := r in served = None /\ err <> None /\ AListen ∉ acts /\ closes acts.

Lemma failed_at acts e db : bool_decide (AListen ∉ acts) && closesb acts = true -> failed (acts, Some e, None, db).
Proof using. intros [H1%bool_decide_eq_true H2%closesb_closes]%andb_true_iff. by split_and!. Qed.

(** A run that ends before it listens, or the server's whole life. *)
Lemma run_cases configPath now io db :
  failed (run configPath now io db) \/
  exists cfg d io1 b io2 r db', load configPath = inl cfg /\ Migrate goose_up (db_schema db, st_migrate io) = ((d, io1), inr tt) /\
    FromConfig ParsePublicKey newID cfg now (db_rows db, st_seed io) = ((b, io2), Some r) /\ db_schema db' = d /\ b_db (db_rows db') = b_db b /\
    run configPath now io db = ([AOpenDB; AMigrate; AProvisionSpa; AStartFlusher; ASeed; APinHostKeys; AListen] ++ fst (shutdown (st_life io)) ++ deferred true true,
      snd (shutdown (st_life io)), Some cfg, db').
Proof using.
  unfold run. destruct (st_logging io); [|left; by apply failed_at]. cbn [negb]. destruct (load configPath) as [cfg|e] eqn:El; [|left; by apply failed_at].
  destruct (st_open io); [|left; by apply failed_at]. cbn [negb]. destruct (Migrate goose_up _) as [[d io1] [e|[]]] eqn:Em; [left; by apply failed_at|].
  destruct (st_static io); [|left; by apply failed_at]. cbn [negb]. destruct (st_spa io); [|left; by apply failed_at]. cbn [negb].
  cbn [db_rows]. destruct (FromConfig _ _ _ _ _) as [[b io2] [r|]] eqn:Ef; [|left; by apply failed_at].
  destruct (negb _ && negb _); [left; by apply failed_at|]. right.
  exists cfg, d, io1, b, io2, r, (mkDatabase d (mkBoot (b_db b) (ApplyHostKeyPins now cfg (st_pins io) b))). split_and!; try done.
  by destruct (shutdown (st_life io)).
Qed.

(** ** Claims *)

Context (migrations : list Z).
Context (up_applies : forall d d', goose_up d = (d', true) -> applied migrations d' /\ s_journal d' = s_journal d /\ (drizzle_table ∈ s_tables d <-> drizzle_table ∈ s_tables d')).

(** The server listens only with a configuration that loads, a migrated schema,
    an administrator and the configured passkeys; otherwise it ends with an
    error. A database that was opened is closed once, by the last action; and
    once the server listened, its terminals are destroyed, the flusher joined and
    the last flush written before that, in this order (C27). *)
Theorem served_when_ready configPath now io db acts err served db' : run configPath now io db = (acts, err, served, db') ->
  (served = None -> err <> None /\ AListen ∉ acts) /\
  (forall cfg, served = Some cfg ->
     load configPath = inl cfg /\ applied migrations (db_schema db') /\ s_journal (db_schema db') <> [] /\
     is_Some (admin_account (b_db (db_rows db'))) /\ Forall (passkey_done (b_db (db_rows db'))) (c_SeedAdminPasskeys cfg) /\
     exists pre mid, acts = pre ++ [AListen] ++ mid ++ [ADestroyTerminals; AJoinFlusher; AFlush; ACloseHub; AStop; ACloseDB] /\ AListen ∉ pre ++ mid) /\
  closes acts.
Proof using up_applies.
  intros H. destruct (run_cases configPath now io db) as [Hf|(cfg & d & io1 & b & io2 & r & db1 & Hl & Hm & Hs & Hd & Hb & Hr)].
  - rewrite H in Hf. destruct Hf as (-> & He & Ha & Hc). by split_and!.
  - rewrite Hr in H. injection H as <- <- <- <-. destruct (shutdown_ordered (st_life io)) as (mid & Hmid & Hno). split_and!; [done| |].
    + intros cfg' [= <-]. destruct (Migrate_ready _ _ up_applies _ _ _ _ Hm) as [Hap Hj]. rewrite Hd, Hb.
      destruct (FromConfig_goes _ _ _ _ _ _ _ (lucky_FromConfig _ _ _ _ _ _ _ _ _ Hs)) as (_ & Hadm & Hpk & _). split_and!; try done.
      exists [AOpenDB; AMigrate; AProvisionSpa; AStartFlusher; ASeed; APinHostKeys], mid. rewrite Hmid. split; [done|]. set_solver.
    + apply closesb_closes. by destruct (st_life io) as [|[]].
Qed.

End Boot.

(** ** Witnesses *)

Definition demo_start (l : life) (seed_io : list bool) : start_io := mkStart true true [] true true seed_io (fun _ => mkPinIO [] []) true l.
Definition demo_db : database := mkDatabase (mkSchema ∅ [] []) (mkBoot (mkDB [] [] None) ∅).
Definition demo_run (l : life) (seed_io : list bool) := run (fun _ => inl sample_cfg) up_two sample_parse (sample_ids "a") "config.yaml" "t0" (demo_start l seed_io) demo_db.

Lemma served_when_ready_witness : exists acts db',
  demo_run (Signalled false) [] = (acts, Some SDrain, Some sample_cfg, db') /\ is_Some (admin_account (b_db (db_rows db'))) /\
  acts = [AOpenDB; AMigrate; AProvisionSpa; AStartFlusher; ASeed; APinHostKeys; AListen; AShutdown; AHardClose; ADestroyTerminals; AJoinFlusher; AFlush; ACloseHub; AStop; ACloseDB].
Proof.
  destruct (demo_run (Signalled false) []) as [[[acts err] served] db'] eqn:E. destruct (served_when_ready _ _ _ _ _ up_two_applies _ _ _ _ _ _ _ _ E) as (_ & H & _).
  assert (served = Some sample_cfg) as -> by (change served with (snd (fst (acts, err, served, db'))); rewrite <- E; by vm_compute).
  assert (err = Some SDrain) as -> by (change err with (snd (fst (fst (acts, err, Some sample_cfg, db')))); rewrite <- E; by vm_compute).
  exists acts, db'. destruct (H _ eq_refl) as (_ & _ & _ & Ha & _). split_and!; [done|done|].
  change acts with (fst (fst (fst (acts, Some SDrain, Some sample_cfg, db')))). rewrite <- E. by vm_compute.
Defined.

Example seed_failure_stops : let '(acts, err, served, _) := demo_run ServeFails [true; true; false] in
  (acts, err, served) = ([AOpenDB; AMigrate; AProvisionSpa; AStartFlusher; ASeed; AStop; ACloseDB], Some SSeed, None).
Proof. by vm_compute. Qed.
