(* ===== verification/Connect.v ===== *)
(** * Opening a connection, with its logs (cmd/shellwatch/main.go: factory, OnHostKeyMismatch; internal/rest/sessions.go: create)

    Every failed connection, a click in the browser or a call of an agent, is to
    appear once in the account's notification log: the factory of connections
    publishes a refused host key itself, and the wrapper around it publishes
    every failure that was not. *)
From Stdlib Require Import Ascii.
From S2P Require Import Prelude GoStrings Clock PinStore SignAgent HostKeys Passkeys Terminal AuditLog AuditRead KeyDir SshAuth.
#[local] Open Scope Z_scope.

(** ** Data *)

Definition payload : Type := list (string * string).

Record log_world := mkLogWorld { lw_audit : AuditDB; lw_notify : NotifyDB }.

(** What one insert meets: the time, the new id, whether the database answers. *)
Record insert_io := mkInsertIO { ii_now : Z; ii_id : string; ii_ok : bool }.

(** The inserts of a connection: the audit row and the notification of a refused
    key, and the notification of another failure; whether the hub is attached. *)
Record connect_io := mkConnectIO { ci_audit : insert_io; ci_mismatch : insert_io; ci_failed : insert_io; ci_hub : bool; ci_push : bool }.

(** What leaves the server: messages for the account's tabs, and for its push
    subscriptions. *)
Inductive sent := ToTabs (accountID : string) (n : Notification (Payload := payload)) | ToPush (ev : HostKeyMismatchEvent).

Section Connect.
(** encoding/json on payloads, strconv.Quote, and the texts of errors. *)
Context (marshal_payload : payload -> option string) (Quote : string -> string) (error_text : factory_error -> string).

(** ** main.go: OnHostKeyMismatch *)

Definition mismatch_audit (ev : HostKeyMismatchEvent) : HostKeyEvent :=
  let tr := me_Trigger ev in
  mkHKEvent "host-key-mismatch" (me_AccountID ev) (me_EndpointID ev) (me_EndpointLabel ev) (me_EndpointAddress ev) "endpoint-auth"
    (me_ObservedFingerprint ev) (me_PinnedFingerprint ev) "" (tr_SourceIP tr) (tr_Reason tr) (tr_MCPClientName tr) (tr_MCPClientVer tr).

Definition nl : string := String "010"%char EmptyString.

Definition mismatch_params (ev : HostKeyMismatchEvent) (auditID : string) : PublishParams (Payload := payload) :=
  mkPublish (me_AccountID ev) "host-key-mismatch" "error" ("Host key MISMATCH — connection to " ++ Quote (me_EndpointLabel ev) ++ " blocked")
    ("Endpoint:   " ++ me_EndpointLabel ev ++ " (" ++ me_EndpointAddress ev ++ ")" ++ nl ++ "Presented:  " ++ me_ObservedFingerprint ev ++ " (" ++ me_ObservedKeyType ev ++ ")" ++ nl ++
     "Pinned:     " ++ me_PinnedFingerprint ev ++ nl ++ nl ++
     "The connection was refused before authentication. If the host key legitimately changed, forget the pinned key under Settings → Endpoints → Host key.")
    (Some [("endpointId", me_EndpointID ev); ("endpointLabel", me_EndpointLabel ev); ("endpointAddress", me_EndpointAddress ev); ("keyType", me_ObservedKeyType ev);
           ("observedFingerprint", me_ObservedFingerprint ev); ("pinnedFingerprint", me_PinnedFingerprint ev); ("auditId", auditID)]%string).

Definition publish_at (db : NotifyDB) (io : insert_io) (hub : bool) (p : PublishParams (Payload := payload)) : NotifyDB * string * list sent :=
  let '(db', n, push) := Publish marshal_payload db (ii_now io) (ii_id io) (ii_ok io) hub p in
  (db', n_ID n, match push with Some (acc, n) => [ToTabs acc n] | None => [] end).

Definition OnHostKeyMismatch (io : connect_io) (w : log_world) (ev : HostKeyMismatchEvent) : log_world * string * list sent :=
  let '(audit, auditID) := RecordHostKeyEvent (lw_audit w) (ii_now (ci_audit io)) (ii_id (ci_audit io)) (ii_ok (ci_audit io)) (mismatch_audit ev) in
  let '(notify, id, tabs) := publish_at (lw_notify w) (ci_mismatch io) (ci_hub io) (mismatch_params ev auditID) in
  (mkLogWorld audit notify, id, tabs ++ (if ci_push io then [ToPush ev] else [])).

(** ** main.go: factory *)

(** errors.As(err, &already). *)
Definition notified_id (e : factory_error) : option string := match e with DialFailed _ n => n | _ => None end.

Definition trigger_source (tr : Trigger) : string :=
  if bool_decide (tr_MCPClientName tr = EmptyString) then source_text (tr_Kind tr)
  else source_text (tr_Kind tr) ++ " (" ++ tr_MCPClientName tr ++ " " ++ tr_MCPClientVer tr ++ ")".

Definition connect_failed_params (fp : FactoryParams) (e : factory_error) : PublishParams (Payload := payload) :=
  let ep := fp_Endpoint fp in
  let tr := fp_Trigger fp in
  let addr := endpoint_address ep in
  mkPublish (ref_AccountID ep) "session-connect-failed" "warning" ("Connection to " ++ Quote (ref_Label ep) ++ " failed")
    ("Endpoint:  " ++ ref_Label ep ++ " (" ++ addr ++ ")" ++ nl ++ "Source:    " ++ trigger_source tr ++ nl ++ "Error:     " ++ error_text e)
    (Some [("endpointId", ref_ID ep); ("endpointLabel", ref_Label ep); ("endpointAddress", addr); ("trigger", source_text (tr_Kind tr)); ("mcpClientName", tr_MCPClientName tr);
           ("mcpClientVersion", tr_MCPClientVer tr); ("mcpReason", tr_Reason tr); ("sourceIp", tr_SourceIP tr); ("error", error_text e)]%string).

Fixpoint mismatch_call (calls : list factory_call) : option HostKeyMismatchEvent :=
  match calls with [] => None | CallMismatch ev :: _ => Some ev | _ :: calls => mismatch_call calls end.

(** The factory makes at most one mismatch call, which runs the hook. *)
Definition after_calls (io : connect_io) (w : log_world) (calls : list factory_call) : log_world * list sent :=
  match mismatch_call calls with Some ev => let '(w, _, out) := OnHostKeyMismatch io w ev in (w, out) | None => (w, []) end.

Context {T : Type} (dial : list offered -> option SignAgent.Agent -> dial_error + T).

Definition factory (io : connect_io) (w : log_world) (fp : FactoryParams) (connID rpID : string) (fileKeys : list (Signer * string))
  (creds1 creds2 : option (list AuthCredential)) : log_world * list sent * ((factory_error * option string) + T) :=
  let '(calls, r) := open_connection dial (Some (fun ev => snd (fst (OnHostKeyMismatch io w ev)))) true fp connID rpID fileKeys creds1 creds2 in
  let '(w, out) := after_calls io w calls in
  match r with
  | inr t => (w, out, inr t)
  | inl e =>
      match notified_id e with
      | Some id => (w, out, inl (e, Some id))
      | None =>
          let '(notify, id, tabs) := publish_at (lw_notify w) (ci_failed io) (ci_hub io) (connect_failed_params fp e) in
          (mkLogWorld (lw_audit w) notify, out ++ tabs, inl (e, if bool_decide (id = EmptyString) then None else Some id))
      end
  end.

(** sessions.go: the reply to a session that could not be created. *)
Definition create_failed (r : factory_error * option string) : Z * string * option string := (400, error_text (fst r), snd r).

(** ** Lemmas *)

(** A row for [acc] was added under a new id. *)
Definition added (db db' : NotifyDB) (acc kind id : string) : Prop :=
  exists row, nd_rows db !! id = None /\ nr_AccountID row = acc /\ nr_Type row = kind /\ db' = mkNotifyDB (nd_accounts db) (<[id := row]> (nd_rows db)).

Definition ready (db : NotifyDB) (acc : string) (io : insert_io) : Prop := acc ∈ nd_accounts db /\ ii_ok io = true /\ nd_rows db !! ii_id io = None.

Lemma publish_at_spec db io hub p db' id out : publish_at db io hub p = (db', id, out) -> ii_id io <> EmptyString ->
  (exists n, out = (if hub then [ToTabs (pp_AccountID p) n] else []) /\ n_ID n = id) /\
  (id = EmptyString /\ db' = db \/ id = ii_id io /\ added db db' (pp_AccountID p) (pp_Type p) id) /\
  (ready db (pp_AccountID p) io -> pp_Severity p ∈ severity_values -> id = ii_id io).
Proof using.
  unfold publish_at, Publish. destruct (ii_ok io) eqn:Eok.
  - unfold insert_notification. cbn [nr_AccountID nr_ID nr_Severity]. set (ok := bool_decide (pp_AccountID p ∈ nd_accounts db) && _ && _). destruct ok eqn:E; intros H Hne.
    + injection H as <- <- <-. cbn [n_ID]. split_and!; [eexists; split; [by destruct hub|done]| |done].
      right. split; [done|]. apply andb_true_iff in E as [[_ E]%andb_true_iff _]. apply bool_decide_eq_true in E. eexists. split; [exact E|]. split; [|split; [|reflexivity]]; reflexivity.
    + injection H as <- <- <-. cbn [n_ID]. split_and!; [eexists; split; [by destruct hub|done]|by left|]. intros (H1 & _ & H2) Hs. exfalso. revert E. unfold ok.
      rewrite !bool_decide_true by done. cbn [andb]. unfold oneof. by rewrite bool_decide_true.
  - intros H Hne. injection H as <- <- <-. cbn [n_ID]. split_and!; [eexists; split; [by destruct hub|done]|by left|by intros (_ & Hok & _); rewrite Eok in Hok].
Qed.

Definition is_mismatch (e : factory_error) : bool := match e with DialFailed (DialMismatch _) _ => true | _ => false end.

Lemma open_cases f fp connID rpID fileKeys creds1 creds2 calls r :
  open_connection dial (Some f) true fp connID rpID fileKeys creds1 creds2 = (calls, r) ->
  mismatch_call calls = None /\ (exists t, r = inr t) \/
  mismatch_call calls = None /\ (exists e, r = inl e /\ notified_id e = None /\ is_mismatch e = false) \/
  exists m, let ev := mismatch_event fp m in mismatch_call calls = Some ev /\
    r = inl (DialFailed (DialMismatch m) (if bool_decide (f ev = EmptyString) then None else Some (f ev))).
Proof using.
  unfold open_connection. destruct (buildSigners creds1 fileKeys) as [[|o signers]|]; [intros [= <- <-]; right; left; eauto| |intros [= <- <-]; right; left; eauto].
  destruct (dial _ _) as [[m|]|t]; intros [= <- <-]; [right; right; by exists m|right; left; eauto|left; eauto].
Qed.

(** The messages for tabs: the account, and the id of the notification. *)
Definition tabs_of (out : list sent) : list (string * string) :=
  omap (fun x => match x with ToTabs acc n => Some (acc, n_ID n) | ToPush _ => None end) out.

Definition sent_to (acc : string) (x : sent) : Prop := match x with ToTabs a _ => a = acc | ToPush ev => me_AccountID ev = acc end.

Lemma hub_message db io hub p db' id out : publish_at db io hub p = (db', id, out) -> ii_id io <> EmptyString ->
  tabs_of out = (if hub then [(pp_AccountID p, id)] else []) /\ Forall (sent_to (pp_AccountID p)) out.
Proof using.
  intros H Hne. destruct (publish_at_spec _ _ _ _ _ _ _ H Hne) as [(n & -> & <-) _]. destruct hub; split; try done. by repeat constructor.
Qed.

(** What the mismatch hook leaves in the notification log. *)
Lemma mismatch_hook_spec io w ev w' id out : OnHostKeyMismatch io w ev = (w', id, out) -> ii_id (ci_mismatch io) <> EmptyString ->
  (id = EmptyString /\ lw_notify w' = lw_notify w \/ id = ii_id (ci_mismatch io) /\ added (lw_notify w) (lw_notify w') (me_AccountID ev) "host-key-mismatch" id) /\
  (ready (lw_notify w) (me_AccountID ev) (ci_mismatch io) -> id = ii_id (ci_mismatch io)) /\
  tabs_of out = (if ci_hub io then [(me_AccountID ev, id)] else []) /\ Forall (sent_to (me_AccountID ev)) out.
Proof using.
  unfold OnHostKeyMismatch. destruct (RecordHostKeyEvent _ _ _ _ _) as [audit auditID]. destruct (publish_at _ _ _ _) as [[notify id0] tabs] eqn:E.
  intros [= <- <- <-] Hne. destruct (publish_at_spec _ _ _ _ _ _ _ E Hne) as (_ & Hdb & Hrdy). destruct (hub_message _ _ _ _ _ _ _ E Hne) as [Ht Hs].
  cbn [lw_notify mismatch_params pp_AccountID pp_Type pp_Severity] in *. split_and!; [exact Hdb|intros Hr; apply Hrdy; [exact Hr|]| |].
  - apply list_elem_of_In. cbn. auto.
  - unfold tabs_of in *. rewrite omap_app, Ht. destruct (ci_push io); cbn; by rewrite app_nil_r.
  - apply Forall_app. split; [done|]. destruct (ci_push io); by repeat constructor.
Qed.

(** ** Claims *)

(** A connection that comes up leaves the log alone. One that fails is reported
    with the id of the one row it added to its account's log, of the kind of the
    failure, and told to the account's tabs under that id, once; when no row
    could be added the reply carries no id (C26). *)
Theorem failed_connections_logged io w fp connID rpID fileKeys creds1 creds2 w' out r :
  factory io w fp connID rpID fileKeys creds1 creds2 = (w', out, r) ->
  ii_id (ci_mismatch io) <> EmptyString -> ii_id (ci_failed io) <> EmptyString ->
  let acc := ref_AccountID (fp_Endpoint fp) in
  let db := lw_notify w in
  match r with
  | inr _ => w' = w /\ out = []
  | inl (e, n) =>
      match n with
      | Some id => exists kind, added db (lw_notify w') acc kind id /\ (kind = "session-connect-failed" \/ is_mismatch e = true /\ kind = "host-key-mismatch")%string
      | None => lw_notify w' = db
      end /\
      Forall (sent_to acc) out /\
      (ready db acc (ci_failed io) -> n <> None) /\
      (is_mismatch e = true -> ready db acc (ci_mismatch io) -> n = Some (ii_id (ci_mismatch io))) /\
      ((is_mismatch e = true -> ready db acc (ci_mismatch io)) -> tabs_of out = if ci_hub io then [(acc, default EmptyString n)] else [])
  end.
Proof using.
  unfold factory. destruct (open_connection _ _ _ _ _ _ _ _ _) as [calls r0] eqn:Eo. intros H Hm Hf.
  destruct (open_cases _ _ _ _ _ _ _ _ _ Eo) as [(Hc & t & ->)|[(Hc & e & -> & Hn & Hmm)|(m & Hc & ->)]]; unfold after_calls in H; rewrite Hc in H; cbn beta iota zeta in H.
  - by injection H as <- <- <-.
  - rewrite Hn in H. destruct (publish_at _ _ _ _) as [[notify id] tabs] eqn:E. injection H as <- <- <-.
    destruct (publish_at_spec _ _ _ _ _ _ _ E Hf) as (_ & Hdb & Hrdy). destruct (hub_message _ _ _ _ _ _ _ E Hf) as [Ht Hs].
    cbn [lw_notify app connect_failed_params pp_AccountID pp_Type pp_Severity] in *. rewrite Hmm.
    destruct Hdb as [[-> ->]|[-> Hadd]].
    + rewrite bool_decide_true by done. split_and!; try done. intros Hr. exfalso. apply Hf. symmetry. apply Hrdy; [exact Hr|]. apply list_elem_of_In. cbn. auto.
    + rewrite bool_decide_false by done. split_and!; try done. eexists. split; [exact Hadd|by left].
  - set (ev := mismatch_event fp m) in *. destruct (OnHostKeyMismatch io w ev) as [[w1 id] out1] eqn:E. destruct (mismatch_hook_spec _ _ _ _ _ _ E Hm) as (Hdb & Hrdy & Ht & Hs).
    cbn [fst snd notified_id] in H. change (me_AccountID ev) with (ref_AccountID (fp_Endpoint fp)) in *. destruct Hdb as [[-> Hdb]|[-> Hadd]].
    + rewrite bool_decide_true in H by done. destruct (publish_at _ _ _ _) as [[notify id2] tabs] eqn:E2. injection H as <- <- <-.
      destruct (publish_at_spec _ _ _ _ _ _ _ E2 Hf) as (_ & Hdb2 & Hrdy2). destruct (hub_message _ _ _ _ _ _ _ E2 Hf) as [Ht2 Hs2].
      cbn [lw_notify connect_failed_params pp_AccountID pp_Type pp_Severity] in *. rewrite Hdb in *. cbn [is_mismatch].
      assert (ready (lw_notify w) (ref_AccountID (fp_Endpoint fp)) (ci_mismatch io) -> False) as Hno by (intros Hr; apply Hm; symmetry; by apply Hrdy).
      destruct Hdb2 as [[-> ->]|[-> Hadd]].
      * rewrite bool_decide_true by done. split_and!; [done|by apply Forall_app| |by intros _ Hr%Hno|by intros Hr%(fun f => f eq_refl)%Hno].
        intros Hr. exfalso. apply Hf. symmetry. apply Hrdy2; [exact Hr|]. apply list_elem_of_In. cbn. auto.
      * rewrite bool_decide_false by done. split_and!; [eexists; split; [exact Hadd|by left]|by apply Forall_app|done|by intros _ Hr%Hno|by intros Hr%(fun f => f eq_refl)%Hno].
    + rewrite bool_decide_false in H by done. injection H as <- <- <-. cbn [is_mismatch default]. split_and!; [eexists; split; [exact Hadd|by right]|done..].
Qed.

End Connect.

(** ** Witnesses *)

Definition demo_dial : list offered -> option SignAgent.Agent -> SshAuth.dial_error + unit := fun _ _ => inl (DialMismatch sample_mismatch).

Definition demo_world : log_world := mkLogWorld (mkAuditDB ∅ ∅ ∅) (mkNotifyDB {[ref_AccountID sample_endpoint]} ∅).

Definition demo_io (stored : bool) : connect_io := mkConnectIO (mkInsertIO 0 "a1" true) (mkInsertIO 0 "n1" stored) (mkInsertIO 1 "n2" true) true true.

Definition demo_connect (stored : bool) :=
  factory (fun _ => Some "{}"%string) (fun s => s) (fun _ => "refused"%string) demo_dial (demo_io stored) demo_world sample_factory_params "c1" "rp" [(mkSigner (mkKey "ssh-ed25519" [x41]) true, "key"%string)] (Some []) None.

Lemma failed_connections_logged_witness :
  exists w' out e, demo_connect true = (w', out, inl (e, Some "n1"%string)) /\ tabs_of out = [(ref_AccountID sample_endpoint, "n1"%string)].
Proof.
  destruct (demo_connect true) as [[w' out] r] eqn:E. pose proof (failed_connections_logged _ _ _ _ _ _ _ _ _ _ _ _ _ _ _ E ltac:(done) ltac:(done)) as H.
  destruct r as [[e n]|t]; [|exfalso; apply (f_equal snd) in E; by vm_compute in E]. cbn zeta in H. destruct H as (_ & _ & _ & Hid & Htabs).
  assert (is_mismatch e = true) as He by (apply (f_equal snd) in E; vm_compute in E; by injection E as <- _).
  assert (ready (lw_notify demo_world) (ref_AccountID sample_endpoint) (mkInsertIO 0 "n1" true)) as Hr by (split_and!; [cbn; set_solver|done|apply lookup_empty]).
  rewrite (Hid He Hr) in *. exists w', out, e. split; [done|]. by rewrite Htabs.
Defined.

(** When the row of a refused key is not stored, the failure is published a
    second time: the tabs are told twice, the first time without an id. *)
Theorem unstored_mismatch_told_twice :
  exists w' out e, demo_connect false = (w', out, inl (e, Some "n2"%string)) /\ is_mismatch e = true /\
    tabs_of out = [(ref_AccountID sample_endpoint, EmptyString); (ref_AccountID sample_endpoint, "n2"%string)].
Proof. eexists _, _, _. split; [by vm_compute|]. by split. Qed.
