(* ===== verification/Render.v ===== *)
(** * The pages of the sign-in and consent providers (internal/hydra/render.go, style.go)

    The names on these pages come from clients nobody vouched for. A page is read
    the way a browser does, into tags, texts and the raw contents of style and
    script: whatever a client calls itself, the page has the elements of the
    template and shows the name as it is. *)
From Stdlib Require Import Ascii.
From S2P Require Import Prelude GoStrings Address Hydra Providers.
#[local] Open Scope string_scope.

(** The quotation mark. *)
Definition q : string := String "034"%char EmptyString.

(** ** Escaping *)

(** html.EscapeString. *)
Definition escape_char (a : ascii) : string :=
  if Ascii.eqb a "&" then "&amp;"
  else if Ascii.eqb a "<" then "&lt;"
  else if Ascii.eqb a ">" then "&gt;"
  else if Ascii.eqb a "034" then "&#34;"
  else if Ascii.eqb a "'" then "&#39;"
  else String a EmptyString.

Fixpoint esc (s : string) : string := match s with EmptyString => EmptyString | String a s => escape_char a ++ esc s end.

(** strings.ReplaceAll(s, "<", "\u003c"). *)
Fixpoint replace_lt (s : string) : string :=
  match s with EmptyString => EmptyString | String a s => (if Ascii.eqb a "<" then "\u003c" else String a EmptyString) ++ replace_lt s end.

(** ** Parameters of the pages *)

Record ceremonyParams := mkCeremony {
  cp_Title : string; cp_Description : string; cp_OptionsURL : string; cp_VerifyURL : string; cp_Extra : list (string * string); cp_ClientName : string;
  cp_Scopes : list string; cp_ButtonLabel : string; cp_ShowButton : bool; cp_RegisterURL : string; cp_Identity : option clientIdentity }.

Record approveParams := mkApprove {
  ap_Title : string; ap_ApproveURL : string; ap_Extra : list (string * string); ap_ClientName : string; ap_Scopes : list string; ap_ButtonLabel : string;
  ap_Identity : option clientIdentity }.

Section Render.
(** json.Marshal of a text and of a map of texts. *)
Context (marshal_text : string -> string) (marshal_map : list (string * string) -> string).

(** ** Scripts *)

Definition jsonForScript (json : string) : string := replace_lt json.

Definition ceremony_code : string := "
const statusEl=document.getElementById('status');
const btn=document.getElementById('go');
function setStatus(m){statusEl.className='status';statusEl.textContent=m;}
function setError(m){statusEl.className='status err';statusEl.textContent=m;btn.disabled=false;btn.textContent='Try again';}
function b64uToBuf(s){s=s.replace(/-/g,'+').replace(/_/g,'/');const pad=s.length%4;if(pad)s+='='.repeat(4-pad);const bin=atob(s);const u=new Uint8Array(bin.length);for(let i=0;i<bin.length;i++)u[i]=bin.charCodeAt(i);return u.buffer;}
function bufToB64u(b){const u=new Uint8Array(b);let s='';for(const x of u)s+=String.fromCharCode(x);return btoa(s).replace(/\+/g,'-').replace(/\//g,'_').replace(/=+$/,'');}
async function run(){
  btn.disabled=true;setStatus('Requesting passkey…');
  let opt;
  try{const r=await fetch(OPTIONS_URL,{method:'POST',headers:{'content-type':'application/json'},body:JSON.stringify(EXTRA)});opt=await r.json();if(!r.ok||opt.error)throw new Error(opt.error||'Failed to start');}
  catch(e){setError(e.message||'Failed to start');return;}
  const publicKey={challenge:b64uToBuf(opt.challenge),rpId:opt.rpId,timeout:opt.timeout,userVerification:opt.userVerification||'required',allowCredentials:(opt.allowCredentials||[]).map(c=>({id:b64uToBuf(c.id),type:'public-key',transports:c.transports}))};
  let cred;
  try{cred=await navigator.credentials.get({publicKey});}
  catch(e){setError('Passkey prompt was cancelled.');return;}
  const resp={id:cred.id,rawId:bufToB64u(cred.rawId),type:cred.type,clientExtensionResults:cred.getClientExtensionResults?cred.getClientExtensionResults():{},authenticatorAttachment:cred.authenticatorAttachment||undefined,response:{authenticatorData:bufToB64u(cred.response.authenticatorData),clientDataJSON:bufToB64u(cred.response.clientDataJSON),signature:bufToB64u(cred.response.signature),userHandle:cred.response.userHandle?bufToB64u(cred.response.userHandle):undefined}};
  setStatus('Verifying…');
  let ver;
  try{const r=await fetch(VERIFY_URL,{method:'POST',headers:{'content-type':'application/json'},body:JSON.stringify(Object.assign({},EXTRA,{challengeId:opt.challengeId,credential:resp}))});ver=await r.json();if(!r.ok||!ver.redirectTo)throw new Error(ver.error||'Verification failed');}
  catch(e){setError(e.message||'Verification failed');return;}
  setStatus('Success — redirecting…');
  window.location.href=ver.redirectTo;
}
btn.addEventListener('click',run);
".

Definition ceremonyScript (optionsURL verifyURL : string) (extra : list (string * string)) : string :=
  "
const OPTIONS_URL=" ++ jsonForScript (marshal_text optionsURL) ++ ";
const VERIFY_URL=" ++ jsonForScript (marshal_text verifyURL) ++ ";
const EXTRA=" ++ jsonForScript (marshal_map extra) ++ ";" ++ ceremony_code.

Definition approve_code : string := "
const statusEl=document.getElementById('status');
const btn=document.getElementById('go');
function setStatus(m){statusEl.className='status';statusEl.textContent=m;}
function setError(m){statusEl.className='status err';statusEl.textContent=m;btn.disabled=false;}
btn.addEventListener('click',async()=>{
  btn.disabled=true;setStatus('Authorizing…');
  let res;
  try{const r=await fetch(APPROVE_URL,{method:'POST',headers:{'content-type':'application/json'},body:JSON.stringify(EXTRA)});res=await r.json();if(!r.ok||!res.redirectTo)throw new Error(res.error||'Authorization failed');}
  catch(e){setError(e.message||'Authorization failed');return;}
  setStatus('Success — redirecting…');
  window.location.href=res.redirectTo;
});
".

Definition approveScript (approveURL : string) (extra : list (string * string)) : string :=
  "
const APPROVE_URL=" ++ jsonForScript (marshal_text approveURL) ++ ";
const EXTRA=" ++ jsonForScript (marshal_map extra) ++ ";" ++ approve_code.

Definition styleCSS : string := "
@font-face { font-family: " ++ q ++ "Geist" ++ q ++ "; font-style: normal; font-display: swap;
  font-weight: 100 900; src: url(" ++ q ++ "/fonts/geist-latin-wght-normal.woff2" ++ q ++ ") format(" ++ q ++ "woff2-variations" ++ q ++ "); }
@font-face { font-family: " ++ q ++ "Geist Mono" ++ q ++ "; font-style: normal; font-display: swap;
  font-weight: 100 900; src: url(" ++ q ++ "/fonts/geist-mono-latin-wght-normal.woff2" ++ q ++ ") format(" ++ q ++ "woff2-variations" ++ q ++ "); }
:root {
  color-scheme: dark;
  --surface-dim: #0e0e0e;
  --surface-container-low: #131313;
  --surface-container: #1a1a1a;
  --surface-container-high: #1f1f1f;
  --primary: #69f6b8;
  --on-primary-container: #002919;
  --on-surface: #f2f2f2;
  --on-surface-variant: #adaaaa;
  --on-surface-faint: #6a6866;
  --outline-variant: rgba(73, 72, 71, 0.15);
  --error: #ff5a5a;
  --grad-primary: linear-gradient(135deg, #69f6b8 0%, #06b77f 100%);
  --glow-primary: 0 0 24px rgba(105, 246, 184, 0.1);
  --glow-primary-strong: 0 0 32px rgba(105, 246, 184, 0.22);
  --font-ui: " ++ q ++ "Geist" ++ q ++ ", system-ui, sans-serif;
  --font-mono: " ++ q ++ "Geist Mono" ++ q ++ ", ui-monospace, monospace;
  --body-md: 0.875rem;
  --label-sm: 0.65rem;
  --space-2: 0.4rem; --space-4: 0.9rem; --space-5: 1.2rem; --space-7: 2.4rem;
}
* { box-sizing: border-box; }
body { margin: 0; min-height: 100vh; display: flex; align-items: center; justify-content: center;
  font-family: var(--font-ui); background: var(--surface-dim); color: var(--on-surface); }
.card { background: var(--surface-container-low); padding: var(--space-7);
  text-align: center; max-width: 380px; width: 90%; }
.logo { width: 176px; height: 176px; display: block; margin: 0 auto var(--space-2); }
h1 { font-size: 2rem; line-height: 1; margin: 0 0 var(--space-7);
  font-weight: 600; letter-spacing: -0.01em; text-transform: uppercase; white-space: nowrap; }
.wordmark-shell { color: #12a26f; }
.wordmark-watch { color: #f0efea; }
p { color: var(--on-surface-variant); font-size: var(--body-md); line-height: 1.5;
  margin: 0 0 var(--space-5); }
.lead { text-align: left; }
.scopes { list-style: none; padding: 0; margin: 0 0 var(--space-5); text-align: left; }
.scopes li { background: var(--surface-container); border: 1px solid var(--outline-variant);
  padding: 8px 12px; margin-bottom: 6px; font-size: 13px; font-family: var(--font-mono);
  color: var(--on-surface-variant); }
.client { font-weight: 600; color: var(--primary); }
button { width: 100%; padding: 0.75rem 2rem; border: 0; cursor: pointer;
  background: var(--grad-primary); color: var(--on-primary-container);
  font-family: var(--font-ui); font-size: var(--body-md); font-weight: 600;
  letter-spacing: 0.02em; box-shadow: var(--glow-primary); transition: box-shadow 0.2s; }
button:hover { box-shadow: var(--glow-primary-strong); }
button:disabled { background: var(--surface-container-high); color: var(--on-surface-faint);
  box-shadow: none; cursor: default; }
.status { font-family: var(--font-mono); color: var(--on-surface-variant); font-size: var(--label-sm);
  text-transform: uppercase; letter-spacing: 0.14em; margin-top: var(--space-4); min-height: 1em; }
.status.err { color: var(--error); text-transform: none; letter-spacing: normal;
  font-family: var(--font-ui); font-size: var(--body-md); }
.muted { color: var(--on-surface-faint); font-size: var(--label-sm); margin-top: var(--space-5);
  text-transform: uppercase; letter-spacing: 0.14em; }
.register-link { margin-top: var(--space-5); font-size: var(--body-md); color: var(--on-surface-variant); }
.register-link a { color: var(--primary); text-decoration: none; }
.register-link a:hover { text-decoration: underline; }
/* CIMD client identity (#242). The hostname leads, because it is the only part
   of a URL client_id an attacker cannot choose freely
   (draft-ietf-oauth-client-id-metadata-document-02 §9.1); client_name is a
   self-assigned claim and is presented as one. */
.cimd-id { background: var(--surface-container); border: 1px solid var(--outline-variant);
  padding: var(--space-4); margin: 0 0 var(--space-5); text-align: left; }
.cimd-host-label { color: var(--on-surface-faint); font-size: var(--label-sm);
  text-transform: uppercase; letter-spacing: 0.14em; margin-bottom: var(--space-2); }
.cimd-host { font-family: var(--font-mono); font-size: 1rem; font-weight: 600;
  color: var(--on-surface); overflow-wrap: anywhere; }
.cimd-meta { color: var(--on-surface-variant); font-size: var(--body-md);
  margin: var(--space-2) 0 0; overflow-wrap: anywhere; }
.cimd-meta .claim { font-family: var(--font-mono); color: var(--on-surface); }
.first-seen { background: rgba(255, 196, 0, 0.08); border: 1px solid rgba(255, 196, 0, 0.3);
  color: var(--on-surface); font-size: var(--body-md); text-align: left;
  padding: var(--space-4); margin: 0 0 var(--space-5); }
".

(** ** Pages *)

Definition page (title inner script : string) : string :=
  let scriptTag := if bool_decide (script = EmptyString) then EmptyString else "
<script>" ++ script ++ "</script>" in
  "<!doctype html><html lang=" ++ q ++ "en" ++ q ++ "><head><meta charset=" ++ q ++ "utf-8" ++ q ++ ">
<meta name=" ++ q ++ "viewport" ++ q ++ " content=" ++ q ++ "width=device-width, initial-scale=1" ++ q ++ ">
<title>" ++ esc title ++ "</title><style>" ++ styleCSS ++ "</style></head>
<body><div class=" ++ q ++ "card" ++ q ++ ">
<img class=" ++ q ++ "logo" ++ q ++ " src=" ++ q ++ "/logo.svg" ++ q ++ " alt=" ++ q ++ q ++ ">
<h1><span class=" ++ q ++ "wordmark-shell" ++ q ++ ">SHELL</span><span class=" ++ q ++ "wordmark-watch" ++ q ++ ">WATCH</span></h1>
" ++ inner ++ "
</div>" ++ scriptTag ++ "
</body></html>".

Definition class_ (name : string) : string := " class=" ++ q ++ name ++ q.

Fixpoint scope_items (scopes : list string) : string := match scopes with [] => EmptyString | s :: scopes => "<li>" ++ esc s ++ "</li>" ++ scope_items scopes end.

Definition consentBody (description clientName : string) (scopes : list string) (identity : option clientIdentity) : string :=
  (if bool_decide (description = EmptyString) then EmptyString else "<p>" ++ esc description ++ "</p>") ++
  match identity with
  | Some i =>
      "<div" ++ class_ "cimd-id" ++ ">" ++ "<div" ++ class_ "cimd-host-label" ++ ">Client hosted at</div>" ++ "<div" ++ class_ "cimd-host" ++ ">" ++ esc (id_Host i) ++ "</div>" ++
      (if bool_decide (clientName = EmptyString) then EmptyString
       else "<p" ++ class_ "cimd-meta" ++ ">calls itself <span" ++ class_ "claim" ++ ">" ++ esc clientName ++ "</span></p>") ++
      (if bool_decide (id_ClientURIHost i = EmptyString) then EmptyString
       else "<p" ++ class_ "cimd-meta" ++ ">home page: <span" ++ class_ "claim" ++ ">" ++ esc (id_ClientURIHost i) ++ "</span></p>") ++
      "</div>" ++
      (if id_Recent i then "<p" ++ class_ "first-seen" ++ ">This client was registered or last changed less than an hour ago.</p>" else EmptyString) ++
      "<p" ++ class_ "lead" ++ ">It is requesting access to your ShellWatch account with these scopes:</p>"
  | None =>
      if bool_decide (clientName = EmptyString) then EmptyString
      else "<p" ++ class_ "lead" ++ "><span" ++ class_ "client" ++ ">" ++ esc clientName ++ "</span> is requesting access to your ShellWatch account with these scopes:</p>"
  end ++
  (match scopes with [] => EmptyString | _ => "<ul" ++ class_ "scopes" ++ ">" ++ scope_items scopes ++ "</ul>" end).

Definition or_label (label default : string) : string := if bool_decide (label = EmptyString) then default else label.

Definition go_button (label : string) : string := "<button id=" ++ q ++ "go" ++ q ++ ">" ++ esc label ++ "</button>
<div id=" ++ q ++ "status" ++ q ++ class_ "status" ++ "></div>".

Definition renderPasskeyPage (p : ceremonyParams) : string :=
  let button := if cp_ShowButton p then go_button (or_label (cp_ButtonLabel p) "Continue with passkey") else EmptyString in
  let script := if cp_ShowButton p then ceremonyScript (cp_OptionsURL p) (cp_VerifyURL p) (cp_Extra p) else EmptyString in
  let registerLink := if bool_decide (cp_RegisterURL p = EmptyString) then EmptyString
    else "<p" ++ class_ "register-link" ++ "><a href=" ++ q ++ esc (cp_RegisterURL p) ++ q ++ ">Create new account</a></p>" in
  page (cp_Title p) (consentBody (cp_Description p) (cp_ClientName p) (cp_Scopes p) (cp_Identity p) ++ "
" ++ button ++ registerLink ++ "
" ++ "<div" ++ class_ "muted" ++ ">Passkey-only authentication</div>") script.

Definition renderApprovePage (p : approveParams) : string :=
  page (ap_Title p) (consentBody "" (ap_ClientName p) (ap_Scopes p) (ap_Identity p) ++ "
" ++ go_button (or_label (ap_ButtonLabel p) "Approve") ++ "
<div" ++ class_ "muted" ++ ">You're signed in — approve to continue.</div>") (approveScript (ap_ApproveURL p) (ap_Extra p)).

Definition renderErrorPage (errMsg description : string) : string :=
  let msg := or_label (or_label description errMsg) "Something went wrong during authentication." in
  page "Authentication error" ("<p>" ++ esc msg ++ "</p>
<a href=" ++ q ++ "/" ++ q ++ " style=" ++ q ++ "text-decoration:none" ++ q ++ "><button id=" ++ q ++ "go" ++ q ++ ">Back to ShellWatch</button></a>") "".

(** ** The pages of the handlers (routes.go) *)

Definition html_of (a : answer) : option string :=
  match a with
  | HTMLError _ code description => Some (renderErrorPage code description)
  | LoginPage challenge description showButton registerURL =>
      Some (renderPasskeyPage (mkCeremony "Sign in · ShellWatch" description "/api/hydra/login/options" "/api/hydra/login/verify" [("login_challenge", challenge)]
              "" [] "" showButton registerURL None))
  | ApprovePage challenge clientName scopes identity =>
      Some (renderApprovePage (mkApprove "Authorize · ShellWatch" "/api/hydra/consent/approve" [("consent_challenge", challenge)] clientName scopes "" identity))
  | PasskeyPage challenge clientName scopes identity =>
      Some (renderPasskeyPage (mkCeremony "Authorize · ShellWatch" "" "/api/hydra/consent/options" "/api/hydra/consent/verify" [("consent_challenge", challenge)]
              clientName scopes "" true "" identity))
  | _ => None
  end.

End Render.

(** ** Reading a page *)

Inductive token := Tag (t : string) | Text (s : string) | RawText (s : string).

Inductive mode := Outside | Inside | InRaw.

Definition flush (k : string -> token) (acc : string) : list token := match acc with EmptyString => [] | _ => [k acc] end.

(** The elements whose contents are not markup. *)
Definition raw_element (tag : string) : bool := String.eqb tag "style" || String.eqb tag "script".

(** The tags and the texts of a page; the contents of a raw element end at the
    next end tag. *)
Fixpoint tokens_from (m : mode) (acc s : string) : list token :=
  match s with
  | EmptyString => match m with Outside => flush Text acc | Inside => [Tag acc] | InRaw => flush RawText acc end
  | String c s =>
      match m with
      | Outside => if Ascii.eqb c "<" then flush Text acc ++ tokens_from Inside "" s else tokens_from Outside (acc ++ String c "")%string s
      | Inside => if Ascii.eqb c ">" then Tag acc :: tokens_from (if raw_element acc then InRaw else Outside) "" s else tokens_from Inside (acc ++ String c "")%string s
      | InRaw => if Ascii.eqb c "<" && HasPrefix s "/" then flush RawText acc ++ tokens_from Inside "" s else tokens_from InRaw (acc ++ String c "")%string s
      end
  end%list.

Definition tokens (s : string) : list token := tokens_from Outside "" s.

Fixpoint starts (p s : string) : bool :=
  match p, s with EmptyString, _ => true | String a p, String b s => Ascii.eqb a b && starts p s | _, EmptyString => false end.

(** The character references the escaping uses, and how many characters follow
    their first. *)
Definition entity (s : string) : option (ascii * nat) :=
  if starts "&amp;" s then Some ("&"%char, 4%nat)
  else if starts "&lt;" s then Some ("<"%char, 3%nat)
  else if starts "&gt;" s then Some (">"%char, 3%nat)
  else if starts "&#34;" s then Some ("034"%char, 4%nat)
  else if starts "&#39;" s then Some ("'"%char, 4%nat)
  else None.

Fixpoint unescape_from (skip : nat) (s : string) : string :=
  match s with
  | EmptyString => EmptyString
  | String c r =>
      match skip with
      | S k => unescape_from k r
      | O => match entity s with Some (ch, n) => String ch (unescape_from n r) | None => String c (unescape_from 0 r) end
      end
  end.

Definition unescape (s : string) : string := unescape_from 0 s.

(** What is shown. *)
Definition shown (t : token) : token := match t with Text s => Text (unescape s) | t => t end.

(** ** Templates: a page as its pieces *)

Inductive piece := PConst (c : string) | PTag (t : string) | PVal (v : string) | PRaw (t contents : string).

Fixpoint flat (ps : list piece) : string :=
  match ps with
  | [] => EmptyString
  | PConst c :: ps => c ++ flat ps
  | PTag t :: ps => "<" ++ t ++ ">" ++ flat ps
  | PVal v :: ps => esc v ++ flat ps
  | PRaw t v :: ps => "<" ++ t ++ ">" ++ v ++ "</" ++ t ++ ">" ++ flat ps
  end%string.

(** The tokens of a template, its values as they are. *)
Fixpoint layout_from (acc : string) (ps : list piece) : list token :=
  match ps with
  | [] => flush Text acc
  | PConst c :: ps => layout_from (acc ++ c)%string ps
  | PVal v :: ps => layout_from (acc ++ v)%string ps
  | PTag t :: ps => flush Text acc ++ Tag t :: layout_from "" ps
  | PRaw t v :: ps => flush Text acc ++ Tag t :: flush RawText v ++ Tag ("/" ++ t) :: layout_from "" ps
  end%list.

Definition layout (ps : list piece) : list token := layout_from "" ps.

(** ** Lemmas *)

Lemma tokens_text v acc r : without "<" v = true -> tokens_from Outside acc (v ++ r) = tokens_from Outside (acc ++ v) r.
Proof.
  revert acc. induction v as [|c v IH]; intros acc H; [by rewrite app_str_nil, app_str_nil_r|]. unfold without in H. cbn [forall_str] in H. apply andb_true_iff in H as [Hc Hv].
  apply negb_true_iff, bool_decide_eq_false in Hc. rewrite app_str_cons. cbn [tokens_from]. rewrite (proj2 (Ascii.eqb_neq c "<") Hc), IH by done. by rewrite app_str_assoc.
Qed.

Lemma tokens_tag t acc r : without ">" t = true ->
  tokens_from Inside acc (t ++ ">" ++ r) = (Tag (acc ++ t) :: tokens_from (if raw_element (acc ++ t) then InRaw else Outside) "" r)%list.
Proof.
  revert acc. induction t as [|c t IH]; intros acc H; [by rewrite app_str_nil, app_str_nil_r|]. unfold without in H. cbn [forall_str] in H. apply andb_true_iff in H as [Hc Ht].
  apply negb_true_iff, bool_decide_eq_false in Hc. rewrite app_str_cons. cbn [tokens_from]. rewrite (proj2 (Ascii.eqb_neq c ">") Hc), IH by done. by rewrite !app_str_assoc.
Qed.

(** Contents of a raw element that do not end it. *)
Fixpoint raw_ok (s : string) : bool :=
  match s with
  | EmptyString => true
  | String c r => (negb (Ascii.eqb c "<") || match r with EmptyString => false | String d _ => negb (Ascii.eqb d "/") end) && raw_ok r
  end.

Lemma raw_ok_app v w : without "<" v = true -> raw_ok w = true -> raw_ok (v ++ w) = true.
Proof.
  intros Hv Hw. induction v as [|c v IH]; [done|]. unfold without in Hv. cbn [forall_str] in Hv. apply andb_true_iff in Hv as [Hc Hv]. apply negb_true_iff, bool_decide_eq_false in Hc.
  rewrite app_str_cons. cbn [raw_ok]. by rewrite (proj2 (Ascii.eqb_neq c "<") Hc), IH.
Qed.

Lemma tokens_raw v acc r : raw_ok v = true -> tokens_from InRaw acc (v ++ r) = tokens_from InRaw (acc ++ v) r.
Proof.
  revert acc. induction v as [|c v IH]; intros acc H; [by rewrite app_str_nil, app_str_nil_r|]. cbn [raw_ok] in H. apply andb_true_iff in H as [Hc Hv].
  rewrite app_str_cons. cbn [tokens_from].
  assert (Ascii.eqb c "<" && HasPrefix (v ++ r) "/" = false) as ->.
  { destruct (Ascii.eqb c "<"); [|done]. cbn in Hc. destruct v as [|d v]; [done|]. rewrite app_str_cons. apply negb_true_iff in Hc. cbn [HasPrefix andb].
    apply Ascii.eqb_neq in Hc. by rewrite bool_decide_false. }
  rewrite IH by done. by rewrite app_str_assoc.
Qed.

(** [e] is a text whose reading is [p], whatever follows. *)
Definition reads (e p : string) : Prop := forall r, unescape (e ++ r) = p ++ unescape r.

Lemma reads_app e1 p1 e2 p2 : reads e1 p1 -> reads e2 p2 -> reads (e1 ++ e2) (p1 ++ p2).
Proof. intros H1 H2 r. by rewrite !app_str_assoc, H1, H2. Qed.

Lemma reads_nil : reads "" "".
Proof. done. Qed.

Lemma reads_plain c : without "&" c = true -> reads c c.
Proof.
  induction c as [|a c IH]; intros H r; [done|]. unfold without in H. cbn [forall_str] in H. apply andb_true_iff in H as [Ha Hc]. apply negb_true_iff, bool_decide_eq_false in Ha.
  rewrite !app_str_cons. unfold unescape in *. cbn [unescape_from]. assert (entity (String a (c ++ r)) = None) as ->; [|pose proof (IH Hc r) as HI; unfold unescape in HI; by rewrite HI].
  unfold entity. cbn [starts]. rewrite (proj2 (Ascii.eqb_neq "&" a)) by congruence. done.
Qed.

Lemma reads_char a : reads (escape_char a) (String a EmptyString).
Proof. intros r. destruct a as [[] [] [] [] [] [] [] []]; reflexivity. Qed.

Lemma reads_esc v : reads (esc v) v.
Proof. induction v as [|a v IH]; [exact reads_nil|]. exact (reads_app _ _ _ _ (reads_char a) IH). Qed.

(** Escaping is undone by reading. *)
Lemma unescape_esc v : unescape (esc v) = v.
Proof. pose proof (reads_esc v "") as H. by rewrite !app_str_nil_r in H. Qed.

Lemma reads_empty e p : reads e p -> e = EmptyString <-> p = EmptyString.
Proof.
  intros H. specialize (H ""). rewrite app_str_nil_r in H. change (unescape "") with EmptyString in H. rewrite app_str_nil_r in H. subst p. destruct e as [|c e]; [done|].
  split; [done|]. unfold unescape. cbn [unescape_from]. destruct (entity _) as [[ch n]|]; done.
Qed.

Lemma shown_flush e p : reads e p -> map shown (flush Text e) = flush Text p.
Proof.
  intros H. pose proof (reads_empty _ _ H) as [H1 H2]. pose proof (H "") as Hr. rewrite !app_str_nil_r in Hr.
  destruct e as [|c e]; [by rewrite (H1 eq_refl)|]. destruct p as [|d p]; [by discriminate (H2 eq_refl)|]. cbn [flush map shown]. by rewrite Hr.
Qed.

Lemma esc_without v : without "<" (esc v) = true /\ without ">" (esc v) = true.
Proof.
  unfold without. induction v as [|a v [IH1 IH2]]; [done|]. cbn [esc]. rewrite !forall_app_str, IH1, IH2. destruct a as [[] [] [] [] [] [] [] []]; by split.
Qed.

Definition piece_ok (x : piece) : bool :=
  match x with
  | PConst c => without "<" c && without "&" c
  | PTag t => without ">" t && negb (raw_element t)
  | PVal _ => true
  | PRaw t v => without ">" t && raw_element t && raw_ok v
  end.

(** A page made from a template is read as the template's elements with the
    values as they are. *)
Lemma tokens_flat ps e p : forallb piece_ok ps = true -> reads e p -> map shown (tokens_from Outside e (flat ps)) = layout_from p ps.
Proof.
  revert e p. induction ps as [|x ps IH]; intros e p Hok Hr; [by apply shown_flush|]. cbn [forallb] in Hok. apply andb_true_iff in Hok as [Hx Hok].
  destruct x as [c|t|v|t v]; cbn [flat layout_from piece_ok] in *.
  - apply andb_true_iff in Hx as [Hx1 Hx2]. rewrite tokens_text by done. apply IH; [done|]. apply reads_app; [done|by apply reads_plain].
  - apply andb_true_iff in Hx as [Hx1 Hx2%negb_true_iff]. rewrite app_str_cons. cbn [tokens_from Ascii.eqb eqb]. change (Ascii.eqb "<" "<") with true. cbn iota. rewrite map_app, (shown_flush _ _ Hr).
    rewrite app_str_nil, tokens_tag, app_str_nil, Hx2 by done. cbn [map shown]. by rewrite (IH "" "").
  - rewrite tokens_text by apply esc_without. apply IH; [done|]. apply reads_app; [done|apply reads_esc].
  - apply andb_true_iff in Hx as [[Hx1 Hx2]%andb_true_iff Hx3]. rewrite app_str_cons. cbn [tokens_from]. change (Ascii.eqb "<" "<") with true. cbn iota. rewrite map_app, (shown_flush _ _ Hr).
    rewrite app_str_nil, tokens_tag, app_str_nil, Hx2 by done. cbn [map shown]. rewrite tokens_raw, app_str_nil by done.
    change ("</" ++ t ++ ">" ++ flat ps) with (String "<" (("/" ++ t) ++ ">" ++ flat ps)). cbn [tokens_from]. assert (Ascii.eqb "<" "<" && HasPrefix (("/" ++ t) ++ ">" ++ flat ps) "/" = true) as -> by (rewrite !app_str_cons; cbn [HasPrefix]; by rewrite HasPrefix_nil).
    rewrite map_app. rewrite tokens_tag by (unfold without in *; rewrite app_str_cons, app_str_nil; cbn [forall_str]; by rewrite Hx1). rewrite app_str_nil.
    assert (raw_element ("/" ++ t) = false) as -> by done. cbn [map shown]. rewrite (IH "" "") by done. by destruct v.
Qed.

(** ** The templates *)

Definition nl : string := String "010"%char EmptyString.

Definition cls (tag name : string) : piece := PTag (tag ++ class_ name).

(** A part that is there when its value is. *)
Definition when (v : string) (ps : list piece) : list piece := if bool_decide (v = EmptyString) then [] else ps.

Definition consent_pieces (description clientName : string) (scopes : list string) (identity : option clientIdentity) : list piece :=
  (when description [PTag "p"; PVal description; PTag "/p"] ++
   match identity with
   | Some i =>
       [cls "div" "cimd-id"; cls "div" "cimd-host-label"; PConst "Client hosted at"; PTag "/div"; cls "div" "cimd-host"; PVal (id_Host i); PTag "/div"] ++
       when clientName [cls "p" "cimd-meta"; PConst "calls itself "; cls "span" "claim"; PVal clientName; PTag "/span"; PTag "/p"] ++
       when (id_ClientURIHost i) [cls "p" "cimd-meta"; PConst "home page: "; cls "span" "claim"; PVal (id_ClientURIHost i); PTag "/span"; PTag "/p"] ++
       [PTag "/div"] ++
       (if id_Recent i then [cls "p" "first-seen"; PConst "This client was registered or last changed less than an hour ago."; PTag "/p"] else []) ++
       [cls "p" "lead"; PConst "It is requesting access to your ShellWatch account with these scopes:"; PTag "/p"]
   | None =>
       when clientName [cls "p" "lead"; cls "span" "client"; PVal clientName; PTag "/span"; PConst " is requesting access to your ShellWatch account with these scopes:"; PTag "/p"]
   end ++
   match scopes with
   | [] => []
   | _ => cls "ul" "scopes" :: concat (map (fun s => [PTag "li"; PVal s; PTag "/li"]) scopes) ++ [PTag "/ul"]
   end)%list.

Definition button_pieces (label : string) : list piece :=
  [PTag ("button id=" ++ q ++ "go" ++ q); PVal label; PTag "/button"; PConst nl; PTag ("div id=" ++ q ++ "status" ++ q ++ class_ "status"); PTag "/div"].

Definition page_pieces (title : string) (inner : list piece) (script : string) : list piece :=
  ([PTag "!doctype html"; PTag ("html lang=" ++ q ++ "en" ++ q); PTag "head"; PTag ("meta charset=" ++ q ++ "utf-8" ++ q); PConst nl;
    PTag ("meta name=" ++ q ++ "viewport" ++ q ++ " content=" ++ q ++ "width=device-width, initial-scale=1" ++ q); PConst nl; PTag "title"; PVal title; PTag "/title"; PRaw "style" styleCSS;
    PTag "/head"; PConst nl; PTag "body"; cls "div" "card"; PConst nl; PTag ("img class=" ++ q ++ "logo" ++ q ++ " src=" ++ q ++ "/logo.svg" ++ q ++ " alt=" ++ q ++ q); PConst nl; PTag "h1";
    cls "span" "wordmark-shell"; PConst "SHELL"; PTag "/span"; cls "span" "wordmark-watch"; PConst "WATCH"; PTag "/span"; PTag "/h1"; PConst nl] ++
   inner ++ [PConst nl; PTag "/div"] ++ when script [PConst nl; PRaw "script" script] ++ [PConst nl; PTag "/body"; PTag "/html"])%list.

Section Templates.
Context (marshal_text : string -> string) (marshal_map : list (string * string) -> string).

Definition passkey_pieces (p : ceremonyParams) : list piece :=
  page_pieces (cp_Title p)
    (consent_pieces (cp_Description p) (cp_ClientName p) (cp_Scopes p) (cp_Identity p) ++ [PConst nl] ++
     (if cp_ShowButton p then button_pieces (or_label (cp_ButtonLabel p) "Continue with passkey") else []) ++
     when (cp_RegisterURL p) [cls "p" "register-link"; PTag ("a href=" ++ q ++ esc (cp_RegisterURL p) ++ q); PConst "Create new account"; PTag "/a"; PTag "/p"] ++
     [PConst nl; cls "div" "muted"; PConst "Passkey-only authentication"; PTag "/div"])
    (if cp_ShowButton p then ceremonyScript marshal_text marshal_map (cp_OptionsURL p) (cp_VerifyURL p) (cp_Extra p) else "").

Definition approve_pieces (p : approveParams) : list piece :=
  page_pieces (ap_Title p)
    (consent_pieces "" (ap_ClientName p) (ap_Scopes p) (ap_Identity p) ++ [PConst nl] ++ button_pieces (or_label (ap_ButtonLabel p) "Approve") ++
     [PConst nl; cls "div" "muted"; PConst "You're signed in — approve to continue."; PTag "/div"])
    (approveScript marshal_text marshal_map (ap_ApproveURL p) (ap_Extra p)).

Definition error_pieces (errMsg description : string) : list piece :=
  page_pieces "Authentication error"
    [PTag "p"; PVal (or_label (or_label description errMsg) "Something went wrong during authentication."); PTag "/p"; PConst nl;
     PTag ("a href=" ++ q ++ "/" ++ q ++ " style=" ++ q ++ "text-decoration:none" ++ q); PTag ("button id=" ++ q ++ "go" ++ q); PConst "Back to ShellWatch"; PTag "/button"; PTag "/a"] "".

(** The template of each page. *)
Definition template_of (a : answer) : list piece :=
  match a with
  | HTMLError _ code description => error_pieces code description
  | LoginPage challenge description showButton registerURL =>
      passkey_pieces (mkCeremony "Sign in · ShellWatch" description "/api/hydra/login/options" "/api/hydra/login/verify" [("login_challenge", challenge)]
        "" [] "" showButton registerURL None)
  | ApprovePage challenge clientName scopes identity =>
      approve_pieces (mkApprove "Authorize · ShellWatch" "/api/hydra/consent/approve" [("consent_challenge", challenge)] clientName scopes "" identity)
  | PasskeyPage challenge clientName scopes identity =>
      passkey_pieces (mkCeremony "Authorize · ShellWatch" "" "/api/hydra/consent/options" "/api/hydra/consent/verify" [("consent_challenge", challenge)]
        clientName scopes "" true "" identity)
  | _ => []
  end.

Lemma flat_app ps1 ps2 : flat (ps1 ++ ps2)%list = flat ps1 ++ flat ps2.
Proof using. induction ps1 as [|[] ps1 IH]; [done|..]; cbn [app flat]; by rewrite IH, !app_str_assoc. Qed.

Lemma flat_scopes scopes : flat (concat (map (fun s => [PTag "li"; PVal s; PTag "/li"]) scopes)) = scope_items scopes.
Proof using. induction scopes as [|s l IH]; [done|]. cbn [map concat]. rewrite flat_app, IH. cbn [flat scope_items]. by rewrite !app_str_assoc, ?app_str_nil_r. Qed.

Lemma flat_when v ps : flat (when v ps) = if bool_decide (v = EmptyString) then EmptyString else flat ps.
Proof using. unfold when. by case_bool_decide. Qed.

#[local] Ltac same_text := rewrite ?app_str_assoc, ?app_str_nil_r; reflexivity.

Lemma flat_consent d n scopes i : flat (consent_pieces d n scopes i) = consentBody d n scopes i.
Proof using.
  unfold consent_pieces, consentBody. rewrite !flat_app. f_equal; [rewrite flat_when; case_bool_decide; [done|cbn [flat]; same_text]|]. f_equal.
  - destruct i as [i|]; [|rewrite flat_when; case_bool_decide; [done|cbn [flat cls]; same_text]]. rewrite !flat_app, !flat_when.
    case_bool_decide; case_bool_decide; destruct (id_Recent i); cbn [flat cls]; same_text.
  - destruct scopes as [|s l]; [done|]. change (flat (cls "ul" "scopes" :: ?x)) with ("<ul" ++ class_ "scopes" ++ ">" ++ flat x). rewrite flat_app, flat_scopes. cbn [flat]. same_text.
Qed.

Lemma flat_button label : flat (button_pieces label) = go_button label.
Proof using. unfold go_button, button_pieces. cbn [flat]. same_text. Qed.

Lemma flat_page title inner script : flat (page_pieces title inner script) = page title (flat inner) script.
Proof using.
  unfold page_pieces, page. rewrite !flat_app, flat_when. case_bool_decide; cbn [flat cls]; same_text.
Qed.

Lemma flat_passkey p : flat (passkey_pieces p) = renderPasskeyPage marshal_text marshal_map p.
Proof using.
  unfold passkey_pieces, renderPasskeyPage. rewrite flat_page, !flat_app, flat_consent, flat_when. f_equal. destruct (cp_ShowButton p); [rewrite flat_button|]; case_bool_decide; cbn [flat cls]; same_text.
Qed.

Lemma flat_approve p : flat (approve_pieces p) = renderApprovePage marshal_text marshal_map p.
Proof using. unfold approve_pieces, renderApprovePage. rewrite flat_page, !flat_app, flat_consent, flat_button. f_equal. Qed.

Lemma flat_error e d : flat (error_pieces e d) = renderErrorPage e d.
Proof using. unfold error_pieces, renderErrorPage. rewrite flat_page. f_equal. Qed.

Lemma replace_lt_without s : without "<" (replace_lt s) = true.
Proof using. unfold without. induction s as [|a s IH]; [done|]. cbn [replace_lt]. rewrite forall_app_str, IH. destruct a as [[] [] [] [] [] [] [] []]; reflexivity. Qed.

Lemma ceremony_raw_ok o v e : raw_ok (ceremonyScript marshal_text marshal_map o v e) = true.
Proof using. unfold ceremonyScript, jsonForScript. do 7 (apply raw_ok_app; [first [apply replace_lt_without | by vm_compute]|]). by vm_compute. Qed.

Lemma approve_raw_ok u e : raw_ok (approveScript marshal_text marshal_map u e) = true.
Proof using. unfold approveScript, jsonForScript. do 5 (apply raw_ok_app; [first [apply replace_lt_without | by vm_compute]|]). by vm_compute. Qed.

Lemma ok_when v ps : forallb piece_ok ps = true -> forallb piece_ok (when v ps) = true.
Proof using. unfold when. by case_bool_decide. Qed.

Lemma ok_scopes scopes : forallb piece_ok (concat (map (fun s => [PTag "li"; PVal s; PTag "/li"]) scopes)) = true.
Proof using. induction scopes as [|s l IH]; [done|]. cbn [map concat]. by rewrite forallb_app, IH. Qed.

#[local] Ltac pieces_ok := repeat first [rewrite forallb_app; apply andb_true_iff; split | apply ok_when]; try reflexivity.

Lemma ok_consent d n scopes i : forallb piece_ok (consent_pieces d n scopes i) = true.
Proof using.
  unfold consent_pieces. pieces_ok.
  - destruct i as [i|]; pieces_ok. by destruct (id_Recent i).
  - destruct scopes as [|s l]; [done|]. cbn [forallb]. apply andb_true_iff. split; [done|]. rewrite forallb_app. apply andb_true_iff. split; [apply ok_scopes|done].
Qed.

Lemma ok_page title inner script : forallb piece_ok inner = true -> raw_ok script = true -> forallb piece_ok (page_pieces title inner script) = true.
Proof using.
  intros Hi Hs. unfold page_pieces. pieces_ok; [done|cbn [forallb piece_ok]; by rewrite Hs].
Qed.

Lemma ok_passkey p : forallb piece_ok (passkey_pieces p) = true.
Proof using.
  apply ok_page; [|destruct (cp_ShowButton p); [apply ceremony_raw_ok|done]]. pieces_ok; [apply ok_consent|by destruct (cp_ShowButton p)|].
  cbn [forallb]. rewrite !andb_true_iff. split_and!; try reflexivity. cbn [piece_ok]. apply andb_true_iff. split; [|reflexivity]. unfold without. rewrite !forall_app_str. destruct (esc_without (cp_RegisterURL p)) as [_ H]. unfold without in H. by rewrite H.
Qed.

Lemma ok_approve p : forallb piece_ok (approve_pieces p) = true.
Proof using. apply ok_page; [|apply approve_raw_ok]. pieces_ok. apply ok_consent. Qed.

Lemma ok_error e d : forallb piece_ok (error_pieces e d) = true.
Proof using. apply ok_page; reflexivity. Qed.

(** ** Claims *)

(** Whatever a client is called, wherever its pages are, whatever scopes it asks
    for and whatever an error says, a browser reads a page of the providers as the
    elements of its template, in their order, with every value shown as it is (C25). *)
Theorem pages_keep_their_markup a html : html_of marshal_text marshal_map a = Some html -> map shown (tokens html) = layout (template_of a).
Proof using.
  intros H. destruct a; cbn [html_of template_of] in *; try discriminate H; apply (inj Some) in H; rewrite <- H.
  - rewrite <- flat_error. apply tokens_flat; [apply ok_error|apply reads_nil].
  - rewrite <- flat_passkey. apply tokens_flat; [apply ok_passkey|apply reads_nil].
  - rewrite <- flat_approve. apply tokens_flat; [apply ok_approve|apply reads_nil].
  - rewrite <- flat_passkey. apply tokens_flat; [apply ok_passkey|apply reads_nil].
Qed.

End Templates.

Definition hostile : answer := PasskeyPage "</script><script>x" "<b>Bank</b>" ["mcp"; "<img src=x>"] (Some (mkIdentity "evil.example" "" true)).

Lemma pages_keep_their_markup_witness : exists html, html_of (fun s => s) (fun l => foldr (fun x s => snd x ++ s) EmptyString l) hostile = Some html /\
  map shown (tokens html) = layout (template_of (fun s => s) (fun l => foldr (fun x s => snd x ++ s) EmptyString l) hostile) /\
  In (Text "<b>Bank</b>") (layout (template_of (fun s => s) (fun l => foldr (fun x s => snd x ++ s) EmptyString l) hostile)).
Proof.
  eexists. split; [reflexivity|]. split; [apply pages_keep_their_markup; reflexivity|]. vm_compute. tauto.
Defined.
