(* ===== verification/Listings.v ===== *)
(** * The lists of sessions and passkeys (internal/rest/sessions.go: list, toSessionDTO; internal/rest/credentials.go: list;
      the keys tool of internal/mcp/tools_endpoints.go)

    What an account sees of its terminal sessions and of its passkeys, and what
    an agent sees of the file keys. *)
From S2P Require Import Prelude GoStrings Clock SSHWire Passkeys PinStore Terminal AuditLog KeyDir.
#[local] Open Scope Z_scope.

(** ** Sessions *)

Record TerminalSession := mkDTO {
  dto_SessionId : string; dto_EndpointId : string; dto_AccountId : string; dto_Status : string; dto_Source : string; dto_CreatedAt : string; dto_LastActivityAt : string;
  dto_CloseReason : option string; dto_SourceIp : option string; dto_OwnerClientId : option string; dto_McpReason : option string; dto_McpClientName : option string;
  dto_McpClientVersion : option string }.

Definition strPtrIf (s : string) : option string := if bool_decide (s = EmptyString) then None else Some s.

Definition toSessionDTO (s : Session) : TerminalSession :=
  mkDTO (SessionID s) (EndpointID s) (Terminal.AccountID s) (status_text (s_Status s)) (source_text (s_Source s)) (ISO (Terminal.CreatedAt s)) (ISO (LastActivityAt s))
    (strPtrIf (reason_text (s_CloseReason s))) (strPtrIf (SourceIP s)) (strPtrIf (Terminal.OwnerClientID s)) (strPtrIf (MCPReason s)) (strPtrIf (MCPClientName s)) (strPtrIf (MCPClientVer s)).

Definition list_sessions (m : Manager) (acc : string) : list TerminalSession := map toSessionDTO (ListForAccount m acc).

(** ** Passkeys *)

Record credential_view := mkCredentialView {
  cv_ID : string; cv_CredentialID : string; cv_Label : string; cv_Algorithm : string; cv_Fingerprint : string; cv_AuthorizedKeysEntry : option string; cv_Revoked : bool;
  cv_State : string; cv_CreatedAt : string; cv_LastUsedAt : option string }.

Section Credentials.
Context (sha256 : list byte -> list byte).

Definition view_credential (cr : CredentialRow) : credential_view :=
  let active := bool_decide (State cr = "active"%string) in
  mkCredentialView (ID cr) (CredentialID cr) (Label cr) (DetectAlgorithm (bytes_of_string (PublicKeyCOSE cr)))
    (match PublicKeyOpenSSH cr with Some line => String.string_of_list_byte (FingerprintFromAuthorizedKeys sha256 (bytes_of_string line)) | None => EmptyString end)
    (if active then PublicKeyOpenSSH cr else None) (Revoked cr) (State cr) (Passkeys.CreatedAt cr) (LastUsedAt cr).

(** The entries, and the line for sshd_config. *)
Definition list_credentials (db : DB) (acc : string) : list credential_view * string :=
  (map view_credential (ListForAccountFull db acc), String.string_of_list_byte SshdConfigLine).

(** ** Claims *)

Definition with_label (l : string) (v : credential_view) : credential_view :=
  mkCredentialView (cv_ID v) (cv_CredentialID v) l (cv_Algorithm v) (cv_Fingerprint v) (cv_AuthorizedKeysEntry v) (cv_Revoked v) (cv_State v) (cv_CreatedAt v) (cv_LastUsedAt v).

(** Renaming a passkey changes the label of that entry of its account's list, in
    its place, and nothing else of any account's list; a key line is only ever
    shown for a passkey that was confirmed. *)
Theorem credential_list_after_rename db acc acc' id l :
  fst (list_credentials (SetLabel db id acc l) acc') =
    map (fun v => if bool_decide (acc' = acc) && bool_decide (cv_ID v = id) then with_label l v else v) (fst (list_credentials db acc')) /\
  Forall (fun v => cv_AuthorizedKeysEntry v <> None -> cv_State v = "active"%string) (fst (list_credentials db acc')).
Proof using.
  split; cbn [list_credentials fst].
  - unfold ListForAccountFull, SetLabel, update_rows, set_creds. cbn [creds]. induction (creds db) as [|r rows IH]; [done|]. cbn [map List.filter].
    assert (Passkeys.of_account acc' (if has_id id r && Passkeys.of_account acc r then set_label l r else r) = Passkeys.of_account acc' r) as -> by (by destruct (_ && _)).
    destruct (Passkeys.of_account acc' r) eqn:Ea; [|exact IH]. cbn [map]. rewrite IH. f_equal. apply bool_decide_eq_true in Ea. unfold has_id, Passkeys.of_account. rewrite Ea. cbn [view_credential cv_ID].
    rewrite andb_comm. destruct (bool_decide (acc' = acc) && bool_decide (ID r = id)); done.
  - apply Forall_forall. intros v (r & -> & _)%list_elem_of_fmap. cbn. by case_bool_decide.
Qed.

End Credentials.

(** The session list is the account's own, and has no closed session. *)
Theorem session_list_own m acc : Forall (fun d => dto_AccountId d = acc /\ dto_Status d <> "closed"%string) (list_sessions m acc).
Proof.
  apply Forall_forall. intros d (s & -> & Hs)%list_elem_of_fmap. unfold ListForAccount in Hs. apply list_elem_of_fmap in Hs as ([sid g] & -> & Hg).
  apply list_elem_of_In, filter_In in Hg as [_ [Ha Hc]%andb_true_iff]. cbn [snd] in *. unfold Terminal.of_account in Ha. apply bool_decide_eq_true in Ha. split; [done|].
  unfold not_closed, status_of in Hc. cbn. destruct (s_Status (session g)); done.
Qed.

(** ** The keys tool of agents *)

Inductive keys_result :=
  | KeysErr (msg : string)
  | KeysDatabase
  | KeysList (keys : list (string * string * string * string))
  | KeyRead (key : string * string * string * string * string).

(** The handler is given the agent's session and does not look at it. *)
Definition manage_keys (t : KeyTable) (ok : bool) (action id : string) : keys_result :=
  if bool_decide (action = "list"%string) then (if ok then KeysList (SSHKeys_List t) else KeysDatabase)
  else if bool_decide (action = "read"%string) then
    if bool_decide (id = EmptyString) then KeysErr "id is required"
    else if negb ok then KeysDatabase
    else match SSHKeys_Get t id with Some key => KeyRead key | None => KeysErr ("Key not found: " ++ id) end
  else KeysErr ("unknown action: " ++ action).

(** Every agent reads every file key of the server, with its public line, and
    lists those that are enabled; the web page shows none to an account that is
    not the administrator's. *)
Theorem agents_see_all_keys t id r : t !! id = Some r -> k_ID r = id -> id <> EmptyString ->
  manage_keys t true "read" id = KeyRead (id, k_Label r, k_Type r, k_Fingerprint r, k_PublicKey r) /\
  (k_Enabled r = true -> exists keys, manage_keys t true "list" "" = KeysList keys /\ (id, k_Label r, k_Type r, k_Fingerprint r) ∈ keys) /\
  forall rows available, Keys_list false rows available = Some [].
Proof.
  intros Hr Hid Hne. split_and!; [| |done].
  - unfold manage_keys, SSHKeys_Get. rewrite (bool_decide_false (id = EmptyString)) by done. rewrite Hr. cbn. by rewrite Hid.
  - intros He. eexists. split; [done|]. unfold SSHKeys_List. rewrite <- Hid. apply (list_elem_of_fmap_2 (fun r => (k_ID r, k_Label r, k_Type r, k_Fingerprint r))).
    apply in_order_elem, list_elem_of_In, filter_In. split; [|done]. apply list_elem_of_In. unfold key_rows. apply list_elem_of_fmap. exists (id, r). split; [done|]. by apply elem_of_map_to_list.
Qed.

Lemma agents_see_all_keys_witness : let r := mkSSHKey "k1" "deploy" "file" "ssh-ed25519 AAAA" "SHA256:x" true "t0" None in
  manage_keys {["k1"%string := r]} true "read" "k1" = KeyRead ("k1", "deploy", "file", "SHA256:x", "ssh-ed25519 AAAA")%string.
Proof. intros r. by destruct (agents_see_all_keys {["k1"%string := r]} "k1" r) as [H _]; [apply lookup_singleton_eq|done|done|]. Defined.
