(* ===== verification/ClientLog.v ===== *)
(** * The log of client registrations (internal/httpserver/clientlog.go, with hydra/routes.go, hydra/cimd_routes.go and
      audit/oauthclients.go)

    Both ways in which a client gets known — mediated registration ([Providers])
    and client id documents ([CimdResolver]) — run before any account is
    identified. What comes of each is written to the registration log of
    [AuditRead], with the address that [RealIP] resolved. *)
From S2P Require Import Prelude GoStrings Clock Url Cimd CimdFetch Hydra Providers CimdResolver AuditLog AuditRead RealIP.
#[local] Open Scope Z_scope.

Section ClientLog.
Context {W : Type} `{!Admin W}.
(** Regular expressions, case folding, the texts of errors, JSON. *)
Context (compile : string -> option matcher) (ToLower : string -> string) (describe : ResolveError -> string).
Context (marshal_strings : list string -> option string).
Context (r : Resolver) (p : ProviderParams) (fp : FrontDoorParams) (policy : ClientPolicy).

(** ** The sink *)

Definition clientEventSink (stashed : option string) (req : RealIP.request) (ev : ClientEvent) : OAuthClientEvent :=
  mkClientEvent (ev_ClientID ev) (ev_Origin ev) (ev_Event ev) (ev_ClientName ev) (ev_MetadataHost ev) (ev_AuthMethod ev) (ev_RedirectURIs ev) (ev_Scope ev)
    (ev_Reason ev) (FromRequest stashed req).

(** Without a log there is no sink, and the events are dropped. *)
Definition emit (log : option Registrations) (now : Z) (id : string) (stored : bool) (stashed : option string) (req : RealIP.request) (evs : list ClientEvent)
  : option Registrations :=
  t ← log; Some (fold_left (fun t ev => Record_ marshal_strings t now id stored (clientEventSink stashed req ev)) evs t).

(** ** Requests of clients that are not known yet *)

Inductive onboarding :=
  | Register (nowUnix : Z) (key_order : list string) (b : dcrRequest)
  | Authorize (fetchedAt : string) (doc : ClientMetadata + fetch_error) (rawQuery : string).

Inductive onboarding_answer := Registered (a : Providers.answer) | Authorized (a : front_answer).

Definition handle (w : W) (o : onboarding) : onboarding_answer * list ClientEvent * W :=
  match o with
  | Register nowUnix key_order b => let '(a, evs, w) := handleDCR compile w p nowUnix key_order b in (Registered a, evs, w)
  | Authorize fetchedAt doc rawQuery => let '(a, evs, _, w) := handleAuthorize ToLower describe w fp policy fetchedAt doc rawQuery in (Authorized a, evs, w)
  end.

(** One request: where it comes from, the time, the id that a row of it gets, and
    whether the log can be written. *)
Record call := mkCall { c_what : onboarding; c_addr : RealIP.request; c_now : Z; c_id : string; c_stored : bool }.

Definition serve_call (s : W * option Registrations) (x : call) : onboarding_answer * list ClientEvent * (W * option Registrations) :=
  let '(a, evs, w) := handle (fst s) (c_what x) in
  (a, evs, (w, emit (snd s) (c_now x) (c_id x) (c_stored x) (Middleware r (c_addr x)) (c_addr x) evs)).

Fixpoint serve_calls (s : W * option Registrations) (xs : list call) : list (onboarding_answer * list ClientEvent) * (W * option Registrations) :=
  match xs with
  | [] => ([], s)
  | x :: xs => let '(a, evs, s) := serve_call s x in let '(rest, s) := serve_calls s xs in ((a, evs) :: rest, s)
  end.

(** ** Lemmas *)

(** What an answer says of the events that came with it. *)
Definition announced (x : call) (out : onboarding_answer * list ClientEvent) : Prop :=
  match c_what x, out with
  | Register _ _ b, (Registered (Created cid _ uris scope name), evs) => evs = [mkEvent cid ClientOriginDCR ClientEventRegistered name "" "none" uris scope ""]
  | Register _ _ b, (Registered (OAuthFail status _ _), evs) =>
      if status =? 502 then exists ev, evs = [ev] /\ ev_Event ev = ClientEventRejected /\ ev_Origin ev = ClientOriginDCR /\ ev_RedirectURIs ev = dr_RedirectURIs b
      else evs = []
  | Authorize _ _ q, (Authorized (ToHydra _), evs) =>
      evs = [] \/ exists ev, evs = [ev] /\ ev_Event ev <> ClientEventRejected /\ ev_Origin ev = ClientOriginCIMD /\ ev_ClientID ev = values_get (parse_query q) "client_id"
  | Authorize _ _ q, (Authorized _, evs) =>
      exists ev, evs = [ev] /\ ev_Event ev = ClientEventRejected /\ ev_Origin ev = ClientOriginCIMD /\ ev_ClientID ev = values_get (parse_query q) "client_id"
  | _, _ => False
  end.

Lemma fail_not_on q re : match fail describe q re with ToHydra _ => False | _ => True end.
Proof using. unfold fail. destruct (_ && _); [|done]. by destruct (Parse _). Qed.

Lemma handle_announced w x : announced x (fst (handle w (c_what x))).
Proof using.
  unfold announced. destruct (c_what x) as [n order b|at1 doc q]; cbn [handle].
  - unfold handleDCR. destruct (dr_RedirectURIs b) as [|u us] eqn:Eu; [done|]. destruct (List.find _ _) as [?|]; [done|]. destruct (List.filter _ _) as [|g gs]; [done|].
    destruct (CreateClient _ _) as [[c|e] w']; [done|]. cbn. by eexists.
  - unfold handleAuthorize. destruct (_ || _); [by left|]. destruct (Resolve _ _ _ _ _ _ _) as [[[res|re] drop] w'].
    + unfold resolved_event. cbn. destruct (_ || _); [|by left]. right. eexists. split; [done|]. cbn. split; [|done]. by destruct (po_FirstSeen _).
    + cbn. pose proof (fail_not_on (parse_query q) re) as Hf. destruct (fail _ _ _); [done|by eexists..].
Qed.

Lemma announced_short x a evs : announced x (a, evs) -> evs = [] \/ exists ev, evs = [ev].
Proof using.
  clear compile ToLower describe marshal_strings. unfold announced. destruct (c_what x), a as [a|a]; try done; destruct a; try done; intros H; try case_match; naive_solver.
Qed.

(** The row of an event. *)
Definition log_row (x : call) (ev : ClientEvent) : RegistrationRow :=
  mkRegRow (mkRegistration (c_id x) (ev_ClientID ev) (ev_Origin ev) (ev_Event ev) (nz (ev_ClientName ev)) (nz (ev_MetadataHost ev)) (nz (ev_AuthMethod ev)) []
      (nz (ev_Scope ev)) (nz (ev_Reason ev)) (nz (FromRequest (Middleware r (c_addr x)) (c_addr x))) (ISO (c_now x)))
    (match ev_RedirectURIs ev with [] => None | uris => marshal_strings uris end).

Lemma emit_one t x a evs : announced x (a, evs) -> t !! c_id x = None ->
  emit (Some t) (c_now x) (c_id x) (c_stored x) (Middleware r (c_addr x)) (c_addr x) evs =
    Some (match evs with ev :: _ => if c_stored x then <[c_id x := log_row x ev]> t else t | [] => t end).
Proof using.
  intros [->|[ev ->]]%announced_short Hid; [done|]. cbn. unfold Record_. by rewrite (bool_decide_true _ Hid), andb_true_r.
Qed.

(** The rows of a run: those of the requests whose event could be written. *)
Fixpoint rows_of (xs : list call) (outs : list (onboarding_answer * list ClientEvent)) : list (string * RegistrationRow) :=
  match xs, outs with
  | x :: xs, (_, evs) :: outs => (if c_stored x then map (fun ev => (c_id x, log_row x ev)) evs else []) ++ rows_of xs outs
  | _, _ => []
  end.

Lemma rows_of_ids xs outs id row : (id, row) ∈ rows_of xs outs -> id ∈ map c_id xs.
Proof using.
  revert outs. induction xs as [|x xs IH]; intros [|[a evs] outs]; cbn; [set_solver..|]. intros [H|H]%elem_of_app; [|right; eauto].
  destruct (c_stored x); [|set_solver]. apply list_elem_of_fmap in H as (ev & [= -> ->] & _). left.
Qed.

Lemma serve_calls_rows xs w t : NoDup (map c_id xs) -> (forall id, id ∈ map c_id xs -> t !! id = None) ->
  let '(outs, (_, log)) := serve_calls (w, Some t) xs in
  Forall2 announced xs outs /\ exists t', log = Some t' /\ forall id row, t' !! id = Some row <-> t !! id = Some row \/ (id, row) ∈ rows_of xs outs.
Proof using.
  revert w t. induction xs as [|x xs IH]; intros w t Hnd Hfresh.
  { cbn. split; [constructor|]. eexists. split; [done|]. set_solver. }
  cbn [serve_calls]. unfold serve_call. cbn [fst snd]. pose proof (handle_announced w x) as Ha. destruct (handle w (c_what x)) as [[a evs] w1]. cbn [fst] in Ha.
  cbn [map] in *. apply NoDup_cons in Hnd as [Hx Hnd]. rewrite (emit_one t x a evs Ha) by (apply Hfresh; set_solver).
  set (t1 := match evs with ev :: _ => if c_stored x then <[c_id x := log_row x ev]> t else t | [] => t end).
  assert (forall id row, t1 !! id = Some row <-> t !! id = Some row \/ (id, row) ∈ (if c_stored x then map (fun ev => (c_id x, log_row x ev)) evs else [])) as Ht1.
  { intros id row. subst t1. pose proof (Hfresh (c_id x) ltac:(set_solver)) as Hn. destruct (announced_short _ _ _ Ha) as [->|[ev ->]], (c_stored x); cbn; try set_solver.
    rewrite list_elem_of_singleton. destruct (decide (id = c_id x)) as [->|Hne]; [rewrite lookup_insert_eq|rewrite lookup_insert_ne by done]; naive_solver. }
  specialize (IH w1 t1 Hnd). destruct (serve_calls (w1, Some t1) xs) as [outs [w2 log]]. destruct IH as (Hann & t' & -> & Hrows).
  { intros id Hid. destruct (t1 !! id) as [row|] eqn:E; [|done]. apply Ht1 in E as [E|E]; [rewrite Hfresh in E by set_solver; done|].
    destruct (c_stored x); [|set_solver]. apply list_elem_of_fmap in E as (ev & [= -> _] & _). done. }
  split; [by constructor|]. eexists. split; [done|]. intros id row. cbn [rows_of]. rewrite Hrows, Ht1, elem_of_app. tauto.
Qed.

Lemma serve_calls_no_log xs w log : fst (serve_calls (w, log) xs) = fst (serve_calls (w, None) xs) /\ fst (snd (serve_calls (w, log) xs)) = fst (snd (serve_calls (w, None) xs)).
Proof using.
  revert w log. induction xs as [|x xs IH]; intros w log; [done|]. cbn [serve_calls]. unfold serve_call. cbn [fst snd]. destruct (handle w (c_what x)) as [[a evs] w1].
  destruct (IH w1 (emit log (c_now x) (c_id x) (c_stored x) (Middleware r (c_addr x)) (c_addr x) evs)) as [H1 H2], (IH w1 None) as [_ _]. cbn [emit mbind option_bind] in *.
  destruct (serve_calls (w1, emit _ _ _ _ _ _ _) xs) as [o1 s1], (serve_calls (w1, None) xs) as [o2 s2]. cbn in *. by subst.
Qed.

Lemma serve_calls_none xs w : snd (snd (serve_calls (w, None) xs)) = None.
Proof using.
  revert w. induction xs as [|x xs IH]; intros w; [done|]. cbn [serve_calls]. unfold serve_call. cbn [fst snd]. destruct (handle w (c_what x)) as [[a evs] w1].
  cbn [emit mbind option_bind]. specialize (IH w1). by destruct (serve_calls (w1, None) xs).
Qed.

Lemma rows_of_index xs outs id row : Forall2 announced xs outs ->
  (id, row) ∈ rows_of xs outs <-> exists k x a ev, xs !! k = Some x /\ outs !! k = Some (a, [ev]) /\ c_id x = id /\ c_stored x = true /\ row = log_row x ev.
Proof using.
  induction 1 as [|x [a evs] xs outs Ha _ IH]; cbn [rows_of].
  - split; [by intros ?%not_elem_of_nil|]. intros (k & x & _ & _ & Hk & _). by rewrite lookup_nil in Hk.
  - rewrite elem_of_app, IH. split.
    + intros [H|(k & y & b & ev & Hy)]; [|by exists (S k), y, b, ev]. destruct (announced_short _ _ _ Ha) as [->|[ev ->]], (c_stored x) eqn:Es; cbn in H; try by apply not_elem_of_nil in H.
      apply list_elem_of_singleton in H as [= -> ->]. by exists 0%nat, x, a, ev.
    + intros ([|k] & y & b & ev & Hx & Hout & Hid & Hs & Hrow); cbn in Hx, Hout; [|right; by exists k, y, b, ev]. injection Hx as <-. injection Hout as <- ->. left. rewrite Hs, Hrow, <- Hid. cbn. set_solver.
Qed.

(** ** Claims *)

(** Each answer to a client that registers, or comes with a document, has its
    trace in the log: a registration that is granted is one row with the
    client's id, its redirect URIs and its scopes, one that the authorization
    server refuses is a row saying so, a document that is turned down is a row
    with its client id, and a request that is refused before anything is asked
    of the authorization server leaves none. The row carries the address that
    the server resolved for the request, and nothing else is in the log. A log
    that cannot be written, or is not there, changes no answer and nothing at
    the authorization server; and redirect URIs are read back as they were
    if their text can be read back. *)
Theorem onboarding_logged w xs : NoDup (map c_id xs) ->
  let '(outs, (w', log)) := serve_calls (w, Some ∅) xs in
  serve_calls (w, None) xs = (outs, (w', None)) /\ Forall2 announced xs outs /\
  (exists t, log = Some t /\ forall id row, t !! id = Some row <->
     exists k x a ev, xs !! k = Some x /\ outs !! k = Some (a, [ev]) /\ c_id x = id /\ c_stored x = true /\ row = log_row x ev) /\
  forall x ev unmarshal text, marshal_strings (ev_RedirectURIs ev) = Some text -> unmarshal text = Some (ev_RedirectURIs ev) ->
    oc_RedirectURIs (scan_registration unmarshal (log_row x ev)) = ev_RedirectURIs ev.
Proof using.
  intros Hnd. pose proof (serve_calls_rows xs w ∅ Hnd) as H. destruct (serve_calls_no_log xs w (Some ∅)) as [H1 H2]. pose proof (serve_calls_none xs w) as H3.
  destruct (serve_calls (w, Some ∅) xs) as [outs [w' log]], (serve_calls (w, None) xs) as [outs' [w'' log']]. cbn in H1, H2, H3. subst.
  destruct H as [Ha (t & -> & Ht)]; [intros; apply lookup_empty|]. split_and!; [done|done| |].
  - exists t. split; [done|]. intros id row. rewrite Ht, lookup_empty, (rows_of_index _ _ _ _ Ha). naive_solver.
  - intros x ev unmarshal text Hm Hu. cbn. destruct (ev_RedirectURIs ev) as [|u us]; [done|]. by rewrite Hm, Hu.
Qed.

End ClientLog.

(** A registration through a proxy in 10.0.0.0/8, then a document that cannot be
    fetched. *)
Definition sample_calls : list call :=
  [mkCall (Register 0 [] (mkDCR ["http://127.0.0.1/cb"%string] "mcp" "Tool")) (RealIP.mkRequest "10.0.0.7:1" ["6.6.6.6"%string]) 0 "row-1" true;
   mkCall (Authorize "t" (inr Unavailable) "client_id=https%3A%2F%2Fx.example%2Fc.json") (RealIP.mkRequest "9.9.9.9:1" []) 0 "row-2" true].
Definition sample_resolver : Resolver := New (TrustString "10.0.0.0/8").
Definition sample_compile (src : string) : option matcher := Some (fun uri => HasPrefix uri src).
Definition sample_provider : ProviderParams := mkProvider "spa" false ["mcp"]%string ["http://127.0.0.1"%string] false.
Definition sample_text (l : list string) : option string := Some (Join l ",").
Abbreviation sample_served := (serve_calls (W := ClientTable) sample_compile (fun s => s) (fun _ => "unreachable"%string) sample_text sample_resolver sample_provider
  (mkFrontDoor true "https://h/oauth2/auth") (mkPolicy [] ∅)).

Lemma onboarding_logged_witness : forall row t, snd (snd (sample_served (mkTable ∅ None None None None, Some ∅) sample_calls)) = Some t -> t !! "row-1"%string = Some row ->
  oc_SourceIP (rr_fields row) = Some "6.6.6.6"%string /\ oc_Event (rr_fields row) = "registered"%string.
Proof.
  pose proof (onboarding_logged sample_compile (fun s => s) (fun _ => "unreachable"%string) sample_text sample_resolver sample_provider (mkFrontDoor true "https://h/oauth2/auth") (mkPolicy [] ∅)
    (mkTable ∅ None None None None) sample_calls ltac:(apply (bool_decide_unpack _); vm_compute; exact I)) as H.
  assert (exists cid uris scope name t2, map snd (fst (sample_served (mkTable ∅ None None None None, Some ∅) sample_calls)) =
    [[mkEvent cid "dcr" "registered" name "" "none" uris scope ""]; t2]) as (cid & uris & scope & name & t2 & Hm) by (do 5 eexists; vm_compute; reflexivity).
  intros row t Ht Hrow. destruct (sample_served _ _) as [outs [w' log]]. cbn [fst snd] in *. subst log. destruct H as (_ & _ & (t' & [= <-] & Hiff) & _).
  apply Hiff in Hrow as (k & x & a & ev & Hx & Ho & Hid & _ & ->). destruct k as [|[|k]]; cbn in Hx; [|injection Hx as <-; discriminate|discriminate].
  injection Hx as <-. apply (f_equal (fmap snd)) in Ho. rewrite <- list_lookup_fmap in Ho. change (snd <$> outs) with (map snd outs) in Ho. rewrite Hm in Ho. injection Ho as <-.
  split; vm_compute; reflexivity.
Defined.
