(* ===== verification/FakeClock.v ===== *)
(** * The clock that tests move by hand (internal/clock/clock.go: Fake)

    Every timer of the program is taken from a clock, and the tests take theirs
    from this one. A channel holds one value; sending to a full one would block
    the clock for ever, with its lock held. *)
From S2P Require Import Prelude.
#[local] Open Scope Z_scope.

(** A waiter: its deadline and its channel. *)
Record fakeWaiter := mkWaiter { fw_deadline : Z; fw_ch : nat }.

(** [k_chans] are the channels made so far, with what they hold. *)
Record Fake := mkFake { k_t : Z; k_nextID : nat; k_waiters : gmap nat fakeWaiter; k_chans : list (option Z) }.

Definition NewFake (start : Z) : Fake := mkFake start 0 ∅ [].

Definition Now (f : Fake) : Z := k_t f.

(** The channel, and what the stop function deletes. *)
Definition After (f : Fake) (d : Z) : nat * option nat * Fake :=
  let ch := length (k_chans f) in
  if d <=? 0 then (ch, None, mkFake (k_t f) (k_nextID f) (k_waiters f) (k_chans f ++ [Some (k_t f)]))
  else (ch, Some (k_nextID f), mkFake (k_t f) (S (k_nextID f)) (<[k_nextID f := mkWaiter (k_t f + d) ch]> (k_waiters f)) (k_chans f ++ [None])).

Definition stop (f : Fake) (id : option nat) : Fake :=
  match id with Some id => mkFake (k_t f) (k_nextID f) (delete id (k_waiters f)) (k_chans f) | None => f end.

(** A send; [None] is one that blocks. *)
Definition send (chans : list (option Z)) (ch : nat) (v : Z) : option (list (option Z)) :=
  match chans !! ch with Some None => Some (<[ch := Some v]> chans) | _ => None end.

(** The waiters in the order in which the map gives them. *)
Fixpoint fire (t : Z) (order : list (nat * fakeWaiter)) (waiters : gmap nat fakeWaiter) (chans : list (option Z)) : option (gmap nat fakeWaiter * list (option Z)) :=
  match order with
  | [] => Some (waiters, chans)
  | (id, w) :: order =>
      if t <? fw_deadline w then fire t order waiters chans
      else chans ← send chans (fw_ch w) t; fire t order (delete id waiters) chans
  end.

Definition Advance (f : Fake) (order : list (nat * fakeWaiter)) (d : Z) : option Fake :=
  let t := k_t f + d in
  '(waiters, chans) ← fire t order (k_waiters f) (k_chans f); Some (mkFake t (k_nextID f) waiters chans).

(** ** The reference: a list of timers *)

Inductive timer := Armed (deadline : Z) | Stopped | Fired (at_ : Z) | Taken.

Definition stop_timer (x : timer) : timer := match x with Armed _ => Stopped | x => x end.
Definition fire_timer (t : Z) (x : timer) : timer := match x with Armed d => if t <? d then x else Fired t | x => x end.
Definition take_timer (x : timer) : timer := match x with Fired _ => Taken | x => x end.

(** What a test does: it asks for a timer, stops the i-th, moves the clock, reads
    the i-th channel without waiting. *)
Inductive action := DoAfter (d : Z) | DoStop (i : nat) | DoAdvance (d : Z) | DoRead (i : nat).

Definition spec_step (s : Z * list timer) (a : action) : (Z * list timer) * option Z :=
  let '(t, ts) := s in
  match a with
  | DoAfter d => ((t, ts ++ [if d <=? 0 then Fired t else Armed (t + d)]), None)
  | DoStop i => ((t, alter stop_timer i ts), None)
  | DoAdvance d => ((t + d, map (fire_timer (t + d)) ts), None)
  | DoRead i => ((t, alter take_timer i ts), match ts !! i with Some (Fired v) => Some v | _ => None end)
  end.

(** The clock with the stop functions handed out, and the order of the map at
    each advance. *)
Definition clock_step (order : gmap nat fakeWaiter -> list (nat * fakeWaiter)) (s : Fake * list (option nat)) (a : action) : option ((Fake * list (option nat)) * option Z) :=
  let '(f, stops) := s in
  match a with
  | DoAfter d => let '(_, id, f) := After f d in Some ((f, stops ++ [id]), None)
  | DoStop i => Some ((match stops !! i with Some id => stop f id | None => f end, stops), None)
  | DoAdvance d => f ← Advance f (order (k_waiters f)) d; Some ((f, stops), None)
  | DoRead i =>
      Some ((mkFake (k_t f) (k_nextID f) (k_waiters f) (alter (fun _ => None) i (k_chans f)), stops), mjoin (k_chans f !! i))
  end.

Fixpoint spec_run (s : Z * list timer) (l : list action) : list (option Z) :=
  match l with [] => [] | a :: l => let '(s, v) := spec_step s a in v :: spec_run s l end.

Fixpoint clock_run (order : gmap nat fakeWaiter -> list (nat * fakeWaiter)) (s : Fake * list (option nat)) (l : list action) : option (list (option Z)) :=
  match l with [] => Some [] | a :: l => '(s, v) ← clock_step order s a; vs ← clock_run order s l; Some (v :: vs) end.

(** ** Lemmas *)

(** The i-th timer, as the clock holds it. *)
Definition timer_ok (f : Fake) (i : nat) (id : option nat) (c : option Z) (x : timer) : Prop :=
  match x with
  | Armed d => c = None /\ exists n, id = Some n /\ k_waiters f !! n = Some (mkWaiter d i)
  | Fired v => c = Some v
  | Stopped | Taken => c = None
  end /\ (match x with Armed _ => True | _ => forall n, id = Some n -> k_waiters f !! n = None end).

Record related (f : Fake) (stops : list (option nat)) (ts : list timer) : Prop := {
  rel_len : length stops = length ts /\ length (k_chans f) = length ts;
  rel_timer i x : ts !! i = Some x -> exists id c, stops !! i = Some id /\ k_chans f !! i = Some c /\ timer_ok f i id c x;
  rel_waiter n w : k_waiters f !! n = Some w -> ts !! fw_ch w = Some (Armed (fw_deadline w)) /\ stops !! fw_ch w = Some (Some n);
  rel_ids n : Some n ∈ stops -> (n < k_nextID f)%nat }.

Lemma related_waiter_of f stops ts i n w : related f stops ts -> stops !! i = Some (Some n) -> k_waiters f !! n = Some w -> fw_ch w = i.
Proof.
  intros R Hi Hw. assert (is_Some (ts !! i)) as [x Hx] by (apply lookup_lt_is_Some; destruct R as [[<- _] _ _ _]; by eapply lookup_lt_Some).
  destruct (rel_timer _ _ _ R i x Hx) as (id & c & Hs & _ & H & Hn). rewrite Hi in Hs. injection Hs as <-.
  destruct x; [|by rewrite (Hn n eq_refl) in Hw..]. destruct H as (_ & n' & [= <-] & Hn'). rewrite Hw in Hn'. by injection Hn' as ->.
Qed.

(** The i-th timer is settled — stopped or fired — and its waiter goes. *)
Lemma related_settle f stops ts i n d x c' t' : related f stops ts -> k_waiters f !! n = Some (mkWaiter d i) ->
  (x = Stopped /\ c' = None \/ exists v, x = Fired v /\ c' = Some v) ->
  related (mkFake t' (k_nextID f) (delete n (k_waiters f)) (<[i := c']> (k_chans f))) stops (<[i := x]> ts).
Proof.
  intros R Hw Hx. destruct (rel_waiter _ _ _ R n _ Hw) as [Hti Hsi]. cbn in Hti, Hsi. pose proof (rel_len _ _ _ R) as [L1 L2].
  assert (i < length ts)%nat as Hlt by (by eapply lookup_lt_Some). split; cbn.
  - by rewrite !length_insert.
  - intros j y Hy. apply list_lookup_insert_Some in Hy as [(<- & <- & _)|[Hne Hy]].
    + exists (Some n), c'. split; [done|]. split; [by rewrite list_lookup_insert_eq by lia|]. unfold timer_ok.
      assert (forall m, Some n = Some m -> delete n (k_waiters f) !! m = None) by (intros m [= <-]; apply lookup_delete_eq). cbn.
      destruct Hx as [[-> ->]|(v & -> & ->)]; done.
    + destruct (rel_timer _ _ _ R j y Hy) as (id & c & Hs & Hc & H & Hn). exists id, c. split; [done|]. split; [by rewrite list_lookup_insert_ne|]. unfold timer_ok. cbn. destruct y.
      * split; [|done]. destruct H as (-> & m & -> & Hm). split; [done|]. exists m. split; [done|]. rewrite lookup_delete_ne; [done|]. intros ->. rewrite Hw in Hm. by injection Hm.
      * split; [done|]. intros m ->. apply lookup_delete_None. right. by apply Hn.
      * split; [done|]. intros m ->. apply lookup_delete_None. right. by apply Hn.
      * split; [done|]. intros m ->. apply lookup_delete_None. right. by apply Hn.
  - intros m w [Hne Hm]%lookup_delete_Some. destruct (rel_waiter _ _ _ R m w Hm) as [H1 H2]. split; [|done]. rewrite list_lookup_insert_ne; [done|]. intros Heq. rewrite <- Heq, Hsi in H2. by injection H2.
  - apply (rel_ids _ _ _ R).
Qed.

Lemma related_time f stops ts t' : related f stops ts -> related (mkFake t' (k_nextID f) (k_waiters f) (k_chans f)) stops ts.
Proof. intros [H1 H2 H3 H4]. by split. Qed.

Lemma fire_related t order : forall f stops ts, related f stops ts -> NoDup (map fst order) ->
  (forall n w, (n, w) ∈ order -> k_waiters f !! n = Some w) -> (forall n w, k_waiters f !! n = Some w -> (n, w) ∈ order \/ t < fw_deadline w) ->
  exists waiters chans, fire t order (k_waiters f) (k_chans f) = Some (waiters, chans) /\ related (mkFake t (k_nextID f) waiters chans) stops (map (fire_timer t) ts).
Proof.
  induction order as [|[n w] order IH]; intros f stops ts R Hnd Hin Hall; cbn [fire].
  - do 2 eexists. split; [done|]. replace (map (fire_timer t) ts) with ts; [by apply related_time|]. symmetry. apply list_eq. intros i. rewrite list_lookup_fmap.
    destruct (ts !! i) as [x|] eqn:E; [|done]. cbn. destruct x; try done. destruct (rel_timer _ _ _ R i _ E) as (? & ? & _ & _ & (_ & m & _ & Hm) & _).
    destruct (Hall _ _ Hm) as [?%not_elem_of_nil|Hd]; [done|]. cbn in *. by rewrite (proj2 (Z.ltb_lt _ _) Hd).
  - cbn in Hnd. apply NoDup_cons in Hnd as [Hn Hnd]. assert (Hw := Hin n w ltac:(left)). destruct (t <? fw_deadline w) eqn:E.
    + apply IH; [done|done| |]; [intros m v Hm; apply Hin; by right|]. intros m v Hm. destruct (Hall m v Hm) as [[[= -> ->]|?]%elem_of_cons|?]; [right; lia|by left|by right].
    + destruct w as [d i]. cbn [fw_deadline fw_ch] in *. destruct (rel_waiter _ _ _ R n _ Hw) as [Hti Hsi]. cbn in Hti, Hsi. destruct (rel_timer _ _ _ R i _ Hti) as (id & c & _ & Hc & (-> & _) & _).
      unfold send. rewrite Hc. cbn [mbind option_bind].
      pose proof (related_settle f stops ts i n d (Fired t) (Some t) t R Hw ltac:(right; by exists t)) as R'.
      destruct (IH _ _ _ R' Hnd) as (waiters & chans & Hf & Hr); cbn [k_waiters k_chans k_nextID] in *.
      * intros m v Hm. rewrite lookup_delete_ne; [by apply Hin; right|]. intros <-. apply Hn. apply list_elem_of_fmap. by exists (n, v).
      * intros m v [Hne Hm]%lookup_delete_Some. destruct (Hall m v Hm) as [[[= -> ->]|?]%elem_of_cons|?]; [done|by left|by right].
      * exists waiters, chans. split; [done|]. replace (map (fire_timer t) ts) with (map (fire_timer t) (<[i := Fired t]> ts)); [done|]. apply list_eq. intros j. rewrite !list_lookup_fmap.
        destruct (decide (i = j)) as [<-|Hne]; [|by rewrite list_lookup_insert_ne]. rewrite list_lookup_insert_eq by (by eapply lookup_lt_Some). rewrite Hti. cbn. by rewrite E.
Qed.

Lemma related_alter_taken f stops ts i t' : related f stops ts ->
  related (mkFake t' (k_nextID f) (k_waiters f) (alter (fun _ => None) i (k_chans f))) stops (alter take_timer i ts).
Proof.
  intros R. pose proof (rel_len _ _ _ R). split; cbn.
  - by rewrite !length_alter.
  - intros j y Hy. destruct (decide (i = j)) as [<-|Hne].
    + rewrite list_lookup_alter_eq in Hy. apply fmap_Some in Hy as (x & Hx & ->). destruct (rel_timer _ _ _ R i x Hx) as (id & c & Hs & Hc & H' & Hn). exists id, None. split; [done|].
      split; [by rewrite list_lookup_alter_eq, Hc|]. unfold timer_ok. cbn. destruct x; cbn; naive_solver.
    + rewrite list_lookup_alter_ne in Hy by done. destruct (rel_timer _ _ _ R j y Hy) as (id & c & Hs & Hc & H'). exists id, c. by rewrite list_lookup_alter_ne.
  - intros n w Hw. destruct (rel_waiter _ _ _ R n w Hw) as [H1 H2]. split; [|done]. destruct (decide (i = fw_ch w)) as [->|Hne]; [by rewrite list_lookup_alter_eq, H1|by rewrite list_lookup_alter_ne].
  - apply (rel_ids _ _ _ R).
Qed.

Lemma related_after f stops ts d : related f stops ts ->
  let '(_, id, f') := After f d in related f' (stops ++ [id]) (ts ++ [if d <=? 0 then Fired (k_t f) else Armed (k_t f + d)]).
Proof.
  intros R. pose proof (rel_len _ _ _ R) as [L1 L2]. unfold After. destruct (d <=? 0) eqn:Ed; split; cbn; rewrite ?length_app; cbn; try lia.
  - intros i x Hx. apply lookup_app_Some in Hx as [Hx|[Hi Hx]].
    + destruct (rel_timer _ _ _ R i x Hx) as (id & c & Hs & Hc & H). exists id, c. by rewrite !lookup_app_l by (by eapply lookup_lt_Some).
    + apply list_lookup_singleton_Some in Hx as [Hi0 <-]. replace i with (length ts) in * by lia. exists None, (Some (k_t f)). rewrite <- L1 at 1. rewrite list_lookup_middle by done. rewrite <- L2, list_lookup_middle by done. by split_and!.
  - intros n w Hw. destruct (rel_waiter _ _ _ R n w Hw) as [H1 H2]. by rewrite !lookup_app_l by (by eapply lookup_lt_Some).
  - intros n [Hn|Hn%list_elem_of_singleton]%elem_of_app; [|done]. by apply (rel_ids _ _ _ R).
  - intros i x Hx. apply lookup_app_Some in Hx as [Hx|[Hi Hx]].
    + destruct (rel_timer _ _ _ R i x Hx) as (id & c & Hs & Hc & H & Hn). exists id, c. rewrite !lookup_app_l by (by eapply lookup_lt_Some). split; [done|]. split; [done|].
      assert (forall n, id = Some n -> (n < k_nextID f)%nat) as Hid by (intros n ->; apply (rel_ids _ _ _ R); by apply list_elem_of_lookup; exists i). unfold timer_ok. cbn. destruct x.
      * split; [|done]. destruct H as (-> & n & -> & Hw). split; [done|]. exists n. split; [done|]. rewrite lookup_insert_ne; [done|]. specialize (Hid n eq_refl). lia.
      * split; [done|]. intros n ->. rewrite lookup_insert_ne; [by apply Hn|]. specialize (Hid n eq_refl). lia.
      * split; [done|]. intros n ->. rewrite lookup_insert_ne; [by apply Hn|]. specialize (Hid n eq_refl). lia.
      * split; [done|]. intros n ->. rewrite lookup_insert_ne; [by apply Hn|]. specialize (Hid n eq_refl). lia.
    + apply list_lookup_singleton_Some in Hx as [Hi0 <-]. replace i with (length ts) in * by lia. exists (Some (k_nextID f)), None. rewrite <- L1 at 1. rewrite list_lookup_middle by done. rewrite <- L2, list_lookup_middle by done.
      split_and!; [done|done|]. split; [|done]. split; [done|]. exists (k_nextID f). cbn. by rewrite lookup_insert_eq.
  - intros n w [[<- <-]|[Hne Hw]]%lookup_insert_Some; cbn.
    + rewrite L2, (list_lookup_middle ts) by done. rewrite <- L1, list_lookup_middle by done. done.
    + destruct (rel_waiter _ _ _ R n w Hw) as [H1 H2]. by rewrite !lookup_app_l by (by eapply lookup_lt_Some).
  - intros n [Hn|[= ->]%list_elem_of_singleton]%elem_of_app; [|lia]. pose proof (rel_ids _ _ _ R n Hn). lia.
Qed.

Lemma related_stop f stops ts i : related f stops ts ->
  related (match stops !! i with Some id => stop f id | None => f end) stops (alter stop_timer i ts).
Proof.
  intros R. destruct (ts !! i) as [x|] eqn:Hx.
  - destruct (rel_timer _ _ _ R i x Hx) as (id & c & -> & Hc & H & Hn). assert (forall y, stop_timer x = y -> alter stop_timer i ts = <[i := y]> ts) as Halt.
    { intros y <-. apply list_eq. intros j. assert (i < length ts)%nat by (by eapply lookup_lt_Some). destruct (decide (i = j)) as [<-|Hne].
      - by rewrite list_lookup_alter_eq, list_lookup_insert_eq, Hx.
      - by rewrite list_lookup_alter_ne, list_lookup_insert_ne. }
    destruct x as [d| | |]; rewrite (Halt _ eq_refl); [|rewrite list_insert_id by done; destruct id as [n|]; [|done]; unfold stop; rewrite delete_id by (by apply Hn); by destruct f..].
    destruct H as (-> & n & -> & Hw). pose proof (related_settle f stops ts i n d Stopped None (k_t f) R Hw ltac:(by left)) as H. by rewrite (list_insert_id (k_chans f)) in H.
  - replace (alter stop_timer i ts) with ts.
    + assert (stops !! i = None) as ->; [|done]. apply lookup_ge_None. apply lookup_ge_None in Hx. destruct R as [[-> _] _ _ _]. done.
    + apply list_eq. intros j. destruct (decide (i = j)) as [<-|Hne]; [by rewrite list_lookup_alter_eq, Hx|by rewrite list_lookup_alter_ne].
Qed.

Section Order.
Context (order : gmap nat fakeWaiter -> list (nat * fakeWaiter)) (order_perm : forall m, order m ≡ₚ map_to_list m).

Lemma clock_step_spec f stops ts a : related f stops ts ->
  exists f' stops', clock_step order (f, stops) a = Some ((f', stops'), snd (spec_step (k_t f, ts) a)) /\
    k_t f' = fst (fst (spec_step (k_t f, ts) a)) /\ related f' stops' (snd (fst (spec_step (k_t f, ts) a))).
Proof using order_perm.
  intros R. destruct a as [d|i|d|i]; cbn [clock_step spec_step fst snd].
  - pose proof (related_after f stops ts d R) as H. unfold After in *. destruct (d <=? 0); do 2 eexists; done.
  - do 2 eexists. split; [done|]. split; [|by apply related_stop]. by destruct (stops !! i) as [[n|]|].
  - unfold Advance. destruct (fire_related (k_t f + d) (order (k_waiters f)) f stops ts R) as (waiters & chans & -> & H).
    + rewrite order_perm. apply NoDup_fst_map_to_list.
    + intros n w. rewrite order_perm. apply elem_of_map_to_list.
    + intros n w Hw. left. rewrite order_perm. by apply elem_of_map_to_list.
    + cbn. do 2 eexists. done.
  - do 2 eexists. split; [|split; [|by apply related_alter_taken]]; [|done]. f_equal. f_equal. destruct (ts !! i) as [x|] eqn:Hx.
    + destruct (rel_timer _ _ _ R i x Hx) as (id & c & _ & -> & H & _). destruct x; naive_solver.
    + assert (k_chans f !! i = None) as ->; [|done]. apply lookup_ge_None. apply lookup_ge_None in Hx. destruct R as [[_ ->] _ _ _]. done.
Qed.

(** ** Claims *)

(** Whatever a test does with the clock — timers asked for, stopped before or
    after their time, channels read or not, the time moved in any steps — no
    send blocks, and each channel gives what the list of timers says: the first
    time at which the clock stood at or past the deadline, once, unless the timer
    was stopped before; in whatever order the map gives the waiters. *)
Theorem fake_clock_refines start l : clock_run order (NewFake start, []) l = Some (spec_run (start, []) l).
Proof using order_perm.
  assert (forall l f stops ts, related f stops ts -> clock_run order (f, stops) l = Some (spec_run (k_t f, ts) l)) as H.
  { clear l. induction l as [|a l IH]; intros f stops ts R; [done|]. cbn [clock_run spec_run]. destruct (clock_step_spec f stops ts a R) as (f' & stops' & -> & Ht & R').
    cbn [mbind option_bind]. rewrite (IH _ _ _ R'), Ht. by destruct (spec_step _ _) as [[t' ts'] v]. }
  apply (H l (NewFake start)). split; cbn; [done|set_solver..].
Qed.

End Order.

Lemma fake_clock_refines_witness :
  clock_run map_to_list (NewFake 0, []) [DoAfter 10; DoAfter 0; DoAfter 5; DoStop 2; DoRead 1; DoAdvance 7; DoRead 0; DoRead 2; DoAdvance 7; DoStop 0; DoRead 0; DoRead 0] =
    Some [None; None; None; None; Some 0; None; None; None; None; None; Some 14; None].
Proof. exact (fake_clock_refines map_to_list (fun m => Permutation_refl _) 0 [DoAfter 10; DoAfter 0; DoAfter 5; DoStop 2; DoRead 1; DoAdvance 7; DoRead 0; DoRead 2; DoAdvance 7; DoStop 0; DoRead 0; DoRead 0]). Defined.
