(* ===== verification/Instructions.v ===== *)
(** * The instructions of an agent, and identifiers (internal/mcp/instructions.go; internal/ids/ids.go)

    The text that tells an agent how to work names the endpoints of its account,
    one to a line. Identifiers are random version 4 UUIDs. *)
From Stdlib Require Import Ascii.
From S2P Require Import Prelude GoStrings Url PinStore Hydra AgentSession Profile.
#[local] Open Scope string_scope.

Definition newline : ascii := "010"%char.
Definition lf : string := String newline EmptyString.
Definition quote : string := String "034"%char EmptyString.

(** ** The text *)

(** The lines before and after the endpoints. *)
Definition instructions_head : list string :=
  ["ShellWatch is an SSH session broker. You can create terminal sessions to remote servers, send commands, and read output.";
   EmptyString;
   "Available endpoints:"].

Definition instructions_tail : list string :=
  [EmptyString;
   "Workflow:";
   "1. Create a session with shellwatch_create_session (pick an endpoint ID from above)";
   "2. Send commands with shellwatch_send_keys (e.g., keys: [" ++ quote ++ "text:ls -la" ++ quote ++ ", " ++ quote ++ "enter" ++ quote ++ "])";
   "3. Read the result with shellwatch_read_output (use afterOffset for incremental reads)";
   "4. Keep the session open for follow-up commands — do NOT close it after each command";
   "5. Only close with shellwatch_close_session when you are certain no more interactions are needed";
   EmptyString;
   "Waiting for output:";
   "- Pass waitMs to shellwatch_read_output (up to 30000) to long-poll: it returns as soon as output past afterOffset arrives, so you never need tight polling loops";
   "- Alternatively (protocol >= 2026-07-28), subscribe to shellwatch://sessions/<sessionId> via subscriptions/listen and re-read on notifications/resources/updated";
   EmptyString;
   "Session lifecycle:";
   "- Sessions persist across your requests (they belong to your OAuth client) and close on shellwatch_close_session, the remote end hanging up, or the server's idle timeout";
   "- Keep sessions open between commands so the human observer can see your work and send follow-ups";
   "- Creating a new session for every command is wasteful — list your existing sessions with shellwatch_list_sessions and reuse them";
   EmptyString;
   "sudo:";
   "- Do NOT pass -n (non-interactive). The human operator can attach to your session and type the password directly, so a [sudo] password: prompt is not a failure mode.";
   "- If you see a [sudo] password: prompt, ask the operator (in your reply) to enter the password in the session, then continue once read_output shows the prompt has cleared.";
   "- Do NOT chain sudo commands with && or || (e.g., `sudo cmd1 && sudo cmd2`). When a prompt appears the operator can't tell which command it belongs to. Send each sudo command separately so every prompt is unambiguous.";
   "- Sudo auth may go through a PAM module the operator satisfies out-of-band (push notification, hardware token, etc.) and can take tens of seconds — possibly falling back to a password prompt if the out-of-band step is declined or times out. A stalled prompt is not failure: keep polling read_output until the prompt clears or you see an explicit denial."].

(** %d *)
Definition itoa64 (z : Z) : string := if (z <? 0)%Z then "-" ++ itoa (- z) else itoa z.

Definition described (e : EndpointInfo) : option string := match ei_Description e with Some d => if bool_decide (d = EmptyString) then None else Some d | None => None end.

Definition endpoint_head (e : EndpointInfo) : string :=
  "- " ++ ei_ID e ++ ": " ++ ei_Label e ++ " (" ++ ei_Username e ++ "@" ++ ei_Host e ++ ":" ++ itoa64 (ei_Port e) ++ ")".

Definition endpoint_text (e : EndpointInfo) : string :=
  endpoint_head e ++ match described e with Some d => lf ++ "  description: " ++ d | None => EmptyString end.

Definition buildInstructions (endpoints : list EndpointInfo) : string :=
  Join (instructions_head ++ [Join (map endpoint_text endpoints) lf] ++ instructions_tail)%list lf.

(** The text of a request's agent: without endpoints it can read, none. *)
Definition instructions (sha256 : list byte -> list byte) (t : Table) (demo : option DemoService) (s : Agent) (show : bool) (io : list bool) : string :=
  match ListEndpoints sha256 t demo s show io with Some eps => buildInstructions eps | None => EmptyString end.

(** ** Identifiers *)

Definition set_version (b : ascii) : ascii := ascii_of_N (N.lor (N.land (N_of_ascii b) 15) 64).
Definition set_variant (b : ascii) : ascii := ascii_of_N (N.lor (N.land (N_of_ascii b) 63) 128).

(** The sixteen bytes with version and variant. *)
Fixpoint set_byte (s : string) (i : nat) (f : ascii -> ascii) : string :=
  match s, i with
  | EmptyString, _ => EmptyString
  | String a s, O => String (f a) s
  | String a s, S i => String a (set_byte s i f)
  end.

Definition stamped (b : string) : string := set_byte (set_byte b 6 set_version) 8 set_variant.

(** [b] is what the random source gave, h[i:j] is [substring i (j - i)]. *)
Definition NewUUID (b : string) : string :=
  let h := hex_encode (stamped b) in
  String.substring 0 8 h ++ "-" ++ String.substring 8 4 h ++ "-" ++ String.substring 12 4 h ++ "-" ++ String.substring 16 4 h ++ "-" ++ String.substring 20 12 h.

Example uuid_ex : NewUUID (String.string_of_list_ascii (repeat "255"%char 16)) = "ffffffff-ffff-4fff-bfff-ffffffffffff".
Proof. vm_compute. reflexivity. Qed.

(** ** Lemmas *)

(** An endpoint's lines. *)
Definition endpoint_lines (e : EndpointInfo) : list string :=
  endpoint_head e :: match described e with Some d => ["  description: " ++ d] | None => [] end.

(** No line break in what the owner wrote. *)
Definition one_line (e : EndpointInfo) : bool :=
  forallb (fun s => negb (has_byte s newline)) [ei_ID e; ei_Label e; ei_Username e; ei_Host e; default EmptyString (ei_Description e)].

Lemma itoa64_line z : has_byte (itoa64 z) newline = false.
Proof.
  assert (forall s, forall_str is_digit s = true -> has_byte s newline = false) as Hd.
  { induction s as [|a s IH]; [done|]. simpl. rewrite andb_true_iff. intros [Ha Hs]. specialize (IH Hs). unfold has_byte in *. simpl. rewrite bool_decide_false by (intros ->; discriminate).
    by destruct (IndexByte_str s newline). }
  unfold itoa64. destruct (z <? 0)%Z eqn:E; [rewrite has_byte_app; cbn [orb]|]; apply Hd, itoa_spec; lia.
Qed.

Lemma endpoint_text_lines e rest : one_line e = true -> Split (endpoint_text e ++ lf ++ rest) newline = (endpoint_lines e ++ Split rest newline)%list.
Proof.
  unfold one_line. cbn [forallb]. rewrite !andb_true_iff, !negb_true_iff. intros (H1 & H2 & H3 & H4 & H5 & _). unfold endpoint_text, endpoint_lines.
  assert (has_byte (endpoint_head e) newline = false) as Hh by (unfold endpoint_head; rewrite !has_byte_app, H1, H2, H3, H4, itoa64_line; done).
  assert (forall s, lf ++ s = String newline s) as Hlf by done. unfold described. destruct (ei_Description e) as [d|]; cbn [default] in H5; [destruct (bool_decide (d = ""))|].
  - rewrite app_str_nil_r, Hlf, Split_app by done. done.
  - rewrite !Hlf, app_str_assoc, app_str_cons, Split_app by done. cbn [app]. f_equal. rewrite Split_app; [done|]. unfold id in H5. by rewrite has_byte_app, H5.
  - rewrite app_str_nil_r, Hlf, Split_app by done. done.
Qed.

Lemma endpoints_lines eps rest : Forall (fun e => one_line e = true) eps -> eps <> [] ->
  Split (Join (map endpoint_text eps) lf ++ lf ++ rest) newline = (concat (map endpoint_lines eps) ++ Split rest newline)%list.
Proof.
  induction 1 as [|e eps He Hes IH]; [done|]. intros _. destruct eps as [|e' eps].
  - cbn [map Join concat]. rewrite endpoint_text_lines by done. by rewrite app_nil_r.
  - change (map endpoint_text (e :: e' :: eps)) with (endpoint_text e :: map endpoint_text (e' :: eps)). transitivity (endpoint_lines e ++ (concat (map endpoint_lines (e' :: eps)) ++ Split rest newline))%list; [|cbn [concat map]; by rewrite !app_assoc].
    rewrite <- IH, <- endpoint_text_lines by done. cbn [Join map]. by rewrite !app_str_assoc.
Qed.

Lemma head_lines s : Split (Join (instructions_head ++ [s]) lf) newline = (instructions_head ++ Split s newline)%list.
Proof. reflexivity. Qed.

Lemma tail_lines : Split (Join instructions_tail lf) newline = instructions_tail.
Proof. vm_compute. reflexivity. Qed.

Lemma hex_encode_inj s s' : hex_encode s = hex_encode s' -> s = s'.
Proof. intros H. pose proof (hex_roundtrip s) as Hs. rewrite H, hex_roundtrip in Hs. by injection Hs. Qed.

Lemma hex_encode_length s : String.length (hex_encode s) = (2 * String.length s)%nat.
Proof. induction s as [|a s IH]; [done|]. cbn [hex_encode String.length]. rewrite IH. lia. Qed.

Lemma set_byte_length s i f : String.length (set_byte s i f) = String.length s.
Proof. revert i. induction s as [|a s IH]; intros [|i]; cbn [set_byte String.length]; [done..|]. by rewrite IH. Qed.

Lemma string_chars n s : String.length s = n -> exists l, s = String.string_of_list_ascii l /\ length l = n.
Proof. intros <-. exists (String.list_ascii_of_string s). split; [by rewrite String.string_of_list_ascii_of_string|]. induction s; cbn; auto. Qed.

(** ** Claims *)

(** As long as what the owner wrote of its endpoints has no line break, an agent
    reads exactly the program's own lines, and between them one line for each
    endpoint of its account and, if asked to show them, each demo endpoint, with
    its description on the next line if it has one; if the endpoints cannot be
    read it gets no instructions. *)
Theorem instructions_lines sha256 t demo s show io eps : ListEndpoints sha256 t demo s show io = Some eps -> Forall (fun e => one_line e = true) eps ->
  Split (instructions sha256 t demo s show io) newline = (instructions_head ++ (match eps with [] => [""] | _ => concat (map endpoint_lines eps) end) ++ instructions_tail)%list /\
  Forall (fun i => (exists r, t !! ei_ID i = Some r /\ r_account r = ag_accountID s /\ r_enabled r = true) \/
                   (show = true /\ exists d e, demo = Some d /\ e ∈ List_ sha256 d (ag_accountID s) /\ ei_ID i = ep_ID e)) eps.
Proof.
  intros He Hl. split.
  - unfold instructions. rewrite He. unfold buildInstructions. change (instructions_head ++ [Join (map endpoint_text eps) lf] ++ instructions_tail)%list with (instructions_head ++ (Join (map endpoint_text eps) lf :: instructions_tail))%list.
    assert (Join (instructions_head ++ (Join (map endpoint_text eps) lf :: instructions_tail)) lf =
            Join (instructions_head ++ [Join (map endpoint_text eps) lf ++ lf ++ Join instructions_tail lf]) lf) as -> by reflexivity.
    rewrite head_lines. f_equal. destruct eps as [|e eps]; [by rewrite <- tail_lines|]. by rewrite endpoints_lines, tail_lines.
  - unfold ListEndpoints, Svc_ListForAccount, ListForAccount in He. destruct (answers io 0); [|done]. injection He as <-. apply Forall_forall. intros i (x & -> & Hx)%list_elem_of_fmap.
    apply elem_of_app in Hx as [(e & -> & He)%list_elem_of_fmap|Hx].
    + left. apply list_elem_of_fmap in He as ([id r] & -> & Hr). rewrite order_rows_perm in Hr. apply list_elem_of_In, filter_In in Hr as [Hin [Ha Hen]%andb_true_iff].
      apply list_elem_of_In, elem_of_map_to_list in Hin. exists r. apply bool_decide_eq_true in Ha. done.
    + right. destruct show; [|by apply not_elem_of_nil in Hx]. destruct demo as [d|]; [|by apply not_elem_of_nil in Hx]. apply list_elem_of_fmap in Hx as (e & -> & He). split; [done|]. by exists d, e.
Qed.

(** The identifiers of two draws are the same only if the draws agree in every
    bit but the six that say the version and the variant; and an identifier has
    36 characters, the fifteenth of which says version 4. *)
Theorem uuid_shape b b' : String.length b = 16%nat -> String.length b' = 16%nat ->
  (NewUUID b = NewUUID b' <-> stamped b = stamped b') /\ String.length (NewUUID b) = 36%nat /\ String.get 14 (NewUUID b) = Some "4"%char.
Proof.
  intros Hb Hb'. split_and!.
  - split; [|unfold NewUUID; by intros ->]. intros H. apply hex_encode_inj. unfold NewUUID in H.
    pose proof (hex_encode_length (stamped b)) as L. pose proof (hex_encode_length (stamped b')) as L'. unfold stamped in L, L'. rewrite !set_byte_length, Hb in L. rewrite !set_byte_length, Hb' in L'.
    revert H. unfold stamped. generalize dependent (hex_encode (set_byte (set_byte b 6 set_version) 8 set_variant)). generalize dependent (hex_encode (set_byte (set_byte b' 6 set_version) 8 set_variant)).
    intros h' L' h L. apply string_chars in L as (l & -> & L), L' as (l' & -> & L'). cbn in L, L'.
    do 32 (destruct l as [|? l]; [discriminate L|]; destruct l' as [|? l']; [discriminate L'|]). destruct l; [|discriminate L]. destruct l'; [|discriminate L']. cbn. intros H. by simplify_eq.
  - apply string_chars in Hb as (l & -> & L). do 16 (destruct l as [|? l]; [discriminate L|]). destruct l; [|discriminate L]. reflexivity.
  - apply string_chars in Hb as (l & -> & L). do 6 (destruct l as [|? l]; [discriminate L|]). destruct l as [|v l]; [discriminate L|].
    do 9 (destruct l as [|? l]; [discriminate L|]). destruct l; [|discriminate L]. destruct v as [[] [] [] [] [] [] [] []]; vm_compute; reflexivity.
Qed.

Lemma uuid_shape_witness : NewUUID (String.string_of_list_ascii (repeat "A"%char 16)) <> NewUUID (String.string_of_list_ascii (repeat "B"%char 16)).
Proof. intros H%(proj1 (uuid_shape (String.string_of_list_ascii (repeat "A"%char 16)) (String.string_of_list_ascii (repeat "B"%char 16)) eq_refl eq_refl)). discriminate H. Defined.

Definition sample_table : Table := {["ep"%string := mkRow "acc" "box" "h" 22 "root" "required" (Some "a box"%string) false true "t0" "t0" None [] None None None]}.

Lemma instructions_lines_witness :
  take 2 (drop 3 (Split (instructions (fun _ => []) sample_table None (NewAgent "acc" "client" "10.0.0.1" 3) true []) newline)) = ["- ep: box (root@h:22)"; "  description: a box"].
Proof.
  destruct (instructions_lines (fun _ => []) sample_table None (NewAgent "acc" "client" "10.0.0.1" 3) true [] [mkInfo "ep" "box" "h" 22 "root" (Some "a box"%string)]) as [H _].
  - vm_compute. reflexivity.
  - constructor; [|constructor]. reflexivity.
  - rewrite H. reflexivity.
Defined.
